(* ===== verification/_CoqProject ===== *)
-Q . S2P
Prelude.v
GoStrings.v
GoUtf8.v
GoUrl.v
GoTime.v
GoJson.v
Ids.v
Fga.v
Rights.v
RightsApps.v
RightsRoles.v
StoreOnly.v
Sha256.v
ComponentKeys.v
RouteTable.v
Authn.v
Decider.v
DeciderSafety.v
Revocation.v
ModelBootstrap.v
View.v
Membership.v
MembershipEvents.v
Guard.v
Usher.v
RegistrarGuard.v
RegistrarPeople.v
RegistrarHolders.v
Custodian.v
CustodianSafety.v
CustodianPrivacy.v
CustodianCases.v
CredentialCheck.v
SystemEngines.v
AppEntries.v
AppLayout.v
AppAddons.v
AppEdits.v
Repository.v
AppGrants.v
Placement.v
TenantStores.v
StoreRecord.v
DestroyJobs.v
AppPurge.v
PlacementWorker.v
RightsCheck.v
TokenReview.v
ArbiterTable.v
ArbiterStores.v
ArbiterRecorder.v
ArbiterIsolation.v
ArbiterModels.v
ArbiterResolve.v
ArbiterServer.v
ArbiterPlatform.v
ArbiterBackup.v
MembershipMirror.v
