(* ===== verification/Prelude.v ===== *)
(** * Gentian OS: who may do what, and what runs where

    Gentian OS runs the apps of many tenants on one Kubernetes cluster.  This library
    models the part of it that decides: who a caller is, what they may do, where the
    rights they have are kept, and which apps a tenant has.  Every definition is a
    translation of Go code under src/; the theorems say what that code guarantees, and a
    few say where it falls short of what its comments promise.

    ** The parts and how they meet

    A request of a person enters at the edge.  The bouncer finds its route, verifies the
    session's token against the realm's keys, asks the rights store and remembers an
    allow for a while; a poller follows the store's changelog and empties what it
    remembers.  Services behind the edge (director, usher) put a guard of the same steps
    in front of each route.  What the rights store holds is written by the operator's
    reconcilers from the cluster's resources, and by the projector from what Keycloak
    states about groups.  An app may have a store of its own: the arbiter keeps one for
    each component, lets it ask and write there by a key, and mirrors the groups of its
    realm into it.  Which apps a tenant has stands in its manifest in a git repository:
    the director edits it at a person's request, and a worker places what the operator
    decides.  The people and groups of a tenant's realm are Keycloak's: the registrar
    changes them at an administrator's request, under a guard that keeps the holders of
    the platform's roles out of its reach.  The credentials apps and the platform need are
    kept in OpenBao: the custodian shows who may see them what is set and what is missing,
    never a value, and sets them for who may.  Everything a tenant stores is found by names
    built from the tenant's own, and a tenant is admitted only when its names are free.

    ** Files and sources

    Foundations.
    - [Prelude]: errors and results, a state monad, sorting, lemmas and tactics.
    - [GoStrings], [GoUtf8], [GoUrl], [GoTime], [GoJson], [Sha256]: what the code uses of Go's
      standard library.

    The rights store (internal/director/authz, internal/openfga, internal/keycloak).
    - [Ids]: names to OpenFGA ids, roles and their scopes (authz.go, roles.go, groups.go).
    - [Fga]: batched writes and paged reads (openfga.go), against a server with OpenFGA's
      documented behaviour, and the interface [RightsStore] the reconcilers use.
    - [Rights], [RightsApps], [RightsRoles], [StoreOnly]: the reconcilers of apps.go,
      roles.go, tenants.go and what a backup carries (storeonly.go).
    - [ModelBootstrap]: the store and model in use (bootstrap.go, pinned.go).
    - [View]: who holds what (view.go).

    The edge and the services (internal/bouncer, internal/guard, internal/usher).
    - [ComponentKeys], [RouteTable], [Authn]: keys, routes, tokens.
    - [Decider], [DeciderSafety], [Revocation]: the decision, its cache, the poller.
    - [RightsCheck], [TokenReview]: a component's question, a workload's token.
    - [Guard], [Usher]: the guard, and the usher's routes behind it.

    Groups (internal/membership, internal/controller/app_store_mirror.go).
    - [Membership], [MembershipEvents], [MembershipMirror]: the projector, the endpoint
      Keycloak states to, and the way on into the app stores.

    App stores (internal/arbiter).
    - [ArbiterTable], [ArbiterStores], [ArbiterRecorder], [ArbiterServer],
      [ArbiterPlatform]: table, stores, record, and the two APIs.
    - [ArbiterModels]: that what is known and on record names models as they were written.
    - [ArbiterResolve], [ArbiterIsolation], [ArbiterBackup]: what they guarantee.

    Apps of a tenant (internal/director/gitops, internal/placement,
    internal/director/api/platform_apps.go).
    - [AppEntries]: the edits of a manifest's app list, on its text.
    - [AppLayout], [AppAddons], [AppEdits]: the text read as entries, and each edit as an
      edit of one entry.
    - [Repository]: an edit as one commit, tried again until it lands.
    - [AppGrants]: what an app may consume.
    - [Placement], [PlacementWorker]: what the operator places where, and the worker
      that writes it into the manifests.
    - [SystemEngines]: engines run on demand, and whose volumes go.

    People and groups of a realm (internal/registrar/identity).
    - [RegistrarGuard]: the realm tokens, a call on Keycloak, and the guard on every write
      (identity.go, guard.go).
    - [RegistrarPeople]: the operations (people.go, vouching.go).
    - [RegistrarHolders]: what sequences of them leave of a realm.

    Credentials (internal/custodian).
    - [Custodian]: the routes, the vault's client, and what a requirement's status says.
    - [CustodianSafety], [CustodianPrivacy], [CustodianCases]: who sets what, what answers
      reveal, and when a credential counts as being checked.
    - [CredentialCheck]: the check of a mail relay's credentials, over net/smtp.

    Tenants (internal/webhook, internal/tenancy, internal/handover,
    internal/backup/inventory.go).
    - [TenantStores]: the names of a tenant and of its stores, and the admission of tenants.
    - [StoreRecord]: the kinds of thing an app owns and the record of the stores that were
      made (internal/backup/record.go, teardown.go).
    - [DestroyJobs]: the Jobs that destroy a store and their scripts, command by command
      (internal/backup/teardown.go, mariadb.go), and what is documented of the servers.
    - [AppPurge]: the purge of an uninstalled app, step by step
      (internal/applifecycle/purge.go).

    ** How code is modelled

    A Go function is a function; [(T, error)] is [result T], with the error kept as what
    it was built from.  State is passed along: a struct with a lock is a record, and a
    method that holds the lock is one step.  Where calls of several parties interleave
    (the poller beside decisions, arbiters claiming a store, events handled at once), the
    steps between which others run are an inductive relation and the theorems are about
    every run of it.  Go's maps are [gmap]s; where the code ranges over one, the order is
    an argument or the result is sorted.  Strings are bytes; times are nanoseconds in
    [Z]; SHA-256 is computed on 32-bit words with their wrap-around.

    What is outside the repository is a parameter with its documented behaviour as the
    fields of a class, and an instance where a theorem has to be shown not vacuous:
    OpenFGA's server ([Fga.ServerLaws]), its questions, Keycloak's key endpoint and
    JWT library ([Authn.JoseLaws]), its administration API
    ([RegistrarGuard.KeycloakLaws]), the API server ([ArbiterRecorder]), git and the file
    system ([Repository]), the YAML decoder ([AppEntries.Yaml],
    [PlacementWorker.YamlLaws]), OpenBao and the cluster beside it ([Custodian]), a mail
    relay ([CredentialCheck]), and the cluster and the servers a purge and its Jobs call on
    ([DestroyJobs.ClusterLaws]).  Each call on them may fail.  Of an app's store the server is
    held to keep every model as it was written, under an id of its own
    ([ArbiterStores.AppInstanceLaws]), and to answer with it but for empty fields it fills
    in ([ArbiterBackup.ModelLaws]).

    ** Interfaces between the parts

    [RightsStore] and its laws stand between the reconcilers and the OpenFGA client,
    which [client_store] shows to provide it; [Recorder] between the arbiter's stores and
    the ConfigMap, which [configmap_recorder_laws] shows to provide it; [refined] between
    the edits of a text and the edits of entries, which [Repository] and
    [PlacementWorker] build on.

    ** What the theorems show

    - Decisions: a request is allowed exactly when its route, token and rights say so,
      cached allows were granted, the backend is told the verified identity, a revoked
      right ends with the cache entry.  It may outlive one poll: when an eviction falls
      between a decision's question and its write, or when it was revoked while the poller
      was still fast-forwarding; without either the cache follows the store.
    - Stores: each reconciler leaves exactly what it is for and touches nothing else; the
      projector refines a directory; bootstrap and readers agree on store and model.
    - Group events: a person has the groups of the newest statement about them, for as many
      statements as the receiver remembers or for statements that arrive within ten minutes.
    - App stores: no component reaches another's store, whatever fails; resolving leaves
      the declared model and tuples; a restored store exports what was restored.
    - Manifests: each write of an app list is one commit of its edit, and in a manifest laid
      out as the director lays it out ([AppLayout.wf]: the list two columns in, each app once)
      an edit of one entry; writes end; what the platform placed no hand changes; placement,
      with what comes with a capability of the cluster, settles in two passes and takes
      nothing away on one answer; whatever is written, a manifest stays well formed.
    - Realms: whatever the registrar is asked for, nobody becomes or ceases to be a holder
      of a platform role, and the holders' accounts stay as they are; a scoped realm token
      leaves the groups outside its scope alone, unless a person is removed with it.
    - Credentials: a credential is set only for a caller entitled to it; what is stored makes
      no difference to any answer; a relay is sent a password only under TLS.
    - Tenants: no two admitted tenants have a realm or a prefix in common, and which names
      make their stores meet all the same.
    - Purges: what is left of a store is still on record wherever a purge stops, and what it
      reports destroyed is gone, a bucket under Object Lock apart; what is not the app's by
      its names, or by its role's ownership, is spared; the record is a set of apps and kinds.
    - Where code and comment part: theorems with the kind error, each with an instance.

    ** Bounds and fuel

    Recursion is on the data wherever the code loops over data.  A loop over pages has
    fuel: [Fga.Read_complete] and [Revocation.poll_tick_spec] show that one more than there
    are pages or changes is enough, [Fga.send] is given one unit for each tuple of a batch,
    and listing stores by name reports running out as an error.  [View.rounds] has one
    round more than there are relations, enough by [rounds_end].  A change of the arbiter's
    record is bounded by the calls the code may make ([change_run_ends]).  The rounds of
    [Repository.applyTo] are given as a list, and [apply_ends] shows that a list that
    reaches past the contention budget is answered.  The exchange of a login
    ([CredentialCheck]) has fuel for the questions a relay asks, and its theorems hold for
    every amount.  The loop of MariaDB's script has fuel for the databases there are, and what
    is shown of a script that succeeds, and of what it spares, holds for every amount.  A
    wait of a purge has [DestroyJobs.polls] polls, which is as good as any more
    by [within_enough] and [pvcs_enough].

    ** Not modelled

    Decoding of JSON and YAML, HTTP and gRPC transport, logging, metrics and tickers; the
    operator's other controllers, which project resources through the Kubernetes API;
    the rest of the deployments repository (cluster claims, catalogs, domains, backups);
    the registrar's routes, invitations and mailboxes, and what others change in a realm
    between the guard's reading and the write it lets through; the backup and
    restore of a tenant's stores, which run as jobs, and the checks before a purge begins;
    rendering of apps, bundles and signatures; usage and traffic reports; the
    programs' flags and listeners.  They are calls on services outside the repository
    with little deciding of their own, or documents rendered for them. *)

From stdpp Require Export base gmap sets list strings sorting pretty relations.

#[export] Set Warnings "-clear-no-such-hyp".

(** ** Errors

    A Go [error] is kept as what it was built from: the format string and the
    string arguments of [fmt.Errorf] or [errors.New], with the error it wraps
    ([%w]) as a sub-term.  The rendered text is not computed, because no
    decision of the modelled code depends on it; the sentinel errors the code
    compares against with [errors.Is] are the [Sentinel]s. *)
Inductive error :=
  | Sentinel (name : string)
  | Errorf (format : string) (args : list string)
  | Wrapf (format : string) (args : list string) (cause : error).

#[global] Instance error_eq_dec : EqDecision error.
Proof.
  refine (fix go (x y : error) : Decision (x = y) :=
    match x, y with
    | Sentinel a, Sentinel b => cast_if (decide (a = b))
    | Errorf f a, Errorf g b => cast_if_and (decide (f = g)) (decide (a = b))
    | Wrapf f a e, Wrapf g b e' =>
        cast_if_and3 (decide (f = g)) (decide (a = b)) (go e e')
    | _, _ => right _
    end); abstract congruence.
Defined.

(** [errors.Is]: the sentinel somewhere in the chain of causes. *)
Fixpoint errors_Is (e : error) (s : string) : bool :=
  match e with
  | Sentinel n => bool_decide (n = s)
  | Errorf _ _ => false
  | Wrapf _ _ c => errors_Is c s
  end.

(** A Go function that returns [(T, error)]: a value, or the error. *)
Inductive result (A : Type) :=
  | Ok (a : A)
  | Err (e : error).
Arguments Ok {_} _.
Arguments Err {_} _.

#[global] Instance result_ret : MRet result := λ A a, Ok a.
#[global] Instance result_bind : MBind result := λ A B f r,
  match r with Ok a => f a | Err e => Err e end.
#[global] Instance result_fmap : FMap result := λ A B f r,
  match r with Ok a => Ok (f a) | Err e => Err e end.

#[global] Instance result_eq_dec `{EqDecision A} : EqDecision (result A).
Proof. solve_decision. Defined.

Definition is_ok {A} (r : result A) : bool :=
  match r with Ok _ => true | Err _ => false end.

(** [fmt.Errorf("...: %w", err)] on the way out of a call. *)
Definition wrap {A} (format : string) (args : list string) (r : result A) : result A :=
  match r with Ok a => Ok a | Err e => Err (Wrapf format args e) end.

Lemma bind_Ok {A B} (r : result A) (k : A → result B) b :
  (r ≫= k) = Ok b ↔ ∃ a, r = Ok a ∧ k a = Ok b.
Proof. destruct r; simpl; [|split; [done|by intros (?&?&_)]]. split; [eauto|]. by intros (a' & [= <-] & ?). Qed.
Lemma wrap_Ok {A} format args (r : result A) a : wrap format args r = Ok a ↔ r = Ok a.
Proof. destruct r; simpl; split; congruence. Qed.

(** ** Loops

    A [for range] over a slice whose body may [return] an error is a monadic
    left fold; one whose body only collects is a plain fold. *)
Fixpoint fold_result {A B} (f : B → A → result B) (b : B) (l : list A) : result B :=
  match l with
  | [] => Ok b
  | a :: l' => b' ← f b a; fold_result f b' l'
  end.

Section fold_result.
Context {A B : Type} (f : B → A → result B).

Lemma fold_result_app b l1 l2 :
  fold_result f b (l1 ++ l2) = (b' ← fold_result f b l1; fold_result f b' l2).
Proof.
  revert b. induction l1 as [|a l1 IH]; intros b; [done|].
  simpl. destruct (f b a); simpl; [apply IH | done].
Qed.

(** The invariant rule of such a loop. *)
Lemma fold_result_invariant (P : list A → B → Prop) b l b' :
  fold_result f b l = Ok b' →
  P [] b →
  (∀ seen a x x', seen ++ [a] `prefix_of` l → P seen x → f x a = Ok x' → P (seen ++ [a]) x') →
  P l b'.
Proof.
  intros Hrun HP0 Hstep.
  cut (∀ seen rest x, l = seen ++ rest → P seen x → fold_result f x rest = Ok b' → P l b').
  { intros Hgo. by apply (Hgo [] l b). }
  intros seen rest. revert seen. clear Hrun HP0.
  induction rest as [|a rest IH]; intros seen x Hl HP Hrun.
  - rewrite app_nil_r in Hl. subst. by simplify_eq/=.
  - simpl in Hrun. destruct (f x a) as [x'|] eqn:Hf; [|done].
    apply (IH (seen ++ [a]) x'); [by rewrite <-app_assoc | | done].
    apply (Hstep seen a x); [|done..].
    subst l. exists rest. by rewrite <-app_assoc.
Qed.

Lemma fold_result_total b l :
  (∀ x a, a ∈ l → ∃ x', f x a = Ok x') → ∃ b', fold_result f b l = Ok b'.
Proof.
  revert b. induction l as [|a l IH]; intros b Hok; [by exists b|].
  destruct (Hok b a) as [x' Hx']; [set_solver|]. simpl. rewrite Hx'. apply IH. set_solver.
Qed.
End fold_result.

(** ** Code that changes something and may fail

    A Go method that changes state and returns an error, whatever it has changed
    by then: the state it leaves, and its result. *)
Definition act (S A : Type) : Type := S → S * result A.

Section act.
Context {S : Type}.

Definition ret {A} (a : A) : act S A := λ s, (s, Ok a).
Definition fail {A} (e : error) : act S A := λ s, (s, Err e).
Definition of_result {A} (r : result A) : act S A := λ s, (s, r).
Definition act_bind {A B} (m : act S A) (k : A → act S B) : act S B := λ s,
  match m s with (s', Ok a) => k a s' | (s', Err e) => (s', Err e) end.
(** [_ = f()]: the error is dropped. *)
Definition ignoring {A} (m : act S A) : act S unit := λ s, ((m s).1, Ok tt).
Definition act_wrap {A} (format : string) (args : list string) (m : act S A) : act S A := λ s,
  let '(s', r) := m s in (s', wrap format args r).
(** A call whose error the caller looks at. *)
Definition tried {A} (m : act S A) : act S (result A) := λ s, let '(s', r) := m s in (s', Ok r).
(** [if err := ...; err != nil && !errors.Is(err, e)]. *)
Definition unless (sentinel : string) (m : act S unit) : act S unit :=
  act_bind (tried m) (λ r, match r with Err e => if errors_Is e sentinel then ret tt else fail e | Ok _ => ret tt end).
Fixpoint act_each {A} (f : A → act S unit) (l : list A) : act S unit :=
  match l with [] => ret tt | a :: l => act_bind (f a) (λ _, act_each f l) end.

Lemma act_bind_Ok {A B} (m : act S A) (k : A → act S B) s s' b :
  act_bind m k s = (s', Ok b) ↔ ∃ s1 a, m s = (s1, Ok a) ∧ k a s1 = (s', Ok b).
Proof.
  unfold act_bind. destruct (m s) as [s1 [a|e]]; split; [eauto|naive_solver|done|naive_solver].
Qed.
Lemma act_wrap_Ok {A} format args (m : act S A) s s' a :
  act_wrap format args m s = (s', Ok a) ↔ m s = (s', Ok a).
Proof.
  unfold act_wrap. destruct (m s) as [s1 r]. split; intros [= -> Hr].
  - by apply wrap_Ok in Hr as ->.
  - by rewrite Hr.
Qed.

(** What an action leaves behind: [R] with its value, or [E] with its error. *)
Definition triple {A} (Q : S → Prop) (m : act S A) (R : A → S → Prop) (E : S → Prop) : Prop :=
  ∀ s, Q s → match m s with (s', Ok a) => R a s' | (s', Err _) => E s' end.

Lemma triple_ret {A} (Q E : S → Prop) (R : A → S → Prop) a : (∀ s, Q s → R a s) → triple Q (ret a) R E.
Proof. intros HQ s Hs. by apply HQ. Qed.
Lemma triple_fail {A} (Q E : S → Prop) (R : A → S → Prop) e : (∀ s, Q s → E s) → triple Q (fail e) R E.
Proof. intros HQ s Hs. by apply HQ. Qed.
Lemma triple_of_result {A} (Q E : S → Prop) (R : A → S → Prop) r :
  (∀ s, Q s → match r with Ok a => R a s | Err _ => E s end) → triple Q (of_result r) R E.
Proof. intros HQ s Hs. specialize (HQ s Hs). simpl. by destruct r. Qed.
Lemma triple_bind {A B} (Q E : S → Prop) (M : A → S → Prop) (R : B → S → Prop) m k :
  triple Q m M E → (∀ a, triple (M a) (k a) R E) → triple Q (act_bind m k) R E.
Proof.
  intros Hm Hk s Hs. specialize (Hm s Hs). unfold act_bind. destruct (m s) as [s1 [a|e]]; [by apply Hk|done].
Qed.
Lemma triple_wrap {A} (Q E : S → Prop) (R : A → S → Prop) format args m :
  triple Q m R E → triple Q (act_wrap format args m) R E.
Proof. intros Hm s Hs. specialize (Hm s Hs). unfold act_wrap. by destruct (m s) as [s1 [a|e]]. Qed.
Lemma triple_ignoring {A} (Q E : S → Prop) m (R : unit → S → Prop) :
  triple (A:=A) Q m (λ _, R tt) (R tt) → triple Q (ignoring m) R E.
Proof. intros Hm s Hs. specialize (Hm s Hs). unfold ignoring. by destruct (m s) as [s1 [a|e]]. Qed.
Lemma triple_each {A} (Q : S → Prop) (f : A → act S unit) l :
  (∀ a, triple Q (f a) (λ _, Q) Q) → triple Q (act_each f l) (λ _, Q) Q.
Proof. intros Hf. induction l as [|a l IH]; [by apply triple_ret|]. eapply triple_bind; [apply Hf|done]. Qed.
Lemma triple_weaken {A} (Q Q' E E' : S → Prop) (R R' : A → S → Prop) m :
  triple Q' m R' E' → (∀ s, Q s → Q' s) → (∀ a s, R' a s → R a s) → (∀ s, E' s → E s) → triple Q m R E.
Proof.
  intros Hm HQ HR HE s Hs. specialize (Hm s (HQ s Hs)). destruct (m s) as [s1 [a|e]]; auto.
Qed.
Lemma triple_left {A} (Q : S → Prop) (m : act S A) s : triple Q m (λ _, Q) Q → Q s → Q (m s).1.
Proof. intros Hm Hs. specialize (Hm s Hs). by destruct (m s) as [s1 [a|e]]. Qed.

(** What an action keeps, whatever comes of it. *)
Definition kept {A} (Q : S → Prop) (m : act S A) : Prop := triple Q m (λ _, Q) Q.

Lemma kept_bind {A B} Q (m : act S A) (k : A → act S B) : kept Q m → (∀ a, kept Q (k a)) → kept Q (act_bind m k).
Proof. intros Hm Hk. by eapply triple_bind. Qed.
Lemma kept_ret {A} Q (a : A) : kept Q (ret a).
Proof. by apply triple_ret. Qed.
Lemma kept_fail {A} Q e : kept (A := A) Q (fail e).
Proof. by apply triple_fail. Qed.
Lemma kept_of_result {A} Q (r : result A) : kept Q (of_result r).
Proof. apply triple_of_result. by destruct r. Qed.
Lemma kept_wrap {A} Q format args (m : act S A) : kept Q m → kept Q (act_wrap format args m).
Proof. apply triple_wrap. Qed.
Lemma kept_unchanged {A} Q (m : act S A) : (∀ s, (m s).1 = s) → kept Q m.
Proof. intros Hm s Hs. specialize (Hm s). destruct (m s) as [s' [a|e]]; cbn in Hm; by subst. Qed.
Lemma kept_tried {A} Q (m : act S A) : kept Q m → kept Q (tried m).
Proof. intros Hm s Hs. specialize (Hm s Hs). unfold tried. by destruct (m s) as [s' [a|e]]. Qed.
Lemma kept_unless Q sentinel (m : act S unit) : kept Q m → kept Q (unless sentinel m).
Proof. intros Hm. apply kept_bind; [by apply kept_tried|]. intros [[]|e]; [apply kept_ret|]. destruct (errors_Is _ _); [apply kept_ret|apply kept_fail]. Qed.

(** Two runs of an action from related states: they end in related states, with the same
    result. *)
Definition alike {A} (R : S → S → Prop) (m : act S A) : Prop := ∀ s t, R s t → R (m s).1 (m t).1 ∧ (m s).2 = (m t).2.

Lemma alike_bind {A B} R (m : act S A) (k : A → act S B) : alike R m → (∀ a, alike R (k a)) → alike R (act_bind m k).
Proof.
  intros Hm Hk s t Hst. destruct (Hm s t Hst) as [HR Hr]. unfold act_bind. destruct (m s) as [s' r], (m t) as [t' r']. cbn in HR, Hr. subst r'.
  destruct r as [a|e]; [by apply Hk|done].
Qed.
Lemma alike_ret {A} R (a : A) : alike R (ret a).
Proof. by intros s t Hst. Qed.
Lemma alike_fail {A} R e : alike (A := A) R (fail e).
Proof. by intros s t Hst. Qed.
Lemma alike_of_result {A} R (r : result A) : alike R (of_result r).
Proof. by intros s t Hst. Qed.
Lemma alike_tried {A} R (m : act S A) : alike R m → alike R (tried m).
Proof. intros Hm s t Hst. destruct (Hm s t Hst) as [HR Hr]. unfold tried. destruct (m s) as [s' r], (m t) as [t' r']. cbn in *. by subst r'. Qed.
End act.

Declare Scope act_scope.
Delimit Scope act_scope with act.
Notation "x ⇐ m ; k" := (act_bind m (λ x : _, k)) (at level 20, m at level 100, k at level 200, right associativity) : act_scope.
Notation "m ;; k" := (act_bind m (λ _, k)) (at level 100, k at level 200, right associativity) : act_scope.

(** ** Boolean reflection

    [go_bool] turns the boolean conditions of the code into propositions. *)
Create Rewrite HintDb go_bool.
Create HintDb go_str.

Lemma bool_decide_spec_true P `{Decision P} : bool_decide P = true ↔ P.
Proof. apply bool_decide_eq_true. Qed.
Lemma bool_decide_spec_false P `{Decision P} : bool_decide P = false ↔ ¬ P.
Proof. apply bool_decide_eq_false. Qed.

#[export] Hint Rewrite andb_true_iff andb_false_iff orb_true_iff orb_false_iff
  negb_true_iff negb_false_iff @bool_decide_spec_true @bool_decide_spec_false : go_bool.

Ltac go_bool := autorewrite with go_bool in *.

(** Case analysis on the innermost condition or scrutinee of the goal or of a
    hypothesis, with what it decides recorded, then injectivity. *)
Ltac go_case :=
  match goal with
  | H : context [match ?x with _ => _ end] |- _ => destruct x eqn:?
  | |- context [match ?x with _ => _ end] => destruct x eqn:?
  end; simplify_eq/=.

Ltac go_cases := repeat go_case.

(** Introduce the witnesses of every hypothesis [∃ x, P]. *)
Ltac go_ex :=
  repeat match goal with
  | H : ∃ _, _ |- _ => let x := fresh "x" in destruct H as [x H]
  | H : _ ∧ _ |- _ => destruct H
  end.

(** ** Lists *)

Lemma existsb_elem_of {A} (p : A → bool) l :
  existsb p l = true ↔ ∃ x, x ∈ l ∧ p x = true.
Proof. rewrite existsb_exists. by setoid_rewrite list_elem_of_In. Qed.

Lemma existsb_false_elem_of {A} (p : A → bool) l :
  existsb p l = false ↔ ∀ x, x ∈ l → p x = false.
Proof.
  rewrite <-not_true_iff_false, existsb_elem_of. split.
  - intros Hn x Hx. apply not_true_iff_false. naive_solver.
  - intros Hf (x & Hx & Hp). rewrite Hf in Hp; done.
Qed.

Lemma forallb_elem_of {A} (p : A → bool) l :
  forallb p l = true ↔ ∀ x, x ∈ l → p x = true.
Proof. rewrite forallb_forall. by setoid_rewrite list_elem_of_In. Qed.

Lemma find_elem_of {A} (p : A → bool) l x :
  List.find p l = Some x → x ∈ l ∧ p x = true.
Proof. intros [Hin Hp]%find_some. by rewrite list_elem_of_In. Qed.

Lemma find_None_elem_of {A} (p : A → bool) l :
  List.find p l = None ↔ ∀ x, x ∈ l → p x = false.
Proof.
  split.
  - intros Hf x Hx. apply (find_none p l Hf). by apply list_elem_of_In.
  - induction l as [|y l IH]; intros Hall; simpl; [done|].
    rewrite (Hall y) by set_solver. apply IH. set_solver.
Qed.

(** ** Sorting

    [sort.Strings], and [sort.Slice] by the string key of an element.  A merge
    sort is stable where Go's is not, so the two agree up to the order of
    elements that share a key; the modelled slices are sorted by keys that
    determine their elements. *)
Definition sort_strings (l : list string) : list string := merge_sort String.le l.

Definition key_le {A} (key : A → string) : relation A := λ a b, String.le (key a) (key b).
#[global] Instance key_le_dec {A} (key : A → string) : RelDecision (key_le key).
Proof. intros a b. unfold key_le. apply _. Defined.
#[global] Instance key_le_total {A} (key : A → string) : Total (key_le key).
Proof. intros a b. apply (total String.le). Qed.
#[global] Instance key_le_trans {A} (key : A → string) : Transitive (key_le key).
Proof. intros a b c. unfold key_le. apply transitivity. Qed.

Definition sort_by {A} (key : A → string) (l : list A) : list A := merge_sort (key_le key) l.

Lemma sort_strings_perm l : sort_strings l ≡ₚ l.
Proof. apply merge_sort_Permutation. Qed.
Lemma sort_strings_sorted l : StronglySorted String.le (sort_strings l).
Proof. apply StronglySorted_merge_sort; apply _. Qed.
Lemma sort_by_perm {A} (key : A → string) l : sort_by key l ≡ₚ l.
Proof. apply merge_sort_Permutation. Qed.
Lemma sort_by_sorted {A} (key : A → string) l : StronglySorted (key_le key) (sort_by key l).
Proof. apply StronglySorted_merge_sort; apply _. Qed.

Lemma elem_of_sort_strings x l : x ∈ sort_strings l ↔ x ∈ l.
Proof. by rewrite sort_strings_perm. Qed.
Lemma elem_of_sort_by {A} (key : A → string) x l : x ∈ sort_by key l ↔ x ∈ l.
Proof. by rewrite sort_by_perm. Qed.

(** Two sorted slices with the same elements are the same slice: the order in
    which Go ranged over a map before sorting does not show. *)
Lemma sort_strings_proper l1 l2 : l1 ≡ₚ l2 → sort_strings l1 = sort_strings l2.
Proof.
  intros Hp. apply (StronglySorted_unique String.le).
  - apply sort_strings_sorted.
  - apply sort_strings_sorted.
  - by rewrite !sort_strings_perm.
Qed.

(** ** Reachability *)

Lemma pair_snd {A B} (p : A * B) (b : B) : p.2 = b → p = (p.1, b).
Proof. destruct p. by intros [= ->]. Qed.

Lemma exists_elem_snoc {A} (Q : A → Prop) l a :
  (∃ b, b ∈ l ++ [a] ∧ Q b) ↔ (∃ b, b ∈ l ∧ Q b) ∨ Q a.
Proof. setoid_rewrite elem_of_app. setoid_rewrite list_elem_of_singleton. naive_solver. Qed.

Lemma exists_elem_nil {A} (Q : A → Prop) : (∃ b, b ∈ [] ∧ Q b) ↔ False.
Proof. split; [|done]. by intros (b & Hb%elem_of_nil & _). Qed.

Lemma rtc_invariant {S} (R : relation S) (I : S → Prop) s s' :
  (∀ x y, I x → R x y → I y) → rtc R s s' → I s → I s'.
Proof. intros Hstep Hrun. induction Hrun; eauto. Qed.
