(* ===== verification/GoStrings.v ===== *)
(** * Go's [strings] package, as far as the modelled code uses it

    A Go string is a sequence of bytes, and so is a [string] here.  The
    functions are the ones of Go's standard library, restricted to the argument
    shapes the code has: every separator and every cutset the code passes is a
    literal of ASCII characters, on which the byte-wise definitions below and
    Go's rune-wise ones agree.

    The one function that needs the Unicode tables is [strings.ToLower] on a
    string with a byte above 127; its result there is the parameter
    [lower_unicode]. *)

From S2P Require Import Prelude.
From Stdlib Require Export Ascii.

Declare Scope go_scope.
Delimit Scope go_scope with go.

(** ** Characters *)

Definition byte_of (c : ascii) : nat := nat_of_ascii c.

Fixpoint str_existsb (p : ascii → bool) (s : string) : bool :=
  match s with
  | "" => false
  | String c s' => p c || str_existsb p s'
  end.

Definition str_forallb (p : ascii → bool) (s : string) : bool :=
  negb (str_existsb (λ c, negb (p c)) s).

Definition char_in (c : ascii) (cs : string) : bool := str_existsb (Ascii.eqb c) cs.

(** Blank, tab, carriage return and newline: the literal [" \t\r\n"]. *)
Definition blanks : string := String " " (String "009" (String "013" (String "010" ""))).

(** [strings.ContainsAny(s, cs)] and [strings.Contains(s, string(c))]. *)
Definition contains_any (s cs : string) : bool := str_existsb (λ c, char_in c cs) s.
Definition contains_byte (s : string) (c : ascii) : bool := str_existsb (Ascii.eqb c) s.

(** ** Prefixes *)

(** [strings.CutPrefix]: the rest, when there is the prefix. *)
Fixpoint cut_prefix (s p : string) {struct p} : option string :=
  match p, s with
  | "", _ => Some s
  | String c p', String d s' => if Ascii.eqb c d then cut_prefix s' p' else None
  | String _ _, "" => None
  end.

Definition has_prefix (s p : string) : bool :=
  match cut_prefix s p with Some _ => true | None => false end.

Definition trim_prefix (s p : string) : string := default s (cut_prefix s p).

(** [strings.TrimSuffix] of a one-byte suffix. *)
Fixpoint trim_suffix_byte (s : string) (c : ascii) : string :=
  match s with
  | "" => ""
  | String d "" => if Ascii.eqb d c then "" else s
  | String d s' => String d (trim_suffix_byte s' c)
  end.

(** [strings.TrimSuffix]. *)
Definition trim_suffix (s x : string) : string :=
  match cut_prefix (String.rev s) (String.rev x) with
  | Some r => String.rev r
  | None => s
  end.

(** ** Cutting, splitting and joining *)

(** [strings.Cut] at the first byte [sep]: [None] when it is not there. *)
Fixpoint cut (s : string) (sep : ascii) : option (string * string) :=
  match s with
  | "" => None
  | String c s' =>
      if Ascii.eqb c sep then Some ("", s')
      else match cut s' sep with
           | Some (a, b) => Some (String c a, b)
           | None => None
           end
  end.

(** The same at the last byte [sep] ([strings.LastIndex]). *)
Fixpoint cut_last (s : string) (sep : ascii) : option (string * string) :=
  match s with
  | "" => None
  | String c s' =>
      match cut_last s' sep with
      | Some (a, b) => Some (String c a, b)
      | None => if Ascii.eqb c sep then Some ("", s') else None
      end
  end.

(** The string up to the first byte of [cs]:
    [if i := strings.IndexAny(s, cs); i >= 0 { s = s[:i] }]. *)
Fixpoint before_any (s cs : string) : string :=
  match s with
  | "" => ""
  | String c s' => if char_in c cs then "" else String c (before_any s' cs)
  end.

(** [strings.Split] at every byte [sep]. *)
Fixpoint split (s : string) (sep : ascii) : list string :=
  match s with
  | "" => [""]
  | String c s' =>
      if Ascii.eqb c sep then "" :: split s' sep
      else match split s' sep with
           | [] => [String c ""]
           | p :: ps => String c p :: ps
           end
  end.

(** [strings.Join] with a one-byte separator. *)
Fixpoint join (l : list string) (sep : ascii) : string :=
  match l with
  | [] => ""
  | [p] => p
  | p :: ps => p +:+ String sep (join ps sep)
  end.

(** [strings.ReplaceAll] of one byte by another. *)
Fixpoint replace_byte (s : string) (a b : ascii) : string :=
  match s with
  | "" => ""
  | String c s' => String (if Ascii.eqb c a then b else c) (replace_byte s' a b)
  end.

(** ** Trimming *)

Fixpoint trim_left (s cs : string) : string :=
  match s with
  | "" => ""
  | String c s' => if char_in c cs then trim_left s' cs else s
  end.

Fixpoint trim_right (s cs : string) : string :=
  match s with
  | "" => ""
  | String c s' =>
      match trim_right s' cs with
      | "" => if char_in c cs then "" else String c ""
      | r => String c r
      end
  end.

(** [strings.Trim]. *)
Definition trim (s cs : string) : string := trim_right (trim_left s cs) cs.

(** [unicode.IsSpace], on the UTF-8 encodings of the white-space runes: six
    ASCII bytes, two runes of two bytes, and the runes of three bytes. *)
Definition space1 (a : ascii) : bool :=
  bool_decide (byte_of a ∈ [9; 10; 11; 12; 13; 32]).
Definition space2 (a b : ascii) : bool :=
  bool_decide (byte_of a = 194) && bool_decide (byte_of b ∈ [133; 160]).
Definition space3 (a b c : ascii) : bool :=
  let x := byte_of a in let y := byte_of b in let z := byte_of c in
  (bool_decide (x = 225) && bool_decide (y = 154) && bool_decide (z = 128))
  || (bool_decide (x = 226) && bool_decide (y = 128)
      && (bool_decide (128 ≤ z ≤ 138) || bool_decide (z ∈ [168; 169; 175])))
  || (bool_decide (x = 226) && bool_decide (y = 129) && bool_decide (z = 159))
  || (bool_decide (x = 227) && bool_decide (y = 128) && bool_decide (z = 128)).

Fixpoint trim_spaces_by (s2 : ascii → ascii → bool) (s3 : ascii → ascii → ascii → bool)
    (s : string) : string :=
  match s with
  | "" => ""
  | String a s1 =>
      if space1 a then trim_spaces_by s2 s3 s1
      else match s1 with
           | "" => s
           | String b r2 =>
               if s2 a b then trim_spaces_by s2 s3 r2
               else match r2 with
                    | "" => s
                    | String c r3 => if s3 a b c then trim_spaces_by s2 s3 r3 else s
                    end
           end
  end.

(** [strings.TrimSpace]: from the left, then from the right. *)
Definition trim_space (s : string) : string :=
  let l := trim_spaces_by space2 space3 s in
  String.rev (trim_spaces_by (λ b a, space2 a b) (λ c b a, space3 a b c) (String.rev l)).

(** [strings.Fields]: the words between runs of white space; [cur] is the word
    being read. *)
Fixpoint fields_from (cur s : string) : list string :=
  let emit rest := if bool_decide (cur = "") then rest else cur :: rest in
  match s with
  | "" => emit []
  | String a s1 =>
      if space1 a then emit (fields_from "" s1)
      else match s1 with
           | String b s2 =>
               if space2 a b then emit (fields_from "" s2)
               else match s2 with
                    | String c s3 =>
                        if space3 a b c then emit (fields_from "" s3)
                        else fields_from (cur +:+ String a "") s1
                    | "" => fields_from (cur +:+ String a "") s1
                    end
           | "" => fields_from (cur +:+ String a "") s1
           end
  end.
Definition fields (s : string) : list string := fields_from "" s.

(** ** Case *)

Definition lower_byte (c : ascii) : ascii :=
  let n := byte_of c in
  if bool_decide (65 ≤ n ≤ 90) then ascii_of_nat (n + 32) else c.

Fixpoint lower_ascii (s : string) : string :=
  match s with
  | "" => ""
  | String c s' => String (lower_byte c) (lower_ascii s')
  end.

Definition is_ascii (s : string) : bool := str_forallb (λ c, bool_decide (byte_of c < 128)) s.

(** What [unicode.ToLower] makes of a string that is not ASCII. *)
Class Unicode := lower_unicode : string → string.

Definition to_lower `{Unicode} (s : string) : string :=
  if is_ascii s then lower_ascii s else lower_unicode s.

(** [strings.EqualFold(s, t)] for a [t] of ASCII bytes other than [k] and [s]
    (the two ASCII letters with a non-ASCII fold). *)
Definition equal_fold_ascii (s t : string) : bool :=
  bool_decide (lower_ascii s = lower_ascii t).

(** What [strings.EqualFold] makes of strings that are not both ASCII. *)
Class UnicodeFold := fold_unicode : string → string → bool.
Definition equal_fold `{UnicodeFold} (s t : string) : bool :=
  if is_ascii s && is_ascii t then equal_fold_ascii s t else fold_unicode s t.

(** ** Slicing by bytes: [s[:n]] and [s[n:]] *)

Fixpoint take_str (n : nat) (s : string) : string :=
  match n, s with
  | S n', String c s' => String c (take_str n' s')
  | _, _ => ""
  end.

Fixpoint drop_str (n : nat) (s : string) : string :=
  match n, s with
  | S n', String _ s' => drop_str n' s'
  | 0, _ => s
  | S _, "" => ""
  end.

(** ** Character classes of the regular expressions the code matches names with *)

Definition is_lower_alnum (c : ascii) : bool :=
  let n := byte_of c in bool_decide (97 ≤ n ≤ 122) || bool_decide (48 ≤ n ≤ 57).
Definition is_alnum (c : ascii) : bool :=
  let n := byte_of c in is_lower_alnum c || bool_decide (65 ≤ n ≤ 90).
Definition is_hex_lower (c : ascii) : bool :=
  let n := byte_of c in bool_decide (97 ≤ n ≤ 102) || bool_decide (48 ≤ n ≤ 57).

(** [^[a-z0-9]([-a-z0-9]{0,61}[a-z0-9])?$]: a DNS label. *)
Definition dns_label (s : string) : bool :=
  str_forallb (λ c, is_lower_alnum c || Ascii.eqb c "-") s
  && bool_decide (1 ≤ String.length s ≤ 63)
  && match s with "" => false | String c _ => is_lower_alnum c end
  && match String.rev s with "" => false | String c _ => is_lower_alnum c end.

(** ** Lemmas *)

Lemma app_cons c s t : String c s +:+ t = String c (s +:+ t).
Proof. done. Qed.
Lemma app_empty_l t : "" +:+ t = t.
Proof. done. Qed.
Lemma app_empty_r s : s +:+ "" = s.
Proof. induction s as [|c s IH]; [done|]. by rewrite app_cons, IH. Qed.
Lemma app_assoc_str s t u : (s +:+ t) +:+ u = s +:+ (t +:+ u).
Proof. induction s as [|c s IH]; [done|]. by rewrite !app_cons, IH. Qed.
Lemma app_length_str s t : String.length (s +:+ t) = String.length s + String.length t.
Proof. induction s as [|c s IH]; [done|]. rewrite app_cons. simpl. by rewrite IH. Qed.

Create Rewrite HintDb go_str.
#[export] Hint Rewrite app_cons app_empty_l app_empty_r app_assoc_str : go_str.
Ltac go_str := autorewrite with go_str in *.

Lemma app_inj_str s t u : s +:+ t = s +:+ u → t = u.
Proof. apply (inj (String.append s)). Qed.

(** *** Membership of characters *)

Lemma str_existsb_app p s t : str_existsb p (s +:+ t) = str_existsb p s || str_existsb p t.
Proof.
  induction s as [|c s IH]; [done|]. rewrite app_cons. simpl. by rewrite IH, orb_assoc.
Qed.

Lemma contains_byte_app s t c : contains_byte (s +:+ t) c = contains_byte s c || contains_byte t c.
Proof. apply str_existsb_app. Qed.

Lemma contains_byte_cons s d c : contains_byte (String d s) c = Ascii.eqb c d || contains_byte s c.
Proof. done. Qed.

Lemma contains_any_app s t cs : contains_any (s +:+ t) cs = contains_any s cs || contains_any t cs.
Proof. apply str_existsb_app. Qed.

Lemma contains_any_cons c s cs : contains_any (String c s) cs = char_in c cs || contains_any s cs.
Proof. done. Qed.

(** A string that contains none of a set of characters contains no one of them. *)
Lemma contains_any_byte s cs c :
  contains_any s cs = false → char_in c cs = true → contains_byte s c = false.
Proof.
  intros Hs Hc. induction s as [|d s IH]; [done|].
  cbn in *. apply orb_false_iff in Hs as [Hd Hs].
  apply orb_false_iff. split; [|by apply IH].
  destruct (Ascii.eqb_spec c d) as [->|]; [|done]. by rewrite Hc in Hd.
Qed.

Lemma str_forallb_cons p c s : str_forallb p (String c s) = p c && str_forallb p s.
Proof. unfold str_forallb. simpl. by rewrite negb_orb, negb_involutive. Qed.

Lemma str_forallb_contains p s c :
  str_forallb p s = true → p c = false → contains_byte s c = false.
Proof.
  intros Hs Hc. induction s as [|d s IH]; [done|].
  rewrite str_forallb_cons in Hs. apply andb_true_iff in Hs as [Hd Hs].
  rewrite contains_byte_cons, (IH Hs), orb_false_r.
  destruct (Ascii.eqb_spec c d) as [->|]; congruence.
Qed.

Lemma contains_any_app_r s cs ds :
  contains_any s (cs +:+ ds) = contains_any s cs || contains_any s ds.
Proof.
  induction s as [|c s IH]; [done|]. cbn. unfold contains_any in IH. rewrite IH.
  unfold char_in. rewrite str_existsb_app.
  by destruct (str_existsb (Ascii.eqb c) cs), (str_existsb (Ascii.eqb c) ds),
    (str_existsb (λ c0, str_existsb (Ascii.eqb c0) cs) s).
Qed.

Lemma dns_label_contains s c :
  dns_label s = true → is_lower_alnum c || Ascii.eqb c "-" = false → contains_byte s c = false.
Proof.
  unfold dns_label. intros Hs Hc. repeat (apply andb_true_iff in Hs as [Hs _]).
  by eapply str_forallb_contains.
Qed.

Lemma str_forallb_contains_any p s cs :
  str_forallb p s = true → str_forallb (λ c, negb (p c)) cs = true → contains_any s cs = false.
Proof.
  intros Hs Hcs. induction s as [|d s IH]; [done|].
  rewrite str_forallb_cons in Hs. apply andb_true_iff in Hs as [Hd Hs].
  rewrite contains_any_cons, (IH Hs), orb_false_r.
  assert (contains_byte cs d = false) as Hcd; [|done].
  eapply str_forallb_contains; [exact Hcs|]. simpl. by rewrite Hd.
Qed.

Lemma dns_label_contains_any s cs :
  dns_label s = true → str_forallb (λ c, negb (is_lower_alnum c || Ascii.eqb c "-")) cs = true →
  contains_any s cs = false.
Proof.
  unfold dns_label. intros Hs Hc. repeat (apply andb_true_iff in Hs as [Hs _]).
  by eapply str_forallb_contains_any.
Qed.

Lemma dns_label_nonempty s : dns_label s = true → s ≠ "".
Proof. by intros Hs ->. Qed.

(** *** Prefixes *)

Lemma cut_prefix_Some s p r : cut_prefix s p = Some r ↔ s = p +:+ r.
Proof.
  revert s. induction p as [|c p IH]; intros s; simpl.
  - rewrite app_empty_l. split; congruence.
  - rewrite app_cons. destruct s as [|d s]; [by split|].
    destruct (Ascii.eqb_spec c d) as [->|Hne]; [rewrite IH|]; split; congruence.
Qed.

Lemma cut_prefix_app p r : cut_prefix (p +:+ r) p = Some r.
Proof. by apply cut_prefix_Some. Qed.

Lemma has_prefix_spec s p : has_prefix s p = true ↔ ∃ r, s = p +:+ r.
Proof.
  unfold has_prefix. setoid_rewrite <-cut_prefix_Some.
  destruct (cut_prefix s p) as [r|]; [split; eauto|]. by split; [|intros [? ?]].
Qed.

Lemma has_prefix_app p r : has_prefix (p +:+ r) p = true.
Proof. apply has_prefix_spec. eauto. Qed.

(** *** Cutting *)

Lemma cut_app a b sep : contains_byte a sep = false → cut (a +:+ String sep b) sep = Some (a, b).
Proof.
  induction a as [|c a IH]; intros Ha.
  - rewrite app_empty_l. simpl. by rewrite Ascii.eqb_refl.
  - rewrite app_cons. simpl. rewrite contains_byte_cons in Ha.
    apply orb_false_iff in Ha as [Hc Ha].
    rewrite Ascii.eqb_sym, Hc, (IH Ha). done.
Qed.

Lemma cut_Some s sep a b :
  cut s sep = Some (a, b) ↔ s = a +:+ String sep b ∧ contains_byte a sep = false.
Proof.
  split; [|intros [-> Ha]; by apply cut_app].
  revert a b. induction s as [|c s IH]; intros a b; simpl; [done|].
  destruct (Ascii.eqb_spec c sep) as [->|Hne]; [by intros [= <- <-]|].
  destruct (cut s sep) as [[a' b']|]; [|done]. intros [= <- <-].
  destruct (IH a' b' eq_refl) as [-> Ha]. split; [done|].
  rewrite contains_byte_cons, Ha, orb_false_r. by apply Ascii.eqb_neq.
Qed.

Lemma cut_None s sep : cut s sep = None ↔ contains_byte s sep = false.
Proof.
  induction s as [|c s IH]; simpl; [done|].
  rewrite contains_byte_cons, (Ascii.eqb_sym sep c).
  destruct (Ascii.eqb c sep); simpl; [done|].
  rewrite <-IH. by destruct (cut s sep) as [[]|].
Qed.

(** Two strings cut at the first separator in the same way. *)
Lemma app_sep_inj a a' b b' sep :
  contains_byte a sep = false → contains_byte a' sep = false →
  a +:+ String sep b = a' +:+ String sep b' → a = a' ∧ b = b'.
Proof.
  intros Ha Ha' Heq. apply (f_equal (λ s, cut s sep)) in Heq.
  rewrite !cut_app in Heq by done. by simplify_eq.
Qed.

Lemma before_any_prefix s cs : ∃ r, s = before_any s cs +:+ r.
Proof.
  induction s as [|c s [r IH]]; simpl; [by exists ""|].
  destruct (char_in c cs); [by eexists|].
  exists r. by rewrite app_cons, <-IH.
Qed.

Lemma before_any_clean s cs : contains_any (before_any s cs) cs = false.
Proof.
  induction s as [|c s IH]; simpl; [done|].
  destruct (char_in c cs) eqn:Hc; [done|]. cbn. by rewrite Hc.
Qed.

Lemma before_any_id s cs : contains_any s cs = false → before_any s cs = s.
Proof.
  induction s as [|c s IH]; simpl; [done|]. intros [-> Hs]%orb_false_iff. by rewrite IH.
Qed.

Lemma before_any_app s t cs :
  contains_any s cs = false → before_any (s +:+ t) cs = s +:+ before_any t cs.
Proof.
  induction s as [|c s IH]; [done|]. rewrite contains_any_cons. intros [Hc Hs]%orb_false_iff.
  rewrite !app_cons. simpl. by rewrite Hc, IH.
Qed.

Lemma before_any_app_sep s c r cs :
  contains_any s cs = false → char_in c cs = true → before_any (s +:+ String c r) cs = s.
Proof.
  intros Hs Hc. induction s as [|d s IH].
  - rewrite app_empty_l. simpl. by rewrite Hc.
  - cbn in Hs. apply orb_false_iff in Hs as [Hd Hs].
    rewrite app_cons. simpl. by rewrite Hd, IH.
Qed.

(** *** Splitting and joining *)

Lemma split_nonempty s sep : split s sep ≠ [].
Proof. destruct s; simpl; [done|]. repeat case_match; done. Qed.

Lemma join_cons p q ps sep : join (p :: q :: ps) sep = p +:+ String sep (join (q :: ps) sep).
Proof. done. Qed.

Lemma join_app l l' sep :
  l ≠ [] → l' ≠ [] → join (l ++ l') sep = join l sep +:+ String sep (join l' sep).
Proof.
  intros Hl Hl'. induction l as [|p [|q l] IH]; [done|..].
  - destruct l' as [|q l']; [done|]. done.
  - cbn [app] in *. rewrite !join_cons, app_assoc_str, app_cons. by rewrite IH.
Qed.

Lemma join_split s sep : join (split s sep) sep = s.
Proof.
  induction s as [|c s IH]; [done|]. simpl.
  pose proof (split_nonempty s sep) as Hne.
  destruct (split s sep) as [|p ps]; [done|].
  destruct (Ascii.eqb_spec c sep) as [->|].
  - rewrite join_cons, app_empty_l. by rewrite IH.
  - rewrite <-IH. by destruct ps.
Qed.

Lemma split_clean s sep : Forall (λ p, contains_byte p sep = false) (split s sep).
Proof.
  induction s as [|c s IH]; simpl; [by repeat constructor|].
  destruct (Ascii.eqb_spec c sep) as [->|Hne]; [by constructor|].
  assert (Ascii.eqb sep c = false) as Hc by (by apply Ascii.eqb_neq).
  destruct IH as [|p ps Hp Hps].
  - repeat constructor. by rewrite contains_byte_cons, Hc.
  - constructor; [|done]. by rewrite contains_byte_cons, Hc.
Qed.

Lemma split_app_sep a b sep :
  contains_byte a sep = false → split (a +:+ String sep b) sep = a :: split b sep.
Proof.
  induction a as [|c a IH]; intros Ha.
  - rewrite app_empty_l. simpl. by rewrite Ascii.eqb_refl.
  - rewrite contains_byte_cons in Ha. apply orb_false_iff in Ha as [Hc Ha].
    rewrite app_cons. simpl. by rewrite Ascii.eqb_sym, Hc, IH.
Qed.

Lemma split_no_sep a sep : contains_byte a sep = false → split a sep = [a].
Proof.
  induction a as [|c a IH]; intros Ha; [done|].
  rewrite contains_byte_cons in Ha. apply orb_false_iff in Ha as [Hc Ha].
  simpl. by rewrite Ascii.eqb_sym, Hc, IH.
Qed.

Lemma cut_last_none s c : contains_byte s c = false → cut_last s c = None.
Proof.
  induction s as [|d s IH]; [done|]. rewrite contains_byte_cons, orb_false_iff. intros [Hd Hs]. cbn [cut_last]. rewrite IH by done.
  rewrite Ascii.eqb_sym. by rewrite Hd.
Qed.

Lemma cut_last_app a b c : contains_byte b c = false → cut_last (a +:+ String c b) c = Some (a, b).
Proof.
  intros Hb. induction a as [|d a IH]; [|by rewrite app_cons; cbn [cut_last]; rewrite IH].
  rewrite app_empty_l. cbn [cut_last]. rewrite cut_last_none by done. by rewrite Ascii.eqb_refl.
Qed.

(** Splitting what was joined from pieces without the separator. *)
Lemma split_join l sep :
  l ≠ [] → Forall (λ p, contains_byte p sep = false) l → split (join l sep) sep = l.
Proof.
  intros Hne Hl. induction Hl as [|p ps Hp Hps IH]; [done|].
  destruct ps as [|q ps]; [by apply split_no_sep|].
  rewrite join_cons, split_app_sep by done. by rewrite IH.
Qed.

(** *** Replacing a byte *)

Lemma str_forallb_app q a b : str_forallb q (a +:+ b) = str_forallb q a && str_forallb q b.
Proof. unfold str_forallb. by rewrite str_existsb_app, negb_orb. Qed.

Lemma str_forallb_weaken (q q' : ascii → bool) s : (∀ c, q c = true → q' c = true) → str_forallb q s = true → str_forallb q' s = true.
Proof. intros Hq. induction s as [|c s IH]; [done|]. rewrite !str_forallb_cons, !andb_true_iff. naive_solver. Qed.

Lemma replace_byte_contains s a b :
  a ≠ b → contains_byte (replace_byte s a b) a = false.
Proof.
  intros Hne. induction s as [|c s IH]; [done|]. simpl.
  rewrite contains_byte_cons, IH, orb_false_r. apply Ascii.eqb_neq.
  by destruct (Ascii.eqb_spec c a).
Qed.

Lemma replace_byte_contains_other s a b c :
  c ≠ b → contains_byte s c = false → contains_byte (replace_byte s a b) c = false.
Proof.
  intros Hcb. induction s as [|d s IH]; [done|]. simpl.
  rewrite !contains_byte_cons, !orb_false_iff. intros [Hd Hs]. split; [|by apply IH].
  destruct (Ascii.eqb d a); [by apply Ascii.eqb_neq|done].
Qed.

(** Replacing back undoes it on a string that did not hold the new byte. *)
Lemma replace_byte_back s a b :
  contains_byte s b = false → replace_byte (replace_byte s a b) b a = s.
Proof.
  induction s as [|c s IH]; [done|]. rewrite contains_byte_cons. simpl.
  intros [Hc Hs]%orb_false_iff. rewrite IH by done. f_equal.
  destruct (Ascii.eqb_spec c a) as [->|]; [by rewrite Ascii.eqb_refl|].
  by rewrite Ascii.eqb_sym, Hc.
Qed.

Lemma replace_byte_inj s t a b :
  contains_byte s b = false → contains_byte t b = false →
  replace_byte s a b = replace_byte t a b → s = t.
Proof.
  intros Hs Ht Heq. apply (f_equal (λ u, replace_byte u b a)) in Heq.
  by rewrite !replace_byte_back in Heq.
Qed.

Lemma replace_byte_app s t a b :
  replace_byte (s +:+ t) a b = replace_byte s a b +:+ replace_byte t a b.
Proof. induction s as [|c s IH]; [done|]. rewrite app_cons. simpl. by rewrite app_cons, IH. Qed.

Lemma replace_byte_id s a b : contains_byte s a = false → replace_byte s a b = s.
Proof.
  induction s as [|c s IH]; [done|]. rewrite contains_byte_cons. simpl.
  intros [Hc Hs]%orb_false_iff. by rewrite Ascii.eqb_sym, Hc, IH.
Qed.

Lemma replace_byte_empty s a b : replace_byte s a b = "" ↔ s = "".
Proof. by destruct s. Qed.

Lemma replace_byte_contains_any s a b cs :
  contains_any s cs = false → char_in b cs = false → contains_any (replace_byte s a b) cs = false.
Proof.
  intros Hs Hb. induction s as [|c s IH]; [done|].
  unfold contains_any in *. simpl in *. apply orb_false_iff in Hs as [Hc Hs].
  rewrite (IH Hs), orb_false_r. by destruct (Ascii.eqb c a).
Qed.

Lemma split_app a b sep : split (a +:+ String sep b) sep = split a sep ++ split b sep.
Proof.
  induction a as [|c a IH].
  - rewrite app_empty_l. simpl. by rewrite Ascii.eqb_refl.
  - rewrite app_cons. simpl. rewrite IH. destruct (Ascii.eqb c sep); [done|].
    pose proof (split_nonempty a sep). by destruct (split a sep).
Qed.

Lemma split_singleton a x sep : split a sep = [x] → a = x.
Proof. intros Hs. rewrite <-(join_split a sep), Hs. done. Qed.
