(* ===== verification/GoUtf8.v ===== *)
(** * Go's strings as runes

    A [for range] over a string, [[]rune(s)] and [strings.Map] decode UTF-8 and put
    U+FFFD for every byte that is no part of an encoding.  [runes] is that decoding, each
    rune as the bytes it is written with. *)

From S2P Require Import Prelude.
From S2P Require Import GoStrings.

Definition between (lo hi : nat) (c : ascii) : bool := bool_decide (lo ≤ byte_of c ≤ hi).
Definition continues (c : ascii) : bool := between 128 191 c.

(** What a first byte asks for: how many bytes more, and the least and the greatest the
    second may be. *)
Definition lead (c : ascii) : option (nat * nat * nat) :=
  if between 194 223 c then Some (1, 128, 191)
  else if between 224 224 c then Some (2, 160, 191)
  else if between 237 237 c then Some (2, 128, 159)
  else if between 225 239 c then Some (2, 128, 191)
  else if between 240 240 c then Some (3, 144, 191)
  else if between 241 243 c then Some (3, 128, 191)
  else if between 244 244 c then Some (3, 128, 143)
  else None.

Definition rune_error : string := String "239" (String "191" (String "189" "")).

Fixpoint runes (s : string) : list string :=
  match s with
  | "" => []
  | String c s1 =>
      if bool_decide (byte_of c < 128) then String c "" :: runes s1
      else match lead c, s1 with
           | Some (n, lo, hi), String d s2 =>
               if negb (between lo hi d) then rune_error :: runes s1
               else match n, s2 with
                    | 1, _ => String c (String d "") :: runes s2
                    | 2, String e s3 =>
                        if continues e then String c (String d (String e "")) :: runes s3 else rune_error :: runes s1
                    | 3, String e (String f s4) =>
                        if continues e && continues f then String c (String d (String e (String f ""))) :: runes s4
                        else rune_error :: runes s1
                    | _, _ => rune_error :: runes s1
                    end
           | _, _ => rune_error :: runes s1
           end
  end.

Fixpoint concat_str (l : list string) : string := match l with [] => "" | s :: l => s +:+ concat_str l end.

(** A rune is one byte below 128, or bytes from 128 on. *)
Definition well_encoded (r : string) : Prop :=
  (∃ c, r = String c "" ∧ byte_of c < 128) ∨ str_forallb (λ c, bool_decide (128 ≤ byte_of c)) r = true.

Lemma lead_high c x : lead c = Some x → byte_of c < 128 → False.
Proof. unfold lead, between. repeat (case_bool_decide; [lia|]). done. Qed.

Lemma lead_low c n lo hi : lead c = Some (n, lo, hi) → 128 ≤ lo.
Proof. unfold lead. repeat (destruct (between _ _ c); [intros [= <- <- <-]; lia|]). done. Qed.

Lemma high_bytes c s : 128 ≤ byte_of c → str_forallb (λ c, bool_decide (128 ≤ byte_of c)) s = true →
  str_forallb (λ c, bool_decide (128 ≤ byte_of c)) (String c s) = true.
Proof. intros Hc Hs. rewrite str_forallb_cons, Hs, bool_decide_eq_true_2 by done. done. Qed.

Lemma runes_encoded s : Forall well_encoded (runes s).
Proof.
  induction s as [s IH] using (induction_ltof1 _ String.length). unfold ltof in IH. destruct s as [|c s1]; [constructor|]. cbn [runes].
  assert (∀ r t, well_encoded r → String.length t < String.length (String c s1) → Forall well_encoded (r :: runes t)) as Hgo.
  { intros r t Hr Ht. constructor; [done|by apply IH]. }
  assert (well_encoded rune_error) as Herr by (by right).
  case_bool_decide as Hc; [apply Hgo; [left; by exists c|cbn; lia]|].
  assert (∀ t, str_forallb (λ c, bool_decide (128 ≤ byte_of c)) t = true → well_encoded (String c t)) as Hhigh.
  { intros t Ht. right. apply high_bytes; [lia|done]. }
  destruct (lead c) as [[[n lo] hi]|] eqn:El; [|apply Hgo; [done|cbn; lia]]. apply lead_low in El.
  destruct s1 as [|d s2]; [apply Hgo; [done|cbn; lia]|]. destruct (between lo hi d) eqn:Ed; cbn [negb]; [|apply Hgo; [done|cbn; lia]].
  unfold between in Ed. apply bool_decide_eq_true in Ed.
  assert (∀ e, continues e = true → 128 ≤ byte_of e) as Hcont. { intros e. unfold continues, between. rewrite bool_decide_eq_true. lia. }
  destruct n as [|[|[|[|n]]]]; [apply Hgo; [done|cbn; lia]| | | |apply Hgo; [done|cbn; lia]].
  - apply Hgo; [apply Hhigh, high_bytes; [lia|done]|cbn; lia].
  - destruct s2 as [|e s3]; [apply Hgo; [done|cbn; lia]|]. destruct (continues e) eqn:Ee; [|apply Hgo; [done|cbn; lia]].
    apply Hgo; [|cbn; lia]. apply Hhigh, high_bytes, high_bytes; [lia|by apply Hcont|done].
  - destruct s2 as [|e [|f s4]]; [apply Hgo; [done|cbn; lia]..|]. destruct (continues e && continues f) eqn:Ee; [|apply Hgo; [done|cbn; lia]].
    apply andb_true_iff in Ee as [He Hf]. apply Hgo; [|cbn; lia]. apply Hhigh, high_bytes, high_bytes, high_bytes; [lia|by apply Hcont..|done].
Qed.

(** A byte below 128 in what runes are written as is one of the runes. *)
Lemma concat_ascii l c : Forall well_encoded l → byte_of c < 128 → String c "" ∉ l → contains_byte (concat_str l) c = false.
Proof.
  intros Hl Hc. induction Hl as [|r l Hr Hl IH]; [done|]. intros [Hne Hn]%not_elem_of_cons. cbn [concat_str]. rewrite contains_byte_app, IH, orb_false_r by done.
  destruct Hr as [(d & -> & Hd)|Hr].
  - rewrite contains_byte_cons. cbn. rewrite orb_false_r. apply Ascii.eqb_neq. congruence.
  - eapply str_forallb_contains; [exact Hr|]. apply bool_decide_eq_false. lia.
Qed.
