(* ===== verification/GoUrl.v ===== *)
(** * Segments of a URL's path

    [url.PathEscape] and [url.PathUnescape] of Go's standard library: a segment is
    written so that it holds no slash, and read back as it was. *)

From S2P Require Import Prelude.
From S2P Require Import GoStrings.

(** A byte a segment is written with as it is. *)
Definition segment_byte (c : ascii) : bool := is_alnum c || char_in c "-_.~$&+=:@".

Definition hex_digits : string := "0123456789ABCDEF".
Definition hex_digit (n : nat) : ascii := default "0"%char (String.get n hex_digits).
Definition unhex (c : ascii) : option nat :=
  let n := byte_of c in
  if bool_decide (48 ≤ n ≤ 57) then Some (n - 48)
  else if bool_decide (65 ≤ n ≤ 70) then Some (n - 55)
  else if bool_decide (97 ≤ n ≤ 102) then Some (n - 87) else None.

Fixpoint PathEscape (s : string) : string :=
  match s with
  | "" => ""
  | String c s =>
      if segment_byte c then String c (PathEscape s)
      else String "%" (String (hex_digit (byte_of c / 16)) (String (hex_digit (byte_of c mod 16)) (PathEscape s)))
  end.

(** [None] for a percent sign that two hexadecimal digits do not follow. *)
Fixpoint PathUnescape (s : string) : option string :=
  match s with
  | "" => Some ""
  | String c s1 =>
      if Ascii.eqb c "%" then
        match s1 with
        | String a (String b rest) =>
            x ← unhex a; y ← unhex b; rest ← PathUnescape rest; Some (String (ascii_of_nat (16 * x + y)) rest)
        | _ => None
        end
      else rest ← PathUnescape s1; Some (String c rest)
  end.

Lemma unescape_byte c : segment_byte c = false →
  unhex (hex_digit (byte_of c / 16)) = Some (byte_of c / 16) ∧ unhex (hex_digit (byte_of c mod 16)) = Some (byte_of c mod 16)
  ∧ ascii_of_nat (16 * (byte_of c / 16) + byte_of c mod 16) = c.
Proof. intros _. destruct c as [[] [] [] [] [] [] [] []]; vm_compute; done. Qed.

Lemma escape_unescape s : PathUnescape (PathEscape s) = Some s.
Proof.
  induction s as [|c s IH]; [done|]. cbn [PathEscape]. destruct (segment_byte c) eqn:Ec.
  - cbn [PathUnescape]. assert (Ascii.eqb c "%" = false) as -> by (destruct c as [[] [] [] [] [] [] [] []]; done). by rewrite IH.
  - destruct (unescape_byte c Ec) as (Hx & Hy & Hc). cbn [PathUnescape]. rewrite Ascii.eqb_refl, Hx, Hy, IH. cbn [mbind option_bind]. by rewrite Hc.
Qed.

Lemma escape_no_slash s : contains_byte (PathEscape s) "/" = false.
Proof.
  induction s as [|c s IH]; [done|]. cbn [PathEscape]. destruct (segment_byte c) eqn:Ec.
  - rewrite contains_byte_cons, IH, orb_false_r. destruct c as [[] [] [] [] [] [] [] []]; done.
  - rewrite !contains_byte_cons, IH, orb_false_r. destruct c as [[] [] [] [] [] [] [] []]; done.
Qed.

Lemma escape_empty s : PathEscape s = "" ↔ s = "".
Proof. destruct s as [|c s]; [done|]. cbn [PathEscape]. by destruct (segment_byte c). Qed.

Lemma escape_plain s : str_forallb segment_byte s = true → PathEscape s = s.
Proof.
  induction s as [|c s IH]; [done|]. unfold str_forallb in *. cbn. rewrite negb_orb, negb_involutive, andb_true_iff. intros [Hc Hs].
  by rewrite Hc, IH.
Qed.
