(* ===== verification/GoTime.v ===== *)
(** * Integers and times of Go's standard library

    Signed 64-bit integers as [Z] with their wrap-around, [strconv.ParseInt], and instants:
    nanoseconds since the Unix epoch, as [Z]. *)

From S2P Require Import Prelude.
From S2P Require Import GoStrings.
From Stdlib Require Import ZArith.
#[local] Open Scope Z_scope.

(** What an int64 operation leaves of a result. *)
Definition wrap64 (n : Z) : Z := (n + 2 ^ 63) mod 2 ^ 64 - 2 ^ 63.

(** [strconv.ParseInt(s, 10, 64)]. *)
Fixpoint decimal_from (acc : Z) (s : string) : option Z :=
  match s with
  | "" => Some acc
  | String c s =>
      let n := nat_of_ascii c in
      if ((48 <=? n) && (n <=? 57))%nat then decimal_from (10 * acc + Z.of_nat (n - 48)) s else None
  end.

Definition decimal (s : string) : option Z := match s with "" => None | _ => decimal_from 0 s end.

Definition parse_int64 (s : string) : option Z :=
  n ← match s with
      | String "-" rest => Z.opp <$> decimal rest
      | String "+" rest => decimal rest
      | _ => decimal s
      end;
  if bool_decide (- 2 ^ 63 ≤ n < 2 ^ 63) then Some n else None.

Definition Second : Z := 1000000000.
Definition Minute : Z := 60 * Second.
Definition Hour : Z := 60 * Minute.

(** [time.Time{}]: the first of January of the year 1. *)
Definition unixToInternal : Z := 62135596800.
Definition zeroTime : Z := - unixToInternal * Second.
(** [time.Unix(sec, 0)]: a time keeps its seconds since the year 1 in an int64. *)
Definition time_Unix (sec : Z) : Z := (wrap64 (sec + unixToInternal) - unixToInternal) * Second.
(** [t.Sub(u)]: the difference, or the duration nearest to it. *)
Definition time_Sub (t u : Z) : Z := Z.max (- 2 ^ 63) (Z.min (2 ^ 63 - 1) (t - u)).

(** What [time.Parse] reads, and [Format] writes, in the layout RFC3339. *)
Class Rfc3339 := { rfc3339_parse : string → option Z; rfc3339_format : Z → string }.

Example parse_int64_examples :
  parse_int64 "-9223372036854775808" = Some (- 2 ^ 63) ∧ parse_int64 "9223372036854775808" = None ∧ parse_int64 "1_0" = None.
Proof. vm_compute. auto. Qed.

(** ** Lemmas *)

Lemma wrap64_id n : - 2 ^ 63 ≤ n < 2 ^ 63 → wrap64 n = n.
Proof. intros Hn. unfold wrap64. rewrite Z.mod_small by lia. lia. Qed.
Lemma wrap64_range n : - 2 ^ 63 ≤ wrap64 n < 2 ^ 63.
Proof. unfold wrap64. pose proof (Z.mod_pos_bound (n + 2 ^ 63) (2 ^ 64)). lia. Qed.
Lemma parse_int64_range s n : parse_int64 s = Some n → - 2 ^ 63 ≤ n < 2 ^ 63.
Proof. unfold parse_int64. destruct (match s with "" => _ | _ => _ end); cbn; [|done]. case_bool_decide; [|done]. by intros [= <-]. Qed.
(** A stamp that is not within 63 bits of the year 1 is taken for a time long gone. *)
Lemma time_Unix_id sec : - 2 ^ 63 ≤ sec + unixToInternal < 2 ^ 63 → time_Unix sec = sec * Second.
Proof. intros Hs. unfold time_Unix. rewrite wrap64_id by done. lia. Qed.
Lemma time_Unix_wrapped sec : 2 ^ 63 - unixToInternal ≤ sec < 2 ^ 63 → time_Unix sec = (sec - 2 ^ 64) * Second.
Proof.
  intros Hs. unfold time_Unix, wrap64, unixToInternal in *.
  replace (sec + 62135596800 + 2 ^ 63) with (sec + 62135596800 - 2 ^ 63 + 1 * 2 ^ 64) by lia. rewrite Z.mod_add, Z.mod_small by lia. lia.
Qed.
Lemma time_Sub_le t u d : - 2 ^ 63 ≤ d < 2 ^ 63 - 1 → time_Sub t u ≤ d ↔ t - u ≤ d.
Proof. unfold time_Sub. lia. Qed.
