(* ===== verification/GoJson.v ===== *)
(** * Decoded JSON

    What [encoding/json] decodes into [any], and into the fields of a struct; the keys of
    an object are taken as they are written, and a field whose value has another type is
    an error. *)

From Stdlib Require Import QArith.Qcanon.
From S2P Require Import Prelude.
From S2P Require Import GoStrings.

(** A number is a float64, kept as the rational it is. *)
#[warnings="-register-all"]
Inductive json :=
  | JNull | JBool (b : bool) | JNum (n : Qc) | JStr (s : string)
  | JArr (l : list json) | JObj (m : gmap string json).

Fixpoint json_size (v : json) : nat :=
  match v with
  | JArr l => S (foldr (λ x n, json_size x + n) 0 l)
  | JObj m => S (map_fold (λ _ x n, json_size x + n) 0 m)
  | _ => 1
  end.

(** [reflect.DeepEqual]. *)
Fixpoint deep_equal (a b : json) : bool :=
  match a, b with
  | JNull, JNull => true
  | JBool x, JBool y => Bool.eqb x y
  | JNum x, JNum y => bool_decide (x = y)
  | JStr x, JStr y => bool_decide (x = y)
  | JArr l, JArr l' =>
      (fix each (l l' : list json) : bool :=
         match l, l' with
         | [], [] => true
         | x :: l, y :: l' => deep_equal x y && each l l'
         | _, _ => false
         end) l l'
  | JObj m, JObj m' =>
      bool_decide (size m = size m')
      && map_fold (λ k x acc, match m' !! k with Some y => deep_equal x y | None => false end && acc) true m
  | _, _ => false
  end.

(** ** Into a struct *)

Definition errUnmarshal : error := Sentinel "json: cannot unmarshal".
(** A value of type string; [null] and a key that is not there leave the empty one. *)
Definition as_string (v : json) : result string :=
  match v with JStr s => Ok s | JNull => Ok "" | _ => Err errUnmarshal end.
Definition as_bool (v : json) : result bool :=
  match v with JBool b => Ok b | JNull => Ok false | _ => Err errUnmarshal end.
Fixpoint each_value {A} (f : json → result A) (l : list json) : result (list A) :=
  match l with [] => Ok [] | v :: l => a ← f v; rest ← each_value f l; Ok (a :: rest) end.
Definition as_list {A} (f : json → result A) (v : json) : result (list A) :=
  match v with JArr l => each_value f l | JNull => Ok [] | _ => Err errUnmarshal end.
Definition as_object (v : json) : result (gmap string json) :=
  match v with JObj m => Ok m | JNull => Ok ∅ | _ => Err errUnmarshal end.
Definition member (m : gmap string json) (k : string) : json := default JNull (m !! k).

(** A number an integer field takes. *)
Definition as_int (v : json) : result Z :=
  match v with
  | JNull => Ok 0%Z
  | JNum q => if bool_decide (QArith_base.Qden (this q) = 1%positive) && bool_decide (- 2 ^ 63 ≤ QArith_base.Qnum (this q) < 2 ^ 63)%Z
              then Ok (QArith_base.Qnum (this q)) else Err errUnmarshal
  | _ => Err errUnmarshal
  end.
(** The body of a message: none, something else, or a value. *)
Inductive payload := Empty | Unreadable | Decoded (v : json).

(** ** Lemmas *)

Lemma json_size_arr l v : v ∈ l → json_size v < json_size (JArr l).
Proof.
  cbn. induction l as [|x l IH]; intros Hv; [by apply not_elem_of_nil in Hv|].
  cbn. apply elem_of_cons in Hv as [->|Hv]; [lia|]. specialize (IH Hv). lia.
Qed.

Lemma json_size_obj m k v : m !! k = Some v → json_size v < json_size (JObj m).
Proof.
  cbn. revert k v. induction m as [|i x m Hi Hf IH] using map_first_key_ind; intros k v; [done|].
  rewrite map_fold_insert_first_key by done. rewrite lookup_insert_Some.
  intros [[_ <-]|[_ Hk]]; [lia|]. specialize (IH k v Hk). lia.
Qed.

Lemma json_ind' (P : json → Prop) :
  P JNull → (∀ b, P (JBool b)) → (∀ n, P (JNum n)) → (∀ s, P (JStr s)) →
  (∀ l, (∀ v, v ∈ l → P v) → P (JArr l)) → (∀ m, (∀ k v, m !! k = Some v → P v) → P (JObj m)) → ∀ v, P v.
Proof.
  intros Hn Hb Hz Hs Ha Ho v. induction v as [v IH] using (induction_ltof1 _ json_size); unfold ltof in IH.
  destruct v as [| | | |l|m]; try done.
  - apply Ha. intros x Hx. apply IH, (json_size_arr l x Hx).
  - apply Ho. intros k x Hx. apply IH. by eapply json_size_obj.
Qed.

Lemma deep_equal_fold (f : json → json → bool) (m m' : gmap string json) :
  map_fold (λ k x acc, match m' !! k with Some y => f x y | None => false end && acc) true m = true
  ↔ ∀ k x, m !! k = Some x → ∃ y, m' !! k = Some y ∧ f x y = true.
Proof.
  induction m as [|i x m Hi Hf IH] using map_first_key_ind; [by split|].
  rewrite map_fold_insert_first_key by done. rewrite andb_true_iff, IH. split.
  - intros [H1 H2] k y. rewrite lookup_insert_Some. intros [[<- <-]|[_ Hk]]; [|by apply H2].
    destruct (m' !! i) as [z|]; [by exists z|done].
  - intros Hall. split.
    + destruct (Hall i x) as (y & -> & Hy); [apply lookup_insert_eq|done].
    + intros k y Hk. apply Hall. rewrite lookup_insert_ne; [done|congruence].
Qed.

Lemma deep_equal_iff a b : deep_equal a b = true ↔ a = b.
Proof.
  revert b. induction a as [|x|x|x|l IH|m IH] using json_ind'; intros [|y|y|y|l'|m']; cbn; try done.
  - rewrite eqb_true_iff. split; congruence.
  - rewrite bool_decide_eq_true. split; congruence.
  - rewrite bool_decide_eq_true. split; congruence.
  - transitivity (l = l'); [|split; congruence]. revert l'.
    induction l as [|x l IHl]; intros [|y l']; try done.
    rewrite andb_true_iff, IH, (IHl (λ v Hv, IH v (list_elem_of_further _ _ _ Hv))) by left. split; [by intros [-> ->]|by intros [= -> ->]].
  - rewrite andb_true_iff, bool_decide_eq_true, deep_equal_fold. split; [|intros [= ->]; split; [done|]].
    + intros [Hs Hall]. f_equal. apply map_subseteq_size_eq; [|lia]. apply map_subseteq_spec. intros k x Hk.
      destruct (Hall k x Hk) as (y & Hy & He). by apply (IH k x Hk) in He as ->.
    + intros k x Hk. exists x. split; [done|]. by apply (IH k x Hk).
Qed.
