(* ===== verification/Ids.v ===== *)
(** * Names in the rights store

    The one mapping every identifier crosses into OpenFGA by
    ([internal/director/authz/authz.go]), the names of a tenant's groups
    ([internal/keycloak/groups.go]), and the roles the Cluster claim gives
    ([internal/director/authz/roles.go]): who may hold which role over what, and
    as whom a verified caller is asked. *)

From S2P Require Import Prelude.
From S2P Require Import GoStrings.

(** ** Identifiers *)

Definition ErrInvalidID : error := Sentinel "identifier cannot be represented in OpenFGA".

(** [encode]: [':'] becomes ['/'], and a name that holds what the store
    reserves is refused. *)
Definition encode (s : string) : result string :=
  if bool_decide (s = "") || contains_any s ("#/" +:+ blanks)
  then Err (Wrapf "%w: %q" [s] ErrInvalidID)
  else Ok (replace_byte s ":" "/").

Definition User (sub : string) : result string :=
  id ← encode sub; Ok ("user:" +:+ id).

Definition Group (name : string) : result string :=
  id ← encode name; Ok ("group:" +:+ id).

Definition GroupFromPath (path : string) : result string := Group (trim_prefix path "/").

Definition Tenant (name : string) : string := "tenant:" +:+ name.
Definition Cluster (name : string) : string := "cluster:" +:+ name.

(** [app:<tenant>/<profile>]. *)
Definition App (tenant profile : string) : string := "app:" +:+ tenant +:+ "/" +:+ profile.

(** ** A tenant's Keycloak groups *)

Definition tenantPrefix (tenant : string) : string := "gentian:tenant:" +:+ tenant +:+ ":".
Definition TenantAdminsGroup (tenant : string) : string := tenantPrefix tenant +:+ "admins".
Definition TenantAppGroup (tenant profile : string) : string :=
  tenantPrefix tenant +:+ "app:" +:+ profile.

Definition appGroup (tenant profile : string) : result string :=
  Group (TenantAppGroup tenant profile).

(** What a person reads in place of an OpenFGA user id. *)
Definition displayGroup (user : string) : string :=
  match cut_prefix user "group:" with
  | None => user
  | Some rest =>
      let rest := match cut rest "#" with Some (a, _) => a | None => rest end in
      replace_byte rest "/" ":"
  end.

(** ** Tenants *)

Definition PlatformTenant : string := "platform".

(** [^[a-z0-9]([-a-z0-9]{0,36}[a-z0-9])?$]. *)
Definition ValidTenantName (name : string) : bool :=
  dns_label name && bool_decide (String.length name ≤ 38).

(** ** Roles *)

Definition ClusterRoles : list string :=
  ["admin"; "security_officer"; "auditor"; "service_admin"; "shared_apps_admin";
   "perimeter_approver"; "break_glass"].

Definition ClaimRoles : gmap string string :=
  list_to_map [("admin", "admin"); ("breakGlass", "break_glass")].

(** [RolesFromClaim]: the relation-keyed map, and the fields nobody knows. *)
Definition RolesFromClaim (claim : gmap string string) : gmap string string * list string :=
  let '(roles, unknown) :=
    foldl (λ '(roles, unknown) '(field, group),
      match ClaimRoles !! field with
      | None => (roles, unknown ++ [field])
      | Some rel => if bool_decide (group = "") then (roles, unknown)
                    else (<[rel := group]> roles, unknown)
      end) (∅, []) (map_to_list claim) in
  (roles, sort_strings unknown).

Definition HolderRoles : gmap string string :=
  list_to_map [("securityOfficer", "security_officer"); ("auditor", "auditor");
    ("serviceAdmin", "service_admin"); ("sharedAppsAdmin", "shared_apps_admin");
    ("perimeterApprover", "perimeter_approver"); ("tenantAuditor", "auditor");
    ("breakGlass", "break_glass")].

Definition ScopeCluster : string := "cluster".

(** [HolderScope]: [None] when that tenant's people may not hold the role.
    (The Go function also returns the scope next to [false]; no caller reads it.) *)
Definition HolderScope (role tenant : string) : option string :=
  let platform := bool_decide (tenant = PlatformTenant) in
  if bool_decide (role ∈ ["securityOfficer"; "auditor"]) then Some ScopeCluster
  else if bool_decide (role ∈ ["serviceAdmin"; "sharedAppsAdmin"; "breakGlass"]) then
    if platform then Some ScopeCluster else None
  else if bool_decide (role = "perimeterApprover") then
    if platform then Some ScopeCluster else Some ("tenant:" +:+ tenant)
  else None.

Definition EntryScope (role tenant stated : string) : option string :=
  if bool_decide (role = "tenantAuditor") then
    match cut_prefix stated "tenant:" with
    | None => None
    | Some t =>
        if negb (bool_decide (tenant = PlatformTenant)) || negb (ValidTenantName t)
           || bool_decide (t = PlatformTenant)
        then None else Some stated
    end
  else match HolderScope role tenant with
       | None => None
       | Some scope =>
           if negb (bool_decide (stated = "")) && negb (bool_decide (stated = scope))
           then None else Some scope
       end.

Record RoleHolder := mkRoleHolder {
  rh_relation : string; rh_realm : string; rh_subject : string; rh_tenant : string }.

(** [^[A-Za-z0-9][A-Za-z0-9_-]{0,62}$]. *)
Definition holderRealm (s : string) : bool :=
  match s with
  | "" => false
  | String c _ => is_alnum c
      && str_forallb (λ c, is_alnum c || Ascii.eqb c "_" || Ascii.eqb c "-") s
      && bool_decide (String.length s ≤ 63)
  end.

Definition HolderUser (realm sub : string) : result string :=
  if negb (holderRealm realm) then Err (Wrapf "%w: realm %q" [realm] ErrInvalidID)
  else id ← encode sub; Ok ("user:" +:+ realm +:+ "/" +:+ id).

Definition groupRelation (rel : string) : bool :=
  bool_decide (rel ∈ (map_to_list ClaimRoles).*2).
Definition holderRelation (rel : string) : bool :=
  bool_decide (rel ∈ (map_to_list HolderRoles).*2).

(** ** Asking

    A [Checker] answers one question: the user, the relation and the object. *)
Definition checker := string → string → string → result bool.

(** [CheckAs]: as [user], and, when that is refused and there is one, as
    [holder]. *)
Definition CheckAs (c : checker) (user holder relation object : string) : result bool :=
  ok ← c user relation object;
  if ok || bool_decide (holder = "") then Ok ok else c holder relation object.

Definition TenantAdministrator (c : checker) (tenant sub : string) : result bool :=
  match User sub with
  | Err _ => Ok false
  | Ok user =>
      match Group (TenantAdminsGroup tenant) with
      | Err _ => Ok false
      | Ok group => if contains_any tenant ":/" then Ok false else c user "member" group
      end
  end.

(** ** Lemmas on the mapping *)

Lemma encode_Ok s id :
  encode s = Ok id ↔
    s ≠ "" ∧ contains_any s ("#/" +:+ blanks) = false ∧ id = replace_byte s ":" "/".
Proof.
  unfold encode. case_bool_decide; simpl; [naive_solver|].
  destruct (contains_any s _); naive_solver.
Qed.

Lemma encode_clean s id c :
  encode s = Ok id → char_in c ("#/" +:+ blanks) = true → contains_byte s c = false.
Proof. intros (_ & Hs & _)%encode_Ok Hc. by eapply contains_any_byte. Qed.

(** Nothing OpenFGA reserves is left in an encoded id. *)
Lemma encode_storable s id :
  encode s = Ok id →
  id ≠ "" ∧ contains_byte id ":" = false ∧ contains_byte id "#" = false
  ∧ contains_any id blanks = false.
Proof.
  intros He. pose proof He as (Hne & Hs & ->)%encode_Ok.
  rewrite contains_any_app_r in Hs. apply orb_false_iff in Hs as [Hs Hb].
  repeat split.
  - by rewrite replace_byte_empty.
  - by apply replace_byte_contains.
  - apply replace_byte_contains_other; [done|]. by apply (encode_clean _ _ _ He).
  - by apply replace_byte_contains_any.
Qed.

Lemma encode_inj_aux s t id : encode s = Ok id → encode t = Ok id → s = t.
Proof.
  intros Hs Ht.
  pose proof (encode_clean _ _ "/" Hs eq_refl) as Hcs.
  pose proof (encode_clean _ _ "/" Ht eq_refl) as Hct.
  apply encode_Ok in Hs as (_ & _ & ->). apply encode_Ok in Ht as (_ & _ & Ht).
  by apply (replace_byte_inj _ _ ":" "/").
Qed.

Lemma User_Ok sub u : User sub = Ok u ↔ ∃ id, encode sub = Ok id ∧ u = "user:" +:+ id.
Proof. unfold User. destruct (encode sub); naive_solver. Qed.

Lemma Group_Ok n g : Group n = Ok g ↔ ∃ id, encode n = Ok id ∧ g = "group:" +:+ id.
Proof. unfold Group. destruct (encode n); naive_solver. Qed.

Lemma HolderUser_Ok realm sub u :
  HolderUser realm sub = Ok u ↔
    holderRealm realm = true ∧ ∃ id, encode sub = Ok id ∧ u = "user:" +:+ realm +:+ "/" +:+ id.
Proof.
  unfold HolderUser. destruct (holderRealm realm); simpl; [|naive_solver].
  destruct (encode sub); naive_solver.
Qed.

Lemma holderRealm_contains r c :
  holderRealm r = true → is_alnum c || Ascii.eqb c "_" || Ascii.eqb c "-" = false →
  contains_byte r c = false.
Proof.
  intros Hr Hc. destruct r as [|d r]; [done|]. unfold holderRealm in Hr.
  apply andb_true_iff in Hr as [Hr _]. apply andb_true_iff in Hr as [_ Hr].
  by eapply str_forallb_contains.
Qed.

Lemma holderRealm_nonempty r : holderRealm r = true → r ≠ "".
Proof. by intros Hr ->. Qed.

Lemma holderRealm_encodable r cs :
  holderRealm r = true →
  str_forallb (λ c, negb (is_alnum c || Ascii.eqb c "_" || Ascii.eqb c "-")) cs = true →
  contains_any r cs = false.
Proof.
  intros Hr Hcs. destruct r as [|d r]; [done|]. unfold holderRealm in Hr.
  apply andb_true_iff in Hr as [Hr _]. apply andb_true_iff in Hr as [_ Hr].
  by eapply str_forallb_contains_any.
Qed.

Lemma displayGroup_member id :
  contains_byte id "#" = false →
  displayGroup ("group:" +:+ id +:+ "#member") = replace_byte id "/" ":".
Proof.
  intros Hid. unfold displayGroup. rewrite cut_prefix_app.
  change ("#member") with (String "#" "member"). by rewrite cut_app.
Qed.

(** *** The Cluster claim's roles *)

Lemma ClaimRoles_Some field rel :
  ClaimRoles !! field = Some rel ↔
    (field = "admin" ∧ rel = "admin") ∨ (field = "breakGlass" ∧ rel = "break_glass").
Proof.
  unfold ClaimRoles. simpl. rewrite !lookup_insert, lookup_empty.
  repeat case_decide; naive_solver.
Qed.

Definition claim_step (acc : gmap string string * list string) (fg : string * string) :=
  match ClaimRoles !! fg.1 with
  | None => (acc.1, acc.2 ++ [fg.1])
  | Some rel => if bool_decide (fg.2 = "") then acc else (<[rel := fg.2]> acc.1, acc.2)
  end.

Lemma RolesFromClaim_fold claim :
  RolesFromClaim claim =
    let acc := foldl claim_step (∅, []) (map_to_list claim) in (acc.1, sort_strings acc.2).
Proof.
  unfold RolesFromClaim. generalize (∅ : gmap string string, @nil string).
  induction (map_to_list claim) as [|[f g] l IH]; intros [roles unknown]; [done|].
  simpl. rewrite IH. unfold claim_step. simpl.
  destruct (ClaimRoles !! f); [|done]. by case_bool_decide.
Qed.

Lemma claim_fold_spec l :
  NoDup l.*1 →
  let acc := foldl claim_step (∅, []) l in
  (∀ rel g, acc.1 !! rel = Some g ↔
     g ≠ "" ∧ ∃ field, ClaimRoles !! field = Some rel ∧ (field, g) ∈ l)
  ∧ (∀ f, f ∈ acc.2 ↔ f ∈ l.*1 ∧ ClaimRoles !! f = None).
Proof.
  induction l as [|[f g] l IH] using rev_ind; intros Hnd; simpl.
  { split; [|set_solver]. intros rel g. rewrite lookup_empty. set_solver. }
  rewrite fmap_app in Hnd. apply NoDup_app in Hnd as (Hnd & Hdisj & _).
  assert (f ∉ l.*1) as Hf by (intros ?; eapply Hdisj; [done|]; simpl; set_solver).
  destruct (IH Hnd) as [IHr IHu]. rewrite foldl_app. simpl.
  set (acc := foldl claim_step (∅, []) l) in *. unfold claim_step. simpl.
  assert (∀ g', (f, g') ∉ l) as Hfl.
  { intros g' Hin. apply Hf. apply (list_elem_of_fmap_2 fst _ _ Hin). }
  assert (∀ field g', (field, g') ∈ l ++ [(f, g)] ↔ (field, g') ∈ l ∨ field = f ∧ g' = g) as Hin.
  { intros field g'. rewrite elem_of_app, list_elem_of_singleton. split; intros [?|Heq]; auto.
    - right. by injection Heq.
    - right. by destruct Heq as [-> ->]. }
  assert (∀ f', f' ∈ (l ++ [(f, g)]).*1 ↔ f' ∈ l.*1 ∨ f' = f) as Hfst.
  { intros f'. rewrite fmap_app, elem_of_app. simpl. by rewrite list_elem_of_singleton. }
  destruct (ClaimRoles !! f) as [rel0|] eqn:Hrel0; [case_bool_decide as Hg|]; simpl;
    (split; [intros rel g'; setoid_rewrite Hin | intros f'; rewrite Hfst]).
  - rewrite IHr. naive_solver.
  - rewrite IHu. naive_solver congruence.
  - rewrite lookup_insert. case_decide as Hr; [subst rel0|rewrite IHr; naive_solver].
    split; [naive_solver|].
    intros (_ & field & Hfield & [Hl|[-> ->]]); [|done].
    assert (field = f) as ->; [|by apply Hfl in Hl].
    apply ClaimRoles_Some in Hfield, Hrel0.
    destruct Hfield as [[-> ->]|[-> ->]], Hrel0 as [[-> ?]|[-> ?]]; done.
  - rewrite IHu. naive_solver congruence.
  - rewrite IHr. naive_solver congruence.
  - rewrite elem_of_app, list_elem_of_singleton, IHu. naive_solver.
Qed.

(** ** Properties *)

(** Two distinct names never become the same id of the rights store.  A name
    is either refused -- because it is empty or holds a character the store
    reserves -- with an error that is [ErrInvalidID], or it becomes an id the
    store can hold, from which the name is recovered (as the console's view does
    for a group), so that no other name has that id. *)
Theorem encode_faithful (s : string) :
  match encode s with
  | Ok id =>
      id ≠ "" ∧ contains_byte id ":" = false ∧ contains_byte id "#" = false
      ∧ contains_any id blanks = false
      ∧ displayGroup ("group:" +:+ id +:+ "#member") = s
      ∧ (∀ t, encode t = Ok id → t = s)
  | Err e =>
      errors_Is e "identifier cannot be represented in OpenFGA" = true
      ∧ (s = "" ∨ contains_any s ("#/" +:+ blanks) = true)
  end.
Proof.
  destruct (encode s) as [id|e] eqn:He.
  - destruct (encode_storable s id He) as (Hne & Hcol & Hhash & Hb).
    repeat split; [done..| |intros t Ht; by eapply encode_inj_aux].
    rewrite displayGroup_member by done.
    pose proof (encode_clean s id "/" He eq_refl) as Hsl.
    apply encode_Ok in He as (_ & _ & ->). by apply replace_byte_back.
  - unfold encode in He. case_bool_decide; simpl in He; [simplify_eq; by eauto|].
    destruct (contains_any s _) eqn:Hc; simplify_eq. by eauto.
Qed.

(** When a role holder's user id is also the plain user id of a token's
    subject: exactly when the subject is the realm, a colon and the holder's
    subject.  A subject that holds a colon is accepted (the mapping rewrites it
    to a slash), so the two spaces of user ids are not disjoint. *)
Theorem plain_user_is_a_holder_iff (sub realm holder : string)
    (Hrealm : holderRealm realm = true) (Hholder : is_ok (encode holder) = true) :
  (∃ u, User sub = Ok u ∧ HolderUser realm holder = Ok u) ↔ sub = realm +:+ ":" +:+ holder.
Proof.
  destruct (encode holder) as [idh|] eqn:Hh; [|done].
  pose proof (holderRealm_contains realm "/" Hrealm eq_refl) as Hrs.
  pose proof (holderRealm_contains realm ":" Hrealm eq_refl) as Hrc.
  pose proof Hh as (Hhne & Hhc & ->)%encode_Ok.
  assert (encode (realm +:+ ":" +:+ holder)
    = Ok (realm +:+ "/" +:+ replace_byte holder ":" "/")) as Henc.
  { apply encode_Ok. split_and!.
    - pose proof (holderRealm_nonempty _ Hrealm). by destruct realm.
    - rewrite !contains_any_app, Hhc, (holderRealm_encodable realm) by done. done.
    - by rewrite !replace_byte_app, (replace_byte_id realm). }
  split.
  - intros (u & (id & Hid & ->)%User_Ok & (_ & id' & Hid' & Heq)%HolderUser_Ok).
    rewrite Hh in Hid'. injection Hid' as <-. apply app_inj_str in Heq. subst id.
    by eapply encode_inj_aux.
  - intros ->. eexists. split; [apply User_Ok; by eauto|].
    apply HolderUser_Ok. eauto 10.
Qed.

(** A token of any realm whose subject is [acme:officer] is asked as the officer
    of realm [acme]. *)
Lemma plain_user_is_a_holder_iff_witness :
  ∃ u, User "acme:officer" = Ok u ∧ HolderUser "acme" "officer" = Ok u.
Proof.
  apply (plain_user_is_a_holder_iff "acme:officer" "acme" "officer"); vm_compute; reflexivity.
Defined.

(** How far a role reaches.  An entry of the Cluster claim holds its role over
    the cluster, or over exactly one tenant: the person's own, as its perimeter
    approver, or a tenant other than the platform's, as its auditor and only for
    a person of the platform tenant.  Over the cluster, a person of another
    tenant is only ever a security officer or an auditor. *)
Theorem EntryScope_reach (role tenant stated scope : string)
    (Hentry : EntryScope role tenant stated = Some scope) :
  (scope = ScopeCluster ∧ is_Some (HolderRoles !! role)
     ∧ (role ∈ ["securityOfficer"; "auditor"] ∨ tenant = PlatformTenant))
  ∨ (role = "perimeterApprover" ∧ tenant ≠ PlatformTenant ∧ scope = Tenant tenant)
  ∨ (role = "tenantAuditor" ∧ tenant = PlatformTenant ∧
     ∃ t, ValidTenantName t = true ∧ t ≠ PlatformTenant ∧ scope = Tenant t).
Proof.
  unfold EntryScope in Hentry. case_bool_decide as Hta.
  - destruct (cut_prefix stated "tenant:") as [t|] eqn:Hcut; [|done].
    apply cut_prefix_Some in Hcut as ->.
    repeat case_bool_decide; destruct (ValidTenantName t) eqn:?; simplify_eq/=.
    right; right. eauto 10.
  - destruct (HolderScope role tenant) as [sc|] eqn:Hsc; [|done].
    assert (scope = sc) as ->.
    { destruct (negb _ && negb _); by simplify_eq. }
    clear Hentry. unfold HolderScope in Hsc.
    repeat case_bool_decide; simplify_eq/=.
    all: try (right; left; by eauto).
    all: left; split; [done|split; [|by eauto]].
    all: set_unfold; destruct_or?; subst; by eexists.
Qed.

Lemma EntryScope_reach_witness :
  let scope := "tenant:demo" in
  (scope = ScopeCluster ∧ is_Some (HolderRoles !! "tenantAuditor")
     ∧ ("tenantAuditor" ∈ ["securityOfficer"; "auditor"] ∨ "platform" = PlatformTenant))
  ∨ ("tenantAuditor" = "perimeterApprover" ∧ "platform" ≠ PlatformTenant ∧ scope = Tenant "platform")
  ∨ ("tenantAuditor" = "tenantAuditor" ∧ "platform" = PlatformTenant ∧
     ∃ t, ValidTenantName t = true ∧ t ≠ PlatformTenant ∧ scope = Tenant t).
Proof. apply (EntryScope_reach "tenantAuditor" "platform" "tenant:demo"). vm_compute. reflexivity. Defined.

(** The Cluster claim's [spec.platformRoles] grants exactly what it says: a
    relation is held by a group if and only if one of its fields names that
    group and the field is the relation's, and every field nobody knows is
    reported, in order, instead of being passed on. *)
Theorem RolesFromClaim_exact (claim : gmap string string) :
  let '(roles, unknown) := RolesFromClaim claim in
  (∀ rel group, roles !! rel = Some group ↔
     group ≠ "" ∧ ∃ field, ClaimRoles !! field = Some rel ∧ claim !! field = Some group)
  ∧ (∀ field, field ∈ unknown ↔ is_Some (claim !! field) ∧ ClaimRoles !! field = None)
  ∧ StronglySorted String.le unknown.
Proof.
  rewrite RolesFromClaim_fold. simpl.
  destruct (claim_fold_spec (map_to_list claim)) as [Hr Hu]; [apply NoDup_fst_map_to_list|].
  split_and!.
  - intros rel group. rewrite Hr. by setoid_rewrite elem_of_map_to_list.
  - intros field. rewrite elem_of_sort_strings, Hu, list_elem_of_fmap.
    split; intros [Hin ?]; (split; [|done]).
    + destruct Hin as ([f g] & -> & Hin%elem_of_map_to_list). by exists g.
    + destruct Hin as [g Hg]. exists (field, g). by rewrite elem_of_map_to_list.
  - apply sort_strings_sorted.
Qed.
