(* ===== verification/Fga.v ===== *)
(** * OpenFGA's client

    [internal/openfga/openfga.go]: the requests one client makes of an OpenFGA
    server.  The server is not part of the repository, so it is a parameter of
    the model: [Server] is the part of its HTTP API the client calls, and
    [ServerLaws] what OpenFGA documents of it -- a write request is atomic, and a
    read followed page by page lists each stored tuple that matches once.

    Above it, [RightsStore] is what the code that keeps the store asks of a
    client, and [client_store] shows that [Read] and [Write] provide it. *)

From S2P Require Import Prelude.
From S2P Require Import GoStrings.

(** ** Tuples *)

Record tuple := Tuple { t_user : string; t_relation : string; t_object : string }.

#[global] Instance tuple_eq_dec : EqDecision tuple.
Proof. solve_decision. Defined.
#[global] Instance tuple_countable : Countable tuple.
Proof.
  refine (inj_countable' (λ t, (t_user t, t_relation t, t_object t))
    (λ '(u, r, o), Tuple u r o) _). by intros [].
Defined.

(** A partial tuple filters a read: an empty field matches everything, and an
    object that is only a type (["app:"]) every object of the type. *)
Definition field_matches (f v : string) : bool := bool_decide (f = "") || bool_decide (f = v).
Definition is_type_only (o : string) : bool :=
  match cut o ":" with Some (_, "") => true | _ => false end.
Definition matches (f t : tuple) : bool :=
  field_matches (t_user f) (t_user t)
  && field_matches (t_relation f) (t_relation t)
  && (field_matches (t_object f) (t_object t)
      || (is_type_only (t_object f) && has_prefix (t_object t) (t_object f))).

(** ** Requests *)

Inductive write_kind := Writes | Deletes.

(** The body of a POST to [/stores/<id>/write]: one group of tuples, the
    conflict policy of the group when one is set, and the model when one is. *)
Record write_request := WriteRequest {
  wr_kind : write_kind; wr_tuples : list tuple;
  wr_on_conflict : option string; wr_model : option string }.

Definition apply_request (r : write_request) (c : gset tuple) : gset tuple :=
  match wr_kind r with
  | Writes => c ∪ list_to_set (wr_tuples r)
  | Deletes => c ∖ list_to_set (wr_tuples r)
  end.

Class Server (W : Type) := {
  srv_write : W → write_request → W * result unit;
  srv_read : W → tuple → string → result (list tuple * string) }.

(** What following a read's continuation tokens, from one token on, answers. *)
Inductive pages `{Server W} (s : W) (f : tuple) : string → result (list tuple) → Prop :=
  | pages_last token l :
      srv_read s f token = Ok (l, "") → pages s f token (Ok l)
  | pages_error token e :
      srv_read s f token = Err e → pages s f token (Err e)
  | pages_more token l next r :
      srv_read s f token = Ok (l, next) → next ≠ "" → pages s f next r →
      pages s f token ((λ rest, l ++ rest) <$> r).

Class ServerLaws (W : Type) `{Server W} := {
  contents : W → gset tuple;
  srv_write_ok s r s' u : srv_write s r = (s', Ok u) → contents s' = apply_request r (contents s);
  (** A request that is answered with an error, or not at all, was applied as a
      whole or not at all. *)
  srv_write_err s r s' e : srv_write s r = (s', Err e) →
    contents s' = contents s ∨ contents s' = apply_request r (contents s);
  srv_read_answers s f : ∃ r, pages s f "" r
    ∧ ∀ l, r = Ok l → NoDup l ∧ ∀ t, t ∈ l ↔ t ∈ contents s ∧ matches f t = true }.

(** ** The client's read and write *)

Definition MaxWrite : nat := 100.

Record WriteOptions := mkWriteOptions {
  wo_model : string; wo_on_duplicate : string; wo_on_missing : string }.

Definition nonempty (s : string) : option string :=
  if bool_decide (s = "") then None else Some s.

Section Client.
Context `{Server W}.

(** The [send] closure of [Client.Write]: batches of [MaxWrite] tuples, one
    request each, until one fails.  [fuel] bounds the batches; a slice of [n]
    tuples needs at most [n] of them. *)
Fixpoint send (fuel : nat) (o : WriteOptions) (kind : write_kind) (policy : string)
    (s : W) (tuples : list tuple) : W * result unit :=
  match fuel, tuples with
  | _, [] => (s, Ok tt)
  | 0, _ :: _ => (s, Err (Sentinel "out of fuel"))
  | S fuel', _ :: _ =>
      let n := min (length tuples) MaxWrite in
      let body := WriteRequest kind (take n tuples) (nonempty policy) (nonempty (wo_model o)) in
      match srv_write s body with
      | (s', Err e) => (s', Err e)
      | (s', Ok _) => send fuel' o kind policy s' (drop n tuples)
      end
  end.

(** [Client.Write]: the deletes first, then the writes. *)
Definition Write (o : WriteOptions) (s : W) (writes deletes : list tuple) : W * result unit :=
  match send (length deletes) o Deletes (wo_on_missing o) s deletes with
  | (s', Err e) => (s', Err e)
  | (s', Ok _) => send (length writes) o Writes (wo_on_duplicate o) s' writes
  end.

(** [Client.Read]: the pages until a token is empty; [None] when the fuel ends
    first. *)
Fixpoint read_from (fuel : nat) (s : W) (f : tuple) (token : string) (out : list tuple)
    : option (result (list tuple)) :=
  match fuel with
  | 0 => None
  | S fuel' =>
      match srv_read s f token with
      | Err e => Some (Err e)
      | Ok (l, next) =>
          if bool_decide (next = "") then Some (Ok (out ++ l))
          else read_from fuel' s f next (out ++ l)
      end
  end.
Definition Read (fuel : nat) (s : W) (f : tuple) : option (result (list tuple)) :=
  read_from fuel s f "" [].
End Client.

(** ** Lemmas *)

Definition apply_kind (k : write_kind) (l : list tuple) (c : gset tuple) : gset tuple :=
  apply_request (WriteRequest k l None None) c.

Lemma apply_kind_request r c : apply_request r c = apply_kind (wr_kind r) (wr_tuples r) c.
Proof. by destruct r. Qed.

Lemma apply_kind_app k l1 l2 c : apply_kind k (l1 ++ l2) c = apply_kind k l2 (apply_kind k l1 c).
Proof. destruct k; unfold apply_kind, apply_request; simpl; rewrite list_to_set_app_L; set_solver. Qed.

Lemma apply_kind_nil k c : apply_kind k [] c = c.
Proof. destruct k; unfold apply_kind, apply_request; simpl; set_solver. Qed.

Lemma drop_batch_length (t : tuple) ts :
  length (drop (min (length (t :: ts)) MaxWrite) (t :: ts)) < length (t :: ts).
Proof. rewrite length_drop. unfold MaxWrite. simpl length. lia. Qed.

(** What a write is to leave in the store, by how it ended. *)
Definition deletes_before_writes {W} `{ServerLaws W} (o : WriteOptions) (s : W)
    (writes deletes : list tuple) : Prop :=
  let '(s', r) := Write o s writes deletes in
  match r with
  | Ok _ => contents s' = (contents s ∖ list_to_set deletes) ∪ list_to_set writes
  | Err e =>
      (∃ s0 body, srv_write s0 body = (s', Err e)) ∧
      ((∃ done, done `prefix_of` deletes ∧ contents s' = contents s ∖ list_to_set done)
       ∨ (∃ done, done `prefix_of` writes ∧
            contents s' = (contents s ∖ list_to_set deletes) ∪ list_to_set done))
  end.

(** A server that refuses every request over [MaxWrite]. *)
Definition limited `(Hs : Server W) : Server W := {|
  srv_write s r := if bool_decide (length (wr_tuples r) ≤ MaxWrite) then srv_write s r
                   else (s, Err (Sentinel "too many tuples"));
  srv_read := srv_read |}.

Lemma limited_write `(Hs : Server W) s r :
  length (wr_tuples r) ≤ MaxWrite → @srv_write W (limited Hs) s r = srv_write s r.
Proof. intros Hr. simpl. by rewrite bool_decide_true. Qed.

Lemma send_cons {W} {Hs : Server W} fuel o k policy s t ts :
  let n := min (length (t :: ts)) MaxWrite in
  send (S fuel) o k policy s (t :: ts) =
    match srv_write s (WriteRequest k (take n (t :: ts)) (nonempty policy) (nonempty (wo_model o))) with
    | (s', Err e) => (s', Err e)
    | (s', Ok _) => send fuel o k policy s' (drop n (t :: ts))
    end.
Proof. done. Qed.

(** What every request leaves alone, a write leaves alone. *)
Lemma Write_preserves {W} {Hs : Server W} (P : W → W → Prop) {HP : PreOrder P} o s writes deletes :
  (∀ s r, P s (srv_write s r).1) → P s (Write o s writes deletes).1.
Proof.
  intros Hw. assert (∀ fuel k policy s ts, P s (send fuel o k policy s ts).1) as Hsend.
  { intros fuel k policy. induction fuel as [|fuel IH]; intros s0 [|t ts]; try apply HP.
    rewrite send_cons. cbv zeta.
    match goal with |- context [srv_write s0 ?r] => specialize (Hw s0 r); destruct (srv_write s0 r) as [s1 [[]|e]] end;
      [|done]. etrans; [exact Hw|apply IH]. }
  unfold Write. pose proof (Hsend (length deletes) Deletes (wo_on_missing o) s deletes) as Hd.
  destruct (send _ _ Deletes _ _ _) as [s1 [[]|e]]; [|done]. etrans; [exact Hd|apply Hsend].
Qed.

Section ClientLemmas.
Context {W} {Hs : Server W} {Hl : ServerLaws W}.

Lemma send_spec fuel o k policy s ts s' r :
  length ts ≤ fuel →
  send fuel o k policy s ts = (s', r) →
  ∃ pre, pre `prefix_of` ts ∧ contents s' = apply_kind k pre (contents s)
    ∧ match r with
      | Ok _ => pre = ts
      | Err e => ∃ s0 body, srv_write s0 body = (s', Err e)
      end.
Proof.
  revert s ts. induction fuel as [|fuel IH]; intros s [|t ts] Hlen Hsend.
  1,3: simpl in Hsend; simplify_eq; exists []; by rewrite apply_kind_nil.
  { simpl in Hlen. lia. }
  rewrite send_cons in Hsend. pose proof (drop_batch_length t ts) as Hdrop.
  set (n := min (length (t :: ts)) MaxWrite) in *. clearbody n. cbv zeta in Hsend.
  destruct (srv_write s _) as [s1 [[]|e]] eqn:Hw; simplify_eq.
  - pose proof (srv_write_ok _ _ _ _ Hw) as Hc. rewrite apply_kind_request in Hc. simpl in Hc.
    destruct (IH s1 (drop n (t :: ts))) as (pre & [rest Hpre] & Hcont & Hr); [lia|done|].
    exists (take n (t :: ts) ++ pre). split_and!.
    + exists rest. by rewrite <-app_assoc, <-Hpre, take_drop.
    + rewrite Hcont, Hc. by rewrite apply_kind_app.
    + destruct r; [|done]. by rewrite Hr, take_drop.
  - destruct (srv_write_err _ _ _ _ Hw) as [Hc|Hc].
    + exists []. rewrite apply_kind_nil. eauto using prefix_nil.
    + rewrite apply_kind_request in Hc. simpl in Hc.
      exists (take n (t :: ts)). split_and!; [|done|by eauto].
      exists (drop n (t :: ts)). by rewrite take_drop.
Qed.

Lemma send_limited fuel o k policy s ts :
  @send W (limited Hs) fuel o k policy s ts = send fuel o k policy s ts.
Proof.
  clear Hl. revert s ts. induction fuel as [|fuel IH]; intros s [|t ts]; try done.
  rewrite !send_cons. cbv zeta. rewrite limited_write by (cbn [wr_tuples]; rewrite length_take; lia).
  destruct (srv_write s _) as [s1 [[]|e]]; [apply IH|done].
Qed.

Lemma read_from_spec s f token r :
  pages s f token r →
  ∃ n, ∀ m out, n ≤ m → read_from m s f token out = Some ((λ l, out ++ l) <$> r).
Proof.
  induction 1 as [token l Hr|token e Hr|token l next r Hr Hne _ [n IH]].
  - exists 1. intros [|m] out Hm; [lia|]. simpl. by rewrite Hr, bool_decide_true.
  - exists 1. intros [|m] out Hm; [lia|]. simpl. by rewrite Hr.
  - exists (S n). intros [|m] out Hm; [lia|]. simpl.
    rewrite Hr, bool_decide_false by done. rewrite IH by lia.
    destruct r; simpl; [|done]. by rewrite app_assoc.
Qed.

Lemma read_from_mono n m s f token out r :
  n ≤ m → read_from n s f token out = Some r → read_from m s f token out = Some r.
Proof.
  clear Hl. revert m token out. induction n as [|n IH]; intros [|m] token out Hle Hr;
    simpl in *; try done; [lia|].
  destruct (srv_read s f token) as [[l next]|e]; [|done].
  case_bool_decide; [done|]. apply IH; [lia|done].
Qed.

Lemma Read_spec s f :
  ∃ n r, (∀ fuel, n ≤ fuel → Read fuel s f = Some r) ∧
    match r with
    | Ok l => NoDup l ∧ ∀ t, t ∈ l ↔ t ∈ contents s ∧ matches f t = true
    | Err e => ∃ token, srv_read s f token = Err e
    end.
Proof.
  destruct (srv_read_answers s f) as (r & Hp & Hr).
  destruct (read_from_spec _ _ _ _ Hp) as [n Hn].
  exists n, r. split.
  - intros fuel Hf. unfold Read. rewrite Hn by done. by destruct r.
  - destruct r as [l|e]; [by apply Hr|]. clear -Hp.
    remember (Err e) as r eqn:He. revert e He.
    induction Hp as [| |token l next r Hr Hne Hp IH]; intros e' He; simplify_eq; eauto.
    destruct r; simplify_eq/=. by eapply IH.
Qed.

Lemma Read_Ok fuel s f l :
  Read fuel s f = Some (Ok l) →
  NoDup l ∧ ∀ t, t ∈ l ↔ t ∈ contents s ∧ matches f t = true.
Proof.
  intros Hread. destruct (Read_spec s f) as (n & r & Hn & Hr).
  specialize (Hn (max n fuel) ltac:(lia)).
  apply (read_from_mono _ (max n fuel)) in Hread; [|lia].
  unfold Read in Hn. rewrite Hread in Hn. by simplify_eq.
Qed.

Lemma Write_spec o s writes deletes : deletes_before_writes o s writes deletes.
Proof.
  unfold deletes_before_writes, Write. destruct (send _ _ Deletes _ _ _) as [s1 r1] eqn:Hd.
  destruct (send_spec _ _ _ _ _ _ _ _ (le_n _) Hd) as (pre & Hpre & Hc1 & Hr1).
  destruct r1 as [[]|e]; [subst pre|by eauto 10].
  destruct (send _ _ Writes _ _ _) as [s2 r2] eqn:Hw.
  destruct (send_spec _ _ _ _ _ _ _ _ (le_n _) Hw) as (pre & Hpre' & Hc2 & Hr2).
  unfold apply_kind, apply_request in *. simpl in *.
  destruct r2 as [[]|e]; [subst pre|]; rewrite Hc2, Hc1; eauto 10.
Qed.
End ClientLemmas.

(** ** What the keepers of a store ask of a client *)

Class RightsStore (W : Type) := {
  rs_read : W → tuple → result (list tuple);
  rs_write : W → list tuple → list tuple → W * result unit }.

(** A read lists what matches, each tuple once; a write that succeeds removes the
    deletes and adds the writes, and one that fails removed a part of the deletes,
    or all of them and added a part of the writes. *)
Class RightsStoreLaws (W : Type) `{RightsStore W} := {
  rs_contents : W → gset tuple;
  rs_read_ok s f l : rs_read s f = Ok l →
    NoDup l ∧ ∀ t, t ∈ l ↔ t ∈ rs_contents s ∧ matches f t = true;
  rs_write_ok s writes deletes s' u : rs_write s writes deletes = (s', Ok u) →
    rs_contents s' = (rs_contents s ∖ list_to_set deletes) ∪ list_to_set writes;
  rs_write_err s writes deletes s' e : rs_write s writes deletes = (s', Err e) →
    (∃ done, done `prefix_of` deletes ∧ rs_contents s' = rs_contents s ∖ list_to_set done)
    ∨ (∃ done, done `prefix_of` writes ∧
         rs_contents s' = (rs_contents s ∖ list_to_set deletes) ∪ list_to_set done) }.

(** The client is such a store ([OpenFGA.Read] and [OpenFGA.Write] of
    [internal/director/authz/authz.go]).  [fuel] bounds the pages of a read; a
    read that needs more is an error here, which no property relies on. *)
Definition client_store {W} `{Server W} (fuel : nat) (o : WriteOptions) : RightsStore W := {|
  rs_read s f := default (Err (Sentinel "out of fuel")) (Read fuel s f);
  rs_write s writes deletes := Write o s writes deletes |}.

#[global] Program Instance client_store_laws {W} `{Hl : ServerLaws W} fuel o :
  @RightsStoreLaws W (client_store fuel o) := {| rs_contents := contents |}.
Next Obligation.
  intros W Hs Hl fuel o s f l Hread. simpl in Hread.
  destruct (Read fuel s f) as [r|] eqn:Hr; simpl in Hread; [subst r|done].
  by apply Read_Ok in Hr.
Qed.
Next Obligation.
  intros W Hs Hl fuel o s writes deletes s' u Hw. simpl in Hw.
  pose proof (Write_spec o s writes deletes) as Hspec.
  unfold deletes_before_writes in Hspec. by rewrite Hw in Hspec.
Qed.
Next Obligation.
  intros W Hs Hl fuel o s writes deletes s' e Hw. simpl in Hw.
  pose proof (Write_spec o s writes deletes) as Hspec.
  unfold deletes_before_writes in Hspec. rewrite Hw in Hspec. apply Hspec.
Qed.

(** ** A server in memory

    The laws can hold: a set of tuples, the number of write requests until one is
    refused, and reads that answer in two pages. *)
Record mem_server := MemServer { ms_tuples : gset tuple; ms_budget : nat }.

Definition ms_matching (s : mem_server) (f : tuple) : list tuple :=
  filter (λ t, matches f t = true) (elements (ms_tuples s)).

#[global] Instance mem_server_server : Server mem_server := {|
  srv_write s r := match ms_budget s with
                   | 0 => (MemServer (ms_tuples s) 100, Err (Sentinel "unavailable"))
                   | S n => (MemServer (apply_request r (ms_tuples s)) n, Ok tt)
                   end;
  srv_read s f token :=
    match ms_matching s f, bool_decide (token = "") with
    | t :: (_ :: _), true => Ok ([t], "rest")
    | _ :: ts, false => Ok (ts, "")
    | l, _ => Ok (l, "")
    end |}.

#[global] Program Instance mem_server_laws : ServerLaws mem_server := {| contents := ms_tuples |}.
Next Obligation. intros s r s' u Hw. simpl in Hw. destruct (ms_budget s); by simplify_eq. Qed.
Next Obligation. intros s r s' e Hw. simpl in Hw. destruct (ms_budget s); simplify_eq. by left. Qed.
Next Obligation.
  intros s f. exists (Ok (ms_matching s f)). split.
  - destruct (ms_matching s f) as [|t [|t' ts]] eqn:Hm.
    1,2: apply pages_last; simpl; by rewrite Hm.
    change (Ok (t :: t' :: ts)) with ((λ rest, [t] ++ rest) <$> Ok (t' :: ts)).
    apply (pages_more _ _ _ _ "rest"); [simpl; by rewrite Hm|done|].
    apply pages_last. simpl. by rewrite Hm.
  - intros l [= <-]. unfold ms_matching. split.
    + apply NoDup_filter, NoDup_elements.
    + intros t. rewrite list_elem_of_filter, elem_of_elements. tauto.
Qed.

(** The client in front of it. *)
#[global] Instance mem_store : RightsStore mem_server := client_store 3 (mkWriteOptions "m" "" "").
#[global] Instance mem_store_laws : RightsStoreLaws mem_server := client_store_laws 3 (mkWriteOptions "m" "" "").

(** ** Properties *)

(** What a write leaves in the store, however it ends.  Deletes are applied
    before any write: on success the store holds what it held, less the deletes,
    plus the writes; on failure a part of the deletes and nothing else, or all of
    the deletes and a part of the writes.  The failure is one the server (or the
    way to it) answered, never the client running out of batches. *)
Theorem Write_deletes_first {W} `{Hl : ServerLaws W} (o : WriteOptions) (s : W)
    (writes deletes : list tuple) :
  deletes_before_writes o s writes deletes.
Proof. apply Write_spec. Qed.

(** A write that is cut off after the deletes: the revoked tuple is gone, the
    granted one is not there. *)
Lemma Write_deletes_first_witness :
  let o := mkWriteOptions "m" "" "" in
  let s := MemServer {[Tuple "user:a" "viewer" "doc:1"]} 1 in
  let writes := [Tuple "user:b" "viewer" "doc:1"] in
  let deletes := [Tuple "user:a" "viewer" "doc:1"] in
  is_ok (Write o s writes deletes).2 = false
  ∧ contents (Write o s writes deletes).1 = ∅
  ∧ deletes_before_writes o s writes deletes.
Proof.
  split; [reflexivity|]. split; [vm_compute; reflexivity|]. apply Write_deletes_first.
Defined.

(** No request of a write carries more tuples than OpenFGA takes: against a
    server that refuses every larger request, a write goes exactly as it goes
    against one that takes them all. *)
Theorem Write_within_limit {W} (Hs : Server W) (o : WriteOptions) (s : W)
    (writes deletes : list tuple) :
  @Write W (limited Hs) o s writes deletes = Write o s writes deletes.
Proof.
  unfold Write. rewrite send_limited.
  destruct (send _ _ Deletes _ _ _) as [s1 [[]|e]]; [apply send_limited|done].
Qed.

(** A read ends, and its answer is complete: from some number of pages on it
    returns either the server's error or every stored tuple that matches the
    filter, each once, and nothing else. *)
Theorem Read_complete {W} `{Hl : ServerLaws W} (s : W) (f : tuple) :
  ∃ n r, (∀ fuel, n ≤ fuel → Read fuel s f = Some r) ∧
    match r with
    | Ok l => NoDup l ∧ ∀ t, t ∈ l ↔ t ∈ contents s ∧ matches f t = true
    | Err e => ∃ token, srv_read s f token = Err e
    end.
Proof. apply Read_spec. Qed.

Lemma Read_complete_witness :
  let s := MemServer {[Tuple "user:a" "viewer" "doc:1"; Tuple "user:b" "viewer" "doc:1"]} 1 in
  ∃ n r, (∀ fuel, n ≤ fuel → Read fuel s (Tuple "" "viewer" "doc:") = Some r) ∧
    match r with
    | Ok l => NoDup l ∧ ∀ t, t ∈ l ↔ t ∈ contents s ∧ matches (Tuple "" "viewer" "doc:") t = true
    | Err e => ∃ token, srv_read s (Tuple "" "viewer" "doc:") token = Err e
    end.
Proof. apply Read_complete. Defined.
