(* ===== verification/Rights.v ===== *)
(** * The projection into the rights store

    What the operator keeps in the kernel's OpenFGA store
    ([internal/director/authz]): the installed apps of each tenant
    ([apps.go]), each tenant's attachment, roles and role holders
    ([tenants.go]), the cluster's roles ([roles.go]), and what of a tenant's
    rights exists only in the store, for a backup ([storeonly.go]).

    Each reconciler reads what is stored, works out the tuples to add and to
    remove, and makes one write.  The store is any [RightsStore]; the sorting of
    the two lists before the write is kept, though only a log shows it. *)

From S2P Require Import Prelude.
From S2P Require Import GoStrings.
From S2P Require Import Ids.
From S2P Require Import Fga.

(** ** Tuples by key *)

Definition key (t : tuple) : string := t_user t +:+ "|" +:+ t_relation t +:+ "|" +:+ t_object t.

Definition plain (t : tuple) : tuple := Tuple (t_user t) (t_relation t) (t_object t).

(** The loop over what is stored, shared by the reconcilers: a tuple that is
    wanted is taken off the list of what is still to be written, any other is to
    be deleted. *)
Definition settle (acc : gmap string tuple * list tuple) (t : tuple)
    : gmap string tuple * list tuple :=
  match acc.1 !! key (plain t) with
  | Some _ => (delete (key (plain t)) acc.1, acc.2)
  | None => (acc.1, acc.2 ++ [plain t])
  end.

(** ** A tenant's installed apps *)

Record InstalledApp := mkInstalledApp { ia_profile : string; ia_addons : list string }.

(** The [add] closure of [appTuples]. *)
Definition add_app (tenant : string) (want : gmap string tuple) (profile : string)
    (entitledBy : list string) : result (gmap string tuple) :=
  let object := App tenant profile in
  let t := Tuple (Tenant tenant) "tenant" object in
  fold_result (λ want by_,
      group ← wrap "tenant %s app %s: %w" [tenant; by_] (appGroup tenant by_);
      let e := Tuple (group +:+ "#member") "entitled" object in
      Ok (<[key e := e]> want))
    (<[key t := t]> want) entitledBy.

Definition addons_of (app : InstalledApp) : list string :=
  filter (λ a, a ≠ "") (ia_addons app).

Definition app_step (tenant : string) (want : gmap string tuple) (app : InstalledApp)
    : result (gmap string tuple) :=
  if bool_decide (ia_profile app = "") then Ok want
  else
    let addons := addons_of app in
    let base := match addons with [] => [ia_profile app] | _ => addons end in
    want ← add_app tenant want (ia_profile app) base;
    fold_result (λ want a, add_app tenant want a [a]) want addons.

Definition appTuples (tenant : string) (apps : list InstalledApp) : result (gmap string tuple) :=
  fold_result (app_step tenant) ∅ apps.

(** The two relations on an app's object that are the projection's. *)
Definition app_relation (rel : string) : bool := bool_decide (rel ∈ ["tenant"; "entitled"]).

Section Reconcile.
Context {W} `{RightsStore W}.

(** One tenant of [ReconcileApps]: what to write and what to delete. *)
Definition plan_tenant_apps (s : W) (tenant : string) (apps : list InstalledApp)
    : result (list tuple * list tuple) :=
  want ← appTuples tenant apps;
  attached ← wrap "read apps of tenant %s: %w" [tenant]
               (rs_read s (Tuple (Tenant tenant) "tenant" "app:"));
  let objects : gset string :=
    list_to_set (filter (λ o, has_prefix o ("app:" +:+ tenant +:+ "/") = true)
                   (t_object <$> attached))
    ∪ list_to_set (t_object <$> (map_to_list want).*2) in
  '(want, deletes) ← fold_result (λ acc object,
      have ← wrap "read %s: %w" [object] (rs_read s (Tuple "" "" object));
      Ok (foldl settle acc (filter (λ t, app_relation (t_relation t) = true) have)))
    (want, []) (elements objects);
  Ok ((map_to_list want).*2, deletes).

(** Sort, and write when there is anything to write. *)
Definition commit (what : string) (s : W) (plan : result (list tuple * list tuple))
    : W * result unit :=
  match plan with
  | Err e => (s, Err e)
  | Ok ([], []) => (s, Ok tt)
  | Ok (writes, deletes) =>
      let '(s', r) := rs_write s (sort_by key writes) (sort_by key deletes) in
      (s', wrap what [] r)
  end.

(** Gather the plans of a list of subjects, in order. *)
Definition gather {A} (plan : A → result (list tuple * list tuple)) (l : list A)
    : result (list tuple * list tuple) :=
  fold_result (λ acc a, p ← plan a; Ok (acc.1 ++ p.1, acc.2 ++ p.2)) ([], []) l.

Definition ReconcileApps (s : W) (installed : gmap string (list InstalledApp)) : W * result unit :=
  let tenants := sort_strings (map_to_list installed).*1 in
  commit "reconcile apps: %w" s
    (gather (λ tenant, plan_tenant_apps s tenant (default [] (installed !! tenant))) tenants).

(** ** The cluster's roles *)

Definition want_cluster_roles (cluster : string) (roles : gmap string string)
    (holders : list RoleHolder) : result (gmap string tuple) :=
  let object := Cluster cluster in
  if negb (forallb groupRelation (map_to_list roles).*1)
  then Err (Errorf "cluster role %q is not one a group holds"
              (filter (λ rel, groupRelation rel = false) (map_to_list roles).*1))
  else
    want ← fold_result (λ want rel,
        match roles !! rel with
        | None => Ok want
        | Some group =>
            if bool_decide (group = "") then Ok want
            else
              obj ← wrap "role %s names group %q: %w" [rel; group] (Group group);
              let t := Tuple (obj +:+ "#member") rel object in
              Ok (<[key t := t]> want)
        end) ∅ ClusterRoles;
    fold_result (λ want h,
        if negb (bool_decide (rh_tenant h = "")) then Ok want
        else if negb (holderRelation (rh_relation h))
        then Err (Errorf "cluster role %q is not one a role holder may hold" [rh_relation h])
        else
          user ← wrap "role holder %s/%s: %w" [rh_realm h; rh_subject h]
                   (HolderUser (rh_realm h) (rh_subject h));
          let t := Tuple user (rh_relation h) object in
          Ok (<[key t := t]> want)) want holders.

Definition plan_cluster_roles (s : W) (cluster : string) (roles : gmap string string)
    (holders : list RoleHolder) : result (list tuple * list tuple) :=
  let object := Cluster cluster in
  want ← want_cluster_roles cluster roles holders;
  '(want, deletes) ← fold_result (λ acc rel,
      have ← wrap "read %s on %s: %w" [rel; object] (rs_read s (Tuple "" rel object));
      Ok (foldl settle acc have)) (want, []) ClusterRoles;
  Ok ((map_to_list want).*2, deletes).

Definition ReconcileClusterRoles (s : W) (cluster : string) (roles : gmap string string)
    (holders : list RoleHolder) : W * result unit :=
  commit "reconcile cluster roles: %w" s (plan_cluster_roles s cluster roles holders).
End Reconcile.

(** ** Tenants *)

Definition tenantRoleGroups : list (string * string) := [("admin", "admins"); ("member", "members")].

Record TenantRights := mkTenantRights {
  tr_name : string; tr_perimeter_approvers : list string; tr_auditors : list string }.

Definition claimTenantRelations : list string := ["perimeter_approver"; "auditor"].
Definition heldBy (r : TenantRights) : list (list string) :=
  [tr_perimeter_approvers r; tr_auditors r].
Definition claimTenantRelation (rel : string) : bool := existsb (String.eqb rel) claimTenantRelations.

(** [tenantDefaults]: the standing entries, and the one written once. *)
Definition tenantDefaults (cluster tenant : string) : result (list tuple * list tuple) :=
  let clusterObj := Cluster cluster in
  let obj := Tenant tenant in
  standing ← fold_result (λ standing '(relation, suffix),
      group ← wrap "tenant %s: %w" [tenant] (Group ("gentian:tenant:" +:+ tenant +:+ ":" +:+ suffix));
      Ok (standing ++ [Tuple (group +:+ "#member") relation obj]))
    [Tuple clusterObj "cluster" obj] tenantRoleGroups;
  Ok (standing, [Tuple clusterObj "operated_by" obj]).

Section ReconcileTenants.
Context {W} `{RightsStore W}.

(** Write a tuple the store does not hold. *)
Definition plan_missing (format : string) (s : W) (t : tuple) : result (list tuple) :=
  have ← wrap format [t_relation t; t_object t] (rs_read s t);
  Ok (match have with [] => [t] | _ => [] end).

(** The holders of one of the claim's relations on a tenant. *)
Definition plan_holders (s : W) (obj rel : string) (users : list string)
    : result (list tuple * list tuple) :=
  have ← wrap "read %s on %s: %w" [rel; obj] (rs_read s (Tuple "" rel obj));
  let '(named, deletes) := foldl (λ '(named, deletes) t,
      if bool_decide (t_user t ∈ named) then (named ∖ {[t_user t]}, deletes)
      else (named, deletes ++ [plain t])) (list_to_set users : gset string, []) have in
  Ok ((λ user, Tuple user rel obj) <$> elements named, deletes).

Definition plan_tenant (s : W) (cluster : string) (rights : TenantRights)
    : result (list tuple * list tuple) :=
  let clusterObj := Cluster cluster in
  let tenant := tr_name rights in
  let obj := Tenant tenant in
  attached ← plan_missing "read %s of %s: %w" s (Tuple clusterObj "cluster" obj);
  operated ← (if bool_decide (attached ≠ []) || bool_decide (tenant = PlatformTenant)
              then plan_missing "read %s of %s: %w" s (Tuple clusterObj "operated_by" obj) else Ok []);
  '(standing, _) ← tenantDefaults cluster tenant;
  roles ← fold_result (λ acc t, w ← plan_missing "read %s on %s: %w" s t; Ok (acc ++ w)) [] (tail standing);
  held ← gather (λ '(rel, users), plan_holders s obj rel users)
           (zip claimTenantRelations (heldBy rights));
  Ok (attached ++ operated ++ roles ++ held.1, held.2).

Definition ReconcileTenants (s : W) (cluster : string) (tenants : list TenantRights)
    : W * result unit :=
  commit "reconcile tenants: %w" s (gather (plan_tenant s cluster) tenants).
End ReconcileTenants.

(** ** Lemmas *)

(** *** Keys *)

Definition bar_free (s : string) : Prop := contains_byte s "|" = false.
#[global] Instance bar_free_dec s : Decision (bar_free s).
Proof. unfold bar_free. apply _. Defined.

Definition clean (t : tuple) : Prop :=
  bar_free (t_user t) ∧ bar_free (t_relation t) ∧ bar_free (t_object t).

Lemma bar_free_app s t : bar_free s → bar_free t → bar_free (s +:+ t).
Proof. unfold bar_free. rewrite contains_byte_app. by intros -> ->. Qed.

Lemma bar_free_dns s : dns_label s = true → bar_free s.
Proof. intros Hs. by apply dns_label_contains. Qed.

Lemma bar_free_encode s id : bar_free s → encode s = Ok id → bar_free id.
Proof. intros Hs (_ & _ & ->)%encode_Ok. by apply replace_byte_contains_other. Qed.

Create HintDb go_clean.
#[export] Hint Resolve bar_free_app bar_free_dns : go_clean.
#[export] Hint Extern 1 (bar_free _) => vm_compute; reflexivity : go_clean.

Lemma key_split t : split (key t) "|" = split (t_user t) "|" ++ split (t_relation t) "|" ++ split (t_object t) "|".
Proof.
  unfold key. change ("|" +:+ t_relation t +:+ "|" +:+ t_object t)
    with (String "|" (t_relation t +:+ String "|" (t_object t))).
  by rewrite !split_app.
Qed.

(** The key of a clean tuple is no other tuple's. *)
Lemma key_inj t t' : clean t' → key t = key t' → t = t'.
Proof.
  intros (Hu & Hr & Ho) Hk. apply (f_equal (λ s, split s "|")) in Hk.
  rewrite !key_split in Hk.
  rewrite (split_no_sep _ _ Hu), (split_no_sep _ _ Hr), (split_no_sep _ _ Ho) in Hk.
  destruct t as [u r o], t' as [u' r' o']. simpl in *.
  pose proof (split_nonempty u "|") as Hnu. pose proof (split_nonempty r "|") as Hnr.
  pose proof (split_nonempty o "|") as Hno.
  pose proof (f_equal length Hk) as Hlen. rewrite !length_app in Hlen. simpl in Hlen.
  destruct (split u "|") as [|x1 [|? ?]] eqn:E1, (split r "|") as [|x2 [|? ?]] eqn:E2,
    (split o "|") as [|x3 [|? ?]] eqn:E3; simpl in Hlen; try done; try lia.
  apply split_singleton in E1, E2, E3. by simplify_eq/=.
Qed.

Lemma plain_id t : plain t = t.
Proof. by destruct t. Qed.

(** A map from keys to tuples that holds exactly the tuples with a property. *)
Definition keyed (m : gmap string tuple) (P : tuple → Prop) : Prop :=
  (∀ k t, m !! k = Some t ↔ k = key t ∧ P t) ∧ (∀ t, P t → clean t).

Lemma keyed_empty : keyed ∅ (λ _, False).
Proof. split; [|done]. intros k t. rewrite lookup_empty. naive_solver. Qed.

Lemma keyed_proper m P Q : (∀ t, P t ↔ Q t) → keyed m P → keyed m Q.
Proof.
  intros HPQ [Hm Hc]. split.
  - intros k t. by rewrite Hm, HPQ.
  - intros t Ht. apply Hc. by apply HPQ.
Qed.

#[global] Instance keyed_Proper m : Proper (pointwise_relation tuple iff ==> iff) (keyed m).
Proof. intros P Q HPQ. split; apply keyed_proper; [apply HPQ|symmetry; apply HPQ]. Qed.

Lemma keyed_insert m P t :
  clean t → keyed m P → keyed (<[key t := t]> m) (λ t', t' = t ∨ P t').
Proof.
  intros Ht [Hm Hc]. split; [|naive_solver]. intros k t'. rewrite lookup_insert.
  case_decide as Hk.
  - subst k. split; [naive_solver|]. intros [Hk _]. symmetry in Hk.
    by rewrite (key_inj t' t Ht Hk).
  - rewrite Hm. naive_solver.
Qed.

Lemma keyed_lookup m P t : keyed m P → P t → m !! key t = Some t.
Proof. intros [Hm _] Ht. by apply Hm. Qed.

Lemma keyed_lookup_None m P t : keyed m P → ¬ P t → m !! key t = None.
Proof.
  intros [Hm Hc] Ht. apply eq_None_not_Some. intros [t' Ht'].
  apply Hm in Ht' as [Hk HP]. apply key_inj in Hk; [|by apply Hc]. naive_solver.
Qed.

Lemma keyed_delete m P t : keyed m P → keyed (delete (key t) m) (λ t', P t' ∧ t' ≠ t).
Proof.
  intros [Hm Hc]. split; [|naive_solver]. intros k t'. rewrite lookup_delete.
  case_decide as Hk.
  - subst k. split; [done|]. intros (Hk & HP & Hne). apply key_inj in Hk; [|by apply Hc]. naive_solver.
  - rewrite Hm. split; [|naive_solver]. intros [-> HP]. naive_solver.
Qed.

Lemma keyed_values m P t : keyed m P → t ∈ (map_to_list m).*2 ↔ P t.
Proof.
  intros [Hm _]. rewrite list_elem_of_fmap. split.
  - intros ([k t'] & -> & Hin%elem_of_map_to_list). by apply Hm in Hin as [_ ?].
  - intros Ht. exists (key t, t). rewrite elem_of_map_to_list. split; [done|]. by apply Hm.
Qed.

(** *** Settling what is stored against what is wanted *)

Lemma settle_fold (P : tuple → Prop) have want deletes :
  NoDup have → keyed want P →
  let acc := foldl settle (want, deletes) have in
  keyed acc.1 (λ t, P t ∧ t ∉ have) ∧ (∀ t, t ∈ acc.2 ↔ t ∈ deletes ∨ (t ∈ have ∧ ¬ P t)).
Proof.
  intros Hnd. revert P want deletes.
  induction Hnd as [|t have Ht Hnd IH]; intros P want deletes Hw; simpl.
  { split; [|set_solver]. eapply keyed_proper; [|exact Hw]. set_solver. }
  unfold settle at 2 4. simpl. rewrite plain_id.
  destruct (want !! key t) as [t'|] eqn:Hl.
  - assert (P t) as Hyes.
    { apply Hw in Hl as [Hk HP]. apply key_inj in Hk; [by subst|]. by apply Hw. }
    destruct (IH (λ t', P t' ∧ t' ≠ t) (delete (key t) want) deletes) as [Hk Hd].
    { by apply keyed_delete. }
    split.
    + eapply keyed_proper; [|exact Hk]. intros t0. rewrite not_elem_of_cons. naive_solver.
    + intros t0. rewrite Hd, elem_of_cons. split; [naive_solver|].
      intros [?|[[->|?] ?]]; [by left|done|]. right. split; [done|]. naive_solver.
  - assert (¬ P t) as Hno.
    { intros HP. by rewrite (keyed_lookup _ _ _ Hw HP) in Hl. }
    destruct (IH P want (deletes ++ [t]) Hw) as [Hk Hd]. split.
    + eapply keyed_proper; [|exact Hk]. intros t0. rewrite not_elem_of_cons.
      split; [|naive_solver]. intros [HP ?]. split; [done|]. split; [by intros ->|done].
    + intros t0. rewrite Hd, elem_of_app, list_elem_of_singleton, elem_of_cons. naive_solver.
Qed.

Lemma keyed_dec m P t : keyed m P → P t ∨ ¬ P t.
Proof.
  intros Hm. destruct (m !! key t) as [t'|] eqn:Ht.
  - left. apply Hm in Ht as [Hk HP]. apply key_inj in Hk; [by subst|by apply Hm].
  - right. intros HP. by rewrite (keyed_lookup _ _ _ Hm HP) in Ht.
Qed.

(** A sequence of reads, each settled in turn.  [R a] is what of the store the
    read for [a] covers; no two reads cover the same tuple. *)
Lemma settle_reads {A} (f : gmap string tuple * list tuple → A →
      result (gmap string tuple * list tuple)) (C : gset tuple) (R : A → tuple → Prop)
    (P : tuple → Prop) want l acc :
  (∀ x a x', a ∈ l → f x a = Ok x' → ∃ have, x' = foldl settle x have ∧ NoDup have
    ∧ ∀ t, t ∈ have ↔ t ∈ C ∧ R a t) →
  (∀ a b t, R a t → R b t → a = b) → NoDup l → keyed want P →
  fold_result f (want, []) l = Ok acc →
  keyed acc.1 (λ t, P t ∧ ¬ (t ∈ C ∧ ∃ a, a ∈ l ∧ R a t))
  ∧ (∀ t, t ∈ acc.2 ↔ t ∈ C ∧ (∃ a, a ∈ l ∧ R a t) ∧ ¬ P t).
Proof.
  intros Hf HR Hnd HP Hrun.
  refine (fold_result_invariant _ (λ l acc, keyed acc.1 (λ t, P t ∧ ¬ (t ∈ C ∧ ∃ a, a ∈ l ∧ R a t))
    ∧ (∀ t, t ∈ acc.2 ↔ t ∈ C ∧ (∃ a, a ∈ l ∧ R a t) ∧ ¬ P t)) _ _ _ Hrun _ _).
  - split; simpl.
    + eapply keyed_proper; [|exact HP]. intros t. rewrite exists_elem_nil. tauto.
    + intros t. rewrite exists_elem_nil, elem_of_nil. tauto.
  - intros seen a [w d] x' [rest Hpre] [Hw Hd] Hstep. simpl in Hw, Hd.
    destruct (Hf _ a _ ltac:(rewrite Hpre; set_solver) Hstep) as (have & -> & Hhnd & Hhave).
    destruct (settle_fold _ have w d Hhnd Hw) as [Hw' Hd'].
    assert (∀ t, R a t → ¬ ∃ a, a ∈ seen ∧ R a t) as Hfresh.
    { intros t Ha (b & Hb & Hbt). rewrite (HR _ _ _ Ha Hbt) in Hpre. rewrite Hpre in Hnd.
      apply NoDup_app in Hnd as (Hnd & _). apply NoDup_app in Hnd as (_ & Hnd & _).
      apply (Hnd b); set_solver. }
    split.
    + eapply keyed_proper; [|exact Hw']. intros t. rewrite exists_elem_snoc, Hhave. tauto.
    + intros t. rewrite Hd', exists_elem_snoc, Hhave, Hd. specialize (Hfresh t). tauto.
Qed.

(** *** Plans

    What a plan of writes and deletes is for: [M] is what of the store the plan
    is responsible for, and [Q] what is to be there. *)
Definition planned (C : gset tuple) (M Q : tuple → Prop) (p : list tuple * list tuple) : Prop :=
  (∀ t, t ∈ p.1 ↔ Q t ∧ t ∉ C)
  ∧ (∀ t, t ∈ p.2 ↔ t ∈ C ∧ M t ∧ ¬ Q t)
  ∧ (∀ t, Q t ∨ ¬ Q t).

(** The store after a plan is carried out. *)
Definition settled (C : gset tuple) (M Q : tuple → Prop) (C' : gset tuple) : Prop :=
  ∀ t, t ∈ C' ↔ Q t ∨ (t ∈ C ∧ ¬ M t).

Lemma planned_proper C M M' Q Q' p :
  (∀ t, M t ↔ M' t) → (∀ t, Q t ↔ Q' t) → planned C M Q p → planned C M' Q' p.
Proof.
  intros HM HQ (Hw & Hd & Hdec). split; [|split]; intros t.
  - by rewrite Hw, HQ.
  - by rewrite Hd, HM, HQ.
  - rewrite <-HQ. apply Hdec.
Qed.

Lemma gather_planned {A} (plan : A → result (list tuple * list tuple)) C (M Q : A → tuple → Prop) l p :
  (∀ a p, a ∈ l → plan a = Ok p → planned C (M a) (Q a) p) →
  (∀ a b t, a ∈ l → b ∈ l → Q a t → M b t → Q b t) →
  gather plan l = Ok p →
  planned C (λ t, ∃ a, a ∈ l ∧ M a t) (λ t, ∃ a, a ∈ l ∧ Q a t) p.
Proof.
  intros Hplan Hsep Hrun.
  assert ((∀ t, t ∈ p.1 ↔ ∃ a, a ∈ l ∧ (Q a t ∧ t ∉ C))
    ∧ (∀ t, t ∈ p.2 ↔ ∃ a, a ∈ l ∧ (t ∈ C ∧ M a t ∧ ¬ Q a t))
    ∧ (∀ t, (∃ a, a ∈ l ∧ Q a t) ∨ ¬ ∃ a, a ∈ l ∧ Q a t)) as (Hw & Hd & Hm).
  { refine (fold_result_invariant _ (λ l p, (∀ t, t ∈ p.1 ↔ ∃ a, a ∈ l ∧ (Q a t ∧ t ∉ C))
      ∧ (∀ t, t ∈ p.2 ↔ ∃ a, a ∈ l ∧ (t ∈ C ∧ M a t ∧ ¬ Q a t))
      ∧ (∀ t, (∃ a, a ∈ l ∧ Q a t) ∨ ¬ ∃ a, a ∈ l ∧ Q a t)) _ _ _ Hrun _ _).
    - repeat split; intros; simpl in *; try (by apply elem_of_nil in H); go_ex; set_solver.
    - intros seen a x x' [rest Hpre] (Hw & Hd & Hm) Hstep.
      destruct (plan a) as [pa|] eqn:Ha; [|done]. simpl in Hstep. simplify_eq/=.
      destruct (Hplan a pa ltac:(set_solver) Ha) as (Hwa & Hda & Hma).
      split; [|split]; intros t; rewrite ?elem_of_app, ?Hw, ?Hd, ?Hwa, ?Hda, ?exists_elem_snoc.
      + done.
      + done.
      + destruct (Hm t), (Hma t); tauto. }
  split; [|split]; intros t; [rewrite Hw; naive_solver| |apply Hm].
  rewrite Hd. split.
  - intros (a & Ha & HC & HMa & HQ). split; [done|]. split; [by exists a|].
    intros (b & Hb & HQb). by apply HQ, (Hsep b).
  - intros (HC & (a & Ha & HMa) & HQ). exists a. repeat split; try done. intros HQa. apply HQ. by exists a.
Qed.

Lemma planned_union C M1 Q1 M2 Q2 p1 p2 :
  planned C M1 Q1 p1 → planned C M2 Q2 p2 →
  (∀ t, Q1 t → M2 t → Q2 t) → (∀ t, Q2 t → M1 t → Q1 t) →
  planned C (λ t, M1 t ∨ M2 t) (λ t, Q1 t ∨ Q2 t) (p1.1 ++ p2.1, p1.2 ++ p2.2).
Proof.
  intros (Hw1 & Hd1 & Hq1) (Hw2 & Hd2 & Hq2) H12 H21. split; [|split]; simpl; intros t.
  - rewrite elem_of_app, Hw1, Hw2. tauto.
  - specialize (H12 t). specialize (H21 t). rewrite elem_of_app, Hd1, Hd2. tauto.
  - destruct (Hq1 t), (Hq2 t); tauto.
Qed.

(** Writes only. *)
Lemma planned_writes C Q l :
  (∀ t, Q t ∨ ¬ Q t) → (∀ t, t ∈ l ↔ Q t ∧ t ∉ C) → planned C (λ _, False) Q (l, []).
Proof. intros Hq Hl. split; [exact Hl|]. split; [|exact Hq]. intros t. simpl. rewrite elem_of_nil. tauto. Qed.

Lemma planned_writes_union C Q1 M2 Q2 l p :
  planned C (λ _, False) Q1 (l, []) → planned C M2 Q2 p → (∀ t, Q1 t → ¬ M2 t) →
  planned C M2 (λ t, Q1 t ∨ Q2 t) (l ++ p.1, p.2).
Proof.
  intros H1 H2 Hno. eapply planned_proper; [| |eapply (planned_union _ _ _ _ _ _ _ H1 H2)]; simpl; try tauto.
  intros t ? ?. by destruct (Hno t).
Qed.

Section Commit.
Context {W} `{Hl : RightsStoreLaws W}.

Lemma commit_writes what (s : W) writes deletes :
  ¬ (writes = [] ∧ deletes = []) →
  commit what s (Ok (writes, deletes))
  = let '(s', r) := rs_write s (sort_by key writes) (sort_by key deletes) in (s', wrap what [] r).
Proof. destruct writes, deletes; naive_solver. Qed.

Lemma commit_settled what (s s' : W) plan u M Q :
  (∀ p, plan = Ok p → planned (rs_contents s) M Q p) →
  commit what s plan = (s', Ok u) → settled (rs_contents s) M Q (rs_contents s').
Proof.
  intros Hplan Hrun. destruct plan as [[writes deletes]|]; [|done].
  destruct (Hplan _ eq_refl) as (Hw & Hd & Hm). simpl in Hw, Hd.
  assert (∀ t, t ∈ rs_contents s' ↔ (t ∈ rs_contents s ∧ t ∉ deletes) ∨ t ∈ writes) as HC.
  { destruct (decide (writes = [] ∧ deletes = [])) as [[-> ->]|Hne].
    { simplify_eq/=. intros t. rewrite elem_of_nil. tauto. }
    rewrite commit_writes in Hrun by done.
    destruct (rs_write s (sort_by key writes) (sort_by key deletes)) as [s1 [u1|]] eqn:Hwr; [|done].
    apply rs_write_ok in Hwr. simplify_eq/=. intros t. rewrite Hwr.
    by rewrite elem_of_union, elem_of_difference, !elem_of_list_to_set, !elem_of_sort_by. }
  intros t. rewrite HC, Hw, Hd.
  destruct (Hm t), (decide (t ∈ rs_contents s)); tauto.
Qed.

(** A run that fails changed nothing, removed a part of the deletes, or removed
    all of them and wrote a part of the writes. *)
Lemma commit_cut what (s s' : W) plan e :
  commit what s plan = (s', Err e) →
  rs_contents s' = rs_contents s
  ∨ ∃ p, plan = Ok p ∧
    ((∃ done, done `prefix_of` sort_by key p.2 ∧ rs_contents s' = rs_contents s ∖ list_to_set done)
     ∨ ∃ done, done ⊆ p.1 ∧ rs_contents s' = (rs_contents s ∖ list_to_set p.2) ∪ list_to_set done).
Proof.
  intros Hrun. destruct plan as [[writes deletes]|]; [|by left; simplify_eq/=].
  destruct (decide (writes = [] ∧ deletes = [])) as [[-> ->]|Hne]; [done|].
  rewrite commit_writes in Hrun by done.
  destruct (rs_write s (sort_by key writes) (sort_by key deletes)) as [s1 [u1|]] eqn:Hwr; [done|].
  simplify_eq/=. right. eexists. split; [done|]. simpl.
  apply rs_write_err in Hwr as [Hwr|(dn & Hpre & HC)]; [by left|right]. exists dn. split.
  - intros t Ht. apply (elem_of_sort_by key). destruct Hpre as [rest ->]. set_solver.
  - rewrite HC. apply set_eq. intros t.
    by rewrite !elem_of_union, !elem_of_difference, !elem_of_list_to_set, elem_of_sort_by.
Qed.

(** However a run ends, a tuple it does not delete stays and one it does not
    write does not appear. *)
Lemma commit_keeps what (s : W) plan t :
  (∀ p, plan = Ok p → t ∉ p.2) → t ∈ rs_contents s → t ∈ rs_contents (commit what s plan).1.
Proof.
  intros Hno Ht. destruct (commit what s plan) as [s' [u|e]] eqn:Hrun; simpl.
  - destruct plan as [[writes deletes]|]; [|done].
    destruct (decide (writes = [] ∧ deletes = [])) as [[-> ->]|Hne]; [by simplify_eq/=|].
    rewrite commit_writes in Hrun by done. specialize (Hno _ eq_refl). simpl in Hno.
    destruct (rs_write _ _ _) as [s1 [u1|]] eqn:Hwr; [|done]. apply rs_write_ok in Hwr. simplify_eq/=.
    rewrite Hwr, elem_of_union, elem_of_difference, !elem_of_list_to_set, !elem_of_sort_by. tauto.
  - apply commit_cut in Hrun as [->|(p & -> & [(dn & [rest Hpre] & ->)|(dn & _ & ->)])]; [done|..].
    + apply elem_of_difference. split; [done|]. rewrite elem_of_list_to_set. intros Hin.
      apply (Hno _ eq_refl), (elem_of_sort_by key). rewrite Hpre. set_solver.
    + apply elem_of_union. left. apply elem_of_difference. split; [done|].
      rewrite elem_of_list_to_set. by apply Hno.
Qed.

Lemma commit_adds what (s : W) plan t :
  (∀ p, plan = Ok p → t ∉ p.1) → t ∉ rs_contents s → t ∉ rs_contents (commit what s plan).1.
Proof.
  intros Hno Ht. destruct (commit what s plan) as [s' [u|e]] eqn:Hrun; simpl.
  - destruct plan as [[writes deletes]|]; [|done].
    destruct (decide (writes = [] ∧ deletes = [])) as [[-> ->]|Hne]; [by simplify_eq/=|].
    rewrite commit_writes in Hrun by done. specialize (Hno _ eq_refl). simpl in Hno.
    destruct (rs_write _ _ _) as [s1 [u1|]] eqn:Hwr; [|done]. apply rs_write_ok in Hwr. simplify_eq/=.
    rewrite Hwr, elem_of_union, elem_of_difference, !elem_of_list_to_set, !elem_of_sort_by. tauto.
  - apply commit_cut in Hrun as [->|(p & -> & [(dn & _ & ->)|(dn & Hsub & ->)])]; [done|..].
    + rewrite elem_of_difference. tauto.
    + rewrite elem_of_union, elem_of_difference, !elem_of_list_to_set. intros [?|Hin]; [tauto|].
      by apply (Hno _ eq_refl), Hsub.
Qed.

(** A plan with nothing to add and nothing to remove writes nothing. *)
Lemma commit_idle what (s : W) p M Q :
  planned (rs_contents s) M Q p →
  (∀ t, Q t → t ∈ rs_contents s) → (∀ t, t ∈ rs_contents s → M t → Q t) →
  commit what s (Ok p) = (s, Ok tt).
Proof.
  intros (Hw & Hd & _) HQ HM. destruct p as [[|t l] [|t' l']]; simpl in *; [done|..]; exfalso.
  - destruct (proj1 (Hd t') ltac:(set_solver)) as (HC & HMt & HnQ). by apply HnQ, HM.
  - destruct (proj1 (Hw t) ltac:(set_solver)) as (HQt & HnC). by apply HnC, HQ.
  - destruct (proj1 (Hw t) ltac:(set_solver)) as (HQt & HnC). by apply HnC, HQ.
Qed.
End Commit.
