(* ===== verification/RightsApps.v ===== *)
(** * Installed apps in the rights store

    That [ReconcileApps] (Rights.v) makes the store hold exactly the installed
    apps of the tenants it is given, and touches nothing else. *)

From S2P Require Import Prelude.
From S2P Require Import GoStrings.
From S2P Require Import Ids.
From S2P Require Import Fga.
From S2P Require Import Rights.

(** ** What a tenant's apps are to be in the store *)

(** An app's object, attached to its tenant and entitled by the groups named. *)
Definition app_tuple (tenant profile : string) (by_ : list string) (t : tuple) : Prop :=
  t = Tuple (Tenant tenant) "tenant" (App tenant profile)
  ∨ ∃ b, b ∈ by_ ∧ ∃ g, appGroup tenant b = Ok g
      ∧ t = Tuple (g +:+ "#member") "entitled" (App tenant profile).

(** A base is entitled by its own group, or by its addons' when it has any; an
    addon is an app of its own. *)
Definition base_groups (app : InstalledApp) : list string :=
  match addons_of app with [] => [ia_profile app] | _ => addons_of app end.
Definition wanted_app (tenant : string) (app : InstalledApp) (t : tuple) : Prop :=
  ia_profile app ≠ "" ∧
  (app_tuple tenant (ia_profile app) (base_groups app) t
   ∨ ∃ a, a ∈ addons_of app ∧ app_tuple tenant a [a] t).
Definition wanted (tenant : string) (apps : list InstalledApp) (t : tuple) : Prop :=
  ∃ app, app ∈ apps ∧ wanted_app tenant app t.

(** Tenant and profile names without the separators of keys and objects; a
    profile's and a tenant's name are DNS labels. *)
Definition names_ok (tenant : string) (apps : list InstalledApp) : Prop :=
  dns_label tenant = true ∧
  ∀ app p, app ∈ apps → (p = ia_profile app ∨ p ∈ ia_addons app) → bar_free p.

Lemma bar_free_tenant tenant : bar_free tenant → bar_free (Tenant tenant).
Proof. intros. unfold Tenant. auto with go_clean. Qed.
Lemma bar_free_App tenant p : bar_free tenant → bar_free p → bar_free (App tenant p).
Proof. intros. unfold App. auto 6 with go_clean. Qed.
Lemma bar_free_appGroup tenant p g :
  bar_free tenant → bar_free p → appGroup tenant p = Ok g → bar_free (g +:+ "#member").
Proof.
  intros Ht Hp (id & Hid & ->)%Group_Ok.
  assert (bar_free id).
  { eapply bar_free_encode; [|exact Hid]. unfold TenantAppGroup, tenantPrefix. auto 10 with go_clean. }
  auto with go_clean.
Qed.
#[export] Hint Resolve bar_free_tenant bar_free_App : go_clean.

Lemma app_tuple_clean tenant p by_ t :
  bar_free tenant → bar_free p → (∀ b, b ∈ by_ → bar_free b) → app_tuple tenant p by_ t → clean t.
Proof.
  intros Ht Hp Hby [->|(b & Hb & g & Hg & ->)]; repeat split; simpl; auto with go_clean.
  eapply bar_free_appGroup; [..|exact Hg]; auto.
Qed.

Lemma app_tuple_object tenant p by_ t : app_tuple tenant p by_ t → t_object t = App tenant p.
Proof. by intros [->|(b & _ & g & _ & ->)]. Qed.

Lemma app_tuple_snoc tenant p by_ b t :
  app_tuple tenant p (by_ ++ [b]) t ↔
  app_tuple tenant p by_ t
  ∨ ∃ g, appGroup tenant b = Ok g ∧ t = Tuple (g +:+ "#member") "entitled" (App tenant p).
Proof. unfold app_tuple. rewrite exists_elem_snoc. tauto. Qed.

Lemma add_app_spec tenant want P p by_ want' :
  bar_free tenant → bar_free p → (∀ b, b ∈ by_ → bar_free b) →
  keyed want P → add_app tenant want p by_ = Ok want' →
  keyed want' (λ t, P t ∨ app_tuple tenant p by_ t).
Proof.
  intros Ht Hp Hby HP Hrun. unfold add_app in Hrun.
  refine (fold_result_invariant _ (λ seen m, keyed m (λ t, P t ∨ app_tuple tenant p seen t))
    _ _ _ Hrun _ _).
  - eapply keyed_proper; [|eapply keyed_insert; [|exact HP]].
    + intros t. unfold app_tuple. rewrite exists_elem_nil. tauto.
    + repeat split; simpl; auto with go_clean.
  - intros seen b x x' [rest Hpre] Hx Hstep.
    assert (bar_free b) by (apply Hby; rewrite Hpre; set_solver).
    destruct (appGroup tenant b) as [g|] eqn:Hg; [|done]. simpl in Hstep. simplify_eq.
    eapply keyed_proper; [|eapply keyed_insert; [|exact Hx]].
    + intros t. rewrite app_tuple_snoc, Hg. naive_solver.
    + repeat split; simpl; auto with go_clean. by eapply bar_free_appGroup; [..|exact Hg].
Qed.

Lemma addons_of_spec app a : a ∈ addons_of app → a ∈ ia_addons app.
Proof. unfold addons_of. by intros [_ ?]%list_elem_of_filter. Qed.

Lemma base_groups_spec app b : b ∈ base_groups app → b = ia_profile app ∨ b ∈ ia_addons app.
Proof.
  unfold base_groups. destruct (addons_of app) as [|a l] eqn:Ha; [set_solver|].
  intros Hb. right. apply addons_of_spec. by rewrite Ha.
Qed.

Lemma app_step_spec tenant want P app want' :
  bar_free tenant → (∀ p, p = ia_profile app ∨ p ∈ ia_addons app → bar_free p) →
  keyed want P → app_step tenant want app = Ok want' →
  keyed want' (λ t, P t ∨ wanted_app tenant app t).
Proof.
  intros Ht Hn HP Hstep. unfold app_step in Hstep. case_bool_decide as Hp.
  { simplify_eq. eapply keyed_proper; [|exact HP]. unfold wanted_app. naive_solver. }
  cbv zeta in Hstep. fold (base_groups app) in Hstep.
  destruct (add_app tenant want (ia_profile app) (base_groups app)) as [x1|] eqn:H1; [|done].
  simpl in Hstep. eapply add_app_spec in H1; [|done|by apply Hn; left|intros b Hb; apply Hn, base_groups_spec, Hb|exact HP].
  eapply keyed_proper.
  2: { refine (fold_result_invariant _ (λ l m, keyed m (λ t,
        (P t ∨ app_tuple tenant (ia_profile app) (base_groups app) t)
        ∨ ∃ a, a ∈ l ∧ app_tuple tenant a [a] t)) _ _ _ Hstep _ _).
    - eapply keyed_proper; [|exact H1]. intros t. rewrite exists_elem_nil. tauto.
    - intros l a m m' [rest' Hpre'] Hm Hadd.
      assert (bar_free a) as Hab.
      { apply Hn. right. apply addons_of_spec. rewrite Hpre'. set_solver. }
      eapply add_app_spec in Hadd; [|done|done|set_solver|exact Hm].
      eapply keyed_proper; [|exact Hadd]. intros t. rewrite exists_elem_snoc. tauto. }
  intros t. unfold wanted_app. tauto.
Qed.

Lemma appTuples_spec tenant apps want :
  names_ok tenant apps → appTuples tenant apps = Ok want → keyed want (wanted tenant apps).
Proof.
  intros [Ht Hn] Hrun. apply bar_free_dns in Ht.
  refine (fold_result_invariant _ (λ seen m, keyed m (wanted tenant seen)) _ _ _ Hrun _ _).
  - eapply keyed_proper; [|apply keyed_empty]. intros t. unfold wanted. by rewrite exists_elem_nil.
  - intros seen app x x' [rest Hpre] Hx Hstep. eapply app_step_spec in Hstep; [|done| |exact Hx].
    + eapply keyed_proper; [|exact Hstep]. intros t. unfold wanted. by rewrite exists_elem_snoc.
    + intros p. apply Hn. rewrite Hpre. set_solver.
Qed.

(** ** The objects of a tenant *)

Definition apps_of (tenant : string) : string := "app:" +:+ tenant +:+ "/".

Lemma App_prefix tenant p : has_prefix (App tenant p) (apps_of tenant) = true.
Proof.
  apply has_prefix_spec. exists p. unfold App, apps_of. by rewrite <-!app_assoc_str.
Qed.

Lemma wanted_object tenant apps t :
  wanted tenant apps t → app_relation (t_relation t) = true ∧ has_prefix (t_object t) (apps_of tenant) = true.
Proof.
  intros (app & _ & _ & Ht). split.
  - destruct Ht as [[->|(b & _ & g & _ & ->)]|(a & _ & [->|(b & _ & g & _ & ->)])]; done.
  - destruct Ht as [Ht|(a & _ & Ht)]; apply app_tuple_object in Ht as ->; apply App_prefix.
Qed.

(** No object is two tenants'. *)
Lemma apps_of_inj tenant tenant' o :
  dns_label tenant = true → dns_label tenant' = true →
  has_prefix o (apps_of tenant) = true → has_prefix o (apps_of tenant') = true → tenant = tenant'.
Proof.
  intros Ht Ht' (r & ->)%has_prefix_spec (r' & Ho)%has_prefix_spec. unfold apps_of in Ho.
  rewrite !app_assoc_str in Ho. apply app_inj_str in Ho.
  by apply (app_sep_inj _ _ _ _ "/") in Ho as [-> _]; [|by apply dns_label_contains..].
Qed.

Lemma apps_of_not_type_only tenant r : is_type_only (apps_of tenant +:+ r) = false.
Proof.
  unfold apps_of, is_type_only. rewrite !app_assoc_str.
  change ("app:" +:+ ?x) with ("app" +:+ String ":" x). rewrite (cut_app "app" _ ":") by done.
  by destruct tenant.
Qed.

Lemma matches_object tenant o t :
  has_prefix o (apps_of tenant) = true → matches (Tuple "" "" o) t = true ↔ t_object t = o.
Proof.
  intros (r & ->)%has_prefix_spec. unfold matches. cbn [t_user t_relation t_object].
  rewrite apps_of_not_type_only. unfold field_matches.
  rewrite andb_false_l, orb_false_r, andb_true_iff, orb_true_iff, !bool_decide_eq_true.
  split; [intros [_ [?|<-]]; done|intros ->; split; [done|by right]].
Qed.

Lemma matches_attached tenant t :
  matches (Tuple (Tenant tenant) "tenant" "app:") t = true
  ↔ t_user t = Tenant tenant ∧ t_relation t = "tenant" ∧ has_prefix (t_object t) "app:" = true.
Proof.
  unfold matches. simpl. change (is_type_only "app:") with true.
  unfold field_matches. rewrite !andb_true_iff, !orb_true_iff, !bool_decide_eq_true.
  split.
  - by intros [[[?|<-] [?|<-]] [[?|<-]|?]].
  - intros (-> & -> & ->). tauto.
Qed.

(** ** One tenant's plan *)

Section Apps.
Context {W} `{Hl : RightsStoreLaws W}.

(** An object the projection is responsible for: attached to the tenant in the
    store and named as one of its apps, or one of the apps it is to have. *)
Definition app_object (C : gset tuple) (tenant : string) (apps : list InstalledApp) (o : string) : Prop :=
  (Tuple (Tenant tenant) "tenant" o ∈ C ∧ has_prefix o (apps_of tenant) = true)
  ∨ ∃ t, wanted tenant apps t ∧ t_object t = o.

Definition app_managed (C : gset tuple) (tenant : string) (apps : list InstalledApp) (t : tuple) : Prop :=
  app_relation (t_relation t) = true ∧ app_object C tenant apps (t_object t).

Lemma app_object_prefix C tenant apps o :
  app_object C tenant apps o → has_prefix o (apps_of tenant) = true.
Proof. intros [[_ ?]|(t & Ht & <-)]; [done|]. by apply wanted_object in Ht as [_ ?]. Qed.

Lemma wanted_managed C tenant apps t : wanted tenant apps t → app_managed C tenant apps t.
Proof. intros Ht. split; [by apply wanted_object in Ht as [? _]|]. right. by exists t. Qed.

Lemma apps_of_prefix o tenant : has_prefix o (apps_of tenant) = true → has_prefix o "app:" = true.
Proof.
  intros (r & ->)%has_prefix_spec. apply has_prefix_spec. exists (tenant +:+ "/" +:+ r).
  unfold apps_of. by rewrite !app_assoc_str.
Qed.

Lemma elem_of_attached (s : W) tenant attached o :
  rs_read s (Tuple (Tenant tenant) "tenant" "app:") = Ok attached →
  o ∈ filter (λ o, has_prefix o (apps_of tenant) = true) (t_object <$> attached)
  ↔ Tuple (Tenant tenant) "tenant" o ∈ rs_contents s ∧ has_prefix o (apps_of tenant) = true.
Proof.
  intros [_ Ha]%rs_read_ok. setoid_rewrite matches_attached in Ha.
  rewrite list_elem_of_filter, list_elem_of_fmap. split.
  - intros (Hp & t & -> & Ht). apply Ha in Ht as (HC & Hu & Hr & _). destruct t. by simplify_eq/=.
  - intros [HC Hp]. split; [done|]. eexists. split; [|apply Ha; split; [exact HC|]]; [done|].
    repeat split. by eapply apps_of_prefix.
Qed.
Lemma plan_tenant_apps_spec (s : W) tenant apps p :
  names_ok tenant apps → plan_tenant_apps s tenant apps = Ok p →
  planned (rs_contents s) (app_managed (rs_contents s) tenant apps) (wanted tenant apps) p.
Proof.
  intros Hn Hrun. unfold plan_tenant_apps in Hrun.
  destruct (appTuples tenant apps) as [want|] eqn:Hw; [|done]. simpl in Hrun.
  apply appTuples_spec in Hw; [|done].
  destruct (rs_read s _) as [attached|] eqn:Ha; [|done]. simpl in Hrun.
  set (objects := list_to_set _ ∪ list_to_set _ : gset string) in Hrun.
  assert (∀ o, o ∈ elements objects ↔ app_object (rs_contents s) tenant apps o) as Ho.
  { intros o. unfold objects, app_object. fold (apps_of tenant).
    rewrite elem_of_elements, elem_of_union, !elem_of_list_to_set, (elem_of_attached _ _ _ _ Ha), list_elem_of_fmap.
    setoid_rewrite (keyed_values _ _ _ Hw). naive_solver. }
  destruct (fold_result _ _ _) as [[want' deletes]|] eqn:Hf; [|done]. simpl in Hrun. simplify_eq.
  eapply (settle_reads _ (rs_contents s) (λ o t, t_object t = o ∧ app_relation (t_relation t) = true))
    in Hf as [Hw' Hd]; [| |naive_solver|apply NoDup_elements|exact Hw].
  2: { intros x o x' Hin Hx. apply Ho, app_object_prefix in Hin.
    apply bind_Ok in Hx as (have & [Hnd Hr]%wrap_Ok%rs_read_ok & [= <-]). eexists. split; [done|]. split; [by apply NoDup_filter|].
    intros t. rewrite list_elem_of_filter, Hr, matches_object by done. tauto. }
  assert (∀ t, (∃ a, a ∈ elements objects ∧ t_object t = a ∧ app_relation (t_relation t) = true)
    ↔ app_managed (rs_contents s) tenant apps t) as HM.
  { intros t. unfold app_managed. setoid_rewrite Ho. naive_solver. }
  split; [|split]; simpl.
  - intros t. rewrite (keyed_values _ _ _ Hw'), HM.
    pose proof (wanted_managed (rs_contents s) tenant apps t). tauto.
  - intros t. rewrite Hd, HM. tauto.
  - intros t. by apply (keyed_dec want).
Qed.

(** ** All tenants *)

Definition installed_ok (installed : gmap string (list InstalledApp)) : Prop :=
  ∀ tenant apps, installed !! tenant = Some apps → names_ok tenant apps.
Definition apps_wanted (installed : gmap string (list InstalledApp)) (t : tuple) : Prop :=
  ∃ tenant apps, installed !! tenant = Some apps ∧ wanted tenant apps t.
Definition apps_managed (C : gset tuple) (installed : gmap string (list InstalledApp)) (t : tuple) : Prop :=
  ∃ tenant apps, installed !! tenant = Some apps ∧ app_managed C tenant apps t.

Lemma installed_tenants (installed : gmap string (list InstalledApp)) (P : string → list InstalledApp → Prop) :
  (∃ tenant, tenant ∈ sort_strings (map_to_list installed).*1 ∧ P tenant (default [] (installed !! tenant)))
  ↔ ∃ tenant apps, installed !! tenant = Some apps ∧ P tenant apps.
Proof.
  setoid_rewrite elem_of_sort_strings. setoid_rewrite list_elem_of_fmap. split.
  - intros (tenant & ([k v] & -> & Hin%elem_of_map_to_list) & HP). simpl in HP. rewrite Hin in HP. by exists k, v.
  - intros (tenant & apps & Ha & HP). exists tenant. rewrite Ha. split; [|done].
    exists (tenant, apps). by rewrite elem_of_map_to_list.
Qed.

Lemma wanted_separate C installed a aapps b bapps t :
  installed_ok installed → installed !! a = Some aapps → installed !! b = Some bapps →
  wanted a aapps t → app_object C b bapps (t_object t) → a = b.
Proof.
  intros Hok Ha Hb Hw Ho%app_object_prefix. apply wanted_object in Hw as [_ Hw].
  eapply apps_of_inj; [by eapply Hok..|exact Hw|exact Ho].
Qed.

Definition apps_plan (s : W) (installed : gmap string (list InstalledApp)) : result (list tuple * list tuple) :=
  gather (λ tenant, plan_tenant_apps s tenant (default [] (installed !! tenant)))
    (sort_strings (map_to_list installed).*1).

Lemma elem_of_installed (installed : gmap string (list InstalledApp)) tenant :
  tenant ∈ sort_strings (map_to_list installed).*1 → is_Some (installed !! tenant).
Proof.
  rewrite elem_of_sort_strings, list_elem_of_fmap. intros ([k v] & -> & Hin%elem_of_map_to_list). by exists v.
Qed.

Lemma apps_planned (s : W) installed p :
  installed_ok installed → apps_plan s installed = Ok p →
  planned (rs_contents s) (apps_managed (rs_contents s) installed) (apps_wanted installed) p.
Proof.
  intros Hok Hrun. eapply planned_proper.
  3: eapply (gather_planned _ _ (λ a, app_managed (rs_contents s) a (default [] (installed !! a)))
       (λ a, wanted a (default [] (installed !! a)))); [..|exact Hrun].
  - intros t. apply (installed_tenants installed (λ a apps, app_managed (rs_contents s) a apps t)).
  - intros t. apply (installed_tenants installed (λ a apps, wanted a apps t)).
  - intros tenant p' [apps Ha]%elem_of_installed. rewrite Ha. apply plan_tenant_apps_spec, Hok, Ha.
  - intros a b t [aapps Ha]%elem_of_installed [bapps Hb]%elem_of_installed. rewrite Ha, Hb.
    intros Hw [_ Hm]. assert (a = b) as -> by by eapply wanted_separate. by simplify_eq.
Qed.

Lemma ReconcileApps_settled (s s' : W) installed u :
  installed_ok installed → ReconcileApps s installed = (s', Ok u) →
  settled (rs_contents s) (apps_managed (rs_contents s) installed) (apps_wanted installed) (rs_contents s').
Proof.
  intros Hok Hrun. eapply commit_settled; [|exact Hrun]. intros p Hp. by apply apps_planned.
Qed.

(** A store that holds no more than another and what is wanted manages no more. *)
Lemma managed_mono C C' installed t :
  installed_ok installed → (∀ a, a ∈ C' → a ∈ C ∨ apps_wanted installed a) →
  apps_managed C' installed t → apps_managed C installed t.
Proof.
  intros Hok Hsub (tenant & apps & Hin & Hrel & Hobj).
  exists tenant, apps. split; [done|]. split; [done|]. destruct Hobj as [[Ha Hp]|Hw]; [|by right].
  apply Hsub in Ha as [Ha|(b & bapps & Hb & Hw)]; [by left|].
  right. exists (Tuple (Tenant tenant) "tenant" (t_object t)). split; [|done].
  assert (b = tenant) as ->; [|by simplify_eq].
  apply wanted_object in Hw as [_ Hw]. eapply apps_of_inj; [by eapply Hok..|exact Hw|exact Hp].
Qed.

(** ** A run that is cut off *)

(** What the model's type restrictions let an app's object hold: it is entitled
    to groups, and attached to the tenant it is named after. *)
Definition app_typed (C : gset tuple) : Prop :=
  ∀ t tenant, t ∈ C → dns_label tenant = true → has_prefix (t_object t) (apps_of tenant) = true →
    (t_relation t = "entitled" → has_prefix (t_user t) "group:" = true)
    ∧ (t_relation t = "tenant" → t_user t = Tenant tenant).

(** Sorted by key, a group's entry comes before a tenant's. *)
Lemma group_before_tenant g tenant :
  has_prefix (t_user g) "group:" = true → ¬ key_le key (Tuple (Tenant tenant) "tenant" (t_object g)) g.
Proof.
  intros (r & Hr)%has_prefix_spec. unfold key_le, key. rewrite Hr. unfold Tenant. simpl.
  by vm_compute.
Qed.

(** So a stale object's attachment goes last: while an entry of it is left, the
    attachment is, and the next run finds the object. *)
Lemma managed_after_cut C C' done_ p installed t :
  installed_ok installed → app_typed C →
  planned C (apps_managed C installed) (apps_wanted installed) p →
  done_ `prefix_of` sort_by key p.2 → C' = C ∖ list_to_set done_ →
  t ∈ C' → apps_managed C installed t → apps_wanted installed t ∨ apps_managed C' installed t.
Proof.
  intros Hok Htyped (_ & Hd & Hdec) [rest Hpre] -> Ht (tenant & apps & Hin & Hrel & Hobj).
  destruct (Hdec t) as [?|Hno]; [by left|]. right. exists tenant, apps. split; [done|]. split; [done|].
  destruct Hobj as [[Ha Hp]|Hw]; [|by right]. left. split; [|done].
  set (a := Tuple (Tenant tenant) "tenant" (t_object t)) in *.
  apply elem_of_difference in Ht as [Ht Hnd]. apply elem_of_difference. split; [done|].
  rewrite elem_of_list_to_set in Hnd |- *. intros Had.
  assert (t ∈ rest) as Hrest.
  { assert (t ∈ sort_by key p.2) as Hs.
    { apply elem_of_sort_by, Hd. split; [done|]. split; [|done]. exists tenant, apps.
      split; [done|]. split; [done|]. by left. }
    rewrite Hpre in Hs. set_solver. }
  pose proof (sort_by_sorted key p.2) as Hsorted. rewrite Hpre in Hsorted.
  eapply StronglySorted_app_1_elem_of in Hsorted; [|exact Had|exact Hrest].
  destruct (Htyped t tenant Ht) as [He Hten]; [by eapply Hok|done|].
  unfold app_relation in Hrel. apply bool_decide_eq_true in Hrel.
  apply elem_of_cons in Hrel as [Hrel|Hrel%list_elem_of_singleton].
  - apply Hnd. replace t with a; [done|]. unfold a. rewrite <-(Hten Hrel), <-Hrel. by destruct t.
  - by apply group_before_tenant in Hsorted; [|apply He].
Qed.

(** What a cut-off run leaves for the next one. *)
Lemma ReconcileApps_cut (s s1 : W) installed e :
  installed_ok installed → app_typed (rs_contents s) → ReconcileApps s installed = (s1, Err e) →
  let C := rs_contents s in let C1 := rs_contents s1 in
  (∀ t, t ∈ C1 → t ∈ C ∨ apps_wanted installed t)
  ∧ (∀ t, t ∈ C → ¬ apps_managed C installed t → t ∈ C1)
  ∧ (∀ t, t ∈ C1 → apps_managed C installed t → apps_wanted installed t ∨ apps_managed C1 installed t).
Proof.
  intros Hok Htyped [->|(p & Hp & Hcut)]%commit_cut; simpl; [naive_solver|].
  apply apps_planned in Hp; [|done]. pose proof Hp as (Hw & Hd & Hdec).
  destruct Hcut as [(dn & Hpre & HC)|(dn & Hsub & HC)].
  - split; [rewrite HC; set_solver|]. split; [|intros t Ht; by eapply managed_after_cut].
    intros t Ht Hm. rewrite HC. apply elem_of_difference. split; [done|].
    rewrite elem_of_list_to_set. intros Hin. apply Hm. destruct Hpre as [rest Hpre].
    apply Hd, (elem_of_sort_by key). rewrite Hpre. set_solver.
  - rewrite HC. split; [|split]; intros t; rewrite elem_of_union, elem_of_difference, !elem_of_list_to_set, Hd.
    + intros [[? _]|Hin%Hsub%Hw]; [by left|right; apply Hin].
    + tauto.
    + intros [[? Hn]|Hin%Hsub%Hw] Hm; left; [|apply Hin]. destruct (Hdec t); tauto.
Qed.
End Apps.

(** One tenant with an app and an app with an addon, in a store that holds an app
    it no longer has, another tenant's app, and a cluster's role. *)
Module AppsExample.
Definition installed : gmap string (list InstalledApp) :=
  {["acme" := [mkInstalledApp "crm" []; mkInstalledApp "mail" ["spam"]]]}.
Definition stored : gset tuple :=
  list_to_set [Tuple "tenant:acme" "tenant" "app:acme/old";
    Tuple "group:gentian/tenant/acme/app/old#member" "entitled" "app:acme/old";
    Tuple "tenant:beta" "tenant" "app:beta/crm";
    Tuple "group:gentian/admins#member" "admin" "cluster:main"].

Lemma installed_names_ok : installed_ok installed.
Proof.
  intros tenant apps Hin. unfold installed in Hin. apply lookup_singleton_Some in Hin as [<- <-]. split; [done|].
  intros app p Happ Hp. rewrite !elem_of_cons, elem_of_nil in Happ.
  destruct Happ as [->|[->|[]]]; simpl in Hp; rewrite ?elem_of_cons, elem_of_nil in Hp;
    naive_solver.
Qed.

Lemma stored_typed : app_typed stored.
Proof.
  intros t tenant Ht Hd Hp. unfold stored in Ht. rewrite elem_of_list_to_set in Ht.
  rewrite !elem_of_cons, elem_of_nil in Ht. 
  destruct Ht as [->|[->|[->|[->|[]]]]]; simpl in *; split; intros; try done.
  - by rewrite (apps_of_inj _ "acme" _ Hd eq_refl Hp eq_refl).
  - by rewrite (apps_of_inj _ "beta" _ Hd eq_refl Hp eq_refl).
Qed.
End AppsExample.

(** ** Properties *)

(** C2: After a run that succeeds the store holds, of the apps of the tenants
    given, exactly what is installed: the wanted tuples, and everything it held
    that is not an entry of one of their apps.  A tenant that is not given keeps
    every tuple. *)
Theorem ReconcileApps_exact {W} `{Hl : RightsStoreLaws W} (s s' : W)
    (installed : gmap string (list InstalledApp)) (u : unit) :
  installed_ok installed → ReconcileApps s installed = (s', Ok u) →
  ∀ t, t ∈ rs_contents s' ↔
    apps_wanted installed t ∨ (t ∈ rs_contents s ∧ ¬ apps_managed (rs_contents s) installed t).
Proof. intros Hok Hrun. by eapply ReconcileApps_settled. Qed.

Lemma ReconcileApps_exact_witness :
  let s := MemServer AppsExample.stored 10 in
  let s' := (ReconcileApps s AppsExample.installed).1 in
  size (rs_contents s') = 8
  ∧ ∀ t, t ∈ rs_contents s' ↔ apps_wanted AppsExample.installed t
      ∨ (t ∈ rs_contents s ∧ ¬ apps_managed (rs_contents s) AppsExample.installed t).
Proof.
  split; [vm_compute; reflexivity|].
  apply (ReconcileApps_exact _ _ _ tt); [apply AppsExample.installed_names_ok|].
  apply pair_snd. vm_compute. reflexivity.
Defined.

(** A second run changes nothing and makes no write: it leaves the very state
    the first run left, whether or not its reads succeed. *)
Theorem ReconcileApps_idempotent {W} `{Hl : RightsStoreLaws W} (s s' : W)
    (installed : gmap string (list InstalledApp)) (u : unit) :
  installed_ok installed → ReconcileApps s installed = (s', Ok u) →
  (ReconcileApps s' installed).1 = s'.
Proof.
  intros Hok Hrun%ReconcileApps_settled; [|done].
  unfold ReconcileApps. fold (apps_plan s' installed).
  destruct (apps_plan s' installed) as [p|] eqn:Hp; [|done].
  apply apps_planned in Hp; [|done]. erewrite commit_idle; [done|exact Hp|..].
  - intros t Ht. apply Hrun. by left.
  - intros t Ht Hm. apply Hrun in Ht as [?|[_ Hn]]; [done|]. exfalso. apply Hn.
    eapply managed_mono; [done| |exact Hm]. intros a Ha%Hrun. tauto.
Qed.

Lemma ReconcileApps_idempotent_witness :
  let s := MemServer AppsExample.stored 10 in
  let s' := (ReconcileApps s AppsExample.installed).1 in
  s' ≠ s ∧ (ReconcileApps s' AppsExample.installed).1 = s'.
Proof.
  split; [intros Heq%(f_equal ms_budget); vm_compute in Heq; discriminate|].
  apply (ReconcileApps_idempotent (MemServer AppsExample.stored 10) _ _ tt);
    [apply AppsExample.installed_names_ok|].
  apply pair_snd. vm_compute. reflexivity.
Defined.

(** A run that the store cuts off can be repeated.  Because the deletes are
    sorted by key, the attachment that leads to a removed app is the last of its
    entries to go, so the run that follows finds what is left and the store ends
    as if the first run had not failed. *)
Theorem ReconcileApps_retry {W} `{Hl : RightsStoreLaws W} (s s1 s2 : W)
    (installed : gmap string (list InstalledApp)) (e : error) (u : unit) :
  installed_ok installed → app_typed (rs_contents s) →
  ReconcileApps s installed = (s1, Err e) → ReconcileApps s1 installed = (s2, Ok u) →
  ∀ t, t ∈ rs_contents s2 ↔
    apps_wanted installed t ∨ (t ∈ rs_contents s ∧ ¬ apps_managed (rs_contents s) installed t).
Proof.
  intros Hok Htyped Hcut Hrun t.
  apply ReconcileApps_cut in Hcut as (Hsub & Hkeep & Hleft); [|done..].
  assert (apps_wanted installed t ∨ ¬ apps_wanted installed t) as Hdec.
  { destruct (apps_plan s1 installed) as [p|] eqn:Hp.
    - by apply apps_planned in Hp as (_ & _ & Hdec).
    - unfold ReconcileApps in Hrun. fold (apps_plan s1 installed) in Hrun. by rewrite Hp in Hrun. }
  apply ReconcileApps_settled in Hrun; [|done]. rewrite (Hrun t).
  pose proof (managed_mono _ _ installed t Hok Hsub). specialize (Hsub t). specialize (Hkeep t).
  specialize (Hleft t). tauto.
Qed.

Lemma ReconcileApps_retry_witness :
  let s := MemServer AppsExample.stored 1 in
  let s1 := (ReconcileApps s AppsExample.installed).1 in
  let s2 := (ReconcileApps s1 AppsExample.installed).1 in
  is_ok (ReconcileApps s AppsExample.installed).2 = false
  ∧ ∀ t, t ∈ rs_contents s2 ↔ apps_wanted AppsExample.installed t
      ∨ (t ∈ rs_contents s ∧ ¬ apps_managed (rs_contents s) AppsExample.installed t).
Proof.
  split; [vm_compute; reflexivity|].
  eapply (ReconcileApps_retry _ _ _ _ (Wrapf _ _ (Sentinel "unavailable")) tt);
    [apply AppsExample.installed_names_ok|apply AppsExample.stored_typed|apply pair_snd; vm_compute; reflexivity..].
Defined.
