(* ===== verification/RightsRoles.v ===== *)
(** * Roles in the rights store

    That [ReconcileClusterRoles] and [ReconcileTenants] (Rights.v) hold the
    cluster's roles and each tenant's standing entries and role holders to what
    the Cluster claim says, and leave a tenant's own consent alone. *)

From S2P Require Import Prelude.
From S2P Require Import GoStrings.
From S2P Require Import Ids.
From S2P Require Import Fga.
From S2P Require Import Rights.

(** A filter by relation and whole object reads that relation of that object. *)
Lemma matches_relation rel o t :
  rel ≠ "" → o ≠ "" → is_type_only o = false →
  matches (Tuple "" rel o) t = true ↔ t_relation t = rel ∧ t_object t = o.
Proof.
  intros Hr Ho Hto. unfold matches. cbn [t_user t_relation t_object]. rewrite Hto.
  unfold field_matches. rewrite andb_false_l, orb_false_r, !andb_true_iff, !orb_true_iff, !bool_decide_eq_true.
  naive_solver.
Qed.

Lemma matches_self t t' :
  t_user t ≠ "" → t_relation t ≠ "" → t_object t ≠ "" → is_type_only (t_object t) = false →
  matches t t' = true ↔ t = t'.
Proof.
  intros Hu Hr Ho Hto. unfold matches. rewrite Hto. unfold field_matches.
  rewrite andb_false_l, orb_false_r, !andb_true_iff, !orb_true_iff, !bool_decide_eq_true.
  destruct t, t'; simpl in *. naive_solver.
Qed.

Lemma typed_not_type_only kind name :
  contains_byte kind ":" = false → name ≠ "" → is_type_only (kind +:+ String ":" name) = false.
Proof. intros Hk Hn. unfold is_type_only. rewrite cut_app by done. by destruct name. Qed.

Lemma Cluster_not_type_only c : c ≠ "" → is_type_only (Cluster c) = false.
Proof. apply (typed_not_type_only "cluster"). done. Qed.
Lemma Tenant_not_type_only t : t ≠ "" → is_type_only (Tenant t) = false.
Proof. apply (typed_not_type_only "tenant"). done. Qed.

(** ** The cluster's roles *)

(** What the claim assigns: a group per role, and the holders of the cluster's scope. *)
Definition role_by_group (cluster : string) (roles : gmap string string) (t : tuple) : Prop :=
  ∃ rel, rel ∈ ClusterRoles ∧ ∃ group g, roles !! rel = Some group ∧ group ≠ ""
    ∧ Group group = Ok g ∧ t = Tuple (g +:+ "#member") rel (Cluster cluster).
Definition role_by_holder (cluster : string) (holders : list RoleHolder) (t : tuple) : Prop :=
  ∃ h, h ∈ holders ∧ rh_tenant h = "" ∧ ∃ u, HolderUser (rh_realm h) (rh_subject h) = Ok u
    ∧ t = Tuple u (rh_relation h) (Cluster cluster).
Definition cluster_wanted cluster roles holders (t : tuple) : Prop :=
  role_by_group cluster roles t ∨ role_by_holder cluster holders t.
Definition cluster_managed (cluster : string) (t : tuple) : Prop :=
  ∃ rel, rel ∈ ClusterRoles ∧ t_relation t = rel ∧ t_object t = Cluster cluster.

Definition claim_ok (cluster : string) (roles : gmap string string) (holders : list RoleHolder) : Prop :=
  dns_label cluster = true
  ∧ (∀ rel group, roles !! rel = Some group → bar_free group)
  ∧ (∀ h, h ∈ holders → bar_free (rh_subject h)).

Lemma bar_free_Group group g : bar_free group → Group group = Ok g → bar_free (g +:+ "#member").
Proof.
  intros Hb (id & Hid & ->)%Group_Ok. assert (bar_free id) by by eapply bar_free_encode.
  auto with go_clean.
Qed.
Lemma bar_free_HolderUser realm sub u : bar_free sub → HolderUser realm sub = Ok u → bar_free u.
Proof.
  intros Hb (Hr & id & Hid & ->)%HolderUser_Ok. assert (bar_free id) by by eapply bar_free_encode.
  assert (bar_free realm) by by apply holderRealm_contains. auto 10 with go_clean.
Qed.
Lemma ClusterRoles_clean rel : rel ∈ ClusterRoles → bar_free rel ∧ rel ≠ "".
Proof.
  intros Hin. unfold ClusterRoles in Hin. rewrite !elem_of_cons, elem_of_nil in Hin.
  by destruct_or! Hin; subst.
Qed.
Lemma holderRelation_cluster rel : holderRelation rel = true → rel ∈ ClusterRoles.
Proof.
  unfold holderRelation. rewrite bool_decide_eq_true. intros Hin.
  assert (forallb (λ r, bool_decide (r ∈ ClusterRoles)) (map_to_list HolderRoles).*2 = true) as Hall
    by (vm_compute; reflexivity).
  rewrite forallb_elem_of in Hall. by apply Hall, bool_decide_eq_true in Hin.
Qed.

(** The two loops of [want_cluster_roles]. *)
Definition role_of (cluster : string) (roles : gmap string string) (rel : string) (t : tuple) : Prop :=
  ∃ group g, roles !! rel = Some group ∧ group ≠ "" ∧ Group group = Ok g
    ∧ t = Tuple (g +:+ "#member") rel (Cluster cluster).

Lemma role_of_iff cluster roles rel t :
  role_of cluster roles rel t ↔
  match roles !! rel with
  | None => False
  | Some group => if bool_decide (group = "") then False else
      match Group group with
      | Err _ => False
      | Ok g => t = Tuple (g +:+ "#member") rel (Cluster cluster)
      end
  end.
Proof.
  unfold role_of. destruct (roles !! rel) as [group|]; [|split; [by intros (?&?&?&_)|done]].
  case_bool_decide as Hg; [split; [|done]; intros (?&?&?&?&_); congruence|].
  destruct (Group group) as [g|e] eqn:HG.
  - split; [intros (?&?&?&_&Hg'&->); congruence|]. intros ->. by exists group, g.
  - split; [|done]. intros (?&?&?&_&Hg'&_). congruence.
Qed.

Lemma groups_wanted cluster roles want :
  bar_free cluster → (∀ rel group, roles !! rel = Some group → bar_free group) →
  fold_result (λ want rel,
      match roles !! rel with
      | None => Ok want
      | Some group =>
          if bool_decide (group = "") then Ok want
          else
            obj ← wrap "role %s names group %q: %w" [rel; group] (Group group);
            let t := Tuple (obj +:+ "#member") rel (Cluster cluster) in
            Ok (<[key t := t]> want)
      end) ∅ ClusterRoles = Ok want →
  keyed want (role_by_group cluster roles).
Proof.
  intros Hc Hgs Hrun.
  refine (fold_result_invariant _ (λ seen m, keyed m (λ t, ∃ rel, rel ∈ seen ∧ role_of cluster roles rel t))
    _ _ _ Hrun _ _).
  { eapply keyed_proper; [|apply keyed_empty]. intros t. by rewrite exists_elem_nil. }
  intros seen rel x x' [rest Hpre] Hx Hstep. setoid_rewrite exists_elem_snoc.
  assert (rel ∈ ClusterRoles) as [Hrel _]%ClusterRoles_clean by (rewrite Hpre; set_solver).
  setoid_rewrite (role_of_iff _ _ rel). destruct (roles !! rel) as [group|] eqn:Hg.
  2: { simplify_eq. eapply keyed_proper; [|exact Hx]. tauto. }
  case_bool_decide as Hne.
  { simplify_eq. eapply keyed_proper; [|exact Hx]. tauto. }
  destruct (Group group) as [g|] eqn:HG; [|done]. simpl in Hstep. simplify_eq.
  eapply keyed_proper; [|eapply keyed_insert; [|exact Hx]]; [tauto|].
  repeat split; simpl; auto with go_clean. eapply bar_free_Group; [|exact HG]. by eapply Hgs.
Qed.

Definition holder_of (cluster : string) (h : RoleHolder) (t : tuple) : Prop :=
  rh_tenant h = "" ∧ ∃ u, HolderUser (rh_realm h) (rh_subject h) = Ok u
    ∧ t = Tuple u (rh_relation h) (Cluster cluster).

Lemma holder_of_iff cluster h t :
  holder_of cluster h t ↔
  rh_tenant h = "" ∧ match HolderUser (rh_realm h) (rh_subject h) with
                     | Err _ => False
                     | Ok u => t = Tuple u (rh_relation h) (Cluster cluster)
                     end.
Proof.
  unfold holder_of. destruct (HolderUser _ _) as [u|e].
  - split; [intros (? & ? & ? & ->); split; congruence|]. intros [? ->]. split; [done|]. by exists u.
  - split; [intros (? & ? & ? & _); done|]. by intros [_ []].
Qed.

Lemma holders_wanted cluster holders P want want' :
  bar_free cluster → (∀ h, h ∈ holders → bar_free (rh_subject h)) → keyed want P →
  fold_result (λ want h,
      if negb (bool_decide (rh_tenant h = "")) then Ok want
      else if negb (holderRelation (rh_relation h))
      then Err (Errorf "cluster role %q is not one a role holder may hold" [rh_relation h])
      else
        user ← wrap "role holder %s/%s: %w" [rh_realm h; rh_subject h]
                 (HolderUser (rh_realm h) (rh_subject h));
        let t := Tuple user (rh_relation h) (Cluster cluster) in
        Ok (<[key t := t]> want)) want holders = Ok want' →
  keyed want' (λ t, P t ∨ role_by_holder cluster holders t)
  ∧ ∀ t, role_by_holder cluster holders t → t_relation t ∈ ClusterRoles.
Proof.
  intros Hc Hhs HP Hrun.
  refine (fold_result_invariant _ (λ seen m,
    keyed m (λ t, P t ∨ ∃ h, h ∈ seen ∧ holder_of cluster h t)
    ∧ ∀ t, (∃ h, h ∈ seen ∧ holder_of cluster h t) → t_relation t ∈ ClusterRoles) _ _ _ Hrun _ _).
  { split; [|intros t; by rewrite exists_elem_nil].
    eapply keyed_proper; [|exact HP]. intros t. rewrite exists_elem_nil. tauto. }
  intros seen h x x' [rest Hpre] [Hx Hrel] Hstep. setoid_rewrite exists_elem_snoc.
  assert (bar_free (rh_subject h)) as Hsub by (apply Hhs; rewrite Hpre; set_solver).
  setoid_rewrite (holder_of_iff _ h). case_bool_decide as Ht; simpl in Hstep.
  2: { simplify_eq. split; [|intros t; specialize (Hrel t); tauto].
    eapply keyed_proper; [|exact Hx]. tauto. }
  destruct (holderRelation (rh_relation h)) eqn:Hh; [|done]. simpl in Hstep.
  apply holderRelation_cluster in Hh.
  destruct (HolderUser _ _) as [u|] eqn:Hu; [|done]. simpl in Hstep. simplify_eq.
  split; [|intros t [?|[_ ->]]; [by apply Hrel|done]].
  eapply keyed_proper; [|eapply keyed_insert; [|exact Hx]]; [tauto|].
  apply ClusterRoles_clean in Hh as [Hh _].
  repeat split; simpl; auto with go_clean. by eapply bar_free_HolderUser.
Qed.

Lemma want_cluster_roles_spec cluster roles holders want :
  claim_ok cluster roles holders → want_cluster_roles cluster roles holders = Ok want →
  keyed want (cluster_wanted cluster roles holders)
  ∧ ∀ t, cluster_wanted cluster roles holders t → cluster_managed cluster t.
Proof.
  intros (Hc & Hgs & Hhs) Hrun. apply bar_free_dns in Hc. unfold want_cluster_roles in Hrun.
  destruct (negb _); [done|].
  destruct (fold_result _ ∅ ClusterRoles) as [want1|] eqn:H1; [|done]. simpl in Hrun.
  apply groups_wanted in H1; [|done..].
  eapply holders_wanted in Hrun as [Hk Hrel]; [|done..|exact H1]. split; [exact Hk|].
  intros t [(rel & Hin & group & g & _ & _ & _ & ->)|Ht].
  - by exists rel.
  - exists (t_relation t). split; [by apply Hrel|]. by destruct Ht as (h & _ & _ & u & _ & ->).
Qed.

Section Roles.
Context {W} `{Hl : RightsStoreLaws W}.

Lemma plan_cluster_roles_spec (s : W) cluster roles holders p :
  claim_ok cluster roles holders → plan_cluster_roles s cluster roles holders = Ok p →
  planned (rs_contents s) (cluster_managed cluster) (cluster_wanted cluster roles holders) p.
Proof.
  intros Hok Hrun. unfold plan_cluster_roles in Hrun.
  destruct (want_cluster_roles _ _ _) as [want|] eqn:Hw; [|done].
  cbn [mbind result_bind] in Hrun.
  apply want_cluster_roles_spec in Hw as [Hw Hmanaged]; [|done].
  destruct (fold_result _ _ _) as [[want' deletes]|] eqn:Hf; [|done]. simpl in Hrun. simplify_eq.
  eapply (settle_reads _ (rs_contents s) (λ rel t, t_relation t = rel ∧ t_object t = Cluster cluster))
    in Hf as [Hw' Hd]; [| |naive_solver| |exact Hw].
  2: { intros x rel x' [_ Hrel]%ClusterRoles_clean Hx.
    destruct (rs_read s _) as [have|] eqn:Hr; [|done]. simpl in Hx. simplify_eq.
    apply rs_read_ok in Hr as [Hnd Hr]. eexists. split; [done|]. split; [done|].
    intros t. rewrite Hr, matches_relation; [done..|]. apply Cluster_not_type_only.
    intros ->. by destruct Hok. }
  2: { apply (bool_decide_unpack _). vm_compute. exact I. }
  split; [|split]; simpl.
  - intros t. rewrite (keyed_values _ _ _ Hw'). specialize (Hmanaged t). unfold cluster_managed in *. tauto.
  - done.
  - intros t. by apply (keyed_dec want).
Qed.

(** ** A tenant *)

Lemma plan_missing_spec format (s : W) t l :
  t_user t ≠ "" → t_relation t ≠ "" → t_object t ≠ "" → is_type_only (t_object t) = false →
  plan_missing format s t = Ok l → ∀ t', t' ∈ l ↔ t' = t ∧ t' ∉ rs_contents s.
Proof.
  intros Hu Hr Ho Hto (have & Hread%wrap_Ok & [= <-])%bind_Ok t'.
  apply rs_read_ok in Hread as [_ Hread]. setoid_rewrite matches_self in Hread; [|done..].
  destruct have as [|x have].
  - rewrite list_elem_of_singleton. split; [|tauto]. intros ->. split; [done|].
    intros HC. by apply (elem_of_nil (A:=tuple) t), Hread.
  - assert (x = t ∧ x ∈ rs_contents s) as [-> Hx].
    { destruct (proj1 (Hread x)) as [? <-]; [by left|done]. }
    rewrite elem_of_nil. split; [done|]. by intros [-> ?].
Qed.

Lemma holders_fold rel obj (have : list tuple) (named : gset string) deletes :
  NoDup have → (∀ t, t ∈ have → t_relation t = rel ∧ t_object t = obj) →
  let acc := foldl (λ '(named, deletes) t,
      if bool_decide (t_user t ∈ named) then (named ∖ {[t_user t]}, deletes)
      else (named, deletes ++ [plain t])) (named, deletes) have in
  (∀ u, u ∈ acc.1 ↔ u ∈ named ∧ Tuple u rel obj ∉ have)
  ∧ (∀ t, t ∈ acc.2 ↔ t ∈ deletes ∨ (t ∈ have ∧ t_user t ∉ named)).
Proof.
  intros Hnd. revert named deletes. induction Hnd as [|t have Ht Hnd IH]; intros named deletes Hall; simpl.
  { split; intros ?; rewrite elem_of_nil; tauto. }
  destruct (Hall t) as [Hr Ho]; [by left|].
  assert (∀ t', t' ∈ have → t_user t' ≠ t_user t) as Huser.
  { intros t' Ht' Hu. destruct (Hall t') as [Hr' Ho']; [by right|]. apply Ht.
    replace t with t'; [done|]. destruct t, t'. simpl in *. congruence. }
  assert (∀ u, Tuple u rel obj = t ↔ u = t_user t) as Heq.
  { intros u. destruct t. simpl in *. split; congruence. }
  setoid_rewrite elem_of_cons. case_bool_decide as Hin.
  - destruct (IH (named ∖ {[t_user t]}) deletes) as [H1 H2]; [by intros; apply Hall; right|].
    split; [intros u; rewrite H1, Heq, elem_of_difference, elem_of_singleton; tauto|].
    intros t'. rewrite H2, elem_of_difference, elem_of_singleton. specialize (Huser t').
    split; [|intros [?|[[->|?] ?]]; tauto].
    intros [?|[? Hn]]; [by left|]. right. split; [by right|]. tauto.
  - destruct (IH named (deletes ++ [plain t])) as [H1 H2]; [by intros; apply Hall; right|].
    split.
    + intros u. rewrite H1, Heq. split; [|tauto]. intros [? ?]. split; [done|]. intros [->|?]; done.
    + intros t'. rewrite H2, elem_of_app, list_elem_of_singleton, plain_id.
      split; [|tauto]. intros [[?| ->]|?]; tauto.
Qed.

Lemma plan_holders_spec (s : W) obj rel users p :
  rel ≠ "" → obj ≠ "" → is_type_only obj = false → plan_holders s obj rel users = Ok p →
  planned (rs_contents s) (λ t, t_relation t = rel ∧ t_object t = obj)
    (λ t, t_user t ∈ users ∧ t_relation t = rel ∧ t_object t = obj) p.
Proof.
  intros Hr Ho Hto (have & Hread%wrap_Ok & Hrun)%bind_Ok.
  apply rs_read_ok in Hread as [Hnd Hread]. setoid_rewrite matches_relation in Hread; [|done..].
  pose proof (holders_fold rel obj have (list_to_set users) [] Hnd) as Hfold.
  destruct (foldl _ _ have) as [named deletes]. simplify_eq.
  destruct Hfold as [Hn Hd]; [naive_solver|]. simpl in Hn, Hd.
  setoid_rewrite elem_of_list_to_set in Hn. setoid_rewrite elem_of_list_to_set in Hd.
  split; [|split]; simpl; intros t.
  - rewrite list_elem_of_fmap. setoid_rewrite elem_of_elements. setoid_rewrite Hn.
    setoid_rewrite Hread. split.
    + intros (u & -> & Hu & Hnot). simpl. tauto.
    + intros ((Hu & <- & <-) & HC). exists (t_user t). destruct t. simpl in *. tauto.
  - rewrite Hd, Hread, elem_of_nil. tauto.
  - destruct (decide (t_user t ∈ users ∧ t_relation t = rel ∧ t_object t = obj)); tauto.
Qed.

(** What a tenant starts with, and who the claim names. *)
Definition tenant_standing (cluster tenant : string) (t : tuple) : Prop :=
  ∃ standing once, tenantDefaults cluster tenant = Ok (standing, once) ∧ t ∈ standing.
Definition operated_tuple (cluster tenant : string) : tuple :=
  Tuple (Cluster cluster) "operated_by" (Tenant tenant).
Definition attached_tuple (cluster tenant : string) : tuple :=
  Tuple (Cluster cluster) "cluster" (Tenant tenant).
(** Consent is written for a tenant not attached yet, and for the platform's. *)
Definition consent_due (C : gset tuple) (cluster tenant : string) : Prop :=
  attached_tuple cluster tenant ∉ C ∨ tenant = PlatformTenant.
Definition named_holder (r : TenantRights) (t : tuple) : Prop :=
  ∃ rel users, (rel, users) ∈ zip claimTenantRelations (heldBy r) ∧ t_user t ∈ users
    ∧ t_relation t = rel ∧ t_object t = Tenant (tr_name r).

Definition tenant_wanted (C : gset tuple) (cluster : string) (r : TenantRights) (t : tuple) : Prop :=
  tenant_standing cluster (tr_name r) t
  ∨ (t = operated_tuple cluster (tr_name r) ∧ consent_due C cluster (tr_name r))
  ∨ named_holder r t.
Definition tenant_managed (r : TenantRights) (t : tuple) : Prop :=
  claimTenantRelation (t_relation t) = true ∧ t_object t = Tenant (tr_name r).

Lemma claimTenantRelation_iff rel : claimTenantRelation rel = true ↔ rel ∈ claimTenantRelations.
Proof.
  unfold claimTenantRelation. rewrite existsb_elem_of. setoid_rewrite String.eqb_eq. naive_solver.
Qed.

Lemma tenantDefaults_Ok cluster tenant standing once :
  tenantDefaults cluster tenant = Ok (standing, once) →
  ∃ g1 g2, Group ("gentian:tenant:" +:+ tenant +:+ ":admins") = Ok g1
    ∧ Group ("gentian:tenant:" +:+ tenant +:+ ":members") = Ok g2
    ∧ standing = [attached_tuple cluster tenant; Tuple (g1 +:+ "#member") "admin" (Tenant tenant);
                  Tuple (g2 +:+ "#member") "member" (Tenant tenant)]
    ∧ once = [operated_tuple cluster tenant].
Proof.
  unfold tenantDefaults, tenantRoleGroups. simpl. intros Hrun.
  apply bind_Ok in Hrun as (st & Hst & [= <- <-]).
  apply bind_Ok in Hst as (st1 & Hst1 & Hst).
  apply bind_Ok in Hst1 as (g1 & Hg1%wrap_Ok & [= <-]).
  apply bind_Ok in Hst as (st2 & Hst2 & [= <-]).
  apply bind_Ok in Hst2 as (g2 & Hg2%wrap_Ok & [= <-]).
  by exists g1, g2.
Qed.

Lemma tenant_standing_iff cluster tenant standing once t :
  tenantDefaults cluster tenant = Ok (standing, once) → tenant_standing cluster tenant t ↔ t ∈ standing.
Proof.
  intros Hdef. unfold tenant_standing. rewrite Hdef. split.
  - by intros (? & ? & [= <- <-] & ?).
  - intros Ht. by exists standing, once.
Qed.

Lemma plan_missing_planned format (s : W) t l :
  t_user t ≠ "" → t_relation t ≠ "" → t_object t ≠ "" → is_type_only (t_object t) = false →
  plan_missing format s t = Ok l → planned (rs_contents s) (λ _, False) (λ t', t' = t) (l, []).
Proof.
  intros Hu Hr Ho Hto Hw. apply planned_writes; [|by eapply plan_missing_spec]. intros t'. destruct (decide (t' = t)); tauto.
Qed.

Lemma plan_consent (s : W) cluster tenant attached operated :
  is_type_only (Tenant tenant) = false → plan_missing "read %s of %s: %w" s (attached_tuple cluster tenant) = Ok attached →
  (if bool_decide (attached ≠ []) || bool_decide (tenant = PlatformTenant)
   then plan_missing "read %s of %s: %w" s (operated_tuple cluster tenant) else Ok []) = Ok operated →
  planned (rs_contents s) (λ _, False)
    (λ t, t = operated_tuple cluster tenant ∧ consent_due (rs_contents s) cluster tenant) (operated, []).
Proof.
  intros Hto Hmiss Hop.
  assert (∀ t, t ∈ attached ↔ t = attached_tuple cluster tenant ∧ t ∉ rs_contents s) as Ha
    by by eapply plan_missing_spec.
  assert (bool_decide (attached ≠ []) || bool_decide (tenant = PlatformTenant) = true
    ↔ consent_due (rs_contents s) cluster tenant) as Hdue.
  { unfold consent_due. rewrite orb_true_iff, !bool_decide_eq_true.
    enough (attached ≠ [] ↔ attached_tuple cluster tenant ∉ rs_contents s) by tauto.
    destruct attached as [|t l]; split; try done.
    - intros Hn _. by eapply not_elem_of_nil, Ha.
    - intros _. destruct (proj1 (Ha t)) as [<- ?]; [by left|done]. }
  destruct (_ || _).
  - apply plan_missing_planned in Hop; [|done..].
    eapply planned_proper; [| |exact Hop]; [tauto|]. intros t. split; [tauto|]. intros [-> _]. done.
  - simplify_eq. apply planned_writes.
    + intros t. right. intros [_ Hno%Hdue]. done.
    + intros t. rewrite elem_of_nil. split; [done|]. intros [[_ Hno%Hdue] _]. done.
Qed.

Lemma plan_roles (s : W) (standing l : list tuple) :
  (∀ t, t ∈ standing → t_user t ≠ "" ∧ t_relation t ≠ "" ∧ t_object t ≠ "" ∧ is_type_only (t_object t) = false) →
  fold_result (λ acc t, w ← plan_missing "read %s on %s: %w" s t; Ok (acc ++ w)) [] standing = Ok l →
  planned (rs_contents s) (λ _, False) (λ t, t ∈ standing) (l, []).
Proof.
  intros Hst Hrun. apply planned_writes; [intros t; destruct (decide (t ∈ standing)); tauto|].
  refine (fold_result_invariant _ (λ seen l, ∀ t, t ∈ l ↔ t ∈ seen ∧ t ∉ rs_contents s) _ _ _ Hrun _ _).
  - intros t. rewrite elem_of_nil. tauto.
  - intros seen x acc acc' [rest Hpre] Hacc (w & Hw & [= <-])%bind_Ok t.
    destruct (Hst x) as (? & ? & ? & ?); [rewrite Hpre; set_solver|].
    apply plan_missing_spec with (t' := t) in Hw; [|done..].
    rewrite !elem_of_app, Hacc, Hw, list_elem_of_singleton. tauto.
Qed.

Lemma plan_held (s : W) r held :
  is_type_only (Tenant (tr_name r)) = false →
  gather (λ '(rel, users), plan_holders s (Tenant (tr_name r)) rel users)
    (zip claimTenantRelations (heldBy r)) = Ok held →
  planned (rs_contents s) (tenant_managed r) (named_holder r) held.
Proof.
  intros Hto Hrun. eapply planned_proper.
  3: eapply (gather_planned _ _ (λ '(rel, _) t, t_relation t = rel ∧ t_object t = Tenant (tr_name r))
       (λ '(rel, users) t, t_user t ∈ users ∧ t_relation t = rel ∧ t_object t = Tenant (tr_name r)));
       [| |exact Hrun].
  - intros t. unfold tenant_managed. rewrite claimTenantRelation_iff.
    unfold claimTenantRelations, heldBy. simpl.
    setoid_rewrite elem_of_cons. setoid_rewrite list_elem_of_singleton. split.
    + intros ([rel users] & [[= -> ->]|[= -> ->]] & <- & ?); tauto.
    + intros [[Hr|Hr] Ho]; eexists (_, _); (split; [|by split]); [left|right]; done.
  - intros t. unfold named_holder. split.
    + intros ([rel users] & Hin & ?). by exists rel, users.
    + intros (rel & users & Hin & ?). by exists (rel, users).
  - intros [rel users] p Hin Hp. apply plan_holders_spec; [|done..].
    apply elem_of_zip_l in Hin. unfold claimTenantRelations in Hin.
    rewrite !elem_of_cons, elem_of_nil in Hin. by destruct_or! Hin; subst.
  - unfold claimTenantRelations, heldBy. simpl.
    intros [a ua] [b ub] t Ha Hb. rewrite !elem_of_cons, elem_of_nil in Ha.
    rewrite !elem_of_cons, elem_of_nil in Hb.
    destruct Ha as [[= -> ->]|[[= -> ->]|[]]], Hb as [[= -> ->]|[[= -> ->]|[]]];
      intros (? & Hr & ?) (Hr' & ?); by try (rewrite Hr in Hr').
Qed.

Lemma named_holder_managed r t : named_holder r t → tenant_managed r t.
Proof.
  intros (rel & users & Hin & _ & <- & Ho). split; [|done]. apply claimTenantRelation_iff.
  by apply elem_of_zip_l in Hin.
Qed.

Lemma plan_tenant_spec (s : W) cluster r p :
  dns_label (tr_name r) = true → plan_tenant s cluster r = Ok p →
  planned (rs_contents s) (tenant_managed r) (tenant_wanted (rs_contents s) cluster r) p.
Proof.
  intros Ht Hrun. unfold plan_tenant in Hrun.
  assert (is_type_only (Tenant (tr_name r)) = false) as Hto.
  { apply Tenant_not_type_only. by intros Hn; rewrite Hn in Ht. }
  apply bind_Ok in Hrun as (attached & Ha & Hrun).
  apply bind_Ok in Hrun as (operated & Hop & Hrun).
  apply bind_Ok in Hrun as ([standing once] & Hdef & Hrun).
  apply bind_Ok in Hrun as (roles & Hroles & Hrun).
  apply bind_Ok in Hrun as (held & Hheld & [= <-]).
  pose proof (tenantDefaults_Ok _ _ _ _ Hdef) as (g1 & g2 & Hg1 & Hg2 & -> & ->).
  apply Group_Ok in Hg1 as (id1 & _ & ->). apply Group_Ok in Hg2 as (id2 & _ & ->).
  eapply plan_consent in Hop; [|done..]. apply plan_missing_planned in Ha; [|done..].
  apply plan_roles in Hroles.
  2: { intros t. simpl. rewrite !elem_of_cons, elem_of_nil. by intros [->|[->|[]]]. }
  apply plan_held in Hheld; [|done].
  assert (∀ rel, rel ∉ claimTenantRelations → ∀ u, ¬ tenant_managed r (Tuple u rel (Tenant (tr_name r)))) as Hno.
  { intros rel Hrel u [Hm%claimTenantRelation_iff _]. done. }
  assert (∀ rel, bool_decide (rel ∈ claimTenantRelations) = false → rel ∉ claimTenantRelations) as Hdec
    by (intros rel; by rewrite bool_decide_eq_false).
  eapply planned_proper; [intros t; reflexivity| |].
  2: { eapply (planned_writes_union _ _ _ _ attached (operated ++ roles ++ held.1, held.2) Ha).
    - eapply (planned_writes_union _ _ _ _ operated (roles ++ held.1, held.2) Hop).
      + eapply (planned_writes_union _ _ _ _ roles held); [exact Hroles|exact Hheld|].
        intros t. simpl. rewrite !elem_of_cons, elem_of_nil.
        intros [->|[->|[]]]; apply Hno, Hdec; reflexivity.
      + intros t [-> _]. apply Hno, Hdec. reflexivity.
    - intros t ->. apply Hno, Hdec. reflexivity. }
  intros t. unfold tenant_wanted. rewrite (tenant_standing_iff _ _ _ _ _ Hdef), elem_of_cons. simpl. tauto.
Qed.

Lemma tenant_wanted_object C cluster r t : tenant_wanted C cluster r t → t_object t = Tenant (tr_name r).
Proof.
  intros [(st & once & (g1 & g2 & _ & _ & -> & _)%tenantDefaults_Ok & Ht)|[[-> _]|(? & ? & _ & _ & _ & ?)]];
    [|done..].
  rewrite !elem_of_cons, elem_of_nil in Ht. by destruct Ht as [->|[->|[->|[]]]].
Qed.

Definition tenants_ok (tenants : list TenantRights) : Prop :=
  (∀ r, r ∈ tenants → dns_label (tr_name r) = true) ∧ NoDup (tr_name <$> tenants).
Definition tenants_managed (tenants : list TenantRights) (t : tuple) : Prop :=
  ∃ r, r ∈ tenants ∧ tenant_managed r t.
Definition tenants_wanted (C : gset tuple) (cluster : string) (tenants : list TenantRights) (t : tuple) : Prop :=
  ∃ r, r ∈ tenants ∧ tenant_wanted C cluster r t.

Lemma tenants_planned (s : W) cluster tenants p :
  tenants_ok tenants → gather (plan_tenant s cluster) tenants = Ok p →
  planned (rs_contents s) (tenants_managed tenants) (tenants_wanted (rs_contents s) cluster tenants) p.
Proof.
  intros [Hn Hnd] Hp. eapply gather_planned; [| |exact Hp].
  - intros r p' Hin Hp'. apply plan_tenant_spec; [by apply Hn|done].
  - intros a b t Ha Hb Hw [_ Hm]. pose proof (tenant_wanted_object _ _ _ _ Hw) as Hobj.
    rewrite Hobj in Hm. apply app_inj_str in Hm.
    apply list_elem_of_lookup in Ha as [i Hi], Hb as [j Hj].
    assert (i = j) as ->.
    { eapply (NoDup_lookup (tr_name <$> tenants)); [done| |]; rewrite list_lookup_fmap, ?Hi, ?Hj; simpl; by f_equal. }
    by simplify_eq.
Qed.

Definition consent_withdrawn (C : gset tuple) (cluster tenant : string) : Prop :=
  attached_tuple cluster tenant ∈ C ∧ operated_tuple cluster tenant ∉ C.

Lemma withdrawn_step (s : W) cluster tenant tenants :
  tenants_ok tenants → tenant ≠ PlatformTenant → consent_withdrawn (rs_contents s) cluster tenant →
  consent_withdrawn (rs_contents (ReconcileTenants s cluster tenants).1) cluster tenant.
Proof.
  intros Hok Hne [Ha Ho]. split.
  - apply commit_keeps; [|done]. intros p Hp. apply tenants_planned in Hp as (_ & Hd & _); [|done].
    intros (_ & (r & _ & Hrel & _) & _)%Hd. done.
  - apply commit_adds; [|done]. intros p Hp. apply tenants_planned in Hp as (Hw & _ & _); [|done].
    intros ((r & _ & Hr) & _)%Hw. pose proof (tenant_wanted_object _ _ _ _ Hr) as Hobj.
    apply app_inj_str in Hobj. subst tenant. destruct Hr as [Hr|[[_ [?|?]]|(rel & us & Hin & _ & Hrel & _)]].
    + destruct Hr as (st & once & (g1 & g2 & _ & _ & -> & _)%tenantDefaults_Ok & Ht).
      rewrite !elem_of_cons, elem_of_nil in Ht. by destruct Ht as [[=]|[[=]|[[=]|[]]]].
    + done.
    + done.
    + apply elem_of_zip_l, claimTenantRelation_iff in Hin. by rewrite <-Hrel in Hin.
Qed.
End Roles.

(** ** Properties *)

(** The claim is the whole truth about the cluster's roles: after a run that
    succeeds the relations of [ClusterRoles] on the cluster's object are held by
    the groups and the holders the claim names and by nobody else, and no other
    tuple of the store changed. *)
Theorem ReconcileClusterRoles_exact {W} `{Hl : RightsStoreLaws W} (s s' : W) (cluster : string)
    (roles : gmap string string) (holders : list RoleHolder) (u : unit) :
  claim_ok cluster roles holders → ReconcileClusterRoles s cluster roles holders = (s', Ok u) →
  ∀ t, t ∈ rs_contents s' ↔
    cluster_wanted cluster roles holders t ∨ (t ∈ rs_contents s ∧ ¬ cluster_managed cluster t).
Proof.
  intros Hok Hrun. eapply commit_settled; [|exact Hrun]. intros p Hp. by apply plan_cluster_roles_spec.
Qed.

Module RolesExample.
Definition roles : gmap string string := {["admin" := "gentian:admins"]}.
Definition holders : list RoleHolder := [mkRoleHolder "auditor" "gentian" "sub1" ""; mkRoleHolder "auditor" "acme" "sub2" "acme"].
Definition stored : gset tuple :=
  list_to_set [Tuple "group:gentian/old#member" "admin" "cluster:main";
    Tuple "user:gentian/sub9" "auditor" "tenant:acme";
    Tuple "cluster:main" "cluster" "tenant:acme";
    Tuple "group:g#member" "member" "tenant:other"].
Definition tenants : list TenantRights :=
  [mkTenantRights "acme" [] ["user:acme/sub2"]; mkTenantRights "platform" [] []].

Lemma roles_ok : claim_ok "main" roles holders.
Proof.
  split; [done|split].
  - intros rel group Hin. unfold roles in Hin. by apply lookup_singleton_Some in Hin as [<- <-].
  - intros h Hin. unfold holders in Hin. rewrite !elem_of_cons, elem_of_nil in Hin.
    by destruct Hin as [->|[->|[]]].
Qed.

Lemma tenants_names_ok : tenants_ok tenants.
Proof.
  split; [|apply (bool_decide_unpack _); vm_compute; exact I].
  intros r Hin. unfold tenants in Hin. rewrite !elem_of_cons, elem_of_nil in Hin.
  by destruct Hin as [->|[->|[]]].
Qed.
End RolesExample.

Lemma ReconcileClusterRoles_exact_witness :
  let s := MemServer RolesExample.stored 10 in
  let s' := (ReconcileClusterRoles s "main" RolesExample.roles RolesExample.holders).1 in
  size (rs_contents s') = 5
  ∧ ∀ t, t ∈ rs_contents s' ↔ cluster_wanted "main" RolesExample.roles RolesExample.holders t
      ∨ (t ∈ rs_contents s ∧ ¬ cluster_managed "main" t).
Proof.
  split; [vm_compute; reflexivity|].
  apply (ReconcileClusterRoles_exact _ _ _ _ _ tt); [apply RolesExample.roles_ok|].
  apply pair_snd. vm_compute. reflexivity.
Defined.

(** Each tenant given is held to what it starts with and what the claim names.
    After a run that succeeds its attachment and role entries are there, the
    claim's relations on it are held by those the claim names and nobody else,
    and consent is there where it was due; of everything else nothing changed. *)
Theorem ReconcileTenants_exact {W} `{Hl : RightsStoreLaws W} (s s' : W) (cluster : string)
    (tenants : list TenantRights) (u : unit) :
  tenants_ok tenants → ReconcileTenants s cluster tenants = (s', Ok u) →
  ∀ t, t ∈ rs_contents s' ↔
    tenants_wanted (rs_contents s) cluster tenants t
    ∨ (t ∈ rs_contents s ∧ ¬ tenants_managed tenants t).
Proof.
  intros Hok Hrun. eapply commit_settled; [|exact Hrun]. intros p Hp. by apply tenants_planned.
Qed.

Lemma ReconcileTenants_exact_witness :
  let s := MemServer RolesExample.stored 10 in
  let s' := (ReconcileTenants s "main" RolesExample.tenants).1 in
  size (rs_contents s') = 10
  ∧ ∀ t, t ∈ rs_contents s' ↔ tenants_wanted (rs_contents s) "main" RolesExample.tenants t
      ∨ (t ∈ rs_contents s ∧ ¬ tenants_managed RolesExample.tenants t).
Proof.
  split; [vm_compute; reflexivity|].
  apply (ReconcileTenants_exact _ _ _ _ tt); [apply RolesExample.tenants_names_ok|].
  apply pair_snd. vm_compute. reflexivity.
Defined.

(** A tenant's withdrawn consent is never second-guessed: once a tenant other
    than the platform's is attached and not operated by its cluster, no sequence
    of runs, whichever tenants each is given and however each ends, makes it so
    again. *)
Theorem withdrawn_consent_stays {W} `{Hl : RightsStoreLaws W} (s : W) (cluster tenant : string)
    (runs : list (list TenantRights)) :
  Forall tenants_ok runs → tenant ≠ PlatformTenant →
  consent_withdrawn (rs_contents s) cluster tenant →
  consent_withdrawn (rs_contents (foldl (λ s ts, (ReconcileTenants s cluster ts).1) s runs)) cluster tenant.
Proof.
  intros Hok Hne. revert s. induction Hok as [|ts runs Hts _ IH]; intros s Hw; simpl; [done|].
  by apply IH, withdrawn_step.
Qed.

Lemma withdrawn_consent_stays_witness :
  consent_withdrawn (rs_contents (foldl (λ s ts, (ReconcileTenants s "main" ts).1)
    (MemServer RolesExample.stored 1) [RolesExample.tenants; RolesExample.tenants])) "main" "acme".
Proof.
  apply withdrawn_consent_stays.
  - apply Forall_forall. intros ts Hin. rewrite !elem_of_cons, elem_of_nil in Hin.
    destruct Hin as [->|[->|[]]]; apply RolesExample.tenants_names_ok.
  - done.
  - split; [apply (bool_decide_unpack _)|apply (bool_decide_unpack _)]; vm_compute; exact I.
Defined.
