(* ===== verification/StoreOnly.v ===== *)
(** * What only the store knows

    [internal/director/authz/storeonly.go]: the entries on a tenant and its apps
    that follow from nothing else, which a backup carries; their names on another
    cluster; and what an entry read from a bundle must look like. *)

From S2P Require Import Prelude.
From S2P Require Import GoStrings.
From S2P Require Import Ids.
From S2P Require Import Fga.
From S2P Require Import Rights.
From S2P Require Import RightsApps.
From S2P Require Import RightsRoles.

Record StoreOnly := mkStoreOnly { so_granted : list tuple; so_withdrawn : list tuple }.

Definition ErrNotProjected : error :=
  Sentinel "the tenant is not attached to its cluster in the rights store yet".

(** A name under which an app of the tenant may be held. *)
Definition held_name (name : string) : bool :=
  negb (bool_decide (name = "")) && negb (contains_any name ("#/" +:+ blanks)).

Section StoreOnlyOf.
Context {W} `{RightsStore W}.

Definition StoreOnlyOf (s : W) (cluster tenant : string) (apps : list InstalledApp)
    (held : list string) : result StoreOnly :=
  '(standing, once) ← tenantDefaults cluster tenant;
  want ← appTuples tenant apps;
  let derived : gset string :=
    list_to_set (key <$> standing ++ once) ∪ list_to_set (map_to_list want).*1 in
  let objects : gset string :=
    list_to_set (t_object <$> (map_to_list want).*2)
    ∪ list_to_set (App tenant <$> filter (λ name, held_name name = true) held) in
  onTenant ← wrap "read the entries on %s: %w" [Tenant tenant]
               (rs_read s (Tuple "" "" (Tenant tenant)));
  let have : gset string := list_to_set ((λ t, key (plain t)) <$> onTenant) in
  if negb (match standing with t :: _ => bool_decide (key t ∈ have) | [] => false end)
  then Err (Wrapf "%w: %s" [tenant] ErrNotProjected)
  else
    let granted := plain <$> filter (λ t,
      claimTenantRelation (t_relation t) = false ∧ key (plain t) ∉ derived) onTenant in
    let withdrawn := if bool_decide (tenant = PlatformTenant) then []
      else filter (λ t, key t ∉ have) once in
    attached ← wrap "read the apps of %s: %w" [Tenant tenant]
                 (rs_read s (Tuple (Tenant tenant) "tenant" "app:"));
    let objects := objects
      ∪ list_to_set (filter (λ o, has_prefix o ("app:" +:+ tenant +:+ "/") = true)
                       (t_object <$> attached)) in
    granted ← fold_result (λ granted object,
        entries ← wrap "read the entries on %s: %w" [object] (rs_read s (Tuple "" "" object));
        Ok (granted ++ (plain <$> filter (λ t, app_relation (t_relation t) = false) entries)))
      granted (sort_strings (elements objects));
    Ok (mkStoreOnly (sort_by key granted) withdrawn).
End StoreOnlyOf.

(** The [rename] closure of [Rebase]: Go's [Cut] answers the whole string and
    nothing when the separator is not there. *)
Definition rename_cluster (fromCluster toCluster id : string) : string :=
  let '(id, relation) := default (id, "") (cut id "#") in
  let id := if negb (bool_decide (fromCluster = "")) && bool_decide (id = Cluster fromCluster)
            then Cluster toCluster else id in
  if bool_decide (relation = "") then id else id +:+ "#" +:+ relation.

Definition Rebase (t : tuple) (fromCluster toCluster : string) : tuple :=
  Tuple (rename_cluster fromCluster toCluster (t_user t)) (t_relation t)
    (rename_cluster fromCluster toCluster (t_object t)).

Definition OnTenant (t : tuple) (tenant : string) : bool :=
  let apps := "app:" +:+ tenant +:+ "/" in
  bool_decide (t_object t = Tenant tenant)
  || (has_prefix (t_object t) apps && (String.length apps <? String.length (t_object t))%nat).

(** The [part] closure of [WellFormed]. *)
Definition wf_part (what id : string) (userset : bool) : result unit :=
  let bad := Err (Errorf "%s %q is not an id of the rights store" [what; id]) in
  if bool_decide (id = "") || contains_any id (blanks +:+ "*") then bad
  else
    let '(object, relation, has) :=
      match cut id "#" with Some (o, r) => (o, r, true) | None => (id, "", false) end in
    if has && (negb userset || bool_decide (relation = "") || contains_byte relation "#") then bad
    else
      match cut object ":" with
      | None => bad
      | Some (kind, name) =>
          if bool_decide (kind = "") || bool_decide (name = "") || contains_byte name ":"
          then bad else Ok tt
      end.

Definition WellFormed (t : tuple) : result unit :=
  _ ← wf_part "the holder" (t_user t) true;
  _ ← wf_part "the object" (t_object t) false;
  if bool_decide (t_relation t = "") || contains_any (t_relation t) (blanks +:+ "#:*")
  then Err (Errorf "the relation %q is not one of the rights store's" [t_relation t])
  else Ok tt.

(** ** Lemmas *)

Lemma matches_whole o t :
  o ≠ "" → is_type_only o = false → matches (Tuple "" "" o) t = true ↔ t_object t = o.
Proof.
  intros Ho Hto. unfold matches. cbn [t_user t_relation t_object]. rewrite Hto.
  unfold field_matches. rewrite andb_false_l, orb_false_r, andb_true_iff, orb_true_iff, !bool_decide_eq_true.
  split; [intros [_ [?|<-]]; done|intros ->; split; [done|by right]].
Qed.

Lemma elem_of_plain (t : tuple) (l : list tuple) : t ∈ plain <$> l ↔ t ∈ l.
Proof.
  rewrite list_elem_of_fmap. setoid_rewrite plain_id. split; [by intros (? & -> & ?)|by exists t].
Qed.

(** The entries a tenant has from its claim and its apps. *)
Definition derived_tuple (cluster tenant : string) (apps : list InstalledApp) (t : tuple) : Prop :=
  tenant_standing cluster tenant t ∨ t = operated_tuple cluster tenant ∨ wanted tenant apps t.

Lemma tenantDefaults_clean cluster tenant standing once t :
  bar_free cluster → bar_free tenant → tenantDefaults cluster tenant = Ok (standing, once) →
  t ∈ standing ++ once → clean t.
Proof.
  intros Hc Ht (g1 & g2 & Hg1 & Hg2 & -> & ->)%tenantDefaults_Ok.
  apply bar_free_Group in Hg1; [|auto with go_clean]. apply bar_free_Group in Hg2; [|auto with go_clean].
  rewrite elem_of_app, !elem_of_cons, !elem_of_nil.
  intros [[->|[->|[->|[]]]]|[->|[]]]; repeat split; simpl; auto with go_clean.
Qed.

Lemma derived_keys cluster tenant apps standing once want t :
  dns_label cluster = true → names_ok tenant apps →
  tenantDefaults cluster tenant = Ok (standing, once) → appTuples tenant apps = Ok want →
  key t ∈ (list_to_set (key <$> standing ++ once) ∪ list_to_set (map_to_list want).*1 : gset string)
  ↔ derived_tuple cluster tenant apps t.
Proof.
  intros Hc Hn Hdef Hw. apply bar_free_dns in Hc. pose proof (bar_free_dns _ (proj1 Hn)) as Ht.
  apply appTuples_spec in Hw; [|done]. unfold derived_tuple.
  rewrite (tenant_standing_iff _ _ _ _ _ Hdef), elem_of_union, !elem_of_list_to_set.
  assert (key t ∈ (map_to_list want).*1 ↔ wanted tenant apps t) as ->.
  { rewrite list_elem_of_fmap. split.
    - intros ([k t'] & Hk & Hin%elem_of_map_to_list). simpl in Hk. subst k.
      apply Hw in Hin as [Hk HP]. apply key_inj in Hk; [by subst|by apply Hw].
    - intros HP. exists (key t, t). split; [done|]. apply elem_of_map_to_list. by eapply keyed_lookup. }
  assert (key t ∈ key <$> standing ++ once ↔ t ∈ standing ++ once) as ->.
  { rewrite list_elem_of_fmap. split; [|eauto]. intros (t' & Hk & Hin).
    apply key_inj in Hk; [by subst|]. exact (tenantDefaults_clean _ _ _ _ _ Hc Ht Hdef Hin). }
  apply tenantDefaults_Ok in Hdef as (g1 & g2 & _ & _ & _ & ->).
  rewrite elem_of_app, list_elem_of_singleton. tauto.
Qed.

Section Exact.
Context {W} `{Hl : RightsStoreLaws W}.

(** The objects of a tenant's apps: attached, installed, or held under a name. *)
Definition backup_object (C : gset tuple) (tenant : string) (apps : list InstalledApp)
    (held : list string) (o : string) : Prop :=
  app_object C tenant apps o ∨ ∃ name, name ∈ held ∧ held_name name = true ∧ o = App tenant name.

Definition store_only (C : gset tuple) (cluster tenant : string) (apps : list InstalledApp)
    (held : list string) (t : tuple) : Prop :=
  t ∈ C ∧
  ((t_object t = Tenant tenant ∧ claimTenantRelation (t_relation t) = false
    ∧ ¬ derived_tuple cluster tenant apps t)
   ∨ (backup_object C tenant apps held (t_object t) ∧ app_relation (t_relation t) = false)).

Lemma backup_object_prefix C tenant apps held o :
  backup_object C tenant apps held o → has_prefix o (apps_of tenant) = true.
Proof. intros [?%app_object_prefix|(name & _ & _ & ->)]; [done|apply App_prefix]. Qed.

Lemma granted_fold (s : W) tenant objects granted granted' :
  (∀ o, o ∈ objects → has_prefix o (apps_of tenant) = true) →
  fold_result (λ granted object,
      entries ← wrap "read the entries on %s: %w" [object] (rs_read s (Tuple "" "" object));
      Ok (granted ++ (plain <$> filter (λ t, app_relation (t_relation t) = false) entries)))
    granted objects = Ok granted' →
  ∀ t, t ∈ granted' ↔ t ∈ granted
    ∨ (t ∈ rs_contents s ∧ t_object t ∈ objects ∧ app_relation (t_relation t) = false).
Proof.
  intros Hp Hrun. refine (fold_result_invariant _ (λ seen g, ∀ t, t ∈ g ↔ t ∈ granted
    ∨ (t ∈ rs_contents s ∧ t_object t ∈ seen ∧ app_relation (t_relation t) = false)) _ _ _ Hrun _ _).
  - intros t. rewrite elem_of_nil. tauto.
  - intros seen o g g' [rest Hpre] Hg (entries & Hr%wrap_Ok & [= <-])%bind_Ok t.
    apply rs_read_ok in Hr as [_ Hr]. specialize (Hr t).
    rewrite (matches_object tenant) in Hr by (apply Hp; rewrite Hpre; set_solver).
    rewrite !elem_of_app, elem_of_plain, list_elem_of_filter, list_elem_of_singleton, Hg, Hr. tauto.
Qed.

Lemma backup_objects (s : W) tenant apps held want attached o :
  names_ok tenant apps → appTuples tenant apps = Ok want →
  rs_read s (Tuple (Tenant tenant) "tenant" "app:") = Ok attached →
  o ∈ (list_to_set (t_object <$> (map_to_list want).*2)
       ∪ list_to_set (App tenant <$> filter (λ name, held_name name = true) held)
       ∪ list_to_set (filter (λ o, has_prefix o (apps_of tenant) = true) (t_object <$> attached))
       : gset string)
  ↔ backup_object (rs_contents s) tenant apps held o.
Proof.
  intros Hn Hw Ha. apply appTuples_spec in Hw; [|done].
  rewrite !elem_of_union, !elem_of_list_to_set, (elem_of_attached _ _ _ _ Ha), !list_elem_of_fmap.
  unfold backup_object, app_object. setoid_rewrite list_elem_of_filter.
  setoid_rewrite (keyed_values _ _ _ Hw).
  assert ((∃ t, o = t_object t ∧ wanted tenant apps t) ↔ ∃ t, wanted tenant apps t ∧ t_object t = o) as ->
    by (split; intros (t & ? & ?); exists t; by split).
  assert ((∃ name, o = App tenant name ∧ held_name name = true ∧ name ∈ held)
    ↔ ∃ name, name ∈ held ∧ held_name name = true ∧ o = App tenant name) as ->
    by (split; intros (name & ? & ? & ?); exists name; by repeat split).
  tauto.
Qed.

Lemma StoreOnlyOf_spec (s : W) cluster tenant apps held out :
  dns_label cluster = true → names_ok tenant apps →
  StoreOnlyOf s cluster tenant apps held = Ok out →
  let C := rs_contents s in
  attached_tuple cluster tenant ∈ C
  ∧ (∀ t, t ∈ so_granted out ↔ store_only C cluster tenant apps held t)
  ∧ (∀ t, t ∈ so_withdrawn out ↔
       t = operated_tuple cluster tenant ∧ tenant ≠ PlatformTenant ∧ t ∉ C).
Proof.
  intros Hc Hn Hrun. unfold StoreOnlyOf in Hrun. fold (apps_of tenant) in Hrun.
  assert (is_type_only (Tenant tenant) = false) as Hto.
  { apply Tenant_not_type_only. intros Ht. destruct Hn as [Hn _]. by rewrite Ht in Hn. }
  apply bind_Ok in Hrun as ([standing once] & Hdef & Hrun).
  apply bind_Ok in Hrun as (want & Hw & Hrun).
  apply bind_Ok in Hrun as (onTenant & Hon%wrap_Ok%rs_read_ok & Hrun). destruct Hon as [_ Hon].
  setoid_rewrite matches_whole in Hon; [|done..].
  pose proof (tenantDefaults_Ok _ _ _ _ Hdef) as (g1 & g2 & _ & _ & Hst & Honce).
  assert (∀ t, t ∈ standing ++ once → t_object t = Tenant tenant →
    key t ∈ (list_to_set ((λ t, key (plain t)) <$> onTenant) : gset string) ↔ t ∈ rs_contents s) as Hhave.
  { intros t Hin Ho. apply (tenantDefaults_clean _ _ _ _ _ (bar_free_dns _ Hc) (bar_free_dns _ (proj1 Hn)) Hdef) in Hin.
    rewrite elem_of_list_to_set, list_elem_of_fmap. setoid_rewrite plain_id. setoid_rewrite Hon. split.
    - intros (t' & Hk & ? & ?). symmetry in Hk. apply key_inj in Hk; [by subst|done].
    - intros HC. by exists t. }
  destruct (negb _) eqn:Hproj in Hrun; [done|].
  apply bind_Ok in Hrun as (attached & Ha%wrap_Ok & Hrun).
  apply bind_Ok in Hrun as (granted & Hg & [= <-]). simpl. split; [|split].
  - subst standing. apply negb_false_iff, bool_decide_eq_true in Hproj.
    apply Hhave in Hproj; [done|by left|done].
  - intros t. rewrite elem_of_sort_by. eapply (granted_fold s tenant) with (t := t) in Hg.
    2: { intros o. rewrite elem_of_sort_strings, elem_of_elements, (backup_objects s); [|done..].
      apply backup_object_prefix. }
    rewrite Hg, elem_of_plain, list_elem_of_filter, elem_of_sort_strings, elem_of_elements,
      (backup_objects s _ _ _ _ _ _ Hn Hw Ha), plain_id, (derived_keys _ _ _ _ _ _ _ Hc Hn Hdef Hw), Hon.
    unfold store_only. tauto.
  - intros t. case_bool_decide as Hp; [rewrite elem_of_nil; tauto|].
    rewrite list_elem_of_filter, Honce, list_elem_of_singleton. split.
    + intros [Hno ->]. rewrite Hhave in Hno; [done| |done]. rewrite Honce. set_solver.
    + intros (-> & _ & Hno). rewrite Hhave; [done| |done]. rewrite Honce. set_solver.
Qed.
End Exact.

(** *** Ids *)

(** The object part of who holds an entry. *)
Definition holder_object (t : tuple) : string := (default (t_user t, "") (cut (t_user t) "#")).1.

(** An id of the store: an object, or the userset of a relation on one. *)
Definition id_of (object relation : string) : string :=
  if bool_decide (relation = "") then object else object +:+ "#" +:+ relation.

Lemma id_of_userset o r : r ≠ "" → id_of o r = o +:+ String "#" r.
Proof. intros Hr. unfold id_of. by rewrite bool_decide_eq_false_2. Qed.

(** Nothing in it that separates ids or matches everything. *)
Definition word (s : string) : Prop := contains_any s (blanks +:+ "*") = false ∧ contains_byte s "#" = false.

Definition plain_object (o : string) : Prop :=
  word o ∧ ∃ kind name, cut o ":" = Some (kind, name) ∧ kind ≠ "" ∧ name ≠ "" ∧ contains_byte name ":" = false.

Lemma plain_object_nonempty o : plain_object o → o ≠ "".
Proof. by intros (_ & kind & name & Hcut & _) ->. Qed.

Lemma rename_cluster_id a b o r :
  contains_byte o "#" = false →
  rename_cluster a b (id_of o r)
  = id_of (if negb (bool_decide (a = "")) && bool_decide (o = Cluster a) then Cluster b else o) r.
Proof.
  intros Ho. unfold rename_cluster, id_of. destruct (bool_decide (r = "")) eqn:Hr.
  - by rewrite (proj2 (cut_None o "#") Ho).
  - change ("#" +:+ r) with (String "#" r). rewrite cut_app by done. simpl. by rewrite Hr.
Qed.

Lemma wf_part_iff what id userset :
  wf_part what id userset = Ok tt ↔
  ∃ o r, id = id_of o r ∧ plain_object o ∧ word r ∧ (userset = false → r = "").
Proof.
  unfold wf_part. split.
  - case_bool_decide as Hne; [done|]. simpl. destruct (contains_any id _) eqn:Hany; [done|].
    destruct (cut id "#") as [[o r]|] eqn:Hcut; simpl.
    + apply cut_Some in Hcut as [-> Ho]. rewrite contains_any_app in Hany.
      apply orb_false_iff in Hany as [Hany1 Hany2].
      destruct userset; simpl; [|done]. case_bool_decide as Hr; simpl; [done|].
      destruct (contains_byte r "#") eqn:Hrh; [done|].
      destruct (cut o ":") as [[kind name]|] eqn:Hk; [|done]. 
      intros Hok. exists o, r. unfold id_of. rewrite bool_decide_eq_false_2 by done.
      repeat split; try done.
      exists kind, name. go_cases; go_bool; naive_solver.
    + destruct (cut id ":") as [[kind name]|] eqn:Hk; [|done].
      intros Hok. exists id, "". repeat split; try done; [by apply cut_None|].
      exists kind, name. go_cases; go_bool; naive_solver.
  - intros (o & r & -> & Hobj & [Hr1 Hr2] & Hu). pose proof (plain_object_nonempty o Hobj) as Hne.
    destruct Hobj as ([Ho1 Ho2] & kind & name & Hcut & Hk & Hn & Hc).
    destruct (decide (r = "")) as [->|Hr]; [change (id_of o "") with o|rewrite id_of_userset by done].
    + rewrite (bool_decide_eq_false_2 (o = "")), Ho1, (proj2 (cut_None o "#") Ho2) by done. simpl.
      rewrite Hcut, (bool_decide_eq_false_2 (kind = "")), (bool_decide_eq_false_2 (name = "")), Hc by done. done.
    + destruct userset; [|naive_solver].
      rewrite (bool_decide_eq_false_2 (o +:+ _ = "")), contains_any_app, Ho1 by by destruct o.
      rewrite cut_app, contains_any_cons, Hr1 by done. simpl.
      rewrite (bool_decide_eq_false_2 (r = "")), Hr2, Hcut, (bool_decide_eq_false_2 (kind = "")),
        (bool_decide_eq_false_2 (name = "")), Hc by done. done.
Qed.

Lemma WellFormed_iff t :
  WellFormed t = Ok tt ↔
  (∃ o r, t_user t = id_of o r ∧ plain_object o ∧ word r) ∧ plain_object (t_object t)
  ∧ t_relation t ≠ "" ∧ contains_any (t_relation t) (blanks +:+ "#:*") = false.
Proof.
  unfold WellFormed. split.
  - intros ([] & Hu & ([] & Ho & Hr)%bind_Ok)%bind_Ok.
    apply wf_part_iff in Hu as (o & r & Hu & Hobj & Hword & _).
    apply wf_part_iff in Ho as (o' & r' & Ho & Hobj' & _ & Hr').
    rewrite (Hr' eq_refl) in Ho. change (id_of o' "") with o' in Ho. rewrite Ho.
    case_bool_decide; [done|]. destruct (contains_any (t_relation t) _); [done|].
    by split; [exists o, r|].
  - intros ((o & r & Hu & Hobj & Hr) & Ho & Hne & Hrel).
    assert (wf_part "the holder" (t_user t) true = Ok tt) as -> by (apply wf_part_iff; by exists o, r).
    assert (wf_part "the object" (t_object t) false = Ok tt) as ->
      by (apply wf_part_iff; by exists (t_object t), "").
    simpl. by rewrite bool_decide_eq_false_2, Hrel.
Qed.

Lemma Cluster_plain c : dns_label c = true → plain_object (Cluster c).
Proof.
  intros Hc. split; [split|].
  - unfold Cluster. rewrite contains_any_app. by rewrite (dns_label_contains_any c).
  - unfold Cluster. rewrite contains_byte_app. by rewrite (dns_label_contains c).
  - exists "cluster", c. split; [apply (cut_app "cluster" c ":"); done|].
    split; [done|]. split; [by apply dns_label_nonempty|]. by apply dns_label_contains.
Qed.

Lemma Rebase_wellformed t a b :
  WellFormed t = Ok tt → dns_label b = true →
  WellFormed (Rebase t a b) = Ok tt.
Proof.
  intros ((o & r & Hu & Ho & Hr) & Hobj & Hrel)%WellFormed_iff Hb. apply WellFormed_iff.
  assert (∀ o, plain_object o →
    plain_object (if negb (bool_decide (a = "")) && bool_decide (o = Cluster a) then Cluster b else o)) as Hren.
  { intros x Hx. destruct (negb _ && _); [by apply Cluster_plain|done]. }
  unfold Rebase. cbn [t_user t_relation t_object]. split; [|split; [|done]].
  - rewrite Hu, rename_cluster_id by apply Ho. eexists _, r. split; [done|]. by split; [apply Hren|].
  - change (t_object t) with (id_of (t_object t) ""). rewrite rename_cluster_id by apply Hobj.
    by apply Hren.
Qed.

Lemma rename_not_cluster a b o kind name :
  o = kind +:+ String ":" name → contains_byte o "#" = false → contains_byte kind ":" = false → kind ≠ "cluster" →
  rename_cluster a b o = o.
Proof.
  intros -> Hh Hk Hne. change (kind +:+ String ":" name) with (id_of (kind +:+ String ":" name) "").
  rewrite rename_cluster_id by done. 
  rewrite (bool_decide_eq_false_2 (_ = Cluster a)), andb_false_r; [done|].
  intros Heq. change (Cluster a) with ("cluster" +:+ String ":" a) in Heq.
  by apply app_sep_inj in Heq as [-> _].
Qed.

Lemma rename_on_tenant t tenant a b :
  OnTenant t tenant = true → contains_byte (t_object t) "#" = false →
  rename_cluster a b (t_object t) = t_object t.
Proof.
  intros Hon Hh. unfold OnTenant in Hon.
  apply orb_true_iff in Hon as [Hobj%bool_decide_eq_true|[(r & Hobj)%has_prefix_spec _]%andb_true_iff].
  - by apply (rename_not_cluster a b _ "tenant" tenant).
  - apply (rename_not_cluster a b _ "app" (tenant +:+ "/" +:+ r)); [|done..].
    rewrite Hobj, !app_assoc_str. done.
Qed.

Lemma rename_roundtrip a b o r :
  dns_label a = true → dns_label b = true → contains_byte o "#" = false → o ≠ Cluster b →
  rename_cluster b a (rename_cluster a b (id_of o r)) = id_of o r.
Proof.
  intros Ha Hb Ho Hne. apply dns_label_nonempty in Ha as Ha'. apply dns_label_nonempty in Hb as Hb'.
  rewrite rename_cluster_id by done. rewrite (bool_decide_eq_false_2 (a = "")) by done. simpl.
  case_bool_decide as Hoa.
  - rewrite rename_cluster_id by apply Cluster_plain, Hb.
    rewrite (bool_decide_eq_false_2 (b = "")), (bool_decide_eq_true_2 (Cluster b = _)) by done. simpl. by rewrite Hoa.
  - rewrite rename_cluster_id by done. rewrite (bool_decide_eq_false_2 (o = Cluster b)), andb_false_r by done. done.
Qed.

(** ** Properties *)

(** What a backup reads of a tenant's rights is complete and no more.  When it
    answers, the tenant is attached to its cluster; what it grants is exactly the
    entries on the tenant and on its apps that no projection writes (not the
    claim's role holders, not an app's own entries); and what it calls withdrawn
    is exactly the consent the store no longer holds, which the platform tenant
    cannot withdraw. *)
Theorem StoreOnlyOf_exact {W} `{Hl : RightsStoreLaws W} (s : W) (cluster tenant : string)
    (apps : list InstalledApp) (held : list string) (out : StoreOnly) :
  dns_label cluster = true → names_ok tenant apps →
  StoreOnlyOf s cluster tenant apps held = Ok out →
  attached_tuple cluster tenant ∈ rs_contents s
  ∧ (∀ t, t ∈ so_granted out ↔ store_only (rs_contents s) cluster tenant apps held t)
  ∧ (∀ t, t ∈ so_withdrawn out ↔
       t = operated_tuple cluster tenant ∧ tenant ≠ PlatformTenant ∧ t ∉ rs_contents s).
Proof. apply StoreOnlyOf_spec. Qed.

Module StoreOnlyExample.
Definition stored : gset tuple :=
  list_to_set [attached_tuple "main" "acme";
    Tuple "group:gentian/tenant/acme/admins#member" "admin" "tenant:acme";
    Tuple "user:acme/sub1" "auditor" "tenant:acme";
    Tuple "user:acme/sub2" "guest" "tenant:acme";
    Tuple "tenant:acme" "tenant" "app:acme/crm";
    Tuple "user:acme/sub3" "admin" "app:acme/crm";
    Tuple "user:acme/sub4" "admin" "app:acme/kept"].
Definition apps : list InstalledApp := [mkInstalledApp "crm" []].
Lemma apps_ok : names_ok "acme" apps.
Proof.
  split; [done|]. intros app p Hin. unfold apps in Hin. rewrite elem_of_cons, elem_of_nil in Hin.
  destruct Hin as [->|[]]. simpl. rewrite elem_of_nil. by intros [->|[]].
Qed.
End StoreOnlyExample.

(** A grant on the tenant, one on an installed app and one on an app held under a
    name are carried, the withdrawn consent is recorded, and the role holder of
    the claim is not. *)
Lemma StoreOnlyOf_exact_witness :
  let s := MemServer StoreOnlyExample.stored 0 in
  let out := mkStoreOnly
    [Tuple "user:acme/sub2" "guest" "tenant:acme"; Tuple "user:acme/sub3" "admin" "app:acme/crm";
     Tuple "user:acme/sub4" "admin" "app:acme/kept"] [operated_tuple "main" "acme"] in
  attached_tuple "main" "acme" ∈ rs_contents s
  ∧ (∀ t, t ∈ so_granted out ↔ store_only (rs_contents s) "main" "acme" StoreOnlyExample.apps ["kept"] t)
  ∧ (∀ t, t ∈ so_withdrawn out ↔
       t = operated_tuple "main" "acme" ∧ "acme" ≠ PlatformTenant ∧ t ∉ rs_contents s).
Proof.
  apply StoreOnlyOf_exact; [reflexivity|apply StoreOnlyExample.apps_ok|vm_compute; reflexivity].
Defined.

(** An entry of a bundle stays on the tenant it is of when it is renamed to the
    cluster it is restored on: a well-formed entry on the tenant is, renamed, a
    well-formed entry on the same object, and renaming it back gives the entry
    again unless it already named the other cluster. *)
Theorem Rebase_on_tenant (t : tuple) (tenant a b : string) :
  WellFormed t = Ok tt → OnTenant t tenant = true →
  dns_label a = true → dns_label b = true →
  WellFormed (Rebase t a b) = Ok tt
  ∧ t_object (Rebase t a b) = t_object t
  ∧ (holder_object t ≠ Cluster b → Rebase (Rebase t a b) b a = t).
Proof.
  intros Hwf Hon Ha Hb. split; [by apply Rebase_wellformed|].
  apply WellFormed_iff in Hwf as ((o & r & Hu & Ho & Hr) & Hobj & _).
  assert (∀ x y, rename_cluster x y (t_object t) = t_object t) as Hren
    by (intros; eapply rename_on_tenant; [done|apply Hobj]).
  split; [apply Hren|]. unfold holder_object. intros Hne.
  unfold Rebase. cbn [t_user t_relation t_object]. rewrite !Hren, Hu, rename_roundtrip; [|done|done|apply Ho|].
  - rewrite <-Hu. by destruct t.
  - intros ->. apply Hne. rewrite Hu. unfold id_of. case_bool_decide.
    + rewrite (proj2 (cut_None (Cluster b) "#")); [done|apply Ho].
    + change ("#" +:+ r) with (String "#" r). rewrite cut_app; [done|apply Ho].
Qed.

Lemma Rebase_on_tenant_witness :
  let t := Tuple "cluster:old" "operated_by" "tenant:acme" in
  Rebase t "old" "new" = Tuple "cluster:new" "operated_by" "tenant:acme"
  ∧ (WellFormed (Rebase t "old" "new") = Ok tt
     ∧ t_object (Rebase t "old" "new") = t_object t
     ∧ (holder_object t ≠ Cluster "new" → Rebase (Rebase t "old" "new") "new" "old" = t)).
Proof. split; [reflexivity|]. apply (Rebase_on_tenant _ "acme"); reflexivity. Defined.
