(* ===== verification/Sha256.v ===== *)
(** * SHA-256, in hexadecimal

    [sha256.Sum256] and [hex.EncodeToString] of Go's standard library, for
    [componentkeys.Hash] and the digests of the arbiter: FIPS 180-4 on 32-bit
    words written as integers with their wrap-around. *)

From S2P Require Import Prelude.
From S2P Require Import GoStrings.
From Stdlib Require Import ZArith.

Open Scope Z_scope.

(** ** Words *)

Definition word (x : Z) : Z := x mod 2 ^ 32.
Definition add32 (x y : Z) : Z := word (x + y).
Definition rotr (n x : Z) : Z := Z.lor (Z.shiftr x n) (word (Z.shiftl x (32 - n))).
Definition not32 (x : Z) : Z := Z.lxor x (2 ^ 32 - 1).

Definition Ch (x y z : Z) : Z := Z.lxor (Z.land x y) (Z.land (not32 x) z).
Definition Maj (x y z : Z) : Z := Z.lxor (Z.lxor (Z.land x y) (Z.land x z)) (Z.land y z).
Definition Sigma0 (x : Z) : Z := Z.lxor (Z.lxor (rotr 2 x) (rotr 13 x)) (rotr 22 x).
Definition Sigma1 (x : Z) : Z := Z.lxor (Z.lxor (rotr 6 x) (rotr 11 x)) (rotr 25 x).
Definition sigma0 (x : Z) : Z := Z.lxor (Z.lxor (rotr 7 x) (rotr 18 x)) (Z.shiftr x 3).
Definition sigma1 (x : Z) : Z := Z.lxor (Z.lxor (rotr 17 x) (rotr 19 x)) (Z.shiftr x 10).

(** The round constants are the first 32 bits of the fractional parts of the
    cube roots of the first 64 primes, and the initial state those of the square
    roots of the first eight: computed here from that definition. *)
Definition is_prime (n : Z) : bool :=
  forallb (λ d, negb (n mod d =? 0)) (seqZ 2 (n - 2)).
Definition primes : list Z := Eval vm_compute in filter is_prime (seqZ 2 310).

(** The largest [r] below [2^bits] whose power [f r] is at most [n]. *)
Fixpoint root (f : Z → Z) (n : Z) (bits : nat) (r : Z) : Z :=
  match bits with
  | O => r
  | S b => let r' := r + 2 ^ Z.of_nat b in root f n b (if f r' <=? n then r' else r)
  end.

Definition K256 : list Z := Eval vm_compute in
  (λ p, root (λ r, r * r * r) (p * 2 ^ 96) 40 0 mod 2 ^ 32) <$> primes.
Definition H256 : list Z := Eval vm_compute in
  (λ p, root (λ r, r * r) (p * 2 ^ 64) 40 0 mod 2 ^ 32) <$> take 8 primes.

(** ** The message *)

Definition bytes_of (s : string) : list Z := (λ c, Z.of_nat (byte_of c)) <$> String.list_ascii_of_string s.

(** The [n] bytes of [x], most significant first. *)
Definition big_endian (n : nat) (x : Z) : list Z :=
  (λ i, Z.shiftr x (8 * Z.of_nat i) mod 256) <$> rev (seq 0 n).

Definition pad (m : list Z) : list Z :=
  let len := Z.of_nat (length m) in
  m ++ [0x80] ++ repeat 0 (Z.to_nat ((55 - len) mod 64)) ++ big_endian 8 (8 * len).

Fixpoint words (m : list Z) : list Z :=
  match m with
  | a :: b :: c :: d :: rest => (a * 2 ^ 24 + b * 2 ^ 16 + c * 2 ^ 8 + d) :: words rest
  | _ => []
  end.

Fixpoint blocks (fuel : nat) (w : list Z) : list (list Z) :=
  match fuel, w with
  | S fuel, _ :: _ => take 16 w :: blocks fuel (drop 16 w)
  | _, _ => []
  end.

(** ** Compression *)

(** The schedule, kept backwards so that the words looked back at are at the
    front: [w] holds W(t-1), W(t-2), ... *)
Fixpoint extend (n : nat) (w : list Z) : list Z :=
  match n with
  | O => w
  | S n => let at_ i := nth i w 0 in
           extend n (add32 (add32 (sigma1 (at_ 1%nat)) (at_ 6%nat))
                           (add32 (sigma0 (at_ 14%nat)) (at_ 15%nat)) :: w)
  end.

Definition schedule (block : list Z) : list Z := rev (extend 48 (rev block)).

Definition round (st : list Z) (kw : Z * Z) : list Z :=
  match st with
  | [a; b; c; d; e; f; g; h] =>
      let T1 := add32 (add32 (add32 h (Sigma1 e)) (add32 (Ch e f g) kw.1)) kw.2 in
      let T2 := add32 (Sigma0 a) (Maj a b c) in
      [add32 T1 T2; a; b; c; add32 d T1; e; f; g]
  | _ => st
  end.

Definition compress (st block : list Z) : list Z :=
  zip_with add32 st (foldl round st (zip K256 (schedule block))).

Definition sha256 (s : string) : list Z :=
  let w := words (pad (bytes_of s)) in foldl compress H256 (blocks (length w) w).

(** ** Hexadecimal *)

Definition hex_digit (n : Z) : ascii :=
  nth (Z.to_nat (n mod 16)) (String.list_ascii_of_string "0123456789abcdef") "0"%char.

Definition hex_word (w : Z) : list ascii :=
  (λ i, hex_digit (Z.shiftr w (4 * Z.of_nat i))) <$> rev (seq 0 8).

Definition hex_sha256 (s : string) : string := String.string_of_list_ascii (sha256 s ≫= hex_word).

Close Scope Z_scope.

(** ** The published examples *)

Example sha256_empty :
  hex_sha256 "" = "e3b0c44298fc1c149afbf4c8996fb92427ae41e4649b934ca495991b7852b855".
Proof. vm_compute. reflexivity. Qed.
Example sha256_abc :
  hex_sha256 "abc" = "ba7816bf8f01cfea414140de5dae2223b00361a396177a9cb410ff61f20015ad".
Proof. vm_compute. reflexivity. Qed.
Example sha256_two_blocks :
  hex_sha256 "abcdbcdecdefdefgefghfghighijhijkijkljklmklmnlmnomnopnopq"
  = "248d6a61d20638b8e5c026930c3e6039a33ce45964ff2167f6ecedd419db06c1".
Proof. vm_compute. reflexivity. Qed.

(** ** The form of a digest: 64 digits *)

Lemma round_length st kw : length (round st kw) = length st.
Proof. do 9 (destruct st as [|? st]; [done|]). done. Qed.

Lemma foldl_round_length l st : length (foldl round st l) = length st.
Proof. revert st. induction l as [|kw l IH]; intros st; simpl; [done|]. by rewrite IH, round_length. Qed.

Lemma sha256_length s : length (sha256 s) = 8.
Proof.
  unfold sha256. set (bs := blocks _ _). assert (length H256 = 8) as Hst by done.
  revert Hst. generalize H256. induction bs as [|b bs IH]; intros st Hst; simpl; [done|].
  apply IH. unfold compress. rewrite length_zip_with, foldl_round_length. lia.
Qed.

Lemma hex_digit_hex n : is_hex_lower (hex_digit n) = true.
Proof.
  unfold hex_digit. set (i := Z.to_nat (n mod 16)).
  assert (i < 16) as Hi. { unfold i. pose proof (Z.mod_pos_bound n 16). lia. }
  clearbody i. do 16 (destruct i as [|i]; [reflexivity|]). lia.
Qed.

(** [^[0-9a-f]{64}$]. *)
Definition hex64 (s : string) : bool :=
  str_forallb is_hex_lower s && bool_decide (String.length s = 64).

Lemma str_forallb_list p l :
  str_forallb p (String.string_of_list_ascii l) = forallb p l.
Proof.
  induction l as [|c l IH]; [done|]. simpl String.string_of_list_ascii.
  by rewrite str_forallb_cons, IH.
Qed.

Lemma length_list_string l : String.length (String.string_of_list_ascii l) = length l.
Proof. induction l as [|c l IH]; [done|]. simpl. by rewrite IH. Qed.

Lemma hex_sha256_hex64 s : hex64 (hex_sha256 s) = true.
Proof.
  unfold hex64, hex_sha256. rewrite str_forallb_list, length_list_string. apply andb_true_iff. split.
  - apply forallb_elem_of. intros c (w & Hc & _)%list_elem_of_bind.
    unfold hex_word in Hc. apply list_elem_of_fmap in Hc as (i & -> & _). apply hex_digit_hex.
  - apply bool_decide_eq_true. pose proof (sha256_length s) as Hl.
    assert (∀ ws, length (ws ≫= hex_word) = 8 * length ws) as ->; [|lia].
    intros ws. induction ws as [|w ws IH]; [done|]. rewrite bind_cons, length_app, IH.
    unfold hex_word. rewrite length_fmap. simpl. lia.
Qed.
