(* ===== verification/ComponentKeys.v ===== *)
(** * Keys of components

    [internal/componentkeys/componentkeys.go]: the lists by which a service
    recognises a component by the key it presents.  A list is refused as a whole
    unless every entry can be told from the others; the list a service holds
    follows a file.  A decoded document stands for the file's bytes: JSON
    decoding is not modelled. *)

From S2P Require Import Prelude.
From S2P Require Import GoStrings.
From S2P Require Import Sha256.
From Stdlib Require Import ZArith.

Record Key := mkKey { k_tenant : string; k_component : string; k_hash : string }.

#[global] Instance Key_eq_dec : EqDecision Key.
Proof. solve_decision. Defined.

(** An entry of a list: a [Key], or a record that embeds one. *)
Class Entry (E : Type) := entry_key : E → Key.
#[global] Instance Key_entry : Entry Key := λ k, k.

Definition Hash (key : string) : string := hex_sha256 key.
Definition hashPattern (s : string) : bool := hex64 s.

Section Lists.
Context {E : Type} `{Entry E}.

(** The loop of [Check], from entry [i] on. *)
Fixpoint check_from (what noun : string) (extra : nat → E → result unit)
    (i : nat) (seen : gset string) (entries : list E) : result unit :=
  match entries with
  | [] => Ok tt
  | e :: rest =>
      let k := entry_key e in
      if bool_decide (trim_space (k_tenant k) = "") || bool_decide (trim_space (k_component k) = "")
      then Err (Errorf "%s: %s %d needs tenant and component" [what; noun; pretty i])
      else if negb (hashPattern (k_hash k))
      then Err (Errorf "%s: %s %d (%s/%s) needs keyHash as 64 hex digits"
                  [what; noun; pretty i; k_tenant k; k_component k])
      else
        _ ← extra i e;
        if bool_decide (k_hash k ∈ seen)
        then Err (Errorf "%s: %s %d (%s/%s) shares its key with another"
                    [what; noun; pretty i; k_tenant k; k_component k])
        else check_from what noun extra (S i) ({[k_hash k]} ∪ seen) rest
  end.

Definition Check (entries : list E) (what noun : string) (extra : nat → E → result unit) : result unit :=
  check_from what noun extra 0 ∅ entries.

(** [Parse], of a decoded document. *)
Definition Parse (decoded : result (list E)) (what : string) : result (list E) :=
  keys ← wrap "%s: %w" [what] decoded;
  _ ← Check keys what "entry" (λ _ _, Ok tt);
  Ok keys.

(** [Find] compares every entry and keeps the last that matches. *)
Definition Find (entries : list E) (key : string) : option E :=
  if bool_decide (key = "") then None
  else foldl (λ found e, if bool_decide (Hash key = k_hash (entry_key e)) then Some e else found) None entries.

(** The list a service holds: [None] before it was ever set. *)
Definition List_Len (held : option (list E)) : nat := default 0 (length <$> held).
Definition List_Find (held : option (list E)) (key : string) : option E :=
  match held with None => None | Some entries => Find entries key end.

(** ** Following a file

    One look at the file: it is not there, or it has a modification time and,
    when read, bytes that decode or an error. *)
Inductive sighting :=
  | Absent
  | Unreadable (mtime : Z)
  | Present (mtime : Z) (decoded : result (list E)).

Record follower := Follower { f_held : option (list E); f_present : bool; f_last : Z }.

Definition not_following : follower := Follower None false 0.

Definition load (what : string) (f : follower) (seen : sighting) : follower :=
  match seen with
  | Absent => if f_present f then Follower (Some []) false 0 else f
  | Unreadable mtime => f
  | Present mtime decoded =>
      if f_present f && bool_decide (mtime = f_last f) then f
      else match Parse decoded what with
           | Err _ => f
           | Ok entries => Follower (Some entries) true mtime
           end
  end.

Definition follow (what : string) (seen : list sighting) : follower :=
  foldl (load what) not_following seen.
End Lists.
Arguments sighting : clear implicits.
Arguments follower : clear implicits.

(** ** Lemmas *)

(** An entry that names its component and has a digest. *)
Definition entry_ok `{Entry E} (e : E) : Prop :=
  trim_space (k_tenant (entry_key e)) ≠ "" ∧ trim_space (k_component (entry_key e)) ≠ ""
  ∧ hashPattern (k_hash (entry_key e)) = true.

Definition hashes `{Entry E} (entries : list E) : list string := (λ e, k_hash (entry_key e)) <$> entries.

Section Lemmas.
Context {E : Type} `{Entry E}.

Lemma check_from_iff what noun extra i seen (entries : list E) :
  check_from what noun extra i seen entries = Ok tt ↔
  (∀ j e, entries !! j = Some e → entry_ok e ∧ extra (i + j) e = Ok tt)
  ∧ NoDup (hashes entries) ∧ (∀ h, h ∈ hashes entries → h ∉ seen).
Proof.
  revert i seen. induction entries as [|e rest IH]; intros i seen; simpl.
  { split; [|done]. intros _. split; [by intros j e|]. split; [constructor|]. intros h. by rewrite elem_of_nil. }
  split.
  - case_bool_decide as Ht; [done|]. case_bool_decide as Hc; [done|]. simpl.
    destruct (hashPattern _) eqn:Hh; [|done]. simpl.
    intros ([] & Hx & Hrun)%bind_Ok. case_bool_decide as Hs; [done|].
    apply IH in Hrun as (Hall & Hnd & Hnew). split; [|split].
    + intros [|j] e' Hj; simpl in Hj; [simplify_eq; rewrite Nat.add_0_r; done|].
      rewrite <-Nat.add_succ_comm. by apply Hall.
    + constructor; [|done]. intros Hin. apply Hnew in Hin. set_solver.
    + intros h. rewrite elem_of_cons. intros [->|Hin]; [done|]. apply Hnew in Hin. set_solver.
  - intros (Hall & Hnd & Hnew). apply NoDup_cons in Hnd as [Hfresh Hnd].
    destruct (Hall 0 e eq_refl) as [(Ht & Hc & Hh) Hx]. rewrite Nat.add_0_r in Hx.
    rewrite (bool_decide_eq_false_2 (_ = "") Ht), (bool_decide_eq_false_2 (_ = "") Hc), Hh, Hx. simpl.
    rewrite bool_decide_eq_false_2 by (apply Hnew; by left).
    apply IH. split; [|split; [done|]].
    + intros j e' Hj. rewrite Nat.add_succ_comm. by apply (Hall (S j)).
    + intros h Hin. rewrite elem_of_union, elem_of_singleton. intros [->|Hs]; [done|].
      apply (Hnew h); [by right|done].
Qed.

Lemma Check_iff (entries : list E) what noun extra :
  Check entries what noun extra = Ok tt ↔
  (∀ i e, entries !! i = Some e → entry_ok e ∧ extra i e = Ok tt) ∧ NoDup (hashes entries).
Proof. unfold Check. rewrite check_from_iff. simpl. set_solver. Qed.

(** With every digest once, the last match is the only one. *)
Lemma Find_fold (entries : list E) key e0 e :
  NoDup (hashes entries) →
  foldl (λ found e, if bool_decide (Hash key = k_hash (entry_key e)) then Some e else found) e0 entries = Some e
  ↔ (e ∈ entries ∧ k_hash (entry_key e) = Hash key)
    ∨ (e0 = Some e ∧ Hash key ∉ hashes entries).
Proof.
  revert e0. induction entries as [|x rest IH]; intros e0; simpl.
  { intros _. rewrite !elem_of_nil. tauto. }
  change (hashes (x :: rest)) with (k_hash (entry_key x) :: hashes rest).
  intros [Hfresh Hnd]%NoDup_cons. rewrite IH by done. rewrite !elem_of_cons.
  assert (∀ y, y ∈ rest → k_hash (entry_key y) ∈ hashes rest) as Hin
    by (intros y Hy; apply (list_elem_of_fmap_2 (λ e, k_hash (entry_key e)) rest y Hy)).
  case_bool_decide as Hx.
  - rewrite <-Hx in Hfresh. split.
    + intros [[? ?]|[[= ->] ?]]; [tauto|]. left. split; [by left|done].
    + intros [[[->|Hy] Hh]|[_ Hno]]; [by right|tauto|]. destruct Hno. by left.
  - split; [tauto|]. intros [[[->|Hy] Hh]|?]; [by rewrite Hh in Hx|tauto|tauto].
Qed.

Lemma Find_iff (entries : list E) key e :
  NoDup (hashes entries) →
  Find entries key = Some e ↔ key ≠ "" ∧ e ∈ entries ∧ k_hash (entry_key e) = Hash key.
Proof.
  intros Hnd. unfold Find. case_bool_decide as Hk; [split; [done|tauto]|].
  rewrite (Find_fold entries key None e Hnd). split; [|tauto]. intros [?|[? _]]; [tauto|done].
Qed.

(** *** Following a file *)

(** The same modification time is the same file. *)
Definition coherent (seen : list (sighting E)) : Prop :=
  ∀ m d d', Present m d ∈ seen → Present m d' ∈ seen → d = d'.

(** What a service that read the file at every look would hold. *)
Definition reread (what : string) (l : list E) (s : sighting E) : list E :=
  match s with
  | Absent => []
  | Unreadable _ => l
  | Present _ d => match Parse d what with Ok entries => entries | Err _ => l end
  end.

Lemma follow_invariant what (seen : list (sighting E)) :
  coherent seen →
  let f := follow what seen in
  default [] (f_held f) = foldl (reread what) [] seen
  ∧ if f_present f
    then ∃ d entries, Present (f_last f) d ∈ seen ∧ Parse d what = Ok entries ∧ f_held f = Some entries
    else default [] (f_held f) = [].
Proof.
  induction seen as [|s seen IH] using rev_ind; [done|]. intros Hco.
  destruct IH as [Hheld Hp]; [intros m d d' Hd Hd'; apply (Hco m d d'); apply elem_of_app; by left|].
  unfold follow in *. rewrite !foldl_app. simpl. set (f := foldl _ _ seen) in *.
  assert (∀ x, x ∈ seen → x ∈ seen ++ [s]) as Hsub by set_solver.
  destruct s as [|m|m d]; simpl.
  - destruct (f_present f) eqn:Hpres; simpl; [done|]. by rewrite Hpres, Hp.
  - split; [done|]. destruct (f_present f); [|done]. destruct Hp as (d & es & Hin & ?). exists d, es. split; [by apply Hsub|done].
  - destruct (f_present f) eqn:Hpres; simpl.
    + destruct Hp as (d0 & es & Hin & Hparse & Hes). case_bool_decide as Hm.
      * rewrite Hpres. subst m. assert (d = d0) as -> by (apply (Hco (f_last f)); set_solver).
        rewrite Hparse, Hes. split; [done|]. exists d0, es. split; [by apply Hsub|done].
      * destruct (Parse d what) as [es'|] eqn:Hd; simpl.
        -- split; [done|]. exists d, es'. split; [set_solver|done].
        -- rewrite Hpres. split; [done|]. exists d0, es. split; [by apply Hsub|done].
    + destruct (Parse d what) as [es'|] eqn:Hd; simpl.
      * split; [done|]. exists d, es'. split; [set_solver|done].
      * by rewrite Hpres.
Qed.
End Lemmas.

(** ** Properties *)

(** A list is accepted exactly when every entry names a tenant and a component,
    has a digest of 64 hexadecimal digits, passes what else its service asks,
    and shares its digest with no other entry; and in an accepted list a key is
    recognised as an entry's exactly when it is not empty and its digest is the
    entry's. *)
Theorem Check_then_Find {E} `{Entry E} (entries : list E) (what noun : string)
    (extra : nat → E → result unit) :
  (Check entries what noun extra = Ok tt ↔
   (∀ i e, entries !! i = Some e → entry_ok e ∧ extra i e = Ok tt) ∧ NoDup (hashes entries))
  ∧ (Check entries what noun extra = Ok tt →
     ∀ key e, Find entries key = Some e ↔ key ≠ "" ∧ e ∈ entries ∧ k_hash (entry_key e) = Hash key).
Proof.
  split; [apply Check_iff|]. intros [_ Hnd]%Check_iff key e. by apply Find_iff.
Qed.

Lemma Check_then_Find_witness :
  let crm := mkKey "acme" "crm" (Hash "secret") in
  Check [mkKey "acme" "mail" (Hash "other"); crm] "list" "entry" (λ _ _, Ok tt) = Ok tt
  ∧ (Find [mkKey "acme" "mail" (Hash "other"); crm] "secret" = Some crm
     ↔ "secret" ≠ "" ∧ crm ∈ [mkKey "acme" "mail" (Hash "other"); crm] ∧ k_hash (entry_key crm) = Hash "secret").
Proof.
  split; [vm_compute; reflexivity|].
  apply (Check_then_Find _ "list" "entry" (λ _ _, Ok tt)). vm_compute. reflexivity.
Defined.

(** A service that follows the file holds, after any sequence of looks at it,
    the list of the last look that read one, or none when the file was last seen
    gone: the same as if it read the file at every look, although it reads only
    when the modification time moved.  A file that does not parse never costs a
    component its key. *)
Theorem follow_rereads {E} `{Entry E} (what : string) (seen : list (sighting E)) :
  coherent seen → default [] (f_held (follow what seen)) = foldl (reread what) [] seen.
Proof. intros Hco. by apply follow_invariant. Qed.

Lemma follow_rereads_witness :
  let crm := mkKey "acme" "crm" (Hash "secret") in
  default [] (f_held (follow "keys" [Present 1 (Ok [crm]); Present 1 (Ok [crm]); Unreadable 2; Present 3 (Ok [crm; crm])]))
  = [crm].
Proof.
  intros crm. etransitivity; [apply follow_rereads|vm_compute; reflexivity].
  intros m d d' Hd Hd'. rewrite !elem_of_cons, elem_of_nil in Hd. rewrite !elem_of_cons, elem_of_nil in Hd'.
  destruct Hd as [Hd|[Hd|[Hd|[Hd|[]]]]]; destruct Hd' as [Hd'|[Hd'|[Hd'|[Hd'|[]]]]]; congruence.
Defined.
