(* ===== verification/RouteTable.v ===== *)
(** * The edge's route table

    [internal/bouncer/table.go] and [cookies.go], and the list of checkers of
    [check.go]: the table the operator writes, what of it is accepted, which
    route a request's host has, which paths a route refuses, and a Cookie header
    without the session's cookies.  A decoded table stands for the file's bytes;
    [net/url]'s parser is the parameter [url_parse]. *)

From S2P Require Import Prelude.
From S2P Require Import GoStrings.
From S2P Require Import Ids.
From S2P Require Import ComponentKeys.

(** ** Routes *)

Record Route := mkRoute {
  rt_host : string; rt_relation : string; rt_object : string; rt_auth_mode : string;
  rt_keep_client_token : bool; rt_id_token_session : bool; rt_id_token_audience : string;
  rt_forward_token : bool; rt_exchange_scope : string; rt_deny_paths : list string;
  rt_session_cookies : list string; rt_session_cookie_prefixes : list string;
  rt_denied_redirect : string }.

Definition AuthModeOIDC : string := "oidc".
Definition AuthModeBearer : string := "bearer".

(** [pathOnly] of [decider.go]; [Denies] drops the query and the fragment the same way. *)
Definition pathOnly (path : string) : string := before_any path "?#".

Definition Denies (r : Route) (path : string) : bool :=
  let path := pathOnly path in
  existsb (λ d,
    if bool_decide (d = "") then false
    else if bool_decide (d = "/") then true
    else let d := trim_suffix_byte d "/" in
         bool_decide (path = d) || has_prefix path (d +:+ "/")) (rt_deny_paths r).

(** ** Checkers *)

Record CheckerAudit := mkCheckerAudit { ca_cluster : string; ca_realm : string }.
Record Checker := mkChecker { ck_key : Key; ck_audit : option CheckerAudit }.
#[global] Instance Checker_entry : Entry Checker := ck_key.

Definition checker_extra (i : nat) (c : Checker) : result unit :=
  match ck_audit c with
  | None => Ok tt
  | Some a =>
      if negb (is_ok (HolderUser (ca_realm a) "x")) || bool_decide (trim_space (ca_cluster a) = "")
         || contains_any (ca_cluster a) ":#/ "
      then Err (Errorf "route table: checker %d (%s/%s) asks the audit questions and needs a cluster and a realm"
                  [pretty i; k_tenant (ck_key c); k_component (ck_key c)])
      else Ok tt
  end.

Definition validateCheckers (checkers : list Checker) : result unit :=
  Check checkers "route table" "checker" checker_extra.

(** ** The table *)

Record Table := mkTable { tb_routes : list Route; tb_checkers : list Checker }.

(** What [url.Parse] says of an address: its scheme, its host, and whether it
    names a user. *)
Record url := mkUrl { u_scheme : string; u_host : string; u_user : bool }.
Class Urls := url_parse : string → result url.

Definition normalisePaths (paths : list string) : list string :=
  paths ≫= λ p,
    let p := trim_space p in
    if bool_decide (p = "") then []
    else if has_prefix p "/" then [p] else ["/" +:+ p].

Section ParseTable.
Context `{Unicode} `{Urls}.

Definition route_error (format : string) (i : nat) (r : Route) : error :=
  Errorf format [pretty i; rt_host r].

(** One entry of the table: refused, or as it is kept. *)
Definition parse_route (i : nat) (seen : gset string) (r : Route) : result Route :=
  let host := to_lower (trim_space (rt_host r)) in
  if bool_decide (host = "") || bool_decide (rt_relation r = "") || bool_decide (rt_object r = "")
  then Err (route_error "route table: entry %d (%q) needs host, relation and object" i r)
  else if negb (bool_decide (rt_auth_mode r = AuthModeOIDC)) && negb (bool_decide (rt_auth_mode r = AuthModeBearer))
  then Err (route_error "route table: entry %d (%q) needs authMode oidc or bearer" i r)
  else if negb (bool_decide (rt_exchange_scope r = ""))
          && (negb (bool_decide (rt_auth_mode r = AuthModeOIDC)) || rt_forward_token r
              || rt_keep_client_token r || rt_id_token_session r)
  then Err (route_error "route table: entry %d (%q) exchanges a token only behind a session, and hands on one token" i r)
  else if bool_decide (host ∈ seen)
  then Err (Errorf "route table: host %q listed twice" [host])
  else if existsb (λ n, bool_decide (trim_space n = "")) (rt_session_cookies r ++ rt_session_cookie_prefixes r)
  then Err (route_error "route table: entry %d (%q) names an empty session cookie" i r)
  else if negb (bool_decide (rt_denied_redirect r = ""))
          && (negb (bool_decide (rt_auth_mode r = AuthModeOIDC))
              || match url_parse (rt_denied_redirect r) with
                 | Err _ => true
                 | Ok u => negb (bool_decide (u_scheme u = "https")) || bool_decide (u_host u = "") || u_user u
                 end)
  then Err (route_error "route table: entry %d (%q) sends a refusal only from a session route to an https address" i r)
  else Ok (mkRoute host (rt_relation r) (rt_object r) (rt_auth_mode r)
             (rt_keep_client_token r) (rt_id_token_session r) (rt_id_token_audience r)
             (rt_forward_token r) (rt_exchange_scope r) (normalisePaths (rt_deny_paths r))
             (rt_session_cookies r) (rt_session_cookie_prefixes r) (rt_denied_redirect r)).

Fixpoint parse_routes (i : nat) (seen : gset string) (routes : list Route) : result (list Route) :=
  match routes with
  | [] => Ok []
  | r :: rest =>
      r' ← parse_route i seen r;
      rest' ← parse_routes (S i) ({[rt_host r']} ∪ seen) rest;
      Ok (r' :: rest')
  end.

Definition ParseTable (decoded : result Table) : result Table :=
  t ← wrap "route table: %w" [] decoded;
  routes ← parse_routes 0 ∅ (tb_routes t);
  _ ← validateCheckers (tb_checkers t);
  Ok (mkTable routes (tb_checkers t)).

(** A request's host as the table names hosts: in lower case, without a port. *)
Definition request_host (host : string) : string :=
  let host := to_lower host in
  match cut_last host ":" with
  | Some (h, rest) => if negb (bool_decide (h = "")) && negb (contains_byte rest "]") then h else host
  | None => host
  end.

Definition Match (t : option Table) (host : string) : option Route :=
  match t with
  | None => None
  | Some t => List.find (λ r, bool_decide (rt_host r = request_host host)) (tb_routes t)
  end.
End ParseTable.

(** ** Cookies *)

Definition HeaderCookie : string := "cookie".
Definition tab : string := String "009" "".

Definition ownsCookie (r : Route) (name : string) : bool :=
  existsb (λ n, bool_decide (name = n)) (rt_session_cookies r)
  || existsb (has_prefix name) (rt_session_cookie_prefixes r).

(** A piece of the header that is one of the edge's cookies. *)
Definition owned_piece (r : Route) (piece : string) : bool :=
  match cut piece "=" with
  | Some (name, _) => ownsCookie r (trim name (" " +:+ tab))
  | None => false
  end.

Definition withoutSessionCookies (r : Route) (header : string) : string * bool :=
  if bool_decide (header = "")
     || (bool_decide (rt_session_cookies r = []) && bool_decide (rt_session_cookie_prefixes r = []))
  then (header, false)
  else
    let pieces := split header ";" in
    let kept := filter (λ p, owned_piece r p = false) pieces in
    if existsb (owned_piece r) pieces
    then (trim_left (join kept ";") (" " +:+ tab), true)
    else (header, false).

(** ** Lemmas *)

(** Below a path, by segments. *)
Lemma below_iff d path :
  bool_decide (path = d) || has_prefix path (d +:+ "/") = true
  ↔ split d "/" `prefix_of` split path "/".
Proof.
  rewrite orb_true_iff, bool_decide_eq_true, has_prefix_spec. split.
  - intros [->|(r & ->)]; [done|].
    rewrite app_assoc_str. change ("/" +:+ r) with (String "/" r). rewrite split_app. by eexists.
  - intros (rest & Hrest). rewrite <-(join_split path "/"), <-(join_split d "/"), Hrest.
    destruct rest as [|p rest]; [left; by rewrite app_nil_r|right]. exists (join (p :: rest) "/").
    rewrite join_app by (done || apply split_nonempty). by rewrite app_assoc_str.
Qed.

Lemma Denies_iff r path :
  Denies r path = true ↔
  ∃ d, d ∈ rt_deny_paths r ∧ d ≠ "" ∧
    (d = "/" ∨ split (trim_suffix_byte d "/") "/" `prefix_of` split (pathOnly path) "/").
Proof.
  unfold Denies. rewrite existsb_elem_of.
  split; intros (d & Hin & Hd); exists d; (split; [exact Hin|]); revert Hd.
  all: case_bool_decide as Hd; [done || tauto|]; case_bool_decide as Hs; [done || tauto|].
  all: rewrite below_iff; tauto.
Qed.

(** *** Parsing *)

Section Parsing.
Context `{Unicode} `{Urls}.

(** What an accepted route is. *)
Definition route_ok (r : Route) : Prop :=
  rt_host r ≠ "" ∧ rt_relation r ≠ "" ∧ rt_object r ≠ ""
  ∧ (rt_auth_mode r = AuthModeOIDC ∨ rt_auth_mode r = AuthModeBearer)
  ∧ (rt_exchange_scope r ≠ "" → rt_auth_mode r = AuthModeOIDC ∧ rt_forward_token r = false
      ∧ rt_keep_client_token r = false ∧ rt_id_token_session r = false)
  ∧ (∀ n, n ∈ rt_session_cookies r ++ rt_session_cookie_prefixes r → trim_space n ≠ "")
  ∧ (∀ d, d ∈ rt_deny_paths r → has_prefix d "/" = true)
  ∧ (rt_denied_redirect r ≠ "" → rt_auth_mode r = AuthModeOIDC ∧ ∃ u,
      url_parse (rt_denied_redirect r) = Ok u ∧ u_scheme u = "https" ∧ u_host u ≠ "" ∧ u_user u = false).

Lemma normalisePaths_slash paths d : d ∈ normalisePaths paths → has_prefix d "/" = true.
Proof.
  unfold normalisePaths. intros (p & Hd & _)%list_elem_of_bind. revert Hd.
  case_bool_decide; [by rewrite elem_of_nil|]. destruct (has_prefix (trim_space p) "/") eqn:Hp;
    rewrite list_elem_of_singleton; intros ->; [done|]. apply has_prefix_spec. by eexists.
Qed.

Lemma parse_route_Ok i seen r r' :
  parse_route i seen r = Ok r' →
  route_ok r' ∧ rt_host r' = to_lower (trim_space (rt_host r)) ∧ (rt_host r' ∉ seen)
  ∧ rt_relation r' = rt_relation r ∧ rt_object r' = rt_object r.
Proof.
  unfold parse_route. intros Hrun.
  destruct (bool_decide (to_lower _ = "") || _ || _) eqn:H1; [done|].
  destruct (negb (bool_decide (rt_auth_mode r = AuthModeOIDC)) && _) eqn:H2; [done|].
  destruct (negb (bool_decide (rt_exchange_scope r = "")) && _) eqn:H3; [done|].
  case_bool_decide as H4; [done|].
  destruct (existsb _ _) eqn:H5; [done|].
  destruct (negb (bool_decide (rt_denied_redirect r = "")) && _) eqn:H6; [done|].
  injection Hrun as <-. simpl. split; [|done].
  rewrite !orb_false_iff, !bool_decide_eq_false in H1. destruct H1 as [[Hh Hr] Ho].
  rewrite andb_false_iff, !negb_false_iff, !bool_decide_eq_true in H2.
  rewrite existsb_false_elem_of in H5. setoid_rewrite bool_decide_eq_false in H5.
  split; [done|]. split; [done|]. split; [done|]. split; [done|]. split; [|split; [done|]].
  - simpl. intros Hx. rewrite (bool_decide_eq_false_2 (_ = "") Hx) in H3. simpl in H3.
    rewrite !orb_false_iff, negb_false_iff, bool_decide_eq_true in H3. tauto.
  - split; [apply normalisePaths_slash|]. simpl.
    intros Hx. rewrite (bool_decide_eq_false_2 (_ = "") Hx) in H6. simpl in H6.
    apply orb_false_iff in H6 as [Hm Hu]. apply negb_false_iff, bool_decide_eq_true in Hm.
    split; [done|]. destruct (url_parse _) as [u|]; [|done]. exists u.
    rewrite !orb_false_iff, negb_false_iff, bool_decide_eq_true, bool_decide_eq_false in Hu. tauto.
Qed.

Lemma parse_routes_Ok i seen routes routes' :
  parse_routes i seen routes = Ok routes' →
  Forall route_ok routes'
  ∧ rt_host <$> routes' = (λ r, to_lower (trim_space (rt_host r))) <$> routes
  ∧ NoDup (rt_host <$> routes') ∧ (∀ h, h ∈ rt_host <$> routes' → h ∉ seen).
Proof.
  revert i seen routes'. induction routes as [|r rest IH]; intros i seen routes' Hrun; simpl in Hrun.
  { simplify_eq. split; [constructor|]. split; [done|]. split; [constructor|]. intros h. by rewrite elem_of_nil. }
  apply bind_Ok in Hrun as (r' & Hr & Hrun). apply bind_Ok in Hrun as (rest' & Hrest & [= <-]).
  apply parse_route_Ok in Hr as (Hok & Hhost & Hnew & _). apply IH in Hrest as (Hall & Hhosts & Hnd & Hfresh).
  rewrite !fmap_cons. split; [by constructor|]. split; [by rewrite Hhosts, Hhost|]. split.
  - constructor; [|done]. intros Hin. apply Hfresh in Hin. set_solver.
  - intros h. rewrite elem_of_cons. intros [->|Hin]; [done|]. apply Hfresh in Hin. set_solver.
Qed.

Lemma ParseTable_Ok decoded t :
  ParseTable decoded = Ok t →
  ∃ t0, decoded = Ok t0
  ∧ Forall route_ok (tb_routes t)
  ∧ rt_host <$> tb_routes t = (λ r, to_lower (trim_space (rt_host r))) <$> tb_routes t0
  ∧ NoDup (rt_host <$> tb_routes t)
  ∧ tb_checkers t = tb_checkers t0 ∧ validateCheckers (tb_checkers t) = Ok tt.
Proof.
  intros (t0 & ->%wrap_Ok & Hrun)%bind_Ok. apply bind_Ok in Hrun as (routes & Hr & Hrun).
  apply bind_Ok in Hrun as ([] & Hc & [= <-]). apply parse_routes_Ok in Hr as (Hall & Hhosts & Hnd & _).
  by exists t0.
Qed.

Lemma Match_iff t host r :
  NoDup (rt_host <$> tb_routes t) →
  Match (Some t) host = Some r ↔ r ∈ tb_routes t ∧ rt_host r = request_host host.
Proof.
  intros Hnd. simpl. generalize (request_host host). intros h. split.
  - intros [Hin Hh%bool_decide_eq_true]%find_elem_of. done.
  - intros [Hin Hh]. induction (tb_routes t) as [|r0 routes IH]; [by apply elem_of_nil in Hin|]. simpl.
    apply NoDup_cons in Hnd as [Hfresh Hnd]. apply elem_of_cons in Hin as [->|Hin].
    + by rewrite bool_decide_eq_true_2.
    + case_bool_decide as Hr0; [|by apply IH]. destruct Hfresh. rewrite Hr0, <-Hh.
      by apply (list_elem_of_fmap_2 rt_host).
Qed.
End Parsing.

(** *** Cookies *)

Definition spaces : string := " " +:+ tab.

Lemma trim_left_contains s cs c : contains_byte s c = false → contains_byte (trim_left s cs) c = false.
Proof.
  induction s as [|d s IH]; [done|]. simpl. rewrite contains_byte_cons. intros [Hd Hs]%orb_false_iff.
  destruct (char_in d cs); [by apply IH|]. by rewrite contains_byte_cons, Hd.
Qed.

Lemma trim_left_idem s cs : trim_left (trim_left s cs) cs = trim_left s cs.
Proof.
  induction s as [|d s IH]; [done|]. simpl. destruct (char_in d cs) eqn:Hd; [done|]. simpl. by rewrite Hd.
Qed.

(** A separator stops the trimming. *)
Lemma trim_left_sep s c r cs :
  char_in c cs = false → trim_left (s +:+ String c r) cs = trim_left s cs +:+ String c r.
Proof.
  intros Hc. induction s as [|d s IH].
  - rewrite app_empty_l. simpl. by rewrite Hc.
  - rewrite app_cons. simpl. destruct (char_in d cs); [done|]. by rewrite app_cons.
Qed.

Lemma split_trim_left l :
  l ≠ [] → Forall (λ p, contains_byte p ";" = false) l →
  split (trim_left (join l ";") spaces) ";"
  = match l with [] => [] | p :: ps => trim_left p spaces :: ps end.
Proof.
  intros Hne Hl. destruct Hl as [|p ps Hp Hps]; [done|]. destruct ps as [|q ps].
  - simpl. by apply split_no_sep, trim_left_contains.
  - rewrite join_cons, trim_left_sep by done.
    rewrite split_app_sep by by apply trim_left_contains. f_equal. by apply split_join.
Qed.

(** Whose a cookie is does not depend on the blanks before its name. *)
Lemma trim_left_cut p a b :
  cut p "=" = Some (a, b) → cut (trim_left p spaces) "=" = Some (trim_left a spaces, b).
Proof.
  intros [-> Ha]%cut_Some. change ("=" +:+ b) with (String "=" b).
  rewrite trim_left_sep by done. by apply cut_app, trim_left_contains.
Qed.

Lemma trim_left_cut_None p : cut p "=" = None → cut (trim_left p spaces) "=" = None.
Proof. rewrite !cut_None. apply trim_left_contains. Qed.

Lemma owned_trim_left r p : owned_piece r (trim_left p spaces) = owned_piece r p.
Proof.
  unfold owned_piece. destruct (cut p "=") as [[a b]|] eqn:Hcut.
  - rewrite (trim_left_cut _ _ _ Hcut). unfold trim. fold spaces. by rewrite trim_left_idem.
  - by rewrite trim_left_cut_None.
Qed.

Definition kept_pieces (r : Route) (header : string) : list string :=
  filter (λ p, owned_piece r p = false) (split header ";").

Lemma withoutSessionCookies_spec r header out changed :
  withoutSessionCookies r header = (out, changed) →
  changed = existsb (owned_piece r) (split header ";")
  ∧ if changed
    then split out ";" = match kept_pieces r header with
                         | [] => [""]
                         | p :: ps => trim_left p spaces :: ps
                         end
    else out = header.
Proof.
  unfold withoutSessionCookies. intros Hrun.
  destruct (bool_decide (header = "") || _) eqn:Hempty.
  - injection Hrun as <- <-. split; [|done]. symmetry. apply existsb_false_elem_of. intros p Hp.
    rewrite orb_true_iff, andb_true_iff, !bool_decide_eq_true in Hempty. unfold owned_piece, ownsCookie.
    destruct Hempty as [->|[Hc Hpre]].
    + simpl in Hp. apply list_elem_of_singleton in Hp. by subst.
    + rewrite Hc, Hpre. by destruct (cut p "=") as [[? ?]|].
  - destruct (existsb (owned_piece r) (split header ";")) eqn:Hany; injection Hrun as <- <-; [|done].
    split; [done|]. fold (kept_pieces r header) spaces.
    destruct (kept_pieces r header) as [|p ps] eqn:Hk; [done|].
    rewrite split_trim_left; [done|done|]. rewrite <-Hk. unfold kept_pieces.
    apply Forall_forall. intros x [_ Hx]%list_elem_of_filter.
    pose proof (split_clean header ";") as Hclean. rewrite Forall_forall in Hclean. by apply Hclean.
Qed.

Lemma cookies_clean r header p :
  p ∈ split (withoutSessionCookies r header).1 ";" → owned_piece r p = false.
Proof.
  destruct (withoutSessionCookies r header) as [out changed] eqn:Hrun. simpl.
  apply withoutSessionCookies_spec in Hrun as [Hc Hout]. intros Hp. destruct changed.
  - rewrite Hout in Hp. unfold kept_pieces in Hp.
    destruct (filter _ _) as [|q qs] eqn:Hk; [by apply list_elem_of_singleton in Hp; subst|].
    assert (∀ x, x ∈ q :: qs → owned_piece r x = false) as Hall
      by (intros x; rewrite <-Hk; by intros [? _]%list_elem_of_filter).
    apply elem_of_cons in Hp as [->|Hp]; [rewrite owned_trim_left|]; apply Hall; set_solver.
  - rewrite Hout in Hp. symmetry in Hc. rewrite existsb_false_elem_of in Hc. by apply Hc.
Qed.

(** ** Properties *)

(** A table that is accepted names each host once, in lower case, with a
    relation, an object and a mode; it exchanges a token only behind a session
    and then hands on no other, sends a refusal only to an https address, and
    names no empty cookie.  A request has the route of its host, without the
    port and whatever its case, and no route otherwise. *)
Theorem ParseTable_then_Match `{Unicode} `{Urls} (decoded : result Table) (t : Table) :
  ParseTable decoded = Ok t →
  Forall route_ok (tb_routes t)
  ∧ NoDup (rt_host <$> tb_routes t)
  ∧ validateCheckers (tb_checkers t) = Ok tt
  ∧ ∀ host r, Match (Some t) host = Some r ↔ r ∈ tb_routes t ∧ rt_host r = request_host host.
Proof.
  intros (t0 & -> & Hok & _ & Hnd & _ & Hc)%ParseTable_Ok. split; [done|]. split; [done|]. split; [done|].
  intros host r. by apply Match_iff.
Qed.

Module TableExample.
#[export] Instance ascii_only : Unicode := λ s, s.
(** A parser that knows one address. *)
#[export] Instance one_address : Urls := λ s,
  if bool_decide (s = "https://home.acme.example/") then Ok (mkUrl "https" "home.acme.example" false)
  else Err (Sentinel "parse").
Definition route (host : string) : Route :=
  mkRoute host "can_use" "app:acme/crm" "oidc" false false "" false "crm" ["admin"; " "] ["IdToken"] ["BearerToken-"]
    "https://home.acme.example/".
Definition decoded : result Table := Ok (mkTable [route " CRM.acme.example"; route "mail.acme.example"] []).
Definition table : Table :=
  mkTable [mkRoute "crm.acme.example" "can_use" "app:acme/crm" "oidc" false false "" false "crm" ["/admin"]
             ["IdToken"] ["BearerToken-"] "https://home.acme.example/";
           mkRoute "mail.acme.example" "can_use" "app:acme/crm" "oidc" false false "" false "crm" ["/admin"]
             ["IdToken"] ["BearerToken-"] "https://home.acme.example/"] [].
End TableExample.

#[local] Existing Instance TableExample.ascii_only.
#[local] Existing Instance TableExample.one_address.

Lemma ParseTable_then_Match_witness :
  request_host "CRM.acme.example:443" = "crm.acme.example"
  ∧ (Forall route_ok (tb_routes TableExample.table)
     ∧ NoDup (rt_host <$> tb_routes TableExample.table)
     ∧ validateCheckers (tb_checkers TableExample.table) = Ok tt
     ∧ ∀ host r, Match (Some TableExample.table) host = Some r
         ↔ r ∈ tb_routes TableExample.table ∧ rt_host r = request_host host).
Proof.
  split; [vm_compute; reflexivity|].
  apply (ParseTable_then_Match TableExample.decoded). vm_compute. reflexivity.
Defined.

(** A path is refused by its segments: exactly when the route denies the root
    or the segments of an entry, a trailing slash aside, are the first of the
    path's (its query and fragment dropped); so what is denied is denied with
    everything below it, and a longer segment is not. *)
Theorem Denies_by_segments (r : Route) (path : string) :
  (Denies r path = true ↔
   ∃ d, d ∈ rt_deny_paths r ∧ d ≠ "" ∧
     (d = "/" ∨ split (trim_suffix_byte d "/") "/" `prefix_of` split (pathOnly path) "/"))
  ∧ ∀ below, contains_any path "?#" = false → Denies r path = true →
      Denies r (path +:+ "/" +:+ below) = true.
Proof.
  split; [apply Denies_iff|]. intros below Hp. rewrite !Denies_iff.
  intros (d & Hin & Hd & Hpre). exists d. split; [done|]. split; [done|].
  destruct Hpre as [->|Hpre]; [by left|right]. unfold pathOnly in *. rewrite before_any_id in Hpre by done.
  etransitivity; [exact Hpre|].
  assert (∃ x, before_any (path +:+ "/" +:+ below) "?#" = path +:+ String "/" x) as (x & ->).
  { exists (before_any below "?#"). rewrite before_any_app by done. f_equal. }
  rewrite split_app. by eexists.
Qed.

Lemma Denies_by_segments_witness :
  Denies (TableExample.route "h") "/administrators?x" = false
  ∧ Denies (mkRoute "h" "" "" "" false false "" false "" ["/admin/"] [] [] "") "/admin/users" = true.
Proof.
  split; [reflexivity|]. apply (Denies_by_segments _ "/admin"); reflexivity.
Defined.

(** No session cookie goes on to the backend, and no other cookie is lost.  The
    header that leaves has none of the edge's cookies; when it held none it
    leaves as it came, and otherwise its pieces are the others, in order and as
    they were but for the blanks in front of the first. *)
Theorem withoutSessionCookies_removes (r : Route) (header : string) :
  let out := (withoutSessionCookies r header).1 in
  let changed := (withoutSessionCookies r header).2 in
  (∀ p, p ∈ split out ";" → owned_piece r p = false)
  ∧ changed = existsb (owned_piece r) (split header ";")
  ∧ if changed
    then split out ";" = match filter (λ p, owned_piece r p = false) (split header ";") with
                         | [] => [""]
                         | p :: ps => trim_left p (" " +:+ tab) :: ps
                         end
    else out = header.
Proof.
  intros out changed. split; [apply cookies_clean|].
  apply withoutSessionCookies_spec. unfold out, changed. apply surjective_pairing.
Qed.
