(* ===== verification/Authn.v ===== *)
(** * Who is asking

    [internal/director/authn/authn.go] and [delegated.go]: a token is believed
    only after its signature was checked against the published keys of the realm
    it names, and the realm is one of the configured base's.  The JWT library is
    the parameter [Jose]; Keycloak's key endpoint is the argument [fetch] of the
    operations that may call it. *)

From S2P Require Import Prelude.
From S2P Require Import GoStrings.
From S2P Require Import Ids.
From Stdlib Require Import ZArith.

(** ** Identities *)

Record Identity := mkIdentity {
  id_subject : string; id_realm : string; id_issuer : string; id_session : string;
  id_client : string; id_name : string; id_email : string; id_scopes : list string }.

#[global] Instance Identity_eq_dec : EqDecision Identity.
Proof. solve_decision. Defined.

Definition ErrUnauthenticated : error := Sentinel "unauthenticated".
Definition unauthenticated (format : string) (args : list string) : error :=
  Wrapf format args ErrUnauthenticated.
(** A failure reported as [ErrUnauthenticated], its own text only quoted. *)
Definition refuse {A} (format : string) (r : result A) : result A :=
  match r with Ok a => Ok a | Err _ => Err (unauthenticated format []) end.

(** The standard claims of a token and Keycloak's own.  Times are seconds. *)
Record claims := mkClaims {
  c_issuer : string; c_subject : string; c_audience : list string; c_expiry : option Z }.
Record keycloakClaims := mkKeycloakClaims {
  kc_session : string; kc_client : string; kc_name : string; kc_username : string;
  kc_email : string; kc_type : string; kc_scope : string }.

Record jwk := mkJwk { jwk_use : string; jwk_material : string }.

(** ** The JWT library

    [ParseSigned] with the accepted algorithms, the key ids of the headers, the
    claims without and with the signature checked, a key set's keys by id, and
    [ValidateWithLeeway]. *)
Class Jose := {
  token : Type;
  keyset : Type;
  parse_signed : string → result token;
  header_kids : token → list string;
  unsafe_claims : token → result claims;
  verified_claims : token → jwk → result (claims * keycloakClaims);
  keyset_key : keyset → string → list jwk;
  validate : claims → string → string → Z → Z → result unit }.

(** What the library documents: claims are returned only under a key the token is
    signed with, and are the payload's, signature checked or not; a valid token
    has the issuer and the audience expected and is not past its expiry by more
    than the leeway. *)
Class JoseLaws `{Jose} := {
  signed_with : token → jwk → Prop;
  payload : token → claims * keycloakClaims;
  verified_signed tok k c : verified_claims tok k = Ok c → signed_with tok k;
  verified_payload tok k c : verified_claims tok k = Ok c → c = payload tok;
  unsafe_payload tok c : unsafe_claims tok = Ok c → c = (payload tok).1;
  validate_ok c iss aud now leeway exp :
    validate c iss aud now leeway = Ok tt → c_expiry c = Some exp →
    c_issuer c = iss ∧ aud ∈ c_audience c ∧ (now ≤ exp + leeway)%Z }.

(** ** The verifier *)

Section Verifier.
Context `{Jose}.

Record Config := mkConfig { cf_issuer_base : string; cf_jwks_base : string; cf_audience : string }.

(** A realm's keys as last fetched. *)
Record realmKeys := mkRealmKeys { rk_set : keyset; rk_fetched : Z }.

Open Scope Z_scope.
Definition keyTTL : Z := 600.
Definition refetchFloor : Z := 30.
Definition leeway : Z := 30.
Close Scope Z_scope.

(** [^[A-Za-z0-9][A-Za-z0-9_-]{0,62}$]: the same pattern as [holderRealm]'s. *)
Definition realmName (s : string) : bool := holderRealm s.

Definition NewVerifier (cfg : Config) : result Config :=
  let issuer := trim_right (cf_issuer_base cfg) "/" in
  let jwks := trim_right (cf_jwks_base cfg) "/" in
  if bool_decide (issuer = "") then Err (Sentinel "authn: issuer base URL is required")
  else if bool_decide (cf_audience cfg = "")
  then Err (Sentinel "authn: audience is required: a token minted for another service must not be accepted here")
  else Ok (mkConfig issuer (if bool_decide (jwks = "") then issuer else jwks) (cf_audience cfg)).

Definition realmOf (cfg : Config) (issuer : string) : result string :=
  match cut_prefix issuer (cf_issuer_base cfg +:+ "/realms/") with
  | None => Err (unauthenticated "%w: issuer %q is not this platform's" [issuer])
  | Some realm => if realmName realm then Ok realm
                  else Err (unauthenticated "%w: issuer names no valid realm" [])
  end.

Definition find (set : keyset) (kid : string) : option jwk :=
  List.find (λ k, bool_decide (jwk_use k = "") || bool_decide (jwk_use k = "sig")) (keyset_key set kid).

(** [key]: from memory while the set is young and has the id; refused while it is
    too young to ask again; fetched otherwise.  [fetch] is asked for the realm's
    key set. *)
Definition key (fetch : string → result keyset) (now : Z) (ks : gmap string realmKeys) (realm kid : string)
    : gmap string realmKeys * result jwk :=
  let refetch :=
    match fetch realm with
    | Err e => (ks, Err (unauthenticated "%w: keys for realm %q: %v" [realm]))
    | Ok set =>
        (<[realm := mkRealmKeys set now]> ks,
         match find set kid with
         | Some k => Ok k
         | None => Err (unauthenticated "%w: unknown key id" [])
         end)
    end in
  match ks !! realm with
  | Some rk =>
      if bool_decide (now - rk_fetched rk < keyTTL)%Z then
        match find (rk_set rk) kid with
        | Some k => (ks, Ok k)
        | None => if bool_decide (now - rk_fetched rk < refetchFloor)%Z
                  then (ks, Err (unauthenticated "%w: unknown key id" []))
                  else refetch
        end
      else refetch
  | None => refetch
  end.

Definition tokenAccess : string := "Bearer".
Definition tokenID : string := "ID".

(** The kind of token asked for, against the [typ] claim. *)
Definition kind_ok (kind typ : string) : bool :=
  if bool_decide (kind = tokenID) then equal_fold_ascii typ tokenID
  else bool_decide (typ = "") || equal_fold_ascii typ tokenAccess.

(** The rest of [verify], once the key is known. *)
Definition verify_with (cfg : Config) (now : Z) (tok : token) (realm : string) (k : jwk)
    (audience kind : string) : result Identity :=
  '(std, kc) ← refuse "%w: signature: %v" (verified_claims tok k);
  match c_expiry std with
  | None => Err (unauthenticated "%w: token has no expiry" [])
  | Some _ =>
      _ ← refuse "%w: %v" (validate std (cf_issuer_base cfg +:+ "/realms/" +:+ realm) audience now leeway);
      if bool_decide (c_subject std = "") then Err (unauthenticated "%w: token has no subject" [])
      else if negb (kind_ok kind (kc_type kc))
      then Err (unauthenticated (if bool_decide (kind = tokenID) then "%w: token type %q is not an ID token"
                                 else "%w: token type %q is not an access token") [kc_type kc])
      else Ok (mkIdentity (c_subject std) realm (c_issuer std) (kc_session kc) (kc_client kc)
                 (if bool_decide (kc_name kc = "") then kc_username kc else kc_name kc)
                 (kc_email kc) (fields (kc_scope kc)))
  end.

Definition verify (cfg : Config) (fetch : string → result keyset) (now : Z) (ks : gmap string realmKeys)
    (raw audience kind : string) : gmap string realmKeys * result Identity :=
  match parse_signed raw with
  | Err e => (ks, Err (unauthenticated "%w: parse: %v" []))
  | Ok tok =>
      match header_kids tok with
      | [kid] =>
          if bool_decide (kid = "") then (ks, Err (unauthenticated "%w: token names no key" []))
          else match unsafe_claims tok with
               | Err e => (ks, Err (unauthenticated "%w: claims: %v" []))
               | Ok unverified =>
                   match realmOf cfg (c_issuer unverified) with
                   | Err e => (ks, Err e)
                   | Ok realm =>
                       match key fetch now ks realm kid with
                       | (ks', Err e) => (ks', Err e)
                       | (ks', Ok k) => (ks', verify_with cfg now tok realm k audience kind)
                       end
                   end
               end
      | _ => (ks, Err (unauthenticated "%w: token names no key" []))
      end
  end.

Definition Verify (cfg : Config) (fetch : string → result keyset) (now : Z) (ks : gmap string realmKeys) (raw : string)
    : gmap string realmKeys * result Identity :=
  verify cfg fetch now ks raw (cf_audience cfg) tokenAccess.

Definition VerifyIDToken (cfg : Config) (fetch : string → result keyset) (now : Z) (ks : gmap string realmKeys)
    (raw client : string) : gmap string realmKeys * result Identity :=
  if bool_decide (client = "")
  then (ks, Err (unauthenticated "%w: no client to hold the ID token against" []))
  else verify cfg fetch now ks raw client tokenID.

(** [FromRequest], of the Authorization header. *)
Definition FromRequest (cfg : Config) (fetch : string → result keyset) (now : Z) (ks : gmap string realmKeys) (h : string)
    : gmap string realmKeys * result Identity :=
  if (String.length h <=? 7)%nat || negb (equal_fold_ascii (take_str 7 h) "bearer ")
  then (ks, Err (unauthenticated "%w: no bearer token" []))
  else Verify cfg fetch now ks (trim_space (drop_str 7 h)).
End Verifier.

(** ** Delegated tokens *)

Definition delegatedClientPrefix : string := "vouch-".

Definition delegatedRoutes : gmap string (list string) := list_to_map [
  ("GET /v1/clusters/{c}/resource-plans", ["director-plans-read"; "director-plans-apply"]);
  ("PUT /v1/clusters/{c}/tenants/{t}/resources", ["director-plans-apply"]);
  ("GET /v1/clusters/{c}/resources", ["director-plans-read"; "director-plans-apply"]);
  ("GET /v1/clusters/{c}/resources/report", ["director-plans-read"; "director-plans-apply"])].

Definition Delegated (i : Identity) : bool :=
  (String.length delegatedClientPrefix <? String.length (id_client i))%nat
  && bool_decide (take_str (String.length delegatedClientPrefix) (id_client i) = delegatedClientPrefix).

Definition MayCall (i : Identity) (pattern : string) : bool :=
  if negb (Delegated i) then true
  else existsb (λ scope, bool_decide (scope ∈ id_scopes i)) (default [] (delegatedRoutes !! pattern)).

(** ** Lemmas *)

Section Lemmas.
Context `{Hl : JoseLaws}.

Lemma refuse_Ok {A} format (r : result A) a : refuse format r = Ok a ↔ r = Ok a.
Proof. destruct r; simpl; split; congruence. Qed.

Lemma realmOf_Ok cfg issuer realm :
  realmOf cfg issuer = Ok realm ↔
  issuer = cf_issuer_base cfg +:+ "/realms/" +:+ realm ∧ realmName realm = true.
Proof.
  unfold realmOf. split.
  - destruct (cut_prefix _ _) as [r|] eqn:Hc; [|done]. apply cut_prefix_Some in Hc as ->.
    destruct (realmName r) eqn:Hr; [|done]. intros [= ->]. by rewrite app_assoc_str.
  - intros [-> Hr]. rewrite <-app_assoc_str, cut_prefix_app. by rewrite Hr.
Qed.

(** A relation between a realm, a key set it published and when it was read. *)
Definition keys_from (P : string → keyset → Z → Prop) (ks : gmap string realmKeys) : Prop :=
  ∀ realm rk, ks !! realm = Some rk → P realm (rk_set rk) (rk_fetched rk).

Lemma find_keyset set kid k : find set kid = Some k → k ∈ keyset_key set kid.
Proof. by intros [? _]%find_elem_of. Qed.

Lemma key_spec P fetch now ks realm kid :
  keys_from P ks → (∀ set, fetch realm = Ok set → P realm set now) →
  keys_from P (key fetch now ks realm kid).1
  ∧ ∀ k, (key fetch now ks realm kid).2 = Ok k →
      ∃ set t, P realm set t ∧ (now - t < keyTTL)%Z ∧ k ∈ keyset_key set kid.
Proof.
  intros Hks Hfetch.
  assert (let r := match fetch realm with
    | Err e => (ks, Err (unauthenticated "%w: keys for realm %q: %v" [realm]))
    | Ok set => (<[realm := mkRealmKeys set now]> ks,
        match find set kid with Some k => Ok k | None => Err (unauthenticated "%w: unknown key id" []) end)
    end in keys_from P r.1 ∧ ∀ k, r.2 = Ok k →
      ∃ set t, P realm set t ∧ (now - t < keyTTL)%Z ∧ k ∈ keyset_key set kid) as Hre.
  { destruct (fetch realm) as [set|e] eqn:Hf; simpl; [|done]. split.
    - intros r rk [[<- <-]|[_ Hr]]%lookup_insert_Some; [by apply Hfetch|by apply Hks].
    - intros k. destruct (find set kid) as [k'|] eqn:Hk; [|done]. intros [= ->].
      exists set, now. split; [by apply Hfetch|]. split; [unfold keyTTL; lia|by apply find_keyset]. }
  unfold key. destruct (ks !! realm) as [rk|] eqn:Hrk; [|exact Hre].
  case_bool_decide as Hage; [|exact Hre].
  destruct (find (rk_set rk) kid) as [k|] eqn:Hk.
  - simpl. split; [done|]. intros k' [= <-]. exists (rk_set rk), (rk_fetched rk).
    split; [by apply Hks|]. split; [done|by apply find_keyset].
  - case_bool_decide; [done|exact Hre].
Qed.

Lemma verify_with_Ok cfg now tok realm k audience kind id :
  verify_with cfg now tok realm k audience kind = Ok id →
  let c := (payload tok).1 in let kc := (payload tok).2 in
  signed_with tok k
  ∧ c_issuer c = cf_issuer_base cfg +:+ "/realms/" +:+ realm
  ∧ audience ∈ c_audience c
  ∧ (∃ exp, c_expiry c = Some exp ∧ (now ≤ exp + leeway)%Z)
  ∧ c_subject c ≠ "" ∧ kind_ok kind (kc_type kc) = true
  ∧ id_subject id = c_subject c ∧ id_realm id = realm ∧ id_session id = kc_session kc.
Proof.
  unfold verify_with. intros ([std kc] & Hc%refuse_Ok & Hrun)%bind_Ok.
  pose proof (verified_signed _ _ _ Hc) as Hs. apply verified_payload in Hc. rewrite <-Hc. simpl.
  destruct (c_expiry std) as [exp|] eqn:Hexp; [|done].
  apply bind_Ok in Hrun as ([] & Hv%refuse_Ok & Hrun). eapply validate_ok in Hv as (Hi & Ha & Ht); [|exact Hexp].
  case_bool_decide; [done|]. destruct (kind_ok kind (kc_type kc)) eqn:Hk; [|done].
  injection Hrun as <-. simpl. repeat split; try done. by exists exp.
Qed.

Lemma verify_cases cfg fetch now ks raw audience kind id :
  (verify cfg fetch now ks raw audience kind).2 = Ok id →
  ∃ tok kid realm k, parse_signed raw = Ok tok ∧ header_kids tok = [kid] ∧ kid ≠ ""
    ∧ realmName realm = true ∧ (key fetch now ks realm kid).2 = Ok k
    ∧ (verify cfg fetch now ks raw audience kind).1 = (key fetch now ks realm kid).1
    ∧ verify_with cfg now tok realm k audience kind = Ok id.
Proof.
  unfold verify. destruct (parse_signed raw) as [tok|]; [|done].
  destruct (header_kids tok) as [|kid [|? ?]] eqn:Hh; [done| |done].
  case_bool_decide as Hkid; [done|]. destruct (unsafe_claims tok) as [u|]; [|done].
  destruct (realmOf cfg (c_issuer u)) as [realm|] eqn:Hr; [|done]. apply realmOf_Ok in Hr as [_ Hr].
  destruct (key fetch now ks realm kid) as [ks' [k|]] eqn:Hk; [|done]. simpl. intros Hid.
  exists tok, kid, realm, k. by rewrite Hk.
Qed.

(** While a realm's keys are too young to be asked for again, nothing is asked. *)
Lemma key_floor fetch now ks realm kid rk :
  ks !! realm = Some rk → (now - rk_fetched rk < refetchFloor)%Z →
  key fetch now ks realm kid
  = (ks, match find (rk_set rk) kid with Some k => Ok k | None => Err (unauthenticated "%w: unknown key id" []) end).
Proof.
  intros Hrk Hage. unfold key. rewrite Hrk.
  rewrite bool_decide_eq_true_2 by (unfold keyTTL, refetchFloor in *; lia).
  destruct (find (rk_set rk) kid); [done|]. by rewrite bool_decide_eq_true_2.
Qed.

Lemma key_other fetch now ks realm kid realm' :
  realm ≠ realm' → (key fetch now ks realm kid).1 !! realm' = ks !! realm'.
Proof.
  intros Hne. unfold key. destruct (fetch realm); go_cases; simpl; rewrite ?lookup_insert_ne; done.
Qed.

(** A caller's question of the key cache: when, which realm and key, and what the
    realm would answer if it were asked. *)
Record call := mkCall { cl_now : Z; cl_realm : string; cl_kid : string; cl_fetch : string → result keyset }.
Definition ask (ks : gmap string realmKeys) (c : call) : gmap string realmKeys := (key (cl_fetch c) (cl_now c) ks (cl_realm c) (cl_kid c)).1.

Lemma ask_floor calls ks realm rk :
  ks !! realm = Some rk → (∀ c, c ∈ calls → cl_now c - rk_fetched rk < refetchFloor)%Z →
  foldl ask ks calls !! realm = Some rk.
Proof.
  revert ks. induction calls as [|c calls IH]; intros ks Hrk Hall; simpl; [done|].
  apply IH; [|intros; apply Hall; by right]. unfold ask.
  destruct (decide (cl_realm c = realm)) as [<-|Hne]; [|by rewrite key_other].
  rewrite (key_floor _ _ _ _ _ rk); [done|done|]. apply Hall. by left.
Qed.
End Lemmas.

(** ** A JWT library in memory *)

Module ToyJose.
Record tok := mkTok { tk_kid : string; tk_signer : string; tk_claims : claims; tk_kc : keycloakClaims }.
Definition officer : tok :=
  mkTok "k1" "realm-key" (mkClaims "https://id.example/auth/realms/acme" "sub1" ["director"] (Some 1000%Z))
    (mkKeycloakClaims "s1" "desktop" "" "officer" "" "Bearer" "openid profile").
#[export] Instance toy_jose : Jose := {|
  token := tok;
  keyset := list (string * jwk);
  parse_signed raw := if bool_decide (raw = "raw") then Ok officer else Err (Sentinel "malformed");
  header_kids t := [tk_kid t];
  unsafe_claims t := Ok (tk_claims t);
  verified_claims t k := if bool_decide (jwk_material k = tk_signer t) then Ok (tk_claims t, tk_kc t)
                         else Err (Sentinel "signature");
  keyset_key set kid := (filter (λ p, p.1 = kid) set).*2;
  validate c iss aud now leeway :=
    if bool_decide (c_issuer c = iss) && bool_decide (aud ∈ c_audience c)
       && match c_expiry c with Some exp => bool_decide (now ≤ exp + leeway)%Z | None => true end
    then Ok tt else Err (Sentinel "claims") |}.
#[export] Program Instance toy_jose_laws : JoseLaws := {|
  signed_with t k := jwk_material k = tk_signer t;
  payload t := (tk_claims t, tk_kc t) |}.
Next Obligation. simpl. intros t k c. by case_bool_decide. Qed.
Next Obligation. simpl. intros t k c. case_bool_decide; congruence. Qed.
Next Obligation. simpl. intros t c. congruence. Qed.
Next Obligation.
  simpl. intros c iss aud now lw exp Hv Hexp. rewrite Hexp in Hv.
  destruct (_ && _) eqn:Hb in Hv; [|done]. rewrite !andb_true_iff, !bool_decide_eq_true in Hb. tauto.
Qed.
Definition published : keyset := [("k1", mkJwk "enc" "other"); ("k1", mkJwk "sig" "realm-key")].
Definition fetch (realm : string) : result keyset :=
  if bool_decide (realm = "acme") then Ok published else Err (Sentinel "status 404").
Definition cfg : Config := mkConfig "https://id.example/auth" "http://keycloak" "director".
End ToyJose.
#[local] Existing Instance ToyJose.toy_jose.
#[local] Existing Instance ToyJose.toy_jose_laws.

(** ** Properties *)

(** What vouches for an identity: a token of one of the realm's published keys, no
    older than the time keys are kept, for this issuer, audience and kind. *)
Definition vouched `{JoseLaws} (P : string → keyset → Z → Prop) (cfg : Config) (now : Z) (raw audience kind : string)
    (id : Identity) : Prop :=
  ∃ tok kid k set t, parse_signed raw = Ok tok ∧ header_kids tok = [kid]
    ∧ P (id_realm id) set t ∧ (now - t < keyTTL)%Z ∧ k ∈ keyset_key set kid ∧ signed_with tok k
    ∧ c_issuer (payload tok).1 = cf_issuer_base cfg +:+ "/realms/" +:+ id_realm id
    ∧ realmName (id_realm id) = true
    ∧ audience ∈ c_audience (payload tok).1
    ∧ (∃ exp, c_expiry (payload tok).1 = Some exp ∧ (now ≤ exp + leeway)%Z)
    ∧ (if bool_decide (kind = "ID") then equal_fold_ascii (kc_type (payload tok).2) "ID" = true
       else kc_type (payload tok).2 = "" ∨ equal_fold_ascii (kc_type (payload tok).2) "Bearer" = true)
    ∧ id_subject id = c_subject (payload tok).1 ∧ id_subject id ≠ ""
    ∧ id_session id = kc_session (payload tok).2.

Lemma verify_vouched `{Hl : JoseLaws} (P : string → keyset → Z → Prop) (cfg : Config)
    (fetch : string → result keyset) (now : Z) (ks : gmap string realmKeys)
    (raw audience kind : string) (id : Identity) :
  keys_from P ks → (∀ realm set, fetch realm = Ok set → P realm set now) →
  (verify cfg fetch now ks raw audience kind).2 = Ok id →
  keys_from P (verify cfg fetch now ks raw audience kind).1
  ∧ vouched P cfg now raw audience kind id.
Proof.
  intros Hks Hfetch (tok & kid & realm & k & Hp & Hh & _ & Hr & Hk & Hst & Hid)%verify_cases.
  destruct (key_spec P fetch now ks realm kid Hks (Hfetch realm)) as [Hks' Hpub].
  rewrite Hst. split; [done|]. unfold vouched. destruct (Hpub k Hk) as (set & t & HP & Hage & Hin).
  apply verify_with_Ok in Hid as (Hs & Hi & Ha & He & Hsub & Hkind & -> & -> & ->).
  exists tok, kid, k, set, t. split_and!; try done. revert Hkind. unfold kind_ok, tokenID.
  case_bool_decide; [done|]. by rewrite orb_true_iff, bool_decide_eq_true.
Qed.

(** C6: Whoever a token is accepted as, the realm vouched for.  When a token is
    verified as an identity, it names one key; that key is in a key set the
    identity's realm published less than ten minutes before, and the token is
    signed with it; the issuer is exactly that realm under the configured base
    and the realm's name is a plain label; the audience asked for is the token's,
    it is not past its expiry by more than the leeway, and it is of the kind
    asked for.  The key cache keeps holding only what realms published. *)
Theorem verify_sound `{Hl : JoseLaws} (P : string → keyset → Z → Prop) (cfg : Config)
    (fetch : string → result keyset) (now : Z) (ks : gmap string realmKeys)
    (raw audience kind : string) (id : Identity) :
  keys_from P ks → (∀ realm set, fetch realm = Ok set → P realm set now) →
  (verify cfg fetch now ks raw audience kind).2 = Ok id →
  keys_from P (verify cfg fetch now ks raw audience kind).1
  ∧ ∃ tok kid k set t, parse_signed raw = Ok tok ∧ header_kids tok = [kid]
    ∧ P (id_realm id) set t ∧ (now - t < keyTTL)%Z ∧ k ∈ keyset_key set kid ∧ signed_with tok k
    ∧ c_issuer (payload tok).1 = cf_issuer_base cfg +:+ "/realms/" +:+ id_realm id
    ∧ realmName (id_realm id) = true
    ∧ audience ∈ c_audience (payload tok).1
    ∧ (∃ exp, c_expiry (payload tok).1 = Some exp ∧ (now ≤ exp + leeway)%Z)
    ∧ (if bool_decide (kind = "ID") then equal_fold_ascii (kc_type (payload tok).2) "ID" = true
       else kc_type (payload tok).2 = "" ∨ equal_fold_ascii (kc_type (payload tok).2) "Bearer" = true)
    ∧ id_subject id = c_subject (payload tok).1 ∧ id_subject id ≠ ""
    ∧ id_session id = kc_session (payload tok).2.
Proof. apply verify_vouched. Qed.

Lemma verify_sound_witness :
  let P : string → keyset → Z → Prop := λ realm set t, realm = "acme" ∧ set = ToyJose.published ∧ t = 1020%Z in
  ∃ id, (verify ToyJose.cfg ToyJose.fetch 1020 ∅ "raw" "director" tokenAccess).2 = Ok id
    ∧ keys_from P (verify ToyJose.cfg ToyJose.fetch 1020 ∅ "raw" "director" tokenAccess).1.
Proof.
  intros P. eexists. split; [vm_compute; reflexivity|].
  eapply (verify_sound (Hl := ToyJose.toy_jose_laws) P ToyJose.cfg ToyJose.fetch 1020 ∅ "raw" "director" tokenAccess).
  - intros realm rk Hrk. by rewrite lookup_empty in Hrk.
  - unfold ToyJose.fetch. intros realm set. case_bool_decide; [|done]. by intros [= <-].
  - vm_compute. reflexivity.
Defined.

(** An ID token never passes for an access token nor an access token for an ID
    token, whichever audience and client they are held against, at any two
    moments and from any two states of the key cache. *)
Theorem token_kinds_disjoint `{Hl : JoseLaws} (cfg : Config) (fetch fetch' : string → result keyset)
    (now now' : Z) (ks ks' : gmap string realmKeys) (raw client : string) (i j : Identity) :
  (Verify cfg fetch now ks raw).2 = Ok i → (VerifyIDToken cfg fetch' now' ks' raw client).2 = Ok j → False.
Proof.
  unfold Verify, VerifyIDToken. intros (tok & ? & ? & ? & Hp & _ & _ & _ & _ & _ & Hi)%verify_cases Hj.
  case_bool_decide; [done|]. apply verify_cases in Hj as (tok' & ? & ? & ? & Hp' & _ & _ & _ & _ & _ & Hj).
  rewrite Hp in Hp'. injection Hp' as <-.
  apply verify_with_Ok in Hi as (_ & _ & _ & _ & _ & Hki & _).
  apply verify_with_Ok in Hj as (_ & _ & _ & _ & _ & Hkj & _).
  unfold kind_ok in Hki, Hkj. rewrite bool_decide_eq_false_2 in Hki by done.
  rewrite bool_decide_eq_true_2 in Hkj by done. unfold equal_fold_ascii in *.
  apply bool_decide_eq_true in Hkj. rewrite orb_true_iff, !bool_decide_eq_true in Hki.
  destruct Hki as [Hki|Hki]; [by rewrite Hki in Hkj|by rewrite Hki in Hkj].
Qed.

(** The token is accepted as an access token, so it is refused as an ID token. *)
Lemma token_kinds_disjoint_witness :
  is_ok (Verify ToyJose.cfg ToyJose.fetch 1020 ∅ "raw").2 = true
  ∧ is_ok (VerifyIDToken ToyJose.cfg ToyJose.fetch 1020 ∅ "raw" "director").2 = false.
Proof.
  split; [vm_compute; reflexivity|].
  destruct (VerifyIDToken ToyJose.cfg ToyJose.fetch 1020 ∅ "raw" "director").2 as [j|] eqn:Hj; [|reflexivity].
  exfalso. eapply (token_kinds_disjoint (Hl := ToyJose.toy_jose_laws) ToyJose.cfg ToyJose.fetch ToyJose.fetch 1020 1020 ∅ ∅ "raw" "director" _ j).
  - vm_compute. reflexivity.
  - exact Hj.
Defined.

(** Invented key ids do not become requests: for half a minute after a realm's
    keys were fetched, whatever is asked of the cache in between, nothing asked
    about that realm depends on what the realm would answer, and the keys held
    stay those. *)
Theorem refetch_is_bounded `{Jose} (ks : gmap string realmKeys) (realm : string) (rk : realmKeys)
    (calls : list call) :
  ks !! realm = Some rk → (∀ c, c ∈ calls → cl_now c - rk_fetched rk < refetchFloor)%Z →
  foldl ask ks calls !! realm = Some rk
  ∧ ∀ fetch fetch' now kid, (now - rk_fetched rk < refetchFloor)%Z →
      key fetch now (foldl ask ks calls) realm kid = key fetch' now (foldl ask ks calls) realm kid.
Proof.
  intros Hrk Hall. pose proof (ask_floor calls ks realm rk Hrk Hall) as Hst. split; [done|].
  intros fetch fetch' now kid Hage. by rewrite !(key_floor _ _ _ _ _ rk).
Qed.

Lemma refetch_is_bounded_witness :
  let rk := mkRealmKeys ToyJose.published 1000 in
  let calls := [mkCall 1010 "acme" "invented" (λ _, Ok []); mkCall 1020 "beta" "k" ToyJose.fetch] in
  foldl ask {["acme" := rk]} calls !! "acme" = Some rk
  ∧ ∀ fetch fetch' now kid, (now - rk_fetched rk < refetchFloor)%Z →
      key fetch now (foldl ask {["acme" := rk]} calls) "acme" kid
      = key fetch' now (foldl ask {["acme" := rk]} calls) "acme" kid.
Proof.
  intros rk calls. apply refetch_is_bounded; [vm_compute; reflexivity|].
  intros c Hin. unfold calls in Hin. rewrite !elem_of_cons, elem_of_nil in Hin.
  destruct Hin as [->|[->|[]]]; vm_compute; reflexivity.
Defined.
