(* ===== verification/Decider.v ===== *)
(** * The decision at the edge

    [internal/bouncer/cache.go], [exchange.go], [decider.go] and [grpc.go]: one
    decision per request, from the route table, the verified session, the cache
    of earlier allows and the authorization store; the headers that go on to the
    backend; the app-bound token a route may exchange the session's for; and the
    answer to the gateway.

    What is outside answers through the record [world], one for each decision:
    the token verifier, the store, the realm's token exchange, and the readings
    of the clock.  Times are nanoseconds. *)

From S2P Require Import Prelude.
From S2P Require Import GoStrings.
From S2P Require Import Ids.
From S2P Require Import ComponentKeys.
From S2P Require Import RouteTable.
From S2P Require Import Authn.
From Stdlib Require Import ZArith.

Definition NUL : string := String "000" "".

(** ** The decision cache *)

Record identity := mkWho {
  w_subject : string; w_realm : string; w_session : string; w_email : string; w_name : string }.

#[global] Instance identity_eq_dec : EqDecision identity.
Proof. solve_decision. Defined.

Record cacheEntry := mkCacheEntry { ce_identity : identity; ce_expires : Z }.

Definition cacheKey (sub sid host : string) : string := sub +:+ NUL +:+ sid +:+ NUL +:+ host.

Definition cache_get (entries : gmap string cacheEntry) (now : Z) (sub sid host : string) : option identity :=
  match entries !! cacheKey sub sid host with
  | None => None
  | Some e => if bool_decide (now < ce_expires e)%Z then Some (ce_identity e) else None
  end.

Definition cache_put (entries : gmap string cacheEntry) (ttl now : Z) (sub sid host : string) (id : identity)
    : gmap string cacheEntry :=
  <[cacheKey sub sid host := mkCacheEntry id (now + ttl)]> entries.

(** ** Token exchange *)

Record exchanged := mkExchanged { ex_token : string; ex_expires : Z }.

(** Thirty seconds. *)
Definition exchangeMargin : Z := 30000000000.

(** What the exchanger answers: the realm, the session's token and the scope
    give a token and when it runs out. *)
Definition exchanger := string → string → string → result (string * Z).

Definition exchangeKey (who : identity) (scope : string) : string :=
  w_realm who +:+ NUL +:+ w_subject who +:+ NUL +:+ w_session who +:+ NUL +:+ scope.

(** [exchangeCache.token]: [now] is read once, before the realm is asked. *)
Definition exchange_token (ex : option exchanger) (entries : gmap string exchanged) (now : Z)
    (who : identity) (subjectToken scope : string) : gmap string exchanged * result string :=
  match ex with
  | None => (entries, Err (Sentinel "no token exchange is configured"))
  | Some Exchange =>
      let key := exchangeKey who scope in
      let ask :=
        match Exchange (w_realm who) subjectToken scope with
        | Err e => (entries, Err e)
        | Ok (token, expires) =>
            (<[key := mkExchanged token expires]> (filter (λ '(_, e), (now < ex_expires e)%Z) entries), Ok token)
        end in
      match entries !! key with
      | Some e => if bool_decide (now + exchangeMargin < ex_expires e)%Z then (entries, Ok (ex_token e)) else ask
      | None => ask
      end
  end.

(** ** Requests and decisions *)

Record Request := mkRequest {
  rq_id : string; rq_host : string; rq_path : string; rq_authorization : string;
  rq_id_token : string; rq_cookie : string }.

(** The text of a refusal: written here, or an error's. *)
Inductive text := Lit (s : string) | ErrorText (e : error).

Record Decision := mkDecision {
  dec_allow : bool; dec_status : Z; dec_reason : text;
  dec_headers : gmap string string; dec_remove : list string;
  dec_browser : bool; dec_redirect : string;
  dec_subject : string; dec_relation : string; dec_object : string; dec_cached : bool }.

Definition StatusFound : Z := 302.
Definition StatusUnauthorized : Z := 401.
Definition StatusForbidden : Z := 403.
Definition StatusServiceUnavailable : Z := 503.

Definition LogoutPath : string := "/oauth2/logout".
Definition SignOutPath : string := "/oauth2/sign-out".

Definition HeaderSubject : string := "x-gentian-subject".
Definition HeaderRealm : string := "x-gentian-realm".
Definition HeaderSession : string := "x-gentian-session".
Definition HeaderEmail : string := "x-gentian-email".
Definition HeaderName : string := "x-gentian-name".
Definition HeaderIDToken : string := "x-gentian-id-token".
Definition IdentityHeaders : list string :=
  [HeaderSubject; HeaderRealm; HeaderSession; HeaderEmail; HeaderName; HeaderIDToken].
Definition isIdentityHeader (name : string) : bool := existsb (String.eqb name) IdentityHeaders.

Definition deny (status : Z) (reason : text) : Decision :=
  mkDecision false status reason ∅ [] false "" "" "" "" false.

Definition redirect (location reason : string) : Decision :=
  mkDecision false StatusFound (Lit reason) ∅ [] false location "" "" "" false.

Definition about (route : Route) (subject : string) (dec : Decision) : Decision :=
  mkDecision (dec_allow dec) (dec_status dec) (dec_reason dec) (dec_headers dec) (dec_remove dec)
    (dec_browser dec) (dec_redirect dec) subject (rt_relation route) (rt_object route) (dec_cached dec).

Definition browserRefusal (route : Route) (dec : Decision) : Decision :=
  if bool_decide (rt_auth_mode route = AuthModeOIDC)
  then mkDecision (dec_allow dec) (dec_status dec) (dec_reason dec) (dec_headers dec) (dec_remove dec)
         true (dec_redirect dec) (dec_subject dec) (dec_relation dec) (dec_object dec) (dec_cached dec)
  else dec.

Definition from_cache (dec : Decision) : Decision :=
  mkDecision (dec_allow dec) (dec_status dec) (dec_reason dec) (dec_headers dec) (dec_remove dec)
    (dec_browser dec) (dec_redirect dec) (dec_subject dec) (dec_relation dec) (dec_object dec) true.

Definition bearer (h : string) : string :=
  if (7 <? String.length h)%nat && equal_fold_ascii (take_str 7 h) "bearer "
  then trim_space (drop_str 7 h) else "".

Definition identity_headers (who : identity) : gmap string string :=
  list_to_map [(HeaderSubject, w_subject who); (HeaderRealm, w_realm who); (HeaderSession, w_session who);
               (HeaderEmail, w_email who); (HeaderName, w_name who)].

(** The edge's token leaves the request unless the route forwards it or the
    header is the page's own. *)
Definition base_remove (route : Route) : list string :=
  HeaderIDToken
  :: if negb (rt_forward_token route) && negb (rt_keep_client_token route) then ["authorization"] else [].

(** The Cookie header, when it held a cookie of the edge: removed, or what is left. *)
Definition cookie_change (route : Route) (req : Request) : option (option string) :=
  if bool_decide (rt_auth_mode route = AuthModeOIDC) then
    let '(rest, changed) := withoutSessionCookies route (rq_cookie req) in
    if changed then Some (if bool_decide (trim rest ("; " +:+ tab) = "") then None else Some rest) else None
  else None.

Definition allow (route : Route) (req : Request) (who : identity) : Decision :=
  let headers := match cookie_change route req with
    | Some (Some rest) => <[HeaderCookie := rest]> (identity_headers who)
    | _ => identity_headers who
    end in
  let remove := base_remove route
    ++ match cookie_change route req with Some None => [HeaderCookie] | _ => [] end in
  mkDecision true 0 (Lit "") headers remove false "" "" "" "" false.

(** ** The decider *)

(** What is outside a decision: the verifier, the store, the exchange, and the
    clock as it is read at the cache, at the write to it, and at the exchange. *)
Record world := mkWorld {
  wo_verify : string → result Identity;
  wo_verify_id : string → string → result Identity;
  wo_check : checker;
  wo_exchange : option exchanger;
  wo_now_get : Z; wo_now_put : Z; wo_now_exchange : Z }.

Record decider := mkDecider {
  d_table : option Table; d_ttl : Z;
  d_cache : gmap string cacheEntry; d_exchange : gmap string exchanged }.

(** Five minutes. *)
Definition defaultTTL : Z := 300000000000.
Definition New (table : option Table) (ttl : Z) : decider :=
  mkDecider table (if bool_decide (ttl <= 0)%Z then defaultTTL else ttl) ∅ ∅.

Definition SetTable (d : decider) (t : option Table) : decider :=
  mkDecider t (d_ttl d) (d_cache d) (d_exchange d).
Definition Evict (d : decider) : decider * nat :=
  (mkDecider (d_table d) (d_ttl d) ∅ (d_exchange d), size (d_cache d)).

Definition session (w : world) (route : Route) (req : Request) : result Identity :=
  if bool_decide (rt_auth_mode route = AuthModeOIDC) && (rt_keep_client_token route || rt_id_token_session route) then
    if bool_decide (rt_id_token_audience route = "")
    then Err (Sentinel "route names no client to hold its session against")
    else if bool_decide (rq_id_token req = "") then Err (Sentinel "no session token")
    else wrap "session token refused: %w" [] (wo_verify_id w (rq_id_token req) (rt_id_token_audience route))
  else
    let raw := bearer (rq_authorization req) in
    if bool_decide (raw = "") then Err (Sentinel "no token")
    else wrap "token refused: %w" [] (wo_verify w raw).

Definition finish (w : world) (d : decider) (route : Route) (req : Request) (who : identity)
    : decider * Decision :=
  let dec := allow route req who in
  if bool_decide (rt_exchange_scope route = "") then (d, dec)
  else
    let '(entries, r) := exchange_token (wo_exchange w) (d_exchange d) (wo_now_exchange w) who
                           (bearer (rq_authorization req)) (rt_exchange_scope route) in
    let d := mkDecider (d_table d) (d_ttl d) (d_cache d) entries in
    match r with
    | Err e => (d, deny StatusServiceUnavailable (Lit "the app's token could not be obtained"))
    | Ok token =>
        let headers := <["authorization" := "Bearer " +:+ token]> ∅
          ∪ filter (λ '(name, _), isIdentityHeader name = false) (dec_headers dec) in
        let remove := filter (λ h, h ≠ "authorization") (dec_remove dec)
          ++ filter (λ name, isIdentityHeader name = true) (map_to_list (dec_headers dec)).*1 in
        (d, mkDecision true 0 (Lit "") headers (sort_strings remove) false "" "" "" "" false)
    end.

Section Decide.
Context `{Unicode}.

Definition decide_ (w : world) (d : decider) (req : Request) : decider * Decision :=
  match Match (d_table d) (rq_host req) with
  | None => (d, deny StatusForbidden (Lit ("no route class for host " +:+ rq_host req)))
  | Some route =>
    if bool_decide (rt_auth_mode route = AuthModeOIDC) && bool_decide (pathOnly (rq_path req) = SignOutPath)
    then (d, redirect LogoutPath "sign out")
    else if Denies route (rq_path req)
    then (d, about route "" (deny StatusForbidden (Lit ("path is not published on " +:+ rq_host req))))
    else
      match session w route req with
      | Err e => (d, about route "" (browserRefusal route (deny StatusUnauthorized (ErrorText e))))
      | Ok id =>
        if bool_decide (id_session id = "")
        then (d, about route (id_subject id)
                   (browserRefusal route (deny StatusUnauthorized (Lit "token names no session"))))
        else
          let who := mkWho (id_subject id) (id_realm id) (id_session id) (id_email id) (id_name id) in
          match cache_get (d_cache d) (wo_now_get w) (id_subject id) (id_session id) (rt_host route) with
          | Some cached =>
              let '(d, dec) := finish w d route req cached in
              (d, from_cache (about route (id_subject id) dec))
          | None =>
            match User (id_subject id) with
            | Err e => (d, about route (id_subject id) (deny StatusUnauthorized (ErrorText e)))
            | Ok user =>
              let holder := match HolderUser (id_realm id) (id_subject id) with Ok h => h | Err _ => "" end in
              match CheckAs (wo_check w) user holder (rt_relation route) (rt_object route) with
              | Err e => (d, about route (id_subject id)
                               (deny StatusServiceUnavailable (Lit "authorization store unreachable")))
              | Ok false =>
                  let reason := "not " +:+ rt_relation route +:+ " on " +:+ rt_object route in
                  (d, about route (id_subject id)
                    (if negb (bool_decide (rt_denied_redirect route = ""))
                        && bool_decide (rt_auth_mode route = AuthModeOIDC)
                     then redirect (rt_denied_redirect route) reason
                     else browserRefusal route (deny StatusForbidden (Lit reason))))
              | Ok true =>
                  let d := mkDecider (d_table d) (d_ttl d)
                    (cache_put (d_cache d) (d_ttl d) (wo_now_put w) (id_subject id) (id_session id)
                       (rt_host route) who) (d_exchange d) in
                  let '(d, dec) := finish w d route req who in
                  (d, about route (id_subject id) dec)
              end
            end
          end
      end
  end.
End Decide.

(** ** The audit line *)

Definition reasonOf (dec : Decision) : string :=
  if dec_allow dec then "allowed"
  else if bool_decide (dec_redirect dec = LogoutPath) then "sign-out"
  else if negb (bool_decide (dec_redirect dec = "")) then "refused"
  else if bool_decide (dec_status dec = StatusUnauthorized) then "unauthenticated"
  else if bool_decide (dec_status dec = StatusServiceUnavailable) then "unavailable"
  else "refused".

Record audit_record := mkAudit {
  au_request : string; au_subject : string; au_object : string; au_action : string;
  au_allowed : bool; au_reason : string; au_status : Z; au_host : string; au_cached : bool }.

Definition record (req : Request) (dec : Decision) : audit_record :=
  mkAudit (rq_id req) (dec_subject dec) (dec_object dec) (dec_relation dec) (dec_allow dec)
    (reasonOf dec) (dec_status dec) (rq_host req) (dec_cached dec).

Definition Decide `{Unicode} (w : world) (d : decider) (req : Request) : decider * Decision * audit_record :=
  let '(d, dec) := decide_ w d req in (d, dec, record req dec).

(** ** The gateway's question *)

Definition BrandingBase (issuerBase : string) : string :=
  let base := trim_suffix_byte issuerBase "/" in
  let base := trim_suffix base "/auth" in
  match cut_prefix base "https://id." with
  | None => ""
  | Some host => if bool_decide (host = "") || contains_any host "/?#" then ""
                 else "https://" +:+ host +:+ "/branding/"
  end.

(** What Envoy tells of a request. *)
Record http_request := mkHttp {
  h_id : string; h_host : string; h_path : string; h_headers : gmap string string }.

Definition header (h : http_request) (name : string) : string := default "" (h_headers h !! name).

Inductive body := StatusText (status : Z) | Empty | DeniedPage (brandingBase : string).

Inductive code := COk | CUnauthenticated | CUnavailable | CPermissionDenied.

Definition grpcCode (status : Z) : code :=
  if bool_decide (status = StatusUnauthorized) then CUnauthenticated
  else if bool_decide (status = StatusServiceUnavailable) then CUnavailable
  else CPermissionDenied.

Inductive response :=
  | Denied (c : code) (message : text) (status : Z) (b : body) (headers : list (string * string))
  | Allowed (set : gmap string string) (remove : list string).

Definition request_of (h : http_request) : Request :=
  let host := header h ":authority" in
  mkRequest (h_id h) (if bool_decide (host = "") then h_host h else host) (h_path h)
    (header h "authorization") (header h HeaderIDToken) (header h HeaderCookie).

Definition response_of (brandingBase : string) (dec : Decision) : response :=
  if negb (dec_allow dec) then
    if negb (bool_decide (dec_redirect dec = ""))
    then Denied CPermissionDenied (dec_reason dec) (dec_status dec) Empty
           [("location", dec_redirect dec); ("cache-control", "no-store")]
    else if dec_browser dec
    then Denied (grpcCode (dec_status dec)) (dec_reason dec) (dec_status dec) (DeniedPage brandingBase)
           [("content-type", "text/html; charset=utf-8")]
    else Denied (grpcCode (dec_status dec)) (dec_reason dec) (dec_status dec) (StatusText (dec_status dec)) []
  else Allowed (dec_headers dec) (dec_remove dec).

Definition Check_ `{Unicode} (brandingBase : string) (w : world) (d : decider) (h : http_request)
    : decider * response :=
  let '(d, dec) := decide_ w d (request_of h) in (d, response_of brandingBase dec).

(** What reaches the backend when the gateway carries the answer out on the
    client's headers: [HeadersToRemove] are dropped and the others overwrite. *)
Definition forwarded (client : gmap string string) (r : response) : option (gmap string string) :=
  match r with
  | Denied _ _ _ _ _ => None
  | Allowed set remove => Some (set ∪ filter (λ '(name, _), name ∉ remove) client)
  end.

(** ** Lemmas *)

(** *** When a request is allowed *)

Definition who_of (id : Identity) : identity :=
  mkWho (id_subject id) (id_realm id) (id_session id) (id_email id) (id_name id).

(** The store says the person may: as themselves, or as the role holder of their realm. *)
Definition store_grants (w : world) (route : Route) (id : Identity) : Prop :=
  ∃ user, User (id_subject id) = Ok user ∧
    CheckAs (wo_check w) user
      (match HolderUser (id_realm id) (id_subject id) with Ok h => h | Err _ => "" end)
      (rt_relation route) (rt_object route) = Ok true.

(** Where the request gets to: a route that publishes the path, and a session. *)
Definition reaches `{Unicode} (w : world) (d : decider) (req : Request) (route : Route) (id : Identity) : Prop :=
  Match (d_table d) (rq_host req) = Some route
  ∧ ¬ (rt_auth_mode route = AuthModeOIDC ∧ pathOnly (rq_path req) = SignOutPath)
  ∧ Denies route (rq_path req) = false
  ∧ session w route req = Ok id ∧ id_session id ≠ "".

(** The app-bound token, on a route that asks for one. *)
Definition exchange_ok (w : world) (d : decider) (route : Route) (req : Request) (who : identity) : Prop :=
  rt_exchange_scope route ≠ "" →
  is_ok (exchange_token (wo_exchange w) (d_exchange d) (wo_now_exchange w) who
           (bearer (rq_authorization req)) (rt_exchange_scope route)).2 = true.

Lemma finish_allow w d route req who :
  dec_allow (finish w d route req who).2 = true ↔ exchange_ok w d route req who.
Proof.
  unfold finish, exchange_ok. case_bool_decide as Hs.
  - done.
  - destruct (exchange_token _ _ _ _ _ _) as [entries [tok|e]]; simpl; split; try done. intros Hx. by apply Hx.
Qed.

Lemma finish_cached w d route req who : dec_cached (finish w d route req who).2 = false.
Proof.
  unfold finish, allow. repeat case_match; simplify_eq/=; done.
Qed.

Lemma from_cache_allow dec : dec_allow (from_cache dec) = dec_allow dec.
Proof. done. Qed.
Lemma about_allow route sub dec : dec_allow (about route sub dec) = dec_allow dec.
Proof. done. Qed.
Lemma browserRefusal_allow route dec : dec_allow (browserRefusal route dec) = dec_allow dec.
Proof. unfold browserRefusal. by case_bool_decide. Qed.

Section Decisions.
Context `{Unicode}.

(** The three ways a decision with a session ends, and the two without one. *)
Inductive outcome (w : world) (d : decider) (req : Request) : decider → Decision → Prop :=
  | out_refused dec : dec_allow dec = false → dec_cached dec = false →
      (¬ ∃ route id, reaches w d req route id ∧
         (is_Some (cache_get (d_cache d) (wo_now_get w) (id_subject id) (id_session id) (rt_host route))
          ∨ store_grants w route id)) →
      outcome w d req d dec
  | out_cached route id who dec :
      reaches w d req route id →
      cache_get (d_cache d) (wo_now_get w) (id_subject id) (id_session id) (rt_host route) = Some who →
      dec = from_cache (about route (id_subject id) (finish w d route req who).2) →
      outcome w d req (finish w d route req who).1 dec
  | out_granted route id dec d1 :
      reaches w d req route id →
      cache_get (d_cache d) (wo_now_get w) (id_subject id) (id_session id) (rt_host route) = None →
      store_grants w route id →
      d1 = mkDecider (d_table d) (d_ttl d)
             (cache_put (d_cache d) (d_ttl d) (wo_now_put w) (id_subject id) (id_session id)
                (rt_host route) (who_of id)) (d_exchange d) →
      dec = about route (id_subject id) (finish w d1 route req (who_of id)).2 →
      outcome w d req (finish w d1 route req (who_of id)).1 dec.

Lemma reaches_inj w d req route id route' id' :
  reaches w d req route id → reaches w d req route' id' → route = route' ∧ id = id'.
Proof.
  intros (Hm & _ & _ & Hs & _) (Hm' & _ & _ & Hs' & _). rewrite Hm in Hm'. injection Hm' as <-.
  rewrite Hs in Hs'. injection Hs' as <-. done.
Qed.

Lemma decide_outcome w d req : outcome w d req (decide_ w d req).1 (decide_ w d req).2.
Proof.
  unfold decide_. destruct (Match (d_table d) (rq_host req)) as [route|] eqn:Hm.
  2: { cbn [fst snd]; apply out_refused; [done|done|]. intros (route & id & (Hm' & _) & _). by rewrite Hm in Hm'. }
  destruct (bool_decide (rt_auth_mode route = AuthModeOIDC) && _) eqn:Hso.
  { cbn [fst snd]; apply out_refused; [done|done|]. intros (route' & id & (Hm' & Hno & _) & _). simplify_eq.
    rewrite andb_true_iff, !bool_decide_eq_true in Hso. done. }
  assert (¬ (rt_auth_mode route = AuthModeOIDC ∧ pathOnly (rq_path req) = SignOutPath)) as Hno.
  { intros [? ?]. by rewrite !bool_decide_eq_true_2 in Hso. }
  destruct (Denies route (rq_path req)) eqn:Hd.
  { cbn [fst snd]; apply out_refused; [done|done|]. intros (route' & id & (Hm' & _ & Hd' & _) & _). simplify_eq. congruence. }
  destruct (session w route req) as [id|e] eqn:Hs.
  2: { cbn [fst snd]; apply out_refused; [by rewrite about_allow, browserRefusal_allow| |].
       - simpl. unfold browserRefusal. by case_bool_decide.
       - intros (route' & id & (Hm' & _ & _ & Hs' & _) & _). simplify_eq. congruence. }
  destruct (bool_decide (id_session id = "")) eqn:Hsid;
    [apply bool_decide_eq_true in Hsid|apply bool_decide_eq_false in Hsid].
  { cbn [fst snd]; apply out_refused; [by rewrite about_allow, browserRefusal_allow| |].
    - simpl. unfold browserRefusal. by case_bool_decide.
    - intros (route' & id' & (Hm' & _ & _ & Hs' & Hsid') & _). simplify_eq. congruence. }
  assert (reaches w d req route id) as Hr by done.
  destruct (cache_get _ _ _ _ _) as [who|] eqn:Hc.
  { destruct (finish w d route req who) as [d' dec] eqn:Hf. simpl.
    change d' with (d', dec).1. rewrite <-Hf. eapply out_cached; [done|done|]. by rewrite Hf. }
  assert (¬ store_grants w route id → ¬ ∃ route' id', reaches w d req route' id' ∧
    (is_Some (cache_get (d_cache d) (wo_now_get w) (id_subject id') (id_session id') (rt_host route'))
     ∨ store_grants w route' id')) as Hnone.
  { intros Hng (route' & id' & Hr' & Hg). destruct (reaches_inj _ _ _ _ _ _ _ Hr Hr') as [<- <-].
    rewrite Hc in Hg. destruct Hg as [[? ?]|?]; done. }
  destruct (User (id_subject id)) as [user|e] eqn:Hu.
  2: { cbn [fst snd]; apply out_refused; [done|done|]. apply Hnone. intros (user & Hu' & _). congruence. }
  destruct (CheckAs _ _ _ _ _) as [[]|e] eqn:Hcheck.
  - set (d1 := mkDecider _ _ _ _). destruct (finish w d1 route req _) as [d' dec] eqn:Hf. simpl.
    change d' with (d', dec).1. fold (who_of id) in Hf. rewrite <-Hf.
    eapply out_granted; [done|done|by exists user|done|]. by rewrite Hf.
  - cbn [fst snd]; apply out_refused.
    + rewrite about_allow. destruct (negb _ && _); [done|by rewrite browserRefusal_allow].
    + simpl. destruct (negb _ && _); [done|]. unfold browserRefusal. by destruct (bool_decide _).
    + apply Hnone. intros (user' & Hu' & Hch'). congruence.
  - cbn [fst snd]; apply out_refused; [done|done|]. apply Hnone. intros (user' & Hu' & Hch'). congruence.
Qed.
End Decisions.
