(* ===== verification/DeciderSafety.v ===== *)
(** * What a decision at the edge guarantees

    The properties of the decider of Decider.v: when a request is allowed, where
    a cached allow came from, which headers reach the backend, and which token a
    route that exchanges it hands on. *)

From S2P Require Import Prelude.
From S2P Require Import GoStrings.
From S2P Require Import Ids.
From S2P Require Import ComponentKeys.
From S2P Require Import RouteTable.
From S2P Require Import Authn.
From S2P Require Import Decider.
From Stdlib Require Import ZArith.

(** ** Keys *)

Definition nul_free (s : string) : Prop := contains_byte s "000" = false.

Lemma cacheKey_inj sub sid host sub' sid' host' :
  nul_free sub → nul_free sid → nul_free sub' → nul_free sid' →
  cacheKey sub sid host = cacheKey sub' sid' host' → sub = sub' ∧ sid = sid' ∧ host = host'.
Proof.
  intros H1 H2 H3 H4 Heq. unfold cacheKey, NUL in Heq.
  change (String "000" "" +:+ ?x) with (String "000" x) in Heq.
  apply app_sep_inj in Heq as [-> Heq]; [|done..]. by apply app_sep_inj in Heq as [-> ->].
Qed.

Lemma exchangeKey_inj who who' scope scope' :
  nul_free (w_realm who) → nul_free (w_subject who) → nul_free (w_session who) →
  nul_free (w_realm who') → nul_free (w_subject who') → nul_free (w_session who') →
  exchangeKey who scope = exchangeKey who' scope' →
  w_realm who = w_realm who' ∧ w_subject who = w_subject who' ∧ w_session who = w_session who' ∧ scope = scope'.
Proof.
  intros H1 H2 H3 H4 H5 H6 Heq. unfold exchangeKey, NUL in Heq.
  change (String "000" "" +:+ ?x) with (String "000" x) in Heq.
  apply app_sep_inj in Heq as [-> Heq]; [|done..]. apply app_sep_inj in Heq as [-> Heq]; [|done..].
  by apply app_sep_inj in Heq as [-> ->].
Qed.

(** What a verifier's identities hold: no NUL, which no claim of a realm has. *)
Definition nul_free_id (id : Identity) : Prop :=
  nul_free (id_subject id) ∧ nul_free (id_session id) ∧ nul_free (id_realm id).
Definition world_ok (w : world) : Prop :=
  (∀ raw id, wo_verify w raw = Ok id → nul_free_id id)
  ∧ (∀ raw client id, wo_verify_id w raw client = Ok id → nul_free_id id).

Lemma session_ok w route req id : world_ok w → session w route req = Ok id → nul_free_id id.
Proof.
  intros [Hv Hi]. unfold session. destruct (_ && _).
  - case_bool_decide; [done|]. case_bool_decide; [done|]. intros Hs%wrap_Ok. by eapply Hi.
  - case_bool_decide; [done|]. intros Hs%wrap_Ok. by eapply Hv.
Qed.

(** ** Histories *)

(** A decision, a new route table, an eviction. *)
Inductive event := EvDecide (w : world) (req : Request) | EvTable (t : option Table) | EvEvict.

Section Histories.
Context `{Unicode}.

Definition step (d : decider) (ev : event) : decider :=
  match ev with
  | EvDecide w req => (decide_ w d req).1
  | EvTable t => SetTable d t
  | EvEvict => (Evict d).1
  end.

Definition run (d : decider) (evs : list event) : decider := foldl step d evs.

Definition event_ok (ev : event) : Prop := match ev with EvDecide w _ => world_ok w | _ => True end.

Lemma finish_table w d route req who : d_table (finish w d route req who).1 = d_table d.
Proof. unfold finish. repeat case_match; simplify_eq/=; done. Qed.
Lemma finish_ttl w d route req who : d_ttl (finish w d route req who).1 = d_ttl d.
Proof. unfold finish. repeat case_match; simplify_eq/=; done. Qed.
Lemma finish_cache w d route req who : d_cache (finish w d route req who).1 = d_cache d.
Proof. unfold finish. repeat case_match; simplify_eq/=; done. Qed.

Lemma step_ttl d ev : d_ttl (step d ev) = d_ttl d.
Proof.
  destruct ev as [w req| |]; [|done..]. simpl.
  destruct (decide_outcome w d req) as [dec ? ? ?|route id who dec|route id dec d1 ? ? ? ->]; [done|..];
    by rewrite finish_ttl.
Qed.
Lemma run_ttl evs d : d_ttl (run d evs) = d_ttl d.
Proof. unfold run. revert d. induction evs as [|ev evs IH]; intros d; simpl; [done|]. by rewrite IH, step_ttl. Qed.

(** The allow of one decision of a history, and no eviction since. *)
Definition grant (d0 : decider) (evs : list event) (sub sid host : string) (who : identity) (expires : Z) : Prop :=
  ∃ pre w req post route id, evs = pre ++ EvDecide w req :: post ∧ (EvEvict ∉ post)
    ∧ reaches w (run d0 pre) req route id ∧ store_grants w route id
    ∧ sub = id_subject id ∧ sid = id_session id ∧ host = rt_host route
    ∧ who = who_of id ∧ expires = (wo_now_put w + d_ttl d0)%Z.

Lemma grant_snoc d0 evs ev sub sid host who expires :
  ev ≠ EvEvict → grant d0 evs sub sid host who expires → grant d0 (evs ++ [ev]) sub sid host who expires.
Proof.
  intros Hne (pre & w & req & post & route & id & -> & Hpost & Hrest).
  exists pre, w, req, (post ++ [ev]), route, id. split; [by rewrite <-(assoc_L (++))|].
  split; [|done]. rewrite elem_of_app, list_elem_of_singleton. naive_solver.
Qed.

(** Every entry of the cache is such an allow, filed under its own subject,
    session and host. *)
Lemma cache_granted d0 evs :
  d_cache d0 = ∅ →
  ∀ k e, d_cache (run d0 evs) !! k = Some e →
  ∃ sub sid host, k = cacheKey sub sid host ∧ grant d0 evs sub sid host (ce_identity e) (ce_expires e).
Proof.
  intros Hempty. induction evs as [|ev evs IH] using rev_ind; intros k e Hk.
  { unfold run in Hk. simpl in Hk. by rewrite Hempty, lookup_empty in Hk. }
  unfold run in *. rewrite foldl_app in Hk. simpl in Hk.
  assert (∀ k e, ev ≠ EvEvict → d_cache (foldl step d0 evs) !! k = Some e → ∃ sub sid host, k = cacheKey sub sid host
    ∧ grant d0 (evs ++ [ev]) sub sid host (ce_identity e) (ce_expires e)) as Hold.
  { intros k' e' Hne (sub & sid & host & Hkey & Hg)%IH. exists sub, sid, host.
    split; [done|]. by apply grant_snoc. }
  destruct ev as [w req|t|]; simpl in Hk; [|by apply Hold|by rewrite lookup_empty in Hk].
  pose proof (decide_outcome w (foldl step d0 evs) req) as Hout.
  destruct Hout as [dec ? ? ?|route id who dec|route id dec d1 Hr Hc Hg ->]; [by apply Hold|..];
    rewrite finish_cache in Hk; [by apply Hold|].
  simpl in Hk. unfold cache_put in Hk. apply lookup_insert_Some in Hk as [[<- <-]|[_ Hk]]; [|by apply Hold].
  exists (id_subject id), (id_session id), (rt_host route). split; [done|].
  exists evs, w, req, [], route, id. split; [done|]. split; [apply not_elem_of_nil|].
  split; [done|]. split; [done|]. simpl. fold (run d0 evs). by rewrite run_ttl.
Qed.

(** ** Allowing *)

Lemma decide_allow_iff w d req :
  dec_allow (decide_ w d req).2 = true ↔
  ∃ route id, reaches w d req route id ∧
    match cache_get (d_cache d) (wo_now_get w) (id_subject id) (id_session id) (rt_host route) with
    | Some who => exchange_ok w d route req who
    | None => store_grants w route id ∧ exchange_ok w d route req (who_of id)
    end.
Proof.
  destruct (decide_outcome w d req) as [dec Hno _ Hnone|route id who dec Hr Hc ->|route id dec d1 Hr Hc Hg -> ->].
  - rewrite Hno. split; [done|]. intros (route & id & Hr & Hx). exfalso. apply Hnone. exists route, id.
    split; [done|]. destruct (cache_get _ _ _ _ _); [left; by eexists|right; apply Hx].
  - rewrite from_cache_allow, about_allow, finish_allow. split.
    + intros Hx. exists route, id. by rewrite Hc.
    + intros (route' & id' & Hr' & Hx). destruct (reaches_inj _ _ _ _ _ _ _ Hr Hr') as [<- <-]. by rewrite Hc in Hx.
  - rewrite about_allow, finish_allow. unfold exchange_ok at 1. simpl.
    fold (exchange_ok w d route req (who_of id)). split.
    + intros Hx. exists route, id. by rewrite Hc.
    + intros (route' & id' & Hr' & Hx). destruct (reaches_inj _ _ _ _ _ _ _ Hr Hr') as [<- <-].
      rewrite Hc in Hx. apply Hx.
Qed.

(** Whom the backend of an allowed request is told of. *)
Lemma decide_allow_who w d req :
  dec_allow (decide_ w d req).2 = true →
  ∃ route id who d1, reaches w d req route id
    ∧ (if dec_cached (decide_ w d req).2
       then cache_get (d_cache d) (wo_now_get w) (id_subject id) (id_session id) (rt_host route) = Some who
       else store_grants w route id ∧ who = who_of id)
    ∧ d_exchange d1 = d_exchange d
    ∧ dec_headers (decide_ w d req).2 = dec_headers (finish w d1 route req who).2
    ∧ dec_remove (decide_ w d req).2 = dec_remove (finish w d1 route req who).2
    ∧ dec_allow (finish w d1 route req who).2 = true.
Proof.
  destruct (decide_outcome w d req) as [dec Hno _ Hnone|route id who dec Hr Hc ->|route id dec d1 Hr Hc Hg Hd1 ->].
  - by rewrite Hno.
  - intros Ha. exists route, id, who, d. by rewrite Hc.
  - intros Ha. exists route, id, (who_of id), d1. split; [done|].
    split; [simpl; by rewrite finish_cached|]. split; [by rewrite Hd1|done].
Qed.
End Histories.

(** ** Headers *)

Lemma identity_headers_cookie who : identity_headers who !! HeaderCookie = None.
Proof. done. Qed.

Lemma elem_of_base_remove route name :
  name ∈ base_remove route ↔
  name = HeaderIDToken
  ∨ (name = "authorization" ∧ rt_forward_token route = false ∧ rt_keep_client_token route = false).
Proof.
  unfold base_remove. rewrite elem_of_cons.
  destruct (rt_forward_token route), (rt_keep_client_token route); simpl;
    rewrite ?list_elem_of_singleton, ?elem_of_nil; intuition congruence.
Qed.

Lemma allow_header route req who name :
  name ≠ HeaderCookie → dec_headers (allow route req who) !! name = identity_headers who !! name.
Proof. intros Hne. simpl. destruct (cookie_change route req) as [[rest|]|]; [by rewrite lookup_insert_ne|done..]. Qed.

Lemma allow_removes route req who name :
  name ≠ HeaderCookie → name ∈ dec_remove (allow route req who) ↔ name ∈ base_remove route.
Proof.
  intros Hne. unfold allow. cbn [dec_remove]. rewrite elem_of_app.
  destruct (cookie_change route req) as [[rest|]|]; rewrite ?list_elem_of_singleton, ?elem_of_nil; tauto.
Qed.

Lemma isIdentityHeader_iff name : isIdentityHeader name = true ↔ name ∈ IdentityHeaders.
Proof. unfold isIdentityHeader. rewrite existsb_elem_of. setoid_rewrite String.eqb_eq. naive_solver. Qed.
Lemma isIdentityHeader_false name : isIdentityHeader name = false ↔ name ∉ IdentityHeaders.
Proof. rewrite <-isIdentityHeader_iff. by destruct (isIdentityHeader name). Qed.

Lemma elem_of_IdentityHeaders who name :
  name ∈ IdentityHeaders ↔ name = HeaderIDToken ∨ is_Some (identity_headers who !! name).
Proof.
  unfold IdentityHeaders, identity_headers. rewrite !elem_of_cons, elem_of_nil. simpl.
  rewrite !lookup_insert_is_Some', lookup_empty, <-not_eq_None_Some. naive_solver.
Qed.

(** The header that arrives at the backend. *)
Lemma forwarded_lookup client set remove hs name :
  forwarded client (Allowed set remove) = Some hs →
  hs !! name = match set !! name with
               | Some v => Some v
               | None => if decide (name ∈ remove) then None else client !! name
               end.
Proof.
  intros [= <-]. destruct (set !! name) as [v|] eqn:Hs.
  - by apply lookup_union_Some_l.
  - rewrite lookup_union_r by done. rewrite map_lookup_filter.
    destruct (client !! name) as [v|]; simpl; case_decide; try case_guard; naive_solver.
Qed.

Lemma allow_cookie route req who :
  dec_headers (allow route req who) !! HeaderCookie
    = match cookie_change route req with Some (Some rest) => Some rest | _ => None end
  ∧ (HeaderCookie ∈ dec_remove (allow route req who) ↔ cookie_change route req = Some None).
Proof.
  assert (HeaderCookie ≠ HeaderIDToken) by done. assert (HeaderCookie ≠ "authorization") by done.
  unfold allow. cbn [dec_headers dec_remove]. rewrite elem_of_app, elem_of_base_remove.
  destruct (cookie_change route req) as [[rest|]|]; rewrite ?lookup_insert_eq, ?list_elem_of_singleton, ?elem_of_nil;
    split; try done; intuition congruence.
Qed.

(** What the backend gets, when the request goes on as it came. *)
Definition kept_authorization (route : Route) (client : gmap string string) : option string :=
  if rt_forward_token route || rt_keep_client_token route then client !! "authorization" else None.
Definition kept_cookie (route : Route) (req : Request) (client : gmap string string) : option string :=
  match cookie_change route req with None => client !! HeaderCookie | Some c => c end.

Lemma allow_forwards route req who client hs :
  forwarded client (Allowed (dec_headers (allow route req who)) (dec_remove (allow route req who))) = Some hs →
  (∀ name, name ∈ IdentityHeaders → hs !! name = identity_headers who !! name)
  ∧ hs !! "authorization" = kept_authorization route client
  ∧ hs !! HeaderCookie = kept_cookie route req client.
Proof.
  intros Hf. pose proof (λ name, forwarded_lookup _ _ _ _ name Hf) as Hl. clear Hf. split; [|split].
  - intros name Hin. specialize (Hl name). rewrite Hl.
    assert (name ≠ HeaderCookie) as Hne by (intros ->; by apply (bool_decide_eq_true_2 _) in Hin).
    rewrite allow_header by done. apply (elem_of_IdentityHeaders who) in Hin.
    destruct (identity_headers who !! name) eqn:Hn; [done|].
    destruct Hin as [->|[v Hv]]; [|by rewrite Hv in Hn]. rewrite decide_True; [done|].
    rewrite allow_removes, elem_of_base_remove by done. by left.
  - specialize (Hl "authorization"). rewrite Hl, allow_header by done. simpl.
    unfold kept_authorization. destruct (decide _) as [Hin|Hin]; rewrite allow_removes, elem_of_base_remove in Hin by done.
    + destruct Hin as [?|(_ & -> & ->)]; done.
    + destruct (rt_forward_token route), (rt_keep_client_token route); try done. exfalso. apply Hin. by right.
  - specialize (Hl HeaderCookie). rewrite Hl. destruct (allow_cookie route req who) as [-> Hr].
    unfold kept_cookie. destruct (cookie_change route req) as [[rest|]|]; [done|..].
    + by rewrite decide_True by by apply Hr.
    + rewrite decide_False; [done|]. by rewrite Hr.
Qed.

(** The decision of a route that exchanges the session's token. *)
Lemma finish_exchanges w d route req who :
  rt_exchange_scope route ≠ "" → dec_allow (finish w d route req who).2 = true →
  ∃ tok, (exchange_token (wo_exchange w) (d_exchange d) (wo_now_exchange w) who
            (bearer (rq_authorization req)) (rt_exchange_scope route)).2 = Ok tok
  ∧ dec_headers (finish w d route req who).2
    = <["authorization" := "Bearer " +:+ tok]> ∅
      ∪ filter (λ '(name, _), isIdentityHeader name = false) (dec_headers (allow route req who))
  ∧ (∀ name, name ∈ dec_remove (finish w d route req who).2 ↔
       (name ∈ dec_remove (allow route req who) ∧ name ≠ "authorization")
       ∨ (isIdentityHeader name = true ∧ is_Some (dec_headers (allow route req who) !! name))).
Proof.
  intros Hs. unfold finish. rewrite bool_decide_eq_false_2 by done.
  destruct (exchange_token _ _ _ _ _ _) as [entries [tok|e]]; [|done]. intros _. exists tok.
  split; [done|]. split; [done|]. intros name. cbn [snd dec_remove].
  rewrite elem_of_sort_strings, elem_of_app, !list_elem_of_filter, list_elem_of_fmap.
  assert ((∃ y, name = y.1 ∧ y ∈ map_to_list (dec_headers (allow route req who)))
    ↔ is_Some (dec_headers (allow route req who) !! name)) as ->; [|tauto].
  split.
  - intros ([k v] & -> & Hin%elem_of_map_to_list). by exists v.
  - intros [v Hv]. exists (name, v). by rewrite elem_of_map_to_list.
Qed.

Lemma finish_forwards w d route req who client hs :
  dec_allow (finish w d route req who).2 = true →
  forwarded client (Allowed (dec_headers (finish w d route req who).2) (dec_remove (finish w d route req who).2)) = Some hs →
  (∀ name, name ∈ IdentityHeaders →
     hs !! name = if bool_decide (rt_exchange_scope route = "") then identity_headers who !! name else None)
  ∧ (if bool_decide (rt_exchange_scope route = "")
     then hs !! "authorization" = kept_authorization route client
     else ∃ tok, (exchange_token (wo_exchange w) (d_exchange d) (wo_now_exchange w) who
                    (bearer (rq_authorization req)) (rt_exchange_scope route)).2 = Ok tok
                 ∧ hs !! "authorization" = Some ("Bearer " +:+ tok))
  ∧ hs !! HeaderCookie = kept_cookie route req client.
Proof.
  intros Ha Hf. case_bool_decide as Hs.
  { unfold finish in Hf. rewrite bool_decide_eq_true_2 in Hf by done. by apply (allow_forwards route req who client). }
  destruct (finish_exchanges w d route req who Hs Ha) as (tok & Htok & Hh & Hr).
  pose proof (λ name, forwarded_lookup _ _ _ _ name Hf) as Hl. clear Hf. rewrite Hh in Hl.
  assert (∀ name, name ≠ "authorization" → isIdentityHeader name = false →
    (<["authorization" := "Bearer " +:+ tok]> ∅
      ∪ filter (λ '(name, _), isIdentityHeader name = false) (dec_headers (allow route req who)) : gmap string string) !! name
    = dec_headers (allow route req who) !! name) as Hother.
  { intros name Hne Hid. rewrite lookup_union_r by (by rewrite lookup_insert_ne).
    rewrite map_lookup_filter. destruct (dec_headers _ !! name); simpl; [|done].
    by case_guard. }
  split; [|split].
  - intros name Hin. specialize (Hl name). rewrite Hl.
    assert (name ≠ "authorization") as Hna by (intros ->; by apply (bool_decide_eq_true_2 _) in Hin).
    assert (name ≠ HeaderCookie) as Hnc by (intros ->; by apply (bool_decide_eq_true_2 _) in Hin).
    rewrite lookup_union_r by (by rewrite lookup_insert_ne). rewrite map_lookup_filter.
    pose proof (proj2 (isIdentityHeader_iff name) Hin) as Hid.
    destruct (dec_headers (allow route req who) !! name) as [v|] eqn:Hv; simpl;
      [rewrite option_guard_False by (by rewrite Hid); simpl|]; (rewrite decide_True; [done|]); apply Hr.
    + right. rewrite Hv. by split.
    + left. split; [|done]. apply (elem_of_IdentityHeaders who) in Hin.
      rewrite allow_header in Hv by done. destruct Hin as [->|[v Hv']]; [|by rewrite Hv in Hv'].
      rewrite allow_removes, elem_of_base_remove by done. by left.
  - exists tok. split; [done|]. rewrite Hl. erewrite lookup_union_Some_l; [done|]. by rewrite lookup_insert_eq.
  - rewrite Hl, Hother by done. destruct (allow_cookie route req who) as [-> Hc]. unfold kept_cookie.
    destruct (cookie_change route req) as [[rest|]|] eqn:Hcc; [done|..].
    + rewrite decide_True; [done|]. apply Hr. left. split; [by apply Hc|done].
    + rewrite decide_False; [done|]. rewrite Hr. intros [[Hin _]|[Hin _]]; [by apply Hc in Hin|done].
Qed.

Lemma kept_cookie_clean route req client c p :
  rt_auth_mode route = AuthModeOIDC → rq_cookie req = default "" (client !! HeaderCookie) →
  kept_cookie route req client = Some c → p ∈ split c ";" → owned_piece route p = false.
Proof.
  intros Hm Hq. unfold kept_cookie, cookie_change. rewrite bool_decide_eq_true_2 by done.
  pose proof (cookies_clean route (rq_cookie req) p) as Hclean.
  pose proof (withoutSessionCookies_spec route (rq_cookie req) _ _ (surjective_pairing _)) as [_ Hsame].
  destruct (withoutSessionCookies route (rq_cookie req)) as [rest changed]. simpl in *. destruct changed.
  - destruct (bool_decide _); [done|]. by intros [= <-].
  - intros Hc. rewrite Hq, Hc in Hsame. simpl in Hsame. by rewrite Hsame in Hclean.
Qed.

(** ** Cached allows *)

Section Cached.
Context `{Unicode}.

Lemma grant_nul_free d0 evs sub sid host who expires :
  Forall event_ok evs → grant d0 evs sub sid host who expires →
  nul_free sub ∧ nul_free sid ∧ w_subject who = sub ∧ w_session who = sid.
Proof.
  intros Hok (pre & w & req & post & route & id & -> & _ & (_ & _ & _ & Hs & _) & _ & -> & -> & _ & -> & _).
  rewrite Forall_app, Forall_cons in Hok. destruct Hok as (_ & Hw & _).
  apply session_ok in Hs as (? & ? & _); [|done]. done.
Qed.

Lemma cached_granted d0 evs now id host who :
  d_cache d0 = ∅ → Forall event_ok evs → nul_free_id id →
  cache_get (d_cache (run d0 evs)) now (id_subject id) (id_session id) host = Some who →
  w_subject who = id_subject id ∧ w_session who = id_session id
  ∧ ∃ expires, (now < expires)%Z ∧ grant d0 evs (id_subject id) (id_session id) host who expires.
Proof.
  intros Hempty Hok (Hsub & Hsid & _) Hget. unfold cache_get in Hget.
  destruct (_ !! _) as [e|] eqn:Hk; [|done]. case_bool_decide as Hexp; [|done]. injection Hget as <-.
  apply cache_granted in Hk as (sub & sid & host' & Hkey & Hg); [|done].
  destruct (grant_nul_free _ _ _ _ _ _ _ Hok Hg) as (Hs & Hi & Hws & Hwi).
  apply cacheKey_inj in Hkey as (-> & -> & ->); [|done..]. split; [done|]. split; [done|]. by eexists.
Qed.

Lemma allowed_response b dec : dec_allow dec = true → response_of b dec = Allowed (dec_headers dec) (dec_remove dec).
Proof. unfold response_of. by intros ->. Qed.
Lemma forwarded_allow client b dec hs : forwarded client (response_of b dec) = Some hs → dec_allow dec = true.
Proof. unfold response_of. destruct (dec_allow dec); [done|]. simpl. by repeat case_match. Qed.

Lemma Check_forwards d0 evs b w h hs :
  d_cache d0 = ∅ → Forall event_ok evs → world_ok w →
  forwarded (h_headers h) (Check_ b w (run d0 evs) h).2 = Some hs →
  let req := request_of h in
  ∃ route id who, reaches w (run d0 evs) req route id
    ∧ w_subject who = id_subject id ∧ w_session who = id_session id
    ∧ (∀ name, name ∈ IdentityHeaders →
         hs !! name = if bool_decide (rt_exchange_scope route = "") then identity_headers who !! name else None)
    ∧ (if bool_decide (rt_exchange_scope route = "")
       then hs !! "authorization" = kept_authorization route (h_headers h)
       else ∃ tok, (exchange_token (wo_exchange w) (d_exchange (run d0 evs)) (wo_now_exchange w) who
                      (bearer (rq_authorization req)) (rt_exchange_scope route)).2 = Ok tok
                   ∧ hs !! "authorization" = Some ("Bearer " +:+ tok))
    ∧ (rt_auth_mode route = AuthModeOIDC → ∀ c p, hs !! HeaderCookie = Some c → p ∈ split c ";" →
         owned_piece route p = false).
Proof.
  intros Hempty Hok Hw Hf req. unfold Check_ in Hf. fold req in Hf.
  set (d := run d0 evs) in *. destruct (decide_ w d req) as [d' dec] eqn:Hdec. simpl in Hf.
  pose proof (forwarded_allow _ _ _ _ Hf) as Ha. rewrite allowed_response in Hf by done.
  destruct (decide_allow_who w d req) as (route & id & who & d1 & Hr & Hwho & Hx & Hh & Hrm & Hfin);
    [by rewrite Hdec|].
  rewrite Hdec in Hh, Hrm, Hwho. cbn [snd] in Hh, Hrm, Hwho. rewrite Hh, Hrm in Hf.
  pose proof (session_ok w route req id Hw ltac:(apply Hr)) as Hnf.
  assert (w_subject who = id_subject id ∧ w_session who = id_session id) as [Hsub Hsid].
  { destruct (dec_cached dec) in Hwho; [|destruct Hwho as [_ Hwho]; rewrite Hwho; split; reflexivity].
    apply cached_granted in Hwho as (? & ? & _); done. }
  exists route, id, who. split; [done|]. split; [done|]. split; [done|].
  destruct (finish_forwards w d1 route req who (h_headers h) hs Hfin Hf) as (Hid & Hauth & Hck).
  split; [done|]. split; [by rewrite Hx in Hauth|].
  intros Hm c p Hc. rewrite Hck in Hc. by apply (kept_cookie_clean route req (h_headers h) c).
Qed.
End Cached.

(** ** Exchanged tokens *)

(** A request for an app-bound token: who asks, with which session token, when,
    and what the realm would answer. *)
Record xcall := mkXcall { x_ex : option exchanger; x_now : Z; x_who : identity; x_subject : string; x_scope : string }.

Definition xtoken (entries : gmap string exchanged) (c : xcall) : gmap string exchanged * result string :=
  exchange_token (x_ex c) entries (x_now c) (x_who c) (x_subject c) (x_scope c).
Definition xrun (calls : list xcall) : gmap string exchanged := foldl (λ es c, (xtoken es c).1) ∅ calls.

Definition issued (c : xcall) (tok : string) (expires : Z) : Prop :=
  ∃ ex, x_ex c = Some ex ∧ ex (w_realm (x_who c)) (x_subject c) (x_scope c) = Ok (tok, expires).

Definition nul_free_who (who : identity) : Prop :=
  nul_free (w_realm who) ∧ nul_free (w_subject who) ∧ nul_free (w_session who).

Lemma xtoken_cases es c :
  (∃ e, es !! exchangeKey (x_who c) (x_scope c) = Some e ∧ (x_now c + exchangeMargin < ex_expires e)%Z
     ∧ xtoken es c = (es, Ok (ex_token e)))
  ∨ (∃ tok expires, issued c tok expires
     ∧ xtoken es c = (<[exchangeKey (x_who c) (x_scope c) := mkExchanged tok expires]>
                        (filter (λ '(_, e), (x_now c < ex_expires e)%Z) es), Ok tok))
  ∨ ∃ e, xtoken es c = (es, Err e).
Proof.
  unfold xtoken, exchange_token, issued. destruct (x_ex c) as [ex|]; [|right; right; by eexists].
  destruct (es !! _) as [e|] eqn:Hk; [destruct (bool_decide _) eqn:Hm|];
    [left; exists e; apply bool_decide_eq_true in Hm; done|right..];
    destruct (ex (w_realm (x_who c)) (x_subject c) (x_scope c)) as [[tok expires]|err] eqn:Hex;
    solve [left; exists tok, expires; split; [by exists ex|done]|right; by eexists].
Qed.

Lemma xrun_issued calls k e :
  xrun calls !! k = Some e →
  ∃ c, c ∈ calls ∧ k = exchangeKey (x_who c) (x_scope c) ∧ issued c (ex_token e) (ex_expires e).
Proof.
  revert k e. induction calls as [|c calls IH] using rev_ind; intros k e Hk; [done|].
  unfold xrun in Hk. rewrite foldl_app in Hk. simpl in Hk. fold (xrun calls) in Hk.
  assert (xrun calls !! k = Some e → ∃ c', c' ∈ calls ++ [c] ∧ k = exchangeKey (x_who c') (x_scope c')
    ∧ issued c' (ex_token e) (ex_expires e)) as Hold.
  { intros (c' & Hin & Hc')%IH. exists c'. split; [apply elem_of_app; by left|done]. }
  destruct (xtoken_cases (xrun calls) c) as [(e0 & _ & _ & Hx)|[(tok & expires & Hi & Hx)|[err Hx]]];
    rewrite Hx in Hk; [by apply Hold| |by apply Hold].
  cbn [fst] in Hk. apply lookup_insert_Some in Hk as [[<- <-]|[_ Hk]].
  - exists c. split; [apply elem_of_app; right; by left|done].
  - apply map_lookup_filter_Some in Hk as [Hk _]. by apply Hold.
Qed.

(** ** Properties *)

(** C1: A request is allowed exactly when its host has a route that publishes its
    path (and it is not a sign-out), the one token the route calls for verifies
    and names a session, and either an unexpired allow of that person's session
    on that host is cached or the store now grants the route's relation to the
    person or to their role holder; and, on a route that exchanges the token, the
    app-bound one was obtained.  Nothing else lets a request through. *)
Theorem decide_allows_iff `{Unicode} (w : world) (d : decider) (req : Request) :
  dec_allow (decide_ w d req).2 = true ↔
  ∃ route id, reaches w d req route id ∧
    match cache_get (d_cache d) (wo_now_get w) (id_subject id) (id_session id) (rt_host route) with
    | Some who => exchange_ok w d route req who
    | None => store_grants w route id ∧ exchange_ok w d route req (who_of id)
    end.
Proof. apply decide_allow_iff. Qed.

(** C4: A cached allow was granted.  In any history of decisions, new tables and
    evictions, an allow answered from the cache is one the store gave earlier to
    the same subject and session on the same host, less than the lifetime of an
    entry before, and after the last eviction. *)
Theorem cached_allow_was_granted `{Unicode} (table : option Table) (ttl : Z) (evs : list event)
    (w : world) (req : Request) :
  Forall event_ok evs → world_ok w →
  let d := run (New table ttl) evs in
  dec_allow (decide_ w d req).2 = true → dec_cached (decide_ w d req).2 = true →
  ∃ route id pre w0 req0 post route0 id0,
    reaches w d req route id
    ∧ evs = pre ++ EvDecide w0 req0 :: post ∧ (EvEvict ∉ post)
    ∧ reaches w0 (run (New table ttl) pre) req0 route0 id0 ∧ store_grants w0 route0 id0
    ∧ id_subject id0 = id_subject id ∧ id_session id0 = id_session id ∧ rt_host route0 = rt_host route
    ∧ (wo_now_get w < wo_now_put w0 + d_ttl (New table ttl))%Z.
Proof.
  intros Hok Hw d Ha Hc.
  destruct (decide_allow_who w d req Ha) as (route & id & who & _ & Hr & Hwho & _). rewrite Hc in Hwho.
  apply cached_granted in Hwho as (_ & _ & expires & Hexp & Hg); [|done|done|].
  - destruct Hg as (pre & w0 & req0 & post & route0 & id0 & -> & Hpost & Hr0 & Hg & Hsub & Hsid & Hhost & _ & ->).
    by exists route, id, pre, w0, req0, post, route0, id0.
  - eapply session_ok; [done|apply Hr].
Qed.

(** The app-bound token a backend is handed is the session's own.  However the
    exchanges before it went, a token that is handed on was issued by the realm
    for the same realm, subject, session and scope, either for this request or
    for an earlier one and then with more than thirty seconds left. *)
Theorem exchanged_token_is_the_sessions (calls : list xcall) (c : xcall) (tok : string) :
  Forall (λ c, nul_free_who (x_who c)) calls → nul_free_who (x_who c) →
  (xtoken (xrun calls) c).2 = Ok tok →
  ∃ c' expires, c' ∈ calls ++ [c] ∧ issued c' tok expires
    ∧ w_realm (x_who c') = w_realm (x_who c) ∧ w_subject (x_who c') = w_subject (x_who c)
    ∧ w_session (x_who c') = w_session (x_who c) ∧ x_scope c' = x_scope c
    ∧ (c' = c ∨ (x_now c + exchangeMargin < expires)%Z).
Proof.
  intros Hok (Hr & Hs & Hi) Htok. rewrite Forall_forall in Hok.
  destruct (xtoken_cases (xrun calls) c) as [(e & He & Hm & Hx)|[(tok' & expires & Hiss & Hx)|[err Hx]]];
    rewrite Hx in Htok; [| |done]; injection Htok as <-.
  - apply xrun_issued in He as (c' & Hin & Hkey & Hiss). destruct (Hok c' Hin) as (Hr' & Hs' & Hi').
    apply exchangeKey_inj in Hkey as (-> & -> & -> & ->); [|done..].
    exists c', (ex_expires e). split; [apply elem_of_app; by left|]. repeat split; try done. by right.
  - exists c, expires. split; [apply elem_of_app; right; by left|]. repeat split; try done. by left.
Qed.

(** A store that cannot be reached grants nothing: no decision is added to the
    cache, and what is allowed is allowed from it. *)
Theorem unreachable_store_fails_closed `{Unicode} (w : world) (d : decider) (req : Request) :
  (∀ user relation object, is_ok (wo_check w user relation object) = false) →
  d_cache (decide_ w d req).1 = d_cache d
  ∧ (dec_allow (decide_ w d req).2 = true → dec_cached (decide_ w d req).2 = true).
Proof.
  intros Hdown.
  assert (∀ route id, ¬ store_grants w route id) as Hno.
  { intros route id (user & _ & Hc). unfold CheckAs in Hc. specialize (Hdown user (rt_relation route) (rt_object route)).
    by destruct (wo_check w user (rt_relation route) (rt_object route)). }
  destruct (decide_outcome w d req) as [dec Hf _ _|route id who dec Hr Hc ->|route id dec d1 Hr Hc Hg];
    [by rewrite Hf|by rewrite finish_cache|]. by destruct (Hno route id).
Qed.

(** What of the session reaches the backend of an allowed request, whatever
    headers the client sent.  The six identity headers are the verified
    subject's and session's, or absent where a token takes their place: never the
    client's.  The Authorization header is the exchanged token, or gone unless
    the route forwards it or leaves it to the page.  No cookie of the edge is in
    the Cookie header of a session route. *)
Theorem backend_is_told_the_verified_identity `{Unicode} (table : option Table) (ttl : Z) (evs : list event)
    (b : string) (w : world) (h : http_request) (hs : gmap string string) :
  Forall event_ok evs → world_ok w →
  let d := run (New table ttl) evs in
  let req := request_of h in
  forwarded (h_headers h) (Check_ b w d h).2 = Some hs →
  ∃ route id who, reaches w d req route id
    ∧ w_subject who = id_subject id ∧ w_session who = id_session id
    ∧ (∀ name, name ∈ IdentityHeaders →
         hs !! name = if bool_decide (rt_exchange_scope route = "") then identity_headers who !! name else None)
    ∧ (if bool_decide (rt_exchange_scope route = "")
       then hs !! "authorization" = kept_authorization route (h_headers h)
       else ∃ tok, (exchange_token (wo_exchange w) (d_exchange d) (wo_now_exchange w) who
                      (bearer (rq_authorization req)) (rt_exchange_scope route)).2 = Ok tok
                   ∧ hs !! "authorization" = Some ("Bearer " +:+ tok))
    ∧ (rt_auth_mode route = AuthModeOIDC → ∀ c p, hs !! HeaderCookie = Some c → p ∈ split c ";" →
         owned_piece route p = false).
Proof. intros Hok Hw d req Hf. by eapply (Check_forwards (New table ttl) evs b w h hs). Qed.

(** ** Examples *)

Module EdgeExample.
#[export] Instance ascii_only : Unicode := λ s, s.
Definition route : Route :=
  mkRoute "crm.acme.example" "can_use" "app:acme/crm" "oidc" false false "" false "" ["/admin"]
    ["IdToken"] ["BearerToken-"] "".
Definition table : option Table := Some (mkTable [route] []).
Definition person : Identity := mkIdentity "sub1" "acme" "https://id/realms/acme" "s1" "edge" "Ada" "ada@acme.example" [].
Definition may (yes : bool) (now : Z) : world :=
  mkWorld (λ raw, if bool_decide (raw = "tok") then Ok person else Err ErrUnauthenticated)
    (λ _ _, Err ErrUnauthenticated) (λ _ _ _, Ok yes) None now now now.
Definition down (now : Z) : world :=
  mkWorld (λ raw, if bool_decide (raw = "tok") then Ok person else Err ErrUnauthenticated)
    (λ _ _, Err ErrUnauthenticated) (λ _ _ _, Err (Sentinel "unreachable")) None now now now.
Definition call : http_request :=
  mkHttp "r1" "" "/contacts"
    (list_to_map [(":authority", "crm.acme.example:443"); ("authorization", "Bearer tok");
                  ("cookie", "IdToken=e; theme=dark; BearerToken-1=x"); ("x-gentian-subject", "admin")]).
Definition before : list event := [EvDecide (may true 0) (request_of call)].

Lemma person_nul_free : nul_free_id person.
Proof. done. Qed.
Lemma may_ok yes now : world_ok (may yes now).
Proof.
  split; simpl; [|done]. intros raw id. case_bool_decide; [|done]. intros [= <-]. apply person_nul_free.
Qed.
Lemma down_ok now : world_ok (down now).
Proof.
  split; simpl; [|done]. intros raw id. case_bool_decide; [|done]. intros [= <-]. apply person_nul_free.
Qed.
Lemma before_ok : Forall event_ok before.
Proof. constructor; [apply may_ok|constructor]. Qed.
End EdgeExample.
#[local] Existing Instance EdgeExample.ascii_only.

(** The store is down; the person was allowed a minute before. *)
Lemma cached_allow_was_granted_witness :
  let w := EdgeExample.down 60000000000 in
  let d := run (New EdgeExample.table 0) EdgeExample.before in
  let req := request_of EdgeExample.call in
  ∃ route id pre w0 req0 post route0 id0,
    reaches w d req route id
    ∧ EdgeExample.before = pre ++ EvDecide w0 req0 :: post ∧ (EvEvict ∉ post)
    ∧ reaches w0 (run (New EdgeExample.table 0) pre) req0 route0 id0 ∧ store_grants w0 route0 id0
    ∧ id_subject id0 = id_subject id ∧ id_session id0 = id_session id ∧ rt_host route0 = rt_host route
    ∧ (wo_now_get w < wo_now_put w0 + d_ttl (New EdgeExample.table 0))%Z.
Proof.
  intros w d req.
  apply (cached_allow_was_granted EdgeExample.table 0 EdgeExample.before w req).
  - apply EdgeExample.before_ok.
  - apply EdgeExample.down_ok.
  - vm_compute. reflexivity.
  - vm_compute. reflexivity.
Defined.

Lemma unreachable_store_fails_closed_witness :
  let w := EdgeExample.down 0 in
  let d := New EdgeExample.table 0 in
  d_cache (decide_ w d (request_of EdgeExample.call)).1 = d_cache d
  ∧ (dec_allow (decide_ w d (request_of EdgeExample.call)).2 = true →
     dec_cached (decide_ w d (request_of EdgeExample.call)).2 = true).
Proof. apply unreachable_store_fails_closed. reflexivity. Defined.

(** The realm is down; the token of a minute before is handed on. *)
Lemma exchanged_token_is_the_sessions_witness :
  let ex : exchanger := λ realm tok scope, Ok ("app-" +:+ scope, 1000000000000%Z) in
  let who := mkWho "sub1" "acme" "s1" "" "" in
  let c0 := mkXcall (Some ex) 0 who "t0" "crm" in
  let c := mkXcall (Some (λ _ _ _, Err (Sentinel "down"))) 60000000000 who "t1" "crm" in
  (xtoken (xrun [c0]) c).2 = Ok "app-crm"
  ∧ ∃ c' expires, c' ∈ [c0] ++ [c] ∧ issued c' "app-crm" expires.
Proof.
  intros ex who c0 c. split; [vm_compute; reflexivity|].
  destruct (exchanged_token_is_the_sessions [c0] c "app-crm") as (c' & expires & Hin & Hiss & _).
  - repeat constructor.
  - repeat constructor.
  - vm_compute. reflexivity.
  - exists c', expires. split; assumption.
Defined.

(** The client's own identity header and the edge's cookies do not arrive. *)
Lemma backend_is_told_the_verified_identity_witness :
  let hs := <["cookie" := "theme=dark"]>
    (<[":authority" := "crm.acme.example:443"]> (identity_headers (who_of EdgeExample.person))) in
  forwarded (h_headers EdgeExample.call)
    (Check_ "" (EdgeExample.may true 0) (run (New EdgeExample.table 0) []) EdgeExample.call).2
  = Some hs
  ∧ ∃ route id who, reaches (EdgeExample.may true 0) (run (New EdgeExample.table 0) []) (request_of EdgeExample.call) route id
      ∧ w_subject who = id_subject id.
Proof.
  intros hs. assert (forwarded (h_headers EdgeExample.call)
    (Check_ "" (EdgeExample.may true 0) (run (New EdgeExample.table 0) []) EdgeExample.call).2 = Some hs) as Hf
    by (vm_compute; reflexivity).
  split; [exact Hf|].
  destruct (backend_is_told_the_verified_identity EdgeExample.table 0 [] "" (EdgeExample.may true 0)
    EdgeExample.call hs) as (route & id & who & Hr & Hsub & _).
  - constructor.
  - apply EdgeExample.may_ok.
  - exact Hf.
  - exists route, id, who. split; assumption.
Defined.
