(* ===== verification/Revocation.v ===== *)
(** * How long a revoked right survives

    [internal/bouncer/poller.go]: the poller that follows the store's changelog
    and evicts the decision cache, first by itself, then beside decisions that
    are under way.  A decision asks the store and writes its allow to the cache
    in two steps, and the poller may evict between them: what that means for a
    right that is taken away is stated here for both orders.  Before its first tick the
    poller finds the end of the log and evicts nothing, and decisions are made meanwhile
    ([cmd/bouncer/main.go] starts both): that is a step of its own.

    The store's changelog is the parameter [Changelog]; in the second half the
    store's answer is any function of what was written to it. *)

From S2P Require Import Prelude.
From S2P Require Import GoStrings.
From S2P Require Import Fga.
From S2P Require Import Decider.
From S2P Require Import DeciderSafety.
From Stdlib Require Import ZArith.

(** ** The poller *)

Class Changelog (W : Type) := changes_ : W → string → result (list tuple * string).

(** OpenFGA's: a token stands for a position in the log, the empty one for its
    beginning; a read answers changes from there on, none only at the end, and
    the token after them, a new one when there are any. *)
Class ChangelogLaws (W : Type) `{Changelog W} := {
  cl_log : W → list tuple;
  cl_pos : string → nat;
  cl_pos_start : cl_pos "" = 0;
  cl_ok s tok l next : changes_ s tok = Ok (l, next) →
    l `prefix_of` drop (cl_pos tok) (cl_log s)
    ∧ (l = [] → drop (cl_pos tok) (cl_log s) = [])
    ∧ (next ≠ "" → cl_pos next = cl_pos tok + length l)
    ∧ (l ≠ [] → next ≠ "" ∧ next ≠ tok) }.

Section Poll.
Context {W} `{Changelog W}.

(** The fast-forward before the first tick: the token the poller starts from. *)
Fixpoint fast_forward (fuel : nat) (s : W) (token : string) : option string :=
  match fuel with
  | 0 => None
  | S fuel =>
      match changes_ s token with
      | Err _ => Some token
      | Ok (l, next) =>
          if bool_decide (next = "") || bool_decide (next = token) || bool_decide (l = [])
          then Some (if bool_decide (next = "") then token else next)
          else fast_forward fuel s next
      end
  end.

(** One tick: the token it leaves, and the numbers of changes it called back with. *)
Fixpoint poll_tick (fuel : nat) (s : W) (token : string) : option (string * list nat) :=
  match fuel with
  | 0 => None
  | S fuel =>
      match changes_ s token with
      | Err _ => Some (token, [])
      | Ok (l, next) =>
          let called := match l with [] => [] | _ => [length l] end in
          if bool_decide (next = "") || bool_decide (next = token) then Some (token, called)
          else if bool_decide (l = []) then Some (next, called)
          else '(token', more) ← poll_tick fuel s next; Some (token', called ++ more)
      end
  end.

Context `{Hl : !ChangelogLaws W}.

Lemma poll_tick_spec s token fuel :
  S (length (cl_log s) - cl_pos token) ≤ fuel →
  ∃ token' called, poll_tick fuel s token = Some (token', called)
    ∧ cl_pos token + sum_list called = cl_pos token'
    ∧ Forall (λ n, 0 < n) called
    ∧ (drop (cl_pos token') (cl_log s) = [] ∨ ∃ e, changes_ s token' = Err e).
Proof.
  revert token. induction fuel as [|fuel IH]; intros token Hfuel; [lia|]. simpl.
  destruct (changes_ s token) as [[l next]|e] eqn:Hc.
  2: { exists token, []. split_and!; [done|simpl; lia|constructor|right; by exists e]. }
  destruct (cl_ok _ _ _ _ Hc) as (Hpre & Hend & Hnext & Hnew).
  destruct l as [|c l].
  - specialize (Hend eq_refl). assert (Forall (λ n, 0 < n) ([] : list nat)) by constructor.
    destruct (bool_decide (next = "") || bool_decide (next = token)) eqn:Hstop.
    + exists token, []. split_and!; [done|simpl; lia|done|by left].
    + rewrite orb_false_iff, !bool_decide_eq_false in Hstop. specialize (Hnext (proj1 Hstop)).
      simpl in Hnext. exists next, []. split_and!; [done|simpl; lia|done|left].
      by rewrite Hnext, Nat.add_0_r.
  - destruct (Hnew ltac:(done)) as [Hne Hnt]. specialize (Hnext Hne).
    rewrite (bool_decide_eq_false_2 (next = "")), (bool_decide_eq_false_2 (next = token)) by done. simpl.
    pose proof (prefix_length _ _ Hpre) as Hlen. rewrite length_drop in Hlen. simpl in Hlen, Hnext.
    destruct (IH next) as (token' & called & Hrun & Hsum & Hpos & Hdone); [lia|].
    rewrite Hrun. simpl. exists token', (S (length l) :: called). split_and!; [done|simpl; lia|constructor; [lia|done]|done].
Qed.

(** Before the first tick the poller finds the end of the log, or the place where a
    read failed, within as many reads. *)
Lemma fast_forward_spec s token fuel :
  S (length (cl_log s) - cl_pos token) ≤ fuel →
  ∃ token', fast_forward fuel s token = Some token' ∧ cl_pos token ≤ cl_pos token'
    ∧ (drop (cl_pos token') (cl_log s) = [] ∨ ∃ e, changes_ s token' = Err e).
Proof.
  revert token. induction fuel as [|fuel IH]; intros token Hfuel; [lia|]. simpl.
  destruct (changes_ s token) as [[l next]|e] eqn:Hc.
  2: { exists token. split_and!; [done|lia|right; by exists e]. }
  destruct (cl_ok _ _ _ _ Hc) as (Hpre & Hend & Hnext & Hnew).
  destruct l as [|c l].
  - specialize (Hend eq_refl). rewrite (bool_decide_eq_true_2 ([] = [])), orb_true_r by done.
    case_bool_decide as Hne; [by exists token; split_and!; [..|left]|].
    specialize (Hnext Hne). simpl in Hnext. exists next. split_and!; [done|lia|left].
    by rewrite Hnext, Nat.add_0_r.
  - destruct (Hnew ltac:(done)) as [Hne Hnt]. specialize (Hnext Hne).
    rewrite (bool_decide_eq_false_2 (next = "")), (bool_decide_eq_false_2 (next = token)) by done. simpl.
    pose proof (prefix_length _ _ Hpre) as Hlen. rewrite length_drop in Hlen. simpl in Hlen, Hnext.
    destruct (IH next) as (token' & Hrun & Hpos & Hdone); [lia|].
    exists token'. split_and!; [done|lia|done].
Qed.
End Poll.

(** ** Beside decisions that are under way *)

(** A decision that asked the store and has not yet written its allow: whom it is
    about, and how much had been written to the store when it asked. *)
Record pending := mkPending { p_sub : string; p_sid : string; p_host : string; p_who : identity; p_at : nat }.

(** The store's writes; how far the poller is, and what it has read of the log but
    not acted on; whether it still looks for the end of the log; the clock; the cache;
    the decisions under way. *)
Record edge := mkEdge {
  y_log : list tuple; y_pos : nat; y_read : option nat; y_forward : bool; y_now : Z;
  y_cache : gmap string cacheEntry; y_pending : list pending }.

(** A replica starts on a store that has been written to. *)
Definition edge_start (log : list tuple) : edge := mkEdge log 0 None true 0 ∅ [].

Section Edge.
(** The store's answer to a route's question about a subject, given what was
    written, and the lifetime of an entry. *)
Context (answer : list tuple → string → string → bool) (ttl : Z).

Inductive edge_step : edge → edge → Prop :=
  | edge_write y t :
      edge_step y (mkEdge (y_log y ++ [t]) (y_pos y) (y_read y) (y_forward y) (y_now y) (y_cache y) (y_pending y))
  (** [decide] asks the store and is allowed. *)
  | edge_ask y sub sid host who :
      nul_free sub → nul_free sid →
      answer (y_log y) sub host = true →
      edge_step y (mkEdge (y_log y) (y_pos y) (y_read y) (y_forward y) (y_now y) (y_cache y)
                     (mkPending sub sid host who (length (y_log y)) :: y_pending y))
  (** It writes the allow to the cache. *)
  | edge_put y p before after :
      y_pending y = before ++ p :: after →
      edge_step y (mkEdge (y_log y) (y_pos y) (y_read y) (y_forward y) (y_now y)
                     (cache_put (y_cache y) ttl (y_now y) (p_sub p) (p_sid p) (p_host p) (p_who p))
                     (before ++ after))
  (** Before its first tick the poller goes on to the end of a page, and nothing is
      evicted; at the end of the log, or where a read fails, it begins to tick. *)
  | edge_forward y n :
      y_forward y = true → y_pos y ≤ n ≤ length (y_log y) →
      edge_step y (mkEdge (y_log y) n (y_read y) true (y_now y) (y_cache y) (y_pending y))
  | edge_begin y :
      y_forward y = true →
      edge_step y (mkEdge (y_log y) (y_pos y) (y_read y) false (y_now y) (y_cache y) (y_pending y))
  (** The poller reads a page of the log, and then evicts if it read anything. *)
  | edge_poll_read y n :
      y_forward y = false → y_pos y ≤ n ≤ length (y_log y) →
      edge_step y (mkEdge (y_log y) (y_pos y) (Some n) (y_forward y) (y_now y) (y_cache y) (y_pending y))
  | edge_poll_evict y n :
      y_read y = Some n →
      edge_step y (mkEdge (y_log y) n None (y_forward y) (y_now y) (if bool_decide (y_pos y < n) then ∅ else y_cache y)
                     (y_pending y))
  | edge_time y dt :
      (0 <= dt)%Z →
      edge_step y (mkEdge (y_log y) (y_pos y) (y_read y) (y_forward y) (y_now y + dt) (y_cache y) (y_pending y)).

(** The same when the poller's eviction finds no decision under way that asked the
    store before the writes the eviction is for. *)
Definition quiet_step (y y' : edge) : Prop :=
  edge_step y y' ∧ (y_pos y' = y_pos y ∨ ∀ p, p ∈ y_pending y → y_pos y' ≤ p_at p).

(** The poller ticks, nothing is cached, and what is under way asked after everything the
    poller has passed: as an eviction leaves it that finds nothing older under way, and as
    the fast-forward leaves it when nothing was asked before it ended. *)
Definition clean_slate (y : edge) : Prop := y_forward y = false ∧ y_cache y = ∅ ∧ ∀ p, p ∈ y_pending y → y_pos y ≤ p_at p.

(** The cached allow of a subject's session on a host. *)
Definition cached (y : edge) (sub sid host : string) : option identity :=
  cache_get (y_cache y) (y_now y) sub sid host.

(** An allow the store gave after [n] writes, [n] being no less than [lo]. *)
Definition allowed_since (y : edge) (lo : nat) (sub host : string) : Prop :=
  ∃ n, lo ≤ n ≤ length (y_log y) ∧ answer (take n (y_log y)) sub host = true.

Definition entry_ok (y : edge) (lo : nat) (k : string) (e : cacheEntry) : Prop :=
  ∃ sub sid host t, nul_free sub ∧ nul_free sid ∧ k = cacheKey sub sid host
    ∧ allowed_since y lo sub host ∧ (t <= y_now y)%Z ∧ ce_expires e = (t + ttl)%Z.

Definition pending_ok (y : edge) (lo : nat) (p : pending) : Prop :=
  nul_free (p_sub p) ∧ nul_free (p_sid p) ∧ lo ≤ p_at p ≤ length (y_log y)
  ∧ answer (take (p_at p) (y_log y)) (p_sub p) (p_host p) = true.

(** Everything cached, but for entries with the expiries [old], and everything under
    way was allowed since [lo]. *)
Definition allowed_but (old : Z → Prop) (lo : nat) (y : edge) : Prop :=
  (∀ k e, y_cache y !! k = Some e → old (ce_expires e) ∨ entry_ok y lo k e)
  ∧ (∀ p, p ∈ y_pending y → pending_ok y lo p).

Definition allowed_from : nat → edge → Prop := allowed_but (λ _, False).

Lemma allowed_since_mono y y' lo sub host :
  y_log y `prefix_of` y_log y' → allowed_since y lo sub host → allowed_since y' lo sub host.
Proof.
  intros [l Hl] (n & Hn & Ha). exists n. rewrite Hl, length_app, take_app_le by lia. split; [lia|done].
Qed.

Lemma entry_ok_mono y y' lo k e :
  y_log y `prefix_of` y_log y' → (y_now y <= y_now y')%Z → entry_ok y lo k e → entry_ok y' lo k e.
Proof.
  intros Hl Hn (sub & sid & host & t & ? & ? & ? & ? & ? & ?). exists sub, sid, host, t.
  split_and!; try done; [by eapply allowed_since_mono|lia].
Qed.

Lemma pending_ok_mono y y' lo p : y_log y `prefix_of` y_log y' → pending_ok y lo p → pending_ok y' lo p.
Proof.
  intros [l Hl] (? & ? & Hn & Ha). unfold pending_ok. rewrite Hl, length_app, take_app_le by lia.
  split_and!; try done; lia.
Qed.

(** No step forgets what was written, and the clock does not go back. *)
Lemma edge_step_mono y y' : edge_step y y' → y_log y `prefix_of` y_log y' ∧ (y_now y <= y_now y')%Z.
Proof. destruct 1; simpl; (split; [try done; by apply prefix_app_r|lia]). Qed.

Lemma allowed_but_step old lo y y' :
  lo ≤ length (y_log y) → edge_step y y' → allowed_but old lo y → allowed_but old lo y'.
Proof.
  intros Hlo Hstep [Hc Hp]. destruct (edge_step_mono _ _ Hstep) as [Hlog Hnow].
  assert (∀ k e, y_cache y !! k = Some e → old (ce_expires e) ∨ entry_ok y' lo k e) as Hc'.
  { intros k e Hk. destruct (Hc k e Hk); [by left|right; by eapply entry_ok_mono]. }
  assert (∀ p, p ∈ y_pending y → pending_ok y' lo p) as Hp' by (intros; by eapply pending_ok_mono, Hp).
  destruct Hstep as [y t|y sub sid host who Hs1 Hs2 Ha|y p before after Hin|y n Hfw Hn|y Hfw|y n Hfw Hn|y n Hn|y dt Hdt]; simpl in *;
    split; simpl; try done.
  - intros p. rewrite elem_of_cons. intros [->|Hin]; [|by apply Hp'].
    split_and!; simpl; try done. by rewrite firstn_all.
  - intros k e Hk. unfold cache_put in Hk. apply lookup_insert_Some in Hk as [[<- <-]|[_ Hk]]; [|by apply Hc'].
    destruct (Hp p) as (? & ? & Hn & Ha); [rewrite Hin; set_solver|].
    right. exists (p_sub p), (p_sid p), (p_host p), (y_now y). split_and!; simpl; try done. by exists (p_at p).
  - intros p' Hp0. apply Hp'. rewrite Hin. set_solver.
  - intros k e Hk. case_bool_decide; [by rewrite lookup_empty in Hk|by apply Hc'].
Qed.

(** What the poller has acted on, it has read, and what it has read was written; before it
    ticks it has read nothing it has not acted on. *)
Definition poller_ok (y : edge) : Prop :=
  y_pos y ≤ length (y_log y) ∧ (∀ n, y_read y = Some n → y_pos y ≤ n ≤ length (y_log y))
  ∧ (y_forward y = true → y_read y = None).

Lemma poller_ok_step y y' : edge_step y y' → poller_ok y → poller_ok y'.
Proof.
  intros Hstep (Hpos & Hread & Hnone).
  destruct Hstep as [y t| | |y m Hfw Hm|y Hfw|y m Hfw Hm|y n Hn|]; split_and!; simpl in *; try done.
  - rewrite length_app. lia.
  - intros n Hn. rewrite length_app. specialize (Hread n Hn). lia.
  - lia.
  - intros n Hn. by rewrite (Hnone Hfw) in Hn.
  - intros _. by apply Hnone.
  - intros n [= <-]. lia.
  - congruence.
  - specialize (Hread n Hn). lia.
Qed.

Lemma quiet_step_allowed y y' :
  quiet_step y y' → y_forward y = false → poller_ok y → allowed_from (y_pos y) y → allowed_from (y_pos y') y'.
Proof.
  intros [Hstep Hquiet] Hfw (Hpos & Hread & _) Hall.
  assert (y_pos y' = y_pos y → allowed_from (y_pos y') y') as Hsame
    by (intros ->; by eapply allowed_but_step).
  destruct Hstep as [| | |y n Hf _| | |y n Hn|]; try (by apply Hsame); simpl in *; [congruence|].
  destruct (decide (n = y_pos y)) as [He|Hne]; [by apply Hsame|].
  destruct Hquiet as [?|Hquiet]; [lia|]. specialize (Hread n Hn).
  split; simpl; intros.
  - rewrite bool_decide_true in * by lia. by rewrite lookup_empty in *.
  - destruct Hall as [_ Hp]. destruct (Hp p) as (? & ? & ? & ?); [done|].
    specialize (Hquiet p). split_and!; try done; simpl; [|lia]. auto.
Qed.

Lemma reached_poller_ok log y : rtc edge_step (edge_start log) y → poller_ok y.
Proof.
  revert y. apply (rtc_ind_r poller_ok); [|intros; by eapply poller_ok_step].
  split_and!; simpl; [lia|done|done].
Qed.

Lemma reached_allowed log y : rtc edge_step (edge_start log) y → allowed_from 0 y.
Proof.
  revert y. apply (rtc_ind_r (allowed_from 0)); [|intros; eapply allowed_but_step; [lia|done..]].
  split; simpl; [intros k e; by rewrite lookup_empty|intros p; by rewrite elem_of_nil].
Qed.

Lemma forward_stays_off y y' : edge_step y y' → y_forward y = false → y_forward y' = false.
Proof. destruct 1; simpl; congruence. Qed.

Lemma clean_allowed log y : rtc edge_step (edge_start log) y → clean_slate y → allowed_from (y_pos y) y.
Proof.
  intros Hreach (_ & Hc & Hp). destruct (reached_allowed log y Hreach) as [_ Hall]. split.
  - intros k e. by rewrite Hc, lookup_empty.
  - intros p Hin. destruct (Hall p Hin) as (? & ? & ? & ?). specialize (Hp p Hin). split_and!; try done; lia.
Qed.

Lemma quiet_reached log y0 y : rtc edge_step (edge_start log) y0 → clean_slate y0 → rtc quiet_step y0 y →
  y_forward y = false ∧ poller_ok y ∧ allowed_from (y_pos y) y.
Proof.
  intros Hreach Hclean. revert y. apply (rtc_ind_r (λ y, y_forward y = false ∧ poller_ok y ∧ allowed_from (y_pos y) y)).
  - split_and!; [apply Hclean|by eapply reached_poller_ok|by eapply clean_allowed].
  - intros y1 y2 _ Hstep (Hf & Hp & Ha).
    split_and!; [by eapply forward_stays_off; [apply Hstep|]|by eapply poller_ok_step; [apply Hstep|]|by eapply quiet_step_allowed].
Qed.

(** A served entry is an entry of this subject's, not yet expired. *)
Lemma cached_entry old y lo sub sid host who :
  allowed_but old lo y → nul_free sub → nul_free sid → cached y sub sid host = Some who →
  (∀ x, old x → (x <= y_now y)%Z) → allowed_since y lo sub host.
Proof.
  unfold cached, cache_get. intros [Hc _] Hs1 Hs2 Hget Hold.
  destruct (y_cache y !! cacheKey sub sid host) as [e|] eqn:He; [|done].
  destruct (Hc _ _ He) as [Hx|(sub' & sid' & host' & t & ? & ? & Hk & Ha & _)].
  - apply Hold in Hx. rewrite bool_decide_false in Hget by lia. done.
  - by apply cacheKey_inj in Hk as (-> & -> & ->).
Qed.

Lemma expiring_reached log y0 y :
  rtc edge_step y0 y → length (y_log y0) ≤ length (y_log y) ∧
  (rtc edge_step (edge_start log) y0 → y_pending y0 = [] →
   allowed_but (λ x, (x <= y_now y0 + ttl)%Z) (length (y_log y0)) y).
Proof.
  revert y. apply (rtc_ind_r (λ y, _ ∧ (_ → _ → allowed_but _ _ y))).
  - split; [done|]. intros Hreach Hnone. destruct (reached_allowed _ _ Hreach) as [Hc _]. split.
    + intros k e Hk. left. destruct (Hc k e Hk) as [[]|(? & ? & ? & t & ? & ? & ? & ? & ? & ->)]. lia.
    + intros p. by rewrite Hnone, elem_of_nil.
  - intros y1 y2 _ Hstep [Hlen Hall]. split.
    + destruct (edge_step_mono _ _ Hstep) as [Hlog _]. apply prefix_length in Hlog. lia.
    + intros. eapply allowed_but_step; [done|done|auto].
Qed.

(** A cached allow outlives the grant it was given under when the decision that
    asked for it writes it after the eviction. *)
Lemma late_put t1 t2 dt sub sid host who :
  nul_free sub → nul_free sid → answer [t1] sub host = true → (0 <= dt)%Z →
  rtc edge_step (edge_start [t1])
    (mkEdge [t1; t2] 2 None false dt (cache_put ∅ ttl 0 sub sid host who) []).
Proof.
  intros Hs1 Hs2 Ha Hdt. pose (p := mkPending sub sid host who 1).
  apply (rtc_l _ _ (mkEdge [t1] 1 None true 0 ∅ [])); [apply (edge_forward (edge_start [t1])); simpl; [done|lia]|].
  apply (rtc_l _ _ (mkEdge [t1] 1 None false 0 ∅ [])); [by apply (edge_begin (mkEdge [t1] 1 None true 0 ∅ []))|].
  apply (rtc_l _ _ (mkEdge [t1] 1 None false 0 ∅ [p])); [by apply (edge_ask (mkEdge [t1] 1 None false 0 ∅ []))|].
  apply (rtc_l _ _ (mkEdge [t1; t2] 1 None false 0 ∅ [p])); [exact (edge_write (mkEdge [t1] 1 None false 0 ∅ [p]) t2)|].
  apply (rtc_l _ _ (mkEdge [t1; t2] 1 (Some 2) false 0 ∅ [p])); [apply (edge_poll_read (mkEdge [t1; t2] 1 None false 0 ∅ [p])); simpl; [done|lia]|].
  apply (rtc_l _ _ (mkEdge [t1; t2] 2 None false 0 ∅ [p])); [exact (edge_poll_evict (mkEdge [t1; t2] 1 (Some 2) false 0 ∅ [p]) 2 eq_refl)|].
  apply (rtc_l _ _ (mkEdge [t1; t2] 2 None false 0 (cache_put ∅ ttl 0 sub sid host who) []));
    [exact (edge_put (mkEdge [t1; t2] 2 None false 0 ∅ [p]) p [] [] eq_refl)|].
  apply rtc_once. exact (edge_time (mkEdge [t1; t2] 2 None false 0 (cache_put ∅ ttl 0 sub sid host who) []) dt Hdt).
Qed.

(** So does one that was cached while the poller looked for the end of the log. *)
Lemma put_while_starting log t dt sub sid host who :
  nul_free sub → nul_free sid → answer log sub host = true → (0 <= dt)%Z →
  rtc edge_step (edge_start log)
    (mkEdge (log ++ [t]) (S (length log)) None false dt (cache_put ∅ ttl 0 sub sid host who) []).
Proof.
  intros Hs1 Hs2 Ha Hdt. pose (p := mkPending sub sid host who (length log)). pose (c := cache_put ∅ ttl 0 sub sid host who).
  apply (rtc_l _ _ (mkEdge log 0 None true 0 ∅ [p])); [by apply (edge_ask (edge_start log))|].
  apply (rtc_l _ _ (mkEdge log 0 None true 0 c [])); [exact (edge_put (mkEdge log 0 None true 0 ∅ [p]) p [] [] eq_refl)|].
  apply (rtc_l _ _ (mkEdge (log ++ [t]) 0 None true 0 c [])); [exact (edge_write (mkEdge log 0 None true 0 c []) t)|].
  apply (rtc_l _ _ (mkEdge (log ++ [t]) (S (length log)) None true 0 c [])).
  { apply (edge_forward (mkEdge (log ++ [t]) 0 None true 0 c [])); simpl; [done|rewrite length_app; simpl; lia]. }
  apply (rtc_l _ _ (mkEdge (log ++ [t]) (S (length log)) None false 0 c [])); [by apply (edge_begin (mkEdge (log ++ [t]) (S (length log)) None true 0 c []))|].
  apply rtc_once. exact (edge_time (mkEdge (log ++ [t]) (S (length log)) None false 0 c []) dt Hdt).
Qed.
End Edge.

(** ** What is claimed *)

(** One tick of the poller ends, within as many reads as there are changes it has
    not seen, and its callbacks have reported exactly the changes it has moved past:
    it stops at the end of the log, or where a read failed, to go on from there at
    the next tick.  No change is skipped and none is reported twice. *)
Theorem poll_tick_reports_every_change {W} `{ChangelogLaws W} (s : W) token fuel :
  S (length (cl_log s) - cl_pos token) ≤ fuel →
  ∃ token' called, poll_tick fuel s token = Some (token', called)
    ∧ cl_pos token' = cl_pos token + sum_list called
    ∧ Forall (λ n, 0 < n) called
    ∧ (drop (cl_pos token') (cl_log s) = [] ∨ ∃ e, changes_ s token' = Err e).
Proof.
  intros Hfuel. destruct (poll_tick_spec s token fuel Hfuel) as (token' & called & ? & ? & ? & ?).
  exists token', called. split_and!; [done|lia|done|done].
Qed.

(** C24: The cache follows the store.  From a moment at which the poller ticks, nothing is cached
    and what is under way asked after everything the poller has passed, and for as long as
    no eviction finds a decision under way that asked before the writes it is for: every
    allow that is served from the cache is one the store gave after everything the poller
    has passed; so while the poller is at the end of the log, the cache serves only what the
    store allows now.  What happened before that moment, the poller's fast-forward among it,
    is any run at all. *)
Theorem quiet_cache_follows_the_store answer ttl log y0 y sub sid host who :
  rtc (edge_step answer ttl) (edge_start log) y0 → clean_slate y0 → rtc (quiet_step answer ttl) y0 y →
  nul_free sub → nul_free sid → cached y sub sid host = Some who →
  allowed_since answer y (y_pos y) sub host
  ∧ (y_pos y = length (y_log y) → answer (y_log y) sub host = true).
Proof.
  intros Hreach Hclean Hrun Hs1 Hs2 Hget. destruct (quiet_reached _ _ log y0 y Hreach Hclean Hrun) as (_ & _ & Hall).
  assert (allowed_since answer y (y_pos y) sub host) as Ha by (by eapply cached_entry).
  split; [done|]. intros Heq. destruct Ha as (n & Hn & Ha). rewrite Heq in Hn.
  by rewrite take_ge in Ha by lia.
Qed.

(** Without the condition on what is under way it does not: a decision that asks before a
    right is revoked and writes its allow after the eviction leaves the revoked right in the
    cache, with the poller at the end of the log and nothing left to evict it, and
    the allow is served for as long as an entry lives. *)
Theorem revoked_right_outlives_the_poll answer ttl t1 t2 dt sub sid host who :
  nul_free sub → nul_free sid →
  answer [t1] sub host = true → answer [t1; t2] sub host = false → (0 <= dt < ttl)%Z →
  ∃ y, rtc (edge_step answer ttl) (edge_start [t1]) y
    ∧ y_pos y = length (y_log y) ∧ y_read y = None ∧ y_pending y = [] ∧ y_now y = dt
    ∧ answer (y_log y) sub host = false
    ∧ cached y sub sid host = Some who.
Proof.
  intros Hs1 Hs2 Hyes Hno Hdt. eexists. split; [by apply (late_put answer ttl t1 t2 dt sub sid host who); [..|lia]|].
  split_and!; try done. unfold cached, cache_get, cache_put. simpl.
  rewrite lookup_insert_eq. simpl. by rewrite bool_decide_true by lia.
Qed.

(** Nor without the condition on the start: a right that is revoked while a replica's poller
    still looks for the end of the log is passed over.  An allow cached before it, with no
    decision under way, is served for as long as an entry lives, the poller ticking at the
    end of the log and nothing left to evict it. *)
Theorem revoked_while_starting answer ttl log t dt sub sid host who :
  nul_free sub → nul_free sid →
  answer log sub host = true → answer (log ++ [t]) sub host = false → (0 <= dt < ttl)%Z →
  ∃ y, rtc (edge_step answer ttl) (edge_start log) y
    ∧ y_log y = log ++ [t] ∧ y_pos y = length (y_log y) ∧ y_forward y = false ∧ y_read y = None ∧ y_pending y = [] ∧ y_now y = dt
    ∧ answer (y_log y) sub host = false
    ∧ cached y sub sid host = Some who.
Proof.
  intros Hs1 Hs2 Hyes Hno Hdt. eexists. split; [by apply (put_while_starting answer ttl log t dt sub sid host who); [..|lia]|].
  split_and!; try done; [simpl; rewrite length_app; simpl; lia|]. unfold cached, cache_get, cache_put. simpl.
  rewrite lookup_insert_eq. simpl. by rewrite bool_decide_true by lia.
Qed.

(** An entry's lifetime bounds it in every order of steps: from a moment at which
    no decision is under way, after one lifetime the cache serves only what the store
    has allowed since that moment. *)
Theorem revoked_right_ends_with_its_entry answer ttl log y0 y sub sid host who :
  rtc (edge_step answer ttl) (edge_start log) y0 → y_pending y0 = [] →
  rtc (edge_step answer ttl) y0 y → (y_now y0 + ttl <= y_now y)%Z →
  nul_free sub → nul_free sid → cached y sub sid host = Some who →
  allowed_since answer y (length (y_log y0)) sub host.
Proof.
  intros Hreach Hnone Hrun Hnow Hs1 Hs2 Hget.
  destruct (expiring_reached _ _ log _ _ Hrun) as [_ Hall].
  eapply cached_entry; [by apply Hall|done..|]. intros x Hx. simpl in Hx. lia.
Qed.

(** ** An execution of each *)

Module RevocationExample.

(** A changelog that answers one change at a time, its token as long as its position. *)
Definition one_by_one (log : list tuple) (tok : string) : result (list tuple * string) :=
  match drop (String.length tok) log with
  | [] => Ok ([], tok)
  | c :: _ => Ok ([c], tok +:+ "+")
  end.

#[export] Instance toy_changelog : Changelog (list tuple) := one_by_one.

#[export] Instance toy_changelog_laws : ChangelogLaws (list tuple).
Proof.
  refine {| cl_log := id; cl_pos := String.length |}; [done|].
  intros s tok l next Heq. unfold changes_, toy_changelog, one_by_one in Heq. unfold id.
  destruct (drop (String.length tok) s) as [|c rest]; injection Heq as <- <-.
  - split_and!; [done|done|simpl; lia|done].
  - split_and!; [by exists rest|done|intros _; rewrite app_length_str; simpl; lia|].
    intros _. split; intros Hne; apply (f_equal String.length) in Hne;
      rewrite app_length_str in Hne; simpl in Hne; lia.
Defined.

Definition view : tuple := Tuple "user:ana" "can_open" "app:acme/files".
Definition other : tuple := Tuple "user:bo" "can_open" "app:acme/files".
Definition ana : identity := mkWho "ana" "acme" "s1" "" "Ana".

(** Held while the last write names it. *)
Definition held (log : list tuple) (_ _ : string) : bool :=
  match last log with Some t => bool_decide (t = view) | None => false end.

(** The poller at the end of the log, then asked, put and served. *)
Definition started : edge := mkEdge [view] 1 None false 0 ∅ [].
Definition served : edge := mkEdge [view] 1 None false 0 (cache_put ∅ 300 0 "ana" "s1" "files.acme" ana) [].

Lemma started_reached : rtc (edge_step held 300) (edge_start [view]) started.
Proof.
  apply (rtc_l _ _ (mkEdge [view] 1 None true 0 ∅ [])); [apply (edge_forward _ _ (edge_start [view])); simpl; [done|lia]|].
  apply rtc_once. by apply (edge_begin _ _ (mkEdge [view] 1 None true 0 ∅ [])).
Qed.
Lemma started_clean : clean_slate started.
Proof. split_and!; try done. by intros p ?%not_elem_of_nil. Qed.

Lemma served_quietly : rtc (quiet_step held 300) started served.
Proof.
  pose (p := mkPending "ana" "s1" "files.acme" ana 1).
  apply (rtc_l _ _ (mkEdge [view] 1 None false 0 ∅ [p])); [split; [by apply (edge_ask _ _ started)|by left]|].
  apply rtc_once. split; [|by left]. exact (edge_put _ _ (mkEdge [view] 1 None false 0 ∅ [p]) p [] [] eq_refl).
Qed.

(** The same allow, asked for and put when the clock says 300. *)
Definition served_later : edge :=
  mkEdge [view] 0 None true 300 (cache_put ∅ 300 300 "ana" "s1" "files.acme" ana) [].

Lemma served_later_reached : rtc (edge_step held 300) (edge_start [view]) served_later.
Proof.
  pose (p := mkPending "ana" "s1" "files.acme" ana 1).
  apply (rtc_l _ _ (mkEdge [view] 0 None true 300 ∅ [])); [by apply (edge_time _ _ (edge_start [view]) 300)|].
  apply (rtc_l _ _ (mkEdge [view] 0 None true 300 ∅ [p])); [by apply (edge_ask _ _ (mkEdge [view] 0 None true 300 ∅ []))|].
  apply rtc_once. exact (edge_put _ _ (mkEdge [view] 0 None true 300 ∅ [p]) p [] [] eq_refl).
Qed.
End RevocationExample.

#[local] Existing Instance RevocationExample.toy_changelog.
#[local] Existing Instance RevocationExample.toy_changelog_laws.
Import RevocationExample.

Lemma poll_tick_reports_every_change_witness :
  ∃ token' called, poll_tick 4 [view; other; view] "+" = Some (token', called)
    ∧ cl_pos token' = cl_pos "+" + sum_list called
    ∧ Forall (λ n, 0 < n) called
    ∧ (drop (cl_pos token') (cl_log [view; other; view]) = [] ∨ ∃ e, changes_ [view; other; view] token' = Err e).
Proof. apply (poll_tick_reports_every_change [view; other; view] "+" 4). vm_compute. lia. Defined.

Lemma quiet_cache_follows_the_store_witness :
  allowed_since held served 1 "ana" "files.acme" ∧ held [view] "ana" "files.acme" = true.
Proof.
  destruct (quiet_cache_follows_the_store held 300 [view] started served "ana" "s1" "files.acme" ana started_reached started_clean served_quietly eq_refl eq_refl)
    as [H1 H2]; [vm_compute; reflexivity|]. split; [exact H1|by apply H2].
Defined.

Lemma revoked_right_outlives_the_poll_witness :
  ∃ y, rtc (edge_step held 300) (edge_start [view]) y
    ∧ y_pos y = length (y_log y) ∧ y_read y = None ∧ y_pending y = [] ∧ y_now y = 299%Z
    ∧ held (y_log y) "ana" "files.acme" = false
    ∧ cached y "ana" "s1" "files.acme" = Some ana.
Proof.
  apply (revoked_right_outlives_the_poll held 300 view other 299 "ana" "s1" "files.acme" ana);
    [reflexivity|reflexivity|vm_compute; reflexivity|vm_compute; reflexivity|lia].
Defined.

Lemma revoked_right_ends_with_its_entry_witness :
  allowed_since held served_later 1 "ana" "files.acme".
Proof.
  apply (revoked_right_ends_with_its_entry held 300 [view] (edge_start [view]) served_later "ana" "s1" "files.acme" ana);
    [apply rtc_refl|reflexivity|exact served_later_reached|vm_compute; congruence|reflexivity|reflexivity
    |vm_compute; reflexivity].
Defined.

Lemma revoked_while_starting_witness :
  ∃ y, rtc (edge_step held 300) (edge_start [view]) y
    ∧ y_log y = [view; other] ∧ y_pos y = length (y_log y) ∧ y_forward y = false ∧ y_read y = None ∧ y_pending y = [] ∧ y_now y = 299%Z
    ∧ held (y_log y) "ana" "files.acme" = false
    ∧ cached y "ana" "s1" "files.acme" = Some ana.
Proof.
  apply (revoked_while_starting held 300 [view] other 299 "ana" "s1" "files.acme" ana);
    [reflexivity|reflexivity|vm_compute; reflexivity|vm_compute; reflexivity|lia].
Defined.
