(* ===== verification/ModelBootstrap.v ===== *)
(** * The store and model decisions are made against
    ([internal/director/authz/bootstrap.go], [internal/director/authz/pinned.go])

    The operator establishes a store and makes sure its newest model is the one
    embedded in the program ([Bootstrap]); every reader takes the store the operator
    recorded, and in it the model it was itself built with ([Pinned]).  Two models
    are compared by what they say, without the empty values OpenFGA fills in.

    [sameModel_iff]: the comparison is the relation one would write down.
    [Bootstrap_then_Pinned]: a reader that looks while the operator's work is in
    place gets exactly what the operator established. *)

From Stdlib Require Import QArith.Qcanon.
From S2P Require Import Prelude.
From S2P Require Import GoStrings.
From S2P Require Import GoJson.

(** ** Models compared *)

Fixpoint normalise (v : json) : json :=
  match v with
  | JObj m =>
      let out := omap (λ x, match normalise x with JNull => None | n => Some n end) m in
      if bool_decide (size out = 0) then JNull else JObj out
  | JArr l => match normalise <$> l with [] => JNull | out => JArr out end
  | JStr s => if bool_decide (s = "") then JNull else JStr s
  | v => v
  end.

Definition field (m : gmap string json) (k : string) : json := default JNull (m !! k).

Definition sameModel (got want : gmap string json) : bool :=
  forallb (λ f, deep_equal (normalise (field got f)) (normalise (field want f))) ["type_definitions"; "conditions"].

(** ** The server

    Stores with their names and the time they were made; the models of a store,
    newest first; a status that says what was asked for does not exist. *)
Record Store := mkStore { st_id : string; st_name : string; st_created : Z }.
Inductive answer (A : Type) := Found (a : A) | Missing | Failing (e : error).
Arguments Found {_} _.
Arguments Missing {_}.
Arguments Failing {_} _.

Class ModelServer (S : Type) := {
  ms_get_store : S → string → answer Store;
  ms_list_stores : S → string → result (list Store * string);
  ms_create_store : S → string → S * result string;
  ms_read_model : S → string → string → answer (gmap string json);
  ms_read_models : S → string → nat → string → result (list (gmap string json) * string);
  ms_write_model : S → string → gmap string json → S * result string }.

Definition StoreName : string := "gentian".
Definition ErrNotPinned : error :=
  Sentinel "authz: no pinned authorization store; the operator records it in the ConfigMap authorization-store".
Definition pinPages : nat := 5.

Definition id_of (m : gmap string json) : string := match field m "id" with JStr id => id | _ => "" end.

Record Options := mkOptions { BaseURL : string; StoreID : string; ModelID : string }.

Definition newClient (o : Options) : result () :=
  if bool_decide (BaseURL o = "") then Err (Sentinel "authz: OpenFGA URL is required") else Ok ().

Section Operator.
Context {S : Type} `{ModelServer S}.
(** The pages a listing may take; and the embedded model, decoded. *)
Context (fuel : nat) (modelV1 : result (gmap string json)).
#[local] Open Scope act_scope.

Fixpoint StoresNamed_from (fuel : nat) (s : S) (name token : string) : result (list Store) :=
  match fuel with
  | 0 => Err (Sentinel "out of fuel")
  | Datatypes.S fuel =>
      '(page, next) ← ms_list_stores s token;
      let here := filter (λ x, st_name x = name) page in
      if bool_decide (next = "") then Ok here
      else rest ← StoresNamed_from fuel s name next; Ok (here ++ rest)
  end.

Definition storesNamed (s : S) (name : string) : result (list Store) :=
  wrap "list stores: %w" [] (StoresNamed_from fuel s name "").

Definition create_store (name : string) : act S string :=
  act_wrap "create store %q: %w" [name] (λ s, ms_create_store s name).

Definition keepStore (id : string) : act S string := λ s,
  match ms_get_store s id with
  | Found row => if bool_decide (st_id row = id) then (s, Ok id) else create_store StoreName s
  | Missing => create_store StoreName s
  | Failing e => (s, Err (Wrapf "read store %s: %w" [id] e))
  end.

(** [sort.Slice] by the time the stores were made, and the first. *)
Definition older (a b : Store) : Prop := (st_created a ≤ st_created b)%Z.
#[global] Instance older_dec : RelDecision older.
Proof. intros a b. unfold older. apply _. Defined.
Definition oldest (found : list Store) : string :=
  match merge_sort older found with first :: _ => st_id first | [] => "" end.

Definition ensureStore (name : string) : act S string := λ s,
  match storesNamed s name with
  | Err e => (s, Err e)
  | Ok [] =>
      let '(s', r) := create_store name s in
      match r with
      | Err e => (s', Err e)
      | Ok created =>
          match storesNamed s' name with
          | Err _ | Ok [] => (s', Ok created)
          | Ok found => (s', Ok (oldest found))
          end
      end
  | Ok found => (s, Ok (oldest found))
  end.

Definition ensureModel (store : string) : act S string :=
  want ⇐ of_result (wrap "embedded model: %w" [] modelV1);
  latest ⇐ (λ s, (s, wrap "read models: %w" [] (ms_read_models s store 1 "")));
  let write := act_wrap "write model: %w" [] (λ s, ms_write_model s store want) in
  match latest.1 with
  | [m] => if sameModel m want then ret (id_of m) else write
  | _ => write
  end.

(** [StoreID o] is the store the operator recorded before, empty when none. *)
Definition Bootstrap (o : Options) : act S (string * string) :=
  of_result (newClient o) ;;
  store ⇐ (if negb (bool_decide (StoreID o = "")) then keepStore (StoreID o) else ensureStore StoreName);
  model ⇐ ensureModel store;
  ret (store, model).

(** ** A reader *)

Definition not_yet (store : string) : error :=
  Errorf "authz: store %s does not hold the model this service was built with yet; the operator writes it" [store].

Fixpoint find_model (s : S) (store : string) (want : gmap string json) (pages : nat) (token : string) : result string :=
  match pages with
  | 0 => Err (not_yet store)
  | Datatypes.S pages =>
      '(models, next) ← wrap "read models: %w" [] (ms_read_models s store 50 token);
      match list_find (λ m, sameModel m want = true) models with
      | Some (_, m) => Ok (id_of m)
      | None => if bool_decide (next = "") then Err (not_yet store) else find_model s store want pages next
      end
  end.

Definition pinnedOnce (o : Options) (want : gmap string json) (s : S) : result string :=
  let search := find_model s (StoreID o) want pinPages "" in
  match ms_read_model s (StoreID o) (ModelID o) with
  | Found recorded =>
      match field recorded "authorization_model" with
      | JObj m => if sameModel m want then Ok (ModelID o) else search
      | _ => search
      end
  | Missing => search
  | Failing e => Err (Wrapf "read model %s: %w" [ModelID o] e)
  end.

(** A look at what the server then holds, and whether the deadline had come when
    the look was over.  After a look before the deadline there is a wait, in which
    the deadline comes or after which there is another look. *)
Definition look : Type := S * bool.

Fixpoint pinned_from (o : Options) (want : gmap string json) (reason : option error) (now : look) (looks : list look)
    : result (string * string) :=
  match pinnedOnce o want now.1 with
  | Ok id => Ok (StoreID o, id)
  | Err e =>
      let reason := match reason with Some r => if now.2 then r else e | None => e end in
      match now.2, looks with
      | false, next :: looks => pinned_from o want (Some reason) next looks
      | _, _ => Err (Wrapf "%w (gave up waiting: %v)" [] reason)
      end
  end.

Definition Pinned (o : Options) (now : look) (looks : list look) : result (string * string) :=
  if bool_decide (StoreID o = "") || bool_decide (ModelID o = "") then Err ErrNotPinned
  else
    _ ← newClient o;
    want ← wrap "embedded model: %w" [] modelV1;
    pinned_from o want None now looks.
End Operator.

(** ** What two models say alike

    A value is hollow when nothing in it says anything; two values are alike when
    both are hollow, or they are built alike from parts that are, a member left out
    counting as null. *)
Inductive hollow : json → Prop :=
  | hollow_null : hollow JNull
  | hollow_str : hollow (JStr "")
  | hollow_arr : hollow (JArr [])
  | hollow_obj m : (∀ k, hollow (field m k)) → hollow (JObj m).

#[warnings="-register-all"]
Inductive alike : json → json → Prop :=
  | alike_hollow v w : hollow v → hollow w → alike v w
  | alike_bool b : alike (JBool b) (JBool b)
  | alike_num n : alike (JNum n) (JNum n)
  | alike_str s : alike (JStr s) (JStr s)
  | alike_arr l l' : Forall2 alike l l' → alike (JArr l) (JArr l')
  | alike_obj m m' : (∀ k, alike (field m k) (field m' k)) → alike (JObj m) (JObj m').

(** The members of a normalised object. *)
Definition kept (m : gmap string json) : gmap string json :=
  omap (λ x, match normalise x with JNull => None | n => Some n end) m.

Lemma field_kept m k : field (kept m) k = normalise (field m k).
Proof. unfold kept, field. rewrite lookup_omap. destruct (m !! k) as [x|]; [|done]. cbn. by destruct (normalise x). Qed.

Lemma kept_some m k x : kept m !! k = Some x → x = field (kept m) k ∧ x ≠ JNull.
Proof.
  intros Hk. split; [by unfold field; rewrite Hk|]. intros ->. revert Hk. unfold kept. rewrite lookup_omap.
  destruct (m !! k) as [y|]; [|done]. cbn. by destruct (normalise y).
Qed.

Lemma kept_ext m m' : (∀ k, normalise (field m k) = normalise (field m' k)) → kept m = kept m'.
Proof.
  intros Hk. apply map_eq. intros k. specialize (Hk k). rewrite <-!field_kept in Hk.
  destruct (kept m !! k) as [x|] eqn:E, (kept m' !! k) as [y|] eqn:E'; try done.
  - apply kept_some in E as [-> _], E' as [-> _]. by rewrite Hk.
  - apply kept_some in E as [-> Hn]. unfold field in Hk at 2. rewrite E' in Hk. by rewrite Hk in Hn.
  - apply kept_some in E' as [-> Hn]. unfold field in Hk at 1. rewrite E in Hk. by rewrite <-Hk in Hn.
Qed.

Lemma normalise_obj m : normalise (JObj m) = if bool_decide (kept m = ∅) then JNull else JObj (kept m).
Proof.
  cbn. fold (kept m). by rewrite (bool_decide_ext (size (kept m) = 0) _ (map_size_empty_iff _)).
Qed.

Lemma kept_empty m : kept m = ∅ ↔ ∀ k, normalise (field m k) = JNull.
Proof.
  split; [intros He k; by rewrite <-field_kept, He|]. intros Hk. apply map_empty. intros k.
  destruct (kept m !! k) as [x|] eqn:E; [|done]. apply kept_some in E as [-> []]. by rewrite field_kept.
Qed.

Lemma field_ind (P : json → Prop) m k : (∀ i v, m !! i = Some v → P v) → P JNull → P (field m k).
Proof. intros Hm Hn. unfold field. destruct (m !! k) eqn:E; [by eapply Hm|done]. Qed.

Lemma normalise_hollow v : normalise v = JNull ↔ hollow v.
Proof.
  induction v as [|b|n|s|l _|m IH] using json_ind'.
  - split; [constructor|done].
  - split; [done|by intros Hh; inv Hh].
  - split; [done|by intros Hh; inv Hh].
  - cbn. case_bool_decide as Hs; [subst; split; [constructor|done]|split; [done|by intros Hh; inv Hh]].
  - destruct l; cbn; [split; [constructor|done]|split; [done|by intros Hh; inv Hh]].
  - assert (∀ k, normalise (field m k) = JNull ↔ hollow (field m k)) as IHf.
    { intros k. apply (field_ind (λ v, normalise v = JNull ↔ hollow v)); [apply IH|split; [constructor|done]]. }
    rewrite normalise_obj. case_bool_decide as He.
    + split; [intros _; constructor; intros k; by apply IHf, kept_empty|done].
    + split; [done|]. intros Hh. inv Hh. destruct He. apply kept_empty. intros k. by apply IHf.
Qed.

Lemma normalise_arr l : normalise (JArr l) = match l with [] => JNull | _ => JArr (normalise <$> l) end.
Proof. by destruct l. Qed.

Lemma alike_normalise v w : alike v w → normalise v = normalise w.
Proof.
  revert w. induction v as [|b|n|s|l IH|m IH] using json_ind'; intros w Ha;
    inversion Ha as [? ? Hv Hw| | | |? l' Hl|? m' Hm]; subst; try done;
    try (apply normalise_hollow in Hv, Hw; by rewrite Hv, Hw).
  - rewrite !normalise_arr. enough (normalise <$> l = normalise <$> l') as E.
    { destruct Hl; [done|by rewrite E]. }
    clear Ha. induction Hl as [|x y l l' Hxy _ IHl]; [done|]. cbn. f_equal; [apply IH; [left|done]|].
    apply IHl. intros v Hv. apply IH. by right.
  - rewrite !normalise_obj. rewrite (kept_ext m m'); [done|]. intros k.
    specialize (Hm k). revert Hm. unfold field at 1 3. destruct (m !! k) as [x|] eqn:E; [by apply (IH k x)|].
    cbn. intros Hn. inversion Hn as [? ? Hv Hw| | | | |]; subst. by apply normalise_hollow in Hw.
Qed.

(** What a value that says something was normalised from. *)
Lemma normalise_from w u : normalise w = u →
  match u with
  | JNull => hollow w
  | JArr l => ∃ l', w = JArr l' ∧ l = normalise <$> l'
  | JObj m => ∃ m', w = JObj m' ∧ m = kept m'
  | u => w = u
  end.
Proof.
  intros <-. destruct (normalise w) eqn:E; [by apply normalise_hollow| | | | |]; revert E; destruct w; try done;
    rewrite ?normalise_obj, ?normalise_arr; cbn; repeat case_bool_decide; try case_match; intros [= <-]; eauto.
Qed.

Lemma normalise_alike v w : normalise v = normalise w → alike v w.
Proof.
  revert w. induction v as [|b|n|s|l IH|m IH] using json_ind'; intros w E; symmetry in E;
    pose proof (normalise_from _ _ E) as Hw.
  - constructor; [constructor|done].
  - cbn in Hw. subst. apply alike_bool.
  - cbn in Hw. subst. apply alike_num.
  - cbn in Hw. case_bool_decide; subst; [by apply alike_hollow; [constructor|]|apply alike_str].
  - rewrite normalise_arr in Hw. destruct l as [|x l]; [constructor; [constructor|done]|].
    destruct Hw as (l' & -> & El). apply alike_arr. clear E. revert IH l' El. induction (x :: l) as [|y k IHk]; intros IH [|z l'] [=].
    + constructor.
    + constructor; [apply IH; [left|done]|]. apply IHk; [|done]. intros v Hv. apply IH. by right.
  - rewrite normalise_obj in Hw. case_bool_decide as He.
    + constructor; [|done]. apply normalise_hollow. rewrite normalise_obj. by rewrite bool_decide_eq_true_2.
    + destruct Hw as (m' & -> & Hm). apply alike_obj. intros k.
      assert (normalise (field m k) = normalise (field m' k)) as Ek by by rewrite <-!field_kept, Hm.
      revert Ek. apply (field_ind (λ v, normalise v = normalise (field m' k) → alike v (field m' k))); [eauto|].
      intros Ek. constructor; [constructor|]. by apply normalise_hollow.
Qed.

(** Two models say the same. *)
Definition says (got want : gmap string json) : Prop :=
  alike (field got "type_definitions") (field want "type_definitions")
  ∧ alike (field got "conditions") (field want "conditions").

Lemma sameModel_says got want : sameModel got want = true ↔ says got want.
Proof.
  unfold sameModel, says. cbn [forallb]. rewrite !andb_true_iff, !deep_equal_iff.
  pose proof normalise_alike. pose proof alike_normalise. naive_solver.
Qed.

(** [sameModel] says yes exactly of two models whose type definitions and whose
    conditions say the same: the same values, read without what is null, empty or
    left out, at every level, and nothing else about the models. *)
Theorem sameModel_iff got want :
  sameModel got want = true
  ↔ alike (field got "type_definitions") (field want "type_definitions")
    ∧ alike (field got "conditions") (field want "conditions").
Proof. apply sameModel_says. Qed.

(** ** What OpenFGA promises

    A store's models and the stores, as its listings page through them; a model
    written is the newest, under a fresh id, and says what was written; a store
    created is younger than every other. *)
Class ModelServerLaws (S : Type) `{ModelServer S} := {
  ms_models : S → string → list (gmap string json);
  ms_rows : S → list Store;
  ms_offset : S → string → string → nat;
  ms_row_offset : S → string → nat;
  ms_offset_start s store : ms_offset s store "" = 0;
  ms_page s store n token page next : 0 < n → ms_read_models s store n token = Ok (page, next) →
    page = take n (drop (ms_offset s store token) (ms_models s store))
    ∧ if bool_decide (next = "") then length (ms_models s store) ≤ ms_offset s store token + n
      else ms_offset s store next = ms_offset s store token + n;
  ms_found s store id r : ms_read_model s store id = Found r →
    ∃ m, field r "authorization_model" = JObj m ∧ m ∈ ms_models s store ∧ id_of m = id;
  ms_ids s store : NoDup (id_of <$> ms_models s store);
  ms_id_given s store m : m ∈ ms_models s store → id_of m ≠ "";
  ms_write_ok s s' store m id : ms_write_model s store m = (s', Ok id) →
    ms_rows s' = ms_rows s
    ∧ ∃ m', ms_models s' store = m' :: ms_models s store ∧ id_of m' = id ∧ says m' m;
  ms_row_start s : ms_row_offset s "" = 0;
  ms_row_page s token page next : ms_list_stores s token = Ok (page, next) →
    page = take 100 (drop (ms_row_offset s token) (ms_rows s))
    ∧ if bool_decide (next = "") then length (ms_rows s) ≤ ms_row_offset s token + 100
      else ms_row_offset s next = ms_row_offset s token + 100;
  ms_row_found s id row : ms_get_store s id = Found row → row ∈ ms_rows s ∧ st_id row = id;
  ms_row_ids s row : row ∈ ms_rows s → st_id row ≠ "";
  ms_row_times s : NoDup (st_created <$> ms_rows s);
  ms_create_ok s s' name id : ms_create_store s name = (s', Ok id) →
    (id ∉ st_id <$> ms_rows s)
    ∧ ∃ t, ms_rows s' ≡ₚ mkStore id name t :: ms_rows s ∧ ∀ x, x ∈ ms_rows s → (st_created x < t)%Z;
  ms_create_err s s' name e : ms_create_store s name = (s', Err e) →
    ms_rows s' = ms_rows s
    ∨ ∃ id t, ms_rows s' ≡ₚ mkStore id name t :: ms_rows s ∧ ∀ x, x ∈ ms_rows s → (st_created x < t)%Z }.

Section OperatorLaws.
Context {S : Type} `{ModelServerLaws S}.
Context (fuel : nat) (modelV1 : result (gmap string json)).

Lemma StoresNamed_from_spec n s name token found : StoresNamed_from n s name token = Ok found →
  found = filter (λ x, st_name x = name) (drop (ms_row_offset s token) (ms_rows s)).
Proof.
  revert token found. induction n as [|n IH]; intros token found; [done|]. cbn [StoresNamed_from].
  rewrite bind_Ok. intros ([page next] & Hp & Hr). apply ms_row_page in Hp as [-> Hn]. revert Hr Hn.
  destruct (bool_decide (next = "")).
  - intros [= <-] Hn. f_equal. apply take_ge. rewrite length_drop. lia.
  - rewrite bind_Ok. intros (rest & Hrest & [= <-]) Hn. apply IH in Hrest as ->.
    by rewrite Hn, <-drop_drop, <-filter_app, take_drop.
Qed.

Lemma storesNamed_spec s name found : storesNamed fuel s name = Ok found →
  found = filter (λ x, st_name x = name) (ms_rows s).
Proof. unfold storesNamed. rewrite wrap_Ok. intros ->%StoresNamed_from_spec. by rewrite ms_row_start. Qed.

Lemma oldest_in x found : ∃ y, y ∈ x :: found ∧ oldest (x :: found) = st_id y ∧ ∀ z, z ∈ x :: found → older y z.
Proof.
  unfold oldest. pose proof (merge_sort_Permutation older (x :: found)) as Hp.
  assert (StronglySorted older (merge_sort older (x :: found))) as Hs.
  { apply StronglySorted_merge_sort; [intros ???; unfold older; lia|intros ??; unfold older; lia]. }
  destruct (merge_sort older (x :: found)) as [|y l]; [by apply Permutation_nil_cons in Hp|].
  exists y. split; [rewrite <-Hp; left|]. split; [done|]. intros z. rewrite <-Hp, elem_of_cons.
  intros [->|Hz]; [unfold older; lia|]. apply StronglySorted_inv in Hs as [_ Hs]. by eapply Forall_forall in Hs.
Qed.

Lemma create_store_Ok name s s' id : create_store name s = (s', Ok id) → ms_create_store s name = (s', Ok id).
Proof. unfold create_store. by rewrite act_wrap_Ok. Qed.

Lemma create_store_row name s s' id : create_store name s = (s', Ok id) →
  (id ∉ st_id <$> ms_rows s) ∧ id ∈ st_id <$> ms_rows s'.
Proof.
  intros Hc%create_store_Ok%ms_create_ok. destruct Hc as (Hn & t & Hr & _). split; [done|]. rewrite Hr. left.
Qed.

Lemma keepStore_spec id s s' store : keepStore id s = (s', Ok store) →
  (store = id ∨ (store ∉ st_id <$> ms_rows s)) ∧ store ∈ st_id <$> ms_rows s'.
Proof.
  unfold keepStore. destruct (ms_get_store s id) as [row| |e] eqn:E; [case_bool_decide as Hid| |done].
  - intros [= <- <-]. split; [by left|]. apply ms_row_found in E as [Hr <-]. apply list_elem_of_fmap_2. done.
  - intros [Hn Hi]%create_store_row. auto.
  - intros [Hn Hi]%create_store_row. auto.
Qed.

Lemma oldest_listed s name x found : storesNamed fuel s name = Ok (x :: found) →
  oldest (x :: found) ∈ st_id <$> ms_rows s.
Proof.
  intros Hl%storesNamed_spec. destruct (oldest_in x found) as (y & Hy & -> & _). rewrite Hl in Hy.
  apply list_elem_of_fmap_2. by apply list_elem_of_filter in Hy as [_ Hy].
Qed.

Lemma ensureStore_spec name s s' store : ensureStore fuel name s = (s', Ok store) → store ∈ st_id <$> ms_rows s'.
Proof.
  unfold ensureStore. destruct (storesNamed fuel s name) as [[|x found]|e] eqn:E; [| |done].
  - destruct (create_store name s) as [s1 [created|e]] eqn:Ec; [|done]. apply create_store_row in Ec as [_ Hc].
    destruct (storesNamed fuel s1 name) as [[|y found]|e] eqn:E1; intros [= <- <-]; [done| |done].
    by apply (oldest_listed _ name).
  - intros [= <- <-]. by apply (oldest_listed _ name).
Qed.

(** The newest model of the store says what is wanted. *)
Definition established (s : S) (store model : string) (want : gmap string json) : Prop :=
  ∃ m rest, ms_models s store = m :: rest ∧ id_of m = model ∧ says m want.

Lemma ensureModel_spec want store s s' model : modelV1 = Ok want → ensureModel modelV1 store s = (s', Ok model) →
  established s' store model want ∧ ms_rows s' = ms_rows s.
Proof.
  intros ->. unfold ensureModel. rewrite act_bind_Ok. intros (s1 & w & [= <- <-] & H1). revert H1.
  rewrite act_bind_Ok. intros (s2 & [page next] & Hp & H2). injection Hp as <- Hp. apply wrap_Ok in Hp. cbn [fst] in H2.
  apply ms_page in Hp as [-> _]; [|lia]. rewrite ms_offset_start, drop_0 in H2. revert H2.
  assert (∀ s2, act_wrap "write model: %w" [] (λ s, ms_write_model s store want) s2 = (s', Ok model) →
    established s' store model want ∧ ms_rows s' = ms_rows s2) as Hw.
  { intros s2. rewrite act_wrap_Ok. intros (Hr & m' & Hm & Hid & Hs)%ms_write_ok. split; [|done]. by exists m', (ms_models s2 store). }
  destruct (ms_models s store) as [|m l] eqn:El; cbn -[sameModel]; rewrite ?take_0; [apply Hw|].
  destruct (sameModel m want) eqn:Es; [|apply Hw]. intros [= <- <-]. split; [|done].
  exists m, l. apply sameModel_says in Es. auto.
Qed.

Lemma ensureModel_settled want store s model page : modelV1 = Ok want → established s store model want →
  ms_read_models s store 1 "" = Ok page → ensureModel modelV1 store s = (s, Ok model).
Proof.
  intros -> (m & rest & Hm & <- & Hs) Hp. destruct page as [page next]. unfold ensureModel, act_bind, of_result. cbn -[sameModel].
  rewrite Hp. cbn -[sameModel]. apply ms_page in Hp as [-> _]; [|lia]. rewrite ms_offset_start, Hm. cbn -[sameModel]. rewrite take_0.
  by rewrite (proj2 (sameModel_says m want) Hs).
Qed.

Lemma Bootstrap_inv want o s s' store model : modelV1 = Ok want → Bootstrap fuel modelV1 o s = (s', Ok (store, model)) →
  BaseURL o ≠ "" ∧ established s' store model want ∧ store ∈ st_id <$> ms_rows s'
  ∧ (StoreID o ≠ "" → store = StoreID o ∨ (store ∉ st_id <$> ms_rows s)).
Proof.
  intros Hw. unfold Bootstrap. rewrite act_bind_Ok. intros (s0 & [] & Hc & Hrest). revert Hc Hrest.
  unfold of_result, newClient. case_bool_decide as Hb; [done|]. intros [= <-]. rewrite act_bind_Ok.
  intros (s1 & st & Hst & H1). revert H1. rewrite act_bind_Ok. intros (s2 & mo & Hmo & [= <- <- <-]).
  apply (ensureModel_spec want) in Hmo as [He Hrows]; [|done]. rewrite Hrows. split_and!; [done|done| |].
  - revert Hst. case_bool_decide; cbn; [apply ensureStore_spec|]. by intros [_ Hi]%keepStore_spec.
  - intros Hid. rewrite bool_decide_eq_false_2 in Hst by done. by apply keepStore_spec in Hst as [Hk _].
Qed.

(** When [Bootstrap] returns a store and a model, the store exists and the model
    is its newest and says what the embedded model says.  A recorded store is kept,
    or replaced by one this call created, never by one found under the name.  And a
    restart with what was recorded changes nothing and answers the same. *)
Theorem Bootstrap_establishes want o s s' store model :
  modelV1 = Ok want → Bootstrap fuel modelV1 o s = (s', Ok (store, model)) →
  established s' store model want
  ∧ store ∈ st_id <$> ms_rows s'
  ∧ (StoreID o ≠ "" → store = StoreID o ∨ (store ∉ st_id <$> ms_rows s))
  ∧ ∀ row page, ms_get_store s' store = Found row → ms_read_models s' store 1 "" = Ok page →
      Bootstrap fuel modelV1 (mkOptions (BaseURL o) store model) s' = (s', Ok (store, model)).
Proof.
  intros Hw HB. destruct (Bootstrap_inv want o s s' store model Hw HB) as (Hb & He & Hi & Hk). split_and!; [done..|].
  intros row page Hrow Hpage. unfold Bootstrap, act_bind, of_result, newClient, keepStore. cbn -[ensureModel].
  rewrite bool_decide_eq_false_2 by done. rewrite (bool_decide_eq_false_2 (store = "")).
  2: { intros ->. apply list_elem_of_fmap in Hi as (x & Hx & Hin). by apply ms_row_ids in Hin. }
  cbn -[ensureModel]. apply ms_row_found in Hrow as Hid. destruct Hid as [_ Hid]. rewrite Hrow, bool_decide_eq_true_2 by done.
  by rewrite (ensureModel_settled want store s' model page).
Qed.

(** A model of the store, under this id, that says what is wanted. *)
Definition offers (s : S) (store id : string) (want : gmap string json) : Prop :=
  ∃ m, m ∈ ms_models s store ∧ id_of m = id ∧ says m want.

Lemma find_model_sound s store want n token id : find_model s store want n token = Ok id → offers s store id want.
Proof.
  revert token. induction n as [|n IH]; intros token; [done|]. cbn [find_model]. rewrite bind_Ok.
  intros ([page next] & Hp & Hr). apply wrap_Ok, ms_page in Hp as [-> _]; [|lia]. revert Hr.
  destruct (list_find _ _) as [[j m]|] eqn:Ef.
  - intros [= <-]. apply list_find_Some in Ef as (Hj & Hs & _). exists m. split; [|split; [done|by apply sameModel_says]].
    apply list_elem_of_lookup_2, elem_of_take in Hj as (j' & Hj & _). rewrite lookup_drop in Hj. by eapply list_elem_of_lookup_2.
  - case_bool_decide; [done|apply IH].
Qed.

Lemma find_model_finds s store want n token i m :
  (∀ token, ∃ p, ms_read_models s store 50 token = Ok p) →
  ms_models s store !! (ms_offset s store token + i) = Some m → i < 50 * n → says m want →
  ∃ id, find_model s store want n token = Ok id.
Proof.
  intros Hans Hm Hi Hs. revert token i Hm Hi. induction n as [|n IH]; intros token i Hm Hi; [lia|].
  cbn [find_model]. destruct (Hans token) as [[page next] Hp]. rewrite Hp. apply ms_page in Hp as [-> Hn]; [|lia]. cbn -[list_find take sameModel].
  destruct (list_find _ _) as [[j x]|] eqn:Ef; [by eexists|]. rewrite list_find_None, Forall_forall in Ef.
  assert (50 ≤ i) as Hge.
  { destruct (decide (50 ≤ i)) as [|Hlt]; [done|]. destruct (Ef m); [|by apply sameModel_says].
    apply elem_of_take. exists i. rewrite lookup_drop. split; [done|lia]. }
  destruct (bool_decide (next = "")); [apply lookup_lt_Some in Hm; lia|].
  apply (IH next (i - 50)); [|lia]. rewrite Hn. by replace (_ + 50 + (i - 50)) with (ms_offset s store token + i) by lia.
Qed.

Lemma pinnedOnce_sound o want s id : pinnedOnce o want s = Ok id → offers s (StoreID o) id want.
Proof.
  unfold pinnedOnce. destruct (ms_read_model s (StoreID o) (ModelID o)) as [r| |e] eqn:E; [|apply find_model_sound|done].
  apply ms_found in E as (m & -> & Hm & Hid). destruct (sameModel m want) eqn:Es; [|apply find_model_sound].
  intros [= <-]. exists m. by rewrite sameModel_says in Es.
Qed.

(** The requests of a look are answered. *)
Definition answering (o : Options) (s : S) : Prop :=
  (∀ token, ∃ p, ms_read_models s (StoreID o) 50 token = Ok p)
  ∧ ∀ e, ms_read_model s (StoreID o) (ModelID o) ≠ Failing e.

Lemma pinnedOnce_finds o want s i m : answering o s →
  ms_models s (StoreID o) !! i = Some m → i < 50 * pinPages → says m want → ∃ id, pinnedOnce o want s = Ok id.
Proof.
  intros [Hl Hr] Hm Hi Hs. unfold pinnedOnce.
  destruct (find_model_finds s (StoreID o) want pinPages "" i m) as [id Hid]; [done|by rewrite ms_offset_start|done..|].
  rewrite Hid. destruct (ms_read_model s (StoreID o) (ModelID o)) as [r| |e] eqn:E; [|by eexists|by destruct (Hr e)].
  apply ms_found in E as (m' & -> & _). destruct (sameModel m' want); by eexists.
Qed.

Lemma pinned_from_sound o want reason now looks store id : pinned_from o want reason now looks = Ok (store, id) →
  store = StoreID o ∧ ∃ l, l ∈ now :: looks ∧ offers l.1 store id want.
Proof.
  revert reason now. induction looks as [|next looks IH]; intros reason now; cbn;
    destruct (pinnedOnce o want now.1) as [i|e] eqn:E; try (intros [= <- <-]; split; [done|]; exists now; split; [left|by apply pinnedOnce_sound]).
  - by destruct now.2.
  - destruct now.2; [done|]. intros (-> & l & Hl & Ho)%IH. split; [done|]. exists l. split; [by right|done].
Qed.

Lemma pinned_from_finds o want reason now looks k l id : (now :: looks) !! k = Some l →
  (∀ j l', j < k → (now :: looks) !! j = Some l' → l'.2 = false) → pinnedOnce o want l.1 = Ok id →
  ∃ r, pinned_from o want reason now looks = Ok r.
Proof.
  revert reason now k. induction looks as [|next looks IH]; intros reason now [|k] Hl Hb Hid; try done.
  - injection Hl as ->. cbn. rewrite Hid. by eexists.
  - injection Hl as ->. cbn. rewrite Hid. by eexists.
  - cbn. destruct (pinnedOnce o want now.1); [by eexists|]. rewrite (Hb 0 now) by (done || lia).
    apply (IH _ next k); [done| |done]. intros j l' Hj Hl'. apply (Hb (Datatypes.S j)); [lia|done].
Qed.

(** A reader started with what the operator recorded gets a model to decide
    against.  As soon as one of its looks, before its deadline, is answered while the
    store still holds what [Bootstrap] left there, under at most 249 newer models,
    [Pinned] returns: the recorded store, and a model that at one of the looks said
    what the reader's own embedded model says -- the recorded model itself, when the
    first look can read it. *)
Theorem Bootstrap_then_Pinned want o s s' store model now looks k seen newer :
  modelV1 = Ok want → Bootstrap fuel modelV1 o s = (s', Ok (store, model)) →
  let o' := mkOptions (BaseURL o) store model in
  (now :: looks) !! k = Some seen → (∀ j l, j < k → (now :: looks) !! j = Some l → l.2 = false) →
  answering o' seen.1 → ms_models seen.1 store = newer ++ ms_models s' store → length newer < 250 →
  ∃ id, Pinned modelV1 o' now looks = Ok (store, id)
    ∧ (∃ l, l ∈ now :: looks ∧ offers l.1 store id want)
    ∧ (k = 0 → ∀ r, ms_read_model seen.1 store model = Found r → id = model).
Proof.
  intros Hw HB o' Hk Hbefore Hans Hm Hlen. destruct (Bootstrap_inv want o s s' store model Hw HB) as (Hb & He & Hi & _).
  destruct He as (m & rest & Hs' & Hid & Hsays). rewrite Hs' in Hm.
  assert (store ≠ "") as Hst. { intros ->. apply list_elem_of_fmap in Hi as (x & Hx & Hin). by apply ms_row_ids in Hin. }
  assert (model ≠ "") as Hmo. { subst model. apply (ms_id_given s' store). rewrite Hs'. left. }
  destruct (pinnedOnce_finds o' want seen.1 (length newer) m) as [found Hfound]; [done| |unfold pinPages; lia|done|].
  { cbn. rewrite Hm. by apply list_lookup_middle. }
  destruct (pinned_from_finds o' want None now looks k seen found) as [[st id] Hr]; [done..|].
  destruct (pinned_from_sound _ _ _ _ _ _ _ Hr) as [-> Hoff].
  exists id. split_and!; [|done|].
  - unfold Pinned, newClient. cbn. rewrite !bool_decide_eq_false_2 by done. cbn. rewrite Hw. cbn. done.
  - intros -> r Hread. injection Hk as ->. destruct (ms_found _ _ _ _ Hread) as (m' & Hf & Hin & Hid').
    assert (m' = m) as ->.
    { apply list_elem_of_lookup in Hin as [j Hj]. pose proof (ms_ids seen.1 store) as Hnd.
      enough (j = length newer) as ->. { rewrite Hm, list_lookup_middle in Hj by done. by injection Hj. }
      eapply NoDup_lookup; [done| |]; [by rewrite list_lookup_fmap, Hj|]. cbn.
      rewrite list_lookup_fmap, Hm, list_lookup_middle by done. cbn. by rewrite Hid, Hid'. }
    apply sameModel_says in Hsays. destruct looks as [|l looks]; cbn -[sameModel] in Hr; unfold pinnedOnce in Hr; cbn -[sameModel] in Hr;
      rewrite Hread, Hf, Hsays in Hr; by injection Hr.
Qed.

(** ** Operators that start together

    Each request of [ensureStore] is answered at one moment; between two of them the
    other replicas make theirs. *)
Inductive phase := Looking | Creating | Again (created : string) | Settled (r : result string).

Definition ensure_step (name : string) (s : S) (p : phase) : S * phase :=
  match p with
  | Looking =>
      match storesNamed fuel s name with
      | Err e => (s, Settled (Err e))
      | Ok [] => (s, Creating)
      | Ok found => (s, Settled (Ok (oldest found)))
      end
  | Creating =>
      let '(s', r) := create_store name s in
      match r with Err e => (s', Settled (Err e)) | Ok created => (s', Again created) end
  | Again created =>
      match storesNamed fuel s name with
      | Err _ | Ok [] => (s, Settled (Ok created))
      | Ok found => (s, Settled (Ok (oldest found)))
      end
  | Settled r => (s, Settled r)
  end.

(** The replicas take turns as the schedule says. *)
Fixpoint take_turns (name : string) (schedule : list nat) (s : S) (ps : list phase) : S * list phase :=
  match schedule with
  | [] => (s, ps)
  | i :: schedule =>
      match ps !! i with
      | Some p => let '(s', p') := ensure_step name s p in take_turns name schedule s' (<[i:=p']> ps)
      | None => take_turns name schedule s ps
      end
  end.

(** Every listing asked for on the way is answered. *)
Fixpoint listings_answered (name : string) (schedule : list nat) (s : S) (ps : list phase) : Prop :=
  match schedule with
  | [] => True
  | i :: schedule =>
      match ps !! i with
      | Some p =>
          (∃ found, storesNamed fuel s name = Ok found)
          ∧ let '(s', p') := ensure_step name s p in listings_answered name schedule s' (<[i:=p']> ps)
      | None => listings_answered name schedule s ps
      end
  end.

(** Left alone, three turns are [ensureStore]. *)
Lemma ensureStore_turns name s s' r : ensureStore fuel name s = (s', r) →
  take_turns name [0; 0; 0] s [Looking] = (s', [Settled r]).
Proof.
  unfold ensureStore. cbn [take_turns lookup list_lookup ensure_step].
  destruct (storesNamed fuel s name) as [[|x found]|e] eqn:E; [|by intros [= <- <-]..].
  cbn -[create_store]. destruct (create_store name s) as [s1 [created|e]]; cbn; [|by intros [= <- <-]].
  by destruct (storesNamed fuel s1 name) as [[|y found]|e]; intros [= <- <-].
Qed.

Definition rows_named (name : string) (s : S) : list Store := filter (λ x, st_name x = name) (ms_rows s).

Definition eldest (name : string) (s : S) (id : string) : Prop :=
  ∃ y, y ∈ rows_named name s ∧ st_id y = id ∧ ∀ z, z ∈ rows_named name s → older y z.

Definition phase_ok (name : string) (s : S) (p : phase) : Prop :=
  match p with
  | Again _ => rows_named name s ≠ []
  | Settled (Ok id) => eldest name s id
  | _ => True
  end.

Lemma eldest_unique name s a b : eldest name s a → eldest name s b → a = b.
Proof.
  intros (y & Hy & <- & Hmin) (z & Hz & <- & Hmin'). f_equal.
  pose proof (Hmin z Hz) as H1. pose proof (Hmin' y Hy) as H2. unfold older in H1, H2.
  apply list_elem_of_filter in Hy as [_ [i Hi]%list_elem_of_lookup], Hz as [_ [j Hj]%list_elem_of_lookup].
  enough (i = j) as -> by congruence. eapply NoDup_lookup; [apply (ms_row_times s)|by rewrite list_lookup_fmap, Hi|].
  rewrite list_lookup_fmap, Hj. cbn. f_equal. lia.
Qed.

Lemma listed_eldest name s x found : storesNamed fuel s name = Ok (x :: found) → eldest name s (oldest (x :: found)).
Proof.
  intros Hl%storesNamed_spec. destruct (oldest_in x found) as (y & Hy & -> & Hmin). exists y.
  unfold rows_named. rewrite <-Hl. auto.
Qed.

(** The stores after a request to create one, answered or not. *)
Definition grown (s s' : S) : Prop :=
  ms_rows s' = ms_rows s ∨ ∃ x, ms_rows s' ≡ₚ x :: ms_rows s ∧ ∀ y, y ∈ ms_rows s → (st_created y < st_created x)%Z.

Lemma create_grown name s s' r : create_store name s = (s', r) → grown s s'.
Proof.
  unfold create_store, act_wrap. destruct (ms_create_store s name) as [s1 [id|e]] eqn:E; intros [= <- _].
  - apply ms_create_ok in E as (_ & t & Hr & Ht). right. by exists (mkStore id name t).
  - apply ms_create_err in E as [Hr|(id & t & Hr & Ht)]; [by left|]. right. by exists (mkStore id name t).
Qed.

Lemma rows_named_grow name s s' y : grown s s' → y ∈ rows_named name s → y ∈ rows_named name s'.
Proof.
  unfold rows_named. rewrite !list_elem_of_filter. intros [->|(x & Hr & _)] [Hn Hin]; (split; [done|]); [done|].
  rewrite Hr. by right.
Qed.

(** A store created later is the eldest of nothing that was there. *)
Lemma grown_phase_ok name s s' p : grown s s' → phase_ok name s p → phase_ok name s' p.
Proof.
  intros Hg. destruct p as [| |c|[a|e]]; cbn; try done.
  - intros Hn Hn'. destruct (rows_named name s) as [|y l] eqn:E; [done|].
    assert (y ∈ rows_named name s') as Hy by (eapply rows_named_grow; [done|rewrite E; left]).
    rewrite Hn' in Hy. by apply not_elem_of_nil in Hy.
  - intros (y & Hy & <- & Hmin). exists y. split_and!; [by eapply rows_named_grow|done|].
    intros z [Hz Hin]%list_elem_of_filter. apply list_elem_of_filter in Hy as [_ Hy].
    destruct Hg as [Hr|(x & Hr & Hx)]; rewrite Hr in Hin; [by apply Hmin, list_elem_of_filter|].
    apply elem_of_cons in Hin as [->|Hin]; [|by apply Hmin, list_elem_of_filter].
    specialize (Hx y Hy). unfold older. lia.
Qed.

Lemma ensure_step_ok name s p s' p' : (∃ found, storesNamed fuel s name = Ok found) →
  ensure_step name s p = (s', p') → phase_ok name s p →
  phase_ok name s' p' ∧ ∀ q, phase_ok name s q → phase_ok name s' q.
Proof.
  intros [found Hf]. destruct p as [| |c|r]; cbn [ensure_step].
  - rewrite Hf. destruct found as [|x found]; intros [= <- <-] _; split; [done..| |done]. by apply listed_eldest.
  - intros Hc _. destruct (create_store name s) as [s1 r] eqn:Ec. pose proof (create_grown _ _ _ _ Ec) as Hg.
    enough (s' = s1 ∧ phase_ok name s1 p') as [-> Hp] by (split; [done|intros q; by apply grown_phase_ok]).
    destruct r as [created|e]; injection Hc as <- <-; [|done]. split; [done|]. cbn.
    apply create_store_Ok, ms_create_ok in Ec as (_ & t & Hr & _). unfold rows_named. intros Hn.
    assert (mkStore created name t ∈ filter (λ x, st_name x = name) (ms_rows s1)) as Hin.
    { apply list_elem_of_filter. split; [done|]. rewrite Hr. left. }
    rewrite Hn in Hin. by apply not_elem_of_nil in Hin.
  - rewrite Hf. apply storesNamed_spec in Hf as Hs. cbn. unfold rows_named. rewrite <-Hs.
    destruct found as [|x found]; [done|]. intros [= <- <-] _. split; [by apply listed_eldest|done].
  - by intros [= <- <-].
Qed.

Lemma take_turns_ok name schedule s ps s' ps' : listings_answered name schedule s ps →
  take_turns name schedule s ps = (s', ps') → Forall (phase_ok name s) ps → Forall (phase_ok name s') ps'.
Proof.
  revert s ps. induction schedule as [|i schedule IH]; intros s ps; cbn; [by intros _ [= <- <-]|].
  destruct (ps !! i) as [p|] eqn:Ei; [|apply IH]. destruct (ensure_step name s p) as [s1 p1] eqn:Es. intros [Hans Hrest] Ht Hps.
  assert (phase_ok name s p) as Hp by (by eapply Forall_lookup_1).
  destruct (ensure_step_ok name s p s1 p1 Hans Es Hp) as [Hp1 Hkeep].
  apply (IH s1 (<[i:=p1]> ps)); [done..|]. apply Forall_insert; [|done]. by eapply Forall_impl.
Qed.

(** Operators that start together, with nothing recorded, agree on one store.
    Whatever the order their requests are answered in, and whether or not a request
    to create a store fails, as long as the listings are answered every replica that
    settles on a store settles on the same one. *)
Theorem replicas_agree name schedule s n s' ps i j a b :
  listings_answered name schedule s (replicate n Looking) →
  take_turns name schedule s (replicate n Looking) = (s', ps) →
  ps !! i = Some (Settled (Ok a)) → ps !! j = Some (Settled (Ok b)) → a = b.
Proof.
  intros Hans Ht Hi Hj. apply (take_turns_ok name) in Ht; [|done|by apply Forall_replicate].
  apply (eldest_unique name s'); [by eapply (Forall_lookup_1 _ _ _ _ Ht) in Hi|by eapply (Forall_lookup_1 _ _ _ _ Ht) in Hj].
Qed.
End OperatorLaws.

(** ** A server

    Its whole history: the names of the stores made and the models written, newest
    first.  A token is as long as the rows it is past. *)
Module Example.
Record server := mkServer { made : list string; written : list (string * gmap string json) }.

Fixpoint rows_of (l : list string) : list Store :=
  match l with
  | [] => []
  | name :: l => mkStore ("s" +:+ pretty (length l)) name (Z.of_nat (length l)) :: rows_of l
  end.

Fixpoint models_of (store : string) (l : list (string * gmap string json)) : list (gmap string json) :=
  match l with
  | [] => []
  | (st, m) :: l =>
      (if bool_decide (st = store) then [<["id" := JStr ("m" +:+ pretty (length l))]> m] else []) ++ models_of store l
  end.

Fixpoint token_at (n : nat) : string := match n with 0 => "" | Datatypes.S n => String "x" (token_at n) end.
Definition page_of {A} (rows : list A) (n : nat) (token : string) : list A * string :=
  let past := String.length token + n in
  (take n (drop (String.length token) rows), if bool_decide (length rows ≤ past) then "" else token_at past).

#[global] Instance server_ops : ModelServer server := {
  ms_get_store s id :=
    match list_find (λ row, st_id row = id) (rows_of (made s)) with Some (_, row) => Found row | None => Missing end;
  ms_list_stores s token := Ok (page_of (rows_of (made s)) 100 token);
  ms_create_store s name :=
    (mkServer (name :: made s) (written s), Ok ("s" +:+ pretty (length (made s))));
  ms_read_model s store id :=
    match list_find (λ m, id_of m = id) (models_of store (written s)) with
    | Some (_, m) => Found {[ "authorization_model" := JObj m ]}
    | None => Missing
    end;
  ms_read_models s store n token := Ok (page_of (models_of store (written s)) n token);
  ms_write_model s store m :=
    (mkServer (made s) ((store, m) :: written s), Ok ("m" +:+ pretty (length (written s)))) }.

Lemma token_at_length n : String.length (token_at n) = n.
Proof. induction n as [|n IH]; [done|]. cbn. by rewrite IH. Qed.

Lemma page_of_spec {A} (rows : list A) n token page next : 0 < n → Ok (page_of rows n token) = Ok (page, next) →
  page = take n (drop (String.length token) rows)
  ∧ if bool_decide (next = "") then length rows ≤ String.length token + n else String.length next = String.length token + n.
Proof.
  unfold page_of. intros Hn [= <- <-]. split; [done|].
  destruct (bool_decide (length rows ≤ _)) eqn:El; [by apply bool_decide_eq_true in El|].
  rewrite bool_decide_eq_false_2; [by rewrite token_at_length|]. intros E. apply (f_equal String.length) in E.
  rewrite token_at_length in E. cbn in E. lia.
Qed.

Lemma id_of_insert id m : id_of (<["id" := JStr id]> m) = id.
Proof. unfold id_of, field. by rewrite lookup_insert_eq. Qed.

Lemma models_of_id store l m : m ∈ models_of store l → ∃ k, k < length l ∧ id_of m = "m" +:+ pretty k.
Proof.
  induction l as [|[st x] l IH]; cbn; [by intros ?%not_elem_of_nil|]. rewrite elem_of_app. intros [Hm|(k & Hk & E)%IH].
  - case_bool_decide; [|by apply not_elem_of_nil in Hm]. apply list_elem_of_singleton in Hm as ->. exists (length l).
    split; [lia|apply id_of_insert].
  - exists k. split; [lia|done].
Qed.

Lemma models_of_ids store l : NoDup (id_of <$> models_of store l).
Proof.
  induction l as [|[st x] l IH]; cbn; [constructor|]. case_bool_decide; cbn; [|done]. constructor; [|done].
  rewrite id_of_insert. intros (m & E & (k & Hk & E')%models_of_id)%list_elem_of_fmap. rewrite E' in E.
  apply (inj (String.append "m")), (inj pretty) in E. lia.
Qed.

Lemma rows_of_spec l x : x ∈ rows_of l → (st_created x < Z.of_nat (length l))%Z ∧ ∃ k, k < length l ∧ st_id x = "s" +:+ pretty k.
Proof.
  induction l as [|n l IH]; cbn; [by intros ?%not_elem_of_nil|]. rewrite elem_of_cons.
  intros [->|(Ht & k & Hk & E)%IH]; (split; [cbn; lia|]); [exists (length l)|exists k]; (split; [lia|done]).
Qed.

Lemma rows_of_times l : NoDup (st_created <$> rows_of l).
Proof.
  induction l as [|n l IH]; cbn; constructor; [|done].
  intros (x & E & [Ht _]%rows_of_spec)%list_elem_of_fmap. lia.
Qed.

Lemma says_id m id : says (<["id" := JStr id]> m) m.
Proof. apply sameModel_says. unfold sameModel. cbn. rewrite !andb_true_iff, !deep_equal_iff. unfold field. by rewrite !lookup_insert_ne. Qed.

#[global] Instance server_laws : ModelServerLaws server.
Proof.
  refine {| ms_models s store := models_of store (written s); ms_rows s := rows_of (made s);
            ms_offset _ _ token := String.length token; ms_row_offset _ token := String.length token |}.
  - done.
  - intros s store n token page next Hn Hp. exact (page_of_spec _ _ _ _ _ Hn Hp).
  - intros s store id r. cbn. destruct (list_find _ _) as [[i m]|] eqn:E; [|done]. intros [= <-].
    apply list_find_Some in E as (Hi & Hid & _). exists m. split_and!; [done|by eapply list_elem_of_lookup_2|done].
  - intros. apply models_of_ids.
  - intros s store m (k & _ & ->)%models_of_id. done.
  - intros s s' store m id [= <- <-]. split; [done|]. eexists. split; [cbn; by rewrite bool_decide_eq_true_2|].
    split; [apply id_of_insert|apply says_id].
  - done.
  - intros s token page next Hp. exact (page_of_spec _ 100 _ _ _ ltac:(lia) Hp).
  - intros s id row. cbn. destruct (list_find _ _) as [[i m]|] eqn:E; [|done]. intros [= <-].
    apply list_find_Some in E as (Hi & Hid & _). split; [by eapply list_elem_of_lookup_2|done].
  - intros s row (_ & k & _ & ->)%rows_of_spec. done.
  - intros. apply rows_of_times.
  - intros s s' name id [= <- <-]. cbn. split.
    + intros (x & E & (_ & k & Hk & Ek)%rows_of_spec)%list_elem_of_fmap. rewrite Ek in E.
      apply (inj (String.append "s")), (inj pretty) in E. lia.
    + eexists. split; [done|]. intros x Hx. by apply rows_of_spec in Hx as [Ht _].
  - done.
Defined.

Definition want : gmap string json :=
  {[ "type_definitions" := JArr [JObj {[ "type" := JStr "app"; "metadata" := JNull ]}] ]}.
Definition fresh : Options := mkOptions "http://openfga" "" "".
Definition before : server := mkServer ["another"] [].
Definition after : server := mkServer ["gentian"; "another"] [("s1", want)].

(** A reader that started too early, and looks again when the operator is done. *)
Definition early : server * bool := (before, false).
Definition later : server * bool := (after, true).
End Example.

Lemma Bootstrap_establishes_witness :
  let '(s', r) := Bootstrap 5 (Ok Example.want) Example.fresh Example.before in
  r = Ok ("s1", "m0")
  ∧ Bootstrap 5 (Ok Example.want) (mkOptions "http://openfga" "s1" "m0") s' = (s', Ok ("s1", "m0")).
Proof.
  assert (Bootstrap 5 (Ok Example.want) Example.fresh Example.before = (Example.after, Ok ("s1", "m0"))) as E
    by (vm_compute; reflexivity).
  rewrite E. split; [reflexivity|].
  destruct (Bootstrap_establishes 5 (Ok Example.want) Example.want Example.fresh Example.before Example.after "s1" "m0" eq_refl E)
    as (_ & _ & _ & Hsame).
  eapply Hsame; vm_compute; reflexivity.
Defined.

Lemma Bootstrap_then_Pinned_witness :
  ∃ id, Pinned (Ok Example.want) (mkOptions "http://openfga" "s1" "m0") Example.early [Example.later] = Ok ("s1", id).
Proof.
  destruct (Bootstrap_then_Pinned 5 (Ok Example.want) Example.want Example.fresh Example.before Example.after "s1" "m0"
    Example.early [Example.later] 1 Example.later []) as (id & Hid & _).
  - reflexivity.
  - vm_compute; reflexivity.
  - reflexivity.
  - intros [|j] l Hj; [intros [= <-]; reflexivity|lia].
  - split; [intros token; eexists; reflexivity|]. intros e. vm_compute. discriminate.
  - reflexivity.
  - cbn. lia.
  - exists id. exact Hid.
Defined.

Lemma replicas_agree_witness :
  match (take_turns 5 StoreName [0; 1; 0; 1; 0; 1] Example.before (replicate 2 Looking)).2 with
  | [Settled (Ok a); Settled (Ok b)] => a = b
  | _ => False
  end.
Proof.
  assert (take_turns 5 StoreName [0; 1; 0; 1; 0; 1] Example.before (replicate 2 Looking)
    = (Example.mkServer ["gentian"; "gentian"; "another"] [], [Settled (Ok "s1"); Settled (Ok "s1")])) as E
    by (vm_compute; reflexivity).
  rewrite E. cbn [snd].
  apply (replicas_agree 5 StoreName [0; 1; 0; 1; 0; 1] Example.before 2
    (Example.mkServer ["gentian"; "gentian"; "another"] []) [Settled (Ok "s1"); Settled (Ok "s1")] 0 1 "s1" "s1");
    [|exact E|reflexivity..].
  vm_compute. repeat split; eexists; reflexivity.
Defined.
