(* ===== verification/View.v ===== *)
(** * The view of who holds what ([internal/director/authz/view.go])

    A model becomes a graph of derivations ([parseModel]); which permissions a
    role carries is a fixed point over it ([grantsOf]); [viewOf] reads the holders
    of every role of one object.  Go ranges over a map in an order it does not
    promise: the order of every round is an argument here.

    [grants_are_what_holders_may] compares the fixed point with what OpenFGA's
    model language says a holder of the role may do; [viewOf_exact] says what the
    view of an object shows. *)

From S2P Require Import Prelude.
From S2P Require Import GoStrings.
From S2P Require Import Ids.
From S2P Require Import Fga.

(** ** The decoded model *)

Record directly := mkDirectly { du_type : string; du_relation : string }.

(** The shapes the decoder keeps of a relation: a computed userset, and the
    children of a union that are one.  Any other shape decodes to neither. *)
Record relation_def := mkRelation { rd_computed : option string; rd_union : option (list (option string)) }.

Record type_def := mkTypeDef {
  vd_type : string; vd_metadata : option (gmap string (list directly)); vd_relations : gmap string relation_def }.

Record modelGraph := mkGraph {
  mg_byType : gmap string (gmap string (list string)); mg_role : gmap string (gset string) }.

Definition holdable (ds : list directly) : bool :=
  existsb (λ d, bool_decide (du_type d = "user")
                || (bool_decide (du_type d = "group") && bool_decide (du_relation d = "member"))) ds.

Definition computed_from (c : option string) : list string :=
  match c with Some r => if bool_decide (r = "") then [] else [r] | None => [] end.

Definition derived_from (rd : relation_def) : list string :=
  computed_from (rd_computed rd) ++ match rd_union rd with Some children => children ≫= computed_from | None => [] end.

Definition role_names (td : type_def) : gset string :=
  match vd_metadata td with
  | None => ∅
  | Some rels => dom (filter (λ nm, holdable nm.2 = true) rels)
  end.

Definition add_type (g : modelGraph) (td : type_def) : modelGraph :=
  mkGraph (<[vd_type td := derived_from <$> vd_relations td]> (mg_byType g))
          (<[vd_type td := role_names td]> (mg_role g)).

Definition parseModel (decoded : result (list type_def)) : result modelGraph :=
  defs ← wrap "parse authorization model: %w" [] decoded;
  Ok (foldl add_type (mkGraph ∅ ∅) defs).

(** ** What a role carries *)

Record Binding := mkBinding { bi_relation : string; bi_groups : list string; bi_grants : list string }.
Record View := mkView { vw_object : string; vw_bindings : list Binding; vw_unheld : nat }.

(** One relation of a round. *)
Definition visit (st : gset string * bool) (nf : string * list string) : gset string * bool :=
  if bool_decide (nf.1 ∈ st.1) then st
  else if existsb (λ f, bool_decide (f ∈ st.1)) nf.2 then ({[nf.1]} ∪ st.1, true)
  else st.

Section View.
(** The order in which the [n]th round for a role ranges over the relations. *)
Context (order : string → nat → list (string * list string) → list (string * list string)).

(** The rounds, while one changes something. *)
Fixpoint rounds (fuel n : nat) (role : string) (rels : gmap string (list string)) (reach : gset string)
    : option (gset string) :=
  match fuel with
  | 0 => None
  | S fuel =>
      let '(reach', changed) := foldl visit (reach, false) (order role n (map_to_list rels)) in
      if changed then rounds fuel (S n) role rels reach' else Some reach'
  end.

(** Every round but the last reaches a relation of the type, so one more round
    than there are relations is enough. *)
Definition grantsOf (g : modelGraph) (typ role : string) : option (list string) :=
  match mg_byType g !! typ with
  | None => Some []
  | Some rels =>
      reach ← rounds (S (size rels)) 0 role rels {[role]};
      Some (sort_strings (filter (λ name, has_prefix name "can_" = true) (elements reach)))
  end.

Definition roles (g : modelGraph) (typ : string) : list string :=
  sort_strings (elements (default ∅ (mg_role g !! typ))).

Definition binding_of (g : modelGraph) (read : tuple → result (list tuple)) (typ object : string)
    (view : View) (role : string) : result View :=
  tuples ← wrap "read %s on %s: %w" [role; object] (read (Tuple "" role object));
  let groups := sort_strings (displayGroup ∘ t_user <$> tuples) in
  match grantsOf g typ role with
  | None => Err (Sentinel "out of fuel")
  | Some grants =>
      Ok (mkView (vw_object view) (vw_bindings view ++ [mkBinding role groups grants])
            (if bool_decide (groups = []) then S (vw_unheld view) else vw_unheld view))
  end.

Definition viewOf (modelV1 : result (list type_def)) (read : tuple → result (list tuple)) (object : string)
    : result View :=
  match cut object ":" with
  | None => Err (Errorf "not an object id: %q" [object])
  | Some (typ, _) =>
      if bool_decide (typ = "") then Err (Errorf "not an object id: %q" [object])
      else
        g ← parseModel modelV1;
        fold_result (binding_of g read typ object) (mkView object [] 0) (roles g typ)
  end.
End View.

(** ** What a model says

    What somebody who is assigned the relations [held] on an object holds on it, by
    the rules of the model language for the shapes above: what is assigned, and
    what is computed from something held. *)
Inductive implied (rels : gmap string relation_def) (held : string → Prop) : string → Prop :=
  | implied_held r : held r → implied rels held r
  | implied_computed r rd x :
      rels !! r = Some rd → rd_computed rd = Some x → x ≠ "" → implied rels held x → implied rels held r
  | implied_union r rd children x :
      rels !! r = Some rd → rd_union rd = Some children → Some x ∈ children → x ≠ "" →
      implied rels held x → implied rels held r.

(** ** Lemmas *)

Lemma elem_of_computed_from c x : x ∈ computed_from c ↔ c = Some x ∧ x ≠ "".
Proof.
  unfold computed_from. destruct c as [r|]; [|split; [by intros ?%elem_of_nil|by intros [? _]]].
  destruct (bool_decide (r = "")) eqn:Hr.
  - apply bool_decide_eq_true in Hr. split; [by intros ?%elem_of_nil|]. intros [[= ->] ?]. done.
  - apply bool_decide_eq_false in Hr. rewrite list_elem_of_singleton. split; [by intros ->|by intros [[= ->] _]].
Qed.

Lemma elem_of_derived_from rd x :
  x ∈ derived_from rd ↔
  x ≠ "" ∧ (rd_computed rd = Some x ∨ ∃ children, rd_union rd = Some children ∧ Some x ∈ children).
Proof.
  unfold derived_from. rewrite elem_of_app, elem_of_computed_from.
  destruct (rd_union rd) as [children|].
  - rewrite list_elem_of_bind. setoid_rewrite elem_of_computed_from. split.
    + intros [[? ?]|(c & [-> ?] & ?)]; eauto.
    + intros [? [?|(? & [= <-] & ?)]]; [auto|]. right. exists (Some x). auto.
  - rewrite elem_of_nil. split; [intros [[? ?]|[]]; auto|]. intros [? [?|(? & ? & ?)]]; [auto|done].
Qed.

(** A set closed under the derivations holds everything that follows from it. *)
Definition closed (rels : gmap string (list string)) (reach : gset string) : Prop :=
  ∀ name from f, rels !! name = Some from → f ∈ from → f ∈ reach → name ∈ reach.

Lemma implied_derived rels held r rd x :
  rels !! r = Some rd → x ∈ derived_from rd → implied rels held x → implied rels held r.
Proof.
  intros Hr [Hx [Hc|(children & Hu & Hin)]]%elem_of_derived_from Hi.
  - by eapply implied_computed.
  - by eapply implied_union.
Qed.

Lemma closed_implied rels (reach : gset string) (held : string → Prop) p :
  closed (derived_from <$> rels) reach → (∀ r, held r → r ∈ reach) → implied rels held p → p ∈ reach.
Proof.
  intros Hc Hh Hi. induction Hi as [r Hr|r rd x Hr Hcomp Hx _ IH|r rd children x Hr Hu Hin Hx _ IH]; [by apply Hh|..].
  - apply (Hc r (derived_from rd) x); [by rewrite lookup_fmap, Hr| |done].
    apply elem_of_derived_from. auto.
  - apply (Hc r (derived_from rd) x); [by rewrite lookup_fmap, Hr| |done].
    apply elem_of_derived_from. eauto.
Qed.

Lemma implied_mono rels (held held' : string → Prop) p :
  (∀ r, held r → held' r) → implied rels held p → implied rels held' p.
Proof.
  intros Hh Hi. induction Hi; [by apply implied_held, Hh| |].
  - by eapply implied_computed.
  - by eapply implied_union.
Qed.

(** One round: nothing is lost, what is added is a relation of the type that
    follows from something reached, and a round that changes nothing leaves a set
    that is closed under the relations it went through. *)
Lemma visit_cases st nf :
  (visit st nf = st ∧ (nf.1 ∈ st.1 ∨ ∀ f, f ∈ nf.2 → f ∉ st.1))
  ∨ (visit st nf = ({[nf.1]} ∪ st.1, true) ∧ (nf.1 ∉ st.1) ∧ ∃ f, f ∈ nf.2 ∧ f ∈ st.1).
Proof.
  unfold visit. destruct (bool_decide (nf.1 ∈ st.1)) eqn:Hin; [apply bool_decide_eq_true in Hin; auto|].
  apply bool_decide_eq_false in Hin.
  destruct (existsb (λ f, bool_decide (f ∈ st.1)) nf.2) eqn:Hf.
  - apply existsb_exists in Hf as (f & Hf & Hr%bool_decide_eq_true). right.
    apply list_elem_of_In in Hf. eauto.
  - left. split; [done|]. right. intros f Hfin Hr.
    assert (existsb (λ f, bool_decide (f ∈ st.1)) nf.2 = true) as Hcon; [|congruence].
    apply existsb_exists. exists f. rewrite <-list_elem_of_In, bool_decide_eq_true. done.
Qed.

Lemma round_grows l st : st.1 ⊆ (foldl visit st l).1.
Proof.
  revert st. induction l as [|nf l IH]; intros st; [done|]. simpl. etrans; [|apply IH].
  destruct (visit_cases st nf) as [[-> _]|[-> _]]; simpl; set_solver.
Qed.

Lemma round_changed l st : st.2 = true → (foldl visit st l).2 = true.
Proof.
  revert st. induction l as [|nf l IH]; intros st Hst; [done|]. simpl. apply IH.
  by destruct (visit_cases st nf) as [[-> _]|[-> _]].
Qed.

Lemma round_sound (P : string → Prop) l st :
  (∀ x, x ∈ st.1 → P x) →
  (∀ name from f, (name, from) ∈ l → f ∈ from → P f → P name) →
  ∀ x, x ∈ (foldl visit st l).1 → P x.
Proof.
  revert st. induction l as [|[name from] l IH]; intros st Hst Hl; [done|]. simpl.
  apply IH; [|intros ???; set_solver].
  destruct (visit_cases st (name, from)) as [[-> _]|[-> [_ (f & Hf & Hr)]]]; [done|]. simpl in *.
  intros x [->%elem_of_singleton|Hx]%elem_of_union; [|by apply Hst].
  apply (Hl name from f); [set_solver|done|by apply Hst].
Qed.

Lemma round_progress l st :
  st.2 = false → (foldl visit st l).2 = true →
  ∃ name from, (name, from) ∈ l ∧ (name ∉ st.1) ∧ name ∈ (foldl visit st l).1.
Proof.
  revert st. induction l as [|[name from] l IH]; intros st Hst Hch; simpl in *; [congruence|].
  destruct (visit_cases st (name, from)) as [[Heq _]|[Heq [Hn _]]]; rewrite Heq in *.
  - destruct (IH st Hst Hch) as (n & fr & ? & ? & ?). exists n, fr. set_solver.
  - exists name, from. split_and!; [set_solver|done|]. apply (round_grows l). set_solver.
Qed.

Lemma round_still l st :
  (foldl visit st l).2 = false →
  foldl visit st l = st ∧ ∀ name from f, (name, from) ∈ l → f ∈ from → f ∈ st.1 → name ∈ st.1.
Proof.
  revert st. induction l as [|[name from] l IH]; intros st Hch; simpl in *; [set_solver|].
  destruct (visit_cases st (name, from)) as [[Heq Hcl]|[Heq _]]; rewrite Heq in *.
  - destruct (IH st Hch) as [-> Hl]. split; [done|].
    intros n fr f [[= -> ->]|Hin]%elem_of_cons Hf Hr; [|by eapply Hl].
    destruct Hcl as [?|Hno]; [done|]. by destruct (Hno f).
  - by rewrite round_changed in Hch.
Qed.

Section Grants.
Context (order : string → nat → list (string * list string) → list (string * list string)).
Context (Horder : ∀ role n l, order role n l ≡ₚ l).

Lemma in_order role n (rels : gmap string (list string)) name from :
  (name, from) ∈ order role n (map_to_list rels) ↔ rels !! name = Some from.
Proof. by rewrite Horder, elem_of_map_to_list. Qed.

(** Enough rounds end, in a closed set of what follows. *)
Lemma rounds_end (P : string → Prop) fuel n role (rels : gmap string (list string)) reach :
  size (dom rels ∖ reach) < fuel →
  (∀ x, x ∈ reach → P x) →
  (∀ name from f, rels !! name = Some from → f ∈ from → P f → P name) →
  ∃ reach', rounds order fuel n role rels reach = Some reach' ∧ reach ⊆ reach' ∧ closed rels reach'
    ∧ ∀ x, x ∈ reach' → P x.
Proof.
  intros Hf HP Hstep. revert n reach Hf HP.
  induction fuel as [|fuel IH]; intros n reach Hf HP; [lia|]. simpl.
  set (l := order role n (map_to_list rels)).
  pose proof (round_grows l (reach, false)) as Hgrow.
  pose proof (round_progress l (reach, false) eq_refl) as Hprog.
  pose proof (round_still l (reach, false)) as Hstill.
  assert (∀ x, x ∈ (foldl visit (reach, false) l).1 → P x) as Hsound.
  { apply round_sound; [done|]. intros name from f Hin%in_order. by apply Hstep. }
  destruct (foldl visit (reach, false) l) as [r' [|]] eqn:Hr; simpl in *.
  - destruct (Hprog eq_refl) as (name & from & Hin & Hnew & Hnow).
    destruct (IH (S n) r') as (r'' & Hgo & Hsub & Hcl & HP'').
    { assert (size (dom rels ∖ r') < size (dom rels ∖ reach)); [|lia].
      apply subset_size. apply in_order in Hin. apply elem_of_dom_2 in Hin. set_solver. }
    { done. }
    exists r''. split_and!; [done|set_solver|done|done].
  - destruct (Hstill eq_refl) as [[= ->] Hcl]. exists reach. split_and!; [done|done| |done].
    intros name from f Hn. apply Hcl. by apply in_order.
Qed.

Lemma grantsOf_spec (g : modelGraph) typ role (rels : gmap string relation_def) :
  mg_byType g !! typ = Some (derived_from <$> rels) →
  ∃ out, grantsOf order g typ role = Some out ∧ StronglySorted String.le out ∧ NoDup out
    ∧ ∀ p, p ∈ out ↔ has_prefix p "can_" = true ∧ implied rels (eq role) p.
Proof.
  intros Hg. unfold grantsOf. rewrite Hg.
  destruct (rounds_end (implied rels (eq role)) (S (size (derived_from <$> rels))) 0 role (derived_from <$> rels) {[role]})
    as (reach & Hrun & Hsub & Hcl & Hsound).
  { rewrite <-size_dom. apply Nat.lt_succ_r, subseteq_size. set_solver. }
  { intros x ->%elem_of_singleton. by apply implied_held. }
  { intros name from f [rd [Hfrom Hrd]]%lookup_fmap_Some Hf Hi. subst from. by eapply implied_derived. }
  rewrite Hrun. simpl. eexists. split_and!; [done|apply sort_strings_sorted| |].
  - rewrite sort_strings_perm. apply NoDup_filter, NoDup_elements.
  - intros p. rewrite elem_of_sort_strings, list_elem_of_filter, elem_of_elements.
    split; intros [Hp Hi]; (split; [done|]); [by apply Hsound|].
    apply (closed_implied rels reach (eq role)); [done| |done]. intros r <-. set_solver.
Qed.
End Grants.

Lemma add_types_lookup defs g td :
  NoDup (vd_type <$> defs) → td ∈ defs →
  mg_byType (foldl add_type g defs) !! vd_type td = Some (derived_from <$> vd_relations td)
  ∧ mg_role (foldl add_type g defs) !! vd_type td = Some (role_names td).
Proof.
  revert g. induction defs as [|d defs IH]; intros g Hnd Hin; [set_solver|].
  rewrite fmap_cons in Hnd. apply NoDup_cons in Hnd as [Hd Hnd].
  apply elem_of_cons in Hin as [->|Hin]; [|by apply IH]. simpl.
  assert (∀ g', mg_byType (foldl add_type g' defs) !! vd_type d = mg_byType g' !! vd_type d
              ∧ mg_role (foldl add_type g' defs) !! vd_type d = mg_role g' !! vd_type d) as Hrest.
  { clear IH Hnd g. induction defs as [|d' defs IH]; intros g'; [done|].
    rewrite fmap_cons, not_elem_of_cons in Hd. destruct Hd as [Hne Hd]. simpl.
    destruct (IH Hd (add_type g' d')) as [-> ->]. simpl. by rewrite !lookup_insert_ne by done. }
  destruct (Hrest (add_type g d)) as [-> ->]. simpl. by rewrite !lookup_insert_eq.
Qed.

Lemma elem_of_roles g td role :
  mg_role g !! vd_type td = Some (role_names td) → role ∈ roles g (vd_type td) ↔ role ∈ role_names td.
Proof. intros Hg. unfold roles. rewrite Hg. simpl. by rewrite elem_of_sort_strings, elem_of_elements. Qed.

Lemma elem_of_role_names td role :
  role ∈ role_names td ↔
  ∃ rels ds d, vd_metadata td = Some rels ∧ rels !! role = Some ds ∧ d ∈ ds
    ∧ (du_type d = "user" ∨ du_type d = "group" ∧ du_relation d = "member").
Proof.
  unfold role_names. destruct (vd_metadata td) as [rels|]; [|set_solver].
  rewrite elem_of_dom. unfold is_Some. setoid_rewrite map_lookup_filter_Some. simpl.
  unfold holdable. setoid_rewrite existsb_exists. setoid_rewrite orb_true_iff.
  setoid_rewrite andb_true_iff. setoid_rewrite bool_decide_eq_true. setoid_rewrite <-list_elem_of_In.
  split.
  - intros (ds & Hds & d & Hd & Hk). exists rels, ds, d. auto.
  - intros (? & ds & d & [= <-] & Hds & Hd & Hk). exists ds. eauto.
Qed.

Lemma matches_role role typ id t :
  role ≠ "" → contains_byte typ ":" = false → id ≠ "" →
  matches (Tuple "" role (typ +:+ ":" +:+ id)) t = true ↔ t_relation t = role ∧ t_object t = typ +:+ ":" +:+ id.
Proof.
  intros Hr Ht Hid. unfold matches, field_matches, is_type_only. cbn [t_user t_relation t_object].
  change (":" +:+ id) with (String ":" id). rewrite cut_app by done.
  assert (typ +:+ String ":" id ≠ "") as Hne by (by destruct typ).
  rewrite (bool_decide_eq_false_2 _ Hr), (bool_decide_eq_false_2 _ Hne).
  destruct id as [|c id]; [done|].
  rewrite bool_decide_eq_true_2 by done. simpl. rewrite orb_false_r, andb_true_iff, !bool_decide_eq_true. naive_solver.
Qed.

(** ** Properties *)

(** The fixed point is the model's meaning.  For every type of a model, in
    whatever order its relations are gone through, [grantsOf] ends after finitely
    many rounds, and lists in order, once each, exactly the [can_] permissions that
    everybody holds on an object who is assigned the role on it, whatever else they
    are assigned. *)
Theorem grants_are_what_holders_may
    (order : string → nat → list (string * list string) → list (string * list string))
    (defs : list type_def) (g : modelGraph) (td : type_def) (role : string) :
  (∀ role n l, order role n l ≡ₚ l) →
  parseModel (Ok defs) = Ok g → NoDup (vd_type <$> defs) → td ∈ defs →
  ∃ out, grantsOf order g (vd_type td) role = Some out ∧ StronglySorted String.le out ∧ NoDup out
    ∧ ∀ p, p ∈ out ↔ has_prefix p "can_" = true
                     ∧ ∀ held : string → Prop, held role → implied (vd_relations td) held p.
Proof.
  intros Ho [= <-] Hnd Hin. destruct (add_types_lookup defs (mkGraph ∅ ∅) td Hnd Hin) as [Hg _].
  destruct (grantsOf_spec order Ho _ _ role _ Hg) as (out & Hout & Hs & Hn & Hp).
  exists out. split_and!; [done..|]. intros p. rewrite Hp. split; intros [Hc Hi]; (split; [done|]); [|by apply Hi].
  intros held Hh. eapply implied_mono; [|exact Hi]. by intros r <-.
Qed.

(** What a row of the view says of a store: who holds the role, by the names a
    person knows, and the permissions it carries. *)
Definition row_true {W} `{RightsStoreLaws W} (s : W) (td : type_def) (object : string) (b : Binding) : Prop :=
  (∃ l, NoDup l ∧ (∀ t, t ∈ l ↔ t ∈ rs_contents s ∧ t_relation t = bi_relation b ∧ t_object t = object)
        ∧ bi_groups b = sort_strings (displayGroup ∘ t_user <$> l))
  ∧ ∀ p, p ∈ bi_grants b ↔ has_prefix p "can_" = true ∧ implied (vd_relations td) (eq (bi_relation b)) p.

Definition unheld (bs : list Binding) : nat := length (filter (λ b, bi_groups b = []) bs).

Section ViewOf.
Context {W : Type} `{RightsStoreLaws W}.
Context (order : string → nat → list (string * list string) → list (string * list string)).
Context (Horder : ∀ role n l, order role n l ≡ₚ l).

Lemma binding_of_Ok (s : W) g td id view role view' :
  mg_byType g !! vd_type td = Some (derived_from <$> vd_relations td) →
  contains_byte (vd_type td) ":" = false → id ≠ "" → role ≠ "" →
  binding_of order g (rs_read s) (vd_type td) (vd_type td +:+ ":" +:+ id) view role = Ok view' →
  ∃ b, vw_bindings view' = vw_bindings view ++ [b] ∧ bi_relation b = role
    ∧ row_true s td (vd_type td +:+ ":" +:+ id) b ∧ vw_object view' = vw_object view
    ∧ vw_unheld view' = vw_unheld view + unheld [b].
Proof.
  intros Hg Ht Hid Hr. unfold binding_of.
  intros (l & Hread%wrap_Ok & Hrest)%bind_Ok.
  destruct (grantsOf_spec order Horder g (vd_type td) role _ Hg) as (out & Hout & _ & _ & Hp).
  rewrite Hout in Hrest. injection Hrest as <-.
  eexists. split_and!; [done|done| |done|].
  - apply rs_read_ok in Hread as [Hnd Hl]. split; [|done]. exists l. split_and!; [done| |done].
    intros t. rewrite Hl. by rewrite matches_role.
  - cbn [vw_unheld]. unfold unheld. rewrite filter_cons, filter_nil. cbn [bi_groups].
    destruct (decide (sort_strings _ = [])) as [He|He].
    + rewrite bool_decide_eq_true_2 by done. simpl. lia.
    + rewrite bool_decide_eq_false_2 by done. simpl. lia.
Qed.

Lemma viewOf_rows (s : W) g td id l view :
  mg_byType g !! vd_type td = Some (derived_from <$> vd_relations td) →
  contains_byte (vd_type td) ":" = false → id ≠ "" → "" ∉ l →
  fold_result (binding_of order g (rs_read s) (vd_type td) (vd_type td +:+ ":" +:+ id))
    (mkView (vd_type td +:+ ":" +:+ id) [] 0) l = Ok view →
  vw_object view = vd_type td +:+ ":" +:+ id ∧ bi_relation <$> vw_bindings view = l
  ∧ Forall (row_true s td (vd_type td +:+ ":" +:+ id)) (vw_bindings view)
  ∧ vw_unheld view = unheld (vw_bindings view).
Proof.
  intros Hg Ht Hid Hl Hrun.
  refine (fold_result_invariant _ (λ seen view, vw_object view = vd_type td +:+ ":" +:+ id
    ∧ bi_relation <$> vw_bindings view = seen
    ∧ Forall (row_true s td (vd_type td +:+ ":" +:+ id)) (vw_bindings view)
    ∧ vw_unheld view = unheld (vw_bindings view)) _ _ _ Hrun _ _); [done|].
  intros seen role v v' Hpre (Ho & Hb & Hf & Hu) Hstep.
  apply binding_of_Ok in Hstep as (b & -> & Hrel & Hrow & -> & ->); [|done..|].
  - rewrite fmap_app, Hb. simpl. rewrite Hrel. split_and!; [done|done| |].
    + by apply Forall_app_2; [|apply Forall_singleton].
    + rewrite Hu. unfold unheld. by rewrite filter_app, length_app.
  - intros ->. apply Hl. destruct Hpre as [k ->]. set_solver.
Qed.
End ViewOf.

(** The view of an object is what the store and the model say of it.  When
    the role reads succeed the view is answered, and it has one row for each
    relation the model assigns to users or to the members of groups, in order and
    whether anybody holds it or not; a row names exactly the holders the store has
    and the permissions the role carries; and the rows nobody holds are counted. *)
Theorem viewOf_exact {W} `{RightsStoreLaws W} (order : string → nat → list (string * list string) → list (string * list string))
    (s : W) (defs : list type_def) (td : type_def) (id : string) :
  (∀ role n l, order role n l ≡ₚ l) → NoDup (vd_type <$> defs) → td ∈ defs →
  vd_type td ≠ "" → contains_byte (vd_type td) ":" = false → id ≠ "" → "" ∉ role_names td →
  let object := vd_type td +:+ ":" +:+ id in
  (∀ role, role ∈ role_names td → ∃ l, rs_read s (Tuple "" role object) = Ok l) →
  ∃ view, viewOf order (Ok defs) (rs_read s) object = Ok view ∧ vw_object view = object
    ∧ StronglySorted String.le (bi_relation <$> vw_bindings view) ∧ NoDup (bi_relation <$> vw_bindings view)
    ∧ (∀ role, role ∈ bi_relation <$> vw_bindings view ↔
         ∃ rels ds d, vd_metadata td = Some rels ∧ rels !! role = Some ds ∧ d ∈ ds
           ∧ (du_type d = "user" ∨ du_type d = "group" ∧ du_relation d = "member"))
    ∧ Forall (row_true s td object) (vw_bindings view)
    ∧ vw_unheld view = length (filter (λ b, bi_groups b = []) (vw_bindings view)).
Proof.
  intros Ho Hnd Hin Hty Hcol Hid Hempty object Hreads.
  set (g := foldl add_type (mkGraph ∅ ∅) defs).
  destruct (add_types_lookup defs (mkGraph ∅ ∅) td Hnd Hin) as [Hg Hrole]. fold g in Hg, Hrole.
  assert (∃ view, fold_result (binding_of order g (rs_read s) (vd_type td) object)
                    (mkView object [] 0) (roles g (vd_type td)) = Ok view) as [view Hview].
  { apply fold_result_total. intros v role Hr%elem_of_roles; [|done]. destruct (Hreads role Hr) as [l Hl].
    unfold binding_of. rewrite Hl. simpl.
    destruct (grantsOf_spec order Ho g (vd_type td) role _ Hg) as (out & -> & _). eauto. }
  assert ("" ∉ roles g (vd_type td)) as Hne by (by rewrite elem_of_roles).
  destruct (viewOf_rows order Ho s g td id _ view Hg Hcol Hid Hne Hview) as (Hobj & Hb & Hrows & Hun).
  exists view. split_and!; [|done| | | |done|done].
  - unfold viewOf, object at 1. change (":" +:+ id) with (String ":" id). rewrite cut_app by done.
    rewrite bool_decide_eq_false_2 by done. simpl. exact Hview.
  - rewrite Hb. apply sort_strings_sorted.
  - rewrite Hb. unfold roles. rewrite sort_strings_perm. apply NoDup_elements.
  - intros role. by rewrite Hb, elem_of_roles, elem_of_role_names.
Qed.

(** ** Examples: the cluster and the app of the model in [model.json] *)

Module ViewExample.
Definition this : relation_def := mkRelation None None.
Definition computed (r : string) : relation_def := mkRelation (Some r) None.
Definition union (l : list string) : relation_def := mkRelation None (Some (Some <$> l)).
Definition users : list directly := [mkDirectly "user" ""].
Definition members : list directly := [mkDirectly "group" "member"].

Definition cluster : type_def := mkTypeDef "cluster"
  (Some (list_to_map [("admin", members); ("auditor", users); ("break_glass", users ++ members);
     ("perimeter_approver", users); ("security_officer", users); ("service_admin", users);
     ("shared_apps_admin", users); ("can_audit", []); ("can_configure", [])]))
  (list_to_map [("admin", this); ("auditor", this); ("break_glass", this); ("perimeter_approver", this);
     ("security_officer", this); ("service_admin", this); ("shared_apps_admin", this);
     ("can_approve", computed "security_officer"); ("can_approve_perimeter", computed "perimeter_approver");
     ("can_audit", union ["auditor"; "security_officer"; "admin"]); ("can_configure", computed "admin");
     ("can_deploy_tenant", computed "admin"); ("can_edit_raw", computed "break_glass");
     ("can_grant_shared", computed "shared_apps_admin"); ("can_install_shared", computed "shared_apps_admin");
     ("can_open_kernel_tools", union ["can_configure"; "can_operate_system"]);
     ("can_operate_system", computed "service_admin");
     ("can_read_credential", union ["can_write_credential"; "can_audit"]);
     ("can_set_admission", computed "break_glass"); ("can_write_credential", computed "admin")]).

(** The app's [can_use] is a difference, a shape the decoder does not keep. *)
Definition app : type_def := mkTypeDef "app"
  (Some (list_to_map [("admin", members); ("entitled", members); ("tenant", [mkDirectly "tenant" ""])]))
  (list_to_map [("admin", this); ("entitled", this); ("tenant", this); ("can_administer", computed "admin");
     ("can_launch", computed "can_use"); ("can_use", this); ("can_read_credential", this);
     ("can_write_credential", this)]).

Definition defs : list type_def := [mkTypeDef "user" None ∅; cluster; app].
Definition graph : modelGraph := foldl add_type (mkGraph ∅ ∅) defs.

(** Every other round goes through the relations backwards. *)
Definition zigzag (_ : string) (n : nat) (l : list (string * list string)) : list (string * list string) :=
  if Nat.even n then l else rev l.
Lemma zigzag_perm role n l : zigzag role n l ≡ₚ l.
Proof. unfold zigzag. destruct (Nat.even n); [done|]. symmetry. apply Permutation_rev. Qed.

(** An auditor may audit and read credentials; who is entitled to an app is shown
    without the right to use it. *)
Example auditor_grants : grantsOf zigzag graph "cluster" "auditor" = Some ["can_audit"; "can_read_credential"].
Proof. vm_compute. reflexivity. Qed.
Example entitled_grants : grantsOf zigzag graph "app" "entitled" = Some [].
Proof. vm_compute. reflexivity. Qed.

Example cluster_roles : roles graph "cluster" =
  ["admin"; "auditor"; "break_glass"; "perimeter_approver"; "security_officer"; "service_admin"; "shared_apps_admin"].
Proof. vm_compute. reflexivity. Qed.

Definition stored : mem_server := MemServer
  {[Tuple "group:gentian/platform/admins#member" "admin" "cluster:gentian-os";
    Tuple "user:kernel/ana" "auditor" "cluster:gentian-os";
    Tuple "user:kernel/bo" "auditor" "cluster:other"]} 10.
End ViewExample.

Lemma grants_are_what_holders_may_witness :
  ∃ out, grantsOf ViewExample.zigzag ViewExample.graph "cluster" "security_officer" = Some out
    ∧ StronglySorted String.le out ∧ NoDup out
    ∧ ∀ p, p ∈ out ↔ has_prefix p "can_" = true
        ∧ ∀ held : string → Prop, held "security_officer" → implied (vd_relations ViewExample.cluster) held p.
Proof.
  refine (grants_are_what_holders_may ViewExample.zigzag ViewExample.defs ViewExample.graph
    ViewExample.cluster "security_officer" ViewExample.zigzag_perm _ _ _).
  - reflexivity.
  - apply (bool_decide_unpack _). vm_compute. exact I.
  - set_solver.
Defined.

Lemma viewOf_exact_witness :
  ∃ view, viewOf ViewExample.zigzag (Ok ViewExample.defs) (rs_read ViewExample.stored) "cluster:gentian-os" = Ok view
    ∧ Forall (row_true ViewExample.stored ViewExample.cluster "cluster:gentian-os") (vw_bindings view)
    ∧ vw_unheld view = length (filter (λ b, bi_groups b = []) (vw_bindings view)).
Proof.
  destruct (viewOf_exact ViewExample.zigzag ViewExample.stored ViewExample.defs ViewExample.cluster "gentian-os")
    as (view & Hv & _ & _ & _ & _ & Hrows & Hun).
  - exact ViewExample.zigzag_perm.
  - apply (bool_decide_unpack _). vm_compute. exact I.
  - set_solver.
  - done.
  - reflexivity.
  - done.
  - apply (bool_decide_unpack _). vm_compute. exact I.
  - intros role Hr. assert (role ∈ elements (role_names ViewExample.cluster)) as Hl by (by apply elem_of_elements).
    revert Hl. vm_compute elements. rewrite !elem_of_cons, elem_of_nil.
    clear Hr. intros Hl. repeat (destruct Hl as [->|Hl]; [eexists; vm_compute; reflexivity|]). destruct Hl.
  - exists view. auto.
Defined.
