(* ===== verification/Membership.v ===== *)
(** * Group memberships in the rights store ([internal/membership/membership.go])

    The projector makes the memberships the store holds of a person, within what a
    realm may speak about, equal to what the realm states.

    [projector_refines_directory]: a sequence of statements leaves the store, seen
    as a directory of who is in which group, where the same statements leave an
    abstract directory.  [realm_speaks_for_its_own]: however a call ends, it changes
    only memberships of groups its realm may speak about. *)

From S2P Require Import Prelude.
From S2P Require Import GoStrings.
From S2P Require Import Ids.
From S2P Require Import Fga.

(** ** What a realm may speak about *)

Record Scope := mkScope { sc_platform_realm : string; sc_platform_tenant : string }.

Definition prefix : string := "gentian:".

Definition allows (s : Scope) (realm group : string) : bool :=
  match split group ":" with
  | p0 :: p1 :: p2 :: rest =>
      if negb (bool_decide (p0 = "gentian")) then false
      else if bool_decide (p1 = "platform") then bool_decide (realm = sc_platform_realm s)
      else if bool_decide (p1 = "tenant") then
        if bool_decide (rest = []) || negb (ValidTenantName p2) then false
        else if bool_decide (realm = sc_platform_realm s) then bool_decide (p2 = sc_platform_tenant s)
        else bool_decide (p2 = realm)
      else false
  | _ => false
  end.

Definition owns (s : Scope) (realm groupObject : string) : bool :=
  allows s realm (replace_byte (trim_prefix groupObject "group:") "/" ":").

(** ** The projector *)

Record Change := mkChange { cg_added : list string; cg_removed : list string; cg_refused : list string }.

(** The object of a group the realm may assert. *)
Definition asserted (s : Scope) (realm g : string) : option string :=
  match Group g with
  | Ok obj => if allows s realm g then Some obj else None
  | Err _ => None
  end.

(** The groups a statement names, in the platform's vocabulary. *)
Definition named (groups : list string) : list string :=
  filter (λ g, has_prefix g prefix = true) ((λ g, trim_prefix g "/") <$> groups).

Definition NewProjector (store : bool) (s : Scope) : result Scope :=
  if negb store || bool_decide (sc_platform_realm s = "") || bool_decide (sc_platform_tenant s = "")
  then Err (Sentinel "membership: store, platform realm and platform tenant are required")
  else Ok s.

Section Projector.
Context {W : Type} `{RightsStore W} (scope : Scope).
#[local] Open Scope act_scope.

Definition SetUserGroups (realm sub : string) (groups : list string) : act W Change :=
  match User sub with
  | Err e => fail e
  | Ok user =>
      let refused := filter (λ g, asserted scope realm g = None) (named groups) in
      let want : gset string := list_to_set (omap (asserted scope realm) (named groups)) in
      stored ⇐ act_wrap "read memberships of %s: %w" [user] (λ s, (s, rs_read s (Tuple user "" "group:")));
      let here := filter (λ t, t_relation t = "member" ∧ owns scope realm (t_object t) = true) stored in
      let have : gset string := list_to_set (t_object <$> here) in
      let deletes := filter (λ t, t_object t ∉ want) here in
      let writes := (λ obj, Tuple user "member" obj) <$> elements (want ∖ have) in
      (if bool_decide (writes = []) && bool_decide (deletes = []) then ret tt
       else act_wrap "write memberships of %s: %w" [user] (λ s, rs_write s writes deletes));;
      ret (mkChange (sort_strings (t_object <$> writes)) (sort_strings (t_object <$> deletes)) refused)
  end.

Definition RemoveGroup (realm path : string) : act W Change :=
  let group := trim_prefix path "/" in
  if negb (has_prefix group prefix) then ret (mkChange [] [] [])
  else match asserted scope realm group with
  | None => ret (mkChange [] [] [group])
  | Some obj =>
      stored ⇐ act_wrap "read members of %s: %w" [obj] (λ s, (s, rs_read s (Tuple "" "member" obj)));
      if bool_decide (stored = []) then ret (mkChange [] [] [])
      else
        act_wrap "remove members of %s: %w" [obj] (λ s, rs_write s [] stored);;
        ret (mkChange [] (t_user <$> stored) [])
  end.
End Projector.

(** ** Keeping one person's memberships

    What comparing with the stored memberships of a person, over the groups
    [owned], and writing the difference makes of the store. *)
Definition person_in (owned : string → bool) (user : string) (t : tuple) : Prop :=
  t_user t = user ∧ t_relation t = "member" ∧ owned (t_object t) = true ∧ has_prefix (t_object t) "group:" = true.
#[global] Instance person_in_dec owned user t : Decision (person_in owned user t).
Proof. unfold person_in. apply _. Defined.

Lemma person_read owned user t :
  user ≠ "" →
  matches (Tuple user "" "group:") t = true ∧ t_relation t = "member" ∧ owned (t_object t) = true
  ↔ person_in owned user t.
Proof.
  intros Hne. unfold person_in, matches, field_matches, is_type_only. cbn [t_user t_relation t_object].
  rewrite (bool_decide_eq_false_2 (user = "")), (bool_decide_eq_true_2 ("" = "")), (bool_decide_eq_false_2 ("group:" = "")) by done.
  change (match cut "group:" ":" with Some (_, "") => true | _ => false end) with true.
  rewrite !orb_false_l, orb_true_l, andb_true_r, andb_true_l, andb_true_iff, orb_true_iff, !bool_decide_eq_true.
  split; [|intros (? & ? & ? & ?); auto].
  intros ([-> [<-|?]] & ? & ?); done.
Qed.

Lemma membership_diff owned user (want : gset string) (c : gset tuple) stored :
  user ≠ "" →
  (∀ obj, obj ∈ want → owned obj = true ∧ has_prefix obj "group:" = true) →
  (∀ t, t ∈ stored ↔ t ∈ c ∧ matches (Tuple user "" "group:") t = true) →
  let here := filter (λ t, t_relation t = "member" ∧ owned (t_object t) = true) stored in
  let have : gset string := list_to_set (t_object <$> here) in
  let deletes := filter (λ t, t_object t ∉ want) here in
  let writes := (λ obj, Tuple user "member" obj) <$> elements (want ∖ have) in
  (∀ t, t ∈ deletes ↔ t ∈ c ∧ person_in owned user t ∧ t_object t ∉ want)
  ∧ (∀ t, t ∈ writes ↔ (t ∉ c) ∧ person_in owned user t ∧ t_object t ∈ want).
Proof.
  intros Hne Hwant Hstored here have deletes writes.
  assert (∀ x, x ∈ here ↔ x ∈ c ∧ person_in owned user x) as Hhere.
  { intros x. unfold here. rewrite list_elem_of_filter, Hstored, <-person_read by done. tauto. }
  assert (∀ obj, obj ∈ have ↔ Tuple user "member" obj ∈ c ∧ person_in owned user (Tuple user "member" obj)) as Hhave.
  { intros obj. unfold have. rewrite elem_of_list_to_set, list_elem_of_fmap. setoid_rewrite Hhere. split.
    - intros ([u r o] & -> & Hc & (Hu & Hr & Hg)). simpl in *. subst u r. by split.
    - intros Hc. by exists (Tuple user "member" obj). }
  split.
  - intros t. unfold deletes. rewrite list_elem_of_filter, Hhere. tauto.
  - intros [u r o]. unfold writes. rewrite list_elem_of_fmap. setoid_rewrite elem_of_elements.
    setoid_rewrite elem_of_difference. setoid_rewrite Hhave. split.
    + intros (obj & [= -> -> ->] & Hw & Hn). destruct (Hwant obj Hw) as [? ?].
      assert (person_in owned user (Tuple user "member" obj)) by (by split_and!). tauto.
    + intros (Hn & (Hu & Hr & Ho) & Hw). simpl in *. subst u r. exists o. tauto.
Qed.

Lemma membership_kept owned user (want : gset string) (c : gset tuple) (writes deletes : list tuple) :
  (∀ t, t ∈ deletes ↔ t ∈ c ∧ person_in owned user t ∧ t_object t ∉ want) →
  (∀ t, t ∈ writes ↔ (t ∉ c) ∧ person_in owned user t ∧ t_object t ∈ want) →
  ∀ t, t ∈ (c ∖ list_to_set deletes) ∪ list_to_set writes ↔
    if decide (person_in owned user t) then t_object t ∈ want else t ∈ c.
Proof.
  intros Hd Hw t. rewrite elem_of_union, elem_of_difference, !elem_of_list_to_set, Hd, Hw.
  destruct (decide (person_in owned user t)); destruct (decide (t_object t ∈ want)); destruct (decide (t ∈ c)); tauto.
Qed.

(** ** Lemmas *)

Lemma allows_realms s r1 r2 g :
  allows s r1 g = true → allows s r2 g = true →
  r1 = r2 ∨ (r1 = sc_platform_realm s ∧ r2 = sc_platform_tenant s) ∨ (r1 = sc_platform_tenant s ∧ r2 = sc_platform_realm s).
Proof.
  unfold allows. destruct (split g ":") as [|p0 [|p1 [|p2 rest]]]; [done..|].
  destruct (negb (bool_decide (p0 = "gentian"))); [done|].
  destruct (bool_decide (p1 = "platform")); [rewrite !bool_decide_eq_true; intros -> ->; auto|].
  destruct (bool_decide (p1 = "tenant")); [|done].
  destruct (bool_decide (rest = []) || negb (ValidTenantName p2)); [done|].
  destruct (bool_decide (r1 = sc_platform_realm s)) eqn:H1; destruct (bool_decide (r2 = sc_platform_realm s)) eqn:H2;
    rewrite !bool_decide_eq_true; rewrite ?bool_decide_eq_true in H1; rewrite ?bool_decide_eq_true in H2;
    intros; subst; auto.
Qed.

Lemma User_inj sub sub' u : User sub = Ok u → User sub' = Ok u → sub = sub'.
Proof.
  intros (id & Hid & ->)%User_Ok (id' & Hid' & Heq)%User_Ok. apply app_inj_str in Heq as ->.
  by apply (encode_inj_aux _ _ id').
Qed.

Lemma Group_inj g g' obj : Group g = Ok obj → Group g' = Ok obj → g = g'.
Proof.
  intros (id & Hid & ->)%Group_Ok (id' & Hid' & Heq)%Group_Ok. apply app_inj_str in Heq as ->.
  by apply (encode_inj_aux _ _ id').
Qed.

Lemma User_nonempty sub u : User sub = Ok u → u ≠ "".
Proof. by intros (id & _ & ->)%User_Ok. Qed.

(** The stored id of a group belongs to exactly the realms that may assert its name. *)
Lemma owns_Group s realm g obj : Group g = Ok obj → owns s realm obj = allows s realm g ∧ has_prefix obj "group:" = true.
Proof.
  intros (id & Hid & ->)%Group_Ok. split; [|apply has_prefix_app].
  unfold owns, trim_prefix. rewrite cut_prefix_app. simpl.
  pose proof (encode_clean _ _ "/" Hid eq_refl) as Hc. apply encode_Ok in Hid as (_ & _ & ->).
  by rewrite replace_byte_back.
Qed.

Lemma asserted_Some s realm g obj : asserted s realm g = Some obj ↔ Group g = Ok obj ∧ allows s realm g = true.
Proof. unfold asserted. destruct (Group g) as [o|]; [|naive_solver]. destruct (allows s realm g); naive_solver. Qed.

(** What a statement wants of the store. *)
Definition wanted (s : Scope) (realm : string) (groups : list string) : gset string :=
  list_to_set (omap (asserted s realm) (named groups)).

Lemma elem_of_wanted s realm groups obj :
  obj ∈ wanted s realm groups ↔ ∃ g, g ∈ named groups ∧ Group g = Ok obj ∧ allows s realm g = true.
Proof.
  unfold wanted. rewrite elem_of_list_to_set, list_elem_of_omap. setoid_rewrite asserted_Some. done.
Qed.

Lemma wanted_owned s realm groups obj :
  obj ∈ wanted s realm groups → owns s realm obj = true ∧ has_prefix obj "group:" = true.
Proof.
  intros (g & _ & Hg & Ha)%elem_of_wanted. destruct (owns_Group s realm g obj Hg) as [-> ?]. done.
Qed.

Section Projector.
Context {W : Type} `{RightsStoreLaws W} (scope : Scope).

(** What a call leaves of the store, however it ends. *)
Lemma write_only (P : tuple → Prop) (s : W) writes deletes s' r :
  rs_write s writes deletes = (s', r) → (∀ t, t ∈ writes → P t) → (∀ t, t ∈ deletes → P t) →
  ∀ t, ¬ P t → t ∈ rs_contents s' ↔ t ∈ rs_contents s.
Proof.
  intros Hw HW HD t Ht.
  assert ((t ∉ writes) ∧ t ∉ deletes) as [Hnw Hnd] by (split; intros Hin; [by apply Ht, HW|by apply Ht, HD]).
  destruct r as [u|e].
  - apply rs_write_ok in Hw as ->. rewrite elem_of_union, elem_of_difference, !elem_of_list_to_set. tauto.
  - apply rs_write_err in Hw as [(l & [k Hk] & ->)|(l & [k Hk] & ->)].
    + rewrite elem_of_difference, elem_of_list_to_set. assert (t ∉ l) by (subst; set_solver). tauto.
    + rewrite elem_of_union, elem_of_difference, !elem_of_list_to_set. assert (t ∉ l) by (subst; set_solver). tauto.
Qed.

(** The two ends of [SetUserGroups]. *)
Lemma SetUserGroups_cases realm sub groups (s : W) s' r :
  SetUserGroups scope realm sub groups s = (s', r) →
  (s' = s ∧ ∃ e, r = Err e)
  ∨ ∃ user (writes deletes : list tuple), User sub = Ok user
      ∧ (∀ t, t ∈ deletes ↔ t ∈ rs_contents s ∧ person_in (owns scope realm) user t ∧ t_object t ∉ wanted scope realm groups)
      ∧ (∀ t, t ∈ writes ↔ (t ∉ rs_contents s) ∧ person_in (owns scope realm) user t ∧ t_object t ∈ wanted scope realm groups)
      ∧ match r with
        | Ok ch => rs_contents s' = (rs_contents s ∖ list_to_set deletes) ∪ list_to_set writes
            ∧ ch = mkChange (sort_strings (t_object <$> writes)) (sort_strings (t_object <$> deletes))
                     (filter (λ g, asserted scope realm g = None) (named groups))
        | Err _ => ∃ s0 r0, rs_write s writes deletes = (s0, r0) ∧ s' = s0
        end.
Proof.
  unfold SetUserGroups. destruct (User sub) as [user|e] eqn:Hu; [|intros [= <- <-]; left; eauto].
  unfold act_bind, act_wrap. destruct (rs_read s (Tuple user "" "group:")) as [stored|e] eqn:Hr; [|intros [= <- <-]; left; eauto].
  apply rs_read_ok in Hr as [_ Hstored].
  destruct (membership_diff (owns scope realm) user (wanted scope realm groups) (rs_contents s) stored) as [Hd Hw];
    [by eapply User_nonempty|apply wanted_owned|done|].
  intros Hrun. right. exists user. do 2 eexists. split_and!; [done|exact Hd|exact Hw|].
  revert Hrun. cbn [wrap]. cbv zeta. fold (wanted scope realm groups).
  match goal with |- context [bool_decide (?ws = []) && bool_decide (?ds = [])] => set (writes := ws); set (deletes := ds) end.
  destruct (bool_decide (writes = []) && bool_decide (deletes = [])) eqn:He.
  - apply andb_true_iff in He as [He1%bool_decide_eq_true He2%bool_decide_eq_true].
    intros [= <- <-]. split; [|done]. rewrite He1, He2. set_solver.
  - destruct (rs_write s writes deletes) as [s1 [u|e]] eqn:Hwr.
    + intros [= <- <-]. split; [by eapply rs_write_ok|done].
    + intros [= <- <-]. eauto.
Qed.

Lemma SetUserGroups_Ok realm sub groups (s : W) s' ch :
  SetUserGroups scope realm sub groups s = (s', Ok ch) →
  ∃ user, User sub = Ok user
    ∧ ∀ t, t ∈ rs_contents s' ↔
        if decide (person_in (owns scope realm) user t) then t_object t ∈ wanted scope realm groups else t ∈ rs_contents s.
Proof.
  intros Hrun. apply SetUserGroups_cases in Hrun as [(_ & e & ?)|(user & ws & ds & Hu & Hd & Hw & -> & _)]; [done|].
  exists user. split; [done|]. by apply membership_kept.
Qed.

Lemma SetUserGroups_only realm sub groups (s : W) s' r t :
  SetUserGroups scope realm sub groups s = (s', r) →
  (∀ user, User sub = Ok user → ¬ person_in (owns scope realm) user t) →
  t ∈ rs_contents s' ↔ t ∈ rs_contents s.
Proof.
  intros Hrun Ht. apply SetUserGroups_cases in Hrun as [(-> & _)|(user & ws & ds & Hu & Hd & Hw & Hr)]; [done|].
  specialize (Ht user Hu). destruct r as [ch|e].
  - destruct Hr as [-> _]. rewrite elem_of_union, elem_of_difference, !elem_of_list_to_set, Hd, Hw. tauto.
  - destruct Hr as (s0 & r0 & Hwr & ->). eapply (write_only (person_in (owns scope realm) user)); [done|..|done].
    + intros x Hx%Hw. tauto.
    + intros x Hx%Hd. tauto.
Qed.

Lemma Group_id_whole g obj : Group g = Ok obj → ∃ id, obj = "group:" +:+ id ∧ id ≠ "".
Proof. intros (id & Hid & ->)%Group_Ok. exists id. split; [done|]. by apply encode_storable in Hid as [? _]. Qed.

Lemma members_read g obj t :
  Group g = Ok obj → matches (Tuple "" "member" obj) t = true ↔ t_relation t = "member" ∧ t_object t = obj.
Proof.
  intros (id & -> & Hid)%Group_id_whole. unfold matches, field_matches, is_type_only. cbn [t_user t_relation t_object].
  change ("group:" +:+ id) with ("group" +:+ String ":" id). rewrite cut_app by done.
  rewrite (bool_decide_eq_false_2 ("group" +:+ String ":" id = "")) by done.
  destruct id as [|c id]; [done|]. rewrite bool_decide_eq_true_2 by done. simpl.
  rewrite orb_false_r, andb_true_iff, !bool_decide_eq_true. split; intros [? ?]; auto.
Qed.

Lemma RemoveGroup_cases realm path (s : W) s' r :
  RemoveGroup scope realm path s = (s', r) →
  let g := trim_prefix path "/" in
  (s' = s ∧ ((∃ e, r = Err e) ∨ has_prefix g prefix = false ∨ asserted scope realm g = None))
  ∨ ∃ obj, Group g = Ok obj ∧ allows scope realm g = true
      ∧ match r with
        | Ok _ => ∀ t, t ∈ rs_contents s' ↔ t ∈ rs_contents s ∧ ¬ (t_relation t = "member" ∧ t_object t = obj)
        | Err _ => ∀ t, ¬ (t_relation t = "member" ∧ t_object t = obj) → t ∈ rs_contents s' ↔ t ∈ rs_contents s
        end.
Proof.
  intros Hrun g. unfold RemoveGroup in Hrun. cbv zeta in Hrun. fold g in Hrun.
  destruct (has_prefix g prefix) eqn:Hp; [|injection Hrun as <- <-; left; auto]. simpl in Hrun.
  destruct (asserted scope realm g) as [obj|] eqn:Ha; [|injection Hrun as <- <-; left; auto].
  apply asserted_Some in Ha as [Hg Ha]. unfold act_bind, act_wrap in Hrun.
  destruct (rs_read s (Tuple "" "member" obj)) as [stored|e] eqn:Hread; [|injection Hrun as <- <-; left; eauto].
  apply rs_read_ok in Hread as [_ Hst]. cbn [wrap] in Hrun. right. exists obj. split_and!; [done|done|].
  assert (∀ t, t ∈ stored ↔ t ∈ rs_contents s ∧ t_relation t = "member" ∧ t_object t = obj) as Hst'.
  { intros t. by rewrite Hst, members_read. }
  destruct (bool_decide (stored = [])) eqn:He.
  - injection Hrun as <- <-. apply bool_decide_eq_true in He as ->. intros t.
    specialize (Hst' t). rewrite elem_of_nil in Hst'. tauto.
  - destruct (rs_write s [] stored) as [s1 [u|e]] eqn:Hw; injection Hrun as <- <-.
    + apply rs_write_ok in Hw as ->. intros t.
      rewrite elem_of_union, elem_of_difference, !elem_of_list_to_set, elem_of_nil, Hst'. tauto.
    + intros t Ht. eapply (write_only (λ t, t_relation t = "member" ∧ t_object t = obj)); [done|..|done].
      * by intros x ?%elem_of_nil.
      * intros x Hx%Hst'. tauto.
Qed.
End Projector.

(** ** The directory the store stands for

    Who is in which group, by the names Keycloak has for both: for each realm, what
    it stated of each of its people.  A statement replaces a person's groups, by
    those of the stated ones the realm may assert; a group that is gone is nobody's. *)
Inductive statement :=
  | Memberships (realm sub : string) (groups : list string)
  | GroupGone (realm path : string).

Definition directory : Type := string → string → gset string.

Definition realm_of (st : statement) : string :=
  match st with Memberships realm _ _ => realm | GroupGone realm _ => realm end.

Definition directory_step (s : Scope) (D : directory) (st : statement) : directory := λ r u,
  match st with
  | Memberships realm sub groups =>
      if decide (r = realm ∧ u = sub)
      then list_to_set (filter (λ g, allows s realm g = true) (named groups)) else D r u
  | GroupGone realm path => if decide (r = realm) then D r u ∖ {[trim_prefix path "/"]} else D r u
  end.

(** What the store may disagree on: a statement that failed leaves what it is about
    open, and the next that succeeds settles it. *)
Definition doubt : Type := string → string → string → Prop.
Definition about (st : statement) : doubt := λ r u g,
  match st with
  | Memberships realm sub _ => r = realm ∧ u = sub
  | GroupGone realm path => r = realm ∧ g = trim_prefix path "/"
  end.

Definition doubt_step (X : doubt) (st : statement) (succeeded : bool) : doubt := λ r u g,
  if succeeded then X r u g ∧ ¬ about st r u g else X r u g ∨ about st r u g.

(** The realms that speak: every one but a realm named after the platform's tenant,
    which the platform's realm speaks for. *)
Definition speaks (s : Scope) (realm : string) : Prop :=
  realm = sc_platform_realm s ∨ realm ≠ sc_platform_tenant s.

Section Directory.
Context {W : Type} `{RightsStoreLaws W} (scope : Scope).

Definition agrees (X : doubt) (s : W) (D : directory) : Prop :=
  ∀ realm sub user g obj, speaks scope realm → User sub = Ok user → Group g = Ok obj →
    has_prefix g prefix = true → allows scope realm g = true → ¬ X realm sub g →
    g ∈ D realm sub ↔ Tuple user "member" obj ∈ rs_contents s.

Definition project (st : statement) : act W Change :=
  match st with
  | Memberships realm sub groups => SetUserGroups scope realm sub groups
  | GroupGone realm path => RemoveGroup scope realm path
  end.

(** One statement put to the store and to the directory. *)
Definition deliver (x : W * directory * doubt) (st : statement) : W * directory * doubt :=
  let '(s, D, X) := x in
  match project st s with
  | (s', Ok _) => (s', directory_step scope D st, doubt_step X st true)
  | (s', Err _) => (s', D, doubt_step X st false)
  end.

Lemma speaks_allows r1 r2 g :
  speaks scope r1 → speaks scope r2 → allows scope r1 g = true → allows scope r2 g = true → r1 = r2.
Proof.
  unfold speaks. intros H1 H2 Ha1 Ha2.
  destruct (allows_realms _ _ _ _ Ha1 Ha2) as [?|[[? ?]|[? ?]]]; [done| |]; intuition congruence.
Qed.

(** A person's membership tuple, seen from the realm that makes a statement. *)
Lemma person_of realm sub user g obj realm' sub' user' :
  speaks scope realm → speaks scope realm' → User sub = Ok user → User sub' = Ok user' → Group g = Ok obj →
  allows scope realm g = true →
  person_in (owns scope realm') user' (Tuple user "member" obj) ↔ realm = realm' ∧ sub = sub'.
Proof.
  intros Hs Hs' Hu Hu' Hg Ha. unfold person_in. simpl.
  destruct (owns_Group scope realm' g obj Hg) as [-> ->]. split.
  - intros (-> & _ & Ha' & _). split; [by eapply speaks_allows|by eapply User_inj].
  - intros [-> ->]. split_and!; [congruence|done..].
Qed.

Lemma deliver_memberships X (s : W) D realm sub groups :
  speaks scope realm → agrees X s D →
  let '(s', D', X') := deliver (s, D, X) (Memberships realm sub groups) in agrees X' s' D'.
Proof.
  intros Hsp Hag. simpl.
  destruct (SetUserGroups scope realm sub groups s) as [s' [ch|e]] eqn:Hrun;
    intros r u user g obj Hr Hu Hg Hp Ha HX; unfold doubt_step in HX; simpl in HX.
  - apply SetUserGroups_Ok in Hrun as (user' & Hu' & Hs'). rewrite Hs'. unfold directory_step.
    destruct (decide (person_in _ user' _)) as [Hpe|Hpe]; rewrite (person_of r u user g obj realm sub user') in Hpe by done.
    + destruct Hpe as [-> ->]. rewrite decide_True by done. simpl.
      rewrite elem_of_list_to_set, list_elem_of_filter, elem_of_wanted. split.
      * intros [? ?]. by exists g.
      * intros (g' & Hin & Hg' & _). pose proof (Group_inj _ _ _ Hg Hg') as ->. done.
    + rewrite decide_False by done. apply (Hag r u user g obj); try done. tauto.
  - rewrite (Hag r u user g obj) by (try done; tauto). symmetry.
    eapply SetUserGroups_only; [done|]. intros user' Hu'. rewrite (person_of r u user g obj realm sub user') by done. tauto.
Qed.

Lemma deliver_gone X (s : W) D realm path :
  speaks scope realm → agrees X s D →
  let '(s', D', X') := deliver (s, D, X) (GroupGone realm path) in agrees X' s' D'.
Proof.
  intros Hsp Hag. simpl.
  destruct (RemoveGroup scope realm path s) as [s' res] eqn:Hrun. apply RemoveGroup_cases in Hrun.
  set (gone := trim_prefix path "/") in *.
  destruct res as [ch|e]; intros r u user g obj Hr Hu Hg Hp Ha HX; unfold doubt_step in HX; simpl in HX.
  - unfold directory_step. fold gone in HX |- *.
    destruct Hrun as [(-> & [[? ?]|Hno])|(o & Ho & Hao & Hs')]; [done| |].
    + assert (r = realm → g ≠ gone) as Hne.
      { intros -> ->. destruct Hno as [?|Hno]; [congruence|]. unfold asserted in Hno. rewrite Hg, Ha in Hno. done. }
      assert (¬ X r u g) as HnX by (intros HX'; apply HX; split; [done|]; intros [-> Heq]; by apply Hne).
      rewrite <-(Hag r u user g obj) by done.
      destruct (decide (r = realm)) as [->|]; [|done]. rewrite elem_of_difference, elem_of_singleton.
      specialize (Hne eq_refl). tauto.
    + rewrite Hs'. simpl. destruct (decide (r = realm)) as [->|Hne].
      * rewrite elem_of_difference, elem_of_singleton. destruct (decide (g = gone)) as [->|Hne].
        { assert (o = obj) as -> by congruence. split; [by intros [_ ?]|]. intros [_ Hn]. by destruct Hn. }
        rewrite (Hag realm u user g obj) by (try done; tauto).
        assert (o ≠ obj) by (intros ->; apply Hne; by eapply Group_inj). intuition congruence.
      * rewrite (Hag r u user g obj) by (try done; tauto).
        assert (o ≠ obj); [|intuition congruence]. intros ->. apply Hne.
        assert (g = gone) as -> by (by eapply Group_inj). by eapply speaks_allows.
  - rewrite (Hag r u user g obj) by (try done; tauto). fold gone in HX.
    destruct Hrun as [(-> & _)|(o & Ho & Hao & Hs')]; [done|]. symmetry. apply Hs'. simpl. intros [_ <-].
    assert (g = gone) as -> by (by eapply Group_inj). apply HX. right. split; [|done]. by eapply speaks_allows.
Qed.

Lemma deliver_agrees sts X (s : W) D :
  Forall (λ st, speaks scope (realm_of st)) sts → agrees X s D →
  let '(s', D', X') := foldl deliver (s, D, X) sts in agrees X' s' D'.
Proof.
  intros Hsp. revert X s D. induction Hsp as [|st sts Hst Hsts IH]; intros X s D Hag; [done|].
  cbn [foldl].
  assert (let '(s', D', X') := deliver (s, D, X) st in agrees X' s' D') as Hone.
  { destruct st; [by apply deliver_memberships|by apply deliver_gone]. }
  destruct (deliver (s, D, X) st) as [[s1 D1] X1]. by apply IH.
Qed.

(** A tuple of a group the realm may not assert is as it was. *)
Lemma project_unowned st (s : W) s' r t : project st s = (s', r) → owns scope (realm_of st) (t_object t) = false →
  t ∈ rs_contents s' ↔ t ∈ rs_contents s.
Proof.
  intros Hrun Ho. destruct st as [realm sub groups|realm path]; simpl in *.
  - eapply SetUserGroups_only; [done|]. intros user _ (_ & _ & Hown & _). congruence.
  - apply RemoveGroup_cases in Hrun as [(-> & _)|(obj & Hg & Ha & Hs')]; [done|].
    assert (t_object t ≠ obj). { intros E. rewrite E, (proj1 (owns_Group _ _ _ _ Hg)) in Ho. congruence. }
    destruct r; [rewrite Hs'; tauto|apply Hs'; tauto].
Qed.
End Directory.

(** ** Properties *)

(** C7: The projector implements a directory.  Whatever statements are put to it,
    in whatever order, and whichever of them the store cuts off half-way, the store
    holds a membership exactly where the directory the successful statements make
    has it, for every person and group but those whose last statement failed; and
    the next statement about them that succeeds settles those too. *)
Theorem projector_refines_directory {W} `{RightsStoreLaws W} (scope : Scope) (sts : list statement)
    (X : doubt) (s : W) (D : directory) :
  Forall (λ st, speaks scope (realm_of st)) sts → agrees scope X s D →
  let '(s', D', X') := foldl (deliver scope) (s, D, X) sts in agrees scope X' s' D'.
Proof. apply deliver_agrees. Qed.

(** A realm speaks for its own groups only.  However a statement ends, it
    changes no tuple but memberships of groups its realm may assert, of the person
    the statement is about if it is about one; and no other realm that speaks may
    assert those groups. *)
Theorem realm_speaks_for_its_own {W} `{RightsStoreLaws W} (scope : Scope) (st : statement) (s s' : W)
    (r : result Change) (t : tuple) :
  project scope st s = (s', r) → speaks scope (realm_of st) →
  (t ∈ rs_contents s' ↔ t ∈ rs_contents s)
  ∨ (t_relation t = "member" ∧ owns scope (realm_of st) (t_object t) = true
     ∧ (∀ realm sub groups, st = Memberships realm sub groups → User sub = Ok (t_user t))
     ∧ ∀ realm, speaks scope realm → owns scope realm (t_object t) = true → realm = realm_of st).
Proof.
  intros Hrun Hsp.
  assert (∀ realm, owns scope (realm_of st) (t_object t) = true → speaks scope realm →
            owns scope realm (t_object t) = true → realm = realm_of st) as Hone.
  { intros realm Ho Hr Hor. by eapply speaks_allows. }
  destruct st as [realm sub groups|realm path]; simpl in *.
  - destruct (User sub) as [user|e] eqn:Hu; [|left; eapply SetUserGroups_only; [done|congruence]].
    destruct (decide (person_in (owns scope realm) user t)) as [(Htu & ? & ? & _)|Hno].
    + right. split_and!; [done|done| |by auto]. intros ??? [= <- <- <-]. congruence.
    + left. eapply SetUserGroups_only; [done|]. intros user' Hu'. congruence.
  - apply RemoveGroup_cases in Hrun as [(-> & _)|(obj & Hg & Ha & Hs')]; [by left|].
    destruct (decide (t_relation t = "member" ∧ t_object t = obj)) as [[Hm Hobj]|Hno].
    + right. assert (owns scope realm (t_object t) = true) as Ho.
      { rewrite Hobj. by destruct (owns_Group scope realm _ _ Hg) as [-> _]. }
      split_and!; [done|done|done|by auto].
    + left. destruct r; [rewrite Hs'; tauto|by apply Hs'].
Qed.

Module MembershipExample.
Definition scope : Scope := mkScope "kernel" "platform".
Definition statements : list statement :=
  [Memberships "acme" "ana" ["/gentian:tenant:acme:admins"; "gentian:tenant:other:admins"; "staff"];
   Memberships "kernel" "ana" ["gentian:platform:admins"];
   Memberships "acme" "bo" ["gentian:tenant:acme:admins"];
   GroupGone "acme" "/gentian:tenant:acme:admins"].
(** The store takes three requests and refuses the fourth. *)
Definition start : mem_server := MemServer {[Tuple "user:ana" "member" "group:gentian/tenant/other/admins"]} 3.
Definition nothing : doubt := λ r u g, r = "other" ∧ u = "ana".
Definition after := foldl (deliver scope) (start, λ _ _, ∅, nothing) statements.

Lemma start_agrees : agrees scope nothing start (λ _ _, ∅).
Proof.
  intros realm sub user g obj _ Hu Hg _ Ha HX.
  split; [by intros ?%elem_of_empty|]. simpl. intros [= Hu' Hg']%elem_of_singleton. exfalso. apply HX.
  subst user obj.
  assert (g = "gentian:tenant:other:admins") as -> by (eapply Group_inj; [exact Hg|reflexivity]).
  assert (sub = "ana") as -> by (eapply User_inj; [exact Hu|reflexivity]).
  change (allows scope realm "gentian:tenant:other:admins") with
    (if bool_decide (realm = "kernel") then bool_decide ("other" = "platform") else bool_decide ("other" = realm)) in Ha.
  destruct (bool_decide (realm = "kernel")); apply bool_decide_eq_true in Ha; [done|]. by subst realm.
Qed.
End MembershipExample.

Lemma projector_refines_directory_witness :
  (Tuple "user:bo" "member" "group:gentian/tenant/acme/admins" ∈ rs_contents MembershipExample.after.1.1)
  ∧ let '(s', D', X') := MembershipExample.after in agrees MembershipExample.scope X' s' D'.
Proof.
  split; [apply (bool_decide_unpack _); vm_compute; exact I|].
  apply (projector_refines_directory MembershipExample.scope MembershipExample.statements
    MembershipExample.nothing MembershipExample.start (λ _ _, ∅)).
  - repeat (apply Forall_cons; split; [first [left; reflexivity|right; discriminate]|]). apply Forall_nil_2.
  - exact MembershipExample.start_agrees.
Defined.

Lemma realm_speaks_for_its_own_witness :
  let st := Memberships "acme" "ana" ["gentian:tenant:acme:admins"] in
  let t := Tuple "user:ana" "member" "group:gentian/tenant/acme/admins" in
  let s := MembershipExample.start in
  let s' := (project MembershipExample.scope st s).1 in
  (t ∈ rs_contents s' ↔ t ∈ rs_contents s)
  ∨ (t_relation t = "member" ∧ owns MembershipExample.scope "acme" (t_object t) = true
     ∧ (∀ realm sub groups, st = Memberships realm sub groups → User sub = Ok (t_user t))
     ∧ ∀ realm, speaks MembershipExample.scope realm → owns MembershipExample.scope realm (t_object t) = true → realm = "acme").
Proof.
  intros st t s s'. apply (realm_speaks_for_its_own MembershipExample.scope st s s' (project MembershipExample.scope st s).2 t).
  - apply surjective_pairing.
  - right. vm_compute. discriminate.
Defined.
