(* ===== verification/MembershipEvents.v ===== *)
(** * Membership events from Keycloak ([internal/membership/events.go])

    The endpoint the listener inside Keycloak states memberships to: the signature
    over a statement, the ids it was delivered under before, the time of the newest
    statement about a person, and what is done with a statement that is new.  A
    request is modelled in the two parts between which others can run: [receive],
    up to the decision to apply it, and [settle], which applies it.

    [captured_event_applies_once]: a recorded request cannot be played back.
    [newest_statement_wins]: requests handled one after the other leave the groups
    of the newest statement, in whatever order they arrive.
    [concurrent_statement_goes_back] and [acknowledged_statement_is_lost]: what two
    requests handled at once can do. *)

From S2P Require Import Prelude.
From S2P Require Import GoStrings.
From S2P Require Import GoTime.
From S2P Require Import Ids.
From S2P Require Import Fga.
From S2P Require Import Membership.

#[local] Open Scope Z_scope.

(** ** Standard library *)

(** [base64.StdEncoding.DecodeString]: line ends are skipped, and the last group
    of four may end in padding. *)
Definition base64_value (c : ascii) : option nat :=
  let n := nat_of_ascii c in
  if ((65 <=? n) && (n <=? 90))%nat then Some (n - 65)%nat
  else if ((97 <=? n) && (n <=? 122))%nat then Some (n - 71)%nat
  else if ((48 <=? n) && (n <=? 57))%nat then Some (n + 4)%nat
  else if (n =? 43)%nat then Some 62%nat
  else if (n =? 47)%nat then Some 63%nat
  else None.

Definition base64_bytes (a b c d : nat) : list ascii :=
  ascii_of_nat <$> [(a * 4 + b / 16)%nat; (b mod 16 * 16 + c / 4)%nat; (c mod 4 * 64 + d)%nat].

Fixpoint base64_groups (l : list ascii) : option (list ascii) :=
  match l with
  | [] => Some []
  | [a; b; "="; "="]%char =>
      a ← base64_value a; b ← base64_value b; Some (take 1 (base64_bytes a b 0 0))
  | [a; b; c; "="]%char =>
      a ← base64_value a; b ← base64_value b; c ← base64_value c; Some (take 2 (base64_bytes a b c 0))
  | a :: b :: c :: d :: rest =>
      a ← base64_value a; b ← base64_value b; c ← base64_value c; d ← base64_value d;
      rest ← base64_groups rest; Some (base64_bytes a b c d ++ rest)
  | _ => None
  end.

Definition base64_decode (s : string) : option string :=
  String.string_of_list_ascii <$>
    base64_groups (filter (λ c, c ≠ "010"%char ∧ c ≠ "013"%char) (String.list_ascii_of_string s)).

(** ** Events *)

Record Event := mkEvent {
  ev_id : string; ev_time : Z; ev_realm : string; ev_type : string; ev_user : string;
  ev_groups : list string; ev_group : string }.

Definition TypeUserMemberships : string := "user.memberships".
Definition TypeUserDeleted : string := "user.deleted".
Definition TypeGroupDeleted : string := "group.deleted".

(** Five minutes, in nanoseconds. *)
Definition window : Z := 5 * 60 * 10 ^ 9.
Definition maxEventBytes : Z := 256 * 1024.

(** [^[A-Za-z0-9._-]{8,80}$] and [^[A-Za-z0-9][A-Za-z0-9_-]{0,62}$]. *)
Definition eventID (s : string) : bool :=
  str_forallb (λ c, is_alnum c || char_in c "._-") s
  && bool_decide (8 ≤ String.length s)%nat && bool_decide (String.length s ≤ 80)%nat.
Definition realmName (s : string) : bool :=
  match s with
  | "" => false
  | String c rest => is_alnum c && str_forallb (λ c, is_alnum c || char_in c "_-") rest
                     && bool_decide (String.length rest ≤ 62)%nat
  end.

(** The signature scheme, and the JSON of an event. *)
Class Listener := {
  ed25519_verify : string → string → string → bool;
  event_of_json : string → option Event }.

Record Receiver := mkReceiver {
  rc_keys : gmap string string; rc_seen : gmap string Z; rc_last : gmap string Z }.

Definition NewReceiver (keys : gmap string string) (proj : bool) : result Receiver :=
  if bool_decide (keys = ∅) || negb proj
  then Err (Sentinel "membership: at least one listener key and a projector are required")
  else Ok (mkReceiver keys ∅ ∅).

Definition key_item (keys : gmap string string) (part : string) : result (gmap string string) :=
  let item := trim_space part in
  if bool_decide (item = "") then Ok keys
  else
    let malformed := Err (Errorf "membership: listener key %q is not id=key" [item]) in
    match cut item "=" with
    | None => malformed
    | Some (id, enc) =>
        if bool_decide (id = "") then malformed
        else match base64_decode enc with
        | Some raw =>
            if bool_decide (String.length raw = 32%nat) then Ok (<[id := raw]> keys)
            else Err (Errorf "membership: listener key %q is not a base64 Ed25519 public key" [id])
        | None => Err (Errorf "membership: listener key %q is not a base64 Ed25519 public key" [id])
        end
    end.

Definition ParseKeys (s : string) : result (gmap string string) := fold_result key_item ∅ (split s ",").

(** ** Is it the listener, and is it new *)

Definition header_fields (header : string) : gmap string string :=
  foldl (λ fields part, match cut (trim_space part) "=" with Some (k, v) => <[k := v]> fields | None => fields end)
    ∅ (split header ",").

Definition field_of (fields : gmap string string) (k : string) : string := default "" (fields !! k).

Definition verify `{Listener} (rc : Receiver) (now : Z) (header body : string) : result unit :=
  let fields := header_fields header in
  match rc_keys rc !! field_of fields "keyid" with
  | None => Err (Sentinel "unknown key id")
  | Some key =>
      match parse_int64 (field_of fields "t") with
      | None => Err (Sentinel "no timestamp")
      | Some ts =>
          let d := now - ts * 10 ^ 9 in
          if bool_decide (d > window) || bool_decide (d < - window)
          then Err (Sentinel "timestamp outside the window")
          else match base64_decode (field_of fields "sig") with
          | None => Err (Sentinel "signature is not base64")
          | Some sig =>
              if ed25519_verify key (field_of fields "t" +:+ "." +:+ body) sig then Ok tt
              else Err (Sentinel "signature does not verify")
          end
      end
  end.

Definition first (rc : Receiver) (now : Z) (id : string) : Receiver * bool :=
  let seen := filter (λ ku, now ≤ ku.2) (rc_seen rc) in
  match seen !! id with
  | Some _ => (mkReceiver (rc_keys rc) seen (rc_last rc), false)
  | None => (mkReceiver (rc_keys rc) (<[id := now + 2 * window]> seen) (rc_last rc), true)
  end.

Definition newest (rc : Receiver) (now : Z) (key : string) (t : Z) : Receiver * bool :=
  if bool_decide (t < default 0 (rc_last rc !! key)) then (rc, false)
  else
    let floor := (now - 2 * window) / 10 ^ 6 in
    let last := if bool_decide (4096 < Z.of_nat (size (rc_last rc)))
                then filter (λ kv, floor ≤ kv.2) (rc_last rc) else rc_last rc in
    (mkReceiver (rc_keys rc) (rc_seen rc) (<[key := t]> last), true).

Definition forget (rc : Receiver) (id key : string) : Receiver :=
  mkReceiver (rc_keys rc) (delete id (rc_seen rc)) (delete key (rc_last rc)).

(** ** A request *)

Inductive response := TooLarge | Unauthenticated | Malformed | NoContent | NotApplied.
#[global] Instance response_eq_dec : EqDecision response.
Proof. solve_decision. Defined.

(** A request with the clock at each look at it; the body is [None] when it
    could not be read. *)
Record delivery := mkDelivery {
  dl_verify : Z; dl_first : Z; dl_newest : Z; dl_header : string; dl_body : option string }.

Definition person (ev : Event) : string := ev_realm ev +:+ "/" +:+ ev_user ev.

Definition receive `{Listener} (rc : Receiver) (d : delivery) : Receiver * (response + Event) :=
  match dl_body d with
  | None => (rc, inl TooLarge)
  | Some body =>
      if bool_decide (maxEventBytes < Z.of_nat (String.length body)) then (rc, inl TooLarge)
      else match verify rc (dl_verify d) (dl_header d) body with
      | Err _ => (rc, inl Unauthenticated)
      | Ok _ =>
          match event_of_json body with
          | None => (rc, inl Malformed)
          | Some ev =>
              if negb (eventID (ev_id ev)) || negb (realmName (ev_realm ev)) then (rc, inl Malformed)
              else
                let '(rc, new) := first rc (dl_first d) (ev_id ev) in
                if negb new then (rc, inl NoContent)
                else if bool_decide (ev_type ev = TypeUserMemberships) || bool_decide (ev_type ev = TypeUserDeleted) then
                  if bool_decide (ev_user ev = "") then (rc, inl Malformed)
                  else
                    let '(rc, fresh) := newest rc (dl_newest d) (person ev) (ev_time ev) in
                    if fresh then (rc, inr ev) else (rc, inl NoContent)
                else if bool_decide (ev_type ev = TypeGroupDeleted) then (rc, inr ev)
                else (rc, inl NoContent)
          end
      end
  end.

(** What an event states. *)
Definition statement_of (ev : Event) : statement :=
  if bool_decide (ev_type ev = TypeGroupDeleted) then GroupGone (ev_realm ev) (ev_group ev)
  else Memberships (ev_realm ev) (ev_user ev)
         (if bool_decide (ev_type ev = TypeUserDeleted) then [] else ev_groups ev).

(** What carries statements on to the stores of the apps that mirror groups. *)
Class Mirror (M : Type) := mirror_statement : M → statement → M * result unit.

Section Receiver.
Context `{Listener} {W M : Type} `{RightsStore W} `{Mirror M} (scope : Scope).

(** The rights store, and the mirror where there is one. *)
Definition apply_event (ev : Event) (x : W * option M) : W * option M * result unit :=
  match project scope (statement_of ev) x.1 with
  | (s', Err e) => (s', x.2, Err e)
  | (s', Ok _) =>
      match x.2 with
      | None => (s', None, Ok tt)
      | Some m => let '(m', r) := mirror_statement m (statement_of ev) in (s', Some m', r)
      end
  end.

Definition settle (rc : Receiver) (ev : Event) (x : W * option M) : Receiver * (W * option M) * response :=
  match apply_event ev x with
  | (x', Err _) => (forget rc (ev_id ev) (person ev), x', NotApplied)
  | (x', Ok _) => (rc, x', NoContent)
  end.

Definition ServeHTTP (y : Receiver * (W * option M)) (d : delivery) : Receiver * (W * option M) * response :=
  match receive y.1 d with
  | (rc, inl r) => (rc, y.2, r)
  | (rc, inr ev) => settle rc ev y.2
  end.
End Receiver.

Example base64_example : base64_decode "Z2VudGlhbi1vcw==" = Some "gentian-os".
Proof. vm_compute. reflexivity. Qed.

(** ** Lemmas *)

Lemma verify_Ok `{Listener} rc now header body :
  verify rc now header body = Ok tt ↔
  ∃ key ts sig, rc_keys rc !! field_of (header_fields header) "keyid" = Some key
    ∧ parse_int64 (field_of (header_fields header) "t") = Some ts
    ∧ - window ≤ now - ts * 10 ^ 9 ≤ window
    ∧ base64_decode (field_of (header_fields header) "sig") = Some sig
    ∧ ed25519_verify key (field_of (header_fields header) "t" +:+ "." +:+ body) sig = true.
Proof.
  unfold verify. destruct (rc_keys rc !! _) as [key|]; [|naive_solver].
  destruct (parse_int64 _) as [ts|]; [|naive_solver].
  destruct (bool_decide (now - ts * 10 ^ 9 > window)) eqn:H1; [apply bool_decide_eq_true in H1|apply bool_decide_eq_false in H1].
  { split; [done|]. intros (? & ? & ? & _ & [= <-] & ? & _). lia. }
  destruct (bool_decide (now - ts * 10 ^ 9 < - window)) eqn:H2; [apply bool_decide_eq_true in H2|apply bool_decide_eq_false in H2].
  { split; [done|]. intros (? & ? & ? & _ & [= <-] & ? & _). lia. }
  simpl. destruct (base64_decode _) as [sig|]; [|split; [done|]; by intros (? & ? & ? & _ & _ & _ & ? & _)].
  destruct (ed25519_verify _ _ _) eqn:Hv.
  - split; [|done]. intros _. exists key, ts, sig. split_and!; [done|done|lia|lia|done|done].
  - split; [done|]. intros (? & ? & ? & [= <-] & _ & _ & [= <-] & ?). congruence.
Qed.

(** A user event that passed every look but the one at its time. *)
Definition of_a_person (ev : Event) : bool :=
  bool_decide (ev_type ev = TypeUserMemberships) || bool_decide (ev_type ev = TypeUserDeleted).

Lemma first_cases rc now id :
  let seen := filter (λ ku : string * Z, now ≤ ku.2) (rc_seen rc) in
  (∃ until, rc_seen rc !! id = Some until ∧ now ≤ until ∧ first rc now id = (mkReceiver (rc_keys rc) seen (rc_last rc), false))
  ∨ (seen !! id = None
     ∧ first rc now id = (mkReceiver (rc_keys rc) (<[id := now + 2 * window]> seen) (rc_last rc), true)).
Proof.
  intros seen. unfold first. fold seen. destruct (seen !! id) as [until|] eqn:Hs; [|by right].
  left. apply map_lookup_filter_Some in Hs as [Hs Hle]. eauto.
Qed.

(** The ways out of [receive]: the receiver may forget ids that ran out, and
    records the id of a request that got past them. *)
Lemma receive_cases `{Listener} rc d rc' out :
  receive rc d = (rc', out) →
  (rc' = rc ∧ ∃ r, out = inl r)
  ∨ ∃ body ev, dl_body d = Some body ∧ verify rc (dl_verify d) (dl_header d) body = Ok tt
      ∧ event_of_json body = Some ev ∧ realmName (ev_realm ev) = true
      ∧ let seen := filter (λ ku : string * Z, dl_first d ≤ ku.2) (rc_seen rc) in
        rc_keys rc' = rc_keys rc ∧
        ((is_Some (seen !! ev_id ev) ∧ rc_seen rc' = seen ∧ rc_last rc' = rc_last rc ∧ out = inl NoContent)
         ∨ (seen !! ev_id ev = None ∧ rc_seen rc' = <[ev_id ev := dl_first d + 2 * window]> seen
            ∧ ((out = inl Malformed ∧ of_a_person ev = true ∧ ev_user ev = "" ∧ rc_last rc' = rc_last rc)
               ∨ (of_a_person ev = true ∧ ev_user ev ≠ ""
                  ∧ ((ev_time ev < default 0 (rc_last rc !! person ev) ∧ out = inl NoContent ∧ rc_last rc' = rc_last rc)
                     ∨ (default 0 (rc_last rc !! person ev) ≤ ev_time ev ∧ out = inr ev
                        ∧ (Z.of_nat (size (rc_last rc)) ≤ 4096 → rc_last rc' = <[person ev := ev_time ev]> (rc_last rc))
                        ∧ rc_last rc' !! person ev = Some (ev_time ev))))
               ∨ (of_a_person ev = false ∧ rc_last rc' = rc_last rc
                  ∧ (ev_type ev = TypeGroupDeleted ∧ out = inr ev ∨ ev_type ev ≠ TypeGroupDeleted ∧ out = inl NoContent))))).
Proof.
  unfold receive. destruct (dl_body d) as [body|]; [|intros [= <- <-]; left; eauto].
  destruct (bool_decide (maxEventBytes < _)); [intros [= <- <-]; left; eauto|].
  destruct (verify rc (dl_verify d) (dl_header d) body) as [[]|] eqn:Hv; [|intros [= <- <-]; left; eauto].
  destruct (event_of_json body) as [ev|] eqn:Hj; [|intros [= <- <-]; left; eauto].
  destruct (negb (eventID (ev_id ev)) || negb (realmName (ev_realm ev))) eqn:Hw; [intros [= <- <-]; left; eauto|].
  apply orb_false_iff in Hw as [_ Hr%negb_false_iff].
  intros Hrun. right. exists body, ev. do 4 (split; [done|]). revert Hrun.
  destruct (first_cases rc (dl_first d) (ev_id ev)) as [(until & Hs & Hle & ->)|[Hs ->]]; simpl.
  { intros [= <- <-]. split; [done|]. left. split_and!; [|done..]. exists until. by apply map_lookup_filter_Some. }
  destruct (bool_decide (ev_type ev = TypeUserMemberships) || bool_decide (ev_type ev = TypeUserDeleted)) eqn:Ht;
    fold (of_a_person ev) in Ht.
  - destruct (bool_decide (ev_user ev = "")) eqn:Hu.
    { apply bool_decide_eq_true in Hu. intros [= <- <-]. split; [done|]. right. auto 10. }
    apply bool_decide_eq_false in Hu. unfold newest. simpl.
    destruct (bool_decide (ev_time ev < _)) eqn:Hn; [apply bool_decide_eq_true in Hn|apply bool_decide_eq_false in Hn];
      intros [= <- <-]; (split; [done|]); right; (split_and!; [done|done|]); right; left; split_and!; try done.
    + left. done.
    + right. split_and!; [lia|done| |by apply lookup_insert_eq].
      intros Hsz. simpl. by rewrite bool_decide_eq_false_2 by lia.
  - destruct (bool_decide (ev_type ev = TypeGroupDeleted)) eqn:Hg;
      [apply bool_decide_eq_true in Hg|apply bool_decide_eq_false in Hg];
      intros [= <- <-]; (split; [done|]); right; (split_and!; [done|done|]); right; right; auto.
Qed.

(** An id stays recorded until it runs out, and is not let past meanwhile. *)
Lemma receive_seen `{Listener} rc d rc' out id until :
  receive rc d = (rc', out) → rc_seen rc !! id = Some until → dl_first d ≤ until →
  rc_seen rc' !! id = Some until ∧ ∀ ev, out = inr ev → ev_id ev ≠ id.
Proof.
  intros Hrun Hs Hle. set (seen := filter (λ ku : string * Z, dl_first d ≤ ku.2) (rc_seen rc)).
  assert (seen !! id = Some until) as Hs' by (by apply map_lookup_filter_Some).
  apply receive_cases in Hrun as [(-> & r & ->)|(body & ev & _ & _ & _ & _ & _ & Hc)]; [done|]. fold seen in Hc.
  destruct Hc as [(_ & -> & _ & ->)|(Hn & -> & Hc)]; [done|].
  assert (ev_id ev ≠ id) as Hne by congruence. rewrite lookup_insert_ne by done. split; [done|].
  intros ev' ->. destruct Hc as [(? & _)|[(_ & _ & [(_ & ? & _)|(_ & [= ->] & _)])|(_ & _ & [[_ [= ->]]|[_ ?]])]]; done.
Qed.

Lemma receive_accepted `{Listener} rc d rc' ev :
  receive rc d = (rc', inr ev) →
  ∃ body, dl_body d = Some body ∧ verify rc (dl_verify d) (dl_header d) body = Ok tt ∧ event_of_json body = Some ev
    ∧ realmName (ev_realm ev) = true ∧ rc_keys rc' = rc_keys rc ∧ rc_seen rc' !! ev_id ev = Some (dl_first d + 2 * window)
    ∧ (of_a_person ev = true ∧ ev_user ev ≠ "" ∧ rc_last rc' !! person ev = Some (ev_time ev)
       ∨ ev_type ev = TypeGroupDeleted).
Proof.
  intros Hrun. apply receive_cases in Hrun as [(_ & r & ?)|(body & ev' & Hb & Hv & Hj & Hr & Hk & Hc)]; [done|].
  destruct Hc as [(_ & _ & _ & ?)|(Hn & Hs & Hc)]; [done|].
  assert (ev' = ev) as -> by (destruct Hc as [(? & _)|[(_ & _ & [(_ & ? & _)|(_ & [= ->] & _)])|(_ & _ & [[_ [= ->]]|[_ ?]])]]; done).
  exists body. split_and!; [done..|rewrite Hs; apply lookup_insert_eq|].
  destruct Hc as [(? & _)|[(Hp & Hu & [(_ & ? & _)|(_ & _ & _ & ?)])|(_ & _ & [[? _]|[_ ?]])]]; try done; auto.
Qed.

(** A body whose event's id is recorded is answered without being applied. *)
Lemma receive_known `{Listener} rc d rc' out body ev until :
  receive rc d = (rc', out) → dl_body d = Some body → event_of_json body = Some ev →
  rc_seen rc !! ev_id ev = Some until → dl_first d ≤ until →
  ∃ r, out = inl r ∧ (verify rc (dl_verify d) (dl_header d) body = Ok tt →
    bool_decide (maxEventBytes < Z.of_nat (String.length body)) = false →
    eventID (ev_id ev) = true → realmName (ev_realm ev) = true → r = NoContent).
Proof.
  intros Hrun Hb Hj Hs Hle. unfold receive in Hrun. rewrite Hb, Hj in Hrun.
  destruct (bool_decide (maxEventBytes < _)); [injection Hrun as <- <-; eauto; by exists TooLarge|].
  destruct (verify _ _ _ _) as [[]|]; [|injection Hrun as <- <-; by exists Unauthenticated].
  destruct (negb (eventID (ev_id ev)) || negb (realmName (ev_realm ev))) eqn:Hw.
  { injection Hrun as <- <-. exists Malformed. split; [done|]. intros _ _ Hi Hr. by rewrite Hi, Hr in Hw. }
  destruct (first_cases rc (dl_first d) (ev_id ev)) as [(u & Hu & _ & Hf)|[Hf _]].
  - rewrite Hf in Hrun. simpl in Hrun. injection Hrun as <- <-. by exists NoContent.
  - apply map_lookup_filter_None in Hf as [?|Hf]; [congruence|]. by destruct (Hf until Hs).
Qed.

Section Handling.
Context `{Listener} {W M : Type} `{RightsStoreLaws W} `{Mirror M} (scope : Scope).

Lemma settle_cases rc ev (x : W * option M) rc' x' r :
  settle scope rc ev x = (rc', x', r) →
  (∃ ch, project scope (statement_of ev) x.1 = (x'.1, Ok ch) ∧ rc' = rc ∧ r = NoContent)
  ∨ (rc' = forget rc (ev_id ev) (person ev) ∧ r = NotApplied).
Proof.
  unfold settle, apply_event. destruct (project scope (statement_of ev) x.1) as [s' [ch|e]].
  - destruct x.2 as [m|]; [destruct (mirror_statement m _) as [m' [[]|e]]|]; intros [= <- <- <-]; simpl; eauto.
  - intros [= <- <- <-]. auto.
Qed.

Lemma ServeHTTP_seen (y : Receiver * (W * option M)) d id until :
  rc_seen y.1 !! id = Some until → dl_first d ≤ until →
  rc_seen (ServeHTTP scope y d).1.1 !! id = Some until.
Proof.
  intros Hs Hle. unfold ServeHTTP. destruct (receive y.1 d) as [rc [r|ev]] eqn:Hrun;
    destruct (receive_seen _ _ _ _ _ _ Hrun Hs Hle) as [Hs' Hne]; [done|].
  destruct (settle scope rc ev y.2) as [[rc' x'] r] eqn:Hset.
  apply settle_cases in Hset as [(_ & _ & -> & _)|[-> _]]; simpl; [done|].
  rewrite lookup_delete_ne; [done|]. by apply Hne.
Qed.

Definition handle_all (y : Receiver * (W * option M)) (ds : list delivery) : Receiver * (W * option M) :=
  foldl (λ y d, (ServeHTTP scope y d).1) y ds.

Lemma handle_all_seen ds y id until :
  rc_seen y.1 !! id = Some until → Forall (λ d, dl_first d ≤ until) ds →
  rc_seen (handle_all y ds).1 !! id = Some until.
Proof.
  revert y. induction ds as [|d ds IH]; intros y Hs Hds; [done|].
  apply Forall_cons in Hds as [Hd Hds]. simpl. apply IH; [|done]. by apply ServeHTTP_seen.
Qed.

Lemma ServeHTTP_keys (y : Receiver * (W * option M)) d : rc_keys (ServeHTTP scope y d).1.1 = rc_keys y.1.
Proof.
  unfold ServeHTTP. destruct (receive y.1 d) as [rc out] eqn:Hrun.
  assert (rc_keys rc = rc_keys y.1) as Hk.
  { apply receive_cases in Hrun as [(-> & _)|(body & ev & _ & _ & _ & _ & Hk & _)]; done. }
  destruct out as [r|ev]; [done|]. destruct (settle scope rc ev y.2) as [[rc' x'] r] eqn:Hset.
  by apply settle_cases in Hset as [(_ & _ & -> & _)|[-> _]].
Qed.
End Handling.

(** ** Newest first

    The user events that reach the look at their time, along a sequence of
    requests handled one after the other. *)
Definition offered `{Listener} (rc : Receiver) (d : delivery) : option Event :=
  body ← dl_body d;
  if bool_decide (maxEventBytes < Z.of_nat (String.length body)) then None
  else if negb (is_ok (verify rc (dl_verify d) (dl_header d) body)) then None
  else
    ev ← event_of_json body;
    if negb (eventID (ev_id ev)) || negb (realmName (ev_realm ev)) || negb (first rc (dl_first d) (ev_id ev)).2
       || negb (of_a_person ev) || bool_decide (ev_user ev = "")
    then None else Some ev.

Definition groups_of (ev : Event) : list string :=
  if bool_decide (ev_type ev = TypeUserDeleted) then [] else ev_groups ev.

(** The oldest time a statement may have that is not to be outdated by the pruning, and
    what is left of the times when a request has them pruned. *)
Definition floor_of (d : delivery) : Z := (dl_newest d - 2 * window) / 10 ^ 6.
Definition unpruned (last : gmap string Z) (d : delivery) : gmap string Z :=
  if bool_decide (4096 < Z.of_nat (size last)) then filter (λ kv, floor_of d ≤ kv.2) last else last.

Lemma unpruned_lookup last d p : unpruned last d !! p = last !! p
  ∨ 4096 < Z.of_nat (size last) ∧ unpruned last d !! p = None ∧ ∃ t, last !! p = Some t ∧ t < floor_of d.
Proof.
  unfold unpruned. case_bool_decide as Hs; [|by left]. destruct (last !! p) as [t|] eqn:Hl.
  - destruct (decide (floor_of d ≤ t)) as [Ht|Ht]; [left; by apply map_lookup_filter_Some|right].
    split_and!; [done| |exists t; split; [done|lia]]. apply map_lookup_filter_None. right. intros t' Ht'. rewrite Hl in Ht'. by injection Ht' as <-.
  - left. apply map_lookup_filter_None. by left.
Qed.
Lemma unpruned_size last d : (size (unpruned last d) ≤ size last)%nat.
Proof.
  unfold unpruned. case_bool_decide; [|done]. rewrite <-!size_dom. apply subseteq_size, subseteq_dom, map_filter_subseteq.
Qed.

Lemma offered_accepted `{Listener} rc d rc' out :
  receive rc d = (rc', out) →
  match offered rc d with
  | Some ev => of_a_person ev = true ∧ ev_user ev ≠ "" ∧ realmName (ev_realm ev) = true
      ∧ ((ev_time ev < default 0 (rc_last rc !! person ev) ∧ out = inl NoContent ∧ rc_last rc' = rc_last rc)
         ∨ (default 0 (rc_last rc !! person ev) ≤ ev_time ev ∧ out = inr ev
            ∧ rc_last rc' = <[person ev := ev_time ev]> (unpruned (rc_last rc) d)))
  | None => rc_last rc' = rc_last rc ∧ ∀ ev, out = inr ev → ev_type ev = TypeGroupDeleted
  end.
Proof.
  unfold receive, offered. destruct (dl_body d) as [body|]; [|by intros [= <- <-]]. simpl.
  destruct (bool_decide (maxEventBytes < _)); [by intros [= <- <-]|].
  destruct (verify rc (dl_verify d) (dl_header d) body) as [[]|]; [|by intros [= <- <-]]. simpl.
  destruct (event_of_json body) as [ev|]; [|by intros [= <- <-]]. simpl.
  destruct (eventID (ev_id ev)); [|by intros [= <- <-]].
  destruct (realmName (ev_realm ev)) eqn:Hr; [|by intros [= <- <-]]. simpl.
  destruct (first_cases rc (dl_first d) (ev_id ev)) as [(until & _ & _ & ->)|[_ ->]]; simpl; [by intros [= <- <-]|].
  fold (of_a_person ev). destruct (of_a_person ev) eqn:Hp; simpl.
  - destruct (bool_decide (ev_user ev = "")) eqn:Hu; [by intros [= <- <-]|]. apply bool_decide_eq_false in Hu.
    unfold newest. simpl.
    destruct (bool_decide (ev_time ev < _)) eqn:Hn; [apply bool_decide_eq_true in Hn|apply bool_decide_eq_false in Hn];
      intros [= <- <-]; split_and!; try done; [by left|].
    right. split_and!; [lia|done|done].
  - destruct (bool_decide (ev_type ev = TypeGroupDeleted)) eqn:Hg; intros [= <- <-]; simpl; (split; [done|]); [|done].
    intros ev' [= <-]. by apply bool_decide_eq_true in Hg.
Qed.

Lemma realmName_no_slash s : realmName s = true → contains_byte s "/" = false.
Proof.
  destruct s as [|c s]; [done|]. simpl. intros [[Hc Hs]%andb_true_iff _]%andb_true_iff.
  rewrite contains_byte_cons. apply orb_false_iff. split.
  - destruct (Ascii.eqb_spec "/" c) as [<-|]; done.
  - eapply str_forallb_contains; [exact Hs|done].
Qed.

Lemma person_inj ev ev' :
  realmName (ev_realm ev) = true → realmName (ev_realm ev') = true → person ev = person ev' →
  ev_realm ev = ev_realm ev' ∧ ev_user ev = ev_user ev'.
Proof. intros Hr%realmName_no_slash Hr'%realmName_no_slash Hp. by apply (app_sep_inj _ _ _ _ "/") in Hp. Qed.

Section Newest.
Context `{Listener} {W M : Type} `{RightsStoreLaws W} `{Mirror M} (scope : Scope).

(** The store has the person in exactly the stated groups the realm may assert. *)
Definition in_force (realm sub : string) (groups : list string) (s : W) : Prop :=
  ∀ user g obj, User sub = Ok user → Group g = Ok obj → has_prefix g prefix = true → allows scope realm g = true →
    Tuple user "member" obj ∈ rs_contents s ↔ g ∈ named groups.

Definition step (yE : (Receiver * (W * option M)) * list Event) (d : delivery) : (Receiver * (W * option M)) * list Event :=
  ((ServeHTTP scope yE.1 d).1, yE.2 ++ option_list (offered yE.1.1 d)).

Fixpoint responses (y : Receiver * (W * option M)) (ds : list delivery) : list response :=
  match ds with
  | [] => []
  | d :: ds => (ServeHTTP scope y d).2 :: responses (ServeHTTP scope y d).1 ds
  end.

(** Requests that state memberships, with times after the epoch. *)
Definition states_memberships (d : delivery) : Prop :=
  ∀ body ev, dl_body d = Some body → event_of_json body = Some ev →
    speaks scope (ev_realm ev) ∧ 0 ≤ ev_time ev ∧ ev_type ev ≠ TypeGroupDeleted.

(** Requests that arrive in time, the receiver's clock not going back between them: none
    states memberships of longer ago than the receiver keeps times for when it prunes them. *)
Definition timely (ds : list delivery) : Prop :=
  StronglySorted (λ d d', floor_of d ≤ floor_of d') ds
  ∧ Forall (λ d, ∀ body ev, dl_body d = Some body → event_of_json body = Some ev → floor_of d ≤ ev_time ev) ds.

(** The newest statement about each person is in force, and its time is recorded, or was
    before [c], if times from before [c] may have been pruned. *)
Definition recorded_or (c : option Z) (last : gmap string Z) (p : string) (t : Z) : Prop :=
  last !! p = Some t ∨ last !! p = None ∧ match c with Some c => t < c | None => False end.
Definition newest_in_force (c : option Z) (y : Receiver * (W * option M)) (E : list Event) : Prop :=
  (∀ p, is_Some (rc_last y.1 !! p) → ∃ ev, ev ∈ E ∧ person ev = p)
  ∧ Forall (λ ev, realmName (ev_realm ev) = true ∧ speaks scope (ev_realm ev)) E
  ∧ ∀ e0, e0 ∈ E → ∃ ev, ev ∈ E ∧ person ev = person e0 ∧ recorded_or c (rc_last y.1) (person e0) (ev_time ev)
      ∧ (∀ e, e ∈ E → person e = person e0 → ev_time e ≤ ev_time ev)
      ∧ in_force (ev_realm ev) (ev_user ev) (groups_of ev) y.2.1.

(** A request about which the times on record decide rightly: few are on record and none was
    pruned, or it is in time. *)
Definition decidable_by (c c' : option Z) (last : gmap string Z) (d : delivery) (ev : Event) : Prop :=
  c = None ∧ c' = None ∧ Z.of_nat (size last) ≤ 4096
  ∨ c' = Some (floor_of d) ∧ floor_of d ≤ ev_time ev ∧ match c with Some c => c ≤ floor_of d | None => True end.

Lemma in_force_after realm sub groups (s s' : W) ch :
  speaks scope realm → SetUserGroups scope realm sub groups s = (s', Ok ch) → in_force realm sub groups s'.
Proof.
  intros Hsp Hrun user g obj Hu Hg Hp Ha. apply SetUserGroups_Ok in Hrun as (user' & Hu' & ->).
  assert (user' = user) as -> by congruence.
  rewrite decide_True by (by rewrite (person_of scope realm sub user g obj realm sub user)). simpl. rewrite elem_of_wanted. split.
  - intros (g' & Hin & Hg' & _). by rewrite (Group_inj _ _ _ Hg Hg').
  - intros Hin. by exists g.
Qed.

Lemma in_force_other realm sub groups realm' sub' groups' (s s' : W) r :
  speaks scope realm → speaks scope realm' → (realm, sub) ≠ (realm', sub') →
  SetUserGroups scope realm' sub' groups' s = (s', r) → in_force realm sub groups s → in_force realm sub groups s'.
Proof.
  intros Hsp Hsp' Hne Hrun Hin user g obj Hu Hg Hp Ha. rewrite <-(Hin user g obj) by done.
  eapply SetUserGroups_only; [exact Hrun|]. intros user' Hu'.
  rewrite (person_of scope realm sub user g obj realm' sub' user') by done. naive_solver.
Qed.

Lemma statement_of_person ev : of_a_person ev = true → statement_of ev = Memberships (ev_realm ev) (ev_user ev) (groups_of ev).
Proof.
  unfold of_a_person, statement_of, groups_of. rewrite orb_true_iff, !bool_decide_eq_true.
  intros [Ht|Ht]; rewrite Ht; reflexivity.
Qed.

Lemma offered_plain rc d ev :
  offered rc d = Some ev → states_memberships d → speaks scope (ev_realm ev) ∧ 0 ≤ ev_time ev.
Proof.
  unfold offered. destruct (dl_body d) as [body|] eqn:Hb; [|done]. simpl.
  destruct (bool_decide (maxEventBytes < _)); [done|]. destruct (negb (is_ok _)); [done|].
  destruct (event_of_json body) as [ev'|] eqn:Hj; [|done]. simpl.
  destruct (_ || bool_decide (ev_user ev' = "")); [done|]. intros [= <-] Hpl.
  destruct (Hpl body ev' Hb Hj) as (? & ? & _). done.
Qed.

(** A statement that is older than the newest changes nothing. *)
Lemma newest_kept c y E ev :
  newest_in_force c y E → realmName (ev_realm ev) = true → speaks scope (ev_realm ev) →
  0 ≤ ev_time ev → ev_time ev < default 0 (rc_last y.1 !! person ev) → newest_in_force c y (E ++ [ev]).
Proof.
  intros (Hdom & Hwf & Hin) Hr Hsp Ht Hold.
  destruct (rc_last y.1 !! person ev) as [t|] eqn:Hl; simpl in Hold; [|lia].
  split_and!.
  - intros p (e & He & Hp)%Hdom. exists e. set_solver.
  - apply Forall_app_2; [done|]. by apply Forall_singleton.
  - assert (∀ e0, e0 ∈ E → ∃ ev', ev' ∈ E ++ [ev] ∧ person ev' = person e0 ∧ recorded_or c (rc_last y.1) (person e0) (ev_time ev')
      ∧ (∀ e, e ∈ E ++ [ev] → person e = person e0 → ev_time e ≤ ev_time ev')
      ∧ in_force (ev_realm ev') (ev_user ev') (groups_of ev') y.2.1) as Hold'.
    { intros e0 (e & He & Hp & Hlast & Hmax & Hf)%Hin. exists e. split_and!; [set_solver|done|done| |done].
      intros e' [He'| ->%list_elem_of_singleton]%elem_of_app Hp'; [by apply Hmax|].
      rewrite Hp' in Hl. destruct Hlast as [Hlast|[Hlast _]]; rewrite Hl in Hlast; [|done]. injection Hlast as ->. lia. }
    intros e0 [He0| ->%list_elem_of_singleton]%elem_of_app; [by apply Hold'|].
    destruct (Hdom (person ev)) as (e1 & He1 & <-); [by rewrite Hl|]. by apply Hold'.
Qed.

Lemma recorded_later c c' last d ev p t : decidable_by c c' last d ev → recorded_or c last p t → recorded_or c' (unpruned last d) p t.
Proof.
  intros Hd Hr. unfold recorded_or in *. destruct (unpruned_lookup last d p) as [->|(Hs & Hn & t' & Hl & Ht)].
  - destruct Hr as [?|[? Hc]]; [by left|right; split; [done|]]. destruct Hd as [(-> & _ & _)|(-> & _ & Hle)]; [done|]. destruct c; [lia|done].
  - destruct Hd as [(_ & _ & ?)|(-> & _ & _)]; [lia|]. right. split; [done|]. destruct Hr as [Hr|[Hr _]]; rewrite Hl in Hr; [|done]. by injection Hr as ->.
Qed.

(** A newer one is put in force, and the others stay. *)
Lemma newest_replaced c c' d rc rc' (x x' : W * option M) E ev ch :
  newest_in_force c (rc, x) E → decidable_by c c' (rc_last rc) d ev →
  of_a_person ev = true → realmName (ev_realm ev) = true → speaks scope (ev_realm ev) →
  default 0 (rc_last rc !! person ev) ≤ ev_time ev →
  rc_last rc' = <[person ev := ev_time ev]> (unpruned (rc_last rc) d) →
  project scope (statement_of ev) x.1 = (x'.1, Ok ch) → newest_in_force c' (rc', x') (E ++ [ev]).
Proof.
  intros (Hdom & Hwf & Hin) Hdec Hp Hr Hsp Ht Hlast Hrun. rewrite statement_of_person in Hrun by done. simpl in *.
  unfold newest_in_force. simpl. rewrite Hlast. split_and!.
  - intros p. destruct (decide (p = person ev)) as [->|Hne]; [intros _; exists ev; set_solver|].
    rewrite lookup_insert_ne by done. intros Hsome.
    assert (is_Some (rc_last rc !! p)) as (e & He & <-)%Hdom.
    { destruct (unpruned_lookup (rc_last rc) d p) as [<-|(_ & _ & t & -> & _)]; eauto. }
    exists e. set_solver.
  - apply Forall_app_2; [done|]. by apply Forall_singleton.
  - intros e0 He0. destruct (decide (person e0 = person ev)) as [Heq|Hne].
    + rewrite Heq. exists ev. split_and!; [set_solver|done|left; apply lookup_insert_eq| |by eapply in_force_after].
      intros e [He| ->%list_elem_of_singleton]%elem_of_app Hpe; [|lia].
      destruct (Hin e He) as (e' & _ & _ & Hl & Hmax & _). rewrite Hpe in Hl. etrans; [by apply Hmax|].
      destruct Hl as [Hl|[Hl Hc]]; rewrite Hl in Ht; simpl in Ht; [done|].
      destruct Hdec as [(-> & _ & _)|(_ & Hfl & Hle)]; [done|]. destruct c; [lia|done].
    + apply elem_of_app in He0 as [He0| ->%list_elem_of_singleton]; [|done].
      destruct (Hin e0 He0) as (e & He & Hpe & Hl & Hmax & Hf).
      exists e. split_and!; [set_solver|done| | |].
      * pose proof (recorded_later c c' _ d ev _ _ Hdec Hl) as Hl'. unfold recorded_or in *. by rewrite lookup_insert_ne.
      * intros e' [He'| ->%list_elem_of_singleton]%elem_of_app Hp'; [by apply Hmax|congruence].
      * rewrite Forall_forall in Hwf. destruct (Hwf e He) as [Hre Hse].
        eapply in_force_other; [done|exact Hsp| |exact Hrun|done].
        intros [= Hre' Hue']. apply Hne. rewrite <-Hpe. unfold person. congruence.
Qed.

Lemma offered_body rc d ev : offered rc d = Some ev → ∃ body, dl_body d = Some body ∧ event_of_json body = Some ev.
Proof.
  unfold offered. destruct (dl_body d) as [body|] eqn:Hb; [|done]. simpl. destruct (bool_decide (maxEventBytes < _)); [done|].
  destruct (negb (is_ok _)); [done|]. destruct (event_of_json body) as [ev'|] eqn:Hj; [|done]. simpl.
  destruct (_ || bool_decide (ev_user ev' = "")); [done|]. intros [= <-]. eauto.
Qed.

(** What may have been pruned only grows. *)
Lemma newest_in_force_grows c c' y E : newest_in_force c y E →
  match c, c' with Some c, Some c' => c ≤ c' | Some _, None => False | None, _ => True end → newest_in_force c' y E.
Proof.
  intros (Hdom & Hwf & Hin) Hc. split_and!; [done..|]. intros e0 (e & He & Hp & Hl & Hmax & Hf)%Hin. exists e. split_and!; try done.
  destruct Hl as [?|[? ?]]; [by left|]. right. split; [done|]. destruct c, c'; [lia|done..].
Qed.

Lemma step_newest c c' y E d :
  newest_in_force c y E → states_memberships d →
  match c, c' with Some c, Some c' => c ≤ c' | Some _, None => False | None, _ => True end →
  (∀ ev, offered y.1 d = Some ev → decidable_by c c' (rc_last y.1) d ev) →
  (ServeHTTP scope y d).2 ≠ NotApplied →
  newest_in_force c' (step (y, E) d).1 (step (y, E) d).2
  ∧ (size (rc_last (step (y, E) d).1.1) ≤ S (size (rc_last y.1)))%nat.
Proof.
  intros Hinv Hpl Hgrow Hdec Hresp. destruct y as [rc x]. unfold step. simpl in *. unfold ServeHTTP in *. simpl in *.
  destruct (receive rc d) as [rc' out] eqn:Hrun. pose proof (offered_accepted _ _ _ _ Hrun) as Ho.
  destruct (offered rc d) as [ev|] eqn:Hof; simpl.
  - destruct (offered_plain _ _ _ Hof Hpl) as [Hsp Ht]. destruct Ho as (Hp & _ & Hr & [(Hold & -> & Hl)|(Hnew & -> & Hl)]).
    + simpl. split; [|rewrite Hl; lia]. pose proof (newest_in_force_grows c c' _ _ Hinv Hgrow) as Hinv'.
      destruct (newest_kept c' (rc, x) E ev Hinv' Hr Hsp Ht Hold) as (Hd & Hw & Hi).
      unfold newest_in_force. simpl in *. rewrite Hl. done.
    + destruct (settle scope rc' ev x) as [[rc2 x'] r] eqn:Hset. simpl in *.
      apply settle_cases in Hset as [(ch & Hpr & -> & _)|[_ ->]]; [|done]. split.
      * by eapply newest_replaced; [| |..]; eauto.
      * rewrite Hl, map_size_insert. pose proof (unpruned_size (rc_last rc) d). destruct (unpruned (rc_last rc) d !! person ev); simpl; lia.
  - rewrite app_nil_r. destruct Ho as [Hl Hno]. destruct out as [r|ev]; simpl.
    + pose proof (newest_in_force_grows c c' _ _ Hinv Hgrow) as Hinv'. unfold newest_in_force in *. simpl in *. rewrite Hl. split; [exact Hinv'|lia].
    + exfalso. apply receive_accepted in Hrun as (body & Hb & _ & Hj & _). specialize (Hno ev eq_refl).
      by destruct (Hpl body ev Hb Hj) as (_ & _ & ?).
Qed.

Lemma steps_few ds y E :
  newest_in_force None y E → Forall states_memberships ds → Z.of_nat (size (rc_last y.1) + length ds) ≤ 4096 →
  (NotApplied ∉ responses y ds) →
  newest_in_force None (foldl step (y, E) ds).1 (foldl step (y, E) ds).2.
Proof.
  revert y E. induction ds as [|d ds IH]; intros y E Hinv Hds Hsz Hresp; [done|].
  apply Forall_cons in Hds as [Hd Hds]. simpl in *. apply not_elem_of_cons in Hresp as [Hr Hresp].
  destruct (step_newest None None y E d Hinv Hd) as [Hinv' Hsz']; [done|intros ev _; left; split_and!; [done..|lia]|by intros Heq|].
  destruct (step (y, E) d) as [y1 E1] eqn:Hst. assert ((ServeHTTP scope y d).1 = y1) as Hy by (by injection Hst).
  rewrite Hy in Hresp. apply IH; [done|done|simpl in Hsz'; lia|done].
Qed.
Lemma steps_timely ds c y E :
  newest_in_force c y E → Forall states_memberships ds → timely ds → Forall (λ d, match c with Some c => c ≤ floor_of d | None => True end) ds →
  (NotApplied ∉ responses y ds) →
  ∃ c', newest_in_force c' (foldl step (y, E) ds).1 (foldl step (y, E) ds).2.
Proof.
  revert c y E. induction ds as [|d ds IH]; intros c y E Hinv Hds [Hsort Htime] Hc Hresp; [by exists c|].
  apply Forall_cons in Hds as [Hd Hds]. apply Forall_cons in Htime as [Ht Htime]. apply Forall_cons in Hc as [Hcd _].
  apply StronglySorted_inv in Hsort as [Hsort Hle]. simpl in *. apply not_elem_of_cons in Hresp as [Hr Hresp].
  destruct (step_newest c (Some (floor_of d)) y E d Hinv Hd) as [Hinv' _]; [by destruct c| |by intros Heq|].
  { intros ev (body & Hb & Hj)%offered_body. right. split_and!; [done|by eapply Ht|done]. }
  destruct (step (y, E) d) as [y1 E1] eqn:Hst. assert ((ServeHTTP scope y d).1 = y1) as Hy by (by injection Hst).
  rewrite Hy in Hresp. by apply (IH (Some (floor_of d))).
Qed.
End Newest.

Lemma receive_wellformed `{Listener} rc d rc' ev body :
  receive rc d = (rc', inr ev) → dl_body d = Some body →
  bool_decide (maxEventBytes < Z.of_nat (String.length body)) = false ∧ eventID (ev_id ev) = true.
Proof.
  unfold receive. intros Hrun Hb. rewrite Hb in Hrun.
  destruct (bool_decide (maxEventBytes < _)); [done|]. split; [done|].
  destruct (verify _ _ _ _); [|done]. destruct (event_of_json body) as [ev'|]; [|done].
  destruct (eventID (ev_id ev')) eqn:Hid; [|done]. destruct (realmName (ev_realm ev')); [|done]. simpl in Hrun.
  destruct (first rc (dl_first d) (ev_id ev')) as [rc1 [|]]; [|done]. simpl in Hrun.
  destruct (_ || _); [destruct (bool_decide (ev_user ev' = "")); [done|]; destruct (newest _ _ _ _) as [? [|]]|
    destruct (bool_decide _)]; try done; by injection Hrun as _ <-.
Qed.

(** ** Properties *)

(** A recorded request cannot be played back.  Whatever was applied was signed
    by a key of the receiver's, at a time within five minutes of its clock; and the
    same header and body, sent again after it was applied, whenever and after
    whatever other requests, changes nothing.  The times at which a request is
    looked at may be up to [slack] apart, as long as the signature's time was not
    ahead of the receiver's clock by more than the window less that. *)
Theorem captured_event_applies_once `{Listener} {W M : Type} `{RightsStoreLaws W} `{Mirror M} (scope : Scope)
    (y : Receiver * (W * option M)) (d1 d2 : delivery) (ds : list delivery) (rc1 : Receiver) (ev : Event) (ts slack : Z) :
  receive y.1 d1 = (rc1, inr ev) → (ServeHTTP scope y d1).2 = NoContent →
  dl_header d2 = dl_header d1 → dl_body d2 = dl_body d1 →
  parse_int64 (field_of (header_fields (dl_header d1)) "t") = Some ts →
  dl_verify d1 ≤ dl_first d1 → dl_first d2 ≤ dl_verify d2 + slack → ts * 10 ^ 9 ≤ dl_verify d1 + window - slack →
  Forall (λ d, dl_first d ≤ dl_first d2) ds →
  let y' := handle_all scope (ServeHTTP scope y d1).1 ds in
  (∃ body key sig, dl_body d1 = Some body ∧ event_of_json body = Some ev
     ∧ rc_keys y.1 !! field_of (header_fields (dl_header d1)) "keyid" = Some key
     ∧ - window ≤ dl_verify d1 - ts * 10 ^ 9 ≤ window
     ∧ ed25519_verify key (field_of (header_fields (dl_header d1)) "t" +:+ "." +:+ body) sig = true)
  ∧ (ServeHTTP scope y' d2).1.2 = y'.2.
Proof.
  intros Hrun Hok Hh Hb Hts Hvf Hslack Hahead Hds y'.
  destruct (receive_accepted _ _ _ _ Hrun) as (body & Hb1 & Hv & Hj & _ & Hk & Hs & _).
  apply verify_Ok in Hv as (key & ts' & sig & Hkey & Hts' & Hw & _ & Hsig). assert (ts' = ts) as -> by congruence.
  split; [by exists body, key, sig|].
  assert (rc_seen (ServeHTTP scope y d1).1.1 !! ev_id ev = Some (dl_first d1 + 2 * window)) as Hs1.
  { unfold ServeHTTP in *. rewrite Hrun in *. destruct (settle scope rc1 ev y.2) as [[rc2 x2] r] eqn:Hset.
    apply settle_cases in Hset as [(_ & _ & -> & _)|[_ ->]]; done. }
  unfold ServeHTTP at 1. destruct (receive y'.1 d2) as [rc2 [r|ev2]] eqn:Hrun2; [done|]. exfalso.
  destruct (receive_accepted _ _ _ _ Hrun2) as (body2 & Hb2 & Hv2 & Hj2 & _).
  assert (body2 = body) as -> by congruence. apply verify_Ok in Hv2 as (_ & ts2 & _ & _ & Hts2 & Hw2 & _).
  rewrite Hh in Hts2. assert (ts2 = ts) as -> by congruence.
  assert (dl_first d2 ≤ dl_first d1 + 2 * window) as Hle by lia.
  destruct (receive_known _ _ _ _ body ev (dl_first d1 + 2 * window) Hrun2) as (r & ? & _); try done.
  apply handle_all_seen; [done|]. eapply Forall_impl; [exact Hds|]. simpl. intros. lia.
Qed.

(** C25: The newest statement wins.  Requests that state memberships, with times from 1970 on,
    handled one after the other by a receiver that starts afresh, in whatever order they
    arrive and however often, none of them cut off; and either not more than 4096 of them, so
    that the receiver forgets no time, or any number, each stating memberships of at most ten
    minutes before it arrives by a clock that does not go back, so that the times the receiver
    forgets no longer decide anything.  Then for each person about whom a statement got past
    the signature and the ids delivered before, the store ends with exactly the groups of one
    that no other such statement about the person is newer than. *)
Theorem newest_statement_wins `{Listener} {W M : Type} `{RightsStoreLaws W} `{Mirror M} (scope : Scope)
    (keys : gmap string string) (x : W * option M) (ds : list delivery) (e0 : Event) :
  Forall (states_memberships scope) ds → Z.of_nat (length ds) ≤ 4096 ∨ timely ds →
  (NotApplied ∉ responses scope (mkReceiver keys ∅ ∅, x) ds) →
  let '(y', E) := foldl (step scope) ((mkReceiver keys ∅ ∅, x), []) ds in
  e0 ∈ E →
  ∃ ev, ev ∈ E ∧ person ev = person e0 ∧ (∀ e, e ∈ E → person e = person e0 → ev_time e ≤ ev_time ev)
    ∧ in_force scope (ev_realm ev) (ev_user ev) (groups_of ev) y'.2.1.
Proof.
  intros Hds Hlen Hresp.
  assert (newest_in_force scope None (mkReceiver keys ∅ ∅, x) []) as Hstart.
  { split_and!; [|done|by intros ? ?%elem_of_nil]. simpl. intros p. rewrite lookup_empty. by intros [? ?]. }
  assert (∃ c, newest_in_force scope c (foldl (step scope) ((mkReceiver keys ∅ ∅, x), []) ds).1 (foldl (step scope) ((mkReceiver keys ∅ ∅, x), []) ds).2) as [c Hinv].
  { destruct Hlen as [Hlen|Htime]; [exists None; apply steps_few; [done|done|simpl; rewrite map_size_empty; lia|done]|].
    eapply steps_timely; [exact Hstart|done|done|by apply Forall_true|done]. }
  destruct (foldl (step scope) _ ds) as [y' E]. intros He0. destruct Hinv as (_ & _ & Hin).
  destruct (Hin e0 He0) as (ev & ? & ? & _ & ? & ?). by exists ev.
Qed.

(** Two statements about a person, handled at once.  Both pass the looks at
    their ids and times, the older first; the newer is applied, and then the older:
    the store ends with the older one's groups, the receiver holds the newer one's
    time, and the newer one, delivered again, is taken for applied. *)
Theorem concurrent_statement_goes_back `{Listener} {W M : Type} `{RightsStoreLaws W} `{Mirror M} (scope : Scope)
    (rc rc1 rc2 rc3 rc4 : Receiver) (d1 d2 : delivery) (e1 e2 : Event) (x x2 x3 : W * option M) :
  receive rc d1 = (rc1, inr e1) → receive rc1 d2 = (rc2, inr e2) →
  of_a_person e1 = true → of_a_person e2 = true → person e2 = person e1 → ev_time e1 < ev_time e2 →
  speaks scope (ev_realm e1) →
  settle scope rc2 e2 x = (rc3, x2, NoContent) → settle scope rc3 e1 x2 = (rc4, x3, NoContent) →
  in_force scope (ev_realm e1) (ev_user e1) (groups_of e1) x3.1
  ∧ rc_last rc4 !! person e1 = Some (ev_time e2)
  ∧ ∀ d body, dl_body d = Some body → event_of_json body = Some e2 → dl_first d ≤ dl_first d2 + 2 * window →
      (ServeHTTP scope (rc4, x3) d).1.2 = x3.
Proof.
  intros Hr1 Hr2 Hp1 Hp2 Hpe Ht Hsp Hset2 Hset1.
  apply settle_cases in Hset2 as [(_ & _ & -> & _)|[_ ?]]; [|done].
  apply settle_cases in Hset1 as [(ch & Hpr & -> & _)|[_ ?]]; [|done].
  apply receive_accepted in Hr2 as (body & _ & _ & Hj & _ & _ & Hs & Hl).
  split_and!.
  - rewrite statement_of_person in Hpr by done. by eapply in_force_after.
  - rewrite <-Hpe. destruct Hl as [(_ & _ & ?)|Hg]; [done|]. unfold of_a_person in Hp2. by rewrite Hg in Hp2.
  - intros d body' Hb Hj' Hle. unfold ServeHTTP. simpl. destruct (receive rc2 d) as [rc5 out] eqn:Hr5.
    by destruct (receive_known _ _ _ _ body' e2 _ Hr5 Hb Hj' Hs Hle) as (r & -> & _).
Qed.

(** C33: A statement can be acknowledged and lost.  While a statement is being
    applied, the listener's next attempt at it is answered as delivered; the first
    attempt may still find a store it cannot read, and then nothing was changed and
    nothing of the statement is remembered. *)
Theorem acknowledged_statement_is_lost `{Listener} {W M : Type} `{RightsStore W} `{Mirror M} (scope : Scope)
    (rc rc1 : Receiver) (d1 d2 : delivery) (ev : Event) (body : string) :
  receive rc d1 = (rc1, inr ev) → of_a_person ev = true → dl_body d1 = Some body → dl_body d2 = Some body →
  verify rc1 (dl_verify d2) (dl_header d2) body = Ok tt → dl_first d2 ≤ dl_first d1 + 2 * window →
  ∃ rc2, receive rc1 d2 = (rc2, inl NoContent)
    ∧ ∀ (x : W * option M) e, (∀ f, rs_read x.1 f = Err e) →
        ∃ rc3, settle scope rc2 ev x = (rc3, x, NotApplied)
          ∧ rc_seen rc3 !! ev_id ev = None ∧ rc_last rc3 !! person ev = None.
Proof.
  intros Hr Hp Hb1 Hb2 Hv Hle. destruct (receive_wellformed _ _ _ _ _ Hr Hb1) as [Hlen Hid].
  apply receive_accepted in Hr as (body' & Hb & _ & Hj & Hrn & _ & Hs & _). assert (body' = body) as -> by congruence.
  destruct (receive rc1 d2) as [rc2 out] eqn:Hr2.
  destruct (receive_known _ _ _ _ body ev _ Hr2 Hb2 Hj Hs Hle) as (r & -> & Hno).
  rewrite Hno by done. exists rc2. split; [done|]. intros x e Hread. eexists. split.
  - unfold settle, apply_event. rewrite statement_of_person by done. simpl. unfold SetUserGroups.
    destruct (User (ev_user ev)); unfold act_bind, act_wrap; rewrite ?Hread; simpl; by destruct x.
  - simpl. by rewrite !lookup_delete_eq.
Qed.

(** ** Examples *)

Module EventExample.
Definition admins : string := "gentian:tenant:acme:admins".
(** Ana joins the admins, and leaves them ten milliseconds later. *)
Definition joined : Event := mkEvent "event-0001" 10 "acme" TypeUserMemberships "ana" [admins] "".
Definition left : Event := mkEvent "event-0002" 20 "acme" TypeUserMemberships "ana" [] "".

#[export] Instance listener : Listener := {|
  ed25519_verify key msg sig := bool_decide (sig = "ok");
  event_of_json body := if decide (body = "joined") then Some joined else if decide (body = "left") then Some left else None |}.
#[export] Instance mirror : Mirror unit := λ m _, (m, Ok tt).

Definition scope : Scope := mkScope "kernel" "platform".
Definition at_second (n : Z) (body : string) : delivery :=
  mkDelivery (n * 10 ^ 9) (n * 10 ^ 9) (n * 10 ^ 9) "keyid=k1,t=1000,sig=b2s=" (Some body).
Definition rc0 : Receiver := mkReceiver {["k1" := "key"]} ∅ ∅.
Definition x0 : mem_server * option unit := (MemServer ∅ 10, Some tt).
Definition rc1 : Receiver := (receive rc0 (at_second 1000 "joined")).1.
Definition rc2 : Receiver := (receive rc1 (at_second 1001 "left")).1.
Definition x2 : mem_server * option unit := (settle scope rc2 left x0).1.2.
Definition x3 : mem_server * option unit := (settle scope rc2 joined x2).1.2.

(** A store that cannot be reached. *)
#[export] Instance broken : RightsStore unit := {|
  rs_read _ _ := Err (Sentinel "unreachable"); rs_write s _ _ := (s, Err (Sentinel "unreachable")) |}.

Lemma states_joined_left n body :
  body = "joined" ∨ body = "left" → states_memberships scope (at_second n body).
Proof.
  intros Hb body' ev [= <-] Hj. assert (ev = joined ∨ ev = left) as [-> | ->].
  { destruct Hb as [-> | ->]; vm_compute in Hj; injection Hj as <-; auto. }
  all: split_and!; [right; discriminate|vm_compute; discriminate|discriminate].
Qed.
End EventExample.

Import EventExample.

Lemma captured_event_applies_once_witness :
  let y' := handle_all scope (ServeHTTP scope (rc0, x0) (at_second 1000 "joined")).1 [at_second 1001 "left"] in
  (Tuple "user:ana" "member" "group:gentian/tenant/acme/admins" ∉ rs_contents (ServeHTTP scope y' (at_second 1200 "joined")).1.2.1)
  ∧ (ServeHTTP scope y' (at_second 1200 "joined")).1.2 = y'.2.
Proof.
  intros y'. split; [apply (bool_decide_unpack _); vm_compute; exact I|].
  refine (proj2 (captured_event_applies_once scope (rc0, x0) (at_second 1000 "joined") (at_second 1200 "joined")
    [at_second 1001 "left"] rc1 joined 1000 0 _ _ _ _ _ _ _ _ _)).
  - vm_compute. reflexivity.
  - vm_compute. reflexivity.
  - reflexivity.
  - reflexivity.
  - vm_compute. reflexivity.
  - vm_compute. discriminate.
  - vm_compute. discriminate.
  - vm_compute. discriminate.
  - apply Forall_singleton. vm_compute. discriminate.
Defined.

(** The statements in the wrong order, one twice. *)
Lemma newest_statement_wins_witness :
  let ds := [at_second 1000 "left"; at_second 1001 "joined"; at_second 1002 "left"] in
  let '(y', E) := foldl (step scope) ((mkReceiver {["k1" := "key"]} ∅ ∅, x0), []) ds in
  left ∈ E →
  ∃ ev, ev ∈ E ∧ person ev = person left ∧ (∀ e, e ∈ E → person e = person left → ev_time e ≤ ev_time ev)
    ∧ in_force scope (ev_realm ev) (ev_user ev) (groups_of ev) y'.2.1.
Proof.
  intros ds. apply (newest_statement_wins scope {["k1" := "key"]} x0 ds left).
  - repeat (apply Forall_cons; split; [apply states_joined_left; auto|]). apply Forall_nil_2.
  - left. vm_compute. discriminate.
  - apply (bool_decide_unpack _). vm_compute. exact I.
Defined.

Lemma concurrent_statement_goes_back_witness :
  (Tuple "user:ana" "member" "group:gentian/tenant/acme/admins" ∈ rs_contents x3.1)
  ∧ in_force scope "acme" "ana" [admins] x3.1 ∧ rc_last rc2 !! "acme/ana" = Some 20.
Proof.
  split; [apply (bool_decide_unpack _); vm_compute; exact I|].
  destruct (concurrent_statement_goes_back scope rc0 rc1 rc2 rc2 rc2 (at_second 1000 "joined") (at_second 1001 "left")
    joined left x0 x2 x3) as (Hf & Hl & _).
  - vm_compute. reflexivity.
  - vm_compute. reflexivity.
  - reflexivity.
  - reflexivity.
  - reflexivity.
  - reflexivity.
  - right. discriminate.
  - vm_compute. reflexivity.
  - vm_compute. reflexivity.
  - split; [exact Hf|exact Hl].
Defined.

Lemma acknowledged_statement_is_lost_witness :
  ∃ rc', receive rc1 (at_second 1010 "joined") = (rc', inl NoContent)
    ∧ ∀ (x : unit * option unit) e, (∀ f, rs_read x.1 f = Err e) →
        ∃ rc3, settle scope rc' joined x = (rc3, x, NotApplied)
          ∧ rc_seen rc3 !! "event-0001" = None ∧ rc_last rc3 !! "acme/ana" = None.
Proof.
  apply (acknowledged_statement_is_lost scope rc0 rc1 (at_second 1000 "joined") (at_second 1010 "joined") joined "joined").
  - vm_compute. reflexivity.
  - reflexivity.
  - reflexivity.
  - reflexivity.
  - vm_compute. reflexivity.
  - vm_compute. discriminate.
Defined.
