(* ===== verification/Guard.v ===== *)
(** * The guard in front of the platform's services ([internal/guard/guard.go])

    The director, the registrar and the usher take the same steps before a route does
    anything: who is calling, whether their token reaches the route at all, what the
    route is about, and whether they may.

    [guard_admits_iff] says who passes, and [guard_refuses] what every other caller is
    answered. *)

From S2P Require Import Prelude.
From S2P Require Import GoStrings.
From S2P Require Import Ids.
From S2P Require Import Authn.
From Stdlib Require Import ZArith.
#[local] Open Scope Z_scope.

(** [^[A-Za-z0-9._-]{8,64}$]. *)
Definition inboundID (s : string) : bool :=
  str_forallb (λ c, is_alnum c || char_in c "._-") s
  && bool_decide (8 ≤ String.length s)%nat && bool_decide (String.length s ≤ 64)%nat.

(** The gateway's id, or the one minted from what [crypto/rand] gave. *)
Definition RequestID (header minted : string) : string := if inboundID header then header else minted.

Definition Bearer (h : string) : string :=
  if bool_decide (7 < String.length h)%nat && equal_fold_ascii (take_str 7 h) "bearer "
  then trim_space (drop_str 7 h) else "".

(** A refusal as the service answers it; the challenge is the header that names the
    service's realm. *)
Record refused := mkRefused { rf_code : Z; rf_message : string; rf_challenge : option string }.
Definition fail (code : Z) (msg : string) : refused := mkRefused code msg None.

Record Guard := mkGuard { g_realm : string; g_scoped : bool }.

Record Caller := mkCaller {
  cl_ident : Identity; cl_user : string; cl_holder : string; cl_relation : string; cl_object : string }.

Definition Decision (c : Caller) : string := cl_relation c +:+ " " +:+ cl_object c.

(** The caller as a role holder of their token's realm, empty when it cannot be named. *)
Definition holder_of (i : Identity) : string :=
  match HolderUser (id_realm i) (id_subject i) with Ok h => h | Err _ => "" end.

Section Guarded.
(** Whoever verifies tokens, with what it remembers; and the store's answers. *)
Context {A : Type} (from_request : string → A → A * result Identity) (check : checker) (g : Guard).

Definition authenticate (header : string) (a : A) : A * (refused + Identity * string) :=
  let '(a, r) := from_request header a in
  match r with
  | Err _ => (a, inl (mkRefused 401 "unauthenticated" (Some (g_realm g))))
  | Ok ident =>
      match User (id_subject ident) with
      | Err _ => (a, inl (fail 401 "unauthenticated"))
      | Ok user => (a, inr (ident, user))
      end
  end.

Definition Identify (header : string) (a : A) : A * (refused + Caller) :=
  let '(a, r) := authenticate header a in
  (a, match r with
      | inl f => inl f
      | inr (ident, user) => inr (mkCaller ident user (holder_of ident) "" "")
      end).

(** The relations are asked in order, and the first held answers. *)
Fixpoint ask (ident : Identity) (user target : string) (relations : list string) : refused + Caller :=
  match relations with
  | [] => inl (fail 403 "forbidden")
  | relation :: rest =>
      match CheckAs check user (holder_of ident) relation target with
      | Err _ => inl (fail 503 "authorization unavailable")
      | Ok true => inr (mkCaller ident user (holder_of ident) relation target)
      | Ok false => ask ident user target rest
      end
  end.

Definition Authorize (route : string) (relations : Identity → list string) (object : result string) (header : string) (a : A)
    : A * (refused + Caller) :=
  let '(a, r) := authenticate header a in
  (a, match r with
      | inl f => inl f
      | inr (ident, user) =>
          if g_scoped g && negb (MayCall ident route)
          then inl (fail 403 "this token was obtained on the person's behalf and does not reach this route")
          else match object with
               | Err _ => inl (fail 400 "invalid name")
               | Ok target => ask ident user target (relations ident)
               end
      end).

Definition One (relation : string) : Identity → list string := λ _, [relation].

(** ** Lemmas *)

(** The caller the token names. *)
Definition known (header : string) (a : A) (ident : Identity) (user : string) : Prop :=
  (from_request header a).2 = Ok ident ∧ User (id_subject ident) = Ok user.

Lemma authenticate_inr header a ident user :
  (authenticate header a).2 = inr (ident, user) ↔ known header a ident user.
Proof.
  unfold authenticate, known. destruct (from_request header a) as [a' [i|e]]; cbn; [|by split; [|intros []]].
  destruct (User (id_subject i)) as [u|e] eqn:E; cbn; split; try done.
  - by intros [= <- <-].
  - intros [[= <-] E']. congruence.
  - intros [[= <-] E']. congruence.
Qed.

Lemma authenticate_inl header a f : (authenticate header a).2 = inl f → rf_code f = 401 ∧ ∀ i u, ¬ known header a i u.
Proof.
  intros Hf. split.
  - revert Hf. unfold authenticate. destruct (from_request header a) as [a' [i|e]]; [|by intros [= <-]].
    destruct (User (id_subject i)); by intros [= <-].
  - intros i u Hk%authenticate_inr. congruence.
Qed.

(** What the store said, in the order it was asked. *)
Definition denied (ident : Identity) (user target relation : string) : Prop :=
  CheckAs check user (holder_of ident) relation target = Ok false.

Lemma ask_inr ident user target relations c : ask ident user target relations = inr c ↔
  ∃ pre relation post, relations = pre ++ relation :: post ∧ Forall (denied ident user target) pre
    ∧ CheckAs check user (holder_of ident) relation target = Ok true
    ∧ c = mkCaller ident user (holder_of ident) relation target.
Proof.
  induction relations as [|r rest IH]; cbn.
  { split; [done|]. by intros ([|? ?] & ? & ? & ? & _). }
  destruct (CheckAs check user (holder_of ident) r target) as [[]|e] eqn:E.
  - split; [intros [= <-]; exists [], r, rest; auto|]. intros (pre & rel & post & Hl & Hpre & Hc & ->).
    destruct pre as [|x pre]; [by injection Hl as -> ->|]. injection Hl as <- _. inv Hpre. unfold denied in *. congruence.
  - rewrite IH. split.
    + intros (pre & rel & post & -> & Hpre & Hc & ->). exists (r :: pre), rel, post. split_and!; [done| |done|done]. by constructor.
    + intros (pre & rel & post & Hl & Hpre & Hc & ->). destruct pre as [|x pre]; injection Hl as -> ->; [congruence|].
      inv Hpre. by exists pre, rel, post.
  - split; [done|]. intros (pre & rel & post & Hl & Hpre & Hc & ->).
    destruct pre as [|x pre]; injection Hl as -> ->; [congruence|]. inv Hpre. unfold denied in *. congruence.
Qed.

Lemma ask_inl ident user target relations f : ask ident user target relations = inl f →
  (f = fail 403 "forbidden" ∧ Forall (denied ident user target) relations)
  ∨ (f = fail 503 "authorization unavailable"
     ∧ ∃ relation e, relation ∈ relations ∧ CheckAs check user (holder_of ident) relation target = Err e).
Proof.
  induction relations as [|r rest IH]; cbn; [intros [= <-]; left; auto|].
  destruct (CheckAs check user (holder_of ident) r target) as [[]|e] eqn:E; [done| |].
  - intros [[-> Hall]|(-> & rel & e & Hin & He)]%IH; [left; split; [done|by constructor]|].
    right. split; [done|]. exists rel, e. split; [by right|done].
  - intros [= <-]. right. split; [done|]. exists r, e. split; [left|done].
Qed.

Lemma Authorize_inr route relations object header a c :
  (Authorize route relations object header a).2 = inr c ↔
  ∃ ident user target pre relation post,
    (from_request header a).2 = Ok ident ∧ User (id_subject ident) = Ok user
    ∧ (g_scoped g = true → MayCall ident route = true) ∧ object = Ok target
    ∧ relations ident = pre ++ relation :: post
    ∧ Forall (λ r, CheckAs check user (holder_of ident) r target = Ok false) pre
    ∧ CheckAs check user (holder_of ident) relation target = Ok true
    ∧ c = mkCaller ident user (holder_of ident) relation target.
Proof.
  unfold Authorize. destruct (authenticate header a) as [a' r] eqn:Ea.
  assert ((authenticate header a).2 = r) as Hr by (by rewrite Ea). clear Ea. cbn. destruct r as [f|[ident user]].
  - split; [done|]. intros (i & u & ? & ? & ? & ? & Hi & Hu & _). apply authenticate_inl in Hr as [_ Hn]. by destruct (Hn i u).
  - apply authenticate_inr in Hr as [Hi Hu]. destruct (g_scoped g && negb (MayCall ident route)) eqn:Es.
    { split; [done|]. intros (i & u & ? & ? & ? & ? & Hi' & _ & Hs & _). rewrite Hi in Hi'. injection Hi' as <-.
      apply andb_true_iff in Es as [Es Em]. by rewrite (Hs Es) in Em. }
    assert (g_scoped g = true → MayCall ident route = true) as Hm.
    { intros Hg. rewrite Hg in Es. by apply negb_false_iff in Es. }
    destruct object as [target|e].
    + rewrite ask_inr. split.
      * intros (pre & rel & post & Hl & Hpre & Hc & ->). by exists ident, user, target, pre, rel, post.
      * intros (i & u & t & pre & rel & post & Hi' & Hu' & _ & [= <-] & Hl & Hpre & Hc & ->).
        rewrite Hi in Hi'. injection Hi' as <-. rewrite Hu in Hu'. injection Hu' as <-. by exists pre, rel, post.
    + split; [done|]. by intros (? & ? & ? & ? & ? & ? & _ & _ & _ & ? & _).
Qed.

Lemma Authorize_inl route relations object header a f :
  (Authorize route relations object header a).2 = inl f →
  (rf_code f = 401 ∧ ∀ ident user, ¬ ((from_request header a).2 = Ok ident ∧ User (id_subject ident) = Ok user))
  ∨ ∃ ident user, (from_request header a).2 = Ok ident ∧ User (id_subject ident) = Ok user
    ∧ ((rf_code f = 403 ∧ g_scoped g = true ∧ MayCall ident route = false)
       ∨ (rf_code f = 400 ∧ ∃ e, object = Err e)
       ∨ ∃ target, object = Ok target
         ∧ ((rf_code f = 403 ∧ ∀ r, r ∈ relations ident → CheckAs check user (holder_of ident) r target = Ok false)
            ∨ (rf_code f = 503 ∧ ∃ r e, r ∈ relations ident ∧ CheckAs check user (holder_of ident) r target = Err e))).
Proof.
  unfold Authorize. destruct (authenticate header a) as [a' r] eqn:Ea.
  assert ((authenticate header a).2 = r) as Hr by (by rewrite Ea). clear Ea. cbn. destruct r as [f'|[ident user]].
  - intros [= <-]. left. by apply authenticate_inl.
  - apply authenticate_inr in Hr as [Hi Hu]. intros Hf. right. exists ident, user. split_and!; [done|done|].
    destruct (g_scoped g && negb (MayCall ident route)) eqn:Es.
    { injection Hf as <-. left. apply andb_true_iff in Es as [? ?%negb_true_iff]. done. }
    destruct object as [target|e]; [|injection Hf as <-; right; left; eauto].
    right. right. exists target. split; [done|]. apply ask_inl in Hf as [[-> Hall]|[-> Hex]]; [left|right; done].
    split; [done|]. by apply Forall_forall.
Qed.

(** ** Properties *)

(** A caller passes the guard exactly when the token names somebody OpenFGA can
    have as a user, the token reaches the route where delegated tokens are held to
    their scopes, the route's object can be named, and the store says they hold one
    of the route's relations on it, as themselves or as a role holder of their realm,
    having answered no to each relation before it.  What they are told they were
    allowed is that relation and that object. *)
Theorem guard_admits_iff route relations object header a c :
  (Authorize route relations object header a).2 = inr c ↔
  ∃ ident user target pre relation post,
    (from_request header a).2 = Ok ident ∧ User (id_subject ident) = Ok user
    ∧ (g_scoped g = true → MayCall ident route = true) ∧ object = Ok target
    ∧ relations ident = pre ++ relation :: post
    ∧ Forall (λ r, CheckAs check user (holder_of ident) r target = Ok false) pre
    ∧ CheckAs check user (holder_of ident) relation target = Ok true
    ∧ c = mkCaller ident user (holder_of ident) relation target.
Proof. apply Authorize_inr. Qed.

(** Whoever does not pass is refused for one reason, and the status says which:
    401 when the token names nobody, 403 when it does not reach the route or the
    store answered no to every relation, 400 when the object cannot be named, and 503
    only when the store did not answer. *)
Theorem guard_refuses route relations object header a f :
  (Authorize route relations object header a).2 = inl f →
  (rf_code f = 401 ∧ ∀ ident user, ¬ ((from_request header a).2 = Ok ident ∧ User (id_subject ident) = Ok user))
  ∨ ∃ ident user, (from_request header a).2 = Ok ident ∧ User (id_subject ident) = Ok user
    ∧ ((rf_code f = 403 ∧ g_scoped g = true ∧ MayCall ident route = false)
       ∨ (rf_code f = 400 ∧ ∃ e, object = Err e)
       ∨ ∃ target, object = Ok target
         ∧ ((rf_code f = 403 ∧ ∀ r, r ∈ relations ident → CheckAs check user (holder_of ident) r target = Ok false)
            ∨ (rf_code f = 503 ∧ ∃ r e, r ∈ relations ident ∧ CheckAs check user (holder_of ident) r target = Err e))).
Proof. apply Authorize_inl. Qed.

End Guarded.

(** An auditor asks for what only an administrator may. *)
Module GuardExample.
Definition ana : Identity := mkIdentity "ana" "acme" "" "s1" "" "" "" [].
Definition from_request (h : string) (n : nat) : nat * result Identity :=
  (Datatypes.S n, if bool_decide (h = "bearer t") then Ok ana else Err ErrUnauthenticated).
Definition check : checker := λ user rel obj, Ok (bool_decide (rel = "can_audit")).
Definition g : Guard := mkGuard "usher" true.
Definition asked : nat * (refused + Caller) :=
  Authorize from_request check g "GET /v1/x" (One "can_configure") (Ok "cluster:k") "bearer t" 0%nat.
End GuardExample.

Lemma guard_refuses_witness :
  (Authorize GuardExample.from_request GuardExample.check GuardExample.g "GET /v1/x" (One "can_audit") (Ok "cluster:k") "bearer t" 0%nat).2
    = inr (mkCaller GuardExample.ana "user:ana" "user:acme/ana" "can_audit" "cluster:k")
  ∧ ∃ f, GuardExample.asked.2 = inl f
      ∧ ¬ (rf_code f = 401 ∧ ∀ ident user,
             ¬ ((GuardExample.from_request "bearer t" 0%nat).2 = Ok ident ∧ User (id_subject ident) = Ok user)).
Proof.
  split; [vm_compute; reflexivity|]. exists (fail 403 "forbidden"). split; [vm_compute; reflexivity|].
  destruct (guard_refuses GuardExample.from_request GuardExample.check GuardExample.g "GET /v1/x" (One "can_configure")
    (Ok "cluster:k") "bearer t" 0%nat (fail 403 "forbidden")) as [[Hc _]|_]; [vm_compute; reflexivity|discriminate Hc|].
  intros [Hc _]. discriminate Hc.
Defined.
