(* ===== verification/Usher.v ===== *)
(** * The usher: what a person may be told ([internal/usher])

    The routes of [internal/usher/usher.go] and [internal/usher/state.go], each behind
    the guard, the client they read the operator with
    ([internal/director/lifecycle/lifecycle.go]) and the tiles the operator projected
    ([internal/tilecatalogue/catalogue.go]).

    [usher_tells_the_entitled] follows one request from the token it carries to the
    operator's path it is answered from; [tiles_exact] says which tiles a person is
    shown; [refused_session_is_the_callers] that a person is told to sign in again only
    for their own token. *)

From S2P Require Import Prelude.
From S2P Require Import GoStrings.
From S2P Require Import GoUrl.
From S2P Require Import Ids.
From S2P Require Import Authn.
From S2P Require Import Guard.
From Stdlib Require Import ZArith.
#[local] Open Scope Z_scope.

(** ** The operator's API *)

Record Plan := mkPlan {
  pl_name : string; pl_display_name : string; pl_tier : Z; pl_product_sku : string; pl_quotas : gmap string string;
  pl_current : bool; pl_selectable : bool; pl_blocked : string; pl_blocked_by : string }.

(** A read answered with a status and a body, or not at all; and the decodings of
    [encoding/json]: a body's ["detail"], its plans, its tenants' states. *)
Class Operator := {
  op_answer : string → gmap string string → result (Z * string);
  op_detail : string → option string;
  op_plans : string → result (list Plan);
  op_tenants : string → result (list string * list string) }.

Definition quote : string := String (ascii_of_nat 34) "".
Definition refusedByOperator (who : string) (status : Z) (body : string) : Z * string :=
  if negb (bool_decide (status = 401)) then (status, body)
  else (502, "{" +:+ quote +:+ "detail" +:+ quote +:+ ":" +:+ quote +:+ "the operator refused the " +:+ who
             +:+ "'s token for its app-lifecycle API; it presented none, or one the API server does not vouch for"
             +:+ quote +:+ "}").

Definition ErrorMessage `{Operator} (body : string) : string :=
  match op_detail body with
  | Some detail => if bool_decide (detail = "") then trim_space body else detail
  | None => trim_space body
  end.

(** The one read a request makes, and what came of it. *)
Definition read : Type := string * gmap string string.

Definition Get `{Operator} (path : string) (query : gmap string string) : result (Z * string) :=
  '(status, body) ← wrap "app-lifecycle API: %w" [] (op_answer path query);
  Ok (refusedByOperator "usher" status body).

Inductive plans_error := Upstream (status : Z) (message : string) | Unreachable (e : error).

Definition plans_path (tenant : string) : string := "/v1/tenants/" +:+ PathEscape tenant +:+ "/resources/plans".
Definition Plans `{Operator} (tenant : string) : list Plan + plans_error :=
  match Get (plans_path tenant) ∅ with
  | Err e => inr (Unreachable e)
  | Ok (status, body) =>
      if negb (bool_decide (status = 200)) then inr (Upstream status (ErrorMessage body))
      else match op_plans body with
           | Err e => inr (Unreachable (Wrapf "app-lifecycle API: plans: %w" [] e))
           | Ok plans => inl plans
           end
  end.

(** ** The tiles *)

Record Tile := mkTile {
  ti_name : string; ti_display_name : string; ti_display_names : gmap string string; ti_description : string;
  ti_icon : string; ti_url : string; ti_object : string; ti_any_of : list string; ti_preopen : bool }.
Record AppStore := mkAppStore { as_offered : bool; as_reason : string }.
Record Catalogue := mkCatalogue { ct_tiles : list Tile; ct_app_store : option AppStore }.

Definition complete (t : Tile) : bool :=
  negb (bool_decide (ti_name t = "") || bool_decide (ti_url t = "") || bool_decide (ti_object t = "")
        || bool_decide (ti_any_of t = [])).
(** [Parse], of what the YAML decodes to. *)
Definition Parse (decoded : result Catalogue) : result Catalogue :=
  c ← wrap "read the tile catalogue: %w" [] decoded;
  Ok (mkCatalogue (filter (λ t, complete t = true) (ct_tiles c)) (ct_app_store c)).

Definition AppStoreReasonNoUsageStatistics : string := "usage-statistics-disabled".
Definition AppStoreReasonNoStore : string := "no-store-configured".

(** ** The server *)

Inductive object := tenantObject | clusterObject.

Inductive handler :=
  | tenantTiles
  | relay (suffix : string) (allowed : list string)
  | relayCluster (path : string)
  | appResidue | tenantBackup | tenantRestore
  | tenantExtensionObjects | clusterExtensionObjects
  | resourcePlans | clusterResources | clusterResourceReport.

Record route := mkRoute { ro_pattern : string; ro_relations : list string; ro_object : object; ro_handler : handler }.
Definition guarded (pattern relation : string) (o : object) (h : handler) : route := mkRoute pattern [relation] o h.
Definition guardedAny (pattern : string) (relations : list string) (o : object) (h : handler) : route :=
  mkRoute pattern relations o h.

Definition tenant_routes : list route := [
  guarded "GET /v1/tenants/{t}/apps/status" "can_view" tenantObject (relay "/apps/status" []);
  guarded "GET /v1/tenants/{t}/apps/retained" "can_view" tenantObject (relay "/apps/retained" []);
  guarded "GET /v1/tenants/{t}/apps/{p}/residue" "can_view" tenantObject appResidue;
  guarded "GET /v1/tenants/{t}/resources" "can_view" tenantObject (relay "/resources" []);
  guarded "GET /v1/tenants/{t}/resources/plans" "can_view" tenantObject resourcePlans;
  guarded "GET /v1/tenants/{t}/resources/usage" "can_view" tenantObject (relay "/resources/usage" ["from"; "to"; "stepSeconds"]);
  guarded "GET /v1/tenants/{t}/perimeter/traffic" "can_expose" tenantObject (relay "/perimeter/traffic" ["from"; "to"; "stepSeconds"]);
  guarded "GET /v1/tenants/{t}/resources/report" "can_view" tenantObject (relay "/resources/report" ["from"; "to"]);
  guarded "GET /v1/tenants/{t}/backups" "can_view" tenantObject (relay "/backups" []);
  guarded "GET /v1/tenants/{t}/backups/{name}" "can_view" tenantObject tenantBackup;
  guarded "GET /v1/tenants/{t}/backup-policy" "can_view" tenantObject (relay "/backup-policy" []);
  guarded "GET /v1/tenants/{t}/restores/{name}" "can_view" tenantObject tenantRestore;
  guarded "GET /v1/tenants/{t}/extensions/{group}/{resource}" "can_view" tenantObject tenantExtensionObjects;
  guarded "GET /v1/tenants/{t}/integrations" "can_view" tenantObject (relay "/integrations" []);
  guarded "GET /v1/tenants/{t}/notifications" "can_view" tenantObject (relay "/notifications" [])].

Definition cluster_routes : list route := [
  guarded "GET /v1/clusters/{c}/resources" "can_audit" clusterObject clusterResources;
  guarded "GET /v1/clusters/{c}/resources/report" "can_audit" clusterObject clusterResourceReport;
  guarded "GET /v1/clusters/{c}/backup-policy" "can_audit" clusterObject (relayCluster "/v1/backup-policy");
  guarded "GET /v1/clusters/{c}/extensions/{group}/{resource}" "can_audit" clusterObject clusterExtensionObjects;
  guarded "GET /v1/clusters/{c}/platform-security" "can_audit" clusterObject (relayCluster "/v1/platform-security");
  guarded "GET /v1/clusters/{c}/customizations" "can_audit" clusterObject (relayCluster "/v1/customizations");
  guarded "GET /v1/clusters/{c}/usage-statistics" "can_audit" clusterObject (relayCluster "/v1/usage-statistics");
  guarded "GET /v1/clusters/{c}/catalogue/residue" "can_audit" clusterObject (relayCluster "/v1/catalogue/residue");
  guardedAny "GET /v1/clusters/{c}/approvals" ["can_approve"; "can_approve_perimeter"; "can_configure"] clusterObject
    (relayCluster "/v1/approvals")].

Record Config := mkUsher {
  us_cluster : string; us_lifecycle : bool; us_tiles : result Catalogue; us_usage_statistics : bool }.

Definition stateRoutes (cfg : Config) : list route :=
  tenant_routes ++ if bool_decide (us_cluster cfg = "") then [] else cluster_routes.
Definition New (cfg : Config) : list route :=
  guarded "GET /v1/tenants/{t}/tiles" "can_enter" tenantObject tenantTiles
  :: if us_lifecycle cfg then stateRoutes cfg else [].

(** A request the mux matched: its pattern, the values of the path and of the query,
    and the credential it carries. *)
Record request := mkRequest {
  rq_pattern : string; rq_values : gmap string string; rq_query : gmap string string; rq_authorization : string }.
Definition PathValue (r : request) (name : string) : string := default "" (rq_values r !! name).

Record call := mkCall { ca_user : string; ca_holder : string; ca_tenant : string }.

Record tileOut := mkTileOut {
  to_name : string; to_display_name : string; to_display_names : gmap string string; to_description : string;
  to_url : string; to_icon : string; to_preopen : bool }.
Record appStoreOut := mkStoreOut { so_available : bool; so_reason : string }.

Inductive answer :=
  | NotFound
  | Alive
  | Refuse (f : refused)
  | Fail (code : Z) (message : string)
  | Relayed (status : Z) (body : string)
  | Tiles (tenant : string) (tiles : list tileOut) (store : appStoreOut)
  | PlansOf (tenant : string) (plans : list Plan)
  | Resources (cluster : string) (tenants unavailable : list string).

Definition errInvalidName : error := Sentinel "invalid name".
Definition object_of (cfg : Config) (o : object) (r : request) : result string :=
  match o with
  | tenantObject => let t := PathValue r "t" in if negb (ValidTenantName t) then Err errInvalidName else Ok (Tenant t)
  | clusterObject =>
      let c := PathValue r "c" in
      if bool_decide (c = "") || negb (bool_decide (c = us_cluster cfg)) then Err errInvalidName
      else Ok (Cluster (us_cluster cfg))
  end.

Definition inTenant (object tenant : string) : bool :=
  if has_prefix object "tenant:" then bool_decide (object = "tenant:" +:+ tenant)
  else if has_prefix object "app:" then has_prefix object ("app:" +:+ tenant +:+ "/")
  else has_prefix object "cluster:".

Definition appStore (cfg : Config) (offer : option AppStore) : appStoreOut :=
  if negb (us_usage_statistics cfg) then mkStoreOut false AppStoreReasonNoUsageStatistics
  else match offer with
       | None => mkStoreOut false AppStoreReasonNoStore
       | Some o =>
           if negb (as_offered o)
           then mkStoreOut false (if bool_decide (as_reason o = "") then AppStoreReasonNoStore else as_reason o)
           else mkStoreOut true ""
       end.

Definition tile_out (t : Tile) : tileOut :=
  mkTileOut (ti_name t) (ti_display_name t) (ti_display_names t) (ti_description t) (ti_url t) (ti_icon t) (ti_preopen t).

(** [^[a-z0-9]([a-z0-9.-]{0,251}[a-z0-9])?$] and [^[a-z0-9]([a-z0-9-]{0,61}[a-z0-9])?$]. *)
Definition extensionGroup (s : string) : bool :=
  str_forallb (λ c, is_lower_alnum c || char_in c ".-") s
  && match s with "" => false | String c _ => is_lower_alnum c end
  && match String.rev s with "" => false | String c _ => is_lower_alnum c end
  && bool_decide (String.length s ≤ 253)%nat.
Definition extensionResource (s : string) : bool := dns_label s.

Definition extensionPath (r : request) (prefix : string) : option string :=
  let group := PathValue r "group" in
  let resource := PathValue r "resource" in
  if negb (extensionGroup group) || negb (extensionResource resource) then None
  else Some (prefix +:+ "/extensions/" +:+ PathEscape group +:+ "/" +:+ PathEscape resource).

Definition tenantPath (c : call) (suffix : string) : string := "/v1/tenants/" +:+ PathEscape (ca_tenant c) +:+ suffix.

Section Server.
Context `{Operator} (check : checker) (cfg : Config).

Definition unreachable : answer := Fail 502 "the operator's API did not answer".

Definition relayed (r : request) (path : string) (allowed : list string) : list read * answer :=
  let query := list_to_map (omap (λ name,
    let v := default "" (rq_query r !! name) in if bool_decide (v = "") then None else Some (name, v)) allowed) in
  ([(path, query)],
   match Get path query with
   | Err _ => unreachable
   | Ok (status, body) => Relayed status body
   end).

(** Whether one of the relations is held, asked in order. *)
Fixpoint holds_any (c : call) (object : string) (relations : list string) : result bool :=
  match relations with
  | [] => Ok false
  | rel :: rest =>
      ok ← CheckAs check (ca_user c) (ca_holder c) rel object;
      if (ok : bool) then Ok true else holds_any c object rest
  end.

Fixpoint tiles_for (c : call) (tiles : list Tile) : result (list tileOut) :=
  match tiles with
  | [] => Ok []
  | t :: rest =>
      if negb (inTenant (ti_object t) (ca_tenant c)) then tiles_for c rest
      else
        ok ← holds_any c (ti_object t) (ti_any_of t);
        out ← tiles_for c rest;
        Ok (if (ok : bool) then tile_out t :: out else out)
  end.

Definition serveTiles (c : call) : answer :=
  match Parse (us_tiles cfg) with
  | Err _ => Fail 503 "the tile catalog cannot be read"
  | Ok catalogue =>
      match tiles_for c (ct_tiles catalogue) with
      | Err _ => Fail 503 "authorization unavailable"
      | Ok out => Tiles (ca_tenant c) out (appStore cfg (ct_app_store catalogue))
      end
  end.

Definition servePlans (c : call) : list read * answer :=
  ([(plans_path (ca_tenant c), ∅)],
   match Plans (ca_tenant c) with
   | inl plans => PlansOf (ca_tenant c) plans
   | inr (Upstream status message) => Fail status message
   | inr (Unreachable _) => unreachable
   end).

Definition serveResources : list read * answer :=
  ([("/v1/resources", ∅)],
   match Get "/v1/resources" ∅ with
   | Err _ => unreachable
   | Ok (status, body) =>
       if negb (bool_decide (status = 200)) then Fail status (ErrorMessage body)
       else match op_tenants body with
            | Err _ => Fail 502 (ErrorMessage body)
            | Ok (tenants, unavailable) => Resources (us_cluster cfg) tenants unavailable
            end
   end).

Definition serveExtensions (r : request) (prefix : string) : list read * answer :=
  match extensionPath r prefix with
  | None => ([], Fail 400 "invalid name")
  | Some path => relayed r path []
  end.

Definition handle (c : call) (r : request) (h : handler) : list read * answer :=
  match h with
  | tenantTiles => ([], serveTiles c)
  | relay suffix allowed => relayed r (tenantPath c suffix) allowed
  | relayCluster path => relayed r path []
  | appResidue => relayed r (tenantPath c ("/apps/" +:+ PathEscape (PathValue r "p") +:+ "/residue")) []
  | tenantBackup => relayed r (tenantPath c ("/backups/" +:+ PathEscape (PathValue r "name"))) []
  | tenantRestore => relayed r (tenantPath c ("/restores/" +:+ PathEscape (PathValue r "name"))) []
  | tenantExtensionObjects => serveExtensions r (tenantPath c "")
  | clusterExtensionObjects => serveExtensions r "/v1"
  | resourcePlans => servePlans c
  | clusterResources => serveResources
  | clusterResourceReport => relayed r "/v1/resources/report" ["from"; "to"]
  end.

Definition gate : Guard := mkGuard "gentian-usher" true.

(** The probe, which asks nobody; and a request to a registered route: the guard, then
    the handler. *)
Definition ServeHTTP {A} (from_request : string → A → A * result Identity) (r : request) (a : A) : A * (list read * answer) :=
  if bool_decide (rq_pattern r = "GET /healthz") then (a, ([], Alive)) else
  match list_find (λ ro, ro_pattern ro = rq_pattern r) (New cfg) with
  | None => (a, ([], NotFound))
  | Some (_, ro) =>
      let '(a, out) := Authorize from_request check gate (ro_pattern ro) (λ _, ro_relations ro)
                         (object_of cfg (ro_object ro) r) (rq_authorization r) a in
      (a, match out with
          | inl f => ([], Refuse f)
          | inr g => handle (mkCall (cl_user g) (cl_holder g) (PathValue r "t")) r (ro_handler ro)
          end)
  end.
End Server.

(** ** Where a request reads

    The operator's path is the route's own, with the values of the request escaped in
    their places; a cluster's path without the cluster. *)
Definition fill (r : request) (segment : string) : string :=
  match cut_prefix segment "{" with
  | Some name => PathEscape (PathValue r (trim_suffix name "}"))
  | None => segment
  end.
Definition target (ro : route) : list string :=
  let segments := split (trim_prefix (ro_pattern ro) "GET ") "/" in
  match ro_object ro with
  | tenantObject => segments
  | clusterObject => take 2 segments ++ drop 4 segments
  end.

Lemma fill_clean r segment : contains_byte segment "/" = false → contains_byte (fill r segment) "/" = false.
Proof. unfold fill. intros Hs. destruct (cut_prefix segment "{"); [apply escape_no_slash|done]. Qed.

Lemma target_clean ro : Forall (λ p, contains_byte p "/" = false) (target ro).
Proof.
  unfold target. pose proof (split_clean (trim_prefix (ro_pattern ro) "GET ") "/") as Hc.
  destruct (ro_object ro); [done|]. apply Forall_app. split; [by apply Forall_take|by apply Forall_drop].
Qed.

Section Reads.
Context `{Operator} (check : checker) (cfg : Config).

Lemma relayed_reads r path allowed : (relayed r path allowed).1.*1 = [path].
Proof. done. Qed.

(** One route at a time: the string the handler builds is the joined segments. *)
Lemma handle_reads c r ro rd : ro ∈ New cfg → ca_tenant c = PathValue r "t" →
  rd ∈ (handle check cfg c r (ro_handler ro)).1 → rd.1 = join (fill r <$> target ro) "/".
Proof.
  intros Hro Ht. unfold New, stateRoutes in Hro. apply elem_of_cons in Hro as [->|Hro].
  { cbn. intros Hr. by apply not_elem_of_nil in Hr. }
  destruct (us_lifecycle cfg); [|by apply not_elem_of_nil in Hro].
  apply elem_of_app in Hro as [Hro|Hro].
  - repeat (apply elem_of_cons in Hro as [->|Hro]); [..|by apply not_elem_of_nil in Hro].
    all: cbn [guarded guardedAny ro_handler handle]; unfold serveExtensions, servePlans, plans_path, extensionPath, tenantPath; rewrite ?Ht.
    all: try (destruct (_ || _); [intros Hr; by apply not_elem_of_nil in Hr|]).
    all: cbn [relayed fst]; intros ->%list_elem_of_singleton; cbn [fst].
    all: cbn -[PathValue PathEscape]; rewrite ?app_empty_r, ?app_assoc_str; reflexivity.
  - destruct (bool_decide (us_cluster cfg = "")); [by apply not_elem_of_nil in Hro|].
    repeat (apply elem_of_cons in Hro as [->|Hro]); [..|by apply not_elem_of_nil in Hro].
    all: cbn [guarded guardedAny ro_handler handle]; unfold serveExtensions, serveResources, extensionPath.
    all: try (destruct (_ || _); [intros Hr; by apply not_elem_of_nil in Hr|]).
    all: cbn [relayed fst]; intros ->%list_elem_of_singleton; cbn [fst].
    all: cbn -[PathValue PathEscape]; reflexivity.
Qed.

(** A path parameter is one segment of the path, whatever it holds. *)
Lemma handle_reads_split c r ro rd : ro ∈ New cfg → ca_tenant c = PathValue r "t" →
  rd ∈ (handle check cfg c r (ro_handler ro)).1 → split rd.1 "/" = fill r <$> target ro.
Proof.
  intros Hro Ht ->%handle_reads; [|done|done]. apply split_join.
  - pose proof (split_nonempty (trim_prefix (ro_pattern ro) "GET ") "/") as Hne. unfold target.
    destruct (split _ _) as [|x l]; [done|]. destruct (ro_object ro); [done|]. by destruct l.
  - apply Forall_fmap, (Forall_impl _ _ _ (target_clean ro)). intros x. apply fill_clean.
Qed.

(** The operator refusing the usher's token is not passed on as such. *)
Lemma Get_not_401 path query status body : Get path query = Ok (status, body) → status ≠ 401.
Proof.
  unfold Get. rewrite bind_Ok. intros ([st b] & _ & Hr). unfold refusedByOperator in Hr.
  destruct (bool_decide (st = 401)) eqn:E; cbn in Hr; injection Hr as <- _; [done|]. by apply bool_decide_eq_false in E.
Qed.

Definition status_of (ans : answer) : Z :=
  match ans with
  | NotFound => 404
  | Alive => 204
  | Refuse f => rf_code f
  | Fail code _ => code
  | Relayed status _ => status
  | Tiles _ _ _ | PlansOf _ _ | Resources _ _ _ => 200
  end.

Lemma relayed_status r path allowed : status_of (relayed r path allowed).2 ≠ 401.
Proof.
  unfold relayed. cbn [snd]. destruct (Get path _) as [[status body]|e] eqn:E; [by apply Get_not_401 in E|done].
Qed.

Lemma handle_status c r h : status_of (handle check cfg c r h).2 ≠ 401.
Proof.
  destruct h; cbn [handle]; try apply relayed_status.
  - unfold serveTiles. cbn [snd]. destruct (Parse _) as [cat|]; [|done]. by destruct (tiles_for check c _).
  - unfold serveExtensions. destruct (extensionPath _ _); [apply relayed_status|done].
  - unfold serveExtensions. destruct (extensionPath _ _); [apply relayed_status|done].
  - unfold servePlans, Plans. cbn [snd]. destruct (Get _ _) as [[status body]|e] eqn:E; [|done]. apply Get_not_401 in E.
    destruct (bool_decide (status = 200)); [by destruct (op_plans body)|done].
  - unfold serveResources. cbn [snd]. destruct (Get _ _) as [[status body]|e] eqn:E; [|done]. apply Get_not_401 in E.
    destruct (bool_decide (status = 200)); [by destruct (op_tenants body) as [[]|]|done].
Qed.
End Reads.

(** ** Lemmas on the answers *)

Section Answers.
Context `{Operator} (check : checker) (cfg : Config).

Lemma holds_any_Ok c object relations b : holds_any check c object relations = Ok b →
  b = true ↔ ∃ rel, rel ∈ relations ∧ CheckAs check (ca_user c) (ca_holder c) rel object = Ok true.
Proof.
  induction relations as [|rel rest IH]; cbn.
  { intros [= <-]. split; [done|]. by intros (? & ?%not_elem_of_nil & _). }
  rewrite bind_Ok. intros (ok & Hc & Hr). destruct ok.
  - injection Hr as <-. split; [|done]. intros _. exists rel. split; [left|done].
  - rewrite IH by done. split; intros (x & Hx & Hcx); exists x; (split; [|done]).
    + by right.
    + apply elem_of_cons in Hx as [->|Hx]; [congruence|done].
Qed.

(** The tiles of one's own tenant, and the kernel's own. *)
Definition of_tenant (object tenant : string) : Prop :=
  object = "tenant:" +:+ tenant ∨ (∃ app, object = "app:" +:+ tenant +:+ "/" +:+ app) ∨ ∃ c, object = "cluster:" +:+ c.

Lemma inTenant_iff object tenant : inTenant object tenant = true ↔ of_tenant object tenant.
Proof.
  unfold inTenant, of_tenant. destruct (has_prefix object "tenant:") eqn:Ht.
  { apply has_prefix_spec in Ht as [x ->]. rewrite bool_decide_eq_true. split; [by left|].
    intros [Hx|[[app Hx]|[c Hx]]]; [done|discriminate Hx|discriminate Hx]. }
  assert (object ≠ "tenant:" +:+ tenant) as Hnt. { intros ->. by rewrite has_prefix_app in Ht. }
  destruct (has_prefix object "app:") eqn:Ha.
  { apply has_prefix_spec in Ha as [x ->]. rewrite has_prefix_spec. split.
    - intros [app Hx]. right. left. exists app. rewrite Hx. by rewrite !app_assoc_str.
    - intros [Hx|[[app Hx]|[c Hx]]]; [done| |discriminate Hx]. exists app. rewrite Hx. by rewrite !app_assoc_str. }
  rewrite has_prefix_spec. split; [by right; right|]. intros [Hx|[[app ->]|Hx]]; [done| |done].
  by rewrite has_prefix_app in Ha.
Qed.

(** A tile this caller may open on this tenant's desktop. *)
Definition opens (c : call) (t : Tile) : Prop :=
  of_tenant (ti_object t) (ca_tenant c)
  ∧ ∃ rel, rel ∈ ti_any_of t ∧ CheckAs check (ca_user c) (ca_holder c) rel (ti_object t) = Ok true.

Lemma tiles_for_Ok c tiles out : tiles_for check c tiles = Ok out →
  sublist out (tile_out <$> tiles) ∧ ∀ o, o ∈ out ↔ ∃ t, t ∈ tiles ∧ opens c t ∧ o = tile_out t.
Proof.
  revert out. induction tiles as [|t tiles IH]; intros out; cbn.
  { intros [= <-]. split; [constructor|]. intros o. split; [by intros ?%not_elem_of_nil|]. by intros (? & ?%not_elem_of_nil & _). }
  destruct (inTenant (ti_object t) (ca_tenant c)) eqn:Ei; cbn.
  - rewrite bind_Ok. intros (ok & Hok%holds_any_Ok & Hr). revert Hr. rewrite bind_Ok. intros (rest & Hrest & Hout).
    destruct (IH _ Hrest) as [Hsub Hall]. apply inTenant_iff in Ei. destruct ok; injection Hout as <-.
    + split; [by apply sublist_skip|]. intros o. rewrite elem_of_cons, Hall. split.
      * intros [->|(t' & Ht' & Ho & ->)]; [exists t; split; [left|split; [split; [done|by apply Hok]|done]]|].
        exists t'. split; [by right|done].
      * intros (t' & [->|Ht']%elem_of_cons & Ho & ->); [by left|right; eauto].
    + split; [by apply sublist_cons|]. intros o. rewrite Hall. split.
      * intros (t' & Ht' & Ho & ->). exists t'. split; [by right|done].
      * intros (t' & [->|Ht']%elem_of_cons & Ho & ->); [|eauto]. destruct Ho as [_ Hh]. by apply Hok in Hh.
  - intros Hrest. destruct (IH _ Hrest) as [Hsub Hall]. split; [by apply sublist_cons|]. intros o. rewrite Hall. split.
    + intros (t' & Ht' & Ho & ->). exists t'. split; [by right|done].
    + intros (t' & [->|Ht']%elem_of_cons & Ho & ->); [|eauto]. destruct Ho as [Ho _]. apply inTenant_iff in Ho. congruence.
Qed.

Lemma holds_any_answered c object relations : (∀ user rel object, ∃ b, check user rel object = Ok b) →
  ∃ b, holds_any check c object relations = Ok b.
Proof.
  intros Hans. induction relations as [|rel rest IH]; [by exists false|]. cbn. unfold CheckAs.
  destruct (Hans (ca_user c) rel object) as [b ->]. cbn. destruct (b || _) eqn:E; cbn.
  - destruct b; [by exists true|done].
  - destruct (Hans (ca_holder c) rel object) as [b' ->]. cbn. destruct b'; [by exists true|done].
Qed.

Lemma tiles_for_answered c tiles : (∀ user rel object, ∃ b, check user rel object = Ok b) → ∃ out, tiles_for check c tiles = Ok out.
Proof.
  intros Hans. induction tiles as [|t tiles [out IH]]; [by exists []|]. cbn. destruct (inTenant _ _); cbn; [|by exists out].
  destruct (holds_any_answered c (ti_object t) (ti_any_of t) Hans) as [b ->]. cbn. rewrite IH. cbn. by eexists.
Qed.

Lemma ServeHTTP_cases {A} (from_request : string → A → A * result Identity) r a a' reads ans :
  ServeHTTP check cfg from_request r a = (a', (reads, ans)) →
  (reads = [] ∧ (ans = NotFound ∨ ans = Alive))
  ∨ ∃ ro, ro ∈ New cfg ∧ ro_pattern ro = rq_pattern r
    ∧ let out := Authorize from_request check gate (ro_pattern ro) (λ _, ro_relations ro)
                   (object_of cfg (ro_object ro) r) (rq_authorization r) a in
      a' = out.1
      ∧ ((∃ f, out.2 = inl f ∧ reads = [] ∧ ans = Refuse f)
         ∨ ∃ g, out.2 = inr g
             ∧ handle check cfg (mkCall (cl_user g) (cl_holder g) (PathValue r "t")) r (ro_handler ro) = (reads, ans)).
Proof.
  unfold ServeHTTP. case_bool_decide; [intros [= _ <- <-]; left; by split; [|right]|].
  destruct (list_find _ _) as [[i ro]|] eqn:Ef; [|intros [= _ <- <-]; left; by split; [|left]].
  apply list_find_Some in Ef as (Hi & Hp & _). intros Hs. right. exists ro.
  split; [by eapply list_elem_of_lookup_2|]. split; [done|]. cbv zeta.
  destruct (Authorize _ _ _ _ _ _ _ _) as [a1 [f|g]] eqn:Ea; cbn -[handle] in Hs.
  - injection Hs as <- <- <-. split; [done|]. left. by exists f.
  - injection Hs as <- Hs. split; [done|]. right. by exists g.
Qed.
End Answers.

(** Every tenant's route is about the tenant in its path, whose segment comes third. *)
Lemma tenant_target cfg ro : ro ∈ New cfg → ro_object ro = tenantObject →
  ∃ rest, target ro = "" :: "v1" :: "tenants" :: "{t}" :: rest.
Proof.
  unfold New, stateRoutes. intros [->|Hro]%elem_of_cons Ho; [unfold target; cbn; eexists; reflexivity|].
  destruct (us_lifecycle cfg); [|by apply not_elem_of_nil in Hro]. apply elem_of_app in Hro as [Hro|Hro].
  - repeat (apply elem_of_cons in Hro as [->|Hro]; [unfold target; cbn; eexists; reflexivity|]). by apply not_elem_of_nil in Hro.
  - destruct (bool_decide (us_cluster cfg = "")); [by apply not_elem_of_nil in Hro|].
    repeat (apply elem_of_cons in Hro as [->|Hro]; [discriminate Ho|]). by apply not_elem_of_nil in Hro.
Qed.

Lemma tenant_name_plain t : ValidTenantName t = true → PathEscape t = t.
Proof.
  unfold ValidTenantName, dns_label. rewrite !andb_true_iff. intros [[[[Hf _] _] _] _]. apply escape_plain.
  revert Hf. apply str_forallb_weaken. intros c. unfold segment_byte, is_alnum. rewrite !orb_true_iff.
  intros [Hc|Hc]; [by left; left|]. right. apply Ascii.eqb_eq in Hc as ->. reflexivity.
Qed.

(** ** Properties *)

(** C8: The usher tells only those who may be told, and only of what they asked.  When
    a request leads to anything but a refusal -- the operator is asked, or something is
    answered, the probe apart -- then its route is registered; the token it carries is vouched for by its
    realm for this service, and reaches the route; the person it names holds one of the
    route's relations, themselves or as a role holder, on the tenant in the path or on
    this cluster; and every path the operator is asked for is the route's own with the
    request's values escaped in their segments, under that very tenant for a tenant's
    route. *)
Theorem usher_tells_the_entitled `{JoseLaws} `{Operator} (check : checker) (cfg : Config) (P : string → keyset → Z → Prop)
    (jose : Authn.Config) (fetch : string → result keyset) (now : Z) (ks ks' : gmap string realmKeys) (r : request)
    (reads : list read) (ans : answer) :
  keys_from P ks → (∀ realm set, fetch realm = Ok set → P realm set now) →
  ServeHTTP check cfg (λ h ks, FromRequest jose fetch now ks h) r ks = (ks', (reads, ans)) →
  reads ≠ [] ∨ (ans ≠ NotFound ∧ ans ≠ Alive ∧ ∀ f, ans ≠ Refuse f) →
  ∃ ro id user rel,
    ro ∈ New cfg ∧ ro_pattern ro = rq_pattern r
    ∧ vouched P jose now (trim_space (drop_str 7 (rq_authorization r))) (cf_audience jose) "Bearer" id
    ∧ MayCall id (rq_pattern r) = true ∧ User (id_subject id) = Ok user ∧ rel ∈ ro_relations ro
    ∧ CheckAs check user (holder_of id) rel
        (match ro_object ro with
         | tenantObject => "tenant:" +:+ PathValue r "t"
         | clusterObject => "cluster:" +:+ us_cluster cfg
         end) = Ok true
    ∧ (∀ rd, rd ∈ reads → split rd.1 "/" = fill r <$> target ro)
    ∧ (ro_object ro = tenantObject → ∀ rd, rd ∈ reads →
        ∃ rest, split rd.1 "/" = "" :: "v1" :: "tenants" :: PathValue r "t" :: rest).
Proof.
  intros Hks Hfetch Hs Htell. apply ServeHTTP_cases in Hs as [[-> Ha]|(ro & Hro & Hpat & _ & [(f & _ & -> & ->)|(g & Hg & Hh)])].
  { destruct Htell as [?|(? & ? & _)]; [done|by destruct Ha]. }
  { destruct Htell as [?|(_ & _ & Hn)]; [done|by destruct (Hn f)]. }
  apply Authorize_inr in Hg as (id & user & obj & pre & rel & post & Hid & Hu & Hmay & Ho & Hrel & _ & Hc & ->).
  cbn in Hid. unfold FromRequest in Hid. destruct (_ || _); [done|].
  destruct (verify_vouched P jose fetch now ks _ _ _ id Hks Hfetch Hid) as [_ Hv].
  assert (∀ rd, rd ∈ reads → split rd.1 "/" = fill r <$> target ro) as Hreads.
  { intros rd Hrd. eapply (handle_reads_split check cfg); [done| |by rewrite Hh]. done. }
  exists ro, id, user, rel. split_and!; [done|done|done|by rewrite <-Hpat; apply Hmay|done| | |done|].
  - cbn in Hrel. rewrite Hrel. apply elem_of_app. right. left.
  - unfold object_of in Ho. destruct (ro_object ro).
    + destruct (ValidTenantName _); cbn in Ho; [by injection Ho as <-|done].
    + destruct (_ || _); [done|]. by injection Ho as <-.
  - intros Hto rd Hrd. destruct (tenant_target cfg ro Hro Hto) as [rest Ht]. rewrite (Hreads rd Hrd), Ht.
    exists (fill r <$> rest). cbn. unfold object_of in Ho. rewrite Hto in Ho.
    destruct (ValidTenantName (PathValue r "t")) eqn:Ev; [|done]. by rewrite (tenant_name_plain _ Ev).
Qed.

(** A person is shown exactly the tiles they may open on the tenant's desktop, in
    the catalogue's order: those the operator projected whole, about the tenant itself,
    one of its apps or the cluster, with a relation the store says the person holds,
    themselves or as a role holder.  No tile about another tenant or its apps.  And
    they are shown them whenever the catalogue can be read and the store answers. *)
Theorem tiles_exact `{Operator} (check : checker) (cfg : Config) (c : call) (r : request) (catalogue : Catalogue) :
  us_tiles cfg = Ok catalogue → (∀ user rel object, ∃ b, check user rel object = Ok b) →
  ∃ out, (handle check cfg c r tenantTiles).2 = Tiles (ca_tenant c) out (appStore cfg (ct_app_store catalogue))
    ∧ sublist out (tile_out <$> ct_tiles catalogue)
    ∧ ∀ o, o ∈ out ↔ ∃ t, t ∈ ct_tiles catalogue ∧ o = tile_out t
        ∧ ti_name t ≠ "" ∧ ti_url t ≠ ""
        ∧ (ti_object t = "tenant:" +:+ ca_tenant c ∨ (∃ app, ti_object t = "app:" +:+ ca_tenant c +:+ "/" +:+ app)
           ∨ ∃ cl, ti_object t = "cluster:" +:+ cl)
        ∧ ∃ rel, rel ∈ ti_any_of t ∧ CheckAs check (ca_user c) (ca_holder c) rel (ti_object t) = Ok true.
Proof.
  intros Hcat Hans. cbn [handle snd]. unfold serveTiles, Parse. rewrite Hcat. cbn.
  destruct (tiles_for_answered check c (filter (λ t, complete t = true) (ct_tiles catalogue)) Hans) as [out E].
  rewrite E. exists out. apply tiles_for_Ok in E as [Hsub Hall]. split_and!; [done| |].
  - etransitivity; [done|]. apply fmap_sublist, sublist_filter.
  - intros o. rewrite Hall. split.
    + intros (t & [Hc Ht]%list_elem_of_filter & [Ho Hh] & ->). exists t. unfold complete in Hc.
      rewrite negb_true_iff, !orb_false_iff, !bool_decide_eq_false in Hc. by destruct Hc as [[[? ?] _] _].
    + intros (t & Ht & -> & Hn & Hu & Ho & Hh). exists t. split_and!; [|by split|done]. apply list_elem_of_filter. split; [|done].
      unfold complete. rewrite !bool_decide_eq_false_2; [done|destruct Hh as (rel & Hrel & _); by intros E; rewrite E in Hrel; apply not_elem_of_nil in Hrel| |done|done].
      by destruct Ho as [->|[[app ->]|[cl ->]]].
Qed.

(** The usher answers 401, which a console takes for an expired session, exactly when
    the caller's own token names nobody: never because the operator refused the
    usher's. *)
Theorem refused_session_is_the_callers `{Operator} {A} (check : checker) (cfg : Config)
    (from_request : string → A → A * result Identity) (r : request) (a a' : A) (reads : list read) (ans : answer) :
  ServeHTTP check cfg from_request r a = (a', (reads, ans)) → ans ≠ NotFound → ans ≠ Alive →
  status_of ans = 401 ↔
  ∀ ident user, ¬ ((from_request (rq_authorization r) a).2 = Ok ident ∧ User (id_subject ident) = Ok user).
Proof.
  intros Hs Hnf Hal. apply ServeHTTP_cases in Hs as [[_ Ha]|(ro & _ & _ & _ & [(f & Hf & _ & ->)|(g & Hg & Hh)])]; [by destruct Ha| |].
  - cbn. apply Authorize_inl in Hf as [[Hc Hn]|(i & u & Hi & Hu & Hf)]; [by split|].
    split; [|intros Hn; by destruct (Hn i u)]. intros H401. exfalso.
    destruct Hf as [(Hc & _)|[(Hc & _)|(t & _ & [(Hc & _)|(Hc & _)])]]; by rewrite Hc in H401.
  - apply Authorize_inr in Hg as (id & user & _ & _ & _ & _ & Hid & Hu & _).
    split; [|intros Hn; by destruct (Hn id user)]. intros H401. exfalso.
    destruct (handle_status check cfg (mkCall (cl_user g) (cl_holder g) (PathValue r "t")) r (ro_handler ro)). by rewrite Hh.
Qed.

(** ** A desktop

    Somebody of acme who may view it and use its wiki. *)
#[local] Existing Instance ToyJose.toy_jose.
#[local] Existing Instance ToyJose.toy_jose_laws.
Module UsherExample.
Definition check : checker := λ user rel object,
  Ok (bool_decide ((user, rel, object) ∈ [
    ("user:sub1", "can_enter", "tenant:acme"); ("user:sub1", "can_view", "tenant:acme");
    ("user:sub1", "can_use", "app:acme/wiki"); ("user:sub1", "can_use", "app:other/wiki")])).
Definition tile (name object : string) : Tile := mkTile name name ∅ "" "" ("https://" +:+ name) object ["can_use"] false.
Definition usher : Config :=
  mkUsher "k" true (Ok (mkCatalogue [tile "wiki" "app:acme/wiki"; tile "theirs" "app:other/wiki"; tile "mail" "app:acme/mail"] None)) true.
#[global] Instance operator : Operator := {|
  op_answer path query := if bool_decide (path = "/v1/tenants/acme/backups/..%2Fother") then Ok (401, "no") else Ok (200, path);
  op_detail body := None; op_plans body := Ok []; op_tenants body := Ok ([], []) |}.
Definition backup : request :=
  mkRequest "GET /v1/tenants/{t}/backups/{name}" {[ "t" := "acme"; "name" := "../other" ]} ∅ "Bearer raw".
Definition anonymous : request := mkRequest "GET /v1/tenants/{t}/backups" {[ "t" := "acme" ]} ∅ "".
Definition published (realm : string) (set : keyset) (t : Z) : Prop := realm = "acme" ∧ set = ToyJose.published ∧ t = 1020.
Definition serve (r : request) : gmap string realmKeys * (list read * answer) :=
  ServeHTTP check usher (λ h ks, FromRequest ToyJose.cfg ToyJose.fetch 1020 ks h) r ∅.
Definition me : call := mkCall "user:sub1" "" "acme".
End UsherExample.
Import UsherExample.

Lemma usher_tells_the_entitled_witness :
  (serve backup).2.1 = [("/v1/tenants/acme/backups/..%2Fother", ∅)]
  ∧ ∃ ro rest, ro ∈ New usher ∧ ro_pattern ro = rq_pattern backup
    ∧ split "/v1/tenants/acme/backups/..%2Fother" "/" = "" :: "v1" :: "tenants" :: "acme" :: rest.
Proof.
  assert (serve backup = ((serve backup).1, ([("/v1/tenants/acme/backups/..%2Fother", ∅)], (serve backup).2.2))) as E
    by (vm_compute; reflexivity).
  split; [rewrite E; reflexivity|].
  destruct (usher_tells_the_entitled check usher published ToyJose.cfg ToyJose.fetch 1020 ∅ (serve backup).1 backup
    [("/v1/tenants/acme/backups/..%2Fother", ∅)] (serve backup).2.2) as (ro & id & user & rel & Hro & Hp & _ & _ & _ & _ & _ & Hsplit & _).
  - intros realm rk Hrk. by rewrite lookup_empty in Hrk.
  - unfold ToyJose.fetch. intros realm set. case_bool_decide as Hr; [|discriminate]. intros [= <-].
    split; [exact Hr|split; reflexivity].
  - exact E.
  - left. discriminate.
  - exists ro. eexists. split; [exact Hro|]. split; [exact Hp|]. vm_compute. reflexivity.
Defined.

Lemma tiles_exact_witness :
  ∃ out, (handle check usher me backup tenantTiles).2 = Tiles "acme" out (mkStoreOut false AppStoreReasonNoStore)
    ∧ to_name <$> out = ["wiki"].
Proof.
  destruct (tiles_exact check usher me backup
    (mkCatalogue [tile "wiki" "app:acme/wiki"; tile "theirs" "app:other/wiki"; tile "mail" "app:acme/mail"] None)) as (out & Hout & _).
  - vm_compute. reflexivity.
  - intros user rel object. unfold check. eexists. reflexivity.
  - exists out. split; [exact Hout|]. vm_compute in Hout. injection Hout as <-. vm_compute. reflexivity.
Defined.

(** The operator's 401 reaches the caller as 502, and no credential as 401. *)
Lemma refused_session_is_the_callers_witness :
  status_of (serve backup).2.2 = 502
  ∧ (status_of (serve anonymous).2.2 = 401 ↔ ∀ ident user,
       ¬ ((FromRequest ToyJose.cfg ToyJose.fetch 1020 ∅ (rq_authorization anonymous)).2 = Ok ident
          ∧ User (id_subject ident) = Ok user)).
Proof.
  split; [vm_compute; reflexivity|].
  apply (refused_session_is_the_callers check usher (λ h ks, FromRequest ToyJose.cfg ToyJose.fetch 1020 ks h) anonymous ∅
    (serve anonymous).1 (serve anonymous).2.1 (serve anonymous).2.2).
  - unfold serve. destruct (ServeHTTP _ _ _ _ _) as [? [? ?]]. reflexivity.
  - vm_compute. discriminate.
  - vm_compute. discriminate.
Defined.
