(* ===== verification/RegistrarGuard.v ===== *)
(** * The registrar's one way into Keycloak ([internal/registrar/identity])

    Every write the registrar makes in a realm leaves through [do_at], and [guard] stands
    there: it reads the request's path and body, asks which groups hold a platform role and
    who holds one by name, and refuses what would change either ([guard.go]).  A realm is
    reached only with its own credential ([identity.go]).

    Keycloak's admin API is the parameter [Keycloak]; [KeycloakLaws] says what it documents
    of the requests this package makes: which of a realm's people, groups, memberships and
    links each of them touches.

    [do_at_keeps]: whatever write of the package is asked for, whoever holds a platform role
    still holds it, nobody else does, and their accounts and links are as they were, and no
    other realm changes.  [RegistrarHolders] takes it to the operations. *)

From S2P Require Import Prelude.
From S2P Require Import GoStrings.
From S2P Require Import GoUrl.
From S2P Require Import GoJson.

(** ** Keycloak *)

Record request := mkRequest { rq_method : string; rq_rel : string; rq_query : list (string * string); rq_body : option json }.
Record response := mkResponse { rs_status : Z; rs_location : string; rs_body : payload }.

(** A call is answered, or fails on the way; one that failed may have been carried out. *)
Class Keycloak (K : Type) := kc_do : K → request → K * result response.

(** ** The client *)

Definition ErrNoCredential : error := Sentinel "no Keycloak credential for this realm".
Definition ErrNotFound : error := Sentinel "not found in the realm".
Definition ErrConflict : error := Sentinel "already exists in the realm".
Definition ErrProtected : error := Sentinel "the holders of the platform's roles are not managed here".
Definition ErrGuardUnavailable : error := Sentinel "the platform role groups could not be determined".
Definition ErrUnguarded : error := Sentinel "a write the registrar has no rule for".

Record Realm := mkRealm { re_name : string; re_prefix : string }.

(** The realms there is a credential for, and the readings of the Cluster claim. *)
Record Client (K : Type) := mkClient {
  cl_source : gset string; cl_roles : option (K → result (list string)); cl_holders : option (K → result (list string)) }.
Arguments mkClient {_} _ _ _.
Arguments cl_source {_} _.
Arguments cl_roles {_} _.
Arguments cl_holders {_} _.

Definition client_realm {K} (c : Client K) (name : string) : result Realm :=
  if bool_decide (name = "") || contains_any name "/?#" then Err (Wrapf "%w: %q" [name] ErrNoCredential)
  else if negb (bool_decide (name ∈ cl_source c)) then Err (Wrapf "%w: %q" [name] ErrNoCredential)
  else Ok (mkRealm name "").

Definition admin (realm path : string) : string := "/admin/realms/" +:+ PathEscape realm +:+ path.

(** [statusError]; what Keycloak says in the body is not part of the error here. *)
Definition statusError (status : Z) (method path : string) : result unit :=
  if bool_decide (200 ≤ status < 300)%Z then Ok tt
  else if bool_decide (status = 404%Z) then Err (Wrapf "%w: %s %s" [method; path] ErrNotFound)
  else if bool_decide (status = 409%Z) then Err (Wrapf "%w: %s %s" [method; path] ErrConflict)
  else Err (Errorf "keycloak %s %s: HTTP %d: %s" [method; path]).

(** ** What a write would change *)

Record change := mkChange { ch_user : string; ch_group : string; ch_membership : bool; ch_vouching : bool }.
Definition vouchingAliasPrefix : string := "vouch-".
Definition unescape (s : string) : string := default s (PathUnescape s).
Definition activation_prefix (realm : string) : string := "/realms/" +:+ PathEscape realm +:+ "/gentian-activation/users/".

Definition classify_users (rest : list string) : change :=
  match rest with
  | [] => mkChange "" "" false false
  | [u; what; x] =>
      if bool_decide (what = "groups") then mkChange (unescape u) (unescape x) true false
      else if bool_decide (what = "federated-identity") && has_prefix (unescape x) vouchingAliasPrefix
      then mkChange (unescape u) "" false true
      else mkChange (unescape u) "" false false
  | u :: _ => mkChange (unescape u) "" false false
  end.

Definition classify (realm rel : string) : option change :=
  if has_prefix rel (activation_prefix realm) then
    match split (trim_prefix rel (activation_prefix realm)) "/" with
    | [u; link] => if negb (bool_decide (u = "")) && bool_decide (link = "link") then Some (mkChange (unescape u) "" false false) else None
    | _ => None
    end
  else if negb (has_prefix rel (admin realm "/")) then None
  else
    let seg := split (trim_prefix rel (admin realm "/")) "/" in
    if existsb (λ s, bool_decide (s = "")) seg then None
    else match seg with
         | kind :: rest =>
             if bool_decide (kind = "users") then Some (classify_users rest)
             else if bool_decide (kind = "groups") then
               Some (mkChange "" (match rest with [] => "" | g :: _ => unescape g end) false false)
             else None
         | [] => None
         end.

(** The role group a path is, or is beneath. *)
Definition beneath (names : list string) (path : string) : option string :=
  let path := trim_prefix path "/" in
  snd <$> list_find (λ name, bool_decide (path = name) || has_prefix path (name +:+ "/") = true) names.

Definition namedIn (body : option json) : result (string * list string) :=
  match body with
  | Some (JObj m) => name ← as_string (member m "name"); groups ← as_list as_string (member m "groups"); Ok (name, groups)
  | _ => Ok ("", [])
  end.

Record groupRep := mkGroupRep { gp_id : string; gp_name : string; gp_path : string; gp_attributes : gmap string (list string) }.
Definition as_attributes (v : json) : result (gmap string (list string)) :=
  m ← as_object v;
  map_fold (λ k v acc, acc ← acc; l ← as_list as_string v; Ok (<[k := l]> acc)) (Ok ∅) m.
Definition group_of (v : json) : result groupRep :=
  m ← as_object v; id ← as_string (member m "id"); name ← as_string (member m "name"); path ← as_string (member m "path");
  attributes ← as_attributes (member m "attributes"); Ok (mkGroupRep id name path attributes).

(** An answer with no body leaves the zero value. *)
Definition decoded {A} (f : json → result A) (p : payload) : result A :=
  match p with Empty => f JNull | Unreadable => Err errUnmarshal | Decoded v => f v end.

Section Client.
Context {K : Type} `{Keycloak K} (c : Client K).
Local Open Scope act_scope.

(** The call itself; getting a token for it is part of it, and fails when it does. *)
Definition send (r : Realm) (method rel label : string) (query : list (string * string)) (body : option json) : act K response :=
  if negb (bool_decide (re_name r ∈ cl_source c)) then fail (Wrapf "%w: %q" [re_name r] ErrNoCredential)
  else act_wrap "keycloak %s %s: %w" [method; label] (λ k, kc_do k (mkRequest method rel query body)).

(** [call] for a read, which no rule is applied to. *)
Definition fetch {A} (r : Realm) (path : string) (query : list (string * string)) (f : json → result A) : act K A :=
  resp ⇐ send r "GET" (admin (re_name r) path) path query None;
  of_result (statusError (rs_status resp) "GET" path) ;;
  of_result (decoded f (rs_body resp)).

Definition roleGroups : act K (string → option string) := λ k,
  match cl_roles c with
  | None => (k, Err ErrGuardUnavailable)
  | Some roles =>
      match roles k with
      | Err _ => (k, Err (Wrapf "%w: %v" [] ErrGuardUnavailable))
      | Ok answered =>
          let protected := filter (λ name, name ≠ "") ((λ name, trim_prefix (trim_space name) "/") <$> answered) in
          (k, if bool_decide (protected = []) then Err ErrGuardUnavailable else Ok (beneath protected))
      end
  end.

Definition refuse_named (w : change) (name : string) (groups : list string) (which : string → option string) : result unit :=
  match which name with
  | Some held => if bool_decide (ch_user w = "") then Err (Wrapf "%w: a group may not be given the name %q" [held] ErrProtected) else Ok tt
  | None => Ok tt
  end ≫= λ _,
  match omap which groups with
  | held :: _ => Err (Wrapf "%w: nobody is added to %q from here" [held] ErrProtected)
  | [] => Ok tt
  end.

Definition refuse_group (r : Realm) (w : change) (which : string → option string) : act K unit :=
  if bool_decide (ch_group w = "") then ret tt
  else
    g ⇐ fetch r ("/groups/" +:+ PathEscape (ch_group w)) [] group_of;
    of_result
      match which (if bool_decide (gp_path g = "") then gp_name g else gp_path g) with
      | Some held => Err (Wrapf (if ch_membership w then "%w: membership of %q is not changed from here" else "%w: the group %q is not changed from here") [held] ErrProtected)
      | None => Ok tt
      end.

Definition refuse_person (r : Realm) (w : change) (which : string → option string) : act K unit :=
  if bool_decide (ch_user w = "") || ch_membership w then ret tt
  else
    groups ⇐ fetch r ("/users/" +:+ PathEscape (ch_user w) +:+ "/groups") [] (as_list group_of);
    of_result
      match omap (λ g, which (gp_path g)) groups with
      | held :: _ => Err (Wrapf "%w: this person is in %q" [held] ErrProtected)
      | [] => Ok tt
      end.

Definition refuse (r : Realm) (w : change) (named : string * list string) (which : string → option string) : act K unit :=
  of_result (refuse_named w named.1 named.2 which) ;; refuse_group r w which ;; refuse_person r w which.

Definition refuseHolder (w : change) : act K unit := λ k,
  if bool_decide (ch_user w = "") || ch_membership w then (k, Ok tt)
  else match cl_holders c with
       | None => (k, Ok tt)
       | Some holders =>
           match holders k with
           | Err _ => (k, Err (Wrapf "%w: %v" [] ErrGuardUnavailable))
           | Ok subjects =>
               (k, if bool_decide (ch_user w ∈ subjects) then Err (Wrapf "%w: this person holds a cluster role by name" [] ErrProtected) else Ok tt)
           end
       end.

Definition guard (r : Realm) (method rel : string) (body : option json) : act K unit :=
  match classify (re_name r) rel with
  | None => fail (Wrapf "%w: %s %s" [method; rel] ErrUnguarded)
  | Some w =>
      if ch_vouching w && bool_decide (method = "DELETE") then ret tt
      else
        which ⇐ roleGroups;
        named ⇐ of_result match namedIn body with Ok n => Ok n | Err _ => Err (Wrapf "%w: %s %s: %v" [method; rel] ErrUnguarded) end;
        refuse r w named which ;; refuseHolder w
  end.

Definition do_at (r : Realm) (method rel label : string) (query : list (string * string)) (body : option json) : act K response :=
  (if bool_decide (method = "GET") then ret tt else guard r method rel body) ;; send r method rel label query body.

Definition do_ (r : Realm) (method path : string) (query : list (string * string)) (body : option json) : act K response :=
  do_at r method (admin (re_name r) path) path query body.

(** A call whose answer is not read. *)
Definition call (r : Realm) (method path : string) (query : list (string * string)) (body : option json) : act K unit :=
  resp ⇐ do_ r method path query body; of_result (statusError (rs_status resp) method path).

Definition ErrNotCustom : error := Sentinel "group is the platform's, not a custom one".
Definition notCustom {A} (path : string) : act K A :=
  which ⇐ roleGroups;
  match which path with
  | Some name => fail (Wrapf "%w: the group %q is not changed from here" [name] ErrProtected)
  | None => fail (Wrapf "%w: %q" [path] ErrNotCustom)
  end.
End Client.

(** ** What Keycloak documents of the requests *)

(** A realm: its people, its groups with their paths, who is in which, and who is linked to
    which identity provider. *)
Record realm_state (A : Type) := mkState {
  ks_people : gmap string A; ks_groups : gmap string string; ks_members : gset (string * string); ks_links : gset (string * string) }.
Arguments mkState {_} _ _ _ _.
Arguments ks_people {_} _.
Arguments ks_groups {_} _.
Arguments ks_members {_} _.
Arguments ks_links {_} _.

Definition user_path (u : string) : string := "/users/" +:+ PathEscape u.
Definition group_path (g : string) : string := "/groups/" +:+ PathEscape g.
Definition member_path (u g : string) : string := user_path u +:+ "/groups/" +:+ PathEscape g.
Definition link_path (u alias : string) : string := user_path u +:+ "/federated-identity/" +:+ PathEscape alias.
Definition activation_path (realm u : string) : string := activation_prefix realm +:+ PathEscape u +:+ "/link".

(** What is beneath a person's path besides their groups and links: their account, the
    mails with actions, one of their credentials. *)
Inductive of_account : string → Prop :=
  | account_itself : of_account ""
  | account_actions : of_account "/execute-actions-email"
  | account_credential x : x ≠ "" → of_account ("/credentials/" +:+ PathEscape x).

Definition under (p q : string) : bool := bool_decide (q = p) || has_prefix q (p +:+ "/").
(** A group's path under a new name, and where that takes what is beneath it. *)
Definition renamed (p name : string) : string := match cut_last p "/" with Some (parent, _) => parent +:+ "/" +:+ name | None => name end.
Definition moved (p p' q : string) : string :=
  if bool_decide (q = p) then p' else match cut_prefix q (p +:+ "/") with Some rest => p' +:+ "/" +:+ rest | None => q end.
Definition dropped (groups : gmap string string) (p g : string) : bool := match groups !! g with Some q => under p q | None => false end.

(** The requests, each with the states it can lead to besides the one it found. *)
Inductive writes {A} (realm : string) (body : option json) (s : realm_state A) : string → string → realm_state A → Prop :=
  | w_account method u rest a : u ≠ "" → of_account rest → is_Some (ks_people s !! u) →
      writes realm body s method (admin realm (user_path u +:+ rest)) (mkState (<[u := a]> (ks_people s)) (ks_groups s) (ks_members s) (ks_links s))
  | w_removed u : u ≠ "" → writes realm body s "DELETE" (admin realm (user_path u))
      (mkState (delete u (ks_people s)) (ks_groups s) (filter (λ x, x.1 ≠ u) (ks_members s)) (filter (λ x, x.1 ≠ u) (ks_links s)))
  | w_created id a joined name paths : namedIn body = Ok (name, paths) → ks_people s !! id = None → (∀ g, (id, g) ∉ ks_members s) →
      (∀ g, g ∈ joined → ∃ p, ks_groups s !! g = Some p ∧ p ∈ paths) →
      writes realm body s "POST" (admin realm "/users")
        (mkState (<[id := a]> (ks_people s)) (ks_groups s) (set_map (pair id) (joined : gset string) ∪ ks_members s) (ks_links s))
  | w_joined u g : u ≠ "" → g ≠ "" → writes realm body s "PUT" (admin realm (member_path u g))
      (mkState (ks_people s) (ks_groups s) ({[(u, g)]} ∪ ks_members s) (ks_links s))
  | w_left u g : u ≠ "" → g ≠ "" → writes realm body s "DELETE" (admin realm (member_path u g))
      (mkState (ks_people s) (ks_groups s) (ks_members s ∖ {[(u, g)]}) (ks_links s))
  | w_linked u alias : u ≠ "" → writes realm body s "POST" (admin realm (link_path u (vouchingAliasPrefix +:+ alias)))
      (mkState (ks_people s) (ks_groups s) (ks_members s) ({[(u, vouchingAliasPrefix +:+ alias)]} ∪ ks_links s))
  | w_unlinked u alias : u ≠ "" → writes realm body s "DELETE" (admin realm (link_path u (vouchingAliasPrefix +:+ alias)))
      (mkState (ks_people s) (ks_groups s) (ks_members s) (ks_links s ∖ {[(u, vouchingAliasPrefix +:+ alias)]}))
  | w_group id name paths : namedIn body = Ok (name, paths) → contains_byte name "/" = false → ks_groups s !! id = None → (∀ u, (u, id) ∉ ks_members s) →
      writes realm body s "POST" (admin realm "/groups")
        (mkState (ks_people s) (<[id := "/" +:+ name]> (ks_groups s)) (ks_members s) (ks_links s))
  | w_renamed g p name paths : g ≠ "" → namedIn body = Ok (name, paths) → contains_byte name "/" = false → ks_groups s !! g = Some p →
      writes realm body s "PUT" (admin realm (group_path g))
        (mkState (ks_people s) (moved p (renamed p name) <$> ks_groups s) (ks_members s) (ks_links s))
  | w_dropped g p : g ≠ "" → ks_groups s !! g = Some p →
      writes realm body s "DELETE" (admin realm (group_path g))
        (mkState (ks_people s) (filter (λ x, under p x.2 = false) (ks_groups s)) (filter (λ x, dropped (ks_groups s) p x.2 = false) (ks_members s)) (ks_links s))
  | w_activation u a : u ≠ "" → is_Some (ks_people s !! u) →
      writes realm body s "POST" (activation_path realm u) (mkState (<[u := a]> (ks_people s)) (ks_groups s) (ks_members s) (ks_links s)).

(** Those requests; a group's name has no slash in it. *)
Definition plain_named (body : option json) : Prop := ∀ name paths, namedIn body = Ok (name, paths) → contains_byte name "/" = false.
Inductive endpoint (realm : string) (body : option json) : string → string → Prop :=
  | e_account method u rest : u ≠ "" → of_account rest → method ≠ "GET" → endpoint realm body method (admin realm (user_path u +:+ rest))
  | e_users : endpoint realm body "POST" (admin realm "/users")
  | e_join u g : u ≠ "" → g ≠ "" → endpoint realm body "PUT" (admin realm (member_path u g))
  | e_leave u g : u ≠ "" → g ≠ "" → endpoint realm body "DELETE" (admin realm (member_path u g))
  | e_link u alias : u ≠ "" → endpoint realm body "POST" (admin realm (link_path u (vouchingAliasPrefix +:+ alias)))
  | e_unlink u alias : u ≠ "" → endpoint realm body "DELETE" (admin realm (link_path u (vouchingAliasPrefix +:+ alias)))
  | e_groups : plain_named body → endpoint realm body "POST" (admin realm "/groups")
  | e_group g : g ≠ "" → plain_named body → endpoint realm body "PUT" (admin realm (group_path g))
  | e_drop g : g ≠ "" → endpoint realm body "DELETE" (admin realm (group_path g))
  | e_activation u : u ≠ "" → endpoint realm body "POST" (activation_path realm u).

(** Reads change nothing; a write of the package leads to one of the states above, in its
    own realm, or is not carried out; ids and paths of groups are not empty; and what is
    read is what is there: one group, a person's groups, the list of groups, which is the
    list of those at the top.  Group names are without slashes, as the platform's are. *)
Class KeycloakLaws (K A : Type) `{Keycloak K} := {
  kc_state : K → string → realm_state A;
  kc_reads k req k' res : rq_method req = "GET" → kc_do k req = (k', res) → ∀ realm, kc_state k' realm = kc_state k realm;
  kc_writes k method rel query body k' res realm : endpoint realm body method rel →
    kc_do k (mkRequest method rel query body) = (k', res) →
    (kc_state k' realm = kc_state k realm ∨ writes realm body (kc_state k realm) method rel (kc_state k' realm))
    ∧ ∀ other, other ≠ realm → kc_state k' other = kc_state k other;
  kc_paths k realm g p : ks_groups (kc_state k realm) !! g = Some p → g ≠ "" ∧ ∃ c q, p = "/" +:+ String c q;
  kc_members_in k realm u g : (u, g) ∈ ks_members (kc_state k realm) → is_Some (ks_groups (kc_state k realm) !! g);
  kc_group k realm g query k' resp rep :
    kc_do k (mkRequest "GET" (admin realm ("/groups/" +:+ PathEscape g)) query None) = (k', Ok resp) →
    (200 ≤ rs_status resp < 300)%Z → decoded group_of (rs_body resp) = Ok rep → ks_groups (kc_state k realm) !! g = Some (gp_path rep);
  kc_groups_of k realm u query k' resp reps g p :
    kc_do k (mkRequest "GET" (admin realm ("/users/" +:+ PathEscape u +:+ "/groups")) query None) = (k', Ok resp) →
    (200 ≤ rs_status resp < 300)%Z → decoded (as_list group_of) (rs_body resp) = Ok reps →
    (u, g) ∈ ks_members (kc_state k realm) → ks_groups (kc_state k realm) !! g = Some p → ∃ rep, rep ∈ reps ∧ gp_path rep = p;
  kc_listed k realm query k' resp reps rep :
    kc_do k (mkRequest "GET" (admin realm "/groups") query None) = (k', Ok resp) →
    (200 ≤ rs_status resp < 300)%Z → decoded (as_list group_of) (rs_body resp) = Ok reps → rep ∈ reps →
    ks_groups (kc_state k realm) !! gp_id rep = Some (gp_path rep) ∧ ∃ name, gp_path rep = String "/" name ∧ contains_byte name "/" = false }.

(** ** Who holds a platform role *)

Section Holders.
Context {A : Type} (names : list string) (subjects : gset string).

Definition role_path (p : string) : Prop := is_Some (beneath names p).
Definition in_role_group (s : realm_state A) (u : string) : Prop := ∃ g p, (u, g) ∈ ks_members s ∧ ks_groups s !! g = Some p ∧ role_path p.
Definition holds_role (s : realm_state A) (u : string) : Prop := in_role_group s u ∨ u ∈ subjects.

(** The role groups are the same and have the same members; the accounts of the holders
    are what they were; no holder gained a link; and a holder lost none but links to
    components that vouch for people. *)
Record same_holders (s s' : realm_state A) : Prop := {
  sh_groups : ∀ g p, role_path p → ks_groups s' !! g = Some p ↔ ks_groups s !! g = Some p;
  sh_members : ∀ u g p, role_path p → ks_groups s !! g = Some p → (u, g) ∈ ks_members s' ↔ (u, g) ∈ ks_members s;
  sh_accounts : ∀ u a, holds_role s u → ks_people s !! u = Some a → ks_people s' !! u = Some a;
  sh_links : ∀ u alias, holds_role s u → (u, alias) ∈ ks_links s' → (u, alias) ∈ ks_links s;
  sh_sign_in : ∀ u alias, holds_role s u → has_prefix alias vouchingAliasPrefix = false → (u, alias) ∈ ks_links s → (u, alias) ∈ ks_links s' }.

Lemma same_holders_refl s : same_holders s s.
Proof. by constructor. Qed.

Lemma same_holders_in s s' u : same_holders s s' → in_role_group s' u ↔ in_role_group s u.
Proof.
  intros [Hg Hm _ _ _]. unfold in_role_group. split; intros (g & p & Hin & Hp & Hr); exists g, p.
  - apply Hg in Hp; [|done]. split_and!; [by eapply Hm|done..].
  - split_and!; [by eapply Hm|by apply Hg|done].
Qed.
Lemma same_holders_holds s s' u : same_holders s s' → holds_role s' u ↔ holds_role s u.
Proof. intros Hs. unfold holds_role. by rewrite (same_holders_in s s' u Hs). Qed.

Lemma same_holders_trans s1 s2 s3 : same_holders s1 s2 → same_holders s2 s3 → same_holders s1 s3.
Proof.
  intros H12 H23. constructor.
  - intros g p Hp. by rewrite (sh_groups _ _ H23) by done; apply (sh_groups _ _ H12).
  - intros u g p Hp Hg. rewrite (sh_members _ _ H23 u g p Hp) by (by apply (sh_groups _ _ H12)). by eapply (sh_members _ _ H12).
  - intros u a Hu Ha. apply (sh_accounts _ _ H23); [by apply (same_holders_holds _ _ _ H12)|by apply (sh_accounts _ _ H12)].
  - intros u alias Hu Hl. apply (sh_links _ _ H12); [done|]. apply (sh_links _ _ H23); [by apply (same_holders_holds _ _ _ H12)|done].
  - intros u alias Hu Ha Hl. apply (sh_sign_in _ _ H23); [by apply (same_holders_holds _ _ _ H12)|done|by apply (sh_sign_in _ _ H12)].
Qed.
End Holders.

(** ** What the guard makes of a path *)

Lemma unescape_escape s : unescape (PathEscape s) = s.
Proof. unfold unescape. by rewrite escape_unescape. Qed.

Lemma trim_prefix_app p rest : trim_prefix (p +:+ rest) p = rest.
Proof. unfold trim_prefix. by rewrite cut_prefix_app. Qed.

Lemma admin_not_activation realm path : has_prefix (admin realm path) (activation_prefix realm) = false.
Proof. reflexivity. Qed.

Lemma admin_slash realm path : admin realm (String "/" path) = admin realm "/" +:+ path.
Proof. unfold admin. by rewrite !app_assoc_str. Qed.

(** A path under the realm is read by its segments. *)
Lemma classify_admin realm path seg w :
  match seg with
  | kind :: rest =>
      if bool_decide (kind = "users") then Some (classify_users rest)
      else if bool_decide (kind = "groups") then Some (mkChange "" (match rest with [] => "" | g :: _ => unescape g end) false false)
      else None
  | [] => None
  end = w → split path "/" = seg → Forall (λ s, s ≠ "") seg → classify realm (admin realm (String "/" path)) = w.
Proof.
  intros <- Hseg Hne. unfold classify. rewrite admin_not_activation, admin_slash, has_prefix_app. cbn [negb]. cbv zeta. rewrite trim_prefix_app, Hseg.
  assert (existsb (λ s, bool_decide (s = "")) seg = false) as ->; [|done].
  clear Hseg. induction Hne as [|s seg Hs _ IH]; [done|]. cbn [existsb]. by rewrite (bool_decide_eq_false_2 _ Hs), IH.
Qed.

Lemma escape_nonempty s : s ≠ "" → PathEscape s ≠ "".
Proof. by rewrite escape_empty. Qed.

(** The segments of a path that is written with them. *)
Lemma split_segment s rest : split (PathEscape s +:+ String "/" rest) "/" = PathEscape s :: split rest "/".
Proof. apply split_app_sep, escape_no_slash. Qed.
Lemma split_last s : split (PathEscape s) "/" = [PathEscape s].
Proof. apply split_no_sep, escape_no_slash. Qed.

Lemma split_user u rest : split ("users/" +:+ PathEscape u +:+ String "/" rest) "/" = "users" :: PathEscape u :: split rest "/".
Proof. change ("users/" +:+ ?x) with ("users" +:+ String "/" x). rewrite split_app_sep by done. f_equal. apply split_segment. Qed.

Lemma split_two u what x : contains_byte what "/" = false →
  split ("users/" +:+ PathEscape u +:+ String "/" (what +:+ String "/" (PathEscape x))) "/" = ["users"; PathEscape u; what; PathEscape x].
Proof. intros Hw. rewrite split_user, split_app_sep by done. by rewrite split_last. Qed.

Lemma classify_account realm u rest : u ≠ "" → of_account rest →
  classify realm (admin realm (user_path u +:+ rest)) = Some (mkChange u "" false false).
Proof.
  intros Hu Hrest. apply escape_nonempty in Hu as Hu'. unfold user_path. rewrite app_assoc_str. destruct Hrest as [| |x Hx].
  - rewrite app_empty_r. refine (classify_admin realm ("users/" +:+ PathEscape u) ["users"; PathEscape u] _ _ _ _).
    + cbn. by rewrite unescape_escape.
    + change ("users/" +:+ ?x) with ("users" +:+ String "/" x). rewrite split_app_sep by done. by rewrite split_last.
    + by repeat constructor.
  - refine (classify_admin realm ("users/" +:+ PathEscape u +:+ "/execute-actions-email") ["users"; PathEscape u; "execute-actions-email"] _ _ _ _).
    + cbn. by rewrite unescape_escape.
    + exact (split_user u "execute-actions-email").
    + by repeat constructor.
  - refine (classify_admin realm ("users/" +:+ PathEscape u +:+ "/credentials/" +:+ PathEscape x) ["users"; PathEscape u; "credentials"; PathEscape x] _ _ _ _).
    + cbn. by rewrite unescape_escape.
    + exact (split_two u "credentials" x eq_refl).
    + apply escape_nonempty in Hx. by repeat constructor.
Qed.

Lemma classify_member realm u g : u ≠ "" → g ≠ "" → classify realm (admin realm (member_path u g)) = Some (mkChange u g true false).
Proof.
  intros Hu%escape_nonempty Hg%escape_nonempty. unfold member_path, user_path. rewrite app_assoc_str.
  refine (classify_admin realm ("users/" +:+ PathEscape u +:+ "/groups/" +:+ PathEscape g) ["users"; PathEscape u; "groups"; PathEscape g] _ _ _ _).
  - cbn. by rewrite !unescape_escape.
  - exact (split_two u "groups" g eq_refl).
  - by repeat constructor.
Qed.

Lemma classify_link realm u alias : u ≠ "" →
  classify realm (admin realm (link_path u (vouchingAliasPrefix +:+ alias))) = Some (mkChange u "" false true).
Proof.
  intros Hu%escape_nonempty. unfold link_path, user_path. rewrite app_assoc_str.
  refine (classify_admin realm ("users/" +:+ PathEscape u +:+ "/federated-identity/" +:+ PathEscape (vouchingAliasPrefix +:+ alias))
    ["users"; PathEscape u; "federated-identity"; PathEscape (vouchingAliasPrefix +:+ alias)] _ _ _ _).
  - cbn -[PathEscape has_prefix vouchingAliasPrefix]. by rewrite !unescape_escape, has_prefix_app.
  - exact (split_two u "federated-identity" (vouchingAliasPrefix +:+ alias) eq_refl).
  - by repeat constructor.
Qed.

Lemma classify_group realm g : g ≠ "" → classify realm (admin realm (group_path g)) = Some (mkChange "" g false false).
Proof.
  intros Hg%escape_nonempty. unfold group_path.
  refine (classify_admin realm ("groups/" +:+ PathEscape g) ["groups"; PathEscape g] _ _ _ _).
  - cbn. by rewrite unescape_escape.
  - change ("groups/" +:+ ?x) with ("groups" +:+ String "/" x). rewrite split_app_sep by done. by rewrite split_last.
  - by repeat constructor.
Qed.

Lemma classify_top realm kind : kind ∈ ["users"; "groups"] → classify realm (admin realm (String "/" kind)) = Some (mkChange "" "" false false).
Proof.
  intros Hk. refine (classify_admin realm kind [kind] _ _ _ _).
  - by repeat (apply elem_of_cons in Hk as [->|Hk]; [done|]); apply not_elem_of_nil in Hk.
  - apply split_no_sep. by repeat (apply elem_of_cons in Hk as [->|Hk]; [done|]); apply not_elem_of_nil in Hk.
  - constructor; [|done]. by repeat (apply elem_of_cons in Hk as [->|Hk]; [done|]); apply not_elem_of_nil in Hk.
Qed.

Lemma classify_activation realm u : u ≠ "" → classify realm (activation_path realm u) = Some (mkChange u "" false false).
Proof.
  intros Hu%escape_nonempty. unfold classify, activation_path. rewrite has_prefix_app, trim_prefix_app.
  change (PathEscape u +:+ "/link") with (PathEscape u +:+ String "/" "link"). rewrite split_segment. cbn. rewrite bool_decide_eq_false_2 by done. cbn.
  by rewrite unescape_escape.
Qed.

(** ** What passes the guard *)

(** While the claim stands: the names of the role groups, and who holds a role by name. *)
Definition role_names (answered : list string) : list string :=
  filter (λ name, name ≠ "") ((λ name, trim_prefix (trim_space name) "/") <$> answered).
Record knows {K} (c : Client K) (names : list string) (subjects : gset string) : Prop := {
  kn_roles : ∀ roles k answered, cl_roles c = Some roles → roles k = Ok answered → role_names answered = names;
  kn_holders : ∀ u, u ∈ subjects → ∃ holders, cl_holders c = Some holders ∧ ∀ k l, holders k = Ok l → u ∈ l }.

Section Guard.
Context {K A : Type} `{KeycloakLaws K A} (c : Client K) (names : list string) (subjects : gset string) (Hk : knows c names subjects).

Definition as_in (k k' : K) : Prop := ∀ realm, kc_state k' realm = kc_state k realm.

Lemma fetch_inv {B} r path query (f : json → result B) k k' res : fetch c r path query f k = (k', res) → as_in k k'
  ∧ ∀ b, res = Ok b → ∃ resp, kc_do k (mkRequest "GET" (admin (re_name r) path) query None) = (k', Ok resp)
      ∧ (200 ≤ rs_status resp < 300)%Z ∧ decoded f (rs_body resp) = Ok b.
Proof.
  unfold fetch, send, act_bind, act_wrap, fail. destruct (negb _); [intros [= <- <-]; by split|].
  destruct (kc_do k _) as [k1 [resp|e]] eqn:E; [|intros [= <- <-]; split; [|done]; intros realm; by eapply kc_reads; [|exact E]].
  assert (as_in k k1) as Hin by (intros realm; by eapply kc_reads; [|exact E]). unfold wrap, of_result, statusError.
  case_bool_decide as Hst; [|case_bool_decide; [intros [= <- <-]; by split|]; case_bool_decide; intros [= <- <-]; by split].
  intros [= <- <-]. split; [done|]. intros b Hb. by exists resp.
Qed.

Lemma refuse_group_inv r w k k' res : refuse_group c r w (beneath names) k = (k', res) → as_in k k'
  ∧ (res = Ok tt → ch_group w ≠ "" → ∀ p, ks_groups (kc_state k (re_name r)) !! ch_group w = Some p → beneath names p = None).
Proof.
  unfold refuse_group. case_bool_decide as Hg; [intros [= <- <-]; by split|]. unfold act_bind, of_result.
  destruct (fetch c r _ _ _ k) as [k1 [g|e]] eqn:E; apply fetch_inv in E as [Hin Hok]; intros [= <- <-]; (split; [done|]); [|done].
  intros Hres _ p Hp. destruct (Hok g eq_refl) as (resp & Hdo & Hst & Hdec). pose proof (kc_group _ _ _ _ _ _ _ Hdo Hst Hdec) as Hpath.
  rewrite Hp in Hpath. injection Hpath as Hpath. destruct (kc_paths _ _ _ _ Hp) as (_ & x & q & Hq).
  rewrite <-Hpath in Hres. rewrite bool_decide_eq_false_2 in Hres by (by rewrite Hq). by destruct (beneath names p).
Qed.

Lemma omap_nil {B C} (f : B → option C) l x : omap f l = [] → x ∈ l → f x = None.
Proof.
  intros Hl Hx. destruct (f x) as [y|] eqn:E; [|done]. assert (y ∈ omap f l) as Hy by (apply list_elem_of_omap; by exists x). rewrite Hl in Hy. by apply not_elem_of_nil in Hy.
Qed.

Lemma refuse_person_inv r w k k' res : refuse_person c r w (beneath names) k = (k', res) → as_in k k'
  ∧ (res = Ok tt → ch_user w ≠ "" → ch_membership w = false → ¬ in_role_group names (kc_state k (re_name r)) (ch_user w)).
Proof.
  unfold refuse_person. destruct (bool_decide (ch_user w = "") || ch_membership w) eqn:Eu.
  { intros [= <- <-]. split; [done|]. intros _ Hu Hm. apply orb_true_iff in Eu as [Eu%bool_decide_eq_true|Eu]; congruence. }
  unfold act_bind, of_result. destruct (fetch c r _ _ _ k) as [k1 [groups|e]] eqn:E; apply fetch_inv in E as [Hin Hok]; intros [= <- <-]; (split; [done|]); [|done].
  intros Hres _ _ (g & p & Hmem & Hp & Hr). destruct (Hok groups eq_refl) as (resp & Hdo & Hst & Hdec).
  destruct (kc_groups_of _ _ _ _ _ _ _ _ _ Hdo Hst Hdec Hmem Hp) as (rep & Hrep & Hpath).
  destruct (omap _ groups) eqn:Eo; [|done]. pose proof (omap_nil _ _ rep Eo Hrep) as Hnone. cbn in Hnone. rewrite Hpath in Hnone. unfold role_path in Hr. rewrite Hnone in Hr. by destruct Hr.
Qed.

Lemma refuseHolder_inv w k k' res : refuseHolder c w k = (k', res) → k' = k
  ∧ (res = Ok tt → ch_user w ≠ "" → ch_membership w = false → ch_user w ∉ subjects).
Proof.
  unfold refuseHolder. destruct (bool_decide (ch_user w = "") || ch_membership w) eqn:Eu.
  { intros [= <- <-]. split; [done|]. intros _ Hu Hm. apply orb_true_iff in Eu as [Eu%bool_decide_eq_true|Eu]; congruence. }
  destruct (cl_holders c) as [holders|] eqn:Eh.
  - destruct (holders k) as [l|e] eqn:El; intros [= <- <-]; (split; [done|]); [|done]. intros Hres _ _ Hin.
    destruct (kn_holders _ _ _ Hk _ Hin) as (h & Hh & Hall). rewrite Eh in Hh. injection Hh as <-. by rewrite bool_decide_eq_true_2 in Hres by (by eapply Hall).
  - intros [= <- <-]. split; [done|]. intros _ _ _ Hin. destruct (kn_holders _ _ _ Hk _ Hin) as (h & Hh & _). congruence.
Qed.

Lemma refuse_named_Ok w name paths : refuse_named w name paths (beneath names) = Ok tt →
  (ch_user w = "" → beneath names name = None) ∧ ∀ p, p ∈ paths → beneath names p = None.
Proof.
  unfold refuse_named. intros Hres. destruct (beneath names name) as [x|] eqn:En.
  - case_bool_decide as Hu; [done|]. cbn in Hres. split; [done|]. intros p Hp. destruct (omap _ paths) eqn:Eo; [|done]. by eapply omap_nil.
  - cbn in Hres. split; [done|]. intros p Hp. destruct (omap _ paths) eqn:Eo; [|done]. by eapply omap_nil.
Qed.

(** What the guard knows of a write it lets through. *)
Record passed (s : realm_state A) (w : change) (body : option json) : Prop := {
  pa_named : ∀ name paths, namedIn body = Ok (name, paths) → (ch_user w = "" → beneath names name = None) ∧ ∀ p, p ∈ paths → beneath names p = None;
  pa_group : ch_group w ≠ "" → ∀ p, ks_groups s !! ch_group w = Some p → beneath names p = None;
  pa_person : ch_user w ≠ "" → ch_membership w = false → ¬ holds_role names subjects s (ch_user w) }.

Lemma roleGroups_inv k k' res : roleGroups c k = (k', res) → k' = k ∧ ∀ which, res = Ok which → which = beneath names.
Proof.
  unfold roleGroups. destruct (cl_roles c) as [roles|] eqn:Er; [|intros [= <- <-]; by split]. destruct (roles k) as [answered|e] eqn:Ea; [|intros [= <- <-]; by split].
  cbv zeta. intros [= <- <-]. split; [done|]. intros which. pose proof (kn_roles _ _ _ Hk _ _ _ Er Ea) as Hn. unfold role_names in Hn. rewrite Hn.
  case_bool_decide; [done|]. by intros [= <-].
Qed.

Lemma guard_inv r method rel body w k k' res : classify (re_name r) rel = Some w → guard c r method rel body k = (k', res) → as_in k k'
  ∧ (res = Ok tt → ch_vouching w = true ∧ method = "DELETE" ∨ passed (kc_state k (re_name r)) w body).
Proof.
  intros Hw. unfold guard. rewrite Hw. destruct (ch_vouching w && bool_decide (method = "DELETE")) eqn:Ev.
  { intros [= <- <-]. split; [done|]. intros _. left. by apply andb_true_iff in Ev as [? ?%bool_decide_eq_true]. }
  unfold act_bind at 1. destruct (roleGroups c k) as [k0 [which|e]] eqn:Er; apply roleGroups_inv in Er as [-> Hwhich]; [|intros [= <- <-]; by split].
  rewrite (Hwhich which eq_refl). unfold act_bind at 1, of_result at 1. destruct (namedIn body) as [[name paths]|e] eqn:En; [|intros [= <- <-]; by split].
  unfold act_bind at 1, refuse. unfold act_bind at 1, of_result at 1. destruct (refuse_named _ _ _ _) as [[]|e] eqn:Ename; [|intros [= <- <-]; by split].
  unfold act_bind at 1. destruct (refuse_group c r w (beneath names) k) as [k1 [[]|e]] eqn:Eg; apply refuse_group_inv in Eg as [H1 Hgroup]; [|intros [= <- <-]; by split].
  destruct (refuse_person c r w (beneath names) k1) as [k2 [[]|e]] eqn:Ep; apply refuse_person_inv in Ep as [H2 Hperson];
    [|intros [= <- <-]; split; [|done]; intros realm; by rewrite H2].
  intros Eh. apply refuseHolder_inv in Eh as [-> Hholder]. split; [intros realm; by rewrite H2|]. intros Hres. right. constructor.
  - intros name' paths'. rewrite En. intros [= <- <-]. by apply refuse_named_Ok in Ename.
  - by apply Hgroup.
  - intros Hu Hm [Hin|Hin]; [|by apply Hholder in Hin]. apply (Hperson eq_refl Hu Hm). by rewrite H1.
Qed.
End Guard.

(** ** Role groups at the top of the tree *)

(** The first segment of a path. *)
Definition first_of (q : string) : string := match cut q "/" with Some (a, _) => a | None => q end.
Definition top (p : string) : string := first_of (trim_prefix p "/").

Lemma first_of_app x y : first_of (x +:+ String "/" y) = first_of x.
Proof.
  unfold first_of. destruct (cut x "/") as [[a b]|] eqn:E.
  - apply cut_Some in E as [-> Ha]. rewrite app_assoc_str, app_cons. by rewrite cut_app.
  - apply cut_None in E. by rewrite cut_app.
Qed.
Lemma first_of_plain x : contains_byte x "/" = false → first_of x = x.
Proof. intros Hx. unfold first_of. by apply cut_None in Hx as ->. Qed.
Lemma top_slash q : top (String "/" q) = first_of q.
Proof. reflexivity. Qed.

Lemma trim_plain name : contains_byte name "/" = false → trim_prefix name "/" = name.
Proof.
  intros Hn. unfold trim_prefix. destruct (cut_prefix name "/") as [r|] eqn:Ep; [|done]. apply cut_prefix_Some in Ep as ->. by rewrite contains_byte_app in Hn.
Qed.
Lemma top_plain name : contains_byte name "/" = false → top name = name.
Proof. intros Hn. unfold top. rewrite trim_plain by done. by apply first_of_plain. Qed.

Lemma beneath_top name q : contains_byte name "/" = false →
  bool_decide (q = name) || has_prefix q (name +:+ "/") = true ↔ first_of q = name.
Proof.
  intros Hn. rewrite orb_true_iff, bool_decide_eq_true, has_prefix_spec. split.
  - intros [->|[r ->]]; [by apply first_of_plain|]. rewrite app_assoc_str. change ("/" +:+ r) with (String "/" r). by rewrite first_of_app, first_of_plain.
  - unfold first_of. destruct (cut q "/") as [[a b]|] eqn:E; [|by left]. apply cut_Some in E as [-> Ha]. intros <-. right. exists b. by rewrite app_assoc_str.
Qed.

Section Top.
Context (names : list string) (Hplain : Forall (λ n, contains_byte n "/" = false) names).

Lemma role_path_top p : role_path names p ↔ top p ∈ names.
Proof.
  unfold role_path, beneath. cbv zeta. rewrite fmap_is_Some. unfold top. generalize (trim_prefix p "/") as q. intros q. split.
  - intros [[i n] (Hl & Hn & _)%list_find_Some]. apply beneath_top in Hn as <-; [|by eapply Forall_lookup_1 in Hplain]. by apply list_elem_of_lookup_2 in Hl.
  - intros Hin. apply list_find_elem_of with (first_of q); [done|]. apply beneath_top; [|done]. by apply (proj1 (Forall_forall _ _) Hplain).
Qed.

Lemma not_role_path p : beneath names p = None ↔ ¬ role_path names p.
Proof. unfold role_path. destruct (beneath names p); split; [done|intros Hn; by destruct Hn|by intros _ []|done]. Qed.

Lemma under_top p q x : p = String "/" q → under p x = true → top x = top p.
Proof.
  intros -> Hu. unfold under in Hu. apply orb_true_iff in Hu as [->%bool_decide_eq_true|[r ->]%has_prefix_spec]; [done|].
  rewrite app_assoc_str. change (String "/" q +:+ "/" +:+ r) with (String "/" (q +:+ String "/" r)). by rewrite !top_slash, first_of_app.
Qed.

Lemma cut_last_Some s sep a b : cut_last s sep = Some (a, b) → s = a +:+ String sep b.
Proof.
  revert a b. induction s as [|x s IH]; intros a b; [done|]. cbn. destruct (cut_last s sep) as [[a' b']|].
  - intros [= <- <-]. by rewrite (IH a' b' eq_refl).
  - destruct (Ascii.eqb x sep) eqn:E; [|done]. apply Ascii.eqb_eq in E as ->. by intros [= <- <-].
Qed.

Lemma renamed_top p q name : p = String "/" q → contains_byte name "/" = false → top (renamed p name) = name ∨ top (renamed p name) = top p.
Proof.
  intros -> Hn. unfold renamed. destruct (cut_last (String "/" q) "/") as [[a b]|] eqn:E.
  - apply cut_last_Some in E. destruct a as [|x a].
    + left. rewrite app_empty_l. change ("/" +:+ name) with (String "/" name). rewrite top_slash. by apply first_of_plain.
    + right. injection E as <- ->. change ((String "/" a) +:+ "/" +:+ name) with (String "/" (a +:+ String "/" name)). by rewrite !top_slash, !first_of_app.
  - left. by apply top_plain.
Qed.

Lemma renamed_slash p q name : p = String "/" q → ∃ q', renamed p name = String "/" q'.
Proof.
  intros ->. unfold renamed. destruct (cut_last (String "/" q) "/") as [[a b]|] eqn:E.
  - apply cut_last_Some in E. destruct a as [|x a]; [by exists name|]. injection E as <- _. by eexists.
  - exfalso. assert (∀ s, contains_byte s "/" = true → cut_last s "/" ≠ None) as Hc.
    { intros s. induction s as [|x s IH]; [done|]. rewrite contains_byte_cons, orb_true_iff. cbn [cut_last]. intros [Hx|Hs].
      - apply Ascii.eqb_eq in Hx as <-. by destruct (cut_last s "/") as [[]|].
      - specialize (IH Hs). by destruct (cut_last s "/") as [[]|]. }
    by apply (Hc (String "/" q)).
Qed.

Lemma moved_top p q p' q' x : p = String "/" q → p' = String "/" q' → moved p p' x = x ∧ under p x = false ∨ top (moved p p' x) = top p' ∧ under p x = true.
Proof.
  intros -> ->. unfold moved, under. case_bool_decide as Hx; [by right|]. unfold has_prefix. destruct (cut_prefix x (String "/" q +:+ "/")) as [r|]; [right|by left].
  split; [|done]. change (String "/" q' +:+ "/" +:+ r) with (String "/" (q' +:+ String "/" r)). by rewrite !top_slash, first_of_app.
Qed.
End Top.

(** ** What a write that passed leaves of the holders *)

Section Effects.
Context {A : Type} (names : list string) (subjects : gset string) (s : realm_state A).
Context (Hplain : Forall (λ n, contains_byte n "/" = false) names).
Context (Hpaths : ∀ g p, ks_groups s !! g = Some p → ∃ q, p = String "/" q).

Lemma account_kept u a : ¬ holds_role names subjects s u → is_Some (ks_people s !! u) →
  same_holders names subjects s (mkState (<[u := a]> (ks_people s)) (ks_groups s) (ks_members s) (ks_links s)).
Proof.
  intros Hu _. constructor; try done. cbn. intros u' a' Hu' Ha'. rewrite lookup_insert_ne; [done|congruence].
Qed.

Lemma removed_kept u : ¬ holds_role names subjects s u → same_holders names subjects s
  (mkState (delete u (ks_people s)) (ks_groups s) (filter (λ x, x.1 ≠ u) (ks_members s)) (filter (λ x, x.1 ≠ u) (ks_links s))).
Proof.
  intros Hu. constructor; cbn; [done| | | |].
  - intros u' g p Hp Hg. rewrite elem_of_filter. split; [by intros []|]. intros Hin. split; [|done]. cbn. intros ->. apply Hu. left. by exists g, p.
  - intros u' a Hu' Ha. rewrite lookup_delete_ne; [done|congruence].
  - intros u' alias _. rewrite elem_of_filter. by intros [].
  - intros u' alias Hu' _ Hl. apply elem_of_filter. split; [cbn; congruence|done].
Qed.

Lemma created_kept id a (joined : gset string) (paths : list string) : ks_people s !! id = None → (∀ g, g ∈ joined → ∃ p, ks_groups s !! g = Some p ∧ p ∈ paths) →
  (∀ p, p ∈ paths → beneath names p = None) →
  same_holders names subjects s (mkState (<[id := a]> (ks_people s)) (ks_groups s) (set_map (pair id) joined ∪ ks_members s) (ks_links s)).
Proof.
  intros Hid Hj Hp. constructor; cbn; try done.
  - intros u g p Hr Hg. rewrite elem_of_union. split; [|by right]. intros [Hin|?]; [|done]. apply elem_of_map in Hin as (g' & [= -> ->] & Hin).
    destruct (Hj _ Hin) as (p' & Hg' & Hp'). rewrite Hg in Hg'. injection Hg' as <-. apply Hp in Hp'. unfold role_path in Hr. rewrite Hp' in Hr. by destruct Hr.
  - intros u a' _ Ha. rewrite lookup_insert_ne; [done|congruence].
Qed.

Lemma joined_kept u g members' : (∀ p, ks_groups s !! g = Some p → beneath names p = None) →
  (∀ x, x ≠ (u, g) → x ∈ members' ↔ x ∈ ks_members s) → same_holders names subjects s (mkState (ks_people s) (ks_groups s) members' (ks_links s)).
Proof.
  intros Hg Hm. constructor; cbn; try done. intros u' g' p Hr Hg'. apply Hm. intros [= -> ->]. apply Hg in Hg'. unfold role_path in Hr. rewrite Hg' in Hr. by destruct Hr.
Qed.

Lemma linked_kept u alias : ¬ holds_role names subjects s u →
  same_holders names subjects s (mkState (ks_people s) (ks_groups s) (ks_members s) ({[(u, alias)]} ∪ ks_links s)).
Proof.
  intros Hu. constructor; cbn; try done.
  - intros u' alias' Hu' [Heq|?]%elem_of_union; [|done]. apply elem_of_singleton in Heq. congruence.
  - intros u' alias' _ _ Hl. apply elem_of_union. by right.
Qed.

Lemma unlinked_kept u alias :
  same_holders names subjects s (mkState (ks_people s) (ks_groups s) (ks_members s) (ks_links s ∖ {[(u, vouchingAliasPrefix +:+ alias)]})).
Proof.
  constructor; cbn; try done; [intros u' alias' _; by intros []%elem_of_difference|].
  intros u' alias' _ Ha Hl. apply elem_of_difference. split; [done|]. intros [= _ ->]%elem_of_singleton. by rewrite has_prefix_app in Ha.
Qed.

Lemma group_kept id name : contains_byte name "/" = false → beneath names name = None → ks_groups s !! id = None →
  same_holders names subjects s (mkState (ks_people s) (<[id := "/" +:+ name]> (ks_groups s)) (ks_members s) (ks_links s)).
Proof.
  intros Hn Hb Hid. constructor; cbn; try done. intros g p Hr. destruct (decide (g = id)) as [->|Hne]; [|by rewrite lookup_insert_ne].
  rewrite lookup_insert_eq, Hid. split; [|done]. intros [= <-]. apply not_role_path in Hb. destruct Hb. rewrite role_path_top in * by done.
  change ("/" +:+ name) with (String "/" name) in Hr. rewrite top_slash, first_of_plain in Hr by done. by rewrite top_plain.
Qed.

Lemma renamed_kept g p name : contains_byte name "/" = false → beneath names name = None → ks_groups s !! g = Some p → beneath names p = None →
  same_holders names subjects s (mkState (ks_people s) (moved p (renamed p name) <$> ks_groups s) (ks_members s) (ks_links s)).
Proof.
  intros Hn Hb Hg Hp. destruct (Hpaths g p Hg) as [q Hq]. destruct (renamed_slash p q name Hq) as [q' Hq'].
  assert (top (renamed p name) ∉ names) as Hnew.
  { apply not_role_path in Hp, Hb. rewrite role_path_top in Hp, Hb by done. rewrite (top_plain name Hn) in Hb.
    by destruct (renamed_top p q name Hq Hn) as [->| ->]. }
  apply not_role_path in Hp. constructor; cbn; try done. intros g' x Hr. rewrite lookup_fmap. rewrite role_path_top in Hr, Hp by done. split.
  - intros (y & Hy & Hm)%fmap_Some. destruct (moved_top p q (renamed p name) q' y Hq Hq') as [[Hsame _]|[Htop _]]; [by rewrite Hsame in Hm; subst y|]. by rewrite Hm, Htop in Hr.
  - intros Hx. rewrite Hx. cbn. destruct (moved_top p q (renamed p name) q' x Hq Hq') as [[-> _]|[_ Hu]]; [done|]. by rewrite (under_top p q x Hq Hu) in Hr.
Qed.

Lemma dropped_kept g p : ks_groups s !! g = Some p → beneath names p = None → same_holders names subjects s
  (mkState (ks_people s) (filter (λ x, under p x.2 = false) (ks_groups s)) (filter (λ x, dropped (ks_groups s) p x.2 = false) (ks_members s)) (ks_links s)).
Proof.
  intros Hg Hp. destruct (Hpaths g p Hg) as [q Hq]. apply not_role_path in Hp. rewrite role_path_top in Hp by done.
  assert (∀ x, role_path names x → under p x = false) as Hnot.
  { intros x Hx. rewrite role_path_top in Hx by done. destruct (under p x) eqn:Eu; [|done]. by rewrite (under_top p q x Hq Eu) in Hx. }
  constructor; cbn; try done.
  - intros g' x Hr. rewrite map_lookup_filter_Some. split; [by intros []|]. intros Hx. split; [done|]. by apply Hnot.
  - intros u g' x Hr Hx. rewrite elem_of_filter. split; [by intros []|]. intros Hin. split; [|done]. unfold dropped. cbn. rewrite Hx. by apply Hnot.
Qed.
End Effects.

Section Guarded.
Context {K A : Type} `{KeycloakLaws K A} (c : Client K) (names : list string) (subjects : gset string) (Hk : knows c names subjects).
Context (Hplain : Forall (λ n, contains_byte n "/" = false) names).

Lemma classify_endpoint realm body method rel : endpoint realm body method rel → ∃ w, classify realm rel = Some w.
Proof.
  intros [? u rest Hu Hr _| |u g Hu Hg|u g Hu Hg|u alias Hu|u alias Hu| |g Hg _|g Hg|u Hu]; eexists.
  - by apply classify_account.
  - apply (classify_top realm "users"). set_solver.
  - by apply classify_member.
  - by apply classify_member.
  - by apply classify_link.
  - by apply classify_link.
  - apply (classify_top realm "groups"). set_solver.
  - by apply classify_group.
  - by apply classify_group.
  - by apply classify_activation.
Qed.

Lemma write_keeps k realm body method rel w s' : writes realm body (kc_state k realm) method rel s' → classify realm rel = Some w →
  ch_vouching w = true ∧ method = "DELETE" ∨ passed names subjects (kc_state k realm) w body → same_holders names subjects (kc_state k realm) s'.
Proof.
  intros Hw Hc Hpass.
  assert (∀ g p, ks_groups (kc_state k realm) !! g = Some p → ∃ q, p = String "/" q) as Hpaths.
  { intros g p Hg. destruct (kc_paths _ _ _ _ Hg) as (_ & x & q & ->). by exists (String x q). }
  destruct Hw as [m u rest a Hu Hr Hex|u Hu|id a joined name paths Hn Hid _ Hj|u g Hu Hg|u g Hu Hg|u alias Hu|u alias Hu|id name paths Hn Hb Hid _|g p name paths Hg Hn Hb Hp|g p Hg Hp|u a Hu Hex].
  - rewrite (classify_account realm u rest Hu Hr) in Hc. injection Hc as <-. destruct Hpass as [[]|Hpass]; [done|]. apply account_kept; [|done]. by apply Hpass.
  - pose proof (classify_account realm u "" Hu account_itself) as Hc'. rewrite app_empty_r in Hc'. rewrite Hc' in Hc. injection Hc as <-.
    destruct Hpass as [[]|Hpass]; [done|]. apply removed_kept. by apply Hpass.
  - rewrite (classify_top realm "users") in Hc by set_solver. injection Hc as <-. destruct Hpass as [[]|Hpass]; [done|]. eapply created_kept; [done..|]. by eapply pa_named.
  - rewrite classify_member in Hc by done. injection Hc as <-. destruct Hpass as [[]|Hpass]; [done|].
    apply (joined_kept names subjects _ u g); [by apply (pa_group _ _ _ _ _ Hpass)|]. intros x Hx. rewrite elem_of_union, elem_of_singleton. tauto.
  - rewrite classify_member in Hc by done. injection Hc as <-. destruct Hpass as [[]|Hpass]; [done|].
    apply (joined_kept names subjects _ u g); [by apply (pa_group _ _ _ _ _ Hpass)|]. intros x Hx. rewrite elem_of_difference, elem_of_singleton. tauto.
  - rewrite classify_link in Hc by done. injection Hc as <-. destruct Hpass as [[_ ?]|Hpass]; [done|]. apply linked_kept. by apply Hpass.
  - apply unlinked_kept.
  - rewrite (classify_top realm "groups") in Hc by set_solver. injection Hc as <-. destruct Hpass as [[]|Hpass]; [done|].
    apply group_kept; [done|done|by apply (proj1 (pa_named _ _ _ _ _ Hpass _ _ Hn))|done].
  - rewrite classify_group in Hc by done. injection Hc as <-. destruct Hpass as [[]|Hpass]; [done|].
    eapply renamed_kept; [done|done|done|by apply (proj1 (pa_named _ _ _ _ _ Hpass _ _ Hn))|done|]. by apply (pa_group _ _ _ _ _ Hpass).
  - rewrite classify_group in Hc by done. injection Hc as <-. destruct Hpass as [[]|Hpass]; [done|]. eapply dropped_kept; [done..|]. by apply (pa_group _ _ _ _ _ Hpass).
  - rewrite classify_activation in Hc by done. injection Hc as <-. destruct Hpass as [[]|Hpass]; [done|]. apply account_kept; [|done]. by apply Hpass.
Qed.
Lemma send_inv r method rel label query body k k' res : send c r method rel label query body k = (k', res) →
  k' = k ∨ ∃ res', kc_do k (mkRequest method rel query body) = (k', res').
Proof.
  unfold send. destruct (negb _); [intros [= <- <-]; by left|]. unfold act_wrap. destruct (kc_do k _) as [k0 res'] eqn:E. intros [= <- <-]. right. by eexists.
Qed.

(** Whatever comes of it, a request of the package leaves every other realm as it was, and
    its own with the same holders. *)
Lemma do_at_keeps r method rel label query body k k' res :
  do_at c r method rel label query body k = (k', res) → (method ≠ "GET" → endpoint (re_name r) body method rel) →
  same_holders names subjects (kc_state k (re_name r)) (kc_state k' (re_name r)) ∧ ∀ other, other ≠ re_name r → kc_state k' other = kc_state k other.
Proof.
  unfold do_at, act_bind at 1. intros Hdo Hend. case_bool_decide as Hget.
  - subst method. cbn in Hdo. apply send_inv in Hdo as [->|[res' Hkc]]; [by split; [apply same_holders_refl|]|].
    pose proof (kc_reads k (mkRequest "GET" rel query body) _ _ eq_refl Hkc) as Hsame. split; [rewrite Hsame; apply same_holders_refl|intros other _; apply Hsame].
  - pose proof (Hend Hget) as He. destruct (classify_endpoint _ _ _ _ He) as [w Hw].
    destruct (guard c r method rel body k) as [k0 [[]|e]] eqn:Eg; eapply guard_inv in Eg as [Has Hpass]; try done.
    2: { injection Hdo as <- <-. split; [rewrite Has; apply same_holders_refl|intros other _; apply Has]. }
    apply send_inv in Hdo as [->|[res' Hkc]]; [split; [rewrite Has; apply same_holders_refl|intros other _; apply Has]|].
    eapply kc_writes in Hkc as [Hw' Hother]; [|done..]. split; [|intros other Ho; by rewrite Hother, Has].
    rewrite <- Has. destruct Hw' as [->|Hw']; [apply same_holders_refl|]. eapply write_keeps; [done..|]. rewrite Has. by apply Hpass.
Qed.
End Guarded.

