(* ===== verification/RegistrarPeople.v ===== *)
(** * The people and groups of a realm ([internal/registrar/identity/people.go], [vouching.go])

    What an administrator asks of a realm: invite somebody, change or remove them, put them
    in a group, make, rename or delete a group, hand an account over, link a person to a
    component that vouches for them.  Each is a sequence of requests through [do_at].

    [perform] is any of them and [perform_all] one after the other; [RegistrarHolders] says
    what they leave of a realm. *)

From stdpp Require Import pretty.
From S2P Require Import Prelude.
From S2P Require Import GoStrings.
From S2P Require Import GoUrl.
From S2P Require Import GoJson.
From S2P Require Import RegistrarGuard.

(** ** Data *)

Definition maxPeople : Z := 200.
Definition ErrOutOfScope : error := Sentinel "group is outside this scope".

(** The mailbox is filled in by the route. *)
Record Person := mkPerson {
  pe_id : string; pe_username : string; pe_email : string; pe_name : string; pe_firstName : string; pe_lastName : string;
  pe_enabled : bool; pe_totpConfigured : bool; pe_totpRequired : bool; pe_pending : bool; pe_groups : list string }.
Record Group := mkGroup { gr_id : string; gr_path : string; gr_name : string; gr_custom : bool; gr_defaultGrant : bool }.

Definition DefaultGrantAttribute : string := "gentianDefaultGrant".
Definition CustomGroupAttribute : string := "gentian.custom".
Definition configureTOTP : string := "CONFIGURE_TOTP".
Definition inviteEmailAttribute : string := "gentian.inviteEmail".

Definition Scoped (r : Realm) (prefix : string) : Realm := mkRealm (re_name r) prefix.
Definition permits (r : Realm) (path : string) : bool :=
  bool_decide (re_prefix r = "") || has_prefix (trim_prefix path "/") (re_prefix r).

Record userRep := mkUserRep {
  us_id : string; us_username : string; us_email : string; us_firstName : string; us_lastName : string;
  us_enabled : bool; us_emailVerified : bool; us_requiredActions : list string }.
Definition user_of (v : json) : result userRep :=
  m ← as_object v; id ← as_string (member m "id"); username ← as_string (member m "username"); email ← as_string (member m "email");
  firstName ← as_string (member m "firstName"); lastName ← as_string (member m "lastName"); enabled ← as_bool (member m "enabled");
  verified ← as_bool (member m "emailVerified"); actions ← as_list as_string (member m "requiredActions");
  Ok (mkUserRep id username email firstName lastName enabled verified actions).

Definition containsString (l : list string) (s : string) : bool := existsb (λ v, bool_decide (v = s)) l.
Definition person (u : userRep) : Person :=
  mkPerson (us_id u) (us_username u) (us_email u) (trim_space (us_firstName u +:+ " " +:+ us_lastName u)) (us_firstName u) (us_lastName u)
    (us_enabled u) false (containsString (us_requiredActions u) configureTOTP)
    (negb (us_emailVerified u) || containsString (us_requiredActions u) "UPDATE_PASSWORD") [].

(** Read byte by byte: a rune that is not ASCII has only bytes of 128 and more. *)
Definition plainID (s : string) : bool :=
  bool_decide (s ≠ "") && bool_decide (String.length s ≤ 64) && str_forallb (λ c, is_alnum c || char_in c "-_") s.

Definition looksLikeAddress (s : string) : bool :=
  match cut s "@" with
  | Some (local, domain) => bool_decide (local ≠ "") && bool_decide (domain ≠ "") && negb (contains_byte domain "@")
      && negb (contains_any s (" " +:+ String "009" (String "013" (String "010" "/?#")))) && contains_byte domain "."
  | None => false
  end.

(** A value read as it comes: an object, or none at all. *)
Definition as_map (v : json) : result (option (gmap string json)) :=
  match v with JObj m => Ok (Some m) | JNull => Ok None | _ => Err errUnmarshal end.
Definition strings (l : list string) : json := JArr (JStr <$> l).

Record Invitation := mkInvitation {
  in_email : string; in_username : string; in_firstName : string; in_lastName : string; in_requireTOTP : bool;
  in_groups : list string; in_redirectURI : string; in_clientID : string }.
Record PersonUpdate := mkUpdate { up_firstName : option string; up_lastName : option string; up_enabled : option bool; up_email : option string }.

(** Why a link was not mailed: what the realm answered, whose text is not kept here, or
    that there is no address. *)
Inductive mailFailure := RealmSaid (e : error) | NoAddress.
Record Activation := mkActivation {
  ac_mailed : bool; ac_email : string; ac_link : string; ac_expiresAt : Z; ac_actions : list string; ac_mailError : option mailFailure }.
(** The marks [WithMailOnly] and [WithShownOnly] leave on a context. *)
Record marks := mkMarks { mailOnly : bool; shownOnly : bool }.

Definition profileName (s : string) : bool := dns_label s.
Definition VouchingAlias (profile : string) : string := vouchingAliasPrefix +:+ profile.
Definition ErrNoSuchIssuer : error := Sentinel "no component of that name vouches for people in this realm".

(** [v.([]any)] and then each [a.(string)]. *)
Definition strings_in (v : json) : list string :=
  match v with JArr l => omap (λ a, match a with JStr s => Some s | _ => None end) l | _ => [] end.
Definition is_first_true (attrs : gmap string (list string)) (k : string) : bool :=
  match attrs !! k with Some ("true" :: _) => true | _ => false end.
Definition links_query (clientID redirectURI : string) : list (string * string) :=
  (if bool_decide (clientID = "") then [] else [("client_id", clientID)])
  ++ (if bool_decide (redirectURI = "") then [] else [("redirect_uri", redirectURI)]).

Section Operations.
Context {K : Type} `{Keycloak K} `{Unicode} `{UnicodeFold} (c : Client K).
Local Open Scope act_scope.

Definition no_user {A} (id : string) : act K A := fail (Wrapf "%w: user %q" [id] ErrNotFound).
Definition with_id {A} (id : string) (m : act K A) : act K A := if plainID id then m else no_user id.
(** ** Reading *)

Definition People (r : Realm) (search : string) (limit : Z) : act K (list Person) :=
  let limit := if bool_decide (limit ≤ 0 ∨ maxPeople < limit)%Z then maxPeople else limit in
  raw ⇐ fetch c r "/users" ([("max", pretty limit); ("briefRepresentation", "true")] ++ (if bool_decide (search = "") then [] else [("search", search)]))
    (as_list user_of);
  ret (sort_by pe_username (person <$> raw)).

Definition UserCount (r : Realm) : act K Z := fetch c r "/users/count" [("enabled", "true")] as_int.

Definition type_of (v : json) : result string := m ← as_object v; as_string (member m "type").
Definition has_otp (types : list string) : bool := existsb (λ t, bool_decide (t = "otp")) types.

Definition read_person (r : Realm) (id : string) : act K Person := with_id id (
  u ⇐ fetch c r (user_path id) [] user_of;
  creds ⇐ fetch c r (user_path id +:+ "/credentials") [] (as_list type_of);
  groups ⇐ fetch c r (user_path id +:+ "/groups") [] (as_list group_of);
  let p := person u in
  ret (mkPerson (pe_id p) (pe_username p) (pe_email p) (pe_name p) (pe_firstName p) (pe_lastName p) (pe_enabled p) (has_otp creds)
    (pe_totpRequired p) (pe_pending p) (sort_strings (filter (λ path, permits r path = true) ((λ g, trim_prefix (gp_path g) "/") <$> groups))))).

Definition group (g : groupRep) : Group :=
  mkGroup (gp_id g) (trim_prefix (gp_path g) "/") (gp_name g) (is_first_true (gp_attributes g) CustomGroupAttribute) (is_first_true (gp_attributes g) DefaultGrantAttribute).
Definition Groups (r : Realm) : act K (list Group) :=
  raw ⇐ fetch c r "/groups" [("max", pretty maxPeople); ("briefRepresentation", "false")] (as_list group_of);
  ret (sort_by gr_path (filter (λ g, permits r (gr_path g) = true) (group <$> raw))).

Definition client_of (v : json) : result (string * string * string) :=
  m ← as_object v; id ← as_string (member m "clientId"); root ← as_string (member m "rootUrl"); base ← as_string (member m "baseUrl"); Ok (id, root, base).
Definition ZoneLanding (r : Realm) (clientID : string) : act K string :=
  res ⇐ tried (fetch c r "/clients" [("clientId", clientID)] (as_list client_of));
  ret match res with
      | Err _ => ""
      | Ok found =>
          match filter (λ f, f.1.1 = clientID) found with
          | (_, root, base) :: _ =>
              let base := if bool_decide (root = "") then base else root in
              if bool_decide (base = "") then "" else trim_suffix_byte base "/" +:+ "/"
          | [] => ""
          end
      end.

Fixpoint resolve (r : Realm) (known : list Group) (paths : list string) : result (list Group) :=
  match paths with
  | [] => Ok []
  | p :: paths =>
      let p := trim_prefix p "/" in
      if negb (permits r p) then Err (Wrapf "%w: %q" [p] ErrOutOfScope)
      else match last (filter (λ g, gr_path g = p) known) with
           | None => Err (Wrapf "%w: group %q" [p] ErrNotFound)
           | Some g => rest ← resolve r known paths; Ok (g :: rest)
           end
  end.
Definition resolveGroups (r : Realm) (paths : list string) : act K (list Group) :=
  if bool_decide (paths = []) then ret [] else known ⇐ Groups r; of_result (resolve r known paths).
(** The one group of a path; [groups[0]] of what was resolved. *)
Definition resolveGroup (r : Realm) (path : string) : act K Group :=
  groups ⇐ resolveGroups r [path]; match groups with g :: _ => ret g | [] => fail (Errorf "index out of range" []) end.
Definition groupPaths (groups : list Group) : list string := (λ g, "/" +:+ gr_path g) <$> groups.

Definition FindUser (r : Realm) (username : string) : act K Person :=
  raw ⇐ fetch c r "/users" [("username", username); ("exact", "true"); ("briefRepresentation", "true")] (as_list user_of);
  match filter (λ u, equal_fold (us_username u) username = true) raw with
  | u :: _ => ret (person u)
  | [] => no_user username
  end.

Definition GroupMembers (r : Realm) (path : string) : act K (list Person) :=
  g ⇐ resolveGroup r path;
  raw ⇐ fetch c r (group_path (gr_id g) +:+ "/members") [("max", pretty maxPeople); ("briefRepresentation", "true")] (as_list user_of);
  ret (sort_by pe_username (person <$> raw)).

(** ** Changing *)

(** Creating the person and mailing them: with the person comes the error of the mail. *)
Definition Invite (r : Realm) (inv : Invitation) : act K (Person * option error) :=
  let email := trim_space (to_lower (in_email inv)) in
  let username := trim_space (to_lower (in_username inv)) in
  let username := if bool_decide (username = "") then email else username in
  if negb (looksLikeAddress email) then fail (Errorf "not an address: %q" [in_email inv])
  else if negb (looksLikeAddress username) then fail (Errorf "not an address: %q" [in_username inv])
  else
    groups ⇐ resolveGroups r (in_groups inv);
    let paths := groupPaths groups in
    let body := <["username" := JStr username]> (<["email" := JStr email]> (<["firstName" := JStr (trim_space (in_firstName inv))]>
      (<["lastName" := JStr (trim_space (in_lastName inv))]> (<["enabled" := JBool true]> (<["emailVerified" := JBool false]>
      {["groups" := if bool_decide (paths = []) then JNull else strings paths]}))))) in
    let body := if bool_decide (username = email) then body else <["attributes" := JObj {[inviteEmailAttribute := strings [email]]}]> body in
    resp ⇐ do_ c r "POST" "/users" [] (Some (JObj body));
    of_result (statusError (rs_status resp) "POST" "/users") ;;
    let id := match cut_last (rs_location resp) "/" with Some (_, id) => id | None => rs_location resp end in
    if negb (plainID id) then fail (Errorf "keycloak created a user and named no id" [])
    else
      let actions := ["VERIFY_EMAIL"; "UPDATE_PASSWORD"] ++ (if in_requireTOTP inv then [configureTOTP] else []) in
      mail ⇐ tried (call c r "PUT" (user_path id +:+ "/execute-actions-email") (links_query (in_clientID inv) (in_redirectURI inv)) (Some (strings actions)));
      ret match mail with
          | Err e => (mkPerson id username email "" "" "" true false false true [], Some (Wrapf "invited %s but the mail was not sent: %w" [username] e))
          | Ok _ => (mkPerson id username email "" (trim_space (in_firstName inv)) (trim_space (in_lastName inv)) true false (in_requireTOTP inv) true paths, None)
          end.

Definition SendPasswordReset (r : Realm) (userID clientID redirectURI : string) : act K unit := with_id userID (
  call c r "PUT" (user_path userID +:+ "/execute-actions-email") (links_query clientID redirectURI) (Some (strings ["UPDATE_PASSWORD"]))).

Definition SetMembership (r : Realm) (userID groupPath : string) (membership : bool) : act K unit := with_id userID (
  g ⇐ resolveGroup r groupPath;
  call c r (if membership then "PUT" else "DELETE") (member_path userID (gr_id g)) [] None).

(** The account as Keycloak has it, to be sent back changed. *)
Definition current (r : Realm) (id : string) : act K (gmap string json) :=
  cur ⇐ fetch c r (user_path id) [] as_map;
  match cur with Some cur => ret cur | None => no_user id end.
Definition attributes_in (cur : gmap string json) : gmap string json := match cur !! "attributes" with Some (JObj m) => m | _ => ∅ end.
Definition set_when {A} (k : string) (f : A → json) (v : option A) (cur : gmap string json) : gmap string json :=
  match v with Some x => <[k := f x]> cur | None => cur end.

(** The delivery address, and its mirror on the account where it is not the login. *)
Definition with_email (email : string) (cur : gmap string json) : gmap string json :=
  let attrs := attributes_in cur in
  let login := match cur !! "username" with Some (JStr s) => s | _ => "" end in
  <["attributes" := JObj (if bool_decide (login = email) then delete inviteEmailAttribute attrs else <[inviteEmailAttribute := strings [email]]> attrs)]>
    (<["email" := JStr email]> cur).

Definition UpdatePerson (r : Realm) (id : string) (u : PersonUpdate) : act K Person := with_id id (
  cur ⇐ current r id;
  let trimmed s := JStr (trim_space s) in
  let cur := set_when "enabled" JBool (up_enabled u) (set_when "lastName" trimmed (up_lastName u) (set_when "firstName" trimmed (up_firstName u) cur)) in
  cur ⇐ match up_email u with
        | None => ret cur
        | Some address =>
            let email := trim_space (to_lower address) in
            if looksLikeAddress email then ret (with_email email cur) else fail (Errorf "not an address: %q" [address])
        end;
  call c r "PUT" (user_path id) [] (Some (JObj cur)) ;;
  read_person r id).

Definition RemovePerson (r : Realm) (id : string) : act K unit := with_id id (call c r "DELETE" (user_path id) [] None).

Definition setRequiredAction (r : Realm) (id action : string) (on : bool) : act K unit :=
  cur ⇐ current r id;
  let actions := filter (λ s, s ≠ action) (strings_in (member cur "requiredActions")) ++ (if on then [action] else []) in
  call c r "PUT" (user_path id) [] (Some (JObj (<["requiredActions" := strings actions]> cur))).

Definition RequireTOTP (r : Realm) (id : string) (mail : bool) (clientID redirectURI : string) : act K unit := with_id id (
  setRequiredAction r id configureTOTP true ;;
  if negb mail then ret tt
  else call c r "PUT" (user_path id +:+ "/execute-actions-email") (links_query clientID redirectURI) (Some (strings [configureTOTP]))).

Definition cred_of (v : json) : result (string * string) :=
  m ← as_object v; id ← as_string (member m "id"); type ← as_string (member m "type"); Ok (id, type).
Definition RemoveTOTP (r : Realm) (id : string) : act K unit := with_id id (
  creds ⇐ fetch c r (user_path id +:+ "/credentials") [] (as_list cred_of);
  act_each (λ cr, if negb (bool_decide (cr.2 = "otp")) || negb (plainID cr.1) then ret tt
                  else call c r "DELETE" (user_path id +:+ "/credentials/" +:+ PathEscape cr.1) [] None) creds ;;
  setRequiredAction r id configureTOTP false).

Definition CreateGroup (r : Realm) (path : string) : act K Group :=
  let path := trim_prefix path "/" in
  if bool_decide (path = "") || contains_byte path "/" then fail (Wrapf "%w: group %q" [path] ErrNotFound)
  else if negb (permits r path) then fail (Wrapf "%w: %q" [path] ErrOutOfScope)
  else
    call c r "POST" "/groups" [] (Some (JObj (<["name" := JStr path]> {["attributes" := JObj {[CustomGroupAttribute := strings ["true"]]}]}))) ;;
    resolveGroup r path.

Definition DeleteGroup (r : Realm) (path : string) : act K unit :=
  g ⇐ resolveGroup r path;
  if negb (gr_custom g) then notCustom c (gr_path g)
  else call c r "DELETE" (group_path (gr_id g)) [] None.

Definition RenameGroup (r : Realm) (path newPath : string) : act K Group :=
  let newPath := trim_prefix newPath "/" in
  if bool_decide (newPath = "") || contains_byte newPath "/" then fail (Wrapf "%w: group %q" [newPath] ErrNotFound)
  else if negb (permits r newPath) then fail (Wrapf "%w: %q" [newPath] ErrOutOfScope)
  else
    g ⇐ resolveGroup r path;
    if negb (gr_custom g) then notCustom c (gr_path g)
    else
      cur ⇐ fetch c r (group_path (gr_id g)) [] as_map;
      call c r "PUT" (group_path (gr_id g)) [] (Some (JObj (<["name" := JStr newPath]> (default ∅ cur)))) ;;
      ret (mkGroup (gr_id g) newPath newPath true false).

(** What [ActivateAccount] sends back: the address given, and the steps, which stay
    required whatever becomes of the link. *)
Definition handed_over (email : string) (actions : list string) (cur : gmap string json) : gmap string json :=
  let cur := if bool_decide (email = "") then cur
             else <["attributes" := JObj (<[inviteEmailAttribute := strings [email]]> (attributes_in cur))]> (<["email" := JStr email]> cur) in
  let required := list_to_set (C := gset string) (strings_in (member cur "requiredActions") ++ actions) in
  <["requiredActions" := strings (sort_strings (elements required))]> cur.

Definition link_of (v : json) : result (string * Z) :=
  m ← as_object v; link ← as_string (member m "link"); at_ ← as_int (member m "expiresAt"); Ok (link, at_).
(** The link itself, where it was not mailed. *)
Definition activation_link (r : Realm) (id : string) (actions : list string) (clientID redirectURI : string) : act K (string * Z) :=
  let body := (if bool_decide (redirectURI = "") then (λ m, m) else <["redirectUri" := JStr redirectURI]>)
    ((if bool_decide (clientID = "") then (λ m, m) else <["clientId" := JStr clientID]>) {["actions" := strings actions]}) in
  resp ⇐ do_at c r "POST" (activation_path (re_name r) id) "/gentian-activation/users/{id}/link" [] (Some (JObj body));
  of_result (statusError (rs_status resp) "POST" "/gentian-activation/users/{id}/link") ;;
  match rs_body resp with
  | Decoded v =>
      match link_of v with
      | Ok (link, at_) => if bool_decide (link = "") then fail (Errorf "the realm answered no activation link" []) else ret (link, at_)
      | Err _ => fail (Errorf "the realm answered no activation link" [])
      end
  | _ => fail (Errorf "the realm answered no activation link" [])
  end.

Definition ActivateAccount (m : marks) (r : Realm) (id email : string) (requireMFA : bool) (clientID redirectURI : string) : act K Activation := with_id id (
  creds ⇐ fetch c r (user_path id +:+ "/credentials") [] (as_list type_of);
  let actions := ["UPDATE_PASSWORD"] ++ (if requireMFA && negb (has_otp creds) then [configureTOTP] else []) in
  cur ⇐ current r id;
  let email := trim_space (to_lower email) in
  if bool_decide (email ≠ "") && shownOnly m then fail (Errorf "this account's link is shown, not mailed: no address is given to it" [])
  else if bool_decide (email ≠ "") && negb (looksLikeAddress email) then fail (Errorf "not an address: %q" [email])
  else
    let cur := handed_over email actions cur in
    call c r "PUT" (user_path id) [] (Some (JObj cur)) ;;
    let mailTo := if shownOnly m then "" else match cur !! "email" with Some (JStr s) => s | _ => "" end in
    mailed ⇐ (if bool_decide (mailTo = "") then ret None
              else res ⇐ tried (call c r "PUT" (user_path id +:+ "/execute-actions-email") (links_query clientID redirectURI) (Some (strings ("VERIFY_EMAIL" :: actions))));
                   ret (Some res));
    match mailed with
    | Some (Ok _) => ret (mkActivation true mailTo "" 0 actions None)
    | _ =>
        let mailError := match mailed with Some (Err e) => Some (RealmSaid e) | _ => None end in
        if mailOnly m then ret (mkActivation false mailTo "" 0 actions (Some (default NoAddress mailError)))
        else
          link ⇐ activation_link r id actions clientID redirectURI;
          ret (mkActivation false mailTo link.1 link.2 actions mailError)
    end).

(** ** Vouching *)

Definition provider_of (v : json) : result string :=
  m ← as_object v; alias ← as_string (member m "identityProvider"); _ ← as_string (member m "userId"); _ ← as_string (member m "userName"); Ok alias.
Definition linked (r : Realm) (userID alias : string) : act K bool :=
  links ⇐ fetch c r (user_path userID +:+ "/federated-identity") [] (as_list provider_of);
  ret (containsString links alias).

Definition VouchingLinked (r : Realm) (userID profile : string) : act K bool := with_id userID (
  if negb (profileName profile) then fail (Wrapf "%w: %q" [profile] ErrNoSuchIssuer) else linked r userID (VouchingAlias profile)).

Definition LinkVouching (r : Realm) (userID profile : string) : act K unit := with_id userID (
  if negb (profileName profile) then fail (Wrapf "%w: %q" [profile] ErrNoSuchIssuer)
  else
    let alias := VouchingAlias profile in
    u ⇐ fetch c r (user_path userID) [] user_of;
    already ⇐ linked r userID alias;
    if already : bool then ret tt
    else
      unless "already exists in the realm" (call c r "POST" (link_path userID alias) []
        (Some (JObj (<["identityProvider" := JStr alias]> (<["userId" := JStr userID]> {["userName" := JStr (us_username u)]}))))) ;;
      there ⇐ linked r userID alias;
      if there : bool then ret tt
      else
        act_wrap "a link to %q, which is not an identity provider of realm %s, was made for user %s and could not be removed: %w" [alias; re_name r; userID]
          (unless "not found in the realm" (call c r "DELETE" (link_path userID alias) [] None)) ;;
        fail (Wrapf "%w: %q" [profile] ErrNoSuchIssuer)).

Definition UnlinkVouching (r : Realm) (userID profile : string) : act K unit := with_id userID (
  if negb (profileName profile) then ret tt
  else
    let alias := VouchingAlias profile in
    linked r userID alias ;;
    unless "not found in the realm" (call c r "DELETE" (link_path userID alias) [] None)).

(** ** Everything that may be asked for *)

Inductive operation :=
  | OpPeople (search : string) (limit : Z) | OpUserCount | OpPerson (id : string) | OpGroups | OpZoneLanding (clientID : string)
  | OpFindUser (username : string) | OpGroupMembers (path : string) | OpVouchingLinked (userID profile : string)
  | OpInvite (inv : Invitation) | OpSendPasswordReset (userID clientID redirectURI : string)
  | OpSetMembership (userID groupPath : string) (membership : bool) | OpUpdatePerson (id : string) (u : PersonUpdate)
  | OpRemovePerson (id : string) | OpRequireTOTP (id : string) (mail : bool) (clientID redirectURI : string) | OpRemoveTOTP (id : string)
  | OpCreateGroup (path : string) | OpDeleteGroup (path : string) | OpRenameGroup (path newPath : string)
  | OpActivateAccount (m : marks) (id email : string) (requireMFA : bool) (clientID redirectURI : string)
  | OpLinkVouching (userID profile : string) | OpUnlinkVouching (userID profile : string).

Definition perform (r : Realm) (op : operation) : act K unit :=
  match op with
  | OpPeople search limit => People r search limit ;; ret tt
  | OpUserCount => UserCount r ;; ret tt
  | OpPerson id => read_person r id ;; ret tt
  | OpGroups => Groups r ;; ret tt
  | OpZoneLanding clientID => ZoneLanding r clientID ;; ret tt
  | OpFindUser username => FindUser r username ;; ret tt
  | OpGroupMembers path => GroupMembers r path ;; ret tt
  | OpVouchingLinked userID profile => VouchingLinked r userID profile ;; ret tt
  | OpInvite inv => Invite r inv ;; ret tt
  | OpSendPasswordReset userID clientID redirectURI => SendPasswordReset r userID clientID redirectURI
  | OpSetMembership userID groupPath membership => SetMembership r userID groupPath membership
  | OpUpdatePerson id u => UpdatePerson r id u ;; ret tt
  | OpRemovePerson id => RemovePerson r id
  | OpRequireTOTP id mail clientID redirectURI => RequireTOTP r id mail clientID redirectURI
  | OpRemoveTOTP id => RemoveTOTP r id
  | OpCreateGroup path => CreateGroup r path ;; ret tt
  | OpDeleteGroup path => DeleteGroup r path
  | OpRenameGroup path newPath => RenameGroup r path newPath ;; ret tt
  | OpActivateAccount m id email requireMFA clientID redirectURI => ActivateAccount m r id email requireMFA clientID redirectURI ;; ret tt
  | OpLinkVouching userID profile => LinkVouching r userID profile
  | OpUnlinkVouching userID profile => UnlinkVouching r userID profile
  end.

(** One after the other, whatever came of each. *)
Definition perform_all (ops : list (Realm * operation)) (k : K) : K := foldl (λ k x, (perform x.1 x.2 k).1) k ops.
End Operations.
