(* ===== verification/RegistrarHolders.v ===== *)
(** * What the registrar's operations leave of a realm

    [rightful]: the requests the operations of [RegistrarPeople] make, each with what the
    operation has made sure of by then; [perform_kept]: whatever those requests keep, the
    operations keep.

    [no_operation_changes_holders]: whatever is asked for and in whatever order, nobody
    becomes or ceases to be a holder of a platform role, and the holders' accounts and links
    stay as they are.  [scope_confines_groups]: a realm token scoped to a group subtree
    leaves the groups outside of it, and who is in them, alone; [removal_ignores_the_scope]:
    except that removing a person takes them out of every group there is.
    [role_group_goes_with_its_parent]: the groups above a role's group are not guarded.

    [SmallKeycloak] is a Keycloak for which the laws hold, [RealmExample] a realm in it. *)

From S2P Require Import Prelude.
From S2P Require Import GoStrings.
From S2P Require Import GoUrl.
From S2P Require Import GoJson.
From S2P Require Import RegistrarGuard.
From S2P Require Import RegistrarPeople.

(** ** The requests *)

Definition names_in (body : option json) (P : string → Prop) (Q : list string → Prop) : Prop :=
  ∀ name paths, namedIn body = Ok (name, paths) → P name ∧ Q paths.

(** A group that was looked up: it is at the top, and inside the scope. *)
Definition found {A} (s : realm_state A) (r : Realm) (g : string) : Prop :=
  ∃ name, ks_groups s !! g = Some (String "/" name) ∧ contains_byte name "/" = false ∧ permits r name = true.

Inductive rightful {A} (removal : bool) (s : realm_state A) (r : Realm) (body : option json) : string → string → Prop :=
  | r_account method u rest : u ≠ "" → of_account rest → method ≠ "GET" → (method = "DELETE" → rest ≠ "") →
      rightful removal s r body method (admin (re_name r) (user_path u +:+ rest))
  | r_removed u : u ≠ "" → removal = true → rightful removal s r body "DELETE" (admin (re_name r) (user_path u))
  | r_users : names_in body (λ _, True) (Forall (λ p, permits r p = true)) → rightful removal s r body "POST" (admin (re_name r) "/users")
  | r_join u g : u ≠ "" → g ≠ "" → found s r g → rightful removal s r body "PUT" (admin (re_name r) (member_path u g))
  | r_leave u g : u ≠ "" → g ≠ "" → found s r g → rightful removal s r body "DELETE" (admin (re_name r) (member_path u g))
  | r_link u alias : u ≠ "" → rightful removal s r body "POST" (admin (re_name r) (link_path u (vouchingAliasPrefix +:+ alias)))
  | r_unlink u alias : u ≠ "" → rightful removal s r body "DELETE" (admin (re_name r) (link_path u (vouchingAliasPrefix +:+ alias)))
  | r_groups : names_in body (λ name, contains_byte name "/" = false ∧ permits r name = true) (λ _, True) →
      rightful removal s r body "POST" (admin (re_name r) "/groups")
  | r_group g : g ≠ "" → found s r g → names_in body (λ name, contains_byte name "/" = false ∧ permits r name = true) (λ _, True) →
      rightful removal s r body "PUT" (admin (re_name r) (group_path g))
  | r_drop g : g ≠ "" → found s r g → rightful removal s r body "DELETE" (admin (re_name r) (group_path g))
  | r_activation u : u ≠ "" → rightful removal s r body "POST" (activation_path (re_name r) u).

Lemma rightful_endpoint {A} removal (s : realm_state A) r body method rel : rightful removal s r body method rel → endpoint (re_name r) body method rel.
Proof.
  intros [m u rest Hu Hr Hm _|u Hu _|_|u g Hu Hg _|u g Hu Hg _|u alias Hu|u alias Hu|Hn|g Hg _ Hn|g Hg _|u Hu]; try by constructor.
  - pose proof (e_account (re_name r) body "DELETE" u "" Hu account_itself) as He. rewrite app_empty_r in He. by apply He.
  - constructor. intros name paths Hname. by apply Hn in Hname as [[]].
  - constructor; [done|]. intros name paths Hname. by apply Hn in Hname as [[]].
Qed.

(** ** The operations make no other *)

Section Kept.
Context {K A : Type} `{KeycloakLaws K A} `{Unicode} `{UnicodeFold} (c : Client K) (removal : bool) (r : Realm) (Q : K → Prop).
Context (Hread : ∀ k k', as_in k k' → Q k → Q k').
Context (Hwrite : ∀ method rel label query body k k' res, do_at c r method rel label query body k = (k', res) →
  rightful removal (kc_state k (re_name r)) r body method rel → Q k → Q k').
Local Open Scope act_scope.

Definition stable (P : K → Prop) : Prop := ∀ k k', as_in k k' → P k → P k'.

Lemma kept_with_id {B} P id (m : act K B) : (id ≠ "" → kept P m) → kept P (with_id id m).
Proof.
  intros Hm. unfold with_id. destruct (plainID id) eqn:Hid; [|apply kept_fail]. apply Hm. intros ->. done.
Qed.
Lemma kept_fetch {B} P path query (f : json → result B) : stable P → kept P (fetch c r path query f).
Proof.
  intros HP k Hk. destruct (fetch c r path query f k) as [k' res] eqn:E. apply fetch_inv in E as [Hin _].
  destruct res; by apply (HP k).
Qed.
Lemma kept_notCustom {B} P path : kept (A := B) P (notCustom c path).
Proof.
  intros k Hk. unfold notCustom, act_bind. destruct (roleGroups c k) as [k' [which|e]] eqn:E.
  - assert (k' = k) as -> by (unfold roleGroups in E; repeat case_match; by simplify_eq). by destruct (which path).
  - assert (k' = k) as -> by (unfold roleGroups in E; repeat case_match; by simplify_eq). done.
Qed.

(** *** Writes *)

Lemma triple_do_at P method rel label query body : (∀ k, P k → Q k ∧ rightful removal (kc_state k (re_name r)) r body method rel) →
  triple P (do_at c r method rel label query body) (λ _, Q) Q.
Proof.
  intros HP k Hk. destruct (HP k Hk) as [HQ Hr]. destruct (do_at c r method rel label query body k) as [k' res] eqn:E.
  destruct res; by eapply Hwrite.
Qed.

Lemma triple_call P method path query body : (∀ k, P k → Q k ∧ rightful removal (kc_state k (re_name r)) r body method (admin (re_name r) path)) →
  triple P (call c r method path query body) (λ _, Q) Q.
Proof. intros HP. eapply triple_bind; [by apply triple_do_at|]. intros resp. apply kept_of_result. Qed.

Lemma kept_account method u rest query body : u ≠ "" → of_account rest → method ≠ "GET" → (method = "DELETE" → rest ≠ "") →
  kept Q (call c r method (user_path u +:+ rest) query body).
Proof. intros. apply triple_call. intros k Hk. split; [done|by constructor]. Qed.
Lemma kept_update u query body : u ≠ "" → kept Q (call c r "PUT" (user_path u) query body).
Proof. intros Hu. rewrite <- (app_empty_r (user_path u)). by apply kept_account; [|constructor|..]. Qed.
Lemma kept_mail u query body : u ≠ "" → kept Q (call c r "PUT" (user_path u +:+ "/execute-actions-email") query body).
Proof. intros Hu. by apply kept_account; [|constructor|..]. Qed.
Lemma kept_link u profile query body : u ≠ "" → kept Q (call c r "POST" (link_path u (VouchingAlias profile)) query body).
Proof. intros. apply triple_call. intros k Hk. split; [done|by apply r_link]. Qed.
Lemma kept_unlink u profile query body : u ≠ "" → kept Q (call c r "DELETE" (link_path u (VouchingAlias profile)) query body).
Proof. intros. apply triple_call. intros k Hk. split; [done|by apply r_unlink]. Qed.

(** *** Groups that are looked up *)

Definition found_by (g : Group) (k : K) : Prop := found (kc_state k (re_name r)) r (gr_id g) ∧ contains_byte (gr_path g) "/" = false ∧ permits r (gr_path g) = true.

Lemma found_stable g : stable (λ k, Q k ∧ found_by g k).
Proof. intros k k' Hin [HQ Hf]. split; [by eapply Hread|]. unfold found_by. by rewrite Hin. Qed.
Lemma found_id g k : found_by g k → gr_id g ≠ "".
Proof. intros [(name & Hg & _) _]. by apply kc_paths in Hg as []. Qed.

Lemma Groups_found : triple Q (Groups c r) (λ known k, Q k ∧ Forall (λ g, found_by g k) known) Q.
Proof.
  intros k Hk. unfold Groups, act_bind. destruct (fetch c r _ _ _ k) as [k' [raw|e]] eqn:E; apply fetch_inv in E as [Hin Hok]; [|by eapply Hread].
  cbn. split; [by eapply Hread|]. destruct (Hok raw eq_refl) as (resp & Hdo & Hst & Hdec). apply Forall_forall. intros g Hg.
  unfold sort_by in Hg. rewrite merge_sort_Permutation in Hg. apply list_elem_of_filter in Hg as [Hp (rep & -> & Hrep)%list_elem_of_fmap].
  pose proof (kc_listed _ _ _ _ _ _ _ Hdo Hst Hdec Hrep) as (Hlook & name & Hname & Hplain). unfold found_by, found. rewrite Hin. cbn in Hp |- *. rewrite Hname in Hp |- *.
  change (trim_prefix (String "/" name) "/") with name in *. split; [|done]. exists name. by rewrite <- Hname.
Qed.

Lemma resolve_known known paths groups : resolve r known paths = Ok groups → Forall (λ g, g ∈ known) groups.
Proof.
  revert groups. induction paths as [|p paths IH]; intros groups; cbn [resolve]; [by intros [= <-]|]. cbv zeta. destruct (negb _); [done|].
  destruct (last _) as [g|] eqn:El; [|done]. destruct (resolve r known paths) as [rest|]; [|done]. intros [= <-]. constructor; [|by apply IH].
  apply last_Some in El as [l Hl]. assert (g ∈ filter (λ g, gr_path g = trim_prefix p "/") known) as Hg by (rewrite Hl; set_solver). by apply list_elem_of_filter in Hg as [].
Qed.

Lemma resolveGroups_found paths : triple Q (resolveGroups c r paths) (λ groups k, Q k ∧ Forall (λ g, found_by g k) groups) Q.
Proof.
  unfold resolveGroups. case_bool_decide; [by apply triple_ret; constructor|]. eapply triple_bind; [apply Groups_found|]. intros known. apply triple_of_result.
  intros k [Hk Hknown]. destruct (resolve r known paths) as [groups|] eqn:E; [|done]. split; [done|]. apply resolve_known in E.
  eapply Forall_impl; [exact E|]. cbn. intros g Hg. by apply (proj1 (Forall_forall _ _) Hknown).
Qed.

Lemma resolveGroup_found path : triple Q (resolveGroup c r path) (λ g k, Q k ∧ found_by g k) Q.
Proof.
  eapply triple_bind; [apply resolveGroups_found|]. intros [|g groups]; [by apply triple_fail; intros k []|]. apply triple_ret. intros k [Hk Hg]. by inversion Hg.
Qed.

(** *** Each operation *)

Ltac keeps_step := lazymatch goal with
  | |- kept _ (ret _) => apply kept_ret
  | |- kept _ (fail _) => apply kept_fail
  | |- kept _ (no_user _) => apply kept_fail
  | |- kept _ (of_result _) => apply kept_of_result
  | |- kept _ (fetch _ _ _ _ _) => apply kept_fetch; exact Hread
  | |- kept _ (with_id _ _) => apply kept_with_id; intros ?
  | |- kept _ (tried _) => apply kept_tried
  | |- kept _ (unless _ _) => apply kept_unless
  | |- kept _ (act_wrap _ _ _) => apply kept_wrap
  | |- kept _ (call _ _ "PUT" (user_path _) _ _) => by apply kept_update
  | |- kept _ (call _ _ "PUT" (user_path _ +:+ "/execute-actions-email") _ _) => by apply kept_mail
  | |- kept _ (call _ _ "POST" (link_path _ (VouchingAlias _)) _ _) => by apply kept_link
  | |- kept _ (call _ _ "DELETE" (link_path _ (VouchingAlias _)) _ _) => by apply kept_unlink
  | |- kept _ (notCustom _ _) => apply kept_notCustom
  | |- kept _ (act_bind _ _) => apply kept_bind; [|intros ?]
  | |- kept _ (match ?x with _ => _ end) => destruct x
  | |- kept _ (let _ := _ in _) => cbv zeta
  end.
Ltac keeps := repeat keeps_step.

Lemma resolveGroup_kept path : kept Q (resolveGroup c r path).
Proof. eapply triple_weaken; [apply resolveGroup_found|done| |done]. by intros g k []. Qed.

Lemma current_kept id : kept Q (current c r id).
Proof. unfold current, no_user. keeps. Qed.
Lemma linked_read_kept userID alias : kept Q (linked c r userID alias).
Proof. unfold linked. keeps. Qed.
Lemma read_person_kept id : kept Q (read_person c r id).
Proof. unfold read_person. keeps. Qed.
Lemma setRequiredAction_kept id action on : id ≠ "" → kept Q (setRequiredAction c r id action on).
Proof. intros Hid. unfold setRequiredAction. apply kept_bind; [apply current_kept|]. intros cur. keeps. Qed.

Lemma UpdatePerson_kept id u : kept Q (UpdatePerson c r id u).
Proof.
  unfold UpdatePerson. apply kept_with_id. intros Hid. apply kept_bind; [apply current_kept|]. intros cur. cbv zeta. apply kept_bind; [keeps|]. intros cur'.
  apply kept_bind; [keeps|]. intros _. apply read_person_kept.
Qed.
Lemma RequireTOTP_kept id mail clientID redirectURI : kept Q (RequireTOTP c r id mail clientID redirectURI).
Proof. apply kept_with_id. intros Hid. apply kept_bind; [by apply setRequiredAction_kept|]. intros _. keeps. Qed.

Lemma plainID_nonempty s : plainID s = true → s ≠ "".
Proof. by intros Hs ->. Qed.
Lemma RemoveTOTP_kept id : kept Q (RemoveTOTP c r id).
Proof.
  apply kept_with_id. intros Hid. apply kept_bind; [keeps|]. intros creds. apply kept_bind; [|intros _; by apply setRequiredAction_kept].
  apply triple_each. intros [cr type]. cbn [fst snd]. destruct (negb _ || negb (plainID cr)) eqn:E; [apply kept_ret|]. apply orb_false_iff in E as [_ Hcr%negb_false_iff%plainID_nonempty].
  by apply kept_account; [|constructor|..].
Qed.

Lemma activation_link_kept id actions clientID redirectURI : id ≠ "" → kept Q (activation_link c r id actions clientID redirectURI).
Proof.
  intros Hid. unfold activation_link. apply kept_bind; [|intros resp; keeps]. apply triple_do_at. intros k Hk. split; [done|by constructor].
Qed.
Lemma ActivateAccount_kept m id email requireMFA clientID redirectURI : kept Q (ActivateAccount c m r id email requireMFA clientID redirectURI).
Proof.
  apply kept_with_id. intros Hid. apply kept_bind; [keeps|]. intros creds. cbv zeta. apply kept_bind; [apply current_kept|]. intros cur.
  destruct (_ && shownOnly m); [keeps|]. destruct (_ && negb _); [keeps|]. apply kept_bind; [keeps|]. intros _. apply kept_bind; [keeps|].
  assert (kept Q (activation_link c r id (["UPDATE_PASSWORD"] ++ (if requireMFA && negb (has_otp creds) then [configureTOTP] else [])) clientID redirectURI)) as Hl by by apply activation_link_kept.
  intros [[[]|e]|]; [keeps|destruct (mailOnly m); [keeps|]..]; (apply kept_bind; [done|intros ?; keeps]).
Qed.

Lemma LinkVouching_kept userID profile : kept Q (LinkVouching c r userID profile).
Proof.
  apply kept_with_id. intros Hid. case_match; [keeps|]. cbv zeta. apply kept_bind; [keeps|]. intros u. apply kept_bind; [apply linked_read_kept|].
  intros []; [keeps|]. apply kept_bind; [keeps|]. intros _. apply kept_bind; [apply linked_read_kept|]. intros []; keeps.
Qed.
Lemma UnlinkVouching_kept userID profile : kept Q (UnlinkVouching c r userID profile).
Proof. apply kept_with_id. intros Hid. case_match; [keeps|]. cbv zeta. apply kept_bind; [apply linked_read_kept|]. intros b. keeps. Qed.

(** *** Those that name groups *)

Lemma SetMembership_kept userID path membership : kept Q (SetMembership c r userID path membership).
Proof.
  apply kept_with_id. intros Hid. eapply triple_bind; [apply resolveGroup_found|]. intros g. apply triple_call. intros k [Hk Hg]. split; [done|].
  pose proof (found_id g k Hg). destruct Hg as [Hg _]. destruct membership; by constructor.
Qed.

Lemma CreateGroup_kept path : kept Q (CreateGroup c r path).
Proof.
  unfold CreateGroup. cbv zeta. destruct (_ || _) eqn:E; [keeps|]. apply orb_false_iff in E as [_ Hplain]. destruct (permits _ _) eqn:Hp; cbn [negb]; [|keeps].
  apply kept_bind; [|intros _; apply resolveGroup_kept]. apply triple_call. intros k Hk. split; [done|]. constructor. intros name paths.
  set (p := trim_prefix path "/") in *. unfold namedIn, member. simplify_map_eq. by intros [= <- <-].
Qed.

Lemma DeleteGroup_kept path : kept Q (DeleteGroup c r path).
Proof.
  eapply triple_bind; [apply resolveGroup_found|]. intros g. destruct (negb _).
  - eapply triple_weaken; [apply (kept_notCustom Q)|by intros k []|done|done].
  - apply triple_call. intros k [Hk Hg]. split; [done|]. pose proof (found_id g k Hg). destruct Hg as [Hg _]. by constructor.
Qed.

Lemma renaming_named cur p name paths : namedIn (Some (JObj (<["name" := JStr p]> cur))) = Ok (name, paths) → name = p.
Proof. unfold namedIn, member. rewrite lookup_insert_eq. cbn [default from_option id as_string]. cbn [mbind result_bind]. destruct (as_list _ _); [|done]. by intros [= <- <-]. Qed.

Lemma RenameGroup_kept path newPath : kept Q (RenameGroup c r path newPath).
Proof.
  unfold RenameGroup. cbv zeta. destruct (_ || _) eqn:E; [keeps|]. apply orb_false_iff in E as [_ Hplain]. destruct (permits _ _) eqn:Hp; cbn [negb]; [|keeps].
  eapply triple_bind; [apply resolveGroup_found|]. intros g. destruct (negb _).
  - eapply triple_weaken; [apply (kept_notCustom Q)|by intros k []|done|done].
  - eapply triple_bind; [eapply triple_weaken; [apply (kept_fetch (λ k, Q k ∧ found_by g k)), found_stable|done|intros cur k Hk; exact Hk|by intros k []]|].
    intros cur. eapply (triple_bind _ _ (λ _, Q)); [apply triple_call|intros b; apply kept_ret]. intros k [Hk Hg]. split; [done|]. pose proof (found_id g k Hg). destruct Hg as [Hg _].
    constructor; [done..|]. intros name paths ->%renaming_named. by split.
Qed.

Lemma as_list_strings l : as_list as_string (strings l) = Ok l.
Proof. cbn. induction l as [|x l IH]; [done|]. cbn. by rewrite IH. Qed.

Lemma groupPaths_permitted groups k : Forall (λ g, found_by g k) groups → Forall (λ p, permits r p = true) (groupPaths groups).
Proof.
  intros Hg. apply Forall_fmap. eapply Forall_impl; [exact Hg|]. intros g (_ & Hplain & Hp). unfold permits in Hp |- *. cbn [compose].
  change (trim_prefix ("/" +:+ gr_path g) "/") with (gr_path g). by rewrite trim_plain in Hp.
Qed.

Lemma groups_named body paths : body !! "name" = None → body !! "groups" = Some (if bool_decide (paths = []) then JNull else strings paths) →
  namedIn (Some (JObj body)) = Ok ("", paths).
Proof.
  intros Hn Hg. unfold namedIn, member. rewrite Hn, Hg. case_bool_decide as Hp; [by rewrite Hp|]. cbn [default from_option id as_string]. by rewrite as_list_strings.
Qed.

Lemma Invite_kept inv : kept Q (Invite c r inv).
Proof.
  unfold Invite. cbv zeta. destruct (negb _); [keeps|]. destruct (negb _); [keeps|]. eapply triple_bind; [apply resolveGroups_found|]. intros groups.
  eapply triple_bind; [apply triple_do_at|].
  - intros k [Hk Hg]. split; [done|]. apply groupPaths_permitted in Hg. constructor. intros name paths Hn. split; [done|]. revert Hn.
    rewrite (groups_named _ (groupPaths groups)); [by intros [= <- <-]| |]; case_bool_decide; by simplify_map_eq.
  - intros resp. cbv beta. apply kept_bind; [keeps|]. intros _. destruct (plainID _) eqn:Hid; cbn [negb]; [|keeps]. apply plainID_nonempty in Hid. keeps.
Qed.

Lemma GroupMembers_kept path : kept Q (GroupMembers c r path).
Proof. apply kept_bind; [apply resolveGroup_kept|]. intros g. keeps. Qed.

Definition removes (op : operation) : bool := match op with OpRemovePerson _ => true | _ => false end.

Lemma perform_kept op : (removes op = true → removal = true) → kept Q (perform c r op).
Proof.
  intros Hrem. destruct op; cbn [perform]; try (apply kept_bind; [|intros ?; apply kept_ret]).
  - unfold People. keeps.
  - unfold UserCount. keeps.
  - apply read_person_kept.
  - unfold Groups. keeps.
  - unfold ZoneLanding. keeps.
  - unfold FindUser. keeps.
  - apply GroupMembers_kept.
  - unfold VouchingLinked. apply kept_with_id. intros Hid. case_match; [keeps|]. apply linked_read_kept.
  - apply Invite_kept.
  - unfold SendPasswordReset. keeps.
  - apply SetMembership_kept.
  - apply UpdatePerson_kept.
  - apply kept_with_id. intros Hid. apply triple_call. intros k Hk. split; [done|]. constructor; [done|by apply Hrem].
  - apply RequireTOTP_kept.
  - apply RemoveTOTP_kept.
  - apply CreateGroup_kept.
  - apply DeleteGroup_kept.
  - apply RenameGroup_kept.
  - apply ActivateAccount_kept.
  - apply LinkVouching_kept.
  - apply UnlinkVouching_kept.
Qed.
End Kept.

(** ** Groups outside a scope *)

(** They are the same, where they were, with the same people in them. *)
Record same_outside {A} (r : Realm) (s s' : realm_state A) : Prop := {
  so_groups : ∀ g p, permits r p = false → ks_groups s' !! g = Some p ↔ ks_groups s !! g = Some p;
  so_members : ∀ u g p, permits r p = false → ks_groups s !! g = Some p → (u, g) ∈ ks_members s' ↔ (u, g) ∈ ks_members s }.

Lemma same_outside_refl {A} r (s : realm_state A) : same_outside r s s.
Proof. by constructor. Qed.
Lemma same_outside_trans {A} r (s1 s2 s3 : realm_state A) : same_outside r s1 s2 → same_outside r s2 s3 → same_outside r s1 s3.
Proof.
  intros [Hg Hm] [Hg' Hm']. constructor.
  - intros g p Hp. by rewrite Hg', Hg.
  - intros u g p Hp Hgp. rewrite (Hm' u g p); [by apply (Hm u g p)|done|by apply Hg].
Qed.

Lemma permits_under r name x : permits r name = true → contains_byte name "/" = false → under (String "/" name) x = true → permits r x = true.
Proof.
  intros Hp Hn. unfold permits in *. destruct (bool_decide _); [done|]. cbn [orb] in *. rewrite (trim_plain name Hn) in Hp.
  unfold under. intros [->%bool_decide_eq_true|[y ->]%has_prefix_spec]%orb_true_iff; [done|].
  change (trim_prefix ((String "/" name +:+ "/") +:+ y) "/") with ((name +:+ "/") +:+ y). rewrite app_assoc_str. apply has_prefix_spec in Hp as [z ->]. apply has_prefix_spec.
  exists (z +:+ "/" +:+ y). by rewrite !app_assoc_str.
Qed.

Lemma cut_last_plain name : contains_byte name "/" = false → cut_last name "/" = None.
Proof.
  induction name as [|x name IH]; [done|]. rewrite contains_byte_cons. intros [Hx Hn]%orb_false_iff. cbn [cut_last]. rewrite IH by done.
  by rewrite Ascii.eqb_sym, Hx.
Qed.
Lemma renamed_plain old name : contains_byte old "/" = false → renamed (String "/" old) name = String "/" name.
Proof. intros Ho. unfold renamed. cbn [cut_last]. by rewrite cut_last_plain. Qed.
Lemma moved_away p p' x : under p x = false → moved p p' x = x.
Proof. unfold under, moved, has_prefix. intros [-> Hx]%orb_false_iff. by destruct (cut_prefix _ _). Qed.
Lemma moved_under p p' x : under p x = true → under p' (moved p p' x) = true.
Proof.
  unfold under at 1, moved, has_prefix. destruct (bool_decide (x = p)); cbn [orb]; [unfold under; by rewrite bool_decide_eq_true_2|].
  destruct (cut_prefix x (p +:+ "/")) as [rest|]; [|done]. intros _. unfold under. apply orb_true_iff. right. apply has_prefix_spec. exists rest. by rewrite app_assoc_str.
Qed.

Section Outside.
Context {A : Type} (s : realm_state A) (r : Realm).

Lemma members_outside people links g members' : found s r g → (∀ x, x.2 ≠ g → x ∈ members' ↔ x ∈ ks_members s) →
  same_outside r s (mkState people (ks_groups s) members' links).
Proof.
  intros (name & Hg & Hplain & Hp) Hm. constructor; cbn; [done|]. intros u g' p Hout Hg'. apply Hm. cbn. intros ->. rewrite Hg in Hg'. injection Hg' as <-.
  rewrite (permits_under r name (String "/" name)) in Hout; [done..|]. unfold under. by rewrite bool_decide_eq_true_2.
Qed.

Lemma renamed_outside people links g name : found s r g → contains_byte name "/" = false → permits r name = true →
  ∀ p, ks_groups s !! g = Some p → same_outside r s (mkState people (moved p (renamed p name) <$> ks_groups s) (ks_members s) links).
Proof.
  intros (old & Hg & Hold & Hpo) Hn Hp p Hgp. rewrite Hg in Hgp. injection Hgp as <-. constructor; cbn; [|done]. intros g' x Hout. rewrite lookup_fmap.
  assert (renamed (String "/" old) name = String "/" name) as Hren by by apply renamed_plain. rewrite Hren.
  split.
  - intros (y & Hy & ->)%fmap_Some. destruct (under (String "/" old) y) eqn:Hu; [|by rewrite moved_away in *].
    pose proof (moved_under (String "/" old) (String "/" name) y Hu) as Hm. by rewrite (permits_under r name _ Hp Hn Hm) in Hout.
  - intros Hx. rewrite Hx. cbn. destruct (under (String "/" old) x) eqn:Hu; [by rewrite (permits_under r old x Hpo Hold Hu) in Hout|]. by rewrite moved_away.
Qed.

Lemma dropped_outside people links g p : found s r g → ks_groups s !! g = Some p → same_outside r s
  (mkState people (filter (λ x, under p x.2 = false) (ks_groups s)) (filter (λ x, dropped (ks_groups s) p x.2 = false) (ks_members s)) links).
Proof.
  intros (old & Hg & Hold & Hpo) Hgp. rewrite Hg in Hgp. injection Hgp as <-.
  assert (∀ x, permits r x = false → under (String "/" old) x = false) as Hnot.
  { intros x Hx. destruct (under _ x) eqn:Hu; [|done]. by rewrite (permits_under r old x Hpo Hold Hu) in Hx. }
  constructor; cbn.
  - intros g' x Hout. rewrite map_lookup_filter_Some. naive_solver.
  - intros u g' x Hout Hx. rewrite elem_of_filter. unfold dropped. cbn. rewrite Hx. naive_solver.
Qed.
End Outside.

Lemma admin_inj realm x y : admin realm x = admin realm y → x = y.
Proof. unfold admin. by intros Heq%(inj (String.append _))%(inj (String.append _)). Qed.

Lemma account_path u u' rest : of_account rest → rest ≠ "" → user_path u +:+ rest ≠ user_path u'.
Proof.
  intros Hr Hne. unfold user_path. rewrite app_assoc_str. intros Heq%(inj (String.append "/users/")). pose proof (escape_no_slash u') as Hs. rewrite <- Heq, contains_byte_app in Hs.
  apply orb_false_iff in Hs as [_ Hs]. by destruct Hr.
Qed.

(** What a request of an operation says of the group and of the names in it. *)
Record within {A} (s : realm_state A) (r : Realm) (body : option json) (method rel : string) (w : change) : Prop := {
  wi_group : ch_group w ≠ "" → found s r (ch_group w);
  wi_users : rel = admin (re_name r) "/users" → names_in body (λ _, True) (Forall (λ p, permits r p = true));
  wi_names : rel = admin (re_name r) "/groups" ∨ ch_group w ≠ "" ∧ ch_user w = "" ∧ method = "PUT" →
    names_in body (λ name, contains_byte name "/" = false ∧ permits r name = true) (λ _, True);
  wi_account : method = "DELETE" → ∀ u, u ≠ "" → rel ≠ admin (re_name r) (user_path u) }.

Lemma classify_groups realm : classify realm (admin realm "/groups") = Some (mkChange "" "" false false).
Proof. apply (classify_top realm "groups"). set_solver. Qed.
Lemma classify_everybody realm : classify realm (admin realm "/users") = Some (mkChange "" "" false false).
Proof. apply (classify_top realm "users"). set_solver. Qed.

Lemma classify_person realm u : u ≠ "" → classify realm (admin realm (user_path u)) = Some (mkChange u "" false false).
Proof. intros Hu. rewrite <- (app_empty_r (user_path u)). by apply classify_account; [|constructor]. Qed.

(** A request about one person or one group is none of those about all, and one about a
    membership or a link is not about an account. *)
Lemma within_group {A} (s : realm_state A) r body method rel w : classify (re_name r) rel = Some w → w ≠ mkChange "" "" false false →
  (ch_group w ≠ "" → found s r (ch_group w)) →
  (ch_group w ≠ "" → ch_user w = "" → method = "PUT" → names_in body (λ name, contains_byte name "/" = false ∧ permits r name = true) (λ _, True)) →
  (method = "DELETE" → ∀ u, u ≠ "" → rel ≠ admin (re_name r) (user_path u)) → within s r body method rel w.
Proof.
  intros Hc Hw Hf Hn Hd. constructor; [done| | |done].
  - intros ->. by rewrite classify_everybody in Hc; injection Hc as <-.
  - intros [->|(Hg & Hu & Hm)]; [|by apply Hn]. by rewrite classify_groups in Hc; injection Hc as <-.
Qed.
Lemma not_account realm rel w : classify realm rel = Some w → (∀ u, w ≠ mkChange u "" false false) → ∀ u, u ≠ "" → rel ≠ admin realm (user_path u).
Proof. intros Hc Hw u Hu ->. rewrite classify_person in Hc by done. injection Hc as Hc. by apply (Hw u). Qed.

Lemma rightful_within {A} (s : realm_state A) r body method rel : rightful false s r body method rel →
  ∃ w, classify (re_name r) rel = Some w ∧ within s r body method rel w.
Proof.
  intros [m u rest Hu Hr Hm Hd|u Hu ?|Hn|u g Hu Hg Hf|u g Hu Hg Hf|u alias Hu|u alias Hu|Hn|g Hg Hf Hn|g Hg Hf|u Hu].
  - pose proof (classify_account (re_name r) u rest Hu Hr) as Hc. eexists. split; [exact Hc|]. apply within_group; [done|congruence|done..|].
    intros Hdel u' _ Heq%admin_inj. by apply account_path in Heq; [|done|apply Hd].
  - done.
  - eexists. split; [apply classify_everybody|]. constructor; cbn; [done|done| |done]. by intros [Heq%admin_inj|[]].
  - pose proof (classify_member (re_name r) u g Hu Hg) as Hc. eexists. split; [exact Hc|]. by apply within_group.
  - pose proof (classify_member (re_name r) u g Hu Hg) as Hc. eexists. split; [exact Hc|]. apply within_group; [done..|]. intros _. by apply (not_account _ _ _ Hc).
  - pose proof (classify_link (re_name r) u alias Hu) as Hc. eexists. split; [exact Hc|]. by apply within_group.
  - pose proof (classify_link (re_name r) u alias Hu) as Hc. eexists. split; [exact Hc|]. apply within_group; [done..|]. intros _. by apply (not_account _ _ _ Hc).
  - eexists. split; [apply classify_groups|]. constructor; cbn; [done|by intros Heq%admin_inj|done|done].
  - pose proof (classify_group (re_name r) g Hg) as Hc. eexists. split; [exact Hc|]. apply within_group; [done|congruence|done..].
  - pose proof (classify_group (re_name r) g Hg) as Hc. eexists. split; [exact Hc|]. apply within_group; [done|congruence|done..|]. intros _. apply (not_account _ _ _ Hc). congruence.
  - pose proof (classify_activation (re_name r) u Hu) as Hc. eexists. split; [exact Hc|]. apply within_group; [done|congruence|done..].
Qed.

Lemma write_outside {A} (s : realm_state A) r body method rel w s' : writes (re_name r) body s method rel s' →
  classify (re_name r) rel = Some w → within s r body method rel w → same_outside r s s'.
Proof.
  intros Hw Hc [Hgroup Husers Hnames Haccount].
  destruct Hw as [m u rest a Hu Hr Hex|u Hu|id a joined name paths Hn Hid _ Hj|u g Hu Hg|u g Hu Hg|u alias Hu|u alias Hu|id name paths Hn Hb Hid _|g p name paths Hg Hn Hb Hp|g p Hg Hp|u a Hu Hex].
  - by constructor.
  - by destruct (Haccount eq_refl u Hu).
  - destruct (Husers eq_refl _ _ Hn) as [_ Hp]. constructor; cbn; [done|]. intros u g p Hout Hg. rewrite elem_of_union. split; [|by right]. intros [Hin|?]; [|done].
    apply elem_of_map in Hin as (g' & [= -> ->] & Hin). destruct (Hj _ Hin) as (p' & Hg' & Hp'). rewrite Hg in Hg'. injection Hg' as <-.
    apply (proj1 (Forall_forall _ _) Hp) in Hp'. congruence.
  - rewrite classify_member in Hc by done. injection Hc as <-. apply (members_outside s r _ _ g); [by apply Hgroup|]. intros [u' g'] Hx. cbn in Hx. set_solver.
  - rewrite classify_member in Hc by done. injection Hc as <-. apply (members_outside s r _ _ g); [by apply Hgroup|]. intros [u' g'] Hx. cbn in Hx. set_solver.
  - by constructor.
  - by constructor.
  - destruct (Hnames (or_introl eq_refl) _ _ Hn) as [[_ Hp] _]. constructor; cbn; [|done]. intros g p Hout. destruct (decide (g = id)) as [->|Hne]; [|by rewrite lookup_insert_ne].
    rewrite lookup_insert_eq, Hid. split; [|done]. intros [= <-]. change (String "/" name) with ("/" +:+ name) in Hout.
    rewrite (permits_under r name ("/" +:+ name)) in Hout; [done..|]. unfold under. by rewrite bool_decide_eq_true_2.
  - rewrite classify_group in Hc by done. injection Hc as <-. destruct (Hnames (or_intror (conj Hg (conj eq_refl eq_refl))) _ _ Hn) as [[_ Hok] _].
    by apply (renamed_outside s r _ _ g); [apply Hgroup|..].
  - rewrite classify_group in Hc by done. injection Hc as <-. apply (dropped_outside s r _ _ g); [by apply Hgroup|done].
  - by constructor.
Qed.

(** ** Every operation, one after the other *)

Section Performed.
Context {K A : Type} `{KeycloakLaws K A} `{Unicode} `{UnicodeFold} (c : Client K).

Lemma roleGroups_same k : (roleGroups c k).1 = k.
Proof. unfold roleGroups. by repeat case_match. Qed.
Lemma refuseHolder_same w k : (refuseHolder c w k).1 = k.
Proof. unfold refuseHolder. by repeat case_match. Qed.
Lemma guard_kept P r method rel body : stable P → kept P (guard c r method rel body).
Proof.
  intros HP. unfold guard. destruct (classify _ _) as [w|]; [|apply kept_fail]. destruct (_ && _); [apply kept_ret|].
  apply kept_bind; [apply kept_unchanged, roleGroups_same|]. intros which. apply kept_bind; [apply kept_of_result|]. intros named.
  apply kept_bind; [|intros _; apply kept_unchanged, refuseHolder_same]. apply kept_bind; [apply kept_of_result|]. intros _. apply kept_bind; [|intros _].
  - unfold refuse_group. destruct (bool_decide _); [apply kept_ret|]. apply kept_bind; [by apply kept_fetch|]. intros g. apply kept_of_result.
  - unfold refuse_person. destruct (_ || _); [apply kept_ret|]. apply kept_bind; [by apply kept_fetch|]. intros groups. apply kept_of_result.
Qed.

Lemma do_at_outside r method rel label query body k k' res : do_at c r method rel label query body k = (k', res) →
  rightful false (kc_state k (re_name r)) r body method rel →
  same_outside r (kc_state k (re_name r)) (kc_state k' (re_name r)) ∧ ∀ other, other ≠ re_name r → kc_state k' other = kc_state k other.
Proof.
  intros Hdo Hr. destruct (rightful_within _ _ _ _ _ Hr) as (w & Hw & Hwithin). pose proof (rightful_endpoint _ _ _ _ _ _ Hr) as He.
  unfold do_at, act_bind at 1 in Hdo.
  assert (as_in k ((if bool_decide (method = "GET") then ret tt else guard c r method rel body) k).1) as Has.
  { destruct (bool_decide (method = "GET")); [done|]. apply (triple_left (as_in k)); [|done]. apply guard_kept. intros k1 k2 H12 Hs1 realm. by rewrite H12. }
  destruct ((if bool_decide (method = "GET") then ret tt else guard c r method rel body) k) as [k0 [[]|e]]; cbn in Has;
    [|injection Hdo as <- <-; split; [rewrite Has; apply same_outside_refl|intros other _; apply Has]].
  apply send_inv in Hdo as [->|[res' Hkc]]; [split; [rewrite Has; apply same_outside_refl|intros other _; apply Has]|].
  eapply kc_writes in Hkc as [Hw' Hother]; [|done]. split; [|intros other Ho; by rewrite Hother, Has]. rewrite Has in Hw'.
  destruct Hw' as [->|Hw']; [apply same_outside_refl|by eapply write_outside].
Qed.

Lemma perform_all_kept (Q : K → Prop) ops k : stable Q →
  (∀ r op, (r, op) ∈ ops → ∀ method rel label query body k k' res, do_at c r method rel label query body k = (k', res) →
     rightful (removes op) (kc_state k (re_name r)) r body method rel → Q k → Q k') →
  Q k → Q (perform_all c ops k).
Proof.
  intros Hread. revert k. induction ops as [|[r op] ops IH]; intros k Hwrite Hk; [done|]. cbn. apply IH; [intros r' op' Hin; apply (Hwrite r' op'); set_solver|].
  apply triple_left; [|done]. eapply (perform_kept c (removes op)); [done| |done]. apply Hwrite. set_solver.
Qed.

(** C12: Whatever is asked for, and in whatever order, while the names of the role groups and of
    the holders by name stay what they are, and as long as no role group's name has a slash in
    it: every realm keeps its role groups with the people in them and the accounts of
    everybody who holds a platform role; no holder is given a link to an identity provider,
    and of a holder's links only those to components that vouch for people may be taken away;
    so nobody becomes or ceases to be a holder.  (With a slash in a name it is not so:
    [role_group_goes_with_its_parent].) *)
Theorem no_operation_changes_holders names subjects ops k realm : knows c names subjects → Forall (λ n, contains_byte n "/" = false) names →
  same_holders names subjects (kc_state k realm) (kc_state (perform_all c ops k) realm)
  ∧ ∀ u, holds_role names subjects (kc_state (perform_all c ops k) realm) u ↔ holds_role names subjects (kc_state k realm) u.
Proof.
  intros Hk Hplain. assert (∀ realm, same_holders names subjects (kc_state k realm) (kc_state (perform_all c ops k) realm)) as Hs; [|split; [done|intros u; by apply same_holders_holds]].
  apply (perform_all_kept (λ k', ∀ realm, same_holders names subjects (kc_state k realm) (kc_state k' realm))).
  - intros k1 k2 Has Hs1 realm'. by rewrite Has.
  - intros r op _ method rel label query body k1 k2 res Hdo Hr Hs1 realm'. eapply same_holders_trans; [apply Hs1|].
    eapply do_at_keeps in Hdo as [Hs Ho]; [|done..|intros _; by eapply rightful_endpoint]. destruct (decide (realm' = re_name r)) as [->|Hne]; [done|].
    rewrite (Ho _ Hne). apply same_holders_refl.
  - intros realm'. apply same_holders_refl.
Qed.

(** C29: A token scoped to a subtree of the groups: as long as nobody is removed with it, the
    groups of the realm outside of the subtree stay, with the people in them, and no other
    realm changes at all. *)
Theorem scope_confines_groups r ops k : Forall (λ op, removes op = false) ops →
  same_outside r (kc_state k (re_name r)) (kc_state (perform_all c (pair r <$> ops) k) (re_name r))
  ∧ ∀ other, other ≠ re_name r → kc_state (perform_all c (pair r <$> ops) k) other = kc_state k other.
Proof.
  intros Hops. apply (perform_all_kept (λ k', same_outside r (kc_state k (re_name r)) (kc_state k' (re_name r)) ∧ ∀ other, other ≠ re_name r → kc_state k' other = kc_state k other)).
  - intros k1 k2 Has [Hs1 Ho]. rewrite Has. split; [done|]. intros other Hne. by rewrite Has, Ho.
  - intros r' op (op' & [= -> ->] & Hin)%list_elem_of_fmap method rel label query body k1 k2 res Hdo Hr [Hs1 Ho].
    rewrite (proj1 (Forall_forall _ _) Hops op' Hin) in Hr. eapply do_at_outside in Hdo as [Hs2 Ho2]; [|done]. split; [by eapply same_outside_trans|].
    intros other Hne. by rewrite Ho2, Ho.
  - split; [apply same_outside_refl|done].
Qed.
End Performed.

(** ** A small Keycloak

    One realm, in which people can be removed and put in groups, and groups deleted; what
    else it is asked, it refuses. *)
Module SmallKeycloak.

Inductive ask := AllGroups | OneGroup (g : string) | GroupsOf (u : string) | OnePerson (u : string) | Member (u g : string) | Other.
Definition ask_of (segs : list string) : ask :=
  match segs with
  | [a] => if bool_decide (a = "groups") then AllGroups else Other
  | [a; b] => if bool_decide (a = "groups") then OneGroup b else if bool_decide (a = "users") then OnePerson b else Other
  | [a; b; d] => if bool_decide (a = "users") && bool_decide (d = "groups") then GroupsOf b else Other
  | [a; b; d; e] => if bool_decide (a = "users") && bool_decide (d = "groups") then Member b e else Other
  | _ => Other
  end.
Definition asked (rel : string) : ask :=
  match split rel "/" with
  | _ :: _ :: _ :: realm :: rest => if bool_decide (unescape realm = "acme") then ask_of (unescape <$> rest) else Other
  | _ => Other
  end.

Definition K : Type := realm_state unit.
Definition usable (x : string * string) : Prop := x.1 ≠ "" ∧ match x.2 with String s (String _ _) => s = "/"%char | _ => False end.
#[global] Instance usable_dec x : Decision (usable x).
Proof. unfold usable. apply and_dec; [apply _|]. destruct x as [? [|? []]]; apply _. Defined.

(** The groups that have an id and a path, and the memberships of those. *)
Definition norm (s : K) : K :=
  let groups := filter usable (ks_groups s) in
  mkState (ks_people s) groups (filter (λ x, is_Some (groups !! x.2)) (ks_members s)) (ks_links s).
Definition realm_of (s : K) (realm : string) : K := if bool_decide (realm = "acme") then norm s else mkState ∅ ∅ ∅ ∅.

Definition group_json (id path : string) : json :=
  JObj (<["id" := JStr id]> (<["name" := JStr (trim_prefix path "/")]> (<["path" := JStr path]>
    {["attributes" := JObj {[CustomGroupAttribute := strings ["true"]]}]}))).
Definition at_top (x : string * string) : Prop := contains_byte (trim_prefix x.2 "/") "/" = false.
Definition answer (body : payload) : result response := Ok (mkResponse 200 "" body).
Definition refused : result response := Ok (mkResponse 403 "" Empty).

Definition serve (k : K) (req : request) : K * result response :=
  let s := norm k in
  let groups := map_to_list (ks_groups s) in
  if bool_decide (rq_method req = "GET") then
    (k, match asked (rq_rel req) with
        | AllGroups => answer (Decoded (JArr ((λ x, group_json x.1 x.2) <$> filter at_top groups)))
        | OneGroup g => match ks_groups s !! g with Some p => answer (Decoded (group_json g p)) | None => refused end
        | GroupsOf u => answer (Decoded (JArr ((λ x, group_json x.1 x.2) <$> filter (λ x, (u, x.1) ∈ ks_members s) groups)))
        | _ => refused
        end)
  else if bool_decide (rq_method req = "DELETE") then
    match asked (rq_rel req) with
    | OnePerson u =>
        if bool_decide (u = "") then (k, refused)
        else (mkState (delete u (ks_people s)) (ks_groups s) (filter (λ x, x.1 ≠ u) (ks_members s)) (filter (λ x, x.1 ≠ u) (ks_links s)), answer Empty)
    | OneGroup g =>
        match ks_groups s !! g with
        | Some p => (mkState (ks_people s) (filter (λ x, under p x.2 = false) (ks_groups s))
            (filter (λ x, dropped (ks_groups s) p x.2 = false) (ks_members s)) (ks_links s), answer Empty)
        | None => (k, refused)
        end
    | _ => (k, refused)
    end
  else if bool_decide (rq_method req = "PUT") then
    match asked (rq_rel req) with
    | Member u g =>
        if bool_decide (u = "") || negb (bool_decide (is_Some (ks_groups s !! g))) then (k, refused)
        else (mkState (ks_people s) (ks_groups s) ({[(u, g)]} ∪ ks_members s) (ks_links s), answer Empty)
    | _ => (k, refused)
    end
  else (k, refused).
#[export] Instance small : Keycloak K := serve.

Definition good (s : K) : Prop := (∀ g p, ks_groups s !! g = Some p → usable (g, p)) ∧ ∀ x, x ∈ ks_members s → is_Some (ks_groups s !! x.2).
Lemma norm_good s : good (norm s).
Proof. split; [intros g p [_ Hu]%map_lookup_filter_Some; done|]. by intros x [Hx _]%elem_of_filter. Qed.
Lemma good_norm s : good s → norm s = s.
Proof.
  intros [Hg Hm]. destruct s as [people groups members links]. unfold norm. cbn in *. rewrite map_filter_id by done. f_equal.
  apply set_eq. intros x. rewrite elem_of_filter. naive_solver.
Qed.

Lemma asked_admin realm path : asked (admin realm (String "/" path)) = if bool_decide (realm = "acme") then ask_of (unescape <$> split path "/") else Other.
Proof.
  unfold asked, admin. change (split ("/admin/realms/" +:+ PathEscape realm +:+ String "/" path) "/") with ("" :: "admin" :: "realms" :: split (PathEscape realm +:+ String "/" path) "/").
  rewrite split_segment, unescape_escape. done.
Qed.

Section Asked.
Context (realm : string).
Definition here (x : ask) : ask := if bool_decide (realm = "acme") then x else Other.

Lemma asked_person u : asked (admin realm (user_path u)) = here (OnePerson u).
Proof.
  refine (eq_trans (asked_admin realm ("users/" +:+ PathEscape u)) _). change ("users/" +:+ ?x) with ("users" +:+ String "/" x). rewrite split_app_sep by done.
  rewrite split_last. cbn. by rewrite unescape_escape.
Qed.
Lemma asked_group g : asked (admin realm (group_path g)) = here (OneGroup g).
Proof.
  refine (eq_trans (asked_admin realm ("groups/" +:+ PathEscape g)) _). change ("groups/" +:+ ?x) with ("groups" +:+ String "/" x). rewrite split_app_sep by done.
  rewrite split_last. cbn. by rewrite unescape_escape.
Qed.
Lemma asked_beneath u what : contains_byte what "/" = false → asked (admin realm (user_path u +:+ String "/" what)) = here (if bool_decide (unescape what = "groups") then GroupsOf u else Other).
Proof.
  intros Hw. unfold user_path. rewrite app_assoc_str. refine (eq_trans (asked_admin realm ("users/" +:+ PathEscape u +:+ String "/" what)) _). rewrite split_user, split_no_sep by done.
  cbn [fmap list_fmap ask_of]. by rewrite unescape_escape.
Qed.
Lemma asked_two u what x : contains_byte what "/" = false →
  asked (admin realm (user_path u +:+ String "/" (what +:+ String "/" (PathEscape x)))) = here (if bool_decide (unescape what = "groups") then Member u x else Other).
Proof.
  intros Hw. unfold user_path. rewrite app_assoc_str. refine (eq_trans (asked_admin realm ("users/" +:+ PathEscape u +:+ String "/" (what +:+ String "/" (PathEscape x)))) _).
  rewrite split_two by done. cbn [fmap list_fmap ask_of]. by rewrite !unescape_escape.
Qed.
Lemma asked_activation u : asked (activation_path realm u) = Other.
Proof.
  unfold asked, activation_path, activation_prefix. rewrite !app_assoc_str.
  change (split ("/realms/" +:+ PathEscape realm +:+ ?x) "/") with ("" :: "realms" :: split (PathEscape realm +:+ x) "/").
  change ("/gentian-activation/users/" +:+ ?x) with (String "/" ("gentian-activation" +:+ String "/" ("users/" +:+ x))). rewrite split_segment, split_app_sep by done. done.
Qed.
End Asked.

Lemma group_json_of id path : group_of (group_json id path) = Ok (mkGroupRep id (trim_prefix path "/") path {[CustomGroupAttribute := ["true"]]}).
Proof.
  unfold group_of, group_json. cbn [as_object]. cbn [mbind result_bind]. unfold member. by simplify_map_eq.
Qed.

Lemma groups_json_of (l : list (string * string)) : as_list group_of (JArr ((λ x, group_json x.1 x.2) <$> l))
  = Ok ((λ x, mkGroupRep x.1 (trim_prefix x.2 "/") x.2 {[CustomGroupAttribute := ["true"]]}) <$> l).
Proof. cbn [as_list]. induction l as [|x l IH]; [done|]. cbn [fmap list_fmap each_value]. rewrite group_json_of. cbn [fmap list_fmap] in IH. cbn [mbind result_bind]. by rewrite IH. Qed.

(** The three requests that change something. *)
Inductive served (k : K) (req : request) : K → Prop :=
  | sv_same : served k req k
  | sv_removed u : rq_method req = "DELETE" → asked (rq_rel req) = OnePerson u → u ≠ "" → served k req
      (mkState (delete u (ks_people (norm k))) (ks_groups (norm k)) (filter (λ x, x.1 ≠ u) (ks_members (norm k))) (filter (λ x, x.1 ≠ u) (ks_links (norm k))))
  | sv_dropped g p : rq_method req = "DELETE" → asked (rq_rel req) = OneGroup g → ks_groups (norm k) !! g = Some p → served k req
      (mkState (ks_people (norm k)) (filter (λ x, under p x.2 = false) (ks_groups (norm k)))
        (filter (λ x, dropped (ks_groups (norm k)) p x.2 = false) (ks_members (norm k))) (ks_links (norm k)))
  | sv_joined u g : rq_method req = "PUT" → asked (rq_rel req) = Member u g → u ≠ "" → is_Some (ks_groups (norm k) !! g) → served k req
      (mkState (ks_people (norm k)) (ks_groups (norm k)) ({[(u, g)]} ∪ ks_members (norm k)) (ks_links (norm k))).

Lemma serve_served k req : served k req (serve k req).1.
Proof.
  unfold serve. cbv zeta. case_bool_decide; [constructor|]. case_bool_decide as Hd.
  - destruct (asked (rq_rel req)) as [|g| |u| |] eqn:E; try constructor.
    + destruct (ks_groups (norm k) !! g) as [p|] eqn:Eg; [by apply (sv_dropped _ _ g)|constructor].
    + case_bool_decide; [constructor|]. by apply sv_removed.
  - case_bool_decide as Hp; [|constructor]. destruct (asked (rq_rel req)) as [| | | |u g|] eqn:E; try constructor.
    destruct (_ || _) eqn:Ec; [constructor|]. apply orb_false_iff in Ec as [?%bool_decide_eq_false ?%negb_false_iff%bool_decide_eq_true]. by apply sv_joined.
Qed.

Lemma served_good k req k' : served k req k' → k' = k ∨ good k'.
Proof.
  destruct (norm_good k) as [Hg Hm]. intros [|u _ _ _|g p _ _ Hp|u g _ _ _ Hex]; [by left|right..]; split; cbn [ks_groups ks_members].
  - done.
  - by intros x [_ Hx]%elem_of_filter; apply Hm.
  - intros g' p' [Hg' _]%map_lookup_filter_Some. by apply Hg.
  - intros x [Hd Hx]%elem_of_filter. destruct (Hm x Hx) as [q Hq]. exists q. apply map_lookup_filter_Some. split; [done|]. cbn. unfold dropped in Hd. by rewrite Hq in Hd.
  - done.
  - intros x [->%elem_of_singleton|Hx]%elem_of_union; [done|by apply Hm].
Qed.

Definition about (realm rel : string) (a : ask) : Prop :=
  match a with
  | OnePerson u => rel = admin realm (user_path u)
  | OneGroup g => rel = admin realm (group_path g)
  | Member u g => rel = admin realm (member_path u g)
  | AllGroups | GroupsOf _ => True
  | Other => False
  end.
Lemma here_about realm rel a b : here realm a = b → b ≠ Other → about realm rel a → realm = "acme" ∧ about realm rel b.
Proof. unfold here. case_bool_decide; [by intros -> ? ?|by intros <-]. Qed.

Lemma endpoint_about realm body method rel a : endpoint realm body method rel → method ≠ "POST" → asked rel = a → a ≠ Other → realm = "acme" ∧ about realm rel a.
Proof.
  intros [m u rest Hu Hr _| |u g _ _|u g _ _|u alias _|u alias _| |g _ _|g _|u _] Hm Ha Hne; try done.
  - destruct Hr as [| |x Hx].
    + rewrite app_empty_r in *. rewrite asked_person in Ha. by eapply here_about.
    + change "/execute-actions-email" with (String "/" "execute-actions-email") in Ha. rewrite asked_beneath in Ha by done. unfold here in Ha. cbn in Ha. by destruct (bool_decide _).
    + change ("/credentials/" +:+ PathEscape x) with (String "/" ("credentials" +:+ String "/" (PathEscape x))) in Ha. rewrite asked_two in Ha by done. unfold here in Ha. cbn in Ha. by destruct (bool_decide _).
  - unfold member_path in Ha. change ("/groups/" +:+ PathEscape g) with (String "/" ("groups" +:+ String "/" (PathEscape g))) in Ha. rewrite asked_two in Ha by done. by eapply here_about.
  - unfold member_path in Ha. change ("/groups/" +:+ PathEscape g) with (String "/" ("groups" +:+ String "/" (PathEscape g))) in Ha. rewrite asked_two in Ha by done. by eapply here_about.
  - unfold link_path in Ha. change ("/federated-identity/" +:+ ?x) with (String "/" ("federated-identity" +:+ String "/" x)) in Ha. rewrite asked_two in Ha by done. unfold here in Ha. cbn in Ha.
    by destruct (bool_decide _).
  - rewrite asked_group in Ha. by eapply here_about.
  - rewrite asked_group in Ha. by eapply here_about.
Qed.

Lemma realm_of_good k : good k → realm_of k "acme" = k.
Proof. apply good_norm. Qed.
Lemma served_writes k method rel query body realm k' : endpoint realm body method rel → served k (mkRequest method rel query body) k' →
  k' = k ∨ realm = "acme" ∧ writes "acme" body (norm k) method rel k'.
Proof.
  intros He Hs. inversion Hs as [|u Hm Ha Hu|g p Hm Ha Hp|u g Hm Ha Hu Hex]; [by left|right..]; cbn in Hm, Ha; clear Hs;
    (eapply endpoint_about in He as [Hacme Hrel]; [|by rewrite Hm|exact Ha|done]); cbn in Hrel; subst realm rel method; (split; [done|]).
  - by constructor.
  - constructor; [|done]. by destruct (proj1 (norm_good k) g p Hp).
  - constructor; [done|]. destruct Hex as [p Hp]. by destruct (proj1 (norm_good k) g p Hp).
Qed.

Lemma small_writes k method rel query body k' res realm : endpoint realm body method rel → serve k (mkRequest method rel query body) = (k', res) →
  (realm_of k' realm = realm_of k realm ∨ writes realm body (realm_of k realm) method rel (realm_of k' realm)) ∧ ∀ other, other ≠ realm → realm_of k' other = realm_of k other.
Proof.
  intros He Hs. pose proof (serve_served k (mkRequest method rel query body)) as Hv. rewrite Hs in Hv. cbn in Hv. pose proof (served_good _ _ _ Hv) as Hgood.
  destruct (served_writes _ _ _ _ _ _ _ He Hv) as [->|[-> Hw]]; [split; [by left|done]|]. destruct Hgood as [->|Hgood]; [split; [by left|done]|]. split.
  - right. by rewrite (realm_of_good k').
  - intros other Hne. unfold realm_of. by rewrite !bool_decide_eq_false_2.
Qed.

Lemma asked_groups realm : asked (admin realm "/groups") = here realm AllGroups.
Proof. exact (asked_admin realm "groups"). Qed.

#[export] Instance small_laws : KeycloakLaws K unit.
Proof.
  refine {| kc_state := realm_of |}.
  - intros k req k' res Hget. unfold kc_do, small, serve. cbv zeta. rewrite bool_decide_eq_true_2 by done. by intros [= <- _].
  - intros k method rel query body k' res realm. apply small_writes.
  - intros k realm g p. unfold realm_of. case_bool_decide; [|done]. intros Hg. apply (proj1 (norm_good k)) in Hg as [Hne Hp]. split; [done|]. cbn in Hp.
    destruct p as [|x [|y q]]; [done..|]. subst x. by exists y, q.
  - intros k realm u g. unfold realm_of. case_bool_decide; [|done]. apply (proj2 (norm_good k) (u, g)).
  - intros k realm g query k' resp rep. unfold kc_do, small, serve. cbv zeta. cbn [rq_method rq_rel]. rewrite bool_decide_eq_true_2 by done. change ("/groups/" +:+ PathEscape g) with (group_path g).
    rewrite asked_group. unfold here, realm_of. case_bool_decide; [|intros [= <- <-] Hst; cbn in Hst; lia].
    destruct (ks_groups (norm k) !! g) as [p|]; [|intros [= <- <-] Hst; cbn in Hst; lia]. intros [= <- <-] _. cbn [decoded rs_body]. rewrite group_json_of. by intros [= <-].
  - intros k realm u query k' resp reps g p. unfold kc_do, small, serve. cbv zeta. cbn [rq_method rq_rel]. rewrite bool_decide_eq_true_2 by done.
    change ("/users/" +:+ PathEscape u +:+ "/groups") with (user_path u +:+ String "/" "groups"). rewrite asked_beneath by done. unfold here, realm_of. case_bool_decide; [|intros [= <- <-] Hst; cbn in Hst; lia].
    intros [= <- <-] _. cbn [decoded rs_body]. rewrite groups_json_of. intros [= <-] Hm Hg. eexists. split; [apply list_elem_of_fmap_2, list_elem_of_filter; split; [|by apply elem_of_map_to_list]|done]. done.
  - intros k realm query k' resp reps rep. unfold kc_do, small, serve. cbv zeta. cbn [rq_method rq_rel]. rewrite bool_decide_eq_true_2 by done. rewrite asked_groups. unfold here, realm_of.
    case_bool_decide; [|intros [= <- <-] Hst; cbn in Hst; lia]. intros [= <- <-] _. cbn [decoded rs_body]. rewrite groups_json_of. intros [= <-] (x & -> & [Htop Hx]%list_elem_of_filter)%list_elem_of_fmap.
    destruct x as [g p]. apply elem_of_map_to_list in Hx. cbn in *. split; [done|]. apply (proj1 (norm_good k)) in Hx as [_ Hp]. cbn in Hp. destruct p as [|x [|y q]]; [done..|]. subst x. by exists (String y q).
Defined.
End SmallKeycloak.

(** ** A realm *)
Module RealmExample.
Import SmallKeycloak.

Definition k0 : K := mkState {["alice" := tt; "bob" := tt; "carol" := tt]}
  {["g1" := "/gentian:platform:admins"; "g2" := "/gentian:tenant:acme:staff"; "g3" := "/gentian:tenant:beta:staff"; "g4" := "/ops"; "g5" := "/ops/admins"]}
  {[("alice", "g1"); ("bob", "g3"); ("carol", "g5")]} ∅.
Definition client (roles : list string) : Client K := mkClient {["acme"]} (Some (λ _, Ok roles)) None.
Definition whole : Realm := mkRealm "acme" "".
Definition acme_only : Realm := Scoped whole "gentian:tenant:acme:".
#[local] Instance plain_unicode : Unicode := λ s, s.
#[local] Instance plain_fold : UnicodeFold := λ s t, bool_decide (s = t).

Lemma client_knows roles : knows (client roles) (role_names roles) ∅.
Proof. constructor; [|by intros u Hu%elem_of_empty]. by intros f k answered [= <-] [= <-]. Qed.

Definition admins : list string := ["gentian:platform:admins"].
Definition day : list (Realm * operation) :=
  [(whole, OpSetMembership "bob" "gentian:tenant:acme:staff" true); (whole, OpRemovePerson "alice"); (whole, OpRemovePerson "carol");
   (whole, OpSetMembership "bob" "gentian:platform:admins" true)].
Definition k1 : K := perform_all (client admins) day k0.

Lemma no_operation_changes_holders_witness :
  (bool_decide (("bob", "g2") ∈ ks_members k1) && bool_decide (is_Some (ks_people k1 !! "alice")) && bool_decide (ks_people k1 !! "carol" = None)) = true
  ∧ same_holders admins ∅ (kc_state k0 "acme") (kc_state k1 "acme")
  ∧ (∀ u, holds_role admins ∅ (kc_state k1 "acme") u ↔ holds_role admins ∅ (kc_state k0 "acme") u).
Proof. split; [vm_compute; reflexivity|]. apply (no_operation_changes_holders (client admins) admins ∅ day k0 "acme"); [apply (client_knows admins)|by repeat constructor]. Defined.

Definition confined : list operation := [OpSetMembership "carol" "gentian:tenant:acme:staff" true; OpSetMembership "carol" "gentian:tenant:beta:staff" true; OpDeleteGroup "gentian:tenant:beta:staff"].
Definition k2 : K := perform_all (client admins) (pair acme_only <$> confined) k0.
Lemma scope_confines_groups_witness :
  (bool_decide (("carol", "g2") ∈ ks_members k2) && bool_decide (("carol", "g3") ∉ ks_members k2)) = true
  ∧ same_outside acme_only (kc_state k0 "acme") (kc_state k2 "acme")
  ∧ (∀ other, other ≠ "acme" → kc_state k2 other = kc_state k0 other).
Proof. split; [vm_compute; reflexivity|]. apply (scope_confines_groups (client admins) acme_only confined k0). by repeat constructor. Defined.

(** Removing a person is not held to the scope: with a token scoped to the groups of one
    tenant, somebody who is only in a group of another is removed from the realm, and from
    that group. *)
Theorem removal_ignores_the_scope prefix : ∃ k', perform (client admins) (Scoped whole prefix) (OpRemovePerson "bob") k0 = (k', Ok tt)
  ∧ ks_groups (kc_state k0 "acme") !! "g3" = Some "/gentian:tenant:beta:staff" ∧ permits acme_only "/gentian:tenant:beta:staff" = false
  ∧ ("bob", "g3") ∈ ks_members (kc_state k0 "acme") ∧ (("bob", "g3") ∉ ks_members (kc_state k' "acme")) ∧ ks_people (kc_state k' "acme") !! "bob" = None.
Proof.
  eexists. split; [vm_compute; reflexivity|]. split; [vm_compute; reflexivity|]. split; [vm_compute; reflexivity|]. split; [apply (bool_decide_unpack _); vm_compute; exact I|].
  split; [apply (bool_decide_unpack _); vm_compute; exact I|vm_compute; reflexivity].
Qed.

Lemma nobody_left (members : gset (string * string)) u g : filter (λ x, x.1 = u) members = ∅ → (u, g) ∉ members.
Proof. intros He Hin. assert ((u, g) ∈ filter (λ x, x.1 = u) members) as Hn by by apply elem_of_filter. by rewrite He in Hn. Qed.

(** The groups above a role's group are not guarded: where the claim names a group that is
    beneath another, deleting that other one takes the role from everybody who holds it. *)
Theorem role_group_goes_with_its_parent : ∃ k', perform (client ["ops/admins"]) whole (OpDeleteGroup "ops") k0 = (k', Ok tt)
  ∧ holds_role ["ops/admins"] ∅ (kc_state k0 "acme") "carol" ∧ ¬ holds_role ["ops/admins"] ∅ (kc_state k' "acme") "carol".
Proof.
  eexists. split; [vm_compute; reflexivity|]. split.
  - left. exists "g5", "/ops/admins". split; [apply (bool_decide_unpack _); vm_compute; exact I|]. split; [vm_compute; reflexivity|]. by eexists.
  - intros [(g & p & Hin & _)|Hin]; [|by apply elem_of_empty in Hin].
    match type of Hin with _ ∈ ks_members ?s => assert (filter (λ x, x.1 = "carol") (ks_members s) = ∅) as He by (apply (bool_decide_unpack _); vm_compute; exact I) end.
    by apply (nobody_left _ "carol" g He).
Qed.
End RealmExample.
