(* ===== verification/Custodian.v ===== *)
(** * The custodian of credentials ([internal/custodian])

    Where a person sees which credentials are required and sets one.  The caller's token is
    verified, the rights store is asked what they may see and set, and the custodian writes
    to the vault under its own name, which cannot read a value ([authorize.go],
    [catalogue.go], [http.go], [openbao.go], [refresh.go], [repositories.go],
    [backupidentity.go], [internal/kernel/secrets/login.go], [internal/handover]).

    What is outside is the class [World]: the vault, the Kubernetes API, the clock, and the
    validator behind its interface.  A request is one step of the server, from the state it
    finds to the state it leaves. *)

From S2P Require Import Prelude.
From S2P Require Import GoStrings.
From S2P Require Import GoTime.
From S2P Require Import Ids.
From S2P Require Import Authn.
From S2P Require Import GoJson.
From Stdlib Require Import ZArith.
#[local] Open Scope Z_scope.

(** ** Requirements, probes, repositories *)

Record Field := mkField { fd_key : string; fd_format : string; fd_secret : bool; fd_minLength : Z; fd_example : string }.

Record CredentialRequirement := mkRequirement {
  cr_name : string; cr_labels : gmap string string; cr_displayName : string; cr_description : string; cr_phase : string;
  cr_scope : string; cr_tenant : string; cr_optional : bool; cr_vaultPath : string; cr_fields : list Field;
  cr_validate : option (string * string) }.

Record Status := mkStatus {
  st_name : string; st_displayName : string; st_description : string; st_phase : string; st_scope : string; st_tenant : string;
  st_provider : string; st_optional : bool; st_vaultPath : string; st_fields : list Field; st_validator : string; st_validateHost : string;
  st_satisfied : bool; st_reason : string; st_pending : bool; st_setBy : string; st_updatedAt : string }.

(** An ExternalSecret, as the API gives it to a client that does not know its type. *)
Record ExternalSecret := mkExternal { es_namespace : string; es_name : string; es_annotations : gmap string string; es_object : json }.
Record Repository := mkRepository { rp_name : string; rp_object : json }.

Record RepositoryView := mkRepositoryView {
  rv_name : string; rv_tenant : string; rv_role : string; rv_type : string; rv_url : string; rv_branch : string;
  rv_writable : bool; rv_owned : bool; rv_credentialName : string }.

(** [unstructured.NestedFieldNoCopy]: the value under a path of keys; none where it is not
    there or something on the way is not an object. *)
Fixpoint nested (v : json) (path : list string) : option json :=
  match path with
  | [] => Some v
  | k :: path => match v with JObj m => v' ← m !! k; nested v' path | _ => None end
  end.
(** A value of any type compared with a string. *)
Definition is_str (v : option json) (s : string) : bool := match v with Some (JStr s') => bool_decide (s' = s) | _ => false end.
Definition nested_string (v : json) (path : list string) : string := match nested v path with Some (JStr s) => s | _ => "" end.
Definition nested_bool (v : json) (path : list string) : bool := match nested v path with Some (JBool b) => b | _ => false end.
Definition nested_slice (v : json) (path : list string) : option (list json) := match nested v path with Some (JArr l) => Some l | _ => None end.

(** ** What is outside *)

(** A request to the vault: [<addr>/v1/<mount>/data/<path>], [.../metadata/<path>], or
    the login of the Kubernetes auth method. *)
Inductive area := Data | Metadata_ | LoginAt.
Record bao_request := mkBao { b_method : string; b_area : area; b_path : string; b_token : string; b_body : gmap string string }.
Record bao_response := mkAnswer { br_status : Z; br_text : string; br_body : payload }.

(** What the validator says of a credential; that it has nothing to probe is
    [ErrNoEndpoint]. *)
Record FieldError := mkFieldError { fe_field : string; fe_message : string }.
Inductive verdict := Valid | NoEndpoint (why : error) | Invalid (why : error) (fields : list FieldError).

Inductive record_read := RecordMissing | RecordFailed | RecordFound (data : gmap string string).

Class World (W : Type) := {
  bao_do : W → bao_request → W * option bao_response;
  clock : W → Z;
  sa_token : W → option string;
  list_requirements : W → option (list CredentialRequirement);
  get_external : W → string → string → option ExternalSecret;
  list_external : W → option (list ExternalSecret);
  patch_external : W → ExternalSecret → gmap string string → W * bool;
  list_repositories : W → option (list Repository);
  list_tenants : W → option (list (string * string));
  get_record : W → string → record_read;
  create_record : W → string → gmap string string → W * result unit;
  update_record : W → string → gmap string string → W * result unit;
  validate : W → string → string → gmap string string → verdict }.

(** ** The server *)

Record Server := mkServer {
  sv_graph : bool; sv_cluster : string; sv_kernelRealm : string; sv_probeNamespace : string; sv_role : string;
  sv_client : bool; sv_handoverNamespace : string }.

(** The login that is kept, with the token's expiry. *)
Record Login := mkLogin { lg_token : string; lg_exp : Z; lg_static : bool }.

(** The verifier's keys, the login, what the request under way has asked the store, and the
    first question it got no answer to. *)
Record state (A W : Type) := mkState { s_keys : A; s_login : Login; s_asked : gmap string bool; s_failed : option error; s_world : W }.
Arguments mkState {_ _} _ _ _ _ _.
Arguments s_keys {_ _} _.
Arguments s_login {_ _} _.
Arguments s_asked {_ _} _.
Arguments s_failed {_ _} _.
Arguments s_world {_ _} _.

Record Principal := mkPrincipal { pr_user : string; pr_holder : string; pr_name : string; pr_tenant : string }.
Record Viewer := mkViewer { vw_who : Principal; vw_clusterAdmin : bool; vw_tenant : string }.
Record PathMetadata := mkMetadata { md_exists : bool; md_recipient : string; md_setBy : string; md_updatedAt : Z; md_version : Z }.

Definition relationRead : string := "can_read_credential".
Definition relationWrite : string := "can_write_credential".
Definition scopeCluster : string := "cluster".
Definition scopeTenant : string := "tenant".

Definition ErrUnauthenticated : error := Sentinel "the token could not be verified".
Definition ErrAuthorizationUnavailable : error := Sentinel "the authorization store did not answer".
Definition ErrUpstream : error := Sentinel "openbao unreachable".
Definition ErrLoginRefused : error := Sentinel "openbao refused the login".
Definition ErrVaultLogin : error := Sentinel "the custodian could not log in to OpenBao".
Definition ErrTokenRefused : error := Sentinel "openbao refused the token".
Definition ErrRequirementNotFound : error := Sentinel "no such requirement, or not visible at this scope".
Definition Is (e target : error) : bool := match target with Sentinel n => errors_Is e n | _ => false end.

(** A form's answer, or what is said instead; the JSON it is written as is not kept. *)
Inductive answer :=
  | Healthy
  | Failed (code : Z) (why : error) (fields : list FieldError)
  | Credentials (items : list Status)
  | Credential (item : Status)
  | Stored (name path setBy : string) (validated : option bool) (skipped : option error)
  | Escrowed (tenant path setBy recipient : string)
  | Escrow (tenant : string) (md : PathMetadata)
  | Repositories (items : list RepositoryView).

Inductive route :=
  | Healthz | ListCredentials | GetCredential (name : string) | SetCredential (name : string) (body : option (gmap string string))
  | GetBackupIdentity | SetBackupIdentity (body : option (string * string)) | ListRepositories.
Record http_request := mkHttp { hr_authorization : string; hr_route : route }.

Definition forceSyncAnnotation : string := "force-sync".
Definition pendingWindow : Z := 2 * Minute.
Definition ProviderLabel : string := "gentianos.io/credential-provider".
Definition probePrefix : string := "credreq-".
Definition TenantPath (tenant : string) : string := "gentian-os/tenants/" +:+ tenant.
Definition BackupIdentityPath (tenant : string) : string := TenantPath tenant +:+ "/backup/identity".
Definition backupIdentityField : string := "identity".
Definition identityPrefix : string := "AGE-SECRET-KEY-".
Definition recipientPrefix : string := "age1".
Definition maxIdentityLen : nat := 256.

(** ** The probe of a requirement *)

Section Probe.
Context `{Rfc3339}.

Fixpoint ready_in (conds : list json) : bool * Z * string :=
  match conds with
  | [] => (false, zeroTime, "probe has not reported a Ready condition")
  | raw :: conds =>
      match raw with
      | JObj cond =>
          if negb (is_str (cond !! "type") "Ready") then ready_in conds
          else
            let since := match cond !! "lastTransitionTime" with Some (JStr at_) => default zeroTime (rfc3339_parse at_) | _ => zeroTime end in
            match cond !! "status" with
            | Some (JStr "True") => (true, since, "")
            | _ => (false, since, match cond !! "message" with Some (JStr (String c s)) => String c s | _ => "not ready" end)
            end
      | _ => ready_in conds
      end
  end.
Definition Ready (es : ExternalSecret) : bool * Z * string :=
  match nested_slice (es_object es) ["status"; "conditions"] with
  | None => (false, zeroTime, "probe has not reported yet")
  | Some conds => ready_in conds
  end.

Definition awaitingProbe (now : Z) (es : ExternalSecret) (readySince : Z) : bool :=
  match parse_int64 (default "" (es_annotations es !! forceSyncAnnotation)) with
  | None => false
  | Some stamp =>
      let nudged := time_Unix stamp in
      if bool_decide (pendingWindow < time_Sub now nudged) then false
      else bool_decide (readySince = zeroTime) || bool_decide (readySince < nudged)
  end.

(** Satisfied, pending, and the reason where it is neither. *)
Definition probe_verdict (now : Z) (es : option ExternalSecret) : bool * bool * string :=
  match es with
  | None => (false, false, "no satisfaction probe found — is the credential catalog applied?")
  | Some es =>
      let '(satisfied, since, reason) := Ready es in
      if satisfied : bool then (true, false, "")
      else if awaitingProbe now es since then (false, true, "saved, being checked")
      else (false, false, reason)
  end.
End Probe.

(** ** Fields *)

Definition unknown_field (name k : string) : FieldError := mkFieldError k ("unknown field for requirement " +:+ name).
Definition wrong_field (got : gmap string string) (f : Field) : option FieldError :=
  match got !! fd_key f with
  | None => Some (mkFieldError (fd_key f) "required")
  | Some v =>
      if negb (bool_decide (trim_space v = v)) then Some (mkFieldError (fd_key f) "has leading or trailing whitespace")
      else if bool_decide (0 < fd_minLength f) && bool_decide (Z.of_nat (String.length v) < fd_minLength f)
      then Some (mkFieldError (fd_key f) "must be at least %d characters") else None
  end.
(** Nothing, or every violation; that there are no fields at all is an error of its own. *)
Definition checkFields (req : Status) (got : gmap string string) : option (error * list FieldError) :=
  if bool_decide (got = ∅) then Some (Errorf "no fields supplied" [], [])
  else
    let unknown := sort_strings (filter (λ k, k ∉ fd_key <$> st_fields req) (map_to_list got).*1) in
    match (unknown_field (st_name req) <$> unknown) ++ omap (wrong_field got) (st_fields req) with
    | [] => None
    | errs => Some (Errorf "%s" [], errs)
    end.

(** ** Which ExternalSecrets read a path *)

Definition reads_key (v : json) (field vaultPath : string) : bool := is_str (nested v [field; "key"]) vaultPath.
Definition readsVaultPath (es : ExternalSecret) (vaultPath : string) : bool :=
  existsb (λ raw, reads_key raw "remoteRef" vaultPath) (default [] (nested_slice (es_object es) ["spec"; "data"]))
  || existsb (λ raw, existsb (λ field, reads_key raw field vaultPath) ["extract"; "find"]) (default [] (nested_slice (es_object es) ["spec"; "dataFrom"])).

Definition bearer (header : string) : result string :=
  match cut_prefix header "Bearer " with
  | None => Err (Errorf "a bearer token is required" [])
  | Some tok => if bool_decide (tok = "") then Err (Errorf "empty bearer token" []) else Ok tok
  end.

(** ** Operations *)

Section Operations.
Context {A W : Type} `{World W} `{Rfc3339} (verify_token : string → A → A * result Identity) (check : checker) (sv : Server).
Local Open Scope act_scope.
Abbreviation st := (state A W).

Definition set_world (w : W) (s : st) : st := mkState (s_keys s) (s_login s) (s_asked s) (s_failed s) w.
Definition set_login (l : Login) (s : st) : st := mkState (s_keys s) l (s_asked s) (s_failed s) (s_world s).
Definition observe {B} (f : W → B) : act st B := λ s, (s, Ok (f (s_world s))).
(** A request to the vault, and whether it was reached. *)
Definition bao (req : bao_request) : act st (option bao_response) := λ s,
  let '(w, resp) := bao_do (s_world s) req in (set_world w s, Ok resp).

(** *** The custodian's login *)

Definition login_of (v : json) : result (string * Z) :=
  m ← as_object v; auth ← as_object (member m "auth"); tok ← as_string (member auth "client_token"); lease ← as_int (member auth "lease_duration"); Ok (tok, lease).
(** [json.NewDecoder(body).Decode]: a body that is empty is an error. *)
Definition decoded_body {B} (f : json → result B) (p : payload) : result B :=
  match p with Decoded v => f v | _ => Err errUnmarshal end.

Definition login_Token : act st string := λ s,
  let l := s_login s in
  if bool_decide (lg_token l ≠ "") && bool_decide (60 * Second < time_Sub (lg_exp l) (clock (s_world s))) then (s, Ok (lg_token l))
  else match sa_token (s_world s) with
       | None => (s, Err (Errorf "read SA token %s: %w" []))
       | Some jwt =>
           let '(w, resp) := bao_do (s_world s) (mkBao "POST" LoginAt "" "" (<["role" := sv_role sv]> {["jwt" := trim_space jwt]})) in
           let s := set_world w s in
           match resp with
           | None => (s, Err (Wrapf "openbao kubernetes login: %w" [] ErrUpstream))
           | Some resp =>
               if negb (bool_decide (br_status resp = 200)) then (s, Err (Wrapf "openbao kubernetes login: HTTP %d: %s" [br_text resp] ErrLoginRefused))
               else match decoded_body login_of (br_body resp) with
                    | Err _ => (s, Err (Wrapf "openbao kubernetes login: decode: %w" [] ErrLoginRefused))
                    | Ok (tok, lease) =>
                        if bool_decide (tok = "") then (s, Err (Wrapf "openbao kubernetes login: empty client_token" [] ErrLoginRefused))
                        else (set_login (mkLogin tok (clock w + (if bool_decide (0 < lease) then wrap64 (lease * Second) else Hour)) (lg_static l)) s, Ok tok)
                    end
           end
       end.

Definition Token : act st string :=
  res ⇐ tried login_Token;
  match res with
  | Ok tok => ret tok
  | Err e =>
      if Is e ErrUpstream then fail e
      else if Is e ErrLoginRefused then fail (Wrapf "%w: OpenBao refused role %q" [sv_role sv] ErrVaultLogin)
      else fail (Wrapf "%w: %w" [] ErrVaultLogin)
  end.

Definition Forget (tok : string) : act st bool := λ s,
  let l := s_login s in
  if lg_static l then (s, Ok false)
  else (if bool_decide (lg_token l = tok) then set_login (mkLogin "" zeroTime false) s else s, Ok true).

Definition refusal (status : Z) (format : string) (args : list string) : error :=
  if bool_decide (status = 401) || bool_decide (status = 403) then Wrapf format args ErrTokenRefused else Errorf format args.

Definition WithToken {B} (fn : string → act st B) : act st B :=
  token ⇐ Token;
  res ⇐ tried (fn token);
  match res with
  | Ok b => ret b
  | Err e =>
      if negb (Is e ErrTokenRefused) then fail e
      else again ⇐ Forget token;
           if negb again then fail e else token ⇐ Token; fn token
  end.

(** *** Paths of the vault *)

Definition metadata_of (v : json) : result PathMetadata :=
  m ← as_object v; data ← as_object (member m "data"); version ← as_int (member data "current_version"); updated ← as_string (member data "updated_time");
  custom ← as_object (member data "custom_metadata"); setBy ← as_string (member custom "set_by"); recipient ← as_string (member custom "recipient");
  Ok (mkMetadata true recipient setBy (default zeroTime (rfc3339_parse updated)) version).
Definition no_metadata : PathMetadata := mkMetadata false "" "" zeroTime 0.

Definition Metadata (token path : string) : act st PathMetadata :=
  resp ⇐ bao (mkBao "GET" Metadata_ (trim_prefix path "/") token ∅);
  match resp with
  | None => fail (Errorf "openbao unreachable: %w" [])
  | Some resp =>
      if bool_decide (br_status resp = 404) then ret no_metadata
      else if negb (bool_decide (br_status resp = 200)) then fail (refusal (br_status resp) "metadata read failed (HTTP %d)" [])
      else of_result (decoded_body metadata_of (br_body resp))
  end.

Definition setCustomMetadata (token path setBy : string) (extra : gmap string string) : act st unit :=
  let meta := filter (λ x, x.2 ≠ "") extra in
  let meta := if bool_decide (setBy = "") then meta else <["set_by" := setBy]> meta in
  if bool_decide (meta = ∅) then ret tt
  else resp ⇐ bao (mkBao "POST" Metadata_ (trim_prefix path "/") token meta); ret tt.

(** What becomes of a write the vault answered. *)
Definition written (resp : option bao_response) (token path setBy : string) (extra : gmap string string) : act st unit :=
  match resp with
  | None => fail (Wrapf "%w: %w" [] ErrUpstream)
  | Some resp =>
      if bool_decide (br_status resp = 200) || bool_decide (br_status resp = 204) then setCustomMetadata token path setBy extra
      else let detail := trim_space (br_text resp) in
           fail (refusal (br_status resp) "openbao rejected the write to %s (HTTP %d): %s" [path; if bool_decide (detail = "") then "no detail returned" else detail])
  end.
Definition createAndRecord (token path : string) (fields : gmap string string) (setBy : string) (extra : gmap string string) : act st unit :=
  resp ⇐ bao (mkBao "POST" Data (trim_prefix path "/") token fields); written resp token path setBy extra.
Definition WriteWithMetadata (token path : string) (fields : gmap string string) (setBy : string) (extra : gmap string string) : act st unit :=
  if bool_decide (token = "") then fail (Errorf "no caller token: the custodian cannot write on its own authority" [])
  else
    resp ⇐ bao (mkBao "PATCH" Data (trim_prefix path "/") token fields);
    if bool_decide (br_status <$> resp = Some 404) then createAndRecord token path fields setBy extra
    else written resp token path setBy extra.
Definition Write (token path : string) (fields : gmap string string) (setBy : string) : act st unit := WriteWithMetadata token path fields setBy ∅.

(** *** Who is calling *)

Definition Object (scope tenant : string) : option string :=
  if bool_decide (scope = scopeCluster) then (if bool_decide (sv_cluster sv = "") then None else Some (Cluster (sv_cluster sv)))
  else if bool_decide (scope = scopeTenant) then (if bool_decide (tenant = "") then None else Some (Tenant tenant))
  else None.

Definition realm_of_tenant (t : string * string) : string := if bool_decide (t.2 = "") then t.1 else t.2.
Definition tenantOfRealm (realm : string) : act st string :=
  tenants ⇐ observe list_tenants;
  match tenants with
  | None => fail (Errorf "listing tenants: %w" [])
  | Some tenants => ret match list_find (λ t, realm_of_tenant t = realm) tenants with Some (_, t) => t.1 | None => "" end
  end.

Definition verified (token : string) : act st Identity := λ s,
  let '(a, r) := verify_token token (s_keys s) in (mkState a (s_login s) (s_asked s) (s_failed s) (s_world s), r).
Definition holder_name (i : Identity) : string := match HolderUser (id_realm i) (id_subject i) with Ok h => h | Err _ => "" end.
Definition Identify (token : string) : act st Principal :=
  ident ⇐ tried (verified token);
  match ident with
  | Err _ => fail (Wrapf "%w: %v" [] ErrUnauthenticated)
  | Ok ident =>
      match User (id_subject ident) with
      | Err _ => fail (Wrapf "%w: %v" [] ErrUnauthenticated)
      | Ok user =>
          let p tenant := mkPrincipal user (holder_name ident) (if bool_decide (id_email ident = "") then id_name ident else id_email ident) tenant in
          if bool_decide (id_realm ident = "") || bool_decide (id_realm ident = sv_kernelRealm sv) then ret (p "")
          else tenant ⇐ tried (tenantOfRealm (id_realm ident));
               match tenant with Ok t => ret (p t) | Err _ => fail (Wrapf "%w: %v" [] ErrAuthorizationUnavailable) end
      end
  end.

(** One question to the store, remembered for the request; one that fails is kept. *)
Definition ask (p : Principal) (relation scope tenant : string) : act st bool := λ s,
  match Object scope tenant with
  | None => (s, Ok false)
  | Some object =>
      let key := relation +:+ " " +:+ object in
      match s_asked s !! key with
      | Some answer => (s, Ok answer)
      | None =>
          match CheckAs check (pr_user p) (pr_holder p) relation object with
          | Err e => (mkState (s_keys s) (s_login s) (s_asked s) (Some (default e (s_failed s))) (s_world s), Ok false)
          | Ok allowed => (mkState (s_keys s) (s_login s) (<[key := allowed]> (s_asked s)) (s_failed s) (s_world s), Ok allowed)
          end
      end
  end.
Definition canSee (v : Viewer) (scope tenant : string) : act st bool := ask (vw_who v) relationRead scope tenant.
Definition canWrite (v : Viewer) (scope tenant : string) : act st bool := ask (vw_who v) relationWrite scope tenant.
Definition failure : act st (option error) := λ s, (s, Ok (s_failed s)).

Definition viewOf (p : Principal) : act st Viewer :=
  (λ s, (mkState (s_keys s) (s_login s) ∅ None (s_world s), Ok tt)) ;;
  admin ⇐ ask p relationWrite scopeCluster "";
  own ⇐ (if bool_decide (pr_tenant p = "") then ret false else ask p relationWrite scopeTenant (pr_tenant p));
  failed ⇐ failure;
  match failed with
  | Some _ => fail (Wrapf "%w: %v" [] ErrAuthorizationUnavailable)
  | None => ret (mkViewer p admin (if own : bool then pr_tenant p else ""))
  end.

(** *** The record that the write path works *)

Definition KeyWritePathProven : string := "writePathProven".
Definition provenData (user : string) (now : Z) : gmap string string :=
  let d := <[KeyWritePathProven := "true"]> {["provenAt" := rfc3339_format now]} in
  if bool_decide (user = "") then d else <["provenBy" := user]> d.
Definition RecordWritePathProven (namespace user : string) : act st unit := λ s,
  let w := s_world s in
  match get_record w namespace with
  | RecordMissing =>
      let '(w', r) := create_record w namespace (provenData user (clock w)) in
      (set_world w' s, match r with Err e => if errors_Is e "AlreadyExists" then Ok tt else Err (Wrapf "create handover record: %w" [] e) | Ok _ => Ok tt end)
  | RecordFailed => (s, Err (Errorf "read handover record: %w" []))
  | RecordFound data =>
      if bool_decide (data !! KeyWritePathProven = Some "true") then (s, Ok tt)
      else let '(w', r) := update_record w namespace (provenData user (clock w) ∪ data) in
           (set_world w' s, wrap "update handover record: %w" [] r)
  end.

Definition recordHandover (name : string) (v : Viewer) : act st unit :=
  if negb (sv_client sv) || bool_decide (sv_handoverNamespace sv = "") then ret tt
  else if negb (vw_clusterAdmin v) then ret tt
  else
    tok ⇐ tried Token;
    match tok with Err _ => ret tt | Ok _ => ignoring (RecordWritePathProven (sv_handoverNamespace sv) name) end.

Definition identify (r : http_request) : act st (string * Viewer) :=
  tok ⇐ of_result (bearer (hr_authorization r));
  if negb (sv_graph sv) then fail (Wrapf "%w: none is configured" [] ErrAuthorizationUnavailable)
  else
    who ⇐ Identify tok;
    view ⇐ viewOf who;
    recordHandover (pr_name who) view ;;
    ret (pr_name who, view).

(** *** The catalog *)

Definition status_of (r : CredentialRequirement) (probe : bool * bool * string) : Status :=
  let '(satisfied, pending, reason) := probe in
  mkStatus (cr_name r) (cr_displayName r) (cr_description r) (cr_phase r) (cr_scope r) (cr_tenant r) (default "" (cr_labels r !! ProviderLabel))
    (cr_optional r) (cr_vaultPath r) (cr_fields r) (default "" (fst <$> cr_validate r)) (default "" (snd <$> cr_validate r)) satisfied reason pending "" "".
Definition probeStatus (name : string) : act st (bool * bool * string) :=
  observe (λ w, probe_verdict (clock w) (get_external w (sv_probeNamespace sv) (probePrefix +:+ name))).

Fixpoint visible (v : Viewer) (reqs : list CredentialRequirement) : act st (list Status) :=
  match reqs with
  | [] => ret []
  | r :: reqs =>
      see ⇐ canSee v (cr_scope r) (cr_tenant r);
      if negb see then visible v reqs
      else probe ⇐ probeStatus (cr_name r); rest ⇐ visible v reqs; ret (status_of r probe :: rest)
  end.
Definition List_ (v : Viewer) : act st (list Status) :=
  reqs ⇐ observe list_requirements;
  match reqs with
  | None => fail (Errorf "listing credential requirements: %w" [])
  | Some reqs =>
      out ⇐ visible v reqs;
      failed ⇐ failure;
      match failed with
      | Some _ => fail (Wrapf "%w: %v" [] ErrAuthorizationUnavailable)
      | None => ret (sort_by st_name out)
      end
  end.
Definition Get (name : string) (v : Viewer) : act st Status :=
  all ⇐ List_ v;
  match list_find (λ x, st_name x = name) all with
  | Some (_, x) => ret x
  | None => fail (Wrapf "%w: %s" [name] ErrRequirementNotFound)
  end.

(** Who set each, where the vault says; once it cannot be reached, none of the rest. *)
Definition with_metadata (x : Status) (md : PathMetadata) : Status :=
  mkStatus (st_name x) (st_displayName x) (st_description x) (st_phase x) (st_scope x) (st_tenant x) (st_provider x) (st_optional x) (st_vaultPath x)
    (st_fields x) (st_validator x) (st_validateHost x) (st_satisfied x) (st_reason x) (st_pending x) (md_setBy md)
    (if bool_decide (md_updatedAt md = zeroTime) then st_updatedAt x else rfc3339_format (md_updatedAt md)).
Fixpoint decorate (items : list Status) : act st (list Status) :=
  match items with
  | [] => ret []
  | x :: items =>
      md ⇐ tried (WithToken (λ token, Metadata token (st_vaultPath x)));
      match md with
      | Err e => if Is e ErrVaultLogin || Is e ErrUpstream then ret (x :: items) else rest ⇐ decorate items; ret (x :: rest)
      | Ok md => rest ⇐ decorate items; ret (with_metadata x md :: rest)
      end
  end.

(** *** Routes *)

Definition failed (code : Z) (why : error) : answer := Failed code why [].
(** [if err != nil { answer; return }]. *)
Definition answering {B} (m : act st B) (on_error : error → answer) (k : B → act st answer) : act st answer :=
  res ⇐ tried m; match res with Ok b => k b | Err e => ret (on_error e) end.

Definition writeUnauthenticated (e : error) : answer := failed 401 (Errorf "unauthenticated" []).
Definition writeIdentityErr (e : error) : answer :=
  if Is e ErrAuthorizationUnavailable
  then failed 503 (Errorf "the custodian cannot ask the authorization store; this is not a problem with your account" [])
  else writeUnauthenticated e.
Definition writeVaultErr : answer := failed 502 (Errorf "the custodian cannot reach or log in to OpenBao; this is not a problem with your account" []).
Definition writeCatalogueErr (e : error) : answer :=
  if Is e ErrRequirementNotFound then failed 404 e
  else if Is e ErrAuthorizationUnavailable then writeIdentityErr e
  else failed 502 (Errorf "the custodian cannot read the credential catalog; this is not a problem with your account" []).

Definition handleList (r : http_request) : act st answer :=
  answering (identify r) writeIdentityErr (λ c,
  answering (List_ c.2) writeCatalogueErr (λ items,
  items ⇐ decorate items; ret (Credentials items))).

Definition handleGet (r : http_request) (name : string) : act st answer :=
  answering (identify r) writeIdentityErr (λ c,
  answering (Get name c.2) writeCatalogueErr (λ item,
  one ⇐ decorate [item]; ret match one with x :: _ => Credential x | [] => Credential item end)).

(** The ExternalSecrets that read a path are stamped, those that can be. *)
Fixpoint nudge (vaultPath stamp : string) (items : list ExternalSecret) : act st unit :=
  match items with
  | [] => ret tt
  | es :: items =>
      (if negb (readsVaultPath es vaultPath) then ret tt
       else λ s, (set_world (patch_external (s_world s) es (<[forceSyncAnnotation := stamp]> (es_annotations es))).1 s, Ok tt)) ;;
      nudge vaultPath stamp items
  end.
Definition refreshConsumers (vaultPath : string) : act st unit :=
  if negb (sv_client sv) || bool_decide (vaultPath = "") then ret tt
  else
    items ⇐ observe list_external;
    now ⇐ observe clock;
    match items with None => ret tt | Some items => nudge vaultPath (pretty (now `div` Second)) items end.

(** An error of the vault, where the credential was not stored. *)
Definition vault_refused (lost : string) (e : error) : answer :=
  if Is e ErrVaultLogin then writeVaultErr else if Is e ErrUpstream then failed 502 (Errorf lost []) else failed 403 e.

Definition needs_validation (req : Status) : bool := bool_decide (st_validator req ≠ "") && bool_decide (st_validator req ≠ "noop").
Definition store (name : string) (req : Status) (fields : gmap string string) (setBy : string) (skipped : option error) : act st answer :=
  answering (WithToken (λ token, Write token (st_vaultPath req) fields setBy)) (vault_refused "the custodian cannot reach OpenBao; the credential was not stored") (λ _,
  refreshConsumers (st_vaultPath req) ;;
  ret (Stored name (st_vaultPath req) setBy
    (match skipped with Some _ => Some false | None => if needs_validation req then Some true else None end) skipped)).

Definition handleSet (r : http_request) (name : string) (body : option (gmap string string)) : act st answer :=
  answering (identify r) writeIdentityErr (λ c,
  answering (Get name c.2) writeCatalogueErr (λ req,
  may ⇐ canWrite c.2 (st_scope req) (st_tenant req);
  if negb may then ret (failed 403 (Errorf "you may see %s and may not set it" [name]))
  else match body with
       | None => ret (failed 400 (Errorf "malformed body: %w" []))
       | Some fields =>
           match checkFields req fields with
           | Some (e, errs) => ret (Failed 400 e errs)
           | None =>
               if negb (needs_validation req) then store name req fields c.1 None
               else
                 v ⇐ observe (λ w, validate w (st_validator req) (st_validateHost req) fields);
                 match v with
                 | Valid => store name req fields c.1 None
                 | NoEndpoint why => store name req fields c.1 (Some why)
                 | Invalid why errs => ret (Failed 422 (Wrapf "validation failed against the target endpoint: %w" [] why) errs)
                 end
           end
       end)).

Definition handleSetBackupIdentity (r : http_request) (body : option (string * string)) : act st answer :=
  answering (identify r) writeIdentityErr (λ c,
  let tenant := vw_tenant c.2 in
  if bool_decide (tenant = "") then ret (failed 403 (Errorf "only a workspace administrator can escrow a backup key" []))
  else match body with
       | None => ret (failed 400 (Errorf "malformed body: %w" []))
       | Some (identity, recipient) =>
           let identity := trim_space identity in
           let recipient := trim_space recipient in
           if bool_decide (identity = "") then ret (failed 400 (Errorf "identity is required" []))
           else if bool_decide (maxIdentityLen < String.length identity)%nat then ret (failed 400 (Errorf "identity is too long to be an age key" []))
           else if negb (has_prefix identity identityPrefix) then ret (failed 400 (Errorf "that is not an age private key; they start with %s" [identityPrefix]))
           else if bool_decide (recipient ≠ "") && negb (has_prefix recipient recipientPrefix)
           then ret (failed 400 (Errorf "that is not an age public key; they start with %s" [recipientPrefix]))
           else
             answering (WithToken (λ token, WriteWithMetadata token (BackupIdentityPath tenant) {[backupIdentityField := identity]} c.1 {["recipient" := recipient]}))
               (vault_refused "the custodian cannot reach OpenBao; the key was not escrowed") (λ _,
             ret (Escrowed tenant (BackupIdentityPath tenant) c.1 recipient))
       end).

Definition handleGetBackupIdentity (r : http_request) : act st answer :=
  answering (identify r) writeIdentityErr (λ c,
  let tenant := vw_tenant c.2 in
  if bool_decide (tenant = "") then ret (failed 403 (Errorf "only a workspace administrator has a backup key" []))
  else
    answering (WithToken (λ token, Metadata token (BackupIdentityPath tenant)))
      (λ e, if Is e ErrVaultLogin then writeVaultErr else failed 502 (Errorf "the custodian cannot reach OpenBao" [])) (λ md,
    ret (Escrow tenant md))).

Definition canWriteRepository (v : Viewer) (tenant : string) : act st bool :=
  if bool_decide (tenant = "") then canWrite v scopeCluster "" else canWrite v scopeTenant tenant.
Definition repositoryView (item : Repository) (tenant : string) (v : Viewer) : act st RepositoryView :=
  let o := rp_object item in
  let external := nested_string o ["spec"; "endpoints"; "external"] in
  let role := nested_string o ["spec"; "role"] in
  owned ⇐ canWriteRepository v tenant;
  ret (mkRepositoryView (rp_name item) tenant (if bool_decide (role = "") then "apps" else role) (nested_string o ["spec"; "type"])
    (if bool_decide (external = "") then nested_string o ["spec"; "endpoints"; "inCluster"] else external) (nested_string o ["spec"; "branch"])
    (nested_bool o ["spec"; "writable"]) owned ("repository-" +:+ rp_name item)).
(** A tenant's, to whoever may read that tenant's; the cluster's, also to a tenant's
    administrator. *)
Definition shows (v : Viewer) (tenant : string) : act st bool :=
  if bool_decide (tenant = "") then see ⇐ canSee v scopeCluster ""; ret (see || bool_decide (vw_tenant v ≠ ""))
  else canSee v scopeTenant tenant.
Fixpoint repositories_for (v : Viewer) (items : list Repository) : act st (list RepositoryView) :=
  match items with
  | [] => ret []
  | item :: items =>
      let tenant := nested_string (rp_object item) ["spec"; "tenant"] in
      see ⇐ shows v tenant;
      if negb see then repositories_for v items
      else view ⇐ repositoryView item tenant v; rest ⇐ repositories_for v items; ret (view :: rest)
  end.
Definition listRepositories (v : Viewer) : act st (list RepositoryView) :=
  items ⇐ observe list_repositories;
  match items with
  | None => fail (Errorf "listing repositories: %w" [])
  | Some items => out ⇐ repositories_for v items; ret (sort_by rv_name out)
  end.
Definition handleListRepositories (r : http_request) : act st answer :=
  answering (identify r) writeUnauthenticated (λ c,
  answering (listRepositories c.2) (failed 500) (λ items, ret (Repositories items))).

Definition Routes (r : http_request) : act st answer :=
  match hr_route r with
  | Healthz => ret Healthy
  | ListCredentials => handleList r
  | GetCredential name => handleGet r name
  | SetCredential name body => handleSet r name body
  | GetBackupIdentity => handleGetBackupIdentity r
  | SetBackupIdentity body => handleSetBackupIdentity r body
  | ListRepositories => handleListRepositories r
  end.
End Operations.
