(* ===== verification/CustodianSafety.v ===== *)
(** * Who sets a credential

    [VaultLaws]: what the vault documents of the requests the custodian makes, and that
    those it makes of the Kubernetes API change no document.  From them, what every action
    of the custodian leaves of the vault, who the caller is known to be, and
    [only_the_entitled_set_credentials]. *)

From S2P Require Import Prelude.
From S2P Require Import GoStrings.
From S2P Require Import GoTime.
From S2P Require Import Ids.
From S2P Require Import Authn.
From S2P Require Import GoJson.
From S2P Require Import Custodian.
From Stdlib Require Import ZArith.
#[local] Open Scope Z_scope.

(** ** The vault *)

(** A merge: the keys given are written, the others stay. *)
Definition merged (path : string) (fields : gmap string string) (docs : gmap string (gmap string string)) : gmap string (gmap string string) :=
  <[path := fields ∪ default ∅ (docs !! path)]> docs.
Definition accepted (resp : option bao_response) : Prop := ∃ r, resp = Some r ∧ (br_status r = 200 ∨ br_status r = 204).

Class VaultLaws (W : Type) `{World W} := {
  w_docs : W → gmap string (gmap string string);
  vl_other w req w' resp : b_area req ≠ Data → bao_do w req = (w', resp) → w_docs w' = w_docs w;
  vl_patch w path token fields w' resp : bao_do w (mkBao "PATCH" Data path token fields) = (w', resp) →
    (w_docs w' = w_docs w ∧ ¬ accepted resp ∨ is_Some (w_docs w !! path) ∧ w_docs w' = merged path fields (w_docs w))
    ∧ (br_status <$> resp = Some 404 → w_docs w' = w_docs w ∧ w_docs w !! path = None);
  vl_create w path token fields w' resp : bao_do w (mkBao "POST" Data path token fields) = (w', resp) →
    w_docs w' = w_docs w ∧ ¬ accepted resp ∨ w_docs w' = <[path := fields]> (w_docs w);
  vl_external w es annotations : w_docs (patch_external w es annotations).1 = w_docs w;
  vl_created w ns data : w_docs (create_record w ns data).1 = w_docs w;
  vl_updated w ns data : w_docs (update_record w ns data).1 = w_docs w;
  vl_requirements w req : list_requirements (bao_do w req).1 = list_requirements w;
  vl_requirements_created w ns data : list_requirements (create_record w ns data).1 = list_requirements w;
  vl_requirements_updated w ns data : list_requirements (update_record w ns data).1 = list_requirements w }.

Lemma merged_merged path fields docs : merged path fields (merged path fields docs) = merged path fields docs.
Proof. unfold merged. rewrite lookup_insert_eq, insert_insert_eq. cbn. f_equal. by rewrite (assoc_L (∪)), (idemp_L (∪)). Qed.
Lemma merged_new path fields docs : docs !! path = None → merged path fields docs = <[path := fields]> docs.
Proof. intros Hn. unfold merged. rewrite Hn. cbn. by rewrite (right_id_L ∅ (∪)). Qed.

Lemma asks_read : relationRead ∈ [relationRead; relationWrite].
Proof. set_solver. Qed.
Lemma asks_write : relationWrite ∈ [relationRead; relationWrite].
Proof. set_solver. Qed.

(** ** What an action of the custodian leaves of the vault *)

Section Kept.
Context {A W : Type} `{VaultLaws W} `{Rfc3339} (verify_token : string → A → A * result Identity) (check : checker) (sv : Server).
Local Open Scope act_scope.
Abbreviation st := (state A W).

(** What holds of the documents, the requirements, and what the request has asked. *)
Definition assertion : Type := gmap string (gmap string string) → option (list CredentialRequirement) → gmap string bool → Prop.
Definition holds (P : assertion) (s : st) : Prop := P (w_docs (s_world s)) (list_requirements (s_world s)) (s_asked s).

Section Requests.
Context (P : assertion).

Lemma bao_kept req : b_area req ≠ Data → kept (holds P) (bao (A := A) req).
Proof.
  intros Ha s Hs. unfold bao. destruct (bao_do (s_world s) req) as [w resp] eqn:E. unfold holds. cbn.
  pose proof (vl_requirements (s_world s) req) as Hr. rewrite E in Hr. cbn in Hr. by rewrite Hr, (vl_other _ _ _ _ Ha E).
Qed.
Lemma observe_kept {B} (f : W → B) : kept (holds P) (observe (A := A) f).
Proof. by intros s Hs. Qed.
Lemma login_Token_kept : kept (holds P) (login_Token (A := A) sv).
Proof.
  intros s Hs. unfold login_Token. destruct (_ && _); [done|]. destruct (sa_token (s_world s)) as [jwt|]; [|done].
  pose proof (bao_kept (mkBao "POST" LoginAt "" "" (<["role" := sv_role sv]> {["jwt" := trim_space jwt]})) ltac:(done) s Hs) as Hk. unfold bao in Hk.
  destruct (bao_do (s_world s) _) as [w [resp|]]; [|done]. destruct (negb _); [done|]. destruct (decoded_body _ _) as [[tok lease]|]; [|done]. by destruct (bool_decide (tok = "")).
Qed.
Lemma Token_kept : kept (holds P) (Token (A := A) sv).
Proof.
  apply kept_bind; [apply kept_tried, login_Token_kept|]. intros [tok|e]; [apply kept_ret|]. destruct (Is e _); [apply kept_fail|]. destruct (Is e _); apply kept_fail.
Qed.
Lemma Forget_kept tok : kept (holds P) (Forget (A := A) tok).
Proof. intros s Hs. unfold Forget. destruct (lg_static _); [done|]. by destruct (bool_decide _). Qed.

Lemma WithToken_kept {B} (fn : string → act st B) : (∀ token, kept (holds P) (fn token)) → kept (holds P) (WithToken sv fn).
Proof.
  intros Hfn. apply kept_bind; [apply Token_kept|]. intros token. apply kept_bind; [by apply kept_tried|]. intros [b|e]; [apply kept_ret|].
  destruct (negb _); [apply kept_fail|]. apply kept_bind; [apply Forget_kept|]. intros again. destruct (negb again); [apply kept_fail|].
  apply kept_bind; [apply Token_kept|]. intros token'. apply Hfn.
Qed.

Lemma Metadata_kept token path : kept (holds P) (Metadata (A := A) token path).
Proof.
  apply kept_bind; [by apply bao_kept|]. intros [resp|]; [|apply kept_fail]. destruct (bool_decide _); [apply kept_ret|]. destruct (negb _); [apply kept_fail|apply kept_of_result].
Qed.
Lemma setCustomMetadata_kept token path setBy extra : kept (holds P) (setCustomMetadata (A := A) token path setBy extra).
Proof. unfold setCustomMetadata. cbv zeta. repeat case_match; try apply kept_ret; (apply kept_bind; [by apply bao_kept|intros ?; apply kept_ret]). Qed.

Lemma decorate_kept items : kept (holds P) (decorate (A := A) sv items).
Proof.
  induction items as [|x items IH]; [apply kept_ret|]. apply kept_bind; [apply kept_tried, WithToken_kept; intros token; apply Metadata_kept|]. intros [md|e].
  - apply kept_bind; [done|]. intros rest. apply kept_ret.
  - destruct (_ || _); [apply kept_ret|]. apply kept_bind; [done|]. intros rest. apply kept_ret.
Qed.

Lemma recordHandover_kept name v : kept (holds P) (recordHandover (A := A) sv name v).
Proof.
  unfold recordHandover. destruct (_ || _); [apply kept_ret|]. destruct (negb _); [apply kept_ret|]. apply kept_bind; [apply kept_tried, Token_kept|].
  intros [tok|e]; [|apply kept_ret]. intros s Hs. unfold ignoring, RecordWritePathProven. destruct (get_record (s_world s) _) as [| |data]; [| done |].
  - destruct (create_record _ _ _) as [w r] eqn:E. cbn. unfold holds. cbn.
    pose proof (vl_created (s_world s) (sv_handoverNamespace sv) (provenData name (clock (s_world s)))) as Hd.
    pose proof (vl_requirements_created (s_world s) (sv_handoverNamespace sv) (provenData name (clock (s_world s)))) as Hr. rewrite E in Hd, Hr. cbn in Hd, Hr. by rewrite Hd, Hr.
  - destruct (bool_decide _); [done|]. destruct (update_record _ _ _) as [w r] eqn:E. cbn. unfold holds. cbn.
    pose proof (vl_updated (s_world s) (sv_handoverNamespace sv) (provenData name (clock (s_world s)) ∪ data)) as Hd.
    pose proof (vl_requirements_updated (s_world s) (sv_handoverNamespace sv) (provenData name (clock (s_world s)) ∪ data)) as Hr. rewrite E in Hd, Hr. cbn in Hd, Hr. by rewrite Hd, Hr.
Qed.

(** *** Asking *)

Section Asking.
Context (v : Viewer).
Context (Hask : ∀ docs reqs asked relation object allowed, relation ∈ [relationRead; relationWrite] →
  CheckAs check (pr_user (vw_who v)) (pr_holder (vw_who v)) relation object = Ok allowed → P docs reqs asked → P docs reqs (<[relation +:+ " " +:+ object := allowed]> asked)).

Lemma ask_kept relation scope tenant : relation ∈ [relationRead; relationWrite] → kept (holds P) (ask (W := W) (A := A) check sv (vw_who v) relation scope tenant).
Proof.
  intros Hr s Hs. unfold ask. destruct (Object _ _ _) as [object|]; [|done]. destruct (s_asked s !! _); [done|].
  destruct (CheckAs _ _ _ _ _) as [allowed|e] eqn:E; [|done]. by apply Hask.
Qed.
Lemma canSee_kept scope tenant : kept (holds P) (canSee (W := W) (A := A) check sv v scope tenant).
Proof. apply ask_kept, asks_read. Qed.
Lemma canWrite_kept scope tenant : kept (holds P) (canWrite (W := W) (A := A) check sv v scope tenant).
Proof. apply ask_kept, asks_write. Qed.

Lemma visible_kept reqs : kept (holds P) (visible (A := A) check sv v reqs).
Proof.
  induction reqs as [|r reqs IH]; [apply kept_ret|]. apply kept_bind; [apply canSee_kept|]. intros see. destruct (negb see); [done|].
  apply kept_bind; [apply observe_kept|]. intros probe. apply kept_bind; [done|]. intros rest. apply kept_ret.
Qed.
Lemma List_kept : kept (holds P) (List_ (A := A) check sv v).
Proof.
  apply kept_bind; [apply observe_kept|]. intros [reqs|]; [|apply kept_fail]. apply kept_bind; [apply visible_kept|]. intros out.
  apply kept_bind; [by intros s Hs|]. intros [e|]; [apply kept_fail|apply kept_ret].
Qed.
Lemma Get_kept name : kept (holds P) (Get (A := A) check sv name v).
Proof. apply kept_bind; [apply List_kept|]. intros all. destruct (list_find _ _) as [[i x]|]; [apply kept_ret|apply kept_fail]. Qed.

Lemma shows_kept tenant : kept (holds P) (shows (W := W) (A := A) check sv v tenant).
Proof. unfold shows. destruct (bool_decide _); [|apply canSee_kept]. apply kept_bind; [apply canSee_kept|]. intros see. apply kept_ret. Qed.
Lemma repositories_kept items : kept (holds P) (repositories_for (W := W) (A := A) check sv v items).
Proof.
  induction items as [|item items IH]; [apply kept_ret|]. apply kept_bind; [apply shows_kept|]. intros see. destruct (negb see); [done|].
  apply kept_bind; [|intros view; apply kept_bind; [done|intros rest; apply kept_ret]]. apply kept_bind; [|intros owned; apply kept_ret].
  unfold canWriteRepository. destruct (bool_decide _); apply canWrite_kept.
Qed.
End Asking.
End Requests.

(** *** Writing *)

Section Writing.
Context (path : string) (fields : gmap string string) (d : gmap string (gmap string string)).
Abbreviation q := (trim_prefix path "/").

Definition maybe_stored : assertion := λ docs _ _, docs = d ∨ docs = merged q fields d.
Definition now_stored : assertion := λ docs _ _, docs = merged q fields d.

Lemma now_maybe s : holds now_stored s → holds maybe_stored s.
Proof. by right. Qed.
Lemma merged_maybe docs : docs = d ∨ docs = merged q fields d → merged q fields docs = merged q fields d.
Proof. intros [->| ->]; [done|apply merged_merged]. Qed.

(** The vault said yes, and so it is; or it said no, and nothing has been lost. *)
Definition told (resp : option bao_response) : assertion := λ docs _ _, (accepted resp → docs = merged q fields d) ∧ (docs = d ∨ docs = merged q fields d).

Lemma written_triple resp token setBy extra : triple (holds (told resp)) (written (A := A) resp token path setBy extra) (λ _, holds now_stored) (holds maybe_stored).
Proof.
  unfold written. destruct resp as [r|]; [|by apply triple_fail; intros s []]. destruct (_ || _) eqn:E; [|by apply triple_fail; intros s []].
  eapply triple_weaken; [apply (setCustomMetadata_kept now_stored)| |done|apply now_maybe].
  intros s [Hacc _]. apply Hacc. exists r. split; [done|]. apply orb_true_iff in E as [?%bool_decide_eq_true|?%bool_decide_eq_true]; auto.
Qed.

Lemma create_triple token setBy extra : triple (holds (λ docs reqs asked, maybe_stored docs reqs asked ∧ docs !! q = None)) (createAndRecord (A := A) token path fields setBy extra)
  (λ _, holds now_stored) (holds maybe_stored).
Proof.
  eapply (triple_bind _ _ (λ resp, holds (told resp))); [|intros resp; apply written_triple]. intros s [Hs Hn]. unfold bao. destruct (bao_do _ _) as [w resp] eqn:E.
  unfold holds, told. cbn. apply vl_create in E as [[-> Hno]| ->]; [split; [by intros ?|done]|].
  rewrite <- (merged_new _ _ _ Hn), (merged_maybe _ Hs). split; [done|by right].
Qed.

Lemma WriteWithMetadata_triple token setBy extra : triple (holds maybe_stored) (WriteWithMetadata (A := A) token path fields setBy extra) (λ _, holds now_stored) (holds maybe_stored).
Proof.
  unfold WriteWithMetadata. destruct (bool_decide _); [by apply triple_fail|].
  eapply (triple_bind _ _ (λ resp s, holds (told resp) s ∧ (br_status <$> resp = Some 404 → holds maybe_stored s ∧ w_docs (s_world s) !! q = None))).
  - intros s Hs. unfold bao. destruct (bao_do _ _) as [w resp] eqn:E. apply vl_patch in E as [Hcase H404]. unfold holds, told in *. cbn. split.
    + destruct Hcase as [[-> Hno]|[_ ->]]; [split; [by intros ?|done]|]. rewrite (merged_maybe _ Hs). split; [done|by right].
    + intros H4. destruct (H404 H4) as [Heq Hn]. by rewrite Heq.
  - intros resp. case_bool_decide as H4.
    + eapply triple_weaken; [apply create_triple|intros s [_ Hs]; by apply Hs|done|done].
    + eapply triple_weaken; [apply written_triple|by intros s []|done|done].
Qed.

Lemma WithToken_triple (fn : string → act st unit) : (∀ token, triple (holds maybe_stored) (fn token) (λ _, holds now_stored) (holds maybe_stored)) →
  triple (holds maybe_stored) (WithToken sv fn) (λ _, holds now_stored) (holds maybe_stored).
Proof.
  intros Hfn. eapply triple_bind; [apply (Token_kept maybe_stored)|]. intros token.
  eapply (triple_bind _ _ (λ res s, match res with Ok _ => holds now_stored s | Err _ => holds maybe_stored s end)).
  - intros s Hs. specialize (Hfn token s Hs). unfold tried. by destruct (fn token s) as [s' [b|e]].
  - intros [[]|e]; [by apply triple_ret|]. destruct (negb _); [by apply triple_fail|]. eapply triple_bind; [apply (Forget_kept maybe_stored)|].
    intros again. destruct (negb again); [by apply triple_fail|]. eapply triple_bind; [apply (Token_kept maybe_stored)|]. apply Hfn.
Qed.

Lemma stored_triple setBy extra : triple (holds maybe_stored) (WithToken sv (λ token, WriteWithMetadata (A := A) token path fields setBy extra)) (λ _, holds now_stored) (holds maybe_stored).
Proof. apply WithToken_triple. intros token. apply WriteWithMetadata_triple. Qed.
End Writing.

Lemma nudge_kept P vaultPath stamp items : (∀ docs reqs reqs' asked, P docs reqs asked → P docs reqs' asked) → kept (holds P) (nudge (A := A) vaultPath stamp items).
Proof.
  intros HP. induction items as [|es items IH]; [apply kept_ret|]. apply kept_bind; [|done]. destruct (negb _); [apply kept_ret|].
  intros s Hs. cbn. unfold holds. cbn. rewrite vl_external. by eapply HP.
Qed.
Lemma refreshConsumers_kept P vaultPath : (∀ docs reqs reqs' asked, P docs reqs asked → P docs reqs' asked) → kept (holds P) (refreshConsumers (A := A) sv vaultPath).
Proof.
  intros HP. unfold refreshConsumers. destruct (_ || _); [apply kept_ret|]. apply kept_bind; [apply observe_kept|]. intros items. apply kept_bind; [apply observe_kept|]. intros now.
  destruct items; [by apply nudge_kept|apply kept_ret].
Qed.
End Kept.

(** ** Who is calling *)

(** A value for every field that is declared and no other, none with white space around
    it or too short. *)
Record well_formed (declared : list Field) (got : gmap string string) : Prop := {
  wf_known : ∀ k, is_Some (got !! k) → k ∈ fd_key <$> declared;
  wf_values : ∀ f, f ∈ declared → ∃ v, got !! fd_key f = Some v ∧ trim_space v = v ∧ fd_minLength f ≤ Z.of_nat (String.length v) }.

Lemma checkFields_None req got : checkFields req got = None → well_formed (st_fields req) got.
Proof.
  unfold checkFields. destruct (bool_decide _); [done|]. destruct (_ ++ _) as [|e errs] eqn:E; [|done]. intros _. apply app_nil in E as [Hu Hw]. apply fmap_nil_inv in Hu. constructor.
  - intros k [v Hv]. destruct (decide (k ∈ fd_key <$> st_fields req)) as [|Hk]; [done|]. exfalso.
    assert (k ∈ sort_strings (filter (λ k, k ∉ fd_key <$> st_fields req) (map_to_list got).*1)) as Hin.
    { unfold sort_strings. rewrite merge_sort_Permutation. apply list_elem_of_filter. split; [done|]. apply list_elem_of_fmap. exists (k, v). split; [done|by apply elem_of_map_to_list]. }
    rewrite Hu in Hin. by apply not_elem_of_nil in Hin.
  - intros f Hf. assert (wrong_field got f = None) as Hn.
    { destruct (wrong_field got f) as [e|] eqn:E; [|done]. assert (e ∈ omap (wrong_field got) (st_fields req)) as He by (apply list_elem_of_omap; eauto). rewrite Hw in He. by apply not_elem_of_nil in He. }
    unfold wrong_field in Hn. destruct (got !! fd_key f) as [v|]; [|done]. case_bool_decide as Ht; [|done]. cbn in Hn.
    exists v. split; [done|]. split; [done|]. destruct (_ && _) eqn:Em; [done|]. apply andb_false_iff in Em as [?%bool_decide_eq_false|?%bool_decide_eq_false]; lia.
Qed.

Section Caller.
Context {A W : Type} `{VaultLaws W} `{Rfc3339} (verify_token : string → A → A * result Identity) (check : checker) (sv : Server).
Local Open Scope act_scope.
Abbreviation st := (state A W).

Definition granted (p : Principal) (relation scope tenant : string) : Prop :=
  ∃ object, Object sv scope tenant = Some object ∧ CheckAs check (pr_user p) (pr_holder p) relation object = Ok true.

(** What is remembered of the store's answers is what it told. *)
Definition recalled (v : Viewer) (asked : gmap string bool) : Prop := ∀ relation object allowed, relation ∈ [relationRead; relationWrite] →
  asked !! (relation +:+ " " +:+ object) = Some allowed → CheckAs check (pr_user (vw_who v)) (pr_holder (vw_who v)) relation object = Ok allowed.

Lemma question_inj r r' o o' : r ∈ [relationRead; relationWrite] → r' ∈ [relationRead; relationWrite] → r +:+ " " +:+ o = r' +:+ " " +:+ o' → r = r' ∧ o = o'.
Proof.
  intros Hr Hr' Heq. assert (r = r') as ->; [|split; [done|]; by apply (inj (String.append _)), (inj (String.append _)) in Heq].
  repeat (apply elem_of_cons in Hr as [->|Hr]; [|]); try by apply not_elem_of_nil in Hr.
  all: repeat (apply elem_of_cons in Hr' as [->|Hr']; [|]); try by apply not_elem_of_nil in Hr'. all: done.
Qed.

Lemma recalled_ask v asked relation object allowed : relation ∈ [relationRead; relationWrite] →
  CheckAs check (pr_user (vw_who v)) (pr_holder (vw_who v)) relation object = Ok allowed → recalled v asked → recalled v (<[relation +:+ " " +:+ object := allowed]> asked).
Proof.
  intros Hr Hc Hm r o b Hin. rewrite lookup_insert_Some. intros [[Heq <-]|[_ Hl]]; [|by apply Hm]. by apply question_inj in Heq as [<- <-].
Qed.

Lemma ask_true v relation scope tenant s s' : relation ∈ [relationRead; relationWrite] → recalled v (s_asked s) →
  ask (W := W) (A := A) check sv (vw_who v) relation scope tenant s = (s', Ok true) → granted (vw_who v) relation scope tenant.
Proof.
  intros Hr Hm. unfold ask, granted. destruct (Object sv scope tenant) as [object|]; [|done]. destruct (s_asked s !! _) as [b|] eqn:E.
  - intros [= <- ->]. exists object. split; [done|]. by apply Hm.
  - destruct (CheckAs _ _ _ _ _) as [b|e] eqn:Ec; [|done]. intros [= _ ->]. by exists object.
Qed.

(** The caller: whoever the token was verified to be, acting for the tenant whose realm
    signed them in, if they may. *)
Definition known (header : string) (s : st) (v : Viewer) : Prop := ∃ tok ident,
  bearer header = Ok tok ∧ (verify_token tok (s_keys s)).2 = Ok ident
  ∧ User (id_subject ident) = Ok (pr_user (vw_who v)) ∧ pr_holder (vw_who v) = holder_name ident
  ∧ (vw_tenant v ≠ "" → granted (vw_who v) relationWrite scopeTenant (vw_tenant v)
     ∧ ∃ tenants t, list_tenants (s_world s) = Some tenants ∧ t ∈ tenants ∧ t.1 = vw_tenant v ∧ realm_of_tenant t = id_realm ident).

Lemma Identify_inv tok s s' p : Identify (W := W) verify_token sv tok s = (s', Ok p) → s_world s' = s_world s ∧ s_login s' = s_login s ∧ ∃ ident,
  (verify_token tok (s_keys s)).2 = Ok ident ∧ User (id_subject ident) = Ok (pr_user p) ∧ pr_holder p = holder_name ident
  ∧ (pr_tenant p ≠ "" → ∃ tenants t, list_tenants (s_world s) = Some tenants ∧ t ∈ tenants ∧ t.1 = pr_tenant p ∧ realm_of_tenant t = id_realm ident).
Proof.
  unfold Identify, act_bind at 1, tried at 1, verified. destruct (verify_token tok (s_keys s)) as [a [ident|e]]; [|done].
  destruct (User (id_subject ident)) as [user|e] eqn:Eu; [|done]. destruct (_ || _).
  - intros [= <- <-]. split; [done|]. split; [done|]. exists ident. by repeat split.
  - unfold act_bind, tried, tenantOfRealm, act_bind, observe. cbn [s_world]. destruct (list_tenants (s_world s)) as [tenants|] eqn:El; [|done].
    intros [= <- <-]. split; [done|]. split; [done|]. exists ident. cbn. split; [done|]. split; [done|]. split; [done|]. intros Hne.
    destruct (list_find _ tenants) as [[i t]|] eqn:Ef; [|done]. apply list_find_Some in Ef as (Hl & Hr & _). exists tenants, t. split; [done|]. split; [by apply list_elem_of_lookup_2 in Hl|done].
Qed.

Lemma viewOf_inv p s s' v : viewOf (A := A) (W := W) check sv p s = (s', Ok v) → s_world s' = s_world s ∧ s_login s' = s_login s ∧ s_keys s' = s_keys s ∧ vw_who v = p ∧ recalled v (s_asked s')
  ∧ (vw_tenant v ≠ "" → vw_tenant v = pr_tenant p ∧ granted p relationWrite scopeTenant (pr_tenant p)).
Proof.
  unfold viewOf, act_bind at 1. set (s0 := mkState (s_keys s) (s_login s) ∅ None (s_world s)). set (v0 := mkViewer p false "").
  assert (recalled v0 (s_asked s0)) as Hv0 by (intros r o b _; cbn; by rewrite lookup_empty).
  assert (∀ scope tenant (t : st), recalled v0 (s_asked t) → let t' := (ask (A := A) check sv p relationWrite scope tenant t).1 in
    recalled v0 (s_asked t') ∧ s_world t' = s_world t ∧ s_login t' = s_login t ∧ s_keys t' = s_keys t) as Hstep.
  { intros scope tenant t Ht. cbv zeta. unfold ask. destruct (Object _ _ _); [|done]. destruct (s_asked t !! _); [done|]. destruct (CheckAs _ _ _ _ _) eqn:Ec; [|done]. cbn. split; [|done]. apply recalled_ask; [apply asks_write|done..]. }
  unfold act_bind at 1. destruct (ask check sv p relationWrite scopeCluster "" s0) as [s1 r1] eqn:E1. pose proof (Hstep scopeCluster "" s0 Hv0) as Hs1. rewrite E1 in Hs1. cbn in Hs1.
  destruct Hs1 as (H1' & Hw1 & Hl1 & Hk1). destruct r1 as [admin|e]; [|done].
  unfold act_bind at 1. destruct (bool_decide (pr_tenant p = "")) eqn:Et.
  - cbn. destruct (s_failed s1); [done|]. intros [= <- <-]. repeat split; try done; try congruence.
  - destruct (ask check sv p relationWrite scopeTenant (pr_tenant p) s1) as [s2 r2] eqn:E2. pose proof (Hstep scopeTenant (pr_tenant p) s1 H1') as Hs2. rewrite E2 in Hs2. cbn in Hs2.
    destruct Hs2 as (H2' & Hw2 & Hl2 & Hk2). destruct r2 as [own|e]; [|done]. cbn. destruct (s_failed s2); [done|]. intros [= <- <-]. cbn.
    repeat split; try done; try congruence.
    + by destruct own.
    + destruct own; [|done]. by eapply (ask_true v0); [apply asks_write| |exact E2].
Qed.

(** An assertion that does not speak of what was asked. *)
Definition unasked (P : assertion) : Prop := ∀ docs reqs asked asked', P docs reqs asked → P docs reqs asked'.

Lemma identify_kept P r : unasked P → kept (holds P) (identify (W := W) verify_token check sv r).
Proof.
  intros HP. apply kept_bind; [apply kept_of_result|]. intros tok. destruct (negb _); [apply kept_fail|]. apply kept_bind.
  - intros s Hs. destruct (Identify verify_token sv tok s) as [s' res] eqn:E.
    assert (s_world s' = s_world s ∧ s_asked s' = s_asked s) as [Hw Ha].
    { unfold Identify, act_bind at 1, tried at 1, verified in E. destruct (verify_token tok (s_keys s)) as [a [ident|e]]; [|by injection E as <- _].
      destruct (User _); [|by injection E as <- _]. destruct (_ || _); [by injection E as <- _|]. unfold act_bind, tried, tenantOfRealm, act_bind, observe in E. cbn [s_world] in E.
      destruct (list_tenants _); by injection E as <- _. }
    unfold holds. destruct res; by rewrite Hw, Ha.
  - intros who. apply kept_bind; [|intros view; apply kept_bind; [apply recordHandover_kept|intros _; apply kept_ret]].
    pose proof (ask_kept (A := A) check sv P (mkViewer who false "")) as Hask.
    assert (∀ docs reqs asked relation object allowed, relation ∈ [relationRead; relationWrite] →
      CheckAs check (pr_user who) (pr_holder who) relation object = Ok allowed → P docs reqs asked → P docs reqs (<[relation +:+ " " +:+ object := allowed]> asked)) as Hstep
      by (intros docs reqs asked relation object allowed _ _ Hp; by eapply HP).
    apply kept_bind; [by intros s Hs; eapply HP|]. intros _. apply kept_bind; [apply (Hask Hstep), asks_write|]. intros admin. apply kept_bind.
    { destruct (bool_decide _); [apply kept_ret|apply (Hask Hstep), asks_write]. }
    intros own. apply kept_bind; [by intros s Hs|]. intros [e|]; [apply kept_fail|apply kept_ret].
Qed.

Lemma identify_inv r s s' name v : identify (W := W) verify_token check sv r s = (s', Ok (name, v)) → known (hr_authorization r) s v ∧ recalled v (s_asked s').
Proof.
  unfold identify, act_bind at 1, of_result. destruct (bearer (hr_authorization r)) as [tok|] eqn:Eb; [|done]. destruct (negb _); [done|].
  unfold act_bind at 1. destruct (Identify verify_token sv tok s) as [s1 [who|]] eqn:Ei; [|done]. apply Identify_inv in Ei as (Hw1 & _ & ident & Hv & Hu & Hh & Ht).
  unfold act_bind at 1. destruct (viewOf check sv who s1) as [s2 [view|]] eqn:Ev; [|done]. apply viewOf_inv in Ev as (Hw2 & _ & _ & Hwho & Hrem & Hten).
  unfold act_bind at 1. pose proof (recordHandover_kept (A := A) sv (λ _ _ asked, asked = s_asked s2) (pr_name who) view s2 eq_refl) as Hk.
  destruct (recordHandover sv (pr_name who) view s2) as [s3 [[]|]]; [|done]. intros [= <- <- <-]. unfold holds in Hk. rewrite Hk. split; [|done].
  exists tok, ident. rewrite Hwho. split; [done|]. split; [done|]. split; [done|]. split; [done|]. intros Hne. destruct (Hten Hne) as [Heq Hg]. rewrite Heq in *. split; [done|]. by apply Ht.
Qed.

(** What the catalog shows is a requirement the caller may read. *)
Definition shown (v : Viewer) (reqs : list CredentialRequirement) (x : Status) : Prop := ∃ r, r ∈ reqs
  ∧ st_name x = cr_name r ∧ st_scope x = cr_scope r ∧ st_tenant x = cr_tenant r ∧ st_vaultPath x = cr_vaultPath r ∧ st_fields x = cr_fields r
  ∧ granted (vw_who v) relationRead (cr_scope r) (cr_tenant r).

Lemma visible_inv v reqs s s' out : recalled v (s_asked s) → visible (A := A) (W := W) check sv v reqs s = (s', Ok out) → Forall (shown v reqs) out.
Proof.
  revert s s' out. induction reqs as [|r reqs IH]; intros s s' out Hm; cbn [visible]; [by intros [= _ <-]|].
  unfold act_bind at 1. pose proof (canSee_kept (A := A) check sv (λ _ _ asked, recalled v asked) v (λ _ _ asked relation object allowed, recalled_ask v asked relation object allowed) (cr_scope r) (cr_tenant r) s Hm) as Hk.
  destruct (canSee check sv v (cr_scope r) (cr_tenant r) s) as [s1 [see|]] eqn:Es; [|done]. destruct see; cbn [negb].
  - apply (ask_true v) in Es; [|apply asks_read|done]. unfold act_bind at 1. destruct (probeStatus sv (cr_name r) s1) as [s2 [probe|]] eqn:Ep; [|done]. injection Ep as <- _.
    unfold act_bind at 1. destruct (visible check sv v reqs s1) as [s3 [rest|]] eqn:Er; [|done]. intros [= _ <-]. constructor.
    + exists r. split; [left|]. by destruct probe as [[? ?] ?].
    + eapply Forall_impl; [by eapply IH|]. intros x (r' & Hin & Hr). exists r'. split; [by right|done].
  - intros Hr. eapply Forall_impl; [by eapply IH|]. intros x (r' & Hin & Hx). exists r'. split; [by right|done].
Qed.

Lemma Get_inv name v s s' x : recalled v (s_asked s) → Get (A := A) (W := W) check sv name v s = (s', Ok x) →
  st_name x = name ∧ ∃ reqs, list_requirements (s_world s) = Some reqs ∧ shown v reqs x.
Proof.
  intros Hm. unfold Get, act_bind at 1, List_, act_bind at 1, observe. destruct (list_requirements (s_world s)) as [reqs|] eqn:El; [|done].
  unfold act_bind at 1. destruct (visible check sv v reqs s) as [s1 [out|]] eqn:Ev; [|done]. unfold act_bind at 1, failure. destruct (s_failed s1); [done|]. cbn.
  destruct (list_find _ _) as [[i y]|] eqn:Ef; [|done]. intros [= _ <-]. apply list_find_Some in Ef as (Hl & Hn & _). split; [done|]. exists reqs. split; [done|].
  apply list_elem_of_lookup_2 in Hl. unfold sort_by in Hl. rewrite merge_sort_Permutation in Hl. by apply (proj1 (Forall_forall _ _) (visible_inv v reqs s s1 out Hm Ev)).
Qed.
End Caller.

(** ** What a request leaves of the vault *)

Definition says_stored (res : result answer) : bool :=
  match res with Ok (Stored _ _ _ _ _) | Ok (Escrowed _ _ _ _) => true | _ => false end.

Section Requests.
Context {A W : Type} `{VaultLaws W} `{Rfc3339} (verify_token : string → A → A * result Identity) (check : checker) (sv : Server).
Local Open Scope act_scope.
Abbreviation st := (state A W).

(** The caller may write the requirement they named, and gave it the fields it declares; or
    they may write the credentials of the tenant that is theirs, and gave its backup key. *)
Inductive may_write (r : http_request) (s : st) (path : string) : gmap string string → Prop :=
  | writes_credential v name fields reqs req : known verify_token check sv (hr_authorization r) s v →
      hr_route r = SetCredential name (Some fields) → list_requirements (s_world s) = Some reqs → req ∈ reqs → cr_name req = name →
      granted check sv (vw_who v) relationRead (cr_scope req) (cr_tenant req) → granted check sv (vw_who v) relationWrite (cr_scope req) (cr_tenant req) →
      well_formed (cr_fields req) fields → path = trim_prefix (cr_vaultPath req) "/" → may_write r s path fields
  | writes_identity v identity recipient : known verify_token check sv (hr_authorization r) s v →
      hr_route r = SetBackupIdentity (Some (identity, recipient)) → vw_tenant v ≠ "" → granted check sv (vw_who v) relationWrite scopeTenant (vw_tenant v) →
      has_prefix (trim_space identity) identityPrefix = true → path = BackupIdentityPath (vw_tenant v) → may_write r s path {[backupIdentityField := trim_space identity]}.

Definition outcome (r : http_request) (s s' : st) (res : result answer) : Prop :=
  w_docs (s_world s') = w_docs (s_world s) ∧ says_stored res = false
  ∨ ∃ path fields, may_write r s path fields ∧ w_docs (s_world s') = merged path fields (w_docs (s_world s)).

Lemma answering_kept {B} P (m : act st B) on_error k : kept (holds P) m → (∀ b, kept (holds P) (k b)) → kept (holds P) (answering m on_error k).
Proof. intros Hm Hk. apply kept_bind; [by apply kept_tried|]. intros [b|e]; [apply Hk|apply kept_ret]. Qed.

(** Nothing asked, nothing stored. *)
Definition docs_are (d : gmap string (gmap string string)) : assertion := λ docs _ _, docs = d.
Lemma docs_unasked d : unasked (docs_are d).
Proof. by intros docs reqs asked asked'. Qed.

Lemma reading_kept d r : match hr_route r with SetCredential _ _ | SetBackupIdentity _ => False | _ => True end → kept (holds (docs_are d)) (Routes (W := W) verify_token check sv r).
Proof.
  unfold Routes. destruct (hr_route r) as [| |name|name body| |body|]; try done; intros _.
  - apply kept_ret.
  - apply answering_kept; [by apply identify_kept, docs_unasked|]. intros c. apply answering_kept; [by apply List_kept|]. intros items. apply kept_bind; [apply decorate_kept|]. intros. apply kept_ret.
  - apply answering_kept; [by apply identify_kept, docs_unasked|]. intros c. apply answering_kept; [by apply Get_kept|]. intros item. apply kept_bind; [apply decorate_kept|]. intros. apply kept_ret.
  - apply answering_kept; [by apply identify_kept, docs_unasked|]. intros c. cbv zeta. destruct (bool_decide _); [apply kept_ret|]. apply answering_kept; [|intros md; apply kept_ret]. apply WithToken_kept. intros token. apply Metadata_kept.
  - apply answering_kept; [by apply identify_kept, docs_unasked|]. intros c. apply answering_kept; [|intros items; apply kept_ret]. apply kept_bind; [apply observe_kept|].
    intros [items|]; [|apply kept_fail]. apply kept_bind; [by apply repositories_kept|]. intros out. apply kept_ret.
Qed.

Lemma reading_says_nothing r s : match hr_route r with SetCredential _ _ | SetBackupIdentity _ => False | _ => True end → says_stored (Routes (W := W) verify_token check sv r s).2 = false.
Proof.
  unfold Routes, handleList, handleGet, handleGetBackupIdentity, handleListRepositories, answering, act_bind, tried, ret.
  destruct (hr_route r) as [| |name|name body| |body|]; try done; intros _; destruct (identify verify_token check sv r s) as [s1 [c|e]]; cbn;
    try (unfold writeIdentityErr; by destruct (Is e _)); try done.
  all: try (destruct (bool_decide _); [done|]).
  all: repeat (case_match; cbn; try done); unfold writeCatalogueErr, writeIdentityErr in *; simplify_eq; repeat (case_match; cbn; try done); simplify_eq; done.
Qed.

Lemma said_nothing e : says_stored (Ok (writeIdentityErr e)) = false ∧ says_stored (Ok (writeCatalogueErr e)) = false ∧ ∀ lost, says_stored (Ok (vault_refused lost e)) = false.
Proof. unfold writeCatalogueErr, vault_refused, writeIdentityErr. by repeat case_match. Qed.

(** The write itself, and what is told. *)
Lemma store_outcome name req fields setBy skipped s s' res d : w_docs (s_world s) = d → store (A := A) (W := W) sv name req fields setBy skipped s = (s', res) →
  w_docs (s_world s') = d ∧ says_stored res = false ∨ w_docs (s_world s') = merged (trim_prefix (st_vaultPath req) "/") fields d.
Proof.
  intros Hd. unfold store, answering, act_bind at 1, tried.
  pose proof (stored_triple (A := A) sv (st_vaultPath req) fields d setBy ∅ s (or_introl Hd)) as Ht. unfold Write.
  destruct (WithToken sv _ s) as [s1 [u|e]].
  - unfold act_bind at 1. pose proof (refreshConsumers_kept (A := A) sv (now_stored (st_vaultPath req) fields d) (st_vaultPath req) ltac:(done) s1 Ht) as Hk.
    destruct (refreshConsumers sv (st_vaultPath req) s1) as [s2 [[]|e]]; intros [= <- <-]; by right.
  - intros [= <- <-]. destruct (said_nothing e) as (_ & _ & Hno). destruct Ht as [Ht|Ht]; [left|right]; [by split|done].
Qed.

Lemma handleSet_outcome r name body s s' res : hr_route r = SetCredential name body → handleSet (W := W) verify_token check sv r name body s = (s', res) → outcome r s s' res.
Proof.
  intros Hroute. unfold handleSet, answering at 1, act_bind at 1, tried at 1. set (d := w_docs (s_world s)). set (reqs := list_requirements (s_world s)).
  pose proof (identify_kept verify_token check sv (λ docs reqs' _, docs = d ∧ reqs' = reqs) r ltac:(by unfold unasked) s (conj eq_refl eq_refl)) as Hk1.
  destruct (identify verify_token check sv r s) as [s1 [[by_ v]|e]] eqn:Ei; [|intros [= <- <-]; left; split; [apply Hk1|apply said_nothing]].
  apply identify_inv in Ei as [Hknown Hrem]. destruct Hk1 as [Hd1 Hr1]. cbn [snd fst].
  unfold answering at 1, act_bind at 1, tried at 1.
  pose proof (Get_kept (A := A) check sv (λ docs _ asked, docs = d ∧ recalled check v asked) v) as Hget.
  assert (∀ (docs : gmap string (gmap string string)) (reqs0 : option (list CredentialRequirement)) asked relation object allowed, relation ∈ [relationRead; relationWrite] →
    CheckAs check (pr_user (vw_who v)) (pr_holder (vw_who v)) relation object = Ok allowed → docs = d ∧ recalled check v asked →
    docs = d ∧ recalled check v (<[relation +:+ " " +:+ object := allowed]> asked)) as Hstep.
  { intros docs reqs0 asked relation object allowed Hr Hc [Hd Hm]. split; [done|]. by apply recalled_ask. }
  specialize (Hget Hstep name s1 (conj Hd1 Hrem)).
  destruct (Get check sv name v s1) as [s2 [x|e]] eqn:Eg; [|intros [= <- <-]; left; split; [apply Hget|apply said_nothing]].
  apply Get_inv in Eg as (Hname & reqs' & Hreqs & req & Hin & Hn & Hsc & Hte & Hvp & Hfi & Hread); [|done]. destruct Hget as [Hd2 Hrem2].
  unfold act_bind at 1. pose proof (canWrite_kept (A := A) check sv (λ docs _ asked, docs = d ∧ recalled check v asked) v Hstep (st_scope x) (st_tenant x) s2 (conj Hd2 Hrem2)) as Hk3.
  destruct (canWrite check sv v (st_scope x) (st_tenant x) s2) as [s3 [may|e]] eqn:Ew; [|intros [= <- <-]; left; split; [apply Hk3|done]]. destruct Hk3 as [Hd3 _].
  destruct may; cbn [negb]; [|intros [= <- <-]; by left]. apply (ask_true check sv v) in Ew; [|apply asks_write|done].
  destruct body as [fields|]; [|intros [= <- <-]; by left]. destruct (checkFields x fields) as [[e errs]|] eqn:Ec; [intros [= <- <-]; by left|]. apply checkFields_None in Ec.
  assert (∀ skipped, store sv name x fields by_ skipped s3 = (s', res) → outcome r s s' res) as Hstore.
  { intros skipped Hs. eapply store_outcome in Hs as [[Hd Hno]|Hd]; [by left|right|exact Hd3]. exists (trim_prefix (st_vaultPath x) "/"), fields. split; [|done].
    rewrite Hsc, Hte in Ew. rewrite Hfi in Ec. rewrite Hvp. assert (list_requirements (s_world s) = Some reqs') as Hreqs0 by (rewrite <- Hreqs; symmetry; exact Hr1).
    eapply (writes_credential _ _ _ v name fields reqs' req); try done. congruence. }
  destruct (negb _); [apply Hstore|]. unfold act_bind, observe. destruct (validate _ _ _ _); [apply Hstore|apply Hstore|intros [= <- <-]; by left].
Qed.

Lemma handleSetBackupIdentity_outcome r body s s' res : hr_route r = SetBackupIdentity body → handleSetBackupIdentity (W := W) verify_token check sv r body s = (s', res) → outcome r s s' res.
Proof.
  intros Hroute. unfold handleSetBackupIdentity, answering at 1, act_bind at 1, tried at 1.
  pose proof (identify_kept verify_token check sv (docs_are (w_docs (s_world s))) r (docs_unasked _) s eq_refl) as Hk1.
  destruct (identify verify_token check sv r s) as [s1 [[by_ v]|e]] eqn:Ei; [|intros [= <- <-]; left; split; [apply Hk1|apply said_nothing]].
  apply identify_inv in Ei as [Hknown _]. cbn [snd fst]. cbv zeta. case_bool_decide as Ht; [intros [= <- <-]; by left|]. destruct body as [[identity recipient]|]; [|intros [= <- <-]; by left].
  destruct (bool_decide (trim_space identity = "")); [intros [= <- <-]; by left|]. destruct (bool_decide (_ < _)%nat); [intros [= <- <-]; by left|].
  destruct (has_prefix (trim_space identity) identityPrefix) eqn:Ep; cbn [negb]; [|intros [= <- <-]; by left]. destruct (_ && _); [intros [= <- <-]; by left|].
  unfold answering, act_bind at 1, tried at 1.
  pose proof (stored_triple (A := A) sv (BackupIdentityPath (vw_tenant v)) {[backupIdentityField := trim_space identity]} (w_docs (s_world s)) by_ {["recipient" := trim_space recipient]} s1 (or_introl Hk1)) as Hs.
  destruct (WithToken sv _ s1) as [s2 [[]|e]]; intros [= <- <-].
  - right. exists (BackupIdentityPath (vw_tenant v)), {[backupIdentityField := trim_space identity]}. split; [|exact Hs]. eapply writes_identity; try done.
    destruct Hknown as (tok & ident & _ & _ & _ & _ & Hten). by apply Hten.
  - destruct (said_nothing e) as (_ & _ & Hno). destruct Hs as [Hs|Hs]; [left; by split|right].
    exists (BackupIdentityPath (vw_tenant v)), {[backupIdentityField := trim_space identity]}. split; [|exact Hs]. eapply writes_identity; try done.
    destruct Hknown as (tok & ident & _ & _ & _ & _ & Hten). by apply Hten.
Qed.

Lemma Routes_outcome r s s' res : Routes (W := W) verify_token check sv r s = (s', res) → outcome r s s' res.
Proof.
  destruct (hr_route r) as [| |name|name body| |body|] eqn:Er; intros Hr.
  4: { unfold Routes in Hr. rewrite Er in Hr. by eapply handleSet_outcome. }
  5: { unfold Routes in Hr. rewrite Er in Hr. by eapply handleSetBackupIdentity_outcome. }
  all: left; pose proof (reading_kept (w_docs (s_world s)) r) as Hk; pose proof (reading_says_nothing r s) as Hn; rewrite Er in Hk, Hn; specialize (Hk I s eq_refl); specialize (Hn I);
    rewrite Hr in Hk, Hn; split; [by destruct res|done].
Qed.
End Requests.

(** ** Properties *)

(** The holder of a verified token, allowed what they ask on the object of a scope. *)
Definition entitled (check : checker) (sv : Server) (ident : Identity) (relation scope tenant : string) : Prop :=
  ∃ user object, User (id_subject ident) = Ok user ∧ Object sv scope tenant = Some object ∧ CheckAs check user (holder_name ident) relation object = Ok true.

Lemma granted_entitled check sv v ident relation scope tenant : User (id_subject ident) = Ok (pr_user (vw_who v)) → pr_holder (vw_who v) = holder_name ident →
  granted check sv (vw_who v) relation scope tenant → entitled check sv ident relation scope tenant.
Proof. intros Hu Hh (object & Ho & Hc). rewrite Hh in Hc. by exists (pr_user (vw_who v)), object. Qed.

(** C9: A credential is set by whoever may set it, and by nobody else.  Whatever a request does,
    either the documents of the vault are the ones it found, and it is not told that
    anything was stored; or its token is vouched for by its realm for this service, and
    exactly the fields it gave are merged into one document, the rest of the vault left
    alone.  That document is a requirement's, which the caller may both see and set, and the
    fields are the ones it declares, as long as they must be; or it is the backup key of the
    tenant whose realm signed the caller in, whose credentials they may set. *)
Theorem only_the_entitled_set_credentials `{JoseLaws} {W} `{VaultLaws W} `{Rfc3339} (check : checker) (sv : Server) (P : string → keyset → Z → Prop)
    (jose : Config) (fetch : string → result keyset) (now : Z) (r : http_request) (s s' : state (gmap string realmKeys) W) (res : result answer) :
  keys_from P (s_keys s) → (∀ realm set, fetch realm = Ok set → P realm set now) →
  Routes (λ tok ks, Verify jose fetch now ks tok) check sv r s = (s', res) →
  w_docs (s_world s') = w_docs (s_world s) ∧ says_stored res = false
  ∨ ∃ tok ident path fields, bearer (hr_authorization r) = Ok tok ∧ vouched P jose now tok (cf_audience jose) tokenAccess ident
    ∧ w_docs (s_world s') = merged path fields (w_docs (s_world s))
    ∧ ((∃ name reqs req, hr_route r = SetCredential name (Some fields) ∧ list_requirements (s_world s) = Some reqs ∧ req ∈ reqs ∧ cr_name req = name
          ∧ path = trim_prefix (cr_vaultPath req) "/" ∧ well_formed (cr_fields req) fields
          ∧ entitled check sv ident relationRead (cr_scope req) (cr_tenant req) ∧ entitled check sv ident relationWrite (cr_scope req) (cr_tenant req))
       ∨ (∃ identity recipient tenants t, hr_route r = SetBackupIdentity (Some (identity, recipient)) ∧ list_tenants (s_world s) = Some tenants ∧ t ∈ tenants
          ∧ realm_of_tenant t = id_realm ident ∧ path = BackupIdentityPath t.1 ∧ fields = {[backupIdentityField := trim_space identity]}
          ∧ has_prefix (trim_space identity) identityPrefix = true ∧ entitled check sv ident relationWrite scopeTenant t.1)).
Proof.
  intros Hks Hfetch Hr. apply Routes_outcome in Hr as [Hno|(path & fields & Hmay & Hd)]; [by left|right].
  assert (∀ tok ident, (Verify jose fetch now (s_keys s) tok).2 = Ok ident → vouched P jose now tok (cf_audience jose) tokenAccess ident) as Hvouch.
  { intros tok ident Hv. by apply (verify_vouched P jose fetch now (s_keys s) tok (cf_audience jose) tokenAccess ident Hks Hfetch). }
  destruct Hmay as [v name fields reqs req Hk Hroute Hreqs Hin Hn Hread Hwrite Hwf Hp|v identity recipient Hk Hroute Ht Hwrite Hpre Hp];
    destruct Hk as (tok & ident & Hb & Hv & Hu & Hh & Htenant); exists tok, ident; do 2 eexists; (split; [exact Hb|]; split; [by apply Hvouch|]; split; [exact Hd|]).
  - left. exists name, reqs, req. split_and!; try done; by eapply granted_entitled.
  - right. destruct (Htenant Ht) as [_ (tenants & t & Hl & Hin & Ht1 & Hrealm)]. exists identity, recipient, tenants, t. rewrite Ht1. split_and!; try done. by eapply granted_entitled.
Qed.
