(* ===== verification/CustodianPrivacy.v ===== *)
(** * What the custodian tells of what is stored

    [Confidential]: which of two worlds nobody can tell apart who reads no stored value.
    The custodian cannot either: whatever it is asked, and whatever else happens meanwhile,
    it answers the same over both ([answers_reveal_nothing_stored]). *)

From S2P Require Import Prelude.
From S2P Require Import GoStrings.
From S2P Require Import GoTime.
From S2P Require Import Ids.
From S2P Require Import Authn.
From S2P Require Import GoJson.
From S2P Require Import Custodian.
From Stdlib Require Import ZArith.
#[local] Open Scope Z_scope.

(** ** Worlds that differ in stored values *)

(** The vault answers a write, a login and a read of the metadata with the metadata only;
    what the Kubernetes API holds of the custodian's resources are no stored values. *)
Class Confidential (W : Type) `{World W} := {
  w_like : W → W → Prop;
  cf_bao w1 w2 req : w_like w1 w2 → b_method req ≠ "GET" ∨ b_area req ≠ Data →
    w_like (bao_do w1 req).1 (bao_do w2 req).1 ∧ (bao_do w1 req).2 = (bao_do w2 req).2;
  cf_clock w1 w2 : w_like w1 w2 → clock w1 = clock w2;
  cf_sa_token w1 w2 : w_like w1 w2 → sa_token w1 = sa_token w2;
  cf_requirements w1 w2 : w_like w1 w2 → list_requirements w1 = list_requirements w2;
  cf_get_external w1 w2 ns name : w_like w1 w2 → get_external w1 ns name = get_external w2 ns name;
  cf_list_external w1 w2 : w_like w1 w2 → list_external w1 = list_external w2;
  cf_patch w1 w2 es annotations : w_like w1 w2 →
    w_like (patch_external w1 es annotations).1 (patch_external w2 es annotations).1 ∧ (patch_external w1 es annotations).2 = (patch_external w2 es annotations).2;
  cf_repositories w1 w2 : w_like w1 w2 → list_repositories w1 = list_repositories w2;
  cf_tenants w1 w2 : w_like w1 w2 → list_tenants w1 = list_tenants w2;
  cf_record w1 w2 ns : w_like w1 w2 → get_record w1 ns = get_record w2 ns;
  cf_create w1 w2 ns data : w_like w1 w2 → w_like (create_record w1 ns data).1 (create_record w2 ns data).1 ∧ (create_record w1 ns data).2 = (create_record w2 ns data).2;
  cf_update w1 w2 ns data : w_like w1 w2 → w_like (update_record w1 ns data).1 (update_record w2 ns data).1 ∧ (update_record w1 ns data).2 = (update_record w2 ns data).2;
  cf_validate w1 w2 kind host fields : w_like w1 w2 → validate w1 kind host fields = validate w2 kind host fields }.

(** ** Actions *)

Section Privacy.
Context {A W : Type} `{Confidential W} `{Rfc3339} (verify_token : string → A → A * result Identity) (check : checker) (sv : Server).
Local Open Scope act_scope.
Abbreviation st := (state A W).

(** Two servers that differ in what their vaults hold. *)
Definition st_like (s t : st) : Prop :=
  s_keys s = s_keys t ∧ s_login s = s_login t ∧ s_asked s = s_asked t ∧ s_failed s = s_failed t ∧ w_like (s_world s) (s_world t).
Abbreviation same := (alike st_like).

Lemma set_world_like s t w1 w2 : st_like s t → w_like w1 w2 → st_like (set_world w1 s) (set_world w2 t).
Proof. by intros (? & ? & ? & ? & _) Hw. Qed.
Lemma st_like_world s t : st_like s t → w_like (s_world s) (s_world t).
Proof. by intros (? & ? & ? & ? & ?). Qed.

Lemma observe_same {B} (f : W → B) : (∀ w1 w2, w_like w1 w2 → f w1 = f w2) → same (observe (A := A) f).
Proof. intros Hf s t Hst. split; [done|]. cbn. by rewrite (Hf _ _ (st_like_world _ _ Hst)). Qed.
Lemma bao_same req : b_method req ≠ "GET" ∨ b_area req ≠ Data → same (bao (A := A) req).
Proof.
  intros Hr s t Hst. destruct (cf_bao _ _ req (st_like_world _ _ Hst) Hr) as [Hw He]. unfold bao.
  destruct (bao_do (s_world s) req), (bao_do (s_world t) req). cbn in *. subst. split; [by apply set_world_like|done].
Qed.

Lemma login_Token_same : same (login_Token (A := A) sv).
Proof.
  intros s t Hst. pose proof (st_like_world _ _ Hst) as Hw. destruct Hst as (Hk & Hl & Ha & Hf & _). unfold login_Token.
  rewrite <- Hl, <- (cf_clock _ _ Hw), <- (cf_sa_token _ _ Hw). destruct (_ && _); [done|]. destruct (sa_token (s_world s)) as [jwt|]; [|done].
  set (req := mkBao _ _ _ _ _). destruct (cf_bao _ _ req Hw ltac:(by right)) as [Hw' He]. destruct (bao_do (s_world s) req) as [w1 resp], (bao_do (s_world t) req) as [w2 resp']. cbn in Hw', He. subst resp'.
  destruct resp as [resp|]; [|done]. destruct (negb _); [done|]. destruct (decoded_body _ _) as [[tok lease]|]; [|done]. destruct (bool_decide (tok = "")); [done|].
  by rewrite (cf_clock _ _ Hw').
Qed.
Lemma Token_same : same (Token (A := A) sv).
Proof. apply alike_bind; [apply alike_tried, login_Token_same|]. intros [tok|e]; [apply alike_ret|]. repeat case_match; apply alike_fail. Qed.
Lemma Forget_same tok : same (Forget (A := A) tok).
Proof. intros s t (? & Hl & ? & ? & ?). unfold Forget. rewrite <- Hl. destruct (lg_static _); [done|]. by destruct (bool_decide _). Qed.
Lemma WithToken_same {B} (fn : string → act st B) : (∀ token, same (fn token)) → same (WithToken sv fn).
Proof.
  intros Hfn. apply alike_bind; [apply Token_same|]. intros token. apply alike_bind; [by apply alike_tried|]. intros [b|e]; [apply alike_ret|].
  destruct (negb _); [apply alike_fail|]. apply alike_bind; [apply Forget_same|]. intros again. destruct (negb again); [apply alike_fail|].
  apply alike_bind; [apply Token_same|]. intros token'. apply Hfn.
Qed.

Lemma Metadata_same token path : same (Metadata (A := A) token path).
Proof. apply alike_bind; [apply bao_same; by right|]. intros [resp|]; [|apply alike_fail]. destruct (bool_decide _); [apply alike_ret|]. destruct (negb _); [apply alike_fail|apply alike_of_result]. Qed.
Lemma setCustomMetadata_same token path setBy extra : same (setCustomMetadata (A := A) token path setBy extra).
Proof. unfold setCustomMetadata. cbv zeta. repeat case_match; try apply alike_ret; (apply alike_bind; [apply bao_same; by right|intros ?; apply alike_ret]). Qed.
Lemma written_same resp token path setBy extra : same (written (A := A) resp token path setBy extra).
Proof. unfold written. repeat case_match; try apply alike_fail. apply setCustomMetadata_same. Qed.
Lemma WriteWithMetadata_same token path fields setBy extra : same (WriteWithMetadata (A := A) token path fields setBy extra).
Proof.
  unfold WriteWithMetadata. destruct (bool_decide _); [apply alike_fail|]. apply alike_bind; [apply bao_same; by left|]. intros resp. destruct (bool_decide _); [|apply written_same].
  apply alike_bind; [apply bao_same; by left|]. intros resp'. apply written_same.
Qed.

(** *** The caller *)

Lemma ask_same p relation scope tenant : same (ask (A := A) (W := W) check sv p relation scope tenant).
Proof.
  intros s t (? & ? & Ha & Hf & ?). unfold ask. destruct (Object _ _ _) as [object|]; [|done]. rewrite <- Ha, <- Hf. destruct (s_asked s !! _); [done|]. by destruct (CheckAs _ _ _ _ _).
Qed.
Lemma failure_same : same (failure (A := A) (W := W)).
Proof. intros s t (? & ? & ? & Hf & ?). unfold failure. by rewrite Hf. Qed.
Lemma tenantOfRealm_same realm : same (tenantOfRealm (A := A) realm).
Proof. apply alike_bind; [apply observe_same, cf_tenants|]. intros [tenants|]; [apply alike_ret|apply alike_fail]. Qed.
Lemma Identify_same tok : same (Identify verify_token sv tok).
Proof.
  apply alike_bind.
  - apply alike_tried. intros s t (Hk & ? & ? & ? & ?). unfold verified. rewrite <- Hk. by destruct (verify_token tok (s_keys s)).
  - intros [ident|e]; [|apply alike_fail]. destruct (User _); [|apply alike_fail]. cbv zeta. destruct (_ || _); [apply alike_ret|].
    apply alike_bind; [apply alike_tried, tenantOfRealm_same|]. intros [tenant|e]; [apply alike_ret|apply alike_fail].
Qed.
Lemma viewOf_same p : same (viewOf (A := A) (W := W) check sv p).
Proof.
  apply alike_bind; [by intros s t (? & ? & ? & ? & ?)|]. intros _. apply alike_bind; [apply ask_same|]. intros admin.
  apply alike_bind; [destruct (bool_decide _); [apply alike_ret|apply ask_same]|]. intros own. apply alike_bind; [apply failure_same|]. intros [e|]; [apply alike_fail|apply alike_ret].
Qed.
Lemma RecordWritePathProven_same ns user : same (RecordWritePathProven (A := A) ns user).
Proof.
  intros s t Hst. pose proof (st_like_world _ _ Hst) as Hw. unfold RecordWritePathProven. rewrite <- (cf_record _ _ _ Hw), <- (cf_clock _ _ Hw).
  destruct (get_record (s_world s) ns) as [| |data]; [|done|].
  - destruct (cf_create _ _ ns (provenData user (clock (s_world s))) Hw) as [Hw' He]. destruct (create_record (s_world s) _ _), (create_record (s_world t) _ _). cbn in *. subst.
    split; [by apply set_world_like|done].
  - destruct (bool_decide _); [done|]. destruct (cf_update _ _ ns (provenData user (clock (s_world s)) ∪ data) Hw) as [Hw' He].
    destruct (update_record (s_world s) _ _), (update_record (s_world t) _ _). cbn in *. subst. split; [by apply set_world_like|done].
Qed.
Lemma identify_same r : same (identify verify_token check sv r).
Proof.
  apply alike_bind; [apply alike_of_result|]. intros tok. destruct (negb _); [apply alike_fail|]. apply alike_bind; [apply Identify_same|]. intros who.
  apply alike_bind; [apply viewOf_same|]. intros v. apply alike_bind; [|intros _; apply alike_ret]. unfold recordHandover. destruct (_ || _); [apply alike_ret|]. destruct (negb _); [apply alike_ret|].
  apply alike_bind; [apply alike_tried, Token_same|]. intros [tok'|e]; [|apply alike_ret]. intros s t Hst. split; [|done].
  apply (RecordWritePathProven_same (sv_handoverNamespace sv) (pr_name who) s t Hst).
Qed.

(** *** The catalog and the consumers *)

Lemma visible_same v reqs : same (visible (A := A) check sv v reqs).
Proof.
  induction reqs as [|r reqs IH]; [apply alike_ret|]. apply alike_bind; [apply ask_same|]. intros see. destruct (negb see); [done|].
  apply alike_bind; [|intros probe; apply alike_bind; [done|intros rest; apply alike_ret]].
  apply observe_same. intros w1 w2 Hw. by rewrite (cf_clock _ _ Hw), (cf_get_external _ _ _ _ Hw).
Qed.
Lemma List_same v : same (List_ (A := A) check sv v).
Proof.
  apply alike_bind; [apply observe_same, cf_requirements|]. intros [reqs|]; [|apply alike_fail]. apply alike_bind; [apply visible_same|]. intros out.
  apply alike_bind; [apply failure_same|]. intros [e|]; [apply alike_fail|apply alike_ret].
Qed.
Lemma Get_same name v : same (Get (A := A) check sv name v).
Proof. apply alike_bind; [apply List_same|]. intros all. destruct (list_find _ _) as [[i x]|]; [apply alike_ret|apply alike_fail]. Qed.
Lemma decorate_same items : same (decorate (A := A) sv items).
Proof.
  induction items as [|x items IH]; [apply alike_ret|]. apply alike_bind; [apply alike_tried, WithToken_same; intros token; apply Metadata_same|]. intros [md|e].
  - apply alike_bind; [done|]. intros rest. apply alike_ret.
  - destruct (_ || _); [apply alike_ret|]. apply alike_bind; [done|]. intros rest. apply alike_ret.
Qed.
Lemma nudge_same vaultPath stamp items : same (nudge (A := A) vaultPath stamp items).
Proof.
  induction items as [|es items IH]; [apply alike_ret|]. apply alike_bind; [|done]. destruct (negb _); [apply alike_ret|]. intros s t Hst.
  destruct (cf_patch _ _ es (<[forceSyncAnnotation := stamp]> (es_annotations es)) (st_like_world _ _ Hst)) as [Hw _]. split; [by apply set_world_like|done].
Qed.
Lemma refreshConsumers_same vaultPath : same (refreshConsumers (A := A) sv vaultPath).
Proof.
  unfold refreshConsumers. destruct (_ || _); [apply alike_ret|]. apply alike_bind; [apply observe_same, cf_list_external|]. intros items.
  apply alike_bind; [apply observe_same, cf_clock|]. intros now. destruct items; [apply nudge_same|apply alike_ret].
Qed.

(** *** Requests *)

Lemma answering_same {B} (m : act st B) on_error k : same m → (∀ b, same (k b)) → same (answering m on_error k).
Proof. intros Hm Hk. apply alike_bind; [by apply alike_tried|]. intros [b|e]; [apply Hk|apply alike_ret]. Qed.
Lemma store_same name req fields setBy skipped : same (store (A := A) sv name req fields setBy skipped).
Proof.
  apply answering_same; [apply WithToken_same; intros token; apply WriteWithMetadata_same|]. intros _. apply alike_bind; [apply refreshConsumers_same|]. intros _. apply alike_ret.
Qed.
Lemma handleSet_same r name body : same (handleSet verify_token check sv r name body).
Proof.
  apply answering_same; [apply identify_same|]. intros c. apply answering_same; [apply Get_same|]. intros req. apply alike_bind; [apply ask_same|]. intros may.
  destruct (negb may); [apply alike_ret|]. destruct body as [fields|]; [|apply alike_ret]. destruct (checkFields req fields) as [[e errs]|]; [apply alike_ret|].
  destruct (negb _); [apply store_same|]. apply alike_bind; [|intros []; (apply store_same || apply alike_ret)].
  apply observe_same. intros w1 w2 Hw. by apply cf_validate.
Qed.
Lemma handleSetBackupIdentity_same r body : same (handleSetBackupIdentity verify_token check sv r body).
Proof.
  apply answering_same; [apply identify_same|]. intros c. cbv zeta. destruct (bool_decide _); [apply alike_ret|]. destruct body as [[identity recipient]|]; [|apply alike_ret].
  do 4 (case_match; [apply alike_ret|]). apply answering_same; [|intros _; apply alike_ret]. apply WithToken_same. intros token. apply WriteWithMetadata_same.
Qed.
Lemma repositories_same v items : same (repositories_for (A := A) (W := W) check sv v items).
Proof.
  induction items as [|item items IH]; [apply alike_ret|]. cbn [repositories_for]. apply alike_bind.
  { unfold shows. destruct (bool_decide _); [|apply ask_same]. apply alike_bind; [apply ask_same|]. intros see. apply alike_ret. }
  intros see. destruct (negb see); [done|]. apply alike_bind; [|intros view; apply alike_bind; [done|intros rest; apply alike_ret]].
  apply alike_bind; [|intros owned; apply alike_ret]. unfold canWriteRepository. destruct (bool_decide _); apply ask_same.
Qed.

Lemma Routes_same r : same (Routes verify_token check sv r).
Proof.
  unfold Routes. destruct (hr_route r) as [| |name|name body| |body|].
  - apply alike_ret.
  - apply answering_same; [apply identify_same|]. intros c. apply answering_same; [apply List_same|]. intros items. apply alike_bind; [apply decorate_same|]. intros out. apply alike_ret.
  - apply answering_same; [apply identify_same|]. intros c. apply answering_same; [apply Get_same|]. intros item. apply alike_bind; [apply decorate_same|]. intros out. apply alike_ret.
  - apply handleSet_same.
  - apply answering_same; [apply identify_same|]. intros c. cbv zeta. destruct (bool_decide _); [apply alike_ret|]. apply answering_same; [|intros md; apply alike_ret].
    apply WithToken_same. intros token. apply Metadata_same.
  - apply handleSetBackupIdentity_same.
  - apply answering_same; [apply identify_same|]. intros c. apply answering_same; [|intros items; apply alike_ret]. apply alike_bind; [apply observe_same, cf_repositories|].
    intros [items|]; [|apply alike_fail]. apply alike_bind; [apply repositories_same|]. intros out. apply alike_ret.
Qed.

(** ** The server at work *)

(** A request, or something else that happens to the world meanwhile. *)
Inductive event := Asked (r : http_request) | Meanwhile (f : W → W).
Fixpoint serve (events : list event) (s : st) : list (result answer) :=
  match events with
  | [] => []
  | Asked r :: events => let '(s', res) := Routes verify_token check sv r s in res :: serve events s'
  | Meanwhile f :: events => serve events (set_world (f (s_world s)) s)
  end.

Lemma serve_same events s t : Forall (λ e, match e with Asked _ => True | Meanwhile f => ∀ w1 w2, w_like w1 w2 → w_like (f w1) (f w2) end) events →
  st_like s t → serve events s = serve events t.
Proof.
  intros Hev. revert s t. induction Hev as [|[r|f] events Hf Hev IH]; intros s t Hst; cbn [serve]; [done| |].
  - destruct (Routes_same r s t Hst) as [HR He]. destruct (Routes _ _ _ r s) as [s' res], (Routes _ _ _ r t) as [t' res']. cbn in *. subst res'. f_equal. by apply IH.
  - apply IH, set_world_like; [done|]. apply Hf. by apply st_like_world.
Qed.
End Privacy.

Arguments Asked {_} _.
Arguments Meanwhile {_} _.

(** ** Properties *)

(** C14: Nothing the custodian answers depends on a value that is stored.  Two servers whose
    worlds cannot be told apart without reading a stored value answer every sequence of
    requests alike, whoever asks, also when others use the vault and the cluster in
    between, storing other values in the one than in the other. *)
Theorem answers_reveal_nothing_stored {A W} `{Confidential W} `{Rfc3339} (verify_token : string → A → A * result Identity) (check : checker) (sv : Server)
    (events : list (event (W := W))) (keys : A) (login : Login) (w1 w2 : W) :
  Forall (λ e, match e with Asked _ => True | Meanwhile f => ∀ u1 u2, w_like u1 u2 → w_like (f u1) (f u2) end) events → w_like w1 w2 →
  serve verify_token check sv events (mkState keys login ∅ None w1) = serve verify_token check sv events (mkState keys login ∅ None w2).
Proof. intros Hev Hw. by apply serve_same. Qed.
