(* ===== verification/CustodianCases.v ===== *)
(** * The custodian's answers in particular cases

    How long a value that was just stored counts as being checked ([pending_exact]); what a
    token another component obtained for a person is good for here
    ([delegation_is_not_heeded]); and what is answered when the rights store does not
    answer ([unanswered_question_hides_repositories]).  At the end a vault and a cluster on
    which the theorems about the custodian are seen at work. *)

From S2P Require Import Prelude.
From S2P Require Import GoStrings.
From S2P Require Import GoTime.
From S2P Require Import Ids.
From S2P Require Import Authn.
From S2P Require Import GoJson.
From S2P Require Import Custodian.
From S2P Require Import CustodianSafety.
From S2P Require Import CustodianPrivacy.
From Stdlib Require Import ZArith.
#[local] Open Scope Z_scope.

(** ** A value that was just stored *)

(** A stamp that overflows is taken for a time long gone, of which nothing is pending. *)
Lemma in_window now stamp : 0 ≤ now → - 2 ^ 63 ≤ stamp < 2 ^ 63 →
  time_Sub now (time_Unix stamp) ≤ pendingWindow ↔ stamp < 2 ^ 63 - unixToInternal ∧ now ≤ stamp * Second + pendingWindow.
Proof.
  intros Hnow Hs. rewrite time_Sub_le by (unfold pendingWindow, Minute, Second; lia). destruct (decide (stamp < 2 ^ 63 - unixToInternal)) as [Hlt|Hge].
  - rewrite time_Unix_id by (unfold unixToInternal in *; lia). lia.
  - rewrite time_Unix_wrapped by lia. unfold pendingWindow, Minute, Second, unixToInternal in *. lia.
Qed.

(** ** The client of a token *)

Section Clients.
Context {A W : Type} `{World W} `{Rfc3339} (verify_token : string → A → A * result Identity) (check : checker) (sv : Server) (client : string) (scopes : list string).

(** The same person's token, issued to another client for other scopes. *)
Definition issued_to (i : Identity) : Identity := mkIdentity (id_subject i) (id_realm i) (id_issuer i) (id_session i) client (id_name i) (id_email i) scopes.
Definition verify_issued (tok : string) (a : A) : A * result Identity :=
  let '(a', r) := verify_token tok a in (a', match r with Ok i => Ok (issued_to i) | Err e => Err e end).

Lemma Identify_issued tok (s : state A W) : Identify verify_issued sv tok s = Identify verify_token sv tok s.
Proof. unfold Identify, act_bind, tried, verified, verify_issued. by destruct (verify_token tok (s_keys s)) as [a [i|e]]. Qed.
Lemma identify_issued r (s : state A W) : identify verify_issued check sv r s = identify verify_token check sv r s.
Proof. unfold identify, act_bind. destruct (of_result _ s) as [s1 [tok|e]]; [|done]. destruct (negb _); [done|]. by rewrite Identify_issued. Qed.
Lemma answering_issued r on_error k (s : state A W) :
  answering (identify verify_issued check sv r) on_error k s = answering (identify verify_token check sv r) on_error k s.
Proof. unfold answering, act_bind, tried. by rewrite identify_issued. Qed.
Lemma Routes_issued r (s : state A W) : Routes verify_issued check sv r s = Routes verify_token check sv r s.
Proof. unfold Routes. destruct (hr_route r); [done|..]; apply answering_issued. Qed.
End Clients.

(** ** A store that does not answer *)

Section Unanswered.
Context {A W : Type} `{World W} `{Rfc3339} (check : checker) (sv : Server) (v : Viewer) (e : error).
Context (Hdown : ∀ object, CheckAs check (pr_user (vw_who v)) (pr_holder (vw_who v)) relationRead object = Err e).
Abbreviation st := (state A W).

Lemma not_recalled asked object : recalled check v asked → asked !! (relationRead +:+ " " +:+ object) = None.
Proof. intros Hm. destruct (asked !! _) as [b|] eqn:E; [|done]. apply Hm in E; [|apply asks_read]. by rewrite Hdown in E. Qed.

(** The answer is no, and the failure is kept. *)
Lemma canSee_down scope tenant (s : st) : recalled check v (s_asked s) → ∃ s', canSee check sv v scope tenant s = (s', Ok false)
  ∧ s_asked s' = s_asked s ∧ (is_Some (s_failed s) ∨ is_Some (Object sv scope tenant) → is_Some (s_failed s')).
Proof.
  intros Hm. unfold canSee, ask. destruct (Object sv scope tenant) as [object|].
  - rewrite (not_recalled _ _ Hm), Hdown. eexists. split; [done|]. split; [done|]. by eexists.
  - exists s. split; [done|]. split; [done|]. by intros [?|[? ?]].
Qed.
Lemma visible_down reqs (s : st) : recalled check v (s_asked s) → ∃ s', visible check sv v reqs s = (s', Ok [])
  ∧ (is_Some (s_failed s) ∨ Exists (λ req, is_Some (Object sv (cr_scope req) (cr_tenant req))) reqs → is_Some (s_failed s')).
Proof.
  revert s. induction reqs as [|req reqs IH]; intros s Hm; cbn [visible].
  - exists s. split; [done|]. intros [?|Hex]; [done|by apply Exists_nil in Hex].
  - destruct (canSee_down (cr_scope req) (cr_tenant req) s Hm) as (s1 & Hc & Ha & Hf). unfold act_bind at 1. rewrite Hc. cbn [negb].
    destruct (IH s1) as (s2 & Hv & Hf2); [by rewrite Ha|]. exists s2. split; [done|]. rewrite Exists_cons. tauto.
Qed.

Lemma canWrite_recalled scope tenant (s : st) : recalled check v (s_asked s) → ∃ s' b, canWrite check sv v scope tenant s = (s', Ok b) ∧ recalled check v (s_asked s').
Proof.
  intros Hm. unfold canWrite, ask. destruct (Object sv scope tenant) as [object|]; [|by exists s, false]. destruct (s_asked s !! _) as [b|]; [by exists s, b|].
  destruct (CheckAs _ _ _ _ _) as [b|e'] eqn:Ec; do 2 eexists; (split; [done|]); [|done]. apply recalled_ask; [apply asks_write|done|done].
Qed.
Lemma repositories_down items (s : st) : recalled check v (s_asked s) → ∃ s' out, repositories_for check sv v items s = (s', Ok out) ∧ Forall (λ x, rv_tenant x = "") out.
Proof.
  revert s. induction items as [|item items IH]; intros s Hm; [by exists s, []|]. cbn [repositories_for]. cbv zeta. unfold act_bind at 1.
  set (tenant := nested_string _ _). unfold shows. case_bool_decide as Ht.
  - unfold act_bind at 1. destruct (canSee_down scopeCluster "" s Hm) as (s1 & Hc & Ha & _). rewrite Hc. unfold ret. destruct (negb _); [apply IH; by rewrite Ha|].
    unfold act_bind at 1, repositoryView, act_bind at 1, canWriteRepository. rewrite (bool_decide_true _ Ht). rewrite <- Ha in Hm.
    destruct (canWrite_recalled scopeCluster "" s1 Hm) as (s2 & b & Hw & Hm2). rewrite Hw. unfold ret, act_bind at 1. destruct (IH s2 Hm2) as (s3 & out & Hr & Hall). rewrite Hr.
    do 2 eexists. split; [done|]. by constructor.
  - destruct (canSee_down scopeTenant tenant s Hm) as (s1 & Hc & Ha & _). rewrite Hc. cbn [negb]. apply IH. by rewrite Ha.
Qed.
End Unanswered.

(** ** Properties *)

(** C31: Exactly when a requirement is shown as pending.  Its probe is not Ready, the time it was
    last told to look is a number of seconds that a time can hold, that time is at most two
    minutes past, and the probe has not changed its mind since.  How far ahead of the clock
    the time lies does not matter. *)
Theorem pending_exact `{Rfc3339} (now : Z) (es : ExternalSecret) : 0 ≤ now →
  (probe_verdict now (Some es)).1.2 = true
  ↔ (Ready es).1.1 = false
    ∧ ∃ stamp, parse_int64 (default "" (es_annotations es !! forceSyncAnnotation)) = Some stamp ∧ stamp < 2 ^ 63 - unixToInternal
      ∧ now ≤ stamp * Second + 2 * Minute ∧ ((Ready es).1.2 = zeroTime ∨ (Ready es).1.2 < stamp * Second).
Proof.
  intros Hnow. unfold probe_verdict, awaitingProbe. destruct (Ready es) as [[[] since] reason]; cbn; [split; [done|by intros [? _]]|].
  destruct (parse_int64 _) as [stamp|] eqn:Ep; cbn; [|by split; [|intros (_ & ? & ? & _)]]. pose proof (parse_int64_range _ _ Ep) as Hs. pose proof (in_window now stamp Hnow Hs) as Hin.
  case_bool_decide as Hw; cbn.
  - split; [done|]. intros (_ & x & [= <-] & Hlt & Hle & _). assert (time_Sub now (time_Unix stamp) ≤ pendingWindow) by (apply Hin; done). lia.
  - destruct Hin as [Hin _]. destruct Hin as [Hlt Hle]; [lia|]. destruct (decide (- 2 ^ 63 ≤ stamp + unixToInternal)) as [Hge|Hno]; [|unfold unixToInternal in *; lia].
    rewrite time_Unix_id by lia. destruct (bool_decide (since = zeroTime) || bool_decide (since < stamp * Second)) eqn:E; cbn.
    + split; [intros _|done]. split; [done|]. exists stamp. rewrite orb_true_iff, !bool_decide_eq_true in E. by repeat split.
    + apply orb_false_iff in E as [E1%bool_decide_eq_false E2%bool_decide_eq_false]. split; [done|]. by intros (_ & x & [= <-] & _ & _ & [?|?]).
Qed.

(** C34: Which client a token was issued to, and for which scopes, makes no difference to any
    answer or to anything stored; although a token that a component's client obtained for a
    person, whatever its scopes, may not call the route that sets a credential. *)
Theorem delegation_is_not_heeded {A W} `{World W} `{Rfc3339} (verify_token : string → A → A * result Identity) (check : checker) (sv : Server)
    (c : ascii) (profile : string) (scopes : list string) (r : http_request) (s : state A W) :
  (∀ i, MayCall (issued_to ("vouch-" +:+ String c profile) scopes i) "PUT /v1/credentials/{name}" = false)
  ∧ Routes (verify_issued verify_token ("vouch-" +:+ String c profile) scopes) check sv r s = Routes verify_token check sv r s.
Proof. split; [|apply Routes_issued]. intros i. unfold MayCall. assert (Delegated (issued_to ("vouch-" +:+ String c profile) scopes i) = true) as -> by done. done. Qed.

(** When the store answers no question about reading, the catalog says that it could not be
    asked, and the list of repositories is given without any tenant's repository, the
    caller's own included, as if there were none. *)
Theorem unanswered_question_hides_repositories {A W} `{VaultLaws W} `{Rfc3339} (verify_token : string → A → A * result Identity) (check : checker) (sv : Server)
    (authorization name : string) (s s' : state A W) (v : Viewer) (e : error) (items : list Repository) (reqs : list CredentialRequirement) :
  identify verify_token check sv (mkHttp authorization ListCredentials) s = (s', Ok (name, v)) →
  (∀ object, CheckAs check (pr_user (vw_who v)) (pr_holder (vw_who v)) relationRead object = Err e) →
  list_repositories (s_world s') = Some items → list_requirements (s_world s') = Some reqs → Exists (λ req, is_Some (Object sv (cr_scope req) (cr_tenant req))) reqs →
  (∃ why, (Routes verify_token check sv (mkHttp authorization ListCredentials) s).2 = Ok (failed 503 why))
  ∧ ∃ views, (Routes verify_token check sv (mkHttp authorization ListRepositories) s).2 = Ok (Repositories views) ∧ Forall (λ x, rv_tenant x = "") views.
Proof.
  intros Hid Hdown Hitems Hreqs Hex. pose proof (identify_inv _ _ _ _ _ _ _ _ Hid) as [_ Hm]. split.
  - unfold Routes, hr_route, handleList, answering, act_bind at 1, tried at 1. rewrite Hid. unfold act_bind at 1, tried at 1, List_, act_bind at 1, observe. cbn [snd]. rewrite Hreqs.
    destruct (visible_down check sv v e Hdown reqs s' Hm) as (s2 & Hv & Hf). unfold act_bind at 1. rewrite Hv. unfold act_bind at 1, failure. destruct (Hf (or_intror Hex)) as [e' He]. rewrite He. by eexists.
  - unfold Routes, hr_route, handleListRepositories, answering, act_bind at 1, tried at 1.
    change (identify verify_token check sv (mkHttp authorization ListRepositories) s) with (identify verify_token check sv (mkHttp authorization ListCredentials) s). rewrite Hid.
    unfold act_bind at 1, tried at 1, listRepositories, act_bind at 1, observe. cbn [snd]. rewrite Hitems. destruct (repositories_down check sv v e Hdown items s' Hm) as (s2 & out & Hr & Hall).
    unfold act_bind at 1. rewrite Hr. eexists. split; [done|]. unfold sort_by. by rewrite merge_sort_Permutation.
Qed.

(** ** A vault at work

    Documents and their metadata, a login that is granted, one requirement of the tenant
    acme and its probe, and somebody of acme who may set its credentials. *)
#[local] Existing Instance ToyJose.toy_jose.
#[local] Existing Instance ToyJose.toy_jose_laws.
Module VaultExample.
Record vault := mkVault { t_docs : gmap string (gmap string string); t_meta : gmap string (gmap string string); t_clock : Z; t_probe : ExternalSecret }.

Definition granted_login : json := JObj {["auth" := JObj (<["client_token" := JStr "t1"]> {["lease_duration" := JNull]})]}.
Definition custom (m : gmap string string) : json := JObj {["data" := JObj {["custom_metadata" := JObj (JStr <$> m)]}]}.
Definition ok (p : payload) : option bao_response := Some (mkAnswer 200 "" p).
Definition missing : option bao_response := Some (mkAnswer 404 "" Empty).
Definition at_ (w : vault) (docs meta : gmap string (gmap string string)) : vault := mkVault docs meta (t_clock w) (t_probe w).
Definition answer_to (w : vault) (req : bao_request) : vault * option bao_response :=
  match b_area req with
  | LoginAt => (w, ok (Decoded granted_login))
  | Metadata_ =>
      if bool_decide (b_method req = "GET") then (w, match t_meta w !! b_path req with Some m => ok (Decoded (custom m)) | None => missing end)
      else (at_ w (t_docs w) (<[b_path req := b_body req]> (t_meta w)), ok Empty)
  | Data =>
      if bool_decide (b_method req = "GET") then (w, match t_docs w !! b_path req with Some m => ok (Decoded (JObj (JStr <$> m))) | None => missing end)
      else if bool_decide (b_method req = "PATCH") && bool_decide (b_path req ∉ dom (t_docs w)) then (w, missing)
      else if bool_decide (b_method req = "PATCH") then (at_ w (merged (b_path req) (b_body req) (t_docs w)) (t_meta w), ok Empty)
      else (at_ w (<[b_path req := b_body req]> (t_docs w)) (t_meta w), ok Empty)
  end.

Definition smtp : CredentialRequirement :=
  mkRequirement "smtp" ∅ "" "" "run" scopeTenant "acme" false "gentian-os/tenants/acme/smtp" [mkField "password" "" true 4 ""] None.
Definition stamped (es : ExternalSecret) (annotations : gmap string string) : ExternalSecret := mkExternal (es_namespace es) (es_name es) annotations (es_object es).
Definition apps : Repository := mkRepository "apps" (JObj {["spec" := JObj {["tenant" := JStr "acme"]}]}).
#[global] Instance toy_world : World vault := {|
  bao_do := answer_to; clock := t_clock; sa_token _ := Some "jwt"; list_requirements _ := Some [smtp];
  get_external w ns name := Some (t_probe w); list_external w := Some [t_probe w];
  patch_external w es annotations := (mkVault (t_docs w) (t_meta w) (t_clock w) (stamped es annotations), true);
  list_repositories _ := Some [apps]; list_tenants _ := Some [("acme", "")]; get_record _ _ := RecordMissing;
  create_record w _ _ := (w, Ok tt); update_record w _ _ := (w, Ok tt); validate _ _ _ _ := Valid |}.
#[global] Program Instance toy_laws : VaultLaws vault := {| w_docs := t_docs |}.
Next Obligation. intros w [method area path token body] w' resp Ha. cbn. unfold answer_to. cbn in *. destruct area; [done|..]; [case_bool_decide|]; by intros [= <- <-]. Qed.
Next Obligation.
  intros w path token fields w' resp. unfold bao_do, toy_world, answer_to. cbn [b_area b_method b_path b_body].
  rewrite (bool_decide_false ("PATCH" = "GET")) by done. rewrite (bool_decide_true ("PATCH" = "PATCH")) by done. case_bool_decide as Hp; cbn [andb]; intros [= <- <-].
  - apply not_elem_of_dom in Hp. split; [|by intros _]. left. split; [done|]. by intros (r & [= <-] & [?|?]).
  - split; [|done]. right. split; [|done]. apply elem_of_dom. by destruct (decide (path ∈ dom (t_docs w))).
Qed.
Next Obligation. intros w path token fields w' resp. cbn. intros [= <- <-]. by right. Qed.
Next Obligation. done. Qed.
Next Obligation. done. Qed.
Next Obligation. done. Qed.
Next Obligation. done. Qed.
Next Obligation. done. Qed.
Next Obligation. done. Qed.

(** Alike but for the values of the documents. *)
Definition like (w1 w2 : vault) : Prop := dom (t_docs w1) = dom (t_docs w2) ∧ t_meta w1 = t_meta w2 ∧ t_clock w1 = t_clock w2 ∧ t_probe w1 = t_probe w2.
Lemma answer_like w1 w2 req : like w1 w2 → b_method req ≠ "GET" ∨ b_area req ≠ Data →
  like (answer_to w1 req).1 (answer_to w2 req).1 ∧ (answer_to w1 req).2 = (answer_to w2 req).2.
Proof.
  intros (Hd & Hm & Hc & Hp) Hr. unfold answer_to, like. rewrite <- Hd, <- Hm. destruct (b_area req).
  - destruct Hr as [Hr|]; [|done]. rewrite (bool_decide_false _ Hr). destruct (_ && _); [done|]. case_bool_decide; (split; [|done]); cbn; split; try done; unfold merged; rewrite !dom_insert_L; by rewrite Hd.
  - by case_bool_decide.
  - done.
Qed.
#[global] Program Instance toy_confidential : Confidential vault := {| w_like := like |}.
Next Obligation. apply answer_like. Qed.
Next Obligation. by intros w1 w2 (? & ? & ? & ?). Qed.
Next Obligation. done. Qed.
Next Obligation. done. Qed.
Next Obligation. intros w1 w2 ns name (? & ? & ? & Hp). cbn. by rewrite Hp. Qed.
Next Obligation. intros w1 w2 (? & ? & ? & Hp). cbn. by rewrite Hp. Qed.
Next Obligation. by intros w1 w2 es annotations (? & ? & ? & ?). Qed.
Next Obligation. done. Qed.
Next Obligation. done. Qed.
Next Obligation. done. Qed.
Next Obligation. done. Qed.
Next Obligation. done. Qed.
Next Obligation. done. Qed.

#[global] Instance toy_time : Rfc3339 := {| rfc3339_parse _ := None; rfc3339_format _ := "now" |}.
Definition server : Server := mkServer true "k" "kernel" "probes" "custodian" true "gentian".
Definition check : checker := λ user rel object, Ok (bool_decide ((user, rel, object) ∈ [("user:sub1", relationRead, "tenant:acme"); ("user:sub1", relationWrite, "tenant:acme")])).
(** One who may set acme's credentials, whom the store does not say what they may read. *)
Definition half_down : checker := λ user rel object, if bool_decide (rel = relationRead) then Err (Sentinel "unreachable") else check user rel object.
Definition probe (stamp : string) : ExternalSecret := mkExternal "probes" "credreq-smtp" {[forceSyncAnnotation := stamp]}
  (JObj {["spec" := JObj {["data" := JArr [JObj {["remoteRef" := JObj {["key" := JStr "gentian-os/tenants/acme/smtp"]}]}]]}]}).
Definition holding (password : string) : vault := mkVault {["gentian-os/tenants/acme/smtp" := {["password" := password]}]} ∅ (1020 * Second) (probe "").
Definition verify_toy (tok : string) (ks : gmap string realmKeys) : gmap string realmKeys * result Identity := Verify ToyJose.cfg ToyJose.fetch 1020 ks tok.
Definition start (w : vault) : state (gmap string realmKeys) vault := mkState ∅ (mkLogin "" zeroTime false) ∅ None w.
Definition set_smtp : http_request := mkHttp "Bearer raw" (SetCredential "smtp" (Some {["password" := "hunter2"]})).
Definition list_all : http_request := mkHttp "Bearer raw" ListCredentials.
Definition published (realm : string) (set : keyset) (t : Z) : Prop := realm = "acme" ∧ set = ToyJose.published ∧ t = 1020.
Lemma half_down_identified s' e : identify verify_toy half_down server (mkHttp "Bearer raw" ListCredentials) (start (holding "old")) ≠ (s', Err e).
Proof.
  assert (match (identify verify_toy half_down server (mkHttp "Bearer raw" ListCredentials) (start (holding "old"))).2 with Ok _ => true | Err _ => false end = true) as Hok by (vm_compute; reflexivity).
  intros E. by rewrite E in Hok.
Qed.
End VaultExample.
Import VaultExample.

Lemma only_the_entitled_set_credentials_witness :
  let out := Routes verify_toy check server set_smtp (start (holding "old")) in
  t_docs (s_world out.1) !! "gentian-os/tenants/acme/smtp" = Some {["password" := "hunter2"]}
  ∧ ∃ ident, vouched published ToyJose.cfg 1020 "raw" "director" tokenAccess ident ∧ entitled check server ident relationWrite scopeTenant "acme".
Proof.
  intros out. assert (says_stored out.2 = true) as Hsaid by (vm_compute; reflexivity). split; [vm_compute; reflexivity|].
  destruct (only_the_entitled_set_credentials check server published ToyJose.cfg ToyJose.fetch 1020 set_smtp (start (holding "old")) out.1 out.2)
    as [[_ Hno]|(tok & ident & path & fields & Hb & Hv & _ & Hkind)].
  - intros realm rk Hrk. cbn in Hrk. by rewrite lookup_empty in Hrk.
  - unfold ToyJose.fetch. intros realm set. case_bool_decide as Hr; [|discriminate]. intros [= <-]. split; [exact Hr|split; reflexivity].
  - apply surjective_pairing.
  - congruence.
  - vm_compute in Hb. injection Hb as <-. exists ident. split; [exact Hv|]. destruct Hkind as [(n & reqs & req & Hroute & Hreqs & Hin & _ & _ & _ & _ & Hw)|(i & rc & ts & t & Hroute & _)]; [|discriminate].
    cbn in Hreqs. injection Hreqs as <-. apply list_elem_of_singleton in Hin as ->. exact Hw.
Defined.

Lemma answers_reveal_nothing_stored_witness :
  let events := [Asked list_all; Meanwhile (λ w, at_ w (<["other" := ∅]> (t_docs w)) (t_meta w)); Asked set_smtp; Asked list_all] in
  (∃ x, (serve verify_toy check server events (start (holding "old"))) !! 2%nat = Some (Ok (Credentials [x])) ∧ st_pending x = true)
  ∧ serve verify_toy check server events (start (holding "old")) = serve verify_toy check server events (start (holding "other")).
Proof.
  intros events. split; [eexists; split; [vm_compute; reflexivity|reflexivity]|].
  apply (answers_reveal_nothing_stored verify_toy check server events ∅ (mkLogin "" zeroTime false) (holding "old") (holding "other")).
  - constructor; [exact I|]. constructor; [|repeat constructor]. intros u1 u2 (Hd & Hm & Hc & Hp). unfold w_like, toy_confidential, like. cbn. rewrite !dom_insert_L, Hd. split; [reflexivity|]. split; [exact Hm|]. split; [exact Hc|exact Hp].
  - cbn. unfold like. cbn. rewrite !dom_singleton_L. repeat split.
Defined.

Lemma pending_exact_witness :
  (probe_verdict (1020 * Second) (Some (probe "1000"))).1.2 = true ∧ (probe_verdict (1020 * Second) (Some (probe "999999999999"))).1.2 = true
  ∧ (probe_verdict (1020 * Second) (Some (probe "9223372036854775807"))).1.2 = false.
Proof.
  split; [|split; [|reflexivity]].
  - apply (pending_exact (1020 * Second) (probe "1000")); [unfold Second; lia|]. split; [reflexivity|]. exists 1000. split; [reflexivity|]. unfold unixToInternal, Minute, Second. split; [lia|]. split; [lia|]. left. reflexivity.
  - apply (pending_exact (1020 * Second) (probe "999999999999")); [unfold Second; lia|]. split; [reflexivity|]. exists 999999999999. split; [reflexivity|]. unfold unixToInternal, Minute, Second. split; [lia|]. split; [lia|]. left. reflexivity.
Defined.

Lemma unanswered_question_hides_repositories_witness :
  (Routes verify_toy check server (mkHttp "Bearer raw" ListRepositories) (start (holding "old"))).2 ≠ Ok (Repositories [])
  ∧ ∃ views, (Routes verify_toy half_down server (mkHttp "Bearer raw" ListRepositories) (start (holding "old"))).2 = Ok (Repositories views) ∧ Forall (λ x, rv_tenant x = "") views.
Proof.
  split; [vm_compute; discriminate|].
  destruct (identify verify_toy half_down server (mkHttp "Bearer raw" ListCredentials) (start (holding "old"))) as [s' [[name v]|e]] eqn:E; [|by apply half_down_identified in E].
  apply (unanswered_question_hides_repositories verify_toy half_down server "Bearer raw" name (start (holding "old")) s' v (Sentinel "unreachable") [apps] [smtp] E).
  - intros object. reflexivity.
  - reflexivity.
  - reflexivity.
  - constructor. eexists. vm_compute. reflexivity.
Defined.
