(* ===== verification/CredentialCheck.v ===== *)
(** * The check of a credential against its endpoint ([internal/custodian/validator.go])

    What is asked of the endpoint a credential is for, before it is stored: a registry or a
    repository over HTTP, the zones of a DNS provider, the relay mail is sent through
    ([clusterRelayResolver] of [http.go]).  The relay is spoken to with [net/smtp], whose
    client is here as it is there: what it knows of the server, when it says hello, and that
    it hangs up on an authentication that failed.

    The lines of that conversation are kept as what they say; base64 is an encoding of what
    [AUTH] and [RESPONSE] carry.  A server may ask for ever, so [auth_loop] has fuel, the
    number of questions it answers. *)

From S2P Require Import Prelude.
From S2P Require Import GoStrings.
From S2P Require Import GoJson.
From S2P Require Import Custodian.
From Stdlib Require Import ZArith.
#[local] Open Scope Z_scope.

(** ** What is outside *)

(** [http.NewRequest] and [Client.Do], of a GET. *)
Inductive credential := NoCredential | BasicAuth (user pass : string) | BearerToken (token : string).
Inductive fetched := BadURL (why : error) | Unreachable (why : error) | Answered (status : Z) (body : payload).
Class Web := { web_get : string → credential → fetched }.

Inductive smtp_line := EHLO | HELO | STARTTLS | AUTH (mechanism initial : string) | RESPONSE (bytes : string) | ABORT | QUIT.
(** A reply: its code and lines, and what its text decodes to where it is base64. *)
Record reply := mkReply { ry_code : Z; ry_lines : list string; ry_decoded : option string }.
Class Relay (C : Type) := {
  rl_dial : bool → string → option C;
  rl_greeting : C → C * option reply;
  rl_exchange : C → bool → smtp_line → C * option reply }.

(** ** The client of [net/smtp] *)

Record Client (C : Type) := mkClient {
  cl_conn : C; cl_tls : bool; cl_ext : option (gmap string string); cl_didHello : bool; cl_helloError : option error; cl_closed : bool;
  cl_sent : list (bool * smtp_line) }.
Arguments mkClient {_} _ _ _ _ _ _ _.
Arguments cl_conn {_} _.
Arguments cl_tls {_} _.
Arguments cl_ext {_} _.
Arguments cl_didHello {_} _.
Arguments cl_helloError {_} _.
Arguments cl_closed {_} _.
Arguments cl_sent {_} _.

Record Auth := mkAuth { au_start : string → bool → result (string * string); au_next : string → bool → result (option string) }.

Section Smtp.
Context {C : Type} `{Relay C} `{Unicode}.
Local Open Scope act_scope.
Abbreviation cl := (Client C).

(** A line sent and the reply to it, of a code where one is expected. *)
Definition cmd (expect : Z) (line : smtp_line) : act cl reply := λ c,
  if cl_closed c then (c, Err (Sentinel "use of closed network connection"))
  else
    let '(conn, r) := rl_exchange (cl_conn c) (cl_tls c) line in
    (mkClient conn (cl_tls c) (cl_ext c) (cl_didHello c) (cl_helloError c) (cl_closed c) (cl_sent c ++ [(cl_tls c, line)]),
     match r with
     | None => Err (Sentinel "EOF")
     | Some r => if bool_decide (expect = 0) || bool_decide (ry_code r = expect) then Ok r else Err (Errorf "%03d %s" [])
     end).

Definition extensions (lines : list string) : gmap string string :=
  foldl (λ m line, match cut line " " with Some (k, v) => <[k := v]> m | None => <[line := ""]> m end) ∅ (tail lines).
Definition set_ext (ext : option (gmap string string)) : act cl unit := λ c,
  (mkClient (cl_conn c) (cl_tls c) ext (cl_didHello c) (cl_helloError c) (cl_closed c) (cl_sent c), Ok tt).
Definition ehlo : act cl unit := r ⇐ cmd 250 EHLO; set_ext (Some (extensions (ry_lines r))).
Definition helo : act cl unit := set_ext None ;; r ⇐ cmd 250 HELO; ret tt.
Definition set_hello (e : option error) : act cl unit := λ c,
  (mkClient (cl_conn c) (cl_tls c) (cl_ext c) true e (cl_closed c) (cl_sent c), Ok tt).
Definition hello : act cl unit := λ c,
  if cl_didHello c then (c, match cl_helloError c with Some e => Err e | None => Ok tt end)
  else (set_hello None ;;
        res ⇐ tried ehlo;
        match res with
        | Ok _ => ret tt
        | Err _ => res ⇐ tried helo; match res with Ok _ => ret tt | Err e => set_hello (Some e) ;; fail e end
        end) c.

Definition Extension (name : string) : act cl bool :=
  res ⇐ tried hello;
  match res with
  | Err _ => ret false
  | Ok _ => λ c, (c, Ok match cl_ext c with None => false | Some m => bool_decide (is_Some (m !! name)) end)
  end.
Definition secured : act cl unit := λ c,
  (mkClient (cl_conn c) true (cl_ext c) (cl_didHello c) (cl_helloError c) (cl_closed c) (cl_sent c), Ok tt).
Definition StartTLS : act cl unit := hello ;; r ⇐ cmd 220 STARTTLS; secured ;; ehlo.
Definition close : act cl unit := λ c,
  (mkClient (cl_conn c) (cl_tls c) (cl_ext c) (cl_didHello c) (cl_helloError c) true (cl_sent c), Ok tt).
Definition Quit : act cl unit := hello ;; r ⇐ cmd 221 QUIT; close.

Definition abandon (e : error) : act cl unit := ignoring (cmd 501 ABORT) ;; ignoring Quit ;; fail e.
Fixpoint auth_loop (fuel : nat) (a : Auth) (r : reply) : act cl unit :=
  let next :=
    if bool_decide (ry_code r = 334) then match ry_decoded r with Some msg => au_next a msg true | None => Err (Sentinel "illegal base64 data") end
    else if bool_decide (ry_code r = 235) then au_next a (join (ry_lines r) "010") false
    else Err (Errorf "%03d %s" []) in
  match next with
  | Err e => abandon e
  | Ok None => ret tt
  | Ok (Some resp) =>
      match fuel with
      | O => fail (Sentinel "still asked")
      | S fuel => r ⇐ cmd 0 (RESPONSE resp); auth_loop fuel a r
      end
  end.
Definition authenticate (fuel : nat) (serverName : string) (a : Auth) : act cl unit :=
  hello ;;
  tls ⇐ (λ c, (c, Ok (cl_tls c)));
  match au_start a serverName tls with
  | Err e => ignoring Quit ;; fail e
  | Ok (mechanism, initial) => r ⇐ cmd 0 (AUTH mechanism initial); auth_loop fuel a r
  end.

Definition isLocalhost (name : string) : bool := bool_decide (name ∈ ["localhost"; "127.0.0.1"; "::1"]).
Definition PlainAuth (user pass host : string) : Auth := {|
  au_start name tls :=
    if negb tls && negb (isLocalhost name) then Err (Sentinel "unencrypted connection")
    else if negb (bool_decide (name = host)) then Err (Sentinel "wrong host name")
    else Ok ("PLAIN", String "000" (user +:+ String "000" pass));
  au_next _ more := if more then Err (Sentinel "unexpected server challenge") else Ok None |}.
Definition loginAuth (user pass : string) : Auth := {|
  au_start _ tls := if negb tls then Err (Errorf "refusing AUTH LOGIN on an unencrypted connection" []) else Ok ("LOGIN", "");
  au_next fromServer more :=
    if negb more then Ok None
    else if bool_decide (to_lower (trim_space fromServer) = "username:") then Ok (Some user)
    else if bool_decide (to_lower (trim_space fromServer) = "password:") then Ok (Some pass)
    else Err (Errorf "unexpected AUTH LOGIN challenge %q" [fromServer]) |}.

(** ** The relay *)

Definition JoinHostPort (host port : string) : string :=
  if contains_any host ":%" then "[" +:+ host +:+ "]:" +:+ port else host +:+ ":" +:+ port.

Definition rejected (fields : list string) (message : string) : list FieldError := (λ f, mkFieldError f message) <$> fields.

(** From the greeting on; what the connection is closed with at the end is [Quit]. *)
Definition secure (port : string) : act cl unit :=
  if bool_decide (port = "465") then ret tt
  else
    ok ⇐ Extension "STARTTLS";
    if negb ok then fail (Errorf "%s does not offer STARTTLS; refusing to send credentials in the clear" [])
    else act_wrap "STARTTLS with %s failed: %w" [] StartTLS.
Definition smtp_session (fuel : nat) (addr host port user pass : string) : act cl verdict :=
  v ⇐ (res ⇐ tried (secure port);
       match res with
       | Err e => ret (Invalid e [])
       | Ok _ =>
           plain ⇐ tried (authenticate fuel host (PlainAuth user pass host));
           match plain with
           | Ok _ => ret Valid
           | Err _ =>
               login ⇐ tried (authenticate fuel host (loginAuth user pass));
               match login with
               | Ok _ => ret Valid
               | Err _ => ret (Invalid (Errorf "%s" []) (rejected ["relay_username"; "relay_password"] (addr +:+ " rejected these credentials: %v")))
               end
           end
       end);
  ignoring Quit ;; ret v.

(** What was sent, and the verdict. *)
Definition smtpProbe (fuel : nat) (relay : option (result (string * string))) (fields : gmap string string) : list (bool * smtp_line) * verdict :=
  let user := default "" (fields !! "relay_username") in
  let pass := default "" (fields !! "relay_password") in
  if bool_decide (user = "") || bool_decide (pass = "") then ([], Invalid (Errorf "relay_username and relay_password are both required" []) [])
  else match relay with
  | None => ([], Invalid (Errorf "cannot check these credentials: this cluster's relay endpoint is unknown" []) [])
  | Some (Err e) => ([], Invalid (Wrapf "cannot check these credentials: %w" [] e) [])
  | Some (Ok (host, port)) =>
      if bool_decide (host = "") then ([], Invalid (Errorf "cannot check these credentials: no relay host is set on the Cluster claim" []) [])
      else
        let port := if bool_decide (port = "") then "587" else port in
        let addr := JoinHostPort host port in
        let implicit := bool_decide (port = "465") in
        match rl_dial implicit addr with
        | None => ([], Invalid (Errorf "%s is unreachable: %w" [addr]) [])
        | Some conn =>
            let '(conn, greeting) := rl_greeting conn in
            if negb (bool_decide (ry_code <$> greeting = Some 220)) then ([], Invalid (Errorf "%s did not answer as an SMTP server: %w" [addr]) [])
            else
              let '(c, v) := smtp_session fuel addr host port user pass (mkClient conn implicit None false None false []) in
              (cl_sent c, match v with Ok v => v | Err e => Invalid e [] end)
        end
  end.
End Smtp.

(** ** Endpoints over HTTP *)

Record EndpointValidator := mkValidator { ev_relay : option (result (string * string)); ev_kernelDomain : string }.

Section Http.
Context `{Web} `{Unicode}.

Definition classify (url : string) (cred : credential) (rejectedFields : list string) : verdict :=
  match web_get url cred with
  | BadURL e => Invalid e []
  | Unreachable e => Invalid (Wrapf "%s is unreachable: %w" [url] e) []
  | Answered status _ =>
      if bool_decide (200 ≤ status < 300) then Valid
      else if bool_decide (status = 401) || bool_decide (status = 403)
      then Invalid (Errorf "%s" []) (rejected rejectedFields (url +:+ " rejected the credential (HTTP %d)"))
      else if bool_decide (status = 404) then Invalid (Errorf "%s returned 404 — a private resource also 404s when the credential cannot see it" [url]) []
      else Invalid (Errorf "%s returned an unexpected HTTP %d" [url]) []
  end.
Definition ErrNoEndpoint : error := Sentinel "no endpoint to probe".
Definition basicAuthProbe (base suffix user pass userField passField : string) : verdict :=
  if bool_decide (base = "") then NoEndpoint (Wrapf "%w: the requirement declares no host or url" [] ErrNoEndpoint)
  else classify (trim_suffix base "/" +:+ suffix) (if bool_decide (pass = "") then NoCredential else BasicAuth user pass) [userField; passField].
Definition bearerProbe (url token tokenField : string) : verdict :=
  if bool_decide (url = "") then NoEndpoint (Wrapf "%w: the requirement declares no url" [] ErrNoEndpoint)
  else classify url (if bool_decide (token = "") then NoCredential else BearerToken token) [tokenField].

Definition zone_of (v : json) : result string := m ← as_object v; as_string (member m "name").
Definition zones_of (v : json) : result (bool * list string) :=
  m ← as_object v; success ← as_bool (member m "success"); zones ← as_list zone_of (member m "result"); Ok (success, zones).
(** [domain == zone || strings.HasSuffix(domain, "."+zone)]. *)
Definition covers (domain zone : string) : bool :=
  bool_decide (domain = zone) || bool_decide (is_Some (cut_prefix (String.rev domain) (String.rev ("." +:+ zone)))).
Definition lowered (name : string) : string := to_lower (trim_suffix name ".").
Definition cloudflareZoneProbe (kernelDomain token : string) : verdict :=
  let invalid e := Invalid e [] in
  if bool_decide (trim_space token = "") then invalid (Errorf "api-token is required" [])
  else if bool_decide (kernelDomain = "") then invalid (Errorf "cannot check the token: this cluster's kernel domain is not known to the custodian" [])
  else match web_get "https://api.cloudflare.com/client/v4/zones?per_page=50" (BearerToken (trim_space token)) with
  | BadURL e => invalid e
  | Unreachable e => invalid (Wrapf "could not reach the Cloudflare API: %w" [] e)
  | Answered status body =>
      if bool_decide (status = 401) || bool_decide (status = 403) then invalid (Errorf "the Cloudflare API rejected the api-token (HTTP %d)" [])
      else if negb (bool_decide (200 ≤ status ≤ 299)) then invalid (Errorf "the Cloudflare API answered HTTP %d listing zones" [])
      else match decoded_body zones_of body with
      | Err e => invalid (Wrapf "could not read the Cloudflare zone list: %w" [] e)
      | Ok (success, zones) =>
          if negb success then invalid (Errorf "the Cloudflare API reported the zone listing as unsuccessful" [])
          else if existsb (λ zone, bool_decide (lowered zone ≠ "") && covers (lowered kernelDomain) (lowered zone)) zones then Valid
          else invalid (Errorf "the api-token reaches Cloudflare but carries no zone covering %s (%d zone(s) visible to it)" [lowered kernelDomain])
      end
  end.

Definition Validate {C} `{Relay C} (fuel : nat) (v : EndpointValidator) (kind host : string) (fields : gmap string string) : verdict :=
  let field k := default "" (fields !! k) in
  if bool_decide (kind = "") || bool_decide (kind = "noop") then Valid
  else if bool_decide (kind = "oci-registry") then basicAuthProbe host "/v2/" (field "username") (field "password") "username" "password"
  else if bool_decide (kind = "git-https")
  then basicAuthProbe (trim_suffix host ".git") ".git/info/refs?service=git-upload-pack" (field "username") (field "token") "username" "token"
  else if bool_decide (kind = "oidc-discovery") then bearerProbe host (field "api-token") "api-token"
  else if bool_decide (kind = "smtp") then (smtpProbe (C := C) fuel (ev_relay v) fields).2
  else if bool_decide (kind = "cloudflare-dns") then cloudflareZoneProbe (ev_kernelDomain v) (field "api-token")
  else Invalid (Errorf "unknown validator type %q" [kind]) [].
End Http.

(** The relay of the Cluster claim; a port that is a number is cut to a whole one. *)
Definition clusterRelayResolver (clusters : option (list json)) : result (string * string) :=
  match clusters with
  | None => Err (Errorf "reading the Cluster claim: %w" [])
  | Some [] => Err (Errorf "this cluster has no Cluster claim to read the relay from" [])
  | Some (o :: _) =>
      Ok (nested_string o ["spec"; "mail"; "host"],
          match nested o ["spec"; "mail"; "port"] with
          | Some (JNum q) => pretty (Z.quot (QArith_base.Qnum (Qcanon.this q)) (Zpos (QArith_base.Qden (Qcanon.this q))))
          | Some (JStr p) => p
          | _ => ""
          end)
  end.

(** ** What goes over the wire *)

Definition in_the_clear : list smtp_line := [EHLO; HELO; STARTTLS; QUIT].

Section Wire.
Context {C : Type} `{Relay C} `{Unicode}.
Local Open Scope act_scope.
Abbreviation cl := (Client C).

(** Nothing but these is sent before the connection is secured. *)
Definition careful (c : cl) : Prop := ∀ line, (false, line) ∈ cl_sent c → line ∈ in_the_clear.
Definition guarded (c : cl) : Prop := careful c ∧ cl_tls c = true.

Lemma kept_from {A} I (m : act cl A) : (∀ c, I c → I (m c).1) → kept I m.
Proof. intros Hm c Hc. specialize (Hm c Hc). by destruct (m c) as [c' [a|e]]. Qed.
Lemma cmd_kept expect line : line ∈ in_the_clear → kept careful (cmd expect line).
Proof.
  intros Hl. apply kept_from. intros c Hc. unfold cmd. destruct (cl_closed c); [done|]. destruct (rl_exchange _ _ _) as [conn r]. unfold careful. cbn. intros l. rewrite elem_of_app, list_elem_of_singleton.
  intros [Hin|[= _ ->]]; [by apply Hc|done].
Qed.
Lemma cmd_guarded expect line : kept guarded (cmd expect line).
Proof.
  apply kept_from. intros c [Hc Ht]. unfold cmd. destruct (cl_closed c); [done|]. rewrite Ht. destruct (rl_exchange _ _ _) as [conn r]. split; [|done]. unfold careful. cbn. intros l.
  rewrite elem_of_app, list_elem_of_singleton. intros [Hin|[=]]. by apply Hc.
Qed.

(** Saying hello, securing and quitting keep what sending their lines keeps. *)
Section Polite.
Context (I : cl → Prop).
Context (Hline : ∀ expect line, line ∈ in_the_clear → kept I (cmd expect line)).
Context (Hext : ∀ ext, kept I (set_ext ext)) (Hset : ∀ e, kept I (set_hello e)) (Hclose : kept I close).

Lemma line_ehlo : EHLO ∈ in_the_clear.
Proof. by left. Qed.
Lemma ehlo_kept : kept I ehlo.
Proof. apply kept_bind; [apply Hline, line_ehlo|]. intros r. apply Hext. Qed.
Lemma hello_kept : kept I hello.
Proof.
  intros c Hc. unfold hello. destruct (cl_didHello c); [by destruct (cl_helloError c)|]. revert c Hc. apply kept_bind; [apply Hset|]. intros _. apply kept_bind; [apply kept_tried, ehlo_kept|].
  intros [_|e]; [apply kept_ret|]. apply kept_bind.
  - apply kept_tried, kept_bind; [apply Hext|]. intros _. apply kept_bind; [apply Hline; right; by left|]. intros r. apply kept_ret.
  - intros [_|e']; [apply kept_ret|]. apply kept_bind; [apply Hset|]. intros _. apply kept_fail.
Qed.
Lemma Quit_kept : kept I Quit.
Proof. apply kept_bind; [apply hello_kept|]. intros _. apply kept_bind; [apply Hline; do 3 right; by left|]. intros r. apply Hclose. Qed.
End Polite.

Lemma hello_careful : kept careful hello.
Proof. apply hello_kept; [apply cmd_kept|by intros ext c Hc|by intros e c Hc]. Qed.
Lemma Quit_careful : kept careful Quit.
Proof. apply Quit_kept; [apply cmd_kept|by intros ext c Hc|by intros e c Hc|by intros c Hc]. Qed.
Lemma hello_guarded : kept guarded hello.
Proof. apply hello_kept; [intros; apply cmd_guarded|by intros ext c Hc|by intros e c Hc]. Qed.
Lemma Quit_guarded : kept guarded Quit.
Proof. apply Quit_kept; [intros; apply cmd_guarded|by intros ext c Hc|by intros e c Hc|by intros c Hc]. Qed.

Lemma ignoring_kept {A} I (m : act cl A) : kept I m → kept I (ignoring m).
Proof. intros Hm. apply kept_from. intros c Hc. by apply (triple_left I m c). Qed.

Lemma auth_loop_guarded fuel a r : kept guarded (auth_loop fuel a r).
Proof.
  revert r. induction fuel as [|fuel IH]; intros r; cbn [auth_loop]; cbv zeta.
  all: match goal with |- kept _ (match ?n with _ => _ end) => destruct n as [[resp|]|e] end.
  all: try apply kept_ret; try apply kept_fail.
  2: { apply kept_bind; [apply cmd_guarded|done]. }
  all: apply kept_bind; [apply ignoring_kept, cmd_guarded|]; intros _; apply kept_bind; [apply ignoring_kept, Quit_guarded|]; intros _; apply kept_fail.
Qed.
Lemma authenticate_guarded fuel name a : kept guarded (authenticate fuel name a).
Proof.
  apply kept_bind; [apply hello_guarded|]. intros _. apply kept_bind; [by intros c Hc|]. intros tls. destruct (au_start a name tls) as [[mechanism initial]|e].
  - apply kept_bind; [apply cmd_guarded|]. intros r. apply auth_loop_guarded.
  - apply kept_bind; [apply ignoring_kept, Quit_guarded|]. intros _. apply kept_fail.
Qed.

(** A connection that counts as secured is. *)
Lemma StartTLS_guards (c c' : cl) res : careful c → StartTLS c = (c', res) → careful c' ∧ ∀ u, res = Ok u → cl_tls c' = true.
Proof.
  intros Hc. unfold StartTLS, act_bind at 1. pose proof (triple_left _ _ _ hello_careful Hc) as Hh. destruct (hello c) as [c2 [u2|e]]; [|by intros [= <- <-]]. cbn [fst] in Hh.
  unfold act_bind at 1. pose proof (triple_left _ _ _ (cmd_kept 220 STARTTLS ltac:(do 2 right; by left)) Hh) as Hs. destruct (cmd 220 STARTTLS c2) as [c3 [r|e]]; [|by intros [= <- <-]]. cbn [fst] in Hs.
  assert (guarded (secured c3).1) as Hg by done. unfold act_bind, secured. cbn [secured fst] in Hg.
  assert (kept guarded ehlo) as Hk by (apply ehlo_kept; [intros; apply cmd_guarded|by intros ext c0 Hc0]). pose proof (triple_left _ _ _ Hk Hg) as [He1 He2].
  destruct (ehlo _) as [c4 r4]. by intros [= <- <-].
Qed.
Lemma secure_guards port (c c' : cl) res : careful c → cl_tls c = bool_decide (port = "465") → secure port c = (c', res) → careful c' ∧ ∀ u, res = Ok u → cl_tls c' = true.
Proof.
  intros Hc Ht. unfold secure. destruct (bool_decide (port = "465")); [by intros [= <- <-]|]. unfold act_bind at 1, Extension, act_bind, tried.
  pose proof (triple_left _ _ _ hello_careful Hc) as Hh. destruct (hello c) as [c1 [u|e]]; [|by intros [= <- <-]]. cbn [fst] in Hh.
  destruct (match cl_ext c1 with None => false | Some m => bool_decide (is_Some (m !! "STARTTLS")) end); cbn [negb]; [|by intros [= <- <-]].
  unfold act_wrap. destruct (StartTLS c1) as [c2 r2] eqn:Es. apply StartTLS_guards in Es as [Hc2 Ht2]; [|done]. intros [= <- <-]. split; [done|]. intros u'. destruct r2; [|done]. intros _. by eapply Ht2.
Qed.

Lemma session_careful fuel addr host port user pass (c : cl) : careful c → cl_tls c = bool_decide (port = "465") → careful (smtp_session fuel addr host port user pass c).1.
Proof.
  intros Hc Ht. unfold smtp_session. unfold act_bind at 1 2, tried at 1. destruct (secure port c) as [c1 res] eqn:Es. apply secure_guards in Es as [Hc1 Ht1]; [|done|done].
  assert (∀ (m : act cl verdict), kept guarded m → ∀ c, guarded c → careful (let '(s', r) := m c in match r with Ok a => (ignoring Quit ;; ret a) s' | Err e => (s', Err e) end).1) as Hend.
  { intros m Hm c0 Hg. pose proof (triple_left _ _ _ Hm Hg) as Hg'. destruct (m c0) as [c2 [v|e]]; [|apply Hg']. unfold act_bind, ignoring, ret. cbn.
    apply (triple_left careful Quit), Hg'. apply Quit_careful. }
  destruct res as [u|e].
  - apply Hend; [|split; [done|by eapply Ht1]]. apply kept_bind; [apply kept_tried, authenticate_guarded|]. intros [u1|e1]; [apply kept_ret|].
    apply kept_bind; [apply kept_tried, authenticate_guarded|]. intros [u2|e2]; apply kept_ret.
  - unfold ret, act_bind, ignoring. cbn. apply (triple_left careful Quit); [apply Quit_careful|done].
Qed.
End Wire.

(** ** A relay that refuses PLAIN *)

Section Refused.
Context {C : Type} `{Relay C} `{Unicode}.
Context (Hquit : ∀ conn tls, ry_code <$> (rl_exchange conn tls QUIT).2 = Some 221).
Context (Hplain : ∀ conn tls initial, ∃ r, (rl_exchange conn tls (AUTH "PLAIN" initial)).2 = Some r ∧ ry_code r ≠ 235).
Abbreviation cl := (Client C).

(** What is known of the connection apart from what the server says. *)
Definition standing (c : cl) : bool * option error * bool * bool := (cl_didHello c, cl_helloError c, cl_closed c, cl_tls c).

Lemma cmd_standing expect line (c : cl) : standing (cmd expect line c).1 = standing c.
Proof. unfold cmd. destruct (cl_closed c) eqn:E; [done|]. destruct (rl_exchange _ _ _). unfold standing. cbn. by rewrite E. Qed.
Lemma ehlo_standing (c : cl) : standing (ehlo c).1 = standing c.
Proof. unfold ehlo, act_bind. pose proof (cmd_standing 250 EHLO c) as Hs. by destruct (cmd 250 EHLO c) as [c' [r|e]]. Qed.
Lemma hello_spec (c c' : cl) r : hello c = (c', r) →
  cl_didHello c' = true ∧ cl_closed c' = cl_closed c ∧ cl_tls c' = cl_tls c ∧ r = match cl_helloError c' with Some e => Err e | None => Ok tt end.
Proof.
  unfold hello. destruct (cl_didHello c) eqn:Ed; [by intros [= <- <-]|]. unfold act_bind at 1, set_hello at 1, act_bind at 1, tried at 1.
  set (c1 := mkClient _ _ _ _ _ _ _). pose proof (ehlo_standing c1) as He. destruct (ehlo c1) as [c2 [u|e]]; cbn [fst] in He.
  { unfold standing in He. cbn in He. injection He as Hd Hh Hc Ht. intros [= <- <-]. by rewrite Hh. }
  unfold act_bind at 1, tried, helo, act_bind at 1, set_ext. set (c3 := mkClient _ _ _ _ _ _ _). unfold act_bind at 1.
  assert (standing c3 = standing c1) as H3 by exact He. pose proof (cmd_standing 250 HELO c3) as Hs. rewrite H3 in Hs. clear H3. destruct (cmd 250 HELO c3) as [c4 [r4|e4]]; cbn [fst] in Hs; unfold standing in Hs; cbn in Hs; injection Hs as Hd Hh Hc Ht.
  - intros [= <- <-]. by rewrite Hh.
  - unfold act_bind, set_hello, fail. intros [= <- <-]. by cbn.
Qed.

Lemma Quit_closes (c : cl) : cl_didHello c = true → cl_helloError c = None → cl_closed c = false → cl_closed (Quit c).1 = true ∧ cl_didHello (Quit c).1 = true.
Proof.
  intros Hd Hh Hc. unfold Quit, act_bind at 1 3, hello. rewrite Hd, Hh. unfold act_bind, cmd. rewrite Hc. specialize (Hquit (cl_conn c) (cl_tls c)).
  destruct (rl_exchange _ _ _) as [conn [r|]]; [|done]. cbn in Hquit |- *. injection Hquit as Hq. rewrite (bool_decide_true _ Hq). cbn. by rewrite Hd.
Qed.

(** Nobody can be spoken to any more. *)
Definition lost (c : cl) : Prop := cl_didHello c = true ∧ (cl_closed c = true ∨ is_Some (cl_helloError c)).

Lemma abandon_lost e (c : cl) : cl_didHello c = true → cl_helloError c = None → cl_closed c = false → ∃ c', abandon e c = (c', Err e) ∧ lost c'.
Proof.
  intros Hd Hh Hc. unfold abandon, act_bind at 1, ignoring at 1. pose proof (cmd_standing 501 ABORT c) as Hs. unfold standing in Hs. injection Hs as Hd1 Hh1 Hc1 _. destruct (cmd 501 ABORT c) as [c1 r1]. cbn in *.
  destruct (Quit_closes c1) as [Hq Hd2]; [congruence..|]. unfold act_bind, ignoring, fail. eexists. split; [done|]. split; [done|]. by left.
Qed.
Lemma plain_lost fuel user pass host (c : cl) : cl_tls c = true → cl_closed c = false → ∃ c' e, authenticate fuel host (PlainAuth user pass host) c = (c', Err e) ∧ lost c'.
Proof.
  intros Ht Hc. unfold authenticate, act_bind at 1. destruct (hello c) as [c1 r1] eqn:Eh. apply hello_spec in Eh as (Hd & Hc1 & Ht1 & ->).
  destruct (cl_helloError c1) as [e|] eqn:Ee. { exists c1, e. split; [done|]. split; [done|]. right. by rewrite Ee. }
  unfold act_bind at 1. rewrite Ht1, Ht. cbn [PlainAuth au_start negb andb]. rewrite bool_decide_true by done. cbn [negb].
  unfold act_bind at 1, cmd. rewrite Hc1, Hc. destruct (Hplain (cl_conn c1) (cl_tls c1) (String "000" (user +:+ String "000" pass))) as (r & Hr & Hcode).
  destruct (rl_exchange _ _ _) as [conn resp]. cbn in Hr. subst resp. set (c2 := mkClient _ _ _ _ _ _ _). rewrite (bool_decide_true (0 = 0)) by done. cbn [orb].
  assert (∃ e, auth_loop fuel (PlainAuth user pass host) r = abandon (C := C) e) as [e ->].
  { destruct fuel; cbn [auth_loop]; cbv zeta; rewrite (bool_decide_false (ry_code r = 235)) by done; (destruct (bool_decide _); [destruct (ry_decoded r)|]; by eexists). }
  destruct (abandon_lost e c2) as (c3 & Ha & Hl); [done|done|cbn; congruence|]. rewrite Ha. by exists c3, e.
Qed.
Lemma login_lost fuel user pass host (c : cl) : lost c → ∃ c' e, authenticate fuel host (loginAuth user pass) c = (c', Err e).
Proof.
  intros [Hd Hl]. unfold authenticate, act_bind at 1, hello. rewrite Hd. destruct (cl_helloError c) as [e|] eqn:Ee; [by eauto|]. destruct Hl as [Hc|[? ?]]; [|done].
  unfold act_bind at 1. cbn [loginAuth au_start]. destruct (cl_tls c); cbn [negb].
  - unfold act_bind, cmd. rewrite Hc. eauto.
  - unfold act_bind, fail. by destruct (ignoring Quit c) as [c' []]; eauto.
Qed.

Lemma secure_open port (c c' : cl) u : cl_closed c = false → secure port c = (c', Ok u) → cl_closed c' = false.
Proof.
  intros Hc. unfold secure. destruct (bool_decide _); [by intros [= <-]|]. unfold act_bind at 1, Extension, act_bind, tried.
  destruct (hello c) as [c1 r1] eqn:Eh. apply hello_spec in Eh as (_ & Hc1 & _ & ->). destruct (cl_helloError c1); [done|]. destruct (match cl_ext c1 with None => _ | Some m => _ end); cbn [negb]; [|done].
  unfold act_wrap, StartTLS, act_bind at 1. destruct (hello c1) as [c2 r2] eqn:Eh2. apply hello_spec in Eh2 as (_ & Hc2 & _ & ->). destruct (cl_helloError c2); [done|].
  unfold act_bind at 1. pose proof (cmd_standing 220 STARTTLS c2) as Hs. unfold standing in Hs. destruct (cmd 220 STARTTLS c2) as [c3 [r3|e3]]; [|done]. cbn in Hs. injection Hs as _ _ Hc3 _.
  unfold act_bind, secured. set (c4 := mkClient _ _ _ _ _ _ _). pose proof (ehlo_standing c4) as He. unfold standing in He. cbn in He. injection He as _ _ Hc5 _.
  destruct (ehlo c4) as [c5 [u5|e5]]; [|done]. cbn in Hc5. intros [= <- <-]. congruence.
Qed.

Lemma session_refused fuel addr host port user pass (c : cl) : careful c → cl_tls c = bool_decide (port = "465") → cl_closed c = false →
  (smtp_session fuel addr host port user pass c).2 ≠ Ok Valid.
Proof.
  intros Hcare Ht Hc. unfold smtp_session, act_bind at 1 2, tried at 1. destruct (secure port c) as [c1 [u|e]] eqn:Es; [|done].
  pose proof (secure_open _ _ _ _ Hc Es) as Hc1. apply secure_guards in Es as [_ Ht1]; [|done|done]. specialize (Ht1 u eq_refl).
  destruct (plain_lost fuel user pass host c1 Ht1 Hc1) as (c2 & e2 & Hp & Hl). unfold act_bind at 1, tried at 1. rewrite Hp.
  destruct (login_lost fuel user pass host c2 Hl) as (c3 & e3 & Hlogin). unfold act_bind at 1, tried at 1. rewrite Hlogin. done.
Qed.
End Refused.

(** ** Properties *)

(** C26: A relay's credentials are not sent in the clear, nor anything that depends on them:
    before the connection is secured the relay is told hello, asked to secure it, and
    bidden goodbye. *)
Theorem credentials_only_under_tls {C} `{Relay C} `{Unicode} (fuel : nat) (relay : option (result (string * string))) (fields : gmap string string) (line : smtp_line) :
  (false, line) ∈ (smtpProbe (C := C) fuel relay fields).1 → line ∈ in_the_clear.
Proof.
  unfold smtpProbe. cbv zeta. destruct (_ || _); [by intros ?%not_elem_of_nil|]. destruct relay as [[[host port]|e]|]; try by intros ?%not_elem_of_nil.
  destruct (bool_decide (host = "")); [by intros ?%not_elem_of_nil|]. set (port' := if bool_decide (port = "") then _ else _). destruct (rl_dial _ _) as [conn|]; [|by intros ?%not_elem_of_nil].
  destruct (rl_greeting conn) as [conn' greeting]. destruct (negb _); [by intros ?%not_elem_of_nil|]. set (c0 := mkClient _ _ _ _ _ _ _).
  assert (careful c0) as Hc by (by intros l ?%not_elem_of_nil). pose proof (session_careful fuel (JoinHostPort host port') host port' (default "" (fields !! "relay_username")) (default "" (fields !! "relay_password")) c0 Hc eq_refl) as Hs.
  destruct (smtp_session _ _ _ _ _ _ c0) as [c v]. apply Hs.
Qed.

(** C39: A relay that does not take PLAIN refuses every credential: the client hangs up on an
    authentication that failed, so that the LOGIN it would then try is never sent. *)
Theorem login_only_relay_is_refused {C} `{Relay C} `{Unicode} (fuel : nat) (relay : option (result (string * string))) (fields : gmap string string) :
  (∀ conn tls, ry_code <$> (rl_exchange conn tls QUIT).2 = Some 221) →
  (∀ conn tls initial, ∃ r, (rl_exchange conn tls (AUTH "PLAIN" initial)).2 = Some r ∧ ry_code r ≠ 235) →
  (smtpProbe (C := C) fuel relay fields).2 ≠ Valid.
Proof.
  intros Hquit Hplain. unfold smtpProbe. cbv zeta. destruct (_ || _); [done|]. destruct relay as [[[host port]|e]|]; [|done|done].
  destruct (bool_decide (host = "")); [done|]. set (port' := if bool_decide (port = "") then _ else _). destruct (rl_dial _ _) as [conn|]; [|done].
  destruct (rl_greeting conn) as [conn' greeting]. destruct (negb _); [done|]. set (c0 := mkClient _ _ _ _ _ _ _).
  assert (careful c0) as Hc by (by intros l ?%not_elem_of_nil).
  pose proof (session_refused Hquit Hplain fuel (JoinHostPort host port') host port' (default "" (fields !! "relay_username")) (default "" (fields !! "relay_password")) c0 Hc eq_refl eq_refl) as Hs.
  destruct (smtp_session _ _ _ _ _ _ c0) as [c [v|e]]; cbn in *; [congruence|done].
Qed.

(** ** A relay at work

    It offers STARTTLS and takes LOGIN only, from one person. *)
Module RelayExample.
#[local] Instance ascii_names : Unicode := λ s, s.
Inductive stage := Idle | AskedName | AskedPassword.
Definition says (code : Z) (text : string) : option reply := Some (mkReply code [text] (Some text)).
Definition hears (s : stage) (tls : bool) (line : smtp_line) : stage * option reply :=
  match line with
  | EHLO | HELO => (Idle, Some (mkReply 250 ["relay"; "STARTTLS"; "AUTH LOGIN"] None))
  | STARTTLS => (Idle, says 220 "go ahead")
  | AUTH mechanism _ => if bool_decide (mechanism = "LOGIN") then (AskedName, says 334 "Username:") else (Idle, says 504 "unrecognized")
  | RESPONSE bytes =>
      match s with
      | AskedName => if bool_decide (bytes = "me") then (AskedPassword, says 334 "Password:") else (Idle, says 535 "no")
      | AskedPassword => if bool_decide (bytes = "secret") then (Idle, says 235 "welcome") else (Idle, says 535 "no")
      | Idle => (Idle, says 500 "what")
      end
  | ABORT => (Idle, says 500 "what")
  | QUIT => (Idle, says 221 "bye")
  end.
#[local] Instance login_only : Relay stage := {| rl_dial _ _ := Some Idle; rl_greeting s := (s, says 220 "relay"); rl_exchange := hears |}.
Definition at_587 : option (result (string * string)) := Some (Ok ("relay.example", "")).
Definition mine : gmap string string := <["relay_username" := "me"]> {["relay_password" := "secret"]}.

Lemma credentials_only_under_tls_witness : (false, STARTTLS) ∈ (smtpProbe (C := stage) 3 at_587 mine).1 ∧ STARTTLS ∈ in_the_clear.
Proof.
  assert ((false, STARTTLS) ∈ (smtpProbe (C := stage) 3 at_587 mine).1) as Hsent by (vm_compute; right; left).
  split; [exact Hsent|]. exact (credentials_only_under_tls (C := stage) 3 at_587 mine STARTTLS Hsent).
Defined.

(** The same relay takes these credentials from a client that asks for LOGIN first. *)
Lemma login_only_relay_is_refused_witness :
  (authenticate 3 "relay.example" (loginAuth "me" "secret") (mkClient Idle true None false None false [])).2 = Ok tt
  ∧ (smtpProbe (C := stage) 3 at_587 mine).2 ≠ Valid.
Proof.
  split; [vm_compute; reflexivity|]. apply (login_only_relay_is_refused (C := stage) 3 at_587 mine).
  - intros conn tls. reflexivity.
  - intros conn tls initial. eexists. split; [reflexivity|]. discriminate.
Defined.
End RelayExample.
