(* ===== verification/SystemEngines.v ===== *)
(** * The engines a cluster runs on demand ([internal/controller/system_engines.go])

    The set of engines is one ConfigMap: [wanted] while something declares an engine
    or did, [purge] once a person asked for it to go and nothing held it.  A purge
    ends with the engine's volumes, so what the set says decides whose data is lost.

    [engineSet_exact] says what each key becomes; [volumes_go_by_request_only] follows
    the set through any history of requests and reconciliations;
    [kept_authorization_store_holds_nothing] is where the record of what is held falls
    short. *)

From S2P Require Import Prelude.
From S2P Require Import GoStrings.

(** ** Profiles and what they declare *)

Definition EngineMariaDB : string := "mariadb".
Definition EngineCache : string := "cache".
Definition EngineAuthorization : string := "authorization".
Definition EngineTURN : string := "turn".

Definition DatabaseEngineMariaDB : string := "mariadb".
Definition DatabaseEnginePostgreSQL : string := "postgresql".
Definition CacheEngineRedis : string := "redis".

(** The services of a profile; an engine is [""] where the requirement leaves it out. *)
Record services := mkServices {
  se_database : option string; se_cache : option string; se_authorization : bool; se_turn : bool }.
Record profile := mkProfile { pr_services : option services }.

Definition DatabaseEngineOf (p : profile) : string :=
  match pr_services p ≫= se_database with
  | None => ""
  | Some e => if bool_decide (e = "") then DatabaseEnginePostgreSQL else e
  end.
Definition CacheEngineOf (p : profile) : string :=
  match pr_services p ≫= se_cache with
  | None => ""
  | Some e => if bool_decide (e = "") then CacheEngineRedis else e
  end.
Definition wantsAuthorization (p : profile) : bool :=
  match pr_services p with Some s => se_authorization s | None => false end.
Definition wantsTURN (p : profile) : bool :=
  match pr_services p with Some s => se_turn s | None => false end.

Definition systemEngines : list (string * (profile → bool)) := [
  (EngineMariaDB, λ p, bool_decide (DatabaseEngineOf p = DatabaseEngineMariaDB));
  (EngineCache, λ p, bool_decide (CacheEngineOf p = CacheEngineRedis));
  (EngineAuthorization, wantsAuthorization);
  (EngineTURN, wantsTURN)].

Definition declaredEngines (p : profile) : list string := (filter (λ e, e.2 p = true) systemEngines).*1.

Definition engineNamespace (engine : string) : string :=
  if bool_decide (engine = EngineTURN) then "system-turn-dmz" else "system-" +:+ engine.

(** ** The set *)

Definition engineWanted : string := "wanted".
Definition enginePurge : string := "purge".
Definition enginePurgeRequestPrefix : string := "purge.".

Definition engineSet (current : gmap string string) (declared holders : gmap string (list string))
    : gmap string string * gmap string (list string) :=
  let kept := filter (λ kv, cut_prefix kv.1 enginePurgeRequestPrefix = None) current in
  let requests : gset string := list_to_set (omap (λ kv, cut_prefix kv.1 enginePurgeRequestPrefix) (map_to_list current)) in
  let held_by engine := default [] (holders !! engine) in
  let refused := set_to_map (λ engine, (engine, held_by engine)) (filter (λ engine, held_by engine ≠ []) requests) in
  let marked := map_imap (λ engine mark,
    Some (if bool_decide (engine ∈ requests) && bool_decide (held_by engine = []) then enginePurge else mark)) kept in
  (map_imap (λ engine _, Some engineWanted) declared ∪ marked, refused).

(** ** What the operator reads *)

(** A component: whether it is being deleted, and its profile, [None] when there is
    none to be found. *)
Record component := mkComponent {
  co_namespace : string; co_name : string; co_deleting : bool; co_profile : result (option profile) }.
(** What was provisioned for one app, by the names it was made under. *)
Record Provisioned := mkProvisioned {
  pv_database_engine : string; pv_database : string; pv_database_user : string; pv_bucket : string;
  pv_cache_user : string; pv_model_key : string }.
(** A tenant's record of what was provisioned for its apps. *)
Record record := mkRecord { re_name : string; re_tenant : string; re_entries : result (gmap string Provisioned) }.

Definition add_to (who : string) (out : gmap string (list string)) (engine : string) : gmap string (list string) :=
  <[engine := default [] (out !! engine) ++ [who]]> out.

Definition declared_one (out : gmap string (list string)) (c : component) : result (gmap string (list string)) :=
  if co_deleting c then Ok out
  else
    found ← co_profile c;
    match found with
    | None => Ok out
    | Some p => Ok (foldl (add_to (co_namespace c +:+ "/" +:+ co_name c)) out (declaredEngines p))
    end.
Definition declared (components : result (list component)) : result (gmap string (list string)) :=
  items ← components;
  out ← fold_result declared_one ∅ items;
  Ok (sort_strings <$> (out : gmap string (list string))).

Definition hold_one (tenant : string) (out : gmap string (list string)) (entry : string * Provisioned) : gmap string (list string) :=
  let who := tenant +:+ ": " +:+ entry.1 +:+ " (recorded)" in
  let out := if bool_decide (pv_database_engine entry.2 = DatabaseEngineMariaDB) then add_to who out EngineMariaDB else out in
  if negb (bool_decide (pv_cache_user entry.2 = "")) then add_to who out EngineCache else out.
Definition holders_of (out : gmap string (list string)) (r : record) : result (gmap string (list string)) :=
  entries ← wrap "read %s: %w" [re_name r] (re_entries r);
  Ok (foldl (hold_one (re_tenant r)) out (map_to_list entries)).
Definition holders (declared : gmap string (list string)) (records : result (list record)) : result (gmap string (list string)) :=
  items ← records;
  out ← fold_result holders_of declared items;
  Ok (sort_strings <$> (out : gmap string (list string))).

(** ** Reconciling *)

(** The ConfigMap, and the volumes removed so far, in order. *)
Record state := mkState { st_set : option (gmap string string); st_removed : list string }.

(** What one reconciliation meets: what it lists, the engines people ask to purge
    between its read of the set and its write, whether the write goes through, the
    order it visits the set in, whether a Release installs into a namespace, and
    whether a namespace's volumes can be removed. *)
Record sight := mkSight {
  si_components : result (list component); si_records : result (list record); si_asked : list string;
  si_write : result unit; si_visit : gmap string string → list (string * string);
  si_release : string → result bool; si_delete : string → result unit }.

Definition ask_purge (engine : string) (m : gmap string string) : gmap string string :=
  <[enginePurgeRequestPrefix +:+ engine := "yes"]> m.

(** A merge patch from [old] to [new], of what the set now is. *)
Definition merge_patch (old new now : gmap string string) : gmap string string :=
  merge (λ now on, match on with
                   | None => now
                   | Some (o, n) => if decide (o = n) then now else n
                   end) now
    (merge (λ o n, Some (o, n)) old new).

(** The purged engines, one after another: whether one still has its Release. *)
Fixpoint remove_volumes (sg : sight) (marks : list (string * string)) (removed : list string) : list string * result bool :=
  match marks with
  | [] => (removed, Ok false)
  | (engine, mark) :: rest =>
      if negb (bool_decide (mark = enginePurge)) then remove_volumes sg rest removed
      else match si_release sg (engineNamespace engine) with
           | Err e => (removed, Err e)
           | Ok true => let '(removed, r) := remove_volumes sg rest removed in (removed, (λ _, true) <$> r)
           | Ok false =>
               match si_delete sg (engineNamespace engine) with
               | Err e => (removed, Err (Wrapf "remove the volumes of the purged %s engine: %w" [engine] e))
               | Ok _ => remove_volumes sg rest (removed ++ [engine])
               end
           end
  end.

(** The set created, or patched when it differs. *)
Definition write_set (sg : sight) (s : state) (data : gmap string string) : state * result unit :=
  match st_set s with
  | None => (mkState (if is_ok (si_write sg) then Some data else None) (st_removed s), si_write sg)
  | Some existing =>
      let now := foldr ask_purge existing (si_asked sg) in
      if bool_decide (existing = data) then (mkState (Some now) (st_removed s), Ok tt)
      else (mkState (Some (if is_ok (si_write sg) then merge_patch existing data now else now)) (st_removed s), si_write sg)
  end.

(** [Reconcile]: the new state, and whether to look again soon. *)
Definition Reconcile (sg : sight) (s : state) : state * result bool :=
  match (dec ← declared (si_components sg); hol ← holders dec (si_records sg); Ok (dec, hol)) with
  | Err e => (s, Err e)
  | Ok (dec, hol) =>
      let data := (engineSet (default ∅ (st_set s)) dec hol).1 in
      match write_set sg s data with
      | (s', Err e) => (s', Err e)
      | (s', Ok _) =>
          let '(removed, r) := remove_volumes sg (si_visit sg data) (st_removed s') in
          (mkState (st_set s') removed, r)
      end
  end.

(** ** Lemmas *)

#[local] Arguments cut_prefix : simpl never.

Definition requested (current : gmap string string) (engine : string) : Prop :=
  is_Some (current !! (enginePurgeRequestPrefix +:+ engine)).

Lemma elem_of_requests (current : gmap string string) engine :
  engine ∈ (list_to_set (omap (λ kv, cut_prefix kv.1 enginePurgeRequestPrefix) (map_to_list current)) : gset string)
  ↔ requested current engine.
Proof.
  rewrite elem_of_list_to_set, list_elem_of_omap. unfold requested. split.
  - intros ([k v] & Hkv & Hc). cbn in Hc. apply cut_prefix_Some in Hc as ->. apply elem_of_map_to_list in Hkv. by exists v.
  - intros [v Hv]. exists (enginePurgeRequestPrefix +:+ engine, v). split; [by apply elem_of_map_to_list|].
    cbn. apply cut_prefix_app.
Qed.

(** What a key of the set becomes. *)
Lemma engineSet_lookup current dec hol k :
  (engineSet current dec hol).1 !! k =
    if decide (is_Some (dec !! k)) then Some engineWanted
    else match cut_prefix k enginePurgeRequestPrefix with
         | Some _ => None
         | None =>
             match current !! k with
             | None => None
             | Some mark => if decide (requested current k ∧ default [] (hol !! k) = []) then Some enginePurge else Some mark
             end
         end.
Proof.
  unfold engineSet. cbn [fst]. rewrite lookup_union, !map_lookup_imap, map_lookup_filter.
  destruct (dec !! k) as [l|] eqn:Ed; cbn.
  { rewrite decide_True by eauto. by destruct (_ ≫= _). }
  rewrite decide_False by (intros [? ?]; done). rewrite (left_id_L None (∪)).
  destruct (current !! k) as [mark|] eqn:Ec; cbn; [|by destruct (cut_prefix _ _)].
  destruct (cut_prefix k enginePurgeRequestPrefix) eqn:Ek; [by rewrite option_guard_False|].
  rewrite option_guard_True by done. cbn.
  assert (bool_decide (k ∈ (list_to_set (omap (λ kv, cut_prefix kv.1 enginePurgeRequestPrefix) (map_to_list current)) : gset string))
    && bool_decide (default [] (hol !! k) = []) = bool_decide (requested current k ∧ default [] (hol !! k) = [])) as ->.
  { rewrite <-bool_decide_and. apply bool_decide_ext. by rewrite elem_of_requests. }
  case_bool_decide as HP; [by rewrite decide_True|by rewrite decide_False].
Qed.

Lemma engineSet_refused current dec hol k l :
  (engineSet current dec hol).2 !! k = Some l ↔ requested current k ∧ l = default [] (hol !! k) ∧ l ≠ [].
Proof.
  unfold engineSet. cbn [snd]. rewrite lookup_set_to_map by done.
  setoid_rewrite elem_of_filter. setoid_rewrite elem_of_requests. naive_solver.
Qed.

(** Only engines of the list are declared. *)
Lemma add_to_dom who out engines k : is_Some (foldl (add_to who) out engines !! k) → is_Some (out !! k) ∨ k ∈ engines.
Proof.
  revert out. induction engines as [|e engines IH]; intros out; cbn; [by left|].
  intros [Hk|Hk]%IH; [|right; by right]. unfold add_to in Hk. destruct (decide (k = e)) as [->|Hne]; [right; left|].
  left. by rewrite lookup_insert_ne in Hk.
Qed.

Lemma declared_dom components dec k : declared components = Ok dec → is_Some (dec !! k) → k ∈ systemEngines.*1.
Proof.
  unfold declared. rewrite bind_Ok. intros (items & _ & Hd). revert Hd. rewrite bind_Ok. intros (out & Hout & [= <-]).
  rewrite lookup_fmap, fmap_is_Some. revert k.
  apply (fold_result_invariant declared_one (λ _ out, ∀ k, is_Some (out !! k) → k ∈ systemEngines.*1) ∅ items out Hout).
  - intros k [? Hk]. by rewrite lookup_empty in Hk.
  - intros _ c acc acc' _ Hacc Hc k. revert Hc. unfold declared_one. destruct (co_deleting c); [by intros [= <-]; apply Hacc|].
    rewrite bind_Ok. intros ([p|] & _ & [= <-]); [|by apply Hacc]. intros [Hk|Hk]%add_to_dom; [by apply Hacc|].
    unfold declaredEngines in Hk. apply list_elem_of_fmap in Hk as (e & -> & [_ He]%list_elem_of_filter).
    by apply list_elem_of_fmap_2.
Qed.

Lemma engine_not_request engine rest : engine ∈ systemEngines.*1 → engine ≠ enginePurgeRequestPrefix +:+ rest.
Proof. intros He ->. cbn in He. set_solver. Qed.

Lemma merge_patch_lookup old new now k :
  merge_patch old new now !! k = if decide (old !! k = new !! k) then now !! k else new !! k.
Proof.
  unfold merge_patch. rewrite !lookup_merge. destruct (old !! k), (new !! k), (now !! k); cbn; by repeat case_decide.
Qed.

Lemma asked_lookup asked (m : gmap string string) k v : foldr ask_purge m asked !! k = Some v →
  m !! k = Some v ∨ ∃ e, e ∈ asked ∧ k = enginePurgeRequestPrefix +:+ e ∧ v = "yes".
Proof.
  induction asked as [|e asked IH]; cbn; [by left|]. unfold ask_purge at 1. rewrite lookup_insert_Some.
  intros [[<- <-]|[_ Hk]]; [right; exists e; split; [left|done]|].
  destruct (IH Hk) as [?|(e' & He' & ? & ?)]; [by left|]. right. exists e'. split; [by right|done].
Qed.

(** ** Histories *)

Inductive event := Asks (engine : string) | Reconciles (sg : sight).

Definition step (s : state) (ev : event) : state :=
  match ev with
  | Asks engine => mkState (ask_purge engine <$> st_set s) (st_removed s)
  | Reconciles sg => (Reconcile sg s).1
  end.
Definition start : state := mkState None [].
Definition run (evs : list event) : state := foldl step start evs.

(** The set is visited whole, in whatever order. *)
Definition visits (ev : event) : Prop :=
  match ev with Asks _ => True | Reconciles sg => ∀ m, si_visit sg m ≡ₚ map_to_list m end.

Definition asked (evs : list event) (engine : string) : Prop :=
  Asks engine ∈ evs ∨ ∃ sg, Reconciles sg ∈ evs ∧ engine ∈ si_asked sg.

(** What a reconciliation found declared and held. *)
Definition saw (sg : sight) (dec hol : gmap string (list string)) : Prop :=
  declared (si_components sg) = Ok dec ∧ holders dec (si_records sg) = Ok hol.

(** A purge was asked for, then found nothing holding the engine, and no
    reconciliation that could write found it declared since. *)
Definition accepted (evs : list event) (engine : string) : Prop :=
  ∃ pre sg post dec hol, evs = pre ++ Reconciles sg :: post ∧ asked pre engine ∧ saw sg dec hol
    ∧ dec !! engine = None ∧ default [] (hol !! engine) = []
    ∧ ∀ sg' dec' hol', Reconciles sg' ∈ post → saw sg' dec' hol' → is_ok (si_write sg') = true → dec' !! engine = None.

Lemma asked_more evs evs' engine : asked evs engine → asked (evs ++ evs') engine.
Proof. intros [H|(sg & H & He)]; [left|right; exists sg; split; [|done]]; apply elem_of_app; by left. Qed.

(** Later events that leave the engine undeclared leave the purge accepted. *)
Lemma accepted_more evs ev engine : accepted evs engine →
  (∀ sg dec hol, ev = Reconciles sg → saw sg dec hol → is_ok (si_write sg) = true → dec !! engine = None) →
  accepted (evs ++ [ev]) engine.
Proof.
  intros (pre & sg & post & dec & hol & -> & Ha & Hs & Hd & Hh & Hpost) Hev.
  exists pre, sg, (post ++ [ev]), dec, hol. split_and!; [by rewrite <-app_assoc|done..|].
  intros sg' dec' hol' [Hin|Hin%list_elem_of_singleton]%elem_of_app Hs' Hw; [by eapply Hpost|by eapply Hev].
Qed.

(** What the set says was so written. *)
Definition warranted (evs : list event) (m : gmap string string) : Prop :=
  (∀ engine, requested m engine → asked evs engine)
  ∧ ∀ engine, m !! engine = Some enginePurge → accepted evs engine.

Lemma warranted_ask evs m engine : warranted evs m → warranted (evs ++ [Asks engine]) (ask_purge engine m).
Proof.
  intros [Hr Hp]. unfold ask_purge. split.
  - intros e. unfold requested. rewrite lookup_insert_is_Some. intros [E|[_ He]]; [|by apply asked_more, Hr].
    apply (inj (String.append enginePurgeRequestPrefix)) in E as ->. left. apply elem_of_app. right. left.
  - intros e. rewrite lookup_insert_Some. intros [[_ ?]|[_ He]]; [done|]. apply accepted_more; [by apply Hp|done].
Qed.

Lemma warranted_now evs m sg : warranted evs m → is_ok (si_write sg) = false ∨ (∀ e dec hol, m !! e = Some enginePurge → saw sg dec hol → dec !! e = None) →
  warranted (evs ++ [Reconciles sg]) (foldr ask_purge m (si_asked sg)).
Proof.
  intros [Hr Hp] Hcase. split.
  - intros e [v Hv]. apply asked_lookup in Hv as [Hv|(e' & He' & E & _)].
    + apply asked_more, Hr. by exists v.
    + apply (inj (String.append enginePurgeRequestPrefix)) in E as ->. right. exists sg.
      split; [apply elem_of_app; right; left|done].
  - intros e Hv. apply asked_lookup in Hv as [Hv|(e' & _ & _ & ?)]; [|done]. apply accepted_more; [by apply Hp|].
    intros sg' dec hol [= <-] Hs Hw. destruct Hcase as [?|Hd]; [congruence|by eapply Hd].
Qed.

(** A purge in the set a reconciliation computes is accepted with it. *)
Lemma computed_purge evs m sg dec hol engine : warranted evs m → saw sg dec hol →
  (engineSet m dec hol).1 !! engine = Some enginePurge → accepted (evs ++ [Reconciles sg]) engine ∧ dec !! engine = None.
Proof.
  intros [Hr Hp] Hs. rewrite engineSet_lookup. case_decide as Hd; [done|]. apply eq_None_not_Some in Hd.
  destruct (cut_prefix engine enginePurgeRequestPrefix); [done|]. destruct (m !! engine) as [mark|] eqn:Em; [|done].
  case_decide as Hc; intros E; (split; [|done]).
  - destruct Hc as [Hreq Hh]. exists evs, sg, [], dec, hol. split_and!; [done|by apply Hr|done..|].
    by intros ??? ?%not_elem_of_nil.
  - injection E as ->. apply accepted_more; [by apply Hp|]. intros sg' dec' hol' [= <-] [Hd' Hh'] _.
    destruct Hs as [Hs _]. congruence.
Qed.

Lemma computed_request m dec hol components engine : declared components = Ok dec → ¬ requested (engineSet m dec hol).1 engine.
Proof.
  intros Hd [v Hv]. revert Hv. rewrite engineSet_lookup. case_decide as Hk.
  - intros _. eapply declared_dom in Hk; [|done]. by apply (engine_not_request _ engine) in Hk.
  - by rewrite cut_prefix_app.
Qed.

Lemma warranted_data evs m sg dec hol : warranted evs m → saw sg dec hol → warranted (evs ++ [Reconciles sg]) (engineSet m dec hol).1.
Proof.
  intros Hw Hs. split.
  - intros e He. destruct Hs as [Hd _]. by eapply computed_request in He.
  - intros e He. by eapply computed_purge.
Qed.

(** The patch writes what was computed over what people asked for meanwhile. *)
Lemma warranted_patch evs m sg dec hol : warranted evs m → saw sg dec hol →
  warranted (evs ++ [Reconciles sg]) (merge_patch m (engineSet m dec hol).1 (foldr ask_purge m (si_asked sg))).
Proof.
  intros Hw Hs. destruct (warranted_data evs m sg dec hol Hw Hs) as [Hdr Hdp]. split.
  - intros e [v Hv]. rewrite merge_patch_lookup in Hv. case_decide; [|by apply Hdr; exists v].
    apply asked_lookup in Hv as [Hv|(e' & He' & E & _)]; [apply asked_more; apply Hw; by exists v|].
    apply (inj (String.append enginePurgeRequestPrefix)) in E as ->. right. exists sg.
    split; [apply elem_of_app; right; left|done].
  - intros e Hv. rewrite merge_patch_lookup in Hv. case_decide as E; [|by apply Hdp].
    apply asked_lookup in Hv as [Hv|(e' & _ & _ & ?)]; [|done]. apply Hdp. by rewrite <-E.
Qed.

Lemma remove_volumes_from sg marks removed engine : engine ∈ (remove_volumes sg marks removed).1 →
  engine ∈ removed ∨ ((engine, enginePurge) ∈ marks ∧ si_release sg (engineNamespace engine) = Ok false).
Proof.
  revert removed. induction marks as [|[e mark] marks IH]; intros removed; cbn; [by left|].
  assert (∀ removed, engine ∈ (remove_volumes sg marks removed).1 → engine ∈ removed
    ∨ ((engine, enginePurge) ∈ (e, mark) :: marks ∧ si_release sg (engineNamespace engine) = Ok false)) as Hrest.
  { intros l [?|[? ?]]%IH; [by left|right; split; [by right|done]]. }
  case_bool_decide as Hm; [subst|apply Hrest]. cbn.
  destruct (si_release sg (engineNamespace e)) as [[]|err] eqn:Er; [| |by left].
  - intros Hin. apply Hrest. by destruct (remove_volumes sg marks removed).
  - destruct (si_delete sg (engineNamespace e)) as [[]|err]; [|by left].
    intros [[?| ->%list_elem_of_singleton]%elem_of_app|?]%Hrest; [by left|right; split; [left|done]|by right].
Qed.

Definition upheld (evs : list event) (s : state) : Prop := ∀ m, st_set s = Some m → warranted evs m.

Lemma upheld_empty evs s sg dec hol : upheld evs s → saw sg dec hol →
  warranted evs (default ∅ (st_set s)).
Proof.
  intros Hup _. destruct (st_set s) as [m|] eqn:E; [by apply Hup|]. cbn. split.
  - intros e [v Hv]. by rewrite lookup_empty in Hv.
  - intros e Hv. by rewrite lookup_empty in Hv.
Qed.

Lemma warranted_unread evs m ev : warranted evs m → (∀ sg dec hol, ev = Reconciles sg → ¬ saw sg dec hol) → warranted (evs ++ [ev]) m.
Proof.
  intros [Hr Hp] Hev. split; [intros e He; by apply asked_more, Hr|].
  intros e He. apply accepted_more; [by apply Hp|]. intros sg dec hol E Hs. by destruct (Hev sg dec hol E).
Qed.

Lemma write_set_upheld evs sg s dec hol : upheld evs s → saw sg dec hol →
  let s' := (write_set sg s (engineSet (default ∅ (st_set s)) dec hol).1).1 in
  upheld (evs ++ [Reconciles sg]) s' ∧ st_removed s' = st_removed s.
Proof.
  intros Hup Hs. pose proof (upheld_empty evs s sg dec hol Hup Hs) as Hw. unfold write_set. cbv zeta.
  destruct (st_set s) as [m|] eqn:Em; cbn [default] in *.
  2: { split; [|done]. intros m. cbn. destruct (is_ok _); [|done]. intros [= <-]. by apply warranted_data. }
  destruct (bool_decide _) eqn:Ee; (split; [|done]); intros m' [= <-].
  - apply bool_decide_eq_true in Ee. apply warranted_now; [done|]. right.
    intros e dec1 hol1 He Hs1. rewrite Ee in He. assert (dec1 = dec) as -> by (destruct Hs1, Hs; congruence).
    by apply (computed_purge evs m sg dec hol e Hw Hs).
  - destruct (is_ok (si_write sg)) eqn:Ew; [by apply warranted_patch|]. apply warranted_now; [done|by left].
Qed.

(** One reconciliation: the set stays warranted, and the volumes it removes are those
    of purges accepted by then. *)
Lemma Reconcile_upheld evs sg s : (∀ m, si_visit sg m ≡ₚ map_to_list m) → upheld evs s →
  upheld (evs ++ [Reconciles sg]) (Reconcile sg s).1
  ∧ ∀ e, e ∈ st_removed (Reconcile sg s).1 → e ∈ st_removed s
      ∨ (accepted (evs ++ [Reconciles sg]) e ∧ si_release sg (engineNamespace e) = Ok false).
Proof.
  intros Hvis Hup. unfold Reconcile.
  destruct (dec ← declared (si_components sg); hol ← holders dec (si_records sg); Ok (dec, hol)) as [[dec hol]|err] eqn:Hread.
  2: { split; [|by left]. intros m Hm. apply warranted_unread; [by apply Hup|]. intros sg' dec hol [= <-] [Hd Hh].
       rewrite Hd in Hread. cbn in Hread. by rewrite Hh in Hread. }
  apply bind_Ok in Hread as (dec' & Hd & Hread). apply bind_Ok in Hread as (hol' & Hh & [= -> ->]).
  assert (saw sg dec hol) as Hs by done. pose proof (upheld_empty evs s sg dec hol Hup Hs) as Hw.
  destruct (write_set_upheld evs sg s dec hol Hup Hs) as [Hup' Hrem]. cbv zeta.
  destruct (write_set sg s _) as [s' [u|err]]; cbn [fst] in *; [|split; [done|]; intros e; rewrite Hrem; by left].
  pose proof (remove_volumes_from sg (si_visit sg (engineSet (default ∅ (st_set s)) dec hol).1) (st_removed s')) as Hfrom.
  destruct (remove_volumes _ _ _) as [removed r]. split; [done|]. intros e He.
  destruct (Hfrom e He) as [?|[Hin Hrel]]; [left; by rewrite <-Hrem|right]. split; [|done].
  rewrite Hvis in Hin. apply elem_of_map_to_list in Hin. by eapply computed_purge.
Qed.

Lemma run_snoc evs ev : run (evs ++ [ev]) = step (run evs) ev.
Proof. unfold run. by rewrite foldl_app. Qed.

Lemma run_upheld evs : Forall visits evs → upheld evs (run evs).
Proof.
  induction evs as [|ev evs IH] using rev_ind; intros Hv; [done|]. apply Forall_app in Hv as [Hv Hev]. inv Hev.
  rewrite run_snoc. destruct ev as [engine|sg]; cbn.
  - intros m. destruct (st_set (run evs)) as [m'|] eqn:E; [|done]. intros [= <-]. apply warranted_ask. by apply IH.
  - apply Reconcile_upheld; [done|by apply IH].
Qed.

(** ** Properties *)

(** C13: Volumes go by request only.  Along any history of requests and reconciliations,
    in which reads, writes and removals may fail and people may ask at any moment, the
    volumes of an engine are removed only in a reconciliation that finds no Release left
    in its namespace, after a person asked for the purge and a reconciliation found no
    component declaring the engine and no tenant's record naming a store on it; and no
    reconciliation whose write went through has found it declared since. *)
Theorem volumes_go_by_request_only evs engine :
  Forall visits evs → engine ∈ st_removed (run evs) →
  ∃ before sg after, evs = before ++ Reconciles sg :: after
    ∧ accepted (before ++ [Reconciles sg]) engine ∧ si_release sg (engineNamespace engine) = Ok false.
Proof.
  induction evs as [|ev evs IH] using rev_ind; intros Hv; [by intros ?%not_elem_of_nil|].
  apply Forall_app in Hv as [Hv Hev]. inv Hev. rewrite run_snoc. intros Hin.
  assert (engine ∈ st_removed (run evs) ∨ ∃ sg, ev = Reconciles sg ∧ accepted (evs ++ [Reconciles sg]) engine
    ∧ si_release sg (engineNamespace engine) = Ok false) as [Hold|(sg & -> & Ha & Hr)].
  { destruct ev as [e|sg]; [by left|]. apply Reconcile_upheld with (evs := evs) in Hin as [?|?]; [by left|by right; exists sg|done|by apply run_upheld]. }
  - destruct (IH Hv Hold) as (before & sg & after & -> & Ha & Hr). exists before, sg, (after ++ [ev]).
    split; [by rewrite <-app_assoc|done].
  - by exists evs, sg, [].
Qed.

(** What the set becomes, key by key: an engine something declares is wanted; a
    request is taken out; an engine of the set that is asked to go, that nothing
    declares and nothing holds is marked to be purged; every other stays as it was.
    And the requests refused are those something holds, with what holds them. *)
Theorem engineSet_exact current dec hol k :
  (engineSet current dec hol).1 !! k =
    (if decide (is_Some (dec !! k)) then Some engineWanted
     else if has_prefix k enginePurgeRequestPrefix then None
     else mark ← current !! k;
       Some (if decide (is_Some (current !! (enginePurgeRequestPrefix +:+ k)) ∧ default [] (hol !! k) = []) then enginePurge else mark))
  ∧ ∀ l, (engineSet current dec hol).2 !! k = Some l
         ↔ is_Some (current !! (enginePurgeRequestPrefix +:+ k)) ∧ l = default [] (hol !! k) ∧ l ≠ [].
Proof.
  split; [|intros l; apply engineSet_refused]. rewrite engineSet_lookup. case_decide; [done|].
  destruct (has_prefix k enginePurgeRequestPrefix) eqn:Ek.
  - apply has_prefix_spec in Ek as [rest ->]. by rewrite cut_prefix_app.
  - destruct (cut_prefix k enginePurgeRequestPrefix) eqn:Ec.
    + apply cut_prefix_Some in Ec as ->. by rewrite has_prefix_app in Ek.
    + destruct (current !! k); [|done]. cbn. unfold requested. by case_decide.
Qed.

(** *** What a record holds *)

Lemma add_to_lookup who out engine k :
  default [] (add_to who out engine !! k) = default [] (out !! k) ++ (if decide (k = engine) then [who] else []).
Proof.
  unfold add_to. case_decide as E; [subst; by rewrite lookup_insert_eq|]. rewrite lookup_insert_ne by done. by rewrite app_nil_r.
Qed.

Lemma hold_one_lookup tenant out entry k :
  (k ≠ EngineMariaDB ∧ k ≠ EngineCache → default [] (hold_one tenant out entry !! k) = default [] (out !! k))
  ∧ (default [] (out !! k) ≠ [] → default [] (hold_one tenant out entry !! k) ≠ [])
  ∧ (k = EngineMariaDB → pv_database_engine entry.2 = DatabaseEngineMariaDB → default [] (hold_one tenant out entry !! k) ≠ [])
  ∧ (k = EngineCache → pv_cache_user entry.2 ≠ "" → default [] (hold_one tenant out entry !! k) ≠ []).
Proof.
  unfold hold_one. destruct (bool_decide (pv_database_engine entry.2 = _)) eqn:E1, (bool_decide (pv_cache_user entry.2 = "")) eqn:E2; cbn [negb];
    rewrite ?add_to_lookup; repeat case_decide; subst;
    apply bool_decide_eq_true in E1 || apply bool_decide_eq_false in E1;
    apply bool_decide_eq_true in E2 || apply bool_decide_eq_false in E2;
    split_and!; intros; rewrite ?app_nil_r; try tauto; try done; try (by intros [? ?]%app_eq_nil).
Qed.

Lemma hold_all_lookup tenant out entries k :
  (k ≠ EngineMariaDB ∧ k ≠ EngineCache → default [] (foldl (hold_one tenant) out entries !! k) = default [] (out !! k))
  ∧ (default [] (out !! k) ≠ [] → default [] (foldl (hold_one tenant) out entries !! k) ≠ [])
  ∧ (∀ entry, entry ∈ entries →
      (k = EngineMariaDB ∧ pv_database_engine entry.2 = DatabaseEngineMariaDB) ∨ (k = EngineCache ∧ pv_cache_user entry.2 ≠ "") →
      default [] (foldl (hold_one tenant) out entries !! k) ≠ []).
Proof.
  revert out. induction entries as [|x entries IH]; intros out; cbn; [split_and!; try done; by intros ? ?%not_elem_of_nil|].
  destruct (IH (hold_one tenant out x)) as (H1 & H2 & H3). destruct (hold_one_lookup tenant out x k) as (G1 & G2 & G3 & G4).
  split_and!; [intros Hk; by rewrite H1, G1|auto|]. intros entry [->|Hin]%elem_of_cons Hk; [|by eapply H3].
  apply H2. destruct Hk as [[? ?]|[? ?]]; auto.
Qed.

Lemma holders_Ok dec items hol : holders dec (Ok items) = Ok hol → ∀ k,
  (k ≠ EngineMariaDB ∧ k ≠ EngineCache → default [] (hol !! k) = sort_strings (default [] (dec !! k)))
  ∧ (∀ r app p entries, r ∈ items → re_entries r = Ok entries → entries !! app = Some p →
      (k = EngineMariaDB ∧ pv_database_engine p = DatabaseEngineMariaDB) ∨ (k = EngineCache ∧ pv_cache_user p ≠ "") →
      default [] (hol !! k) ≠ []).
Proof.
  unfold holders. cbn [mbind]. rewrite bind_Ok. intros (? & [= <-] & Hh). revert Hh. rewrite bind_Ok. intros (out & Hout & [= <-]) k.
  assert ((k ≠ EngineMariaDB ∧ k ≠ EngineCache → default [] (out !! k) = default [] (dec !! k))
    ∧ (∀ r app p entries, r ∈ items → re_entries r = Ok entries → entries !! app = Some p →
      (k = EngineMariaDB ∧ pv_database_engine p = DatabaseEngineMariaDB) ∨ (k = EngineCache ∧ pv_cache_user p ≠ "") →
      default [] (out !! k) ≠ [])) as [H1 H2].
  { apply (fold_result_invariant holders_of (λ seen out,
      (k ≠ EngineMariaDB ∧ k ≠ EngineCache → default [] (out !! k) = default [] (dec !! k))
      ∧ (∀ r app p entries, r ∈ seen → re_entries r = Ok entries → entries !! app = Some p →
        (k = EngineMariaDB ∧ pv_database_engine p = DatabaseEngineMariaDB) ∨ (k = EngineCache ∧ pv_cache_user p ≠ "") →
        default [] (out !! k) ≠ [])) dec items out Hout); [split; [done|by intros ???? ?%not_elem_of_nil]|].
    intros seen r acc acc' _ [Ha Hb]. unfold holders_of. rewrite bind_Ok. intros (entries & He & [= <-]).
    apply wrap_Ok in He. destruct (hold_all_lookup (re_tenant r) acc (map_to_list entries) k) as (G1 & G2 & G3).
    split; [intros Hk; by rewrite G1, Ha|]. intros r' app p entries' [Hin| ->%list_elem_of_singleton]%elem_of_app Hr Hp Hk.
    - apply G2. by eapply Hb.
    - rewrite Hr in He. injection He as ->. apply (G3 (app, p)); [by apply elem_of_map_to_list|done]. }
  rewrite lookup_fmap. split.
  - intros Hk. rewrite <-H1 by done. by destruct (out !! k).
  - intros r app p entries Hr He Hp Hk. specialize (H2 r app p entries Hr He Hp Hk). destruct (out !! k) as [l|]; [|done].
    cbn in *. intros E. apply H2. apply Permutation_nil. by rewrite <-E, sort_strings_perm.
Qed.

Lemma remove_volumes_all sg marks removed : (∀ ns, si_release sg ns = Ok false) → (∀ ns, si_delete sg ns = Ok tt) →
  ∃ gone, remove_volumes sg marks removed = (removed ++ gone, Ok false) ∧ ∀ e, (e, enginePurge) ∈ marks → e ∈ gone.
Proof.
  intros Hr Hd. revert removed. induction marks as [|[e mark] marks IH]; intros removed; cbn.
  { exists []. rewrite app_nil_r. split; [done|]. by intros ? ?%not_elem_of_nil. }
  case_bool_decide as Hm; cbn.
  - rewrite Hr, Hd. destruct (IH (removed ++ [e])) as (gone & -> & Hg). exists (e :: gone). rewrite <-app_assoc.
    split; [done|]. intros e' [[= <- _]|Hin]%elem_of_cons; [left|right; by apply Hg].
  - destruct (IH removed) as (gone & -> & Hg). exists gone. split; [done|].
    intros e' [[= -> <-]|Hin]%elem_of_cons; [done|by apply Hg].
Qed.

(** A store that was kept does not hold its engine.  An app's authorization store is
    kept when the app is uninstalled, and the arbiter's record finds it; but the tenants'
    records, which are all that is read, name databases and caches only.  So with no
    component left that declares authorization, a request to purge the engine is granted
    whatever is kept in it, and its volumes are removed -- where a recorded database or
    cache has the purge of its engine refused. *)
Theorem kept_authorization_store_holds_nothing sg s m dec items hol :
  declared (si_components sg) = Ok dec → dec !! EngineAuthorization = None →
  si_records sg = Ok items → holders dec (si_records sg) = Ok hol →
  st_set s = Some m → is_Some (m !! EngineAuthorization) → is_Some (m !! (enginePurgeRequestPrefix +:+ EngineAuthorization)) →
  si_write sg = Ok tt → (∀ ns, si_release sg ns = Ok false) → (∀ ns, si_delete sg ns = Ok tt) →
  (∀ data, si_visit sg data ≡ₚ map_to_list data) →
  EngineAuthorization ∈ st_removed (Reconcile sg s).1
  ∧ ∀ r app p entries, r ∈ items → re_entries r = Ok entries → entries !! app = Some p →
      (pv_database_engine p = DatabaseEngineMariaDB → default [] (hol !! EngineMariaDB) ≠ [])
      ∧ (pv_cache_user p ≠ "" → default [] (hol !! EngineCache) ≠ []).
Proof.
  intros Hd Hnone Hrec Hh Hset Hheld Hreq Hwr Hrel Hdel Hvis. rewrite Hrec in Hh. pose proof (holders_Ok dec items hol Hh) as Hhol.
  split.
  - assert ((dec ← declared (si_components sg); hol ← holders dec (si_records sg); Ok (dec, hol)) = Ok (dec, hol)) as E.
    { rewrite Hd, Hrec. change ((hol ← holders dec (Ok items); Ok (dec, hol)) = Ok (dec, hol)). by rewrite Hh. }
    unfold Reconcile. rewrite E. cbv zeta. rewrite Hset. change (default ∅ (Some m)) with m.
    destruct (write_set sg s _) as [s' r] eqn:Ew.
    assert (r = Ok tt) as ->.
    { revert Ew. unfold write_set. rewrite Hset, Hwr. by destruct (bool_decide _); intros [= _ <-]. }
    destruct (remove_volumes_all sg (si_visit sg (engineSet m dec hol).1) (st_removed s') Hrel Hdel) as (gone & -> & Hgone).
    cbn. apply elem_of_app. right. apply Hgone. rewrite Hvis. apply elem_of_map_to_list. rewrite engineSet_lookup.
    rewrite decide_False by (rewrite Hnone; by intros [? ?]). destruct Hheld as [mark ->].
    change (cut_prefix EngineAuthorization enginePurgeRequestPrefix) with (None : option string). cbv iota.
    rewrite decide_True; [done|]. split; [done|]. rewrite (proj1 (Hhol EngineAuthorization)) by done. by rewrite Hnone.
  - intros r app p entries Hr He Hp. split; intros Hk; eapply Hhol; eauto.
Qed.

(** ** A cluster

    The wiki keeps its rights in the authorization engine, and goes. *)
Module EnginesExample.
Definition wiki : component :=
  mkComponent "tenant-acme" "wiki" false (Ok (Some (mkProfile (Some (mkServices (Some "") None true false))))).
Definition kept : record := mkRecord "provisioned-acme" "acme" (Ok {[ "wiki" := mkProvisioned "postgresql" "acme_wiki" "acme_wiki" "" "" "" ]}).
Definition sees (components : list component) : sight :=
  mkSight (Ok components) (Ok [kept]) [] (Ok tt) map_to_list (λ _, Ok false) (λ _, Ok tt).
Definition history : list event :=
  [Reconciles (sees [wiki]); Asks EngineAuthorization; Reconciles (sees [wiki]); Reconciles (sees []); Asks EngineAuthorization; Reconciles (sees [])].
Definition before : state := run (take 5 history).
Definition set_before : gmap string string := default ∅ (st_set before).
End EnginesExample.
Import EnginesExample.

(** The first request is refused and dropped; the second is granted. *)
Lemma volumes_go_by_request_only_witness :
  st_removed before = []
  ∧ ∃ pre sg post, history = pre ++ Reconciles sg :: post ∧ accepted (pre ++ [Reconciles sg]) EngineAuthorization.
Proof.
  split; [vm_compute; reflexivity|].
  destruct (volumes_go_by_request_only history EngineAuthorization) as (pre & sg & post & Hh & Ha & _).
  - unfold history. repeat (constructor; [intros; exact I || (intros ?; reflexivity)|]). constructor.
  - apply (bool_decide_unpack _). vm_compute. exact I.
  - exists pre, sg, post. split; [exact Hh|exact Ha].
Defined.

Lemma kept_authorization_store_holds_nothing_witness :
  EngineAuthorization ∈ st_removed (Reconcile (sees []) before).1.
Proof.
  apply (kept_authorization_store_holds_nothing (sees []) before set_before ∅ [kept] ∅).
  - vm_compute; reflexivity.
  - reflexivity.
  - reflexivity.
  - vm_compute; reflexivity.
  - vm_compute; reflexivity.
  - eexists; vm_compute; reflexivity.
  - eexists; vm_compute; reflexivity.
  - reflexivity.
  - intros ns; reflexivity.
  - intros ns; reflexivity.
  - intros data; reflexivity.
Defined.
