(* ===== verification/AppEntries.v ===== *)
(** * The app list of a tenant's manifest ([internal/director/gitops])

    A tenant's manifest is hand-maintained YAML, and the director edits the entries of
    its [spec.apps] line by line: [addons.go] finds an entry and its lines, [gitops.go]
    installs, moves and uninstalls, [updates.go] sets how an app is updated, and
    [placement.go] writes the apps the platform places itself.  Each of them is an edit of
    the text, which [Repository] commits.

    The functions here are on the text, as the code's are.  [AppLayout] and [AppAddons]
    read a text as a list of entries with their lines, and [AppEdits] shows what each edit
    does to the entries. *)

From S2P Require Import Prelude.
From S2P Require Import GoStrings.
From S2P Require Import GoUtf8.

(** ** Lines *)

Definition NL : ascii := "010".
(** What [\s] matches. *)
Definition s_chars : string := String " " (String "009" (String "010" (String "012" (String "013" "")))).

Definition indentOf (line : string) : nat := String.length line - String.length (trim_left line " ").
Definition blank (line : string) : bool := bool_decide (trim_space line = "").

(** An item of the list: white space, a dash, white space, [profile:], white space, the
    name, white space.  How far the dash is in, and the name. *)
Definition item_of (line : string) : option (nat * string) :=
  let rest := trim_left line s_chars in
  let indent := String.length line - String.length rest in
  dash ← cut_prefix rest "-";
  let key := trim_left dash s_chars in
  if bool_decide (key = dash) then None
  else
    value ← cut_prefix key "profile:";
    let name := trim_left value s_chars in
    if bool_decide (name = value) then None else Some (indent, trim_right name s_chars).

Definition is_item (profile line : string) : bool :=
  match item_of line with Some (_, name) => bool_decide (name = profile) | None => false end.

(** How many of the lines below an entry's first belong to it. *)
Fixpoint owned (keyIndent : nat) (lines : list string) : nat :=
  match lines with
  | [] => 0
  | l :: rest => if negb (blank l) && bool_decide (indentOf l < keyIndent) then 0 else S (owned keyIndent rest)
  end.

Definition appEntryExtent (lines : list string) (profile : string) : option (nat * nat * nat) :=
  '(start, line) ← list_find (λ l, is_item profile l = true) lines;
  '(indent, _) ← item_of line;
  let keyIndent := indent + 2 in
  Some (start, S start + owned keyIndent (drop (S start) lines), keyIndent).

(** An entry's lines below its first. *)
Definition body_of (lines : list string) (start end_ : nat) : list string := take (end_ - S start) (drop (S start) lines).

Definition removeAppEntry (text profile : string) : option string :=
  let lines := split text NL in
  '(start, end_, _) ← appEntryExtent lines profile;
  Some (join (take start lines ++ drop end_ lines) NL).

(** ** The scalar keys of an entry *)

Definition has (keyIndent : nat) (key line : string) : bool :=
  bool_decide (indentOf line = keyIndent) && has_prefix (trim_space line) (key +:+ ":").

Definition quotes : string := String (ascii_of_nat 34) "'".
Definition value_of (key line : string) : string := trim (trim_space (trim_prefix (trim_space line) (key +:+ ":"))) quotes.

Definition value_in (keyIndent : nat) (key : string) (body : list string) : string :=
  match list_find (λ l, has keyIndent key l = true) body with
  | Some (_, l) => value_of key l
  | None => ""
  end.

Definition appEntryHasKey (lines : list string) (profile key : string) : bool :=
  match appEntryExtent lines profile with
  | None => false
  | Some (start, end_, keyIndent) => existsb (has keyIndent key) (body_of lines start end_)
  end.

Definition appEntryValue (lines : list string) (profile key : string) : string :=
  match appEntryExtent lines profile with
  | None => ""
  | Some (start, end_, keyIndent) => value_in keyIndent key (body_of lines start end_)
  end.

Fixpoint spaces (n : nat) : string := match n with 0 => "" | S n => String " " (spaces n) end.

(** Below the last line with the key [after], or first. *)
Fixpoint place_after (p : string → bool) (body : list string) : nat :=
  match body with
  | [] => 0
  | l :: rest => match place_after p rest with 0 => if p l then 1 else 0 | n => S n end
  end.

Definition set_in (keyIndent : nat) (key value after : string) (body : list string) : list string * bool :=
  let want := spaces keyIndent +:+ key +:+ ": " +:+ value in
  match list_find (λ l, has keyIndent key l = true) body with
  | Some (i, l) =>
      if bool_decide (value = "") then (delete i body, true)
      else if bool_decide (l = want) then (body, false)
      else (<[i := want]> body, true)
  | None =>
      if bool_decide (value = "") then (body, false)
      else
        let at_ := place_after (λ l, negb (bool_decide (after = "")) && has keyIndent after l) body in
        (take at_ body ++ want :: drop at_ body, true)
  end.

Definition setAppEntryKey (lines : list string) (profile key value after : string) : list string * bool :=
  match appEntryExtent lines profile with
  | None => (lines, false)
  | Some (start, end_, keyIndent) =>
      let '(body, changed) := set_in keyIndent key value after (body_of lines start end_) in
      (take (S start) lines ++ body ++ drop end_ lines, changed)
  end.

(** ** A new entry *)

Definition appPlacedKey : string := "placed".
Definition appDefaultGrantKey : string := "defaultGrant".
Definition appMovedAtKey : string := "movedAt".
Definition appMovedByKey : string := "movedBy".
Definition appUpdateModeKey : string := "updateMode".

(** [^  apps:\s*\[\s*\]\s*$]. *)
Definition emptyAppsList (line : string) : bool :=
  match cut_prefix line "  apps:" with
  | None => false
  | Some r =>
      match cut_prefix (trim_left r s_chars) "[" with
      | None => false
      | Some r =>
          match cut_prefix (trim_left r s_chars) "]" with
          | None => false
          | Some r => bool_decide (trim_left r s_chars = "")
          end
      end
  end.
Definition apps_head (line : string) : bool := emptyAppsList line || bool_decide (line = "  apps:").

Definition new_body (digest catalogue : string) (defaultGrant : bool) : list string :=
  (if bool_decide (digest = "") then [] else ["    digest: " +:+ digest])
  ++ (if bool_decide (catalogue = "") then [] else ["    catalogue: " +:+ catalogue])
  ++ (if defaultGrant then ["    " +:+ appDefaultGrantKey +:+ ": true"] else []).

Definition insertComponentProfile (text profile digest catalogue : string) (defaultGrant : bool) : string :=
  let entry := ("  - profile: " +:+ profile) :: new_body digest catalogue defaultGrant in
  let lines := split text NL in
  match list_find (λ l, apps_head l = true) lines with
  | Some (i, _) => join (take i lines ++ "  apps:" :: entry ++ drop (S i) lines) NL
  | None =>
      trim_right text (String NL "") +:+ String NL ("  apps:" +:+ String NL (join entry NL +:+ String NL ""))
  end.

(** ** The edits *)

(** The new text, a status, and whether anything changed. *)
Definition edited : Type := result (string * string * bool).

Definition ErrPlacedApp : error := Sentinel "the platform places this app".
Definition ErrPlatformTenant : error := Sentinel "this is the platform tenant".
Definition ErrNotInstalled : error := Sentinel "the app is not installed in this tenant".
Definition ErrNotPinnedThere : error := Sentinel "the app is not pinned to that build".

Definition placedAppError (profile : string) : error :=
  Wrapf "%w: %s comes with the platform and is changed only by it: it is not installed, uninstalled, moved, purged or given add-ons by hand"
    [profile] ErrPlacedApp.
Definition refusePlaced (lines : list string) (profile : string) : result unit :=
  if bool_decide (appEntryValue lines profile appPlacedKey = "true") then Err (placedAppError profile) else Ok tt.

(** What a commit records beyond the change, and the clock's time, to the second. *)
Record Person := mkPerson { pe_name : string; pe_email : string }.
Record Meta := mkMeta {
  me_author : Person; me_subject : string; me_request : string; me_decision : string; me_principal : string;
  me_via : string; me_reason : string; me_moved_at : string }.

(** What git reserves in an identity is left out of it. *)
Definition ident_reserved : list string := ["<"; ">"; String "010" ""; String "013" ""; String "000" ""].
Definition identClean (s : string) : string :=
  let s := trim_space (concat_str (filter (λ r, r ∉ ident_reserved) (runes s))) in
  if bool_decide (s = "") then "unknown" else s.

Definition actor (m : Meta) : string :=
  if negb (bool_decide (me_principal m = "")) then me_principal m
  else if negb (bool_decide (pe_email (me_author m) = "")) then identClean (pe_email (me_author m))
  else me_subject m.
Definition me_mover (m : Meta) : string := actor m.

Definition shortDigest (digest : string) : string := "sha256:" +:+ take_str 12 (trim_prefix digest "sha256:").

Definition installed (lines : list string) (profile : string) : bool :=
  match appEntryExtent lines profile with Some _ => true | None => false end.

(** The key a new one is written under: what says which build this is, wherever that
    ends. *)
Definition below_build (lines : list string) (profile : string) : string :=
  if appEntryHasKey lines profile "catalogue" then "catalogue" else "digest".

Definition placeEntry (text profile digest catalogue : string) (defaultGrant : bool) (meta : Meta) : edited :=
  let lines := split text NL in
  if negb (installed lines profile) then
    let out := insertComponentProfile text profile digest catalogue defaultGrant in
    Ok (join (setAppEntryKey (split out NL) profile appPlacedKey "true" "").1 NL, "placed", true)
  else
    let '(lines, marked) := setAppEntryKey lines profile appPlacedKey "true" "" in
    let '(lines, moved) :=
      if negb (bool_decide (digest = "")) && negb (bool_decide (appEntryValue lines profile "digest" = digest)) then
        let lines := (setAppEntryKey lines profile "digest" digest appPlacedKey).1 in
        let lines := (setAppEntryKey lines profile "catalogue" catalogue "digest").1 in
        let lines := (setAppEntryKey lines profile appMovedAtKey (me_moved_at meta) "catalogue").1 in
        ((setAppEntryKey lines profile appMovedByKey (me_mover meta) appMovedAtKey).1, true)
      else (lines, false) in
    let '(lines, granted) :=
      if defaultGrant && negb (bool_decide (appEntryValue lines profile appDefaultGrantKey = "true"))
      then ((setAppEntryKey lines profile appDefaultGrantKey "true" appPlacedKey).1, true) else (lines, false) in
    if marked || moved || granted then Ok (join lines NL, "placed", true) else Ok (text, "already_placed", false).

(** Names and digests are held to their form before anything is read. *)
Definition ErrInvalidName : error := Sentinel "invalid name".
Definition ValidName (s : string) : bool := dns_label s.
Definition digestPattern (s : string) : bool :=
  match cut_prefix s "sha256:" with
  | Some hex => str_forallb is_hex_lower hex && bool_decide (String.length hex = 64)
  | None => false
  end.
Definition valid_name (what name : string) : result unit :=
  if ValidName name then Ok tt else Err (Wrapf "%w: %s %q" [what; name] ErrInvalidName).
Definition valid_digest (digest : string) : result unit :=
  if digestPattern digest then Ok tt else Err (Wrapf "%w: digest %q" [digest] ErrInvalidName).
(** A build is optional, and a catalog is named only beside one. *)
Definition valid_build (digest catalogue : string) : result unit :=
  _ ← (if bool_decide (digest = "") then Ok tt else valid_digest digest);
  if negb (bool_decide (catalogue = "")) && (bool_decide (digest = "") || negb (ValidName catalogue))
  then Err (Wrapf "%w: catalog %q" [catalogue] ErrInvalidName) else Ok tt.

Definition Place (profile digest catalogue : string) (defaultGrant : bool) (meta : Meta) (text : string) : edited :=
  _ ← valid_name "profile" profile; _ ← valid_build digest catalogue;
  placeEntry text profile digest catalogue defaultGrant meta.

Definition Unplace (profile text : string) : edited :=
  _ ← valid_name "profile" profile;
  if negb (bool_decide (appEntryValue (split text NL) profile appPlacedKey = "true")) then Ok (text, "not_placed", false)
  else match removeAppEntry text profile with
       | None => Ok (text, "not_placed", false)
       | Some out => if bool_decide (out = text) then Ok (text, "not_placed", false) else Ok (out, "removed", true)
       end.

Definition Uninstall (profile text : string) : edited :=
  _ ← valid_name "profile" profile;
  _ ← refusePlaced (split text NL) profile;
  match removeAppEntry text profile with
  | None => Ok (text, "not_installed", false)
  | Some out => if bool_decide (out = text) then Ok (text, "not_installed", false) else Ok (out, "uninstalled", true)
  end.

(** What the YAML of a manifest decodes to: the realm it names, and its apps. *)
Record AddonPin := mkPin { ap_name : string; ap_digest : string; ap_catalogue : string }.
Record AddonGrant := mkGrant { ag_name : string; ag_default : bool }.
Record App := mkApp {
  app_profile : string; app_digest : string; app_addons : list string; app_pins : list AddonPin;
  app_grants : list AddonGrant; app_default_grant : bool; app_catalogue : string; app_update_mode : string;
  app_moved_at : string; app_moved_by : string; app_placed : bool }.
Class Yaml := { yaml_realm : string → result string; yaml_apps : string → result (list App) }.

Definition adoptsAnotherRealm `{Yaml} (text tenant : string) : bool :=
  match yaml_realm text with
  | Err _ => false
  | Ok realm => negb (bool_decide (realm = "")) && negb (bool_decide (realm = tenant))
  end.

(** The pin moved, with the catalog it is from and who moved it; whether it was. *)
Definition move_pin (lines : list string) (profile digest catalogue : string) (meta : Meta) : list string * bool :=
  let '(lines, moved) := setAppEntryKey lines profile "digest" digest "" in
  let '(lines, recorded) :=
    if negb (bool_decide (catalogue = "")) || moved then setAppEntryKey lines profile "catalogue" catalogue "digest"
    else (lines, false) in
  if moved || recorded then
    let lines := (setAppEntryKey lines profile appMovedAtKey (me_moved_at meta) (below_build lines profile)).1 in
    ((setAppEntryKey lines profile appMovedByKey (me_mover meta) appMovedAtKey).1, true)
  else (lines, false).

Definition InstallFrom `{Yaml} (tenant profile digest catalogue : string) (defaultGrant : option bool) (meta : Meta)
    (text : string) : edited :=
  _ ← valid_name "profile" profile; _ ← valid_build digest catalogue;
  if adoptsAnotherRealm text tenant then Err ErrPlatformTenant
  else
    let lines := split text NL in
    let forEveryone := default false defaultGrant in
    _ ← refusePlaced lines profile;
    if negb (installed lines profile)
    then Ok (insertComponentProfile text profile digest catalogue forEveryone, "installed", true)
    else
      let '(lines, moved) := if bool_decide (digest = "") then (lines, false) else move_pin lines profile digest catalogue meta in
      let '(lines, stated) :=
        match defaultGrant with
        | None => (lines, false)
        | Some _ => setAppEntryKey lines profile appDefaultGrantKey (if forEveryone then "true" else "") (below_build lines profile)
        end in
      if moved || stated then Ok (join lines NL, "updated", true) else Ok (text, "already_installed", false).

Definition RetryMove (profile digest : string) (meta : Meta) (text : string) : edited :=
  _ ← valid_name "profile" profile; _ ← valid_digest digest;
  let lines := split text NL in
  if negb (installed lines profile) then Err ErrNotInstalled
  else
    _ ← refusePlaced lines profile;
    let pinned := appEntryValue lines profile "digest" in
    if negb (bool_decide (pinned = digest))
    then Err (Wrapf "%w: %s is pinned to %q, not %s" [profile; pinned; shortDigest digest] ErrNotPinnedThere)
    else
      let '(lines, stamped) := setAppEntryKey lines profile appMovedAtKey (me_moved_at meta) (below_build lines profile) in
      let lines := (setAppEntryKey lines profile appMovedByKey (me_mover meta) appMovedAtKey).1 in
      if negb stamped then Ok (text, "retried", false) else Ok (join lines NL, "retried", true).

Definition ValidUpdateMode (s : string) : bool := bool_decide (s ∈ ["latest"; "manual"; "tenant"]).
Definition SetAppUpdateMode (profile mode text : string) : edited :=
  _ ← valid_name "profile" profile;
  if negb (bool_decide (mode = "")) && negb (ValidUpdateMode mode) then Err (Wrapf "%w: update mode %q" [mode] ErrInvalidName)
  else
    let lines := split text NL in
    if negb (installed lines profile) then Err ErrNotInstalled
    else
      _ ← refusePlaced lines profile;
      let '(lines, changed) := setAppEntryKey lines profile appUpdateModeKey mode (below_build lines profile) in
      if negb changed then Ok (text, "unchanged", false) else Ok (join lines NL, "updated", true).

(** ** Add-ons *)

(** One of the three keys at an entry's own indent, with what stands on its line. *)
Definition own_key (keyIndent : nat) (line : string) : option string :=
  rest ← cut_prefix line (spaces keyIndent);
  head (omap (λ key, (λ v, trim_left v s_chars) <$> cut_prefix rest (key +:+ ":")) ["addons"; "addonPins"; "addonGrants"]).

Fixpoint kept_lines (keyIndent : nat) (skipping : bool) (lines : list string) : list string :=
  match lines with
  | [] => []
  | line :: rest =>
      if skipping && (blank line || negb (bool_decide (indentOf line ≤ keyIndent)) || has_prefix (trim_left line " ") "-")
      then kept_lines keyIndent true rest
      else match own_key keyIndent line with
           | Some value => kept_lines keyIndent (bool_decide (value = "") || has_prefix value "#") rest
           | None => line :: kept_lines keyIndent false rest
           end
  end.

Definition addons_block (keyIndent : nat) (addons : list string) (pins : list AddonPin) (grants : list AddonGrant) : list string :=
  let pad := spaces keyIndent in
  (match addons with [] => [] | _ => (pad +:+ "addons:") :: ((λ a, pad +:+ "- " +:+ a) <$> addons) end)
  ++ (match pins with
      | [] => []
      | _ => (pad +:+ "addonPins:")
             :: (pins ≫= λ pin, (pad +:+ "- name: " +:+ ap_name pin) :: (pad +:+ "  digest: " +:+ ap_digest pin)
                 :: if bool_decide (ap_catalogue pin = "") then [] else [pad +:+ "  catalogue: " +:+ ap_catalogue pin])
      end)
  ++ (match grants with
      | [] => []
      | _ => (pad +:+ "addonGrants:") :: (grants ≫= λ g, [pad +:+ "- name: " +:+ ag_name g; pad +:+ "  defaultGrant: true"])
      end).

Definition rewriteAddons (text profile : string) (addons : list string) (pins : list AddonPin) (grants : list AddonGrant)
    : option string :=
  let lines := split text NL in
  '(start, end_, keyIndent) ← appEntryExtent lines profile;
  Some (join (take (S start) lines ++ kept_lines keyIndent false (body_of lines start end_)
              ++ addons_block keyIndent addons pins grants ++ drop end_ lines) NL).

Definition validAddon (s : string) : bool :=
  str_forallb (λ c, is_alnum c || char_in c "_.-") s
  && match s with "" => false | String c _ => is_alnum c end && bool_decide (String.length s ≤ 63).

Definition valid_addon (addon : string) : result unit :=
  if validAddon addon then Ok tt else Err (Wrapf "%w: addon %q" [addon] ErrInvalidName).
Definition state_pin (addons : list string) (stated : gmap string AddonPin) (pin : AddonPin) : result (gmap string AddonPin) :=
  if negb (ValidName (ap_name pin)) || negb (bool_decide (ap_name pin ∈ addons))
  then Err (Wrapf "%w: pinned addon %q" [ap_name pin] ErrInvalidName)
  else
    _ ← valid_digest (ap_digest pin); _ ← valid_name "catalog" (ap_catalogue pin);
    match stated !! ap_name pin with
    | Some _ => Err (Wrapf "%w: addon %q is pinned twice" [ap_name pin] ErrInvalidName)
    | None => Ok (<[ap_name pin := pin]> stated)
    end.
Definition valid_grant (addons : list string) (name : string) : result unit :=
  if bool_decide (name ∈ addons) then Ok tt else Err (Wrapf "%w: granted addon %q is not in the list" [name] ErrInvalidName).

(** What the entry has now: its add-ons with their pins, and those for everyone. *)
Definition addons_step (profile : string) (acc : gmap string AddonPin * gset string) (app : App)
    : gmap string AddonPin * gset string :=
  if negb (bool_decide (app_profile app = profile)) then acc
  else
    let out := foldl (λ out ad, <[ad := mkPin ad "" ""]> out) acc.1 (app_addons app) in
    let out := foldl (λ out pin, match out !! ap_name pin with Some _ => <[ap_name pin := pin]> out | None => out end) out (app_pins app) in
    (out, foldl (λ everyone g, match out !! ag_name g with
                               | Some _ => if ag_default g then {[ag_name g]} ∪ everyone else everyone
                               | None => everyone
                               end) acc.2 (app_grants app)).
Definition addonsOf `{Yaml} (text profile : string) : result (gmap string AddonPin * gset string) :=
  apps ← wrap "the tenant's manifest does not parse: %w" [] (yaml_apps text);
  Ok (foldl (addons_step profile) (∅, ∅) apps).

(** The pins and grants of the list as it will be: what the call states, else what the
    entry had. *)
Definition final_pins (stated had : gmap string AddonPin) (addons : list string) : list AddonPin :=
  omap (λ ad, match stated !! ad with
              | Some pin => Some pin
              | None => match had !! ad with
                        | Some pin => if bool_decide (ap_digest pin = "") then None else Some pin
                        | None => None
                        end
              end) addons.
Definition final_grants (grants : gmap string bool) (hadGrants : gset string) (addons : list string) : list AddonGrant :=
  omap (λ ad, if default (bool_decide (ad ∈ hadGrants)) (grants !! ad) then Some (mkGrant ad true) else None) addons.

Definition SetAddonsPinned `{Yaml} (tenant profile : string) (addons : list string) (pins : list AddonPin)
    (grants : gmap string bool) (text : string) : edited :=
  _ ← valid_name "profile" profile;
  _ ← fold_result (λ _ ad, valid_addon ad) tt addons;
  stated ← fold_result (state_pin addons) ∅ pins;
  _ ← fold_result (λ _ name, valid_grant addons name) tt (map_to_list grants).*1;
  if adoptsAnotherRealm text tenant then Err ErrPlatformTenant
  else
    _ ← refusePlaced (split text NL) profile;
    '(had, hadGrants) ← addonsOf text profile;
    match rewriteAddons text profile addons (final_pins stated had addons) (final_grants grants hadGrants addons) with
    | None => Ok (text, "not_installed", false)
    | Some updated => if bool_decide (updated = text) then Ok (text, "no_change", false) else Ok (updated, "updated", true)
    end.

(** ** The writes *)

(** The writes of an app's entry: by hand, and by the platform. *)
Inductive write :=
  | ByInstall (digest catalogue : string) (defaultGrant : option bool)
  | ByUninstall
  | ByRetry (digest : string)
  | ByUpdateMode (mode : string)
  | ByAddons (addons : list string) (pins : list AddonPin) (grants : gmap string bool)
  | ByPlace (digest catalogue : string) (defaultGrant : bool)
  | ByUnplace.

Definition by_hand (w : write) : bool := match w with ByPlace _ _ _ | ByUnplace => false | _ => true end.

Definition edit `{Yaml} (tenant profile : string) (meta : Meta) (w : write) : string → edited :=
  match w with
  | ByInstall digest catalogue defaultGrant => InstallFrom tenant profile digest catalogue defaultGrant meta
  | ByUninstall => Uninstall profile
  | ByRetry digest => RetryMove profile digest meta
  | ByUpdateMode mode => SetAppUpdateMode profile mode
  | ByAddons addons pins grants => SetAddonsPinned tenant profile addons pins grants
  | ByPlace digest catalogue defaultGrant => Place profile digest catalogue defaultGrant meta
  | ByUnplace => Unplace profile
  end.
