(* ===== verification/AppLayout.v ===== *)
(** * What a tenant's manifest says of its apps

    The edits of [AppEntries] are on text.  Here a text is read as a [manifest]: the
    lines before the list, the entries with their lines, and the lines after.  An edit of
    the text of a manifest is the text of an edited manifest, in which the one entry has
    the keys the edit is for and every other line is as it was. *)

From S2P Require Import Prelude.
From S2P Require Import GoStrings.
From S2P Require Import AppEntries.

(** ** Trimming *)

Lemma trim_left_stop c s cs : char_in c cs = false → trim_left (String c s) cs = String c s.
Proof. intros Hc. cbn. by rewrite Hc. Qed.

Lemma trim_left_spaces n s cs : char_in " " cs = true → trim_left (spaces n +:+ s) cs = trim_left s cs.
Proof. intros Hc. induction n as [|n IH]; [done|]. cbn [spaces]. rewrite app_cons. cbn [trim_left]. by rewrite Hc. Qed.

Lemma spaces_length n : String.length (spaces n) = n.
Proof. induction n; cbn; congruence. Qed.

Lemma spaces_clean n : contains_byte (spaces n) NL = false.
Proof. induction n as [|n IH]; [done|]. cbn. exact IH. Qed.

Lemma spaces_app n m : spaces n +:+ spaces m = spaces (n + m).
Proof. induction n as [|n IH]; [done|]. cbn. by rewrite <-IH. Qed.

(** A character that is printed, and of one byte. *)
Definition graph (c : ascii) : bool := bool_decide (33 ≤ byte_of c < 127).

Lemma graph_not_space c : graph c = true → space1 c = false.
Proof.
  unfold graph, space1. rewrite bool_decide_eq_true, bool_decide_eq_false. intros Hc Hin.
  repeat (apply elem_of_cons in Hin as [Hin|Hin]; [lia|]). by apply not_elem_of_nil in Hin.
Qed.

Lemma graph_not_s c : graph c = true → char_in c s_chars = false.
Proof.
  intros Hc. destruct (char_in c s_chars) eqn:E; [|done]. exfalso.
  unfold char_in, s_chars in E. cbn in E. rewrite !orb_true_iff in E.
  destruct E as [E|[E|[E|[E|[E|E]]]]]; try done; apply Ascii.eqb_eq in E as ->; by vm_compute in Hc.
Qed.

Lemma graph_not_blank c : graph c = true → c ≠ " "%char.
Proof. intros Hc ->. by vm_compute in Hc. Qed.

Lemma trim_spaces_graph s2 s3 c s : (∀ b, s2 c b = false) → (∀ a b, s3 c a b = false) → graph c = true →
  trim_spaces_by s2 s3 (String c s) = String c s.
Proof.
  intros H2 H3 Hc. cbn [trim_spaces_by]. rewrite (graph_not_space _ Hc).
  destruct s as [|b s]; [done|]. rewrite H2. destruct s as [|a s]; [done|]. by rewrite H3.
Qed.

Lemma space2_graph_l c b : graph c = true → space2 c b = false.
Proof. unfold graph, space2. rewrite bool_decide_eq_true. intros Hc. rewrite bool_decide_eq_false_2 by lia. done. Qed.
Lemma space2_graph_r c b : graph c = true → space2 b c = false.
Proof.
  unfold graph, space2. rewrite bool_decide_eq_true. intros Hc. rewrite (bool_decide_eq_false_2 (byte_of c ∈ _)); [apply andb_false_r|].
  intros Hin. repeat (apply elem_of_cons in Hin as [Hin|Hin]; [lia|]). by apply not_elem_of_nil in Hin.
Qed.
Lemma space3_graph_l c a b : graph c = true → space3 c a b = false.
Proof.
  unfold graph, space3. rewrite bool_decide_eq_true. intros Hc. cbv zeta.
  rewrite !(bool_decide_eq_false_2 (byte_of c = _)) by lia. done.
Qed.
Lemma space3_graph_r c a b : graph c = true → space3 a b c = false.
Proof.
  unfold graph, space3. rewrite bool_decide_eq_true. intros Hc. cbv zeta.
  rewrite !(bool_decide_eq_false_2 (byte_of c = _)) by lia. rewrite (bool_decide_eq_false_2 (128 ≤ byte_of c ≤ 138)) by lia.
  rewrite (bool_decide_eq_false_2 (byte_of c ∈ _)); [by rewrite !andb_false_r|].
  intros Hin. repeat (apply elem_of_cons in Hin as [Hin|Hin]; [lia|]). by apply not_elem_of_nil in Hin.
Qed.

(** Text that begins and ends with such a character. *)
Definition tidy (s : string) : bool :=
  match s with "" => false | String c _ => graph c end && match String.rev s with "" => false | String c _ => graph c end.

Lemma rev_app_spec s t u : String.rev_app s (t +:+ u) = String.rev_app s t +:+ u.
Proof. revert t. induction s as [|c s IH]; intros t; [done|]. cbn. by rewrite <-IH. Qed.

Lemma rev_cons c s : String.rev (String c s) = String.rev s +:+ String c "".
Proof. unfold String.rev. cbn. apply (rev_app_spec s ""). Qed.

Lemma rev_app s t : String.rev (s +:+ t) = String.rev t +:+ String.rev s.
Proof.
  induction s as [|c s IH]; [by rewrite app_empty_r|]. by rewrite app_cons, !rev_cons, IH, app_assoc_str.
Qed.

Lemma rev_involutive s : String.rev (String.rev s) = s.
Proof. induction s as [|c s IH]; [done|]. by rewrite rev_cons, rev_app, IH. Qed.

Lemma trim_space_tidy s : tidy s = true → trim_space s = s.
Proof.
  unfold tidy. rewrite andb_true_iff. intros [Hl Hr]. unfold trim_space. destruct s as [|c s]; [done|]. cbv zeta.
  rewrite trim_spaces_graph; [|by intros; apply space2_graph_l|by intros; apply space3_graph_l|done].
  destruct (String.rev (String c s)) as [|e r] eqn:E; [done|].
  rewrite trim_spaces_graph; [|by intros; apply space2_graph_r|by intros; apply space3_graph_r|done].
  by rewrite <-E, rev_involutive.
Qed.

Lemma trim_spaces_spaces s2 s3 n s : trim_spaces_by s2 s3 (spaces n +:+ s) = trim_spaces_by s2 s3 s.
Proof. induction n as [|n IH]; [done|]. cbn [spaces]. rewrite app_cons. cbn [trim_spaces_by]. exact IH. Qed.

Lemma trim_space_spaces n s : trim_space (spaces n +:+ s) = trim_space s.
Proof. unfold trim_space. by rewrite trim_spaces_spaces. Qed.

Lemma tidy_app a b : tidy a = true → tidy b = true → ∀ s, tidy (a +:+ s +:+ b) = true.
Proof.
  unfold tidy. rewrite !andb_true_iff. intros [Ha _] [_ Hb] s. destruct a as [|c a]; [done|]. apply andb_true_iff. split; [done|].
  rewrite !rev_app, app_assoc_str. destruct (String.rev b); [done|]. done.
Qed.

Lemma tidy_cons c s : graph c = true → tidy s = true → tidy (String c s) = true.
Proof.
  intros Hc Hs. apply (tidy_app (String c "") s) with (s := ""); [|done]. unfold tidy. cbn. by rewrite Hc.
Qed.

(** A line of text behind its indent. *)
Lemma indentOf_spaces n c s : graph c = true → indentOf (spaces n +:+ String c s) = n.
Proof.
  intros Hc. unfold indentOf. rewrite trim_left_spaces by done. rewrite trim_left_stop.
  - rewrite app_length_str, spaces_length. lia.
  - cbn. rewrite orb_false_r. apply Ascii.eqb_neq. intros ->. by vm_compute in Hc.
Qed.

Lemma blank_spaces n c s : graph c = true → blank (spaces n +:+ String c s) = false.
Proof.
  intros Hc. unfold blank. apply bool_decide_eq_false. rewrite trim_space_spaces. unfold trim_space. cbv zeta.
  rewrite trim_spaces_graph; [|by intros; apply space2_graph_l|by intros; apply space3_graph_l|done].
  rewrite rev_cons. intros E. apply (f_equal String.rev) in E. rewrite rev_involutive in E.
  assert (∀ t, trim_spaces_by (λ b a, space2 a b) (λ c b a, space3 a b c) (t +:+ String c "") ≠ "") as Hne.
  { intros t. induction t as [t IH] using (induction_ltof1 _ String.length). unfold ltof in IH.
    destruct t as [|a t]; [rewrite app_empty_l, trim_spaces_graph; [done|by intros; apply space2_graph_r|by intros; apply space3_graph_r|done]|].
    rewrite app_cons. cbn [trim_spaces_by]. destruct (space1 a); [apply IH; cbn; lia|].
    destruct t as [|b t]; [rewrite app_empty_l, (space2_graph_l c)|]; [done..|].
    rewrite app_cons. destruct (space2 b a); [apply IH; cbn; lia|].
    destruct t as [|e t]; [rewrite app_empty_l, (space3_graph_l c)|]; [done..|].
    rewrite app_cons. destruct (space3 e b a); [apply IH; cbn; lia|done]. }
  by apply Hne in E.
Qed.

(** ** Manifests *)

Record entry := mkEntry { en_profile : string; en_body : list string }.
(** What is before the list, the blank lines at its head, its entries, and what is
    after it. *)
Record manifest := mkManifest { mf_head : list string; mf_gap : list string; mf_apps : list entry; mf_tail : list string }.

Definition item_line (d : nat) (profile : string) : string := spaces d +:+ "- profile: " +:+ profile.
Definition entry_lines (d : nat) (e : entry) : list string := item_line d (en_profile e) :: en_body e.
(** The lines of a manifest whose list has its dashes [d] in. *)
Definition lines_of (d : nat) (m : manifest) : list string :=
  mf_head m ++ "  apps:" :: mf_gap m ++ (mf_apps m ≫= entry_lines d) ++ mf_tail m.
Definition text_of (d : nat) (m : manifest) : string := join (lines_of d m) NL.

(** A line that begins no entry. *)
Definition plain_line (l : string) : Prop := item_of l = None ∧ contains_byte l NL = false.
Definition owned_line (k : nat) (l : string) : bool := blank l || bool_decide (k ≤ indentOf l).
(** The keys the edits write. *)
Definition managed : list string := ["digest"; "catalogue"; appDefaultGrantKey; appUpdateModeKey; appMovedAtKey; appMovedByKey; appPlacedKey].

(** An entry of the list: its own lines, none of the keys twice. *)
Record entry_wf (d : nat) (e : entry) : Prop := {
  ew_profile : ValidName (en_profile e) = true;
  ew_plain : Forall plain_line (en_body e);
  ew_owned : Forall (λ l, owned_line (d + 2) l = true) (en_body e);
  ew_once : ∀ k, k ∈ managed → length (filter (λ l, has (d + 2) k l = true) (en_body e)) ≤ 1 }.
Record wf (d : nat) (m : manifest) : Prop := {
  wf_head : Forall (λ l, plain_line l ∧ apps_head l = false) (mf_head m);
  wf_gap : Forall (λ l, blank l = true ∧ plain_line l) (mf_gap m);
  wf_apps : Forall (entry_wf d) (mf_apps m);
  wf_once : NoDup (en_profile <$> mf_apps m);
  wf_tail : Forall plain_line (mf_tail m);
  wf_end : match mf_tail m with [] => True | l :: _ => owned_line (d + 2) l = false end }.

Definition with_apps (m : manifest) (apps : list entry) : manifest := mkManifest (mf_head m) (mf_gap m) apps (mf_tail m).
Fixpoint body_among (profile : string) (l : list entry) : option (list string) :=
  match l with
  | [] => None
  | e :: l => if decide (en_profile e = profile) then Some (en_body e) else body_among profile l
  end.
Definition body_in (m : manifest) (profile : string) : option (list string) := body_among profile (mf_apps m).

(** ** Finding an entry *)

Lemma name_first p : ValidName p = true → ∃ c s, p = String c s ∧ graph c = true.
Proof.
  unfold ValidName, dns_label. rewrite !andb_true_iff. intros [[_ Hc] _]. destruct p as [|c s]; [done|]. exists c, s. split; [done|].
  revert Hc. unfold is_lower_alnum, graph. rewrite orb_true_iff, !bool_decide_eq_true. lia.
Qed.

Lemma lower_alnum_graph c : is_lower_alnum c = true → graph c = true.
Proof. unfold is_lower_alnum, graph. rewrite orb_true_iff, !bool_decide_eq_true. lia. Qed.

Lemma name_tidy p : ValidName p = true → tidy p = true.
Proof.
  unfold ValidName, dns_label, tidy. rewrite !andb_true_iff. intros [[_ Hc] Hr]. split.
  - destruct p; [done|]. by apply lower_alnum_graph.
  - destruct (String.rev p); [done|]. by apply lower_alnum_graph.
Qed.

Lemma trim_right_app s t cs : trim_right t cs = t → t ≠ "" → trim_right (s +:+ t) cs = s +:+ t.
Proof.
  intros Ht Hne. induction s as [|c s IH]; [done|]. rewrite app_cons. cbn [trim_right]. rewrite IH.
  destruct (s +:+ t) as [|e r] eqn:E; [|done]. destruct s; [|done]. by rewrite app_empty_l in E.
Qed.

Lemma tidy_last s : tidy s = true → ∃ a c, s = a +:+ String c "" ∧ graph c = true.
Proof.
  unfold tidy. rewrite andb_true_iff. intros [_ Hr]. destruct (String.rev s) as [|c r] eqn:E; [done|].
  exists (String.rev r), c. split; [|done]. by rewrite <-(rev_involutive s), E, rev_cons.
Qed.

Lemma trim_right_tidy s : tidy s = true → trim_right s s_chars = s.
Proof.
  intros (a & c & -> & Hc)%tidy_last. apply trim_right_app; [|done]. cbn [trim_right]. by rewrite (graph_not_s _ Hc).
Qed.

Lemma item_of_line d p : ValidName p = true → item_of (item_line d p) = Some (d, p).
Proof.
  intros Hp. pose proof (name_tidy p Hp) as Ht. destruct (name_first p Hp) as (c & s & -> & Hc).
  unfold item_of, item_line. rewrite trim_left_spaces by done.
  change (trim_left ("- profile: " +:+ String c s) s_chars) with ("- profile: " +:+ String c s).
  rewrite app_length_str, spaces_length. cbv zeta.
  change (cut_prefix ("- profile: " +:+ String c s) "-") with (Some (" profile: " +:+ String c s)).
  cbn [mbind option_bind]. change (trim_left (" profile: " +:+ String c s) s_chars) with ("profile: " +:+ String c s).
  rewrite bool_decide_eq_false_2 by done.
  change (cut_prefix ("profile: " +:+ String c s) "profile:") with (Some (" " +:+ String c s)). cbn [mbind option_bind].
  assert (trim_left (" " +:+ String c s) s_chars = String c s) as ->.
  { change (" " +:+ String c s) with (spaces 1 +:+ String c s). rewrite trim_left_spaces by done. apply trim_left_stop, graph_not_s, Hc. }
  rewrite bool_decide_eq_false_2.
  - rewrite trim_right_tidy by done. do 2 f_equal. lia.
  - intros E. apply (f_equal String.length) in E. change (S (String.length s) = S (S (String.length s))) in E. lia.
Qed.

Lemma is_item_line d p q : ValidName p = true → is_item q (item_line d p) = bool_decide (p = q).
Proof. intros Hp. unfold is_item. by rewrite item_of_line. Qed.

Lemma plain_not_item p l : plain_line l → is_item p l = false.
Proof. intros [Hl _]. unfold is_item. by rewrite Hl. Qed.

Lemma item_line_not_owned d k p : d < k → owned_line k (item_line d p) = false.
Proof.
  intros Hk. unfold owned_line, item_line. change ("- profile: " +:+ p) with (String "-" (" profile: " +:+ p)).
  rewrite blank_spaces, indentOf_spaces by done. cbn. rewrite bool_decide_eq_false. lia.
Qed.

Lemma owned_app k b c : Forall (λ l, owned_line k l = true) b →
  match c with [] => True | l :: _ => owned_line k l = false end → owned k (b ++ c) = length b.
Proof.
  unfold owned_line. intros Hb Hc. induction Hb as [|l b Hl Hb IH]; cbn.
  - destruct c as [|l c]; [done|]. cbn. apply orb_false_iff in Hc as [-> Hi%bool_decide_eq_false].
    by rewrite bool_decide_eq_true_2 by lia.
  - rewrite IH. apply orb_true_iff in Hl as [->|Hi%bool_decide_eq_true]; [done|].
    rewrite (bool_decide_eq_false_2 (indentOf l < k)) by lia. by rewrite andb_false_r.
Qed.

Lemma find_first {A} (P : A → Prop) `{∀ x, Decision (P x)} (a : list A) x b :
  Forall (λ y, ¬ P y) a → P x → list_find P (a ++ x :: b) = Some (length a, x).
Proof.
  intros Ha Hx. apply list_find_Some. split_and!; [by rewrite list_lookup_middle|done|].
  intros j y Hj Hlt. rewrite lookup_app_l in Hj by done. eapply Forall_lookup_1 in Ha; [|done]. done.
Qed.

Lemma drop_middle {A} (a : list A) x l : drop (S (length a)) (a ++ x :: l) = l.
Proof. rewrite cons_middle, app_assoc. apply drop_app_length'. rewrite length_app. cbn. lia. Qed.

Lemma take_middle {A} (a : list A) x l : take (S (length a)) (a ++ x :: l) = a ++ [x].
Proof. rewrite cons_middle, app_assoc. apply take_app_length'. rewrite length_app. cbn. lia. Qed.

(** The extent of an entry that stands between lines of others. *)
Lemma extent_at d p a b c : ValidName p = true → Forall (λ l, is_item p l = false) a →
  Forall (λ l, owned_line (d + 2) l = true) b → match c with [] => True | l :: _ => owned_line (d + 2) l = false end →
  appEntryExtent (a ++ item_line d p :: b ++ c) p = Some (length a, S (length a) + length b, d + 2).
Proof.
  intros Hp Ha Hb Hc. unfold appEntryExtent. rewrite find_first; cbn [mbind option_bind].
  - rewrite (item_of_line d p Hp). cbn [mbind option_bind]. rewrite drop_middle, (owned_app (d + 2) b c Hb Hc). done.
  - eapply Forall_impl; [done|]. intros l Hl. cbn in Hl |- *. congruence.
  - rewrite is_item_line by done. by apply bool_decide_eq_true.
Qed.

Lemma entry_lines_not_item d p l : Forall (entry_wf d) l → p ∉ en_profile <$> l →
  Forall (λ s, is_item p s = false) (l ≫= entry_lines d).
Proof.
  intros Hl. induction Hl as [|e l He Hl IH]; [constructor|]. cbn. intros Hp. apply not_elem_of_cons in Hp as [Hne Hp].
  constructor; [rewrite is_item_line by apply He; by apply bool_decide_eq_false|]. apply Forall_app. split; [|by apply IH].
  eapply Forall_impl; [apply He|]. intros s. apply plain_not_item.
Qed.

Lemma head_not_item d m p : wf d m → Forall (λ s, is_item p s = false) (mf_head m ++ "  apps:" :: mf_gap m).
Proof.
  intros Hwf. apply Forall_app. split; [|constructor; [done|]].
  - eapply Forall_impl; [apply Hwf|]. intros s [Hs _]. by apply plain_not_item.
  - eapply Forall_impl; [apply Hwf|]. intros s [_ Hs]. by apply plain_not_item.
Qed.

Lemma extent_absent d m p : wf d m → p ∉ en_profile <$> mf_apps m → appEntryExtent (lines_of d m) p = None.
Proof.
  intros Hwf Hp. unfold appEntryExtent.
  destruct (list_find _ (lines_of d m)) as [[i l]|] eqn:E; [|done]. exfalso. apply list_find_Some in E as (Hi & Hl & _).
  assert (Forall (λ s, is_item p s = false) (lines_of d m)) as Hall.
  { pose proof (head_not_item d m p Hwf) as Hh. apply Forall_app in Hh as [Hh Hg]. apply Forall_cons in Hg as [Ha Hg].
    unfold lines_of. rewrite Forall_app, Forall_cons, !Forall_app. split_and!; [done..| |].
    - by apply entry_lines_not_item; [apply Hwf|].
    - eapply Forall_impl; [apply Hwf|]. intros s. apply plain_not_item. }
  eapply Forall_lookup_1 in Hall; [|exact Hi]. cbn in Hall. congruence.
Qed.

Section AtEntry.
Context (d : nat) (m : manifest) (pre post : list entry) (e : entry) (Hwf : wf d m) (Happs : mf_apps m = pre ++ e :: post).

Definition lines_before : list string := (mf_head m ++ "  apps:" :: mf_gap m) ++ (pre ≫= entry_lines d).
Definition lines_after : list string := (post ≫= entry_lines d) ++ mf_tail m.

Lemma lines_split body :
  lines_of d (with_apps m (pre ++ mkEntry (en_profile e) body :: post))
  = lines_before ++ item_line d (en_profile e) :: body ++ lines_after.
Proof. unfold lines_of, lines_before, lines_after. cbn. rewrite bind_app. cbn. by repeat (rewrite <-app_assoc; cbn). Qed.

Lemma lines_without : lines_of d (with_apps m (pre ++ post)) = lines_before ++ lines_after.
Proof. unfold lines_of, lines_before, lines_after. cbn. rewrite bind_app. cbn. by repeat (rewrite <-app_assoc; cbn). Qed.

Lemma lines_here : lines_of d m = lines_before ++ item_line d (en_profile e) :: en_body e ++ lines_after.
Proof. rewrite <-lines_split. unfold with_apps, lines_of. cbn. rewrite Happs. by destruct e. Qed.

Lemma entry_here : entry_wf d e.
Proof. pose proof (wf_apps d m Hwf) as Ha. rewrite Happs in Ha. by apply Forall_app in Ha as [_ Ha%Forall_cons_1%proj1]. Qed.

Lemma after_not_owned : match lines_after with [] => True | l :: _ => owned_line (d + 2) l = false end.
Proof.
  unfold lines_after. destruct post as [|e' post']; [apply Hwf|]. cbn. apply item_line_not_owned. lia.
Qed.

Lemma before_not_item : Forall (λ l, is_item (en_profile e) l = false) lines_before.
Proof.
  apply Forall_app. split; [by eapply head_not_item|]. apply entry_lines_not_item.
  - pose proof (wf_apps d m Hwf) as Ha. rewrite Happs in Ha. by apply Forall_app in Ha as [Ha _].
  - pose proof (wf_once d m Hwf) as Hn. rewrite Happs, fmap_app in Hn. cbn in Hn. apply NoDup_app in Hn as (_ & Hd & _).
    intros Hp. destruct (Hd _ Hp). left.
Qed.

Lemma extent_here body : Forall (λ l, owned_line (d + 2) l = true) body →
  appEntryExtent (lines_before ++ item_line d (en_profile e) :: body ++ lines_after) (en_profile e)
  = Some (length lines_before, S (length lines_before) + length body, d + 2).
Proof. intros Hb. apply extent_at; [apply entry_here|apply before_not_item|done|apply after_not_owned]. Qed.

Lemma body_here body : body_of (lines_before ++ item_line d (en_profile e) :: body ++ lines_after)
    (length lines_before) (S (length lines_before) + length body) = body.
Proof.
  unfold body_of. rewrite drop_middle. replace (_ - _) with (length body) by lia. by rewrite take_app_length.
Qed.

Lemma after_here body : drop (S (length lines_before) + length body)
    (lines_before ++ item_line d (en_profile e) :: body ++ lines_after) = lines_after.
Proof.
  rewrite <-drop_drop, drop_middle. by rewrite drop_app_length.
Qed.
End AtEntry.

(** ** Reading and changing an entry *)

Definition with_body (m : manifest) (profile : string) (body : list string) : manifest :=
  with_apps m ((λ e, if decide (en_profile e = profile) then mkEntry profile body else e) <$> mf_apps m).
Definition without (m : manifest) (profile : string) : manifest :=
  with_apps m (filter (λ e, en_profile e ≠ profile) (mf_apps m)).

Record body_ok (k : nat) (body : list string) : Prop := {
  bo_plain : Forall plain_line body;
  bo_owned : Forall (λ l, owned_line k l = true) body;
  bo_once : ∀ key, key ∈ managed → length (filter (λ l, has k key l = true) body) ≤ 1 }.

Lemma body_in_Some m p body : NoDup (en_profile <$> mf_apps m) → body_in m p = Some body →
  ∃ pre post, mf_apps m = pre ++ mkEntry p body :: post ∧ (p ∉ en_profile <$> pre) ∧ (p ∉ en_profile <$> post).
Proof.
  unfold body_in. induction (mf_apps m) as [|[q b] l IH]; cbn; [done|]. intros [Hq Hn]%NoDup_cons.
  destruct (decide (q = p)) as [->|Hne]; [intros [= ->]; exists [], l; split_and!; [done|apply not_elem_of_nil|done]|].
  intros (pre & post & -> & Hpre & Hpost)%IH; [|done]. exists (mkEntry q b :: pre), post. split_and!; [done| |done].
  cbn. by apply not_elem_of_cons.
Qed.

Lemma body_in_None m p : body_in m p = None ↔ p ∉ en_profile <$> mf_apps m.
Proof.
  unfold body_in. induction (mf_apps m) as [|[q b] l IH]; cbn; [by split; [intros _; apply not_elem_of_nil|]|].
  rewrite not_elem_of_cons, <-IH. destruct (decide (q = p)); naive_solver.
Qed.

Lemma keep_others (f : entry → entry) p (l : list entry) : p ∉ en_profile <$> l → (∀ e, en_profile e ≠ p → f e = e) → f <$> l = l.
Proof.
  intros Hp Hf. induction l as [|e l IH]; [done|]. cbn in *. apply not_elem_of_cons in Hp as [Hne Hp]. by rewrite Hf, IH by done.
Qed.

Lemma with_body_split m pre p body post b : mf_apps m = pre ++ mkEntry p body :: post → p ∉ en_profile <$> pre → p ∉ en_profile <$> post →
  with_body m p b = with_apps m (pre ++ mkEntry p b :: post).
Proof.
  intros Hl Hpre Hpost. unfold with_body. rewrite Hl, fmap_app. cbn. rewrite decide_True by done.
  rewrite !(keep_others _ p) by (done || intros; by rewrite decide_False). done.
Qed.

Lemma filter_others p (l : list entry) : p ∉ en_profile <$> l → filter (λ e, en_profile e ≠ p) l = l.
Proof.
  intros Hp. induction l as [|e l IH]; [done|]. cbn in Hp. apply not_elem_of_cons in Hp as [Hne Hp].
  rewrite filter_cons_True by congruence. by rewrite IH.
Qed.

Lemma without_split m pre p body post : mf_apps m = pre ++ mkEntry p body :: post → p ∉ en_profile <$> pre → p ∉ en_profile <$> post →
  without m p = with_apps m (pre ++ post).
Proof.
  intros Hl Hpre Hpost. unfold without. rewrite Hl, filter_app, filter_cons_False by (intros Hn; by apply Hn).
  by rewrite !filter_others by done.
Qed.

Lemma profiles_with_body m p b : en_profile <$> mf_apps (with_body m p b) = en_profile <$> mf_apps m.
Proof. cbn. rewrite <-list_fmap_compose. apply list_fmap_ext. intros i e _. cbn. by destruct (decide _). Qed.

Lemma wf_with_body d m p b : wf d m → body_ok (d + 2) b → wf d (with_body m p b).
Proof.
  intros Hwf Hb. constructor; [apply Hwf|apply Hwf| |rewrite profiles_with_body; apply Hwf|apply Hwf|apply Hwf].
  cbn. apply Forall_fmap. eapply Forall_impl; [apply Hwf|]. intros e He. cbn. destruct (decide _) as [<-|]; [|done].
  constructor; [apply He|apply Hb..].
Qed.

Lemma wf_without d m p : wf d m → wf d (without m p).
Proof.
  intros Hwf. constructor; [apply Hwf|apply Hwf| | |apply Hwf|apply Hwf].
  - apply Forall_forall. intros e [_ He]%list_elem_of_filter. eapply Forall_forall; [apply Hwf|done].
  - eapply sublist_NoDup; [apply Hwf|]. apply fmap_sublist, sublist_filter.
Qed.

Lemma body_in_with_body m p b q : body_in (with_body m p b) q =
  if decide (q = p) then match body_in m p with Some _ => Some b | None => None end else body_in m q.
Proof.
  unfold body_in, with_body. cbn. induction (mf_apps m) as [|e l IH]; cbn; [by destruct (decide _)|].
  destruct (decide (en_profile e = p)) as [Hep|Hep]; cbn.
  - destruct (decide (p = q)) as [->|Hpq]; [by rewrite decide_True|]. rewrite IH, !(decide_False (P := q = p)) by congruence.
    by rewrite decide_False by congruence.
  - rewrite IH. destruct (decide (en_profile e = q)) as [<-|]; [by rewrite decide_False|done].
Qed.

Lemma body_in_without m p q : body_in (without m p) q = if decide (q = p) then None else body_in m q.
Proof.
  unfold body_in, without, with_apps. cbn [mf_apps]. induction (mf_apps m) as [|e l IH]; [by cbn; destruct (decide _)|].
  destruct (decide (en_profile e = p)) as [Hep|Hep].
  - rewrite filter_cons_False by (intros Hn; by apply Hn). rewrite IH. cbn [body_among]. destruct (decide (q = p)); [done|].
    by rewrite decide_False by congruence.
  - rewrite filter_cons_True by done. cbn [body_among]. rewrite IH.
    destruct (decide (en_profile e = q)) as [<-|]; [by rewrite decide_False|done].
Qed.

(** The functions on the lines of a manifest. *)
Section OnLines.
Context (d : nat) (m : manifest) (p : string) (Hwf : wf d m).

Lemma extent_in body : body_in m p = Some body → ∃ a c,
  lines_of d m = a ++ item_line d p :: body ++ c
  ∧ (∀ b, lines_of d (with_body m p b) = a ++ item_line d p :: b ++ c)
  ∧ lines_of d (without m p) = a ++ c
  ∧ appEntryExtent (lines_of d m) p = Some (length a, S (length a) + length body, d + 2)
  ∧ body_of (lines_of d m) (length a) (S (length a) + length body) = body
  ∧ drop (S (length a) + length body) (lines_of d m) = c
  ∧ body_ok (d + 2) body ∧ ValidName p = true.
Proof.
  intros Hb. destruct (body_in_Some m p body (wf_once d m Hwf) Hb) as (pre & post & Hl & Hpre & Hpost).
  pose proof (entry_here d m pre post _ Hwf Hl) as He.
  pose proof (lines_here d m pre post _ Hl) as Hh. cbn in Hh.
  exists (lines_before d m pre), (lines_after d m post). split_and!.
  - done.
  - intros b. rewrite (with_body_split _ _ _ _ _ b Hl Hpre Hpost). apply (lines_split d m pre post (mkEntry p body)).
  - rewrite (without_split _ _ _ _ _ Hl Hpre Hpost). apply lines_without.
  - rewrite Hh. apply (extent_here d m pre post (mkEntry p body) Hwf Hl), He.
  - rewrite Hh. apply (body_here d m pre post (mkEntry p body)).
  - rewrite Hh. apply (after_here d m pre post (mkEntry p body)).
  - constructor; apply He.
  - apply He.
Qed.

Lemma installed_in : installed (lines_of d m) p = match body_in m p with Some _ => true | None => false end.
Proof.
  unfold installed. destruct (body_in m p) as [body|] eqn:E.
  - destruct (extent_in body E) as (a & c & _ & _ & _ & -> & _). done.
  - by rewrite extent_absent by (done || by apply body_in_None).
Qed.

Lemma value_of_key k : appEntryValue (lines_of d m) p k = match body_in m p with Some body => value_in (d + 2) k body | None => "" end.
Proof.
  unfold appEntryValue. destruct (body_in m p) as [body|] eqn:E.
  - destruct (extent_in body E) as (a & c & _ & _ & _ & -> & -> & _). done.
  - by rewrite extent_absent by (done || by apply body_in_None).
Qed.

Lemma has_key_in k body : body_in m p = Some body → appEntryHasKey (lines_of d m) p k = existsb (has (d + 2) k) body.
Proof.
  intros E. unfold appEntryHasKey. destruct (extent_in body E) as (a & c & _ & _ & _ & -> & -> & _). done.
Qed.

Lemma set_key_in k v a0 body : body_in m p = Some body →
  setAppEntryKey (lines_of d m) p k v a0
  = (lines_of d (with_body m p (set_in (d + 2) k v a0 body).1), (set_in (d + 2) k v a0 body).2).
Proof.
  intros E. unfold setAppEntryKey. destruct (extent_in body E) as (a & c & Hl & Hb & _ & -> & -> & -> & _).
  destruct (set_in _ _ _ _ _) as [b ch]. cbn [fst snd]. rewrite Hb. f_equal. rewrite Hl, take_middle, <-app_assoc. done.
Qed.

Lemma NL_free_apps l : Forall (entry_wf d) l → Forall (λ s, contains_byte s NL = false) (l ≫= entry_lines d).
Proof.
  intros Hl. induction Hl as [|e l He Hl IH]; [constructor|]. cbn. constructor; [|apply Forall_app; split; [|done]].
  - unfold item_line. rewrite !contains_byte_app. rewrite (dns_label_contains (en_profile e)) by (apply He || done). rewrite orb_false_r.
    by rewrite spaces_clean.
  - eapply Forall_impl; [apply He|]. by intros s [_ Hs].
Qed.

Lemma split_text : split (text_of d m) NL = lines_of d m.
Proof.
  apply split_join; [unfold lines_of; by destruct (mf_head m)|]. unfold lines_of. rewrite Forall_app, Forall_cons, !Forall_app. split_and!.
  - eapply Forall_impl; [apply Hwf|]. by intros s [[_ Hs] _].
  - done.
  - eapply Forall_impl; [apply Hwf|]. by intros s [_ [_ Hs]].
  - apply NL_free_apps, Hwf.
  - eapply Forall_impl; [apply Hwf|]. by intros s [_ Hs].
Qed.

Lemma remove_in : removeAppEntry (text_of d m) p = match body_in m p with Some _ => Some (text_of d (without m p)) | None => None end.
Proof.
  unfold removeAppEntry. rewrite split_text. destruct (body_in m p) as [body|] eqn:E.
  - destruct (extent_in body E) as (a & c & Hl & _ & Hw & -> & _ & Hd & _). cbn [mbind option_bind]. rewrite Hd. unfold text_of.
    rewrite Hw, Hl, take_app_length. done.
  - by rewrite extent_absent by (done || by apply body_in_None).
Qed.
End OnLines.

(** ** The keys of an entry *)

Definition key_line (n : nat) (k v : string) : string := spaces n +:+ k +:+ ": " +:+ v.
(** A value that is written as it is read. *)
Definition clean (v : string) : bool := tidy v && negb (contains_byte v NL) && negb (contains_any v quotes).
(** The lines that are about none of the keys. *)
Definition others (n : nat) (body : list string) : list string :=
  filter (λ l, forallb (λ k, negb (has n k l)) managed = true) body.

Lemma managed_key k : k ∈ managed → tidy k = true ∧ contains_byte k NL = false ∧ contains_byte k ":" = false
  ∧ ∃ c s, k = String c s ∧ graph c = true ∧ char_in c "-" = false.
Proof.
  intros Hk. unfold managed in Hk. repeat (apply elem_of_cons in Hk as [->|Hk]; [split_and!; [done..|]; eexists _, _; by split_and!|]).
  by apply not_elem_of_nil in Hk.
Qed.

Lemma trim_quotes v : contains_any v quotes = false → trim v quotes = v.
Proof.
  intros Hv. unfold trim. assert (trim_left v quotes = v) as ->.
  { destruct v as [|c v]; [done|]. rewrite contains_any_cons in Hv. apply orb_false_iff in Hv as [Hc _]. by apply trim_left_stop. }
  induction v as [|c v IH]; [done|]. rewrite contains_any_cons in Hv. apply orb_false_iff in Hv as [Hc Hv]. cbn [trim_right].
  rewrite (IH Hv), Hc. by destruct v.
Qed.

Section Keys.
Context (n : nat).

Lemma key_line_trim k v : tidy k = true → tidy v = true → trim_space (key_line n k v) = k +:+ ": " +:+ v.
Proof. intros Hk Hv. unfold key_line. rewrite trim_space_spaces. by apply trim_space_tidy, tidy_app. Qed.

Lemma key_line_indent k v : k ∈ managed → indentOf (key_line n k v) = n.
Proof. intros (_ & _ & _ & c & s & -> & Hc & _)%managed_key. unfold key_line. rewrite app_cons. by apply indentOf_spaces. Qed.

Lemma has_key_line k v : k ∈ managed → tidy v = true → has n k (key_line n k v) = true.
Proof.
  intros Hk Hv. unfold has. rewrite key_line_indent, key_line_trim by (done || by apply managed_key).
  rewrite bool_decide_eq_true_2 by done. apply has_prefix_spec. exists (" " +:+ v). by rewrite app_assoc_str.
Qed.

(** A line is about one key. *)
Lemma has_one k k' l : k ∈ managed → k' ∈ managed → has n k l = true → has n k' l = true → k = k'.
Proof.
  intros (_ & _ & Hk & _)%managed_key (_ & _ & Hk' & _)%managed_key. unfold has. rewrite !andb_true_iff, !has_prefix_spec.
  intros [_ [r Hr]] [_ [r' Hr']]. rewrite Hr, !app_assoc_str in Hr'. by apply app_sep_inj in Hr' as [? _].
Qed.

Lemma value_of_key_line k v : k ∈ managed → clean v = true → value_of k (key_line n k v) = v.
Proof.
  intros Hk. unfold clean. rewrite !andb_true_iff, !negb_true_iff. intros [[Hv _] Hq]. unfold value_of.
  rewrite key_line_trim by (done || by apply managed_key). unfold trim_prefix.
  replace (k +:+ ": " +:+ v) with ((k +:+ ":") +:+ (" " +:+ v)) by (by rewrite app_assoc_str). rewrite cut_prefix_app. unfold default, from_option, id.
  change (" " +:+ v) with (spaces 1 +:+ v). rewrite trim_space_spaces, trim_space_tidy by done. by apply trim_quotes.
Qed.

Lemma key_line_ok k v : k ∈ managed → clean v = true → plain_line (key_line n k v) ∧ owned_line n (key_line n k v) = true.
Proof.
  intros Hk. unfold clean. rewrite !andb_true_iff, !negb_true_iff. intros [[Hv Hnl] _]. split; [split|].
  - destruct (managed_key k Hk) as (_ & _ & _ & c & s & -> & Hc & Hd). unfold item_of, key_line. rewrite trim_left_spaces by done.
    rewrite app_cons, trim_left_stop by (by apply graph_not_s). cbn [cut_prefix]. cbn in Hd. rewrite orb_false_r in Hd.
    rewrite Ascii.eqb_sym in Hd. by rewrite Hd.
  - destruct (managed_key k Hk) as (_ & Hkn & _). unfold key_line. by rewrite !contains_byte_app, spaces_clean, Hkn, Hnl.
  - unfold owned_line. rewrite key_line_indent by done. rewrite (bool_decide_eq_true_2 (n ≤ n)) by done. apply orb_true_r.
Qed.

Lemma value_in_filter k body : value_in n k body =
  match filter (λ l, has n k l = true) body with l :: _ => value_of k l | [] => "" end.
Proof.
  unfold value_in. induction body as [|l body IH]; [done|]. cbn [list_find]. destruct (decide (has n k l = true)) as [Hl|Hl].
  - by rewrite filter_cons_True.
  - rewrite filter_cons_False by done. rewrite <-IH. by destruct (list_find _ body) as [[? ?]|].
Qed.

Lemma place_after_le p body : place_after p body ≤ length body.
Proof. induction body as [|l body IH]; cbn; [done|]. destruct (place_after p body); [destruct (p l)|]; lia. Qed.

(** What [set_in] does: one line about the key goes, or comes, or both. *)
Lemma set_in_shape k v after body : (length (filter (λ l, has n k l = true) body) ≤ 1) →
  ∃ a o c, body = a ++ o ++ c ∧ (set_in n k v after body).1 = a ++ (if decide (v = "") then [] else [key_line n k v]) ++ c
    ∧ Forall (λ l, has n k l = true) o ∧ filter (λ l, has n k l = true) (a ++ c) = [].
Proof.
  intros Hone. unfold set_in. cbv zeta. fold (key_line n k v). destruct (list_find _ body) as [[i l]|] eqn:E.
  - apply list_find_Some in E as (Hi & Hl & _). destruct (list_elem_of_split_length _ _ _ Hi) as (a & c & -> & ->).
    exists a, [l], c. split; [done|]. split_and!.
    + destruct (decide (v = "")) as [->|Hv]; [by rewrite bool_decide_eq_true_2, delete_middle|]. rewrite bool_decide_eq_false_2 by done.
      case_bool_decide as Hw; [by rewrite <-Hw|]. cbn. by rewrite insert_app_r_alt, Nat.sub_diag by done.
    + by constructor.
    + rewrite filter_app in Hone |- *. rewrite filter_cons_True in Hone by done. rewrite length_app in Hone. cbn in Hone.
      apply nil_length_inv. rewrite length_app. lia.
  - apply list_find_None in E. assert (filter (λ l, has n k l = true) body = []) as Hf.
    { clear -E. induction E as [|l body Hl _ IH]; [done|]. by rewrite filter_cons_False. }
    set (at_ := place_after _ body). exists (take at_ body), [], (drop at_ body). cbn. rewrite take_drop. split_and!; [done| |done|done].
    destruct (decide (v = "")) as [->|Hv]; [rewrite bool_decide_eq_true_2 by done; cbn; by rewrite take_drop|].
    by rewrite bool_decide_eq_false_2.
Qed.
End Keys.

Section SetIn.
Context (n : nat) (k v after : string) (body : list string).
Context (Hok : body_ok n body) (Hk : k ∈ managed) (Hv : v = "" ∨ clean v = true).

Lemma clean_tidy s : clean s = true → tidy s = true.
Proof. unfold clean. rewrite !andb_true_iff. by intros [[? _] _]. Qed.

Lemma filter_none {A} (P : A → Prop) `{∀ x, Decision (P x)} l : Forall (λ x, ¬ P x) l → filter P l = [].
Proof. induction 1 as [|x l Hx _ IH]; [done|]. by rewrite filter_cons_False. Qed.

Lemma not_other l : has n k l = true → ¬ (forallb (λ k, negb (has n k l)) managed = true).
Proof. rewrite forallb_forall. intros Hl Ha. pose proof (Ha k (proj1 (list_elem_of_In _ _) Hk)) as Hf. by rewrite Hl in Hf. Qed.

Lemma set_in_filter : filter (λ l, has n k l = true) (set_in n k v after body).1 = if decide (v = "") then [] else [key_line n k v].
Proof.
  destruct (set_in_shape n k v after body) as (a & o & c & _ & -> & _ & Hac); [by apply Hok|].
  rewrite filter_app in Hac. apply app_eq_nil in Hac as [Ha Hc]. rewrite !filter_app, Ha, Hc. cbn. rewrite app_nil_r.
  destruct (decide (v = "")); [done|]. destruct Hv as [?|Hcl]; [done|].
  rewrite filter_cons_True; [done|]. by apply has_key_line, clean_tidy.
Qed.

Lemma set_in_filter_other k' : k' ∈ managed → k' ≠ k →
  filter (λ l, has n k' l = true) (set_in n k v after body).1 = filter (λ l, has n k' l = true) body.
Proof.
  intros Hk' Hne. destruct (set_in_shape n k v after body) as (a & o & c & Hb & -> & Ho & _); [by apply Hok|]. rewrite Hb, !filter_app.
  f_equal. f_equal. rewrite !filter_none; [done| |].
  - eapply Forall_impl; [done|]. intros l Hl Hl'. by apply Hne, (has_one n k' k l).
  - destruct (decide (v = "")); [constructor|]. destruct Hv as [?|Hcl]; [done|]. constructor; [|constructor].
    intros Hl'. apply Hne, (has_one n k' k (key_line n k v)); [done..|]. by apply has_key_line, clean_tidy.
Qed.

Lemma set_in_value k' : k' ∈ managed → value_in n k' (set_in n k v after body).1 = if decide (k' = k) then v else value_in n k' body.
Proof.
  intros Hk'. rewrite !value_in_filter. destruct (decide (k' = k)) as [->|Hne]; [|by rewrite set_in_filter_other].
  rewrite set_in_filter. destruct (decide (v = "")) as [->|]; [done|]. destruct Hv as [?|Hcl]; [done|]. by apply value_of_key_line.
Qed.

Lemma set_in_others : others n (set_in n k v after body).1 = others n body.
Proof.
  unfold others. destruct (set_in_shape n k v after body) as (a & o & c & Hb & -> & Ho & _); [by apply Hok|]. rewrite Hb, !filter_app.
  f_equal. f_equal. rewrite !filter_none; [done| |].
  - eapply Forall_impl; [done|]. intros l. apply not_other.
  - destruct (decide (v = "")); [constructor|]. destruct Hv as [?|Hcl]; [done|]. constructor; [|constructor].
    by apply not_other, has_key_line, clean_tidy.
Qed.

Lemma set_in_ok : body_ok n (set_in n k v after body).1.
Proof.
  constructor.
  - destruct (set_in_shape n k v after body) as (a & o & c & Hb & -> & _ & _); [by apply Hok|].
    pose proof (bo_plain _ _ Hok) as Hp. rewrite Hb, !Forall_app in Hp. rewrite !Forall_app. destruct Hp as (? & _ & ?). split_and!; [done| |done].
    destruct (decide (v = "")); [constructor|]. destruct Hv as [?|Hcl]; [done|]. constructor; [|constructor]. by apply key_line_ok.
  - destruct (set_in_shape n k v after body) as (a & o & c & Hb & -> & _ & _); [by apply Hok|].
    pose proof (bo_owned _ _ Hok) as Hp. rewrite Hb, !Forall_app in Hp. rewrite !Forall_app. destruct Hp as (? & _ & ?). split_and!; [done| |done].
    destruct (decide (v = "")); [constructor|]. destruct Hv as [?|Hcl]; [done|]. constructor; [|constructor]. by apply key_line_ok.
  - intros k' Hk'. destruct (decide (k' = k)) as [->|Hne]; [rewrite set_in_filter; destruct (decide _); cbn; lia|].
    rewrite set_in_filter_other by done. by apply Hok.
Qed.

Lemma set_in_same : (set_in n k v after body).2 = false → (set_in n k v after body).1 = body.
Proof.
  unfold set_in. destruct (list_find _ body) as [[i l]|]; repeat case_bool_decide; done.
Qed.

Lemma set_in_changed : value_in n k body ≠ v → (set_in n k v after body).2 = true.
Proof.
  unfold set_in, value_in. destruct (list_find _ body) as [[i l]|] eqn:E; repeat case_bool_decide; try done.
  - intros Hne. destruct Hne. destruct Hv as [?|Hcl]; [done|]. subst l. by apply value_of_key_line.
Qed.
End SetIn.

(** ** A chain of keys set in one entry

    [chain m body m'] : the manifest [m'] is [m] with the entry's lines [body]. *)
Definition chain (d : nat) (m : manifest) (p : string) (body : list string) (lines : list string) : Prop :=
  lines = lines_of d (with_body m p body) ∧ body_ok (d + 2) body ∧ is_Some (body_in m p).

Section Chain.
Context (d : nat) (m : manifest) (p : string) (Hwf : wf d m).

Lemma with_body_same body : body_in m p = Some body → with_body m p body = m.
Proof.
  intros (pre & post & Hl & Hpre & Hpost)%(body_in_Some m p body (wf_once d m Hwf)).
  rewrite (with_body_split _ _ _ _ _ _ Hl Hpre Hpost), <-Hl. by destruct m.
Qed.

Lemma with_body_twice b b' : with_body (with_body m p b) p b' = with_body m p b'.
Proof.
  unfold with_body, with_apps. cbn. f_equal. rewrite <-list_fmap_compose. apply list_fmap_ext. intros i e _. cbn.
  destruct (decide (en_profile e = p)) as [He|He]; [by rewrite decide_True|by rewrite decide_False].
Qed.

Lemma chain_start body : body_in m p = Some body → chain d m p body (lines_of d m).
Proof.
  intros Hb. split_and!; [by rewrite with_body_same|by destruct (extent_in d m p Hwf body Hb) as (? & ? & _ & _ & _ & _ & _ & _ & ? & _)|by eexists].
Qed.

Lemma chain_body body lines : chain d m p body lines → wf d (with_body m p body) ∧ body_in (with_body m p body) p = Some body.
Proof.
  intros (-> & Hok & [b Hb]). split; [by apply wf_with_body|]. rewrite body_in_with_body, decide_True by done. by rewrite Hb.
Qed.

Lemma chain_set k v after body lines : chain d m p body lines → k ∈ managed → v = "" ∨ clean v = true →
  chain d m p (set_in (d + 2) k v after body).1 (setAppEntryKey lines p k v after).1
  ∧ (setAppEntryKey lines p k v after).2 = (set_in (d + 2) k v after body).2.
Proof.
  intros Hc Hk Hv. destruct (chain_body _ _ Hc) as [Hw Hb]. destruct Hc as (-> & Hok & Hs).
  rewrite (set_key_in d _ p Hw k v after body Hb). cbn [fst snd]. split; [|done].
  split_and!; [by rewrite with_body_twice|by apply set_in_ok|done].
Qed.

Lemma chain_value k body lines : chain d m p body lines → appEntryValue lines p k = value_in (d + 2) k body.
Proof. intros Hc. destruct (chain_body _ _ Hc) as [Hw Hb]. destruct Hc as (-> & _ & _). by rewrite value_of_key, Hb. Qed.
End Chain.

(** ** A new entry *)

Definition inserted (m : manifest) (p : string) (body : list string) : manifest :=
  mkManifest (mf_head m) [] (mkEntry p (body ++ mf_gap m) :: mf_apps m) (mf_tail m).

Lemma insert_lines d m p digest catalogue defaultGrant : wf d m →
  insertComponentProfile (text_of d m) p digest catalogue defaultGrant
  = join ((mf_head m ++ "  apps:" :: item_line 2 p :: new_body digest catalogue defaultGrant)
          ++ mf_gap m ++ (mf_apps m ≫= entry_lines d) ++ mf_tail m) NL.
Proof.
  intros Hwf. unfold insertComponentProfile. rewrite (split_text d m Hwf). cbv zeta. unfold lines_of.
  rewrite find_first; [|eapply Forall_impl; [apply Hwf|]; cbn; intros l [_ ->]; done|done].
  rewrite take_app_length, drop_middle. f_equal. rewrite <-app_assoc. done.
Qed.

Lemma insert_text m p digest catalogue defaultGrant : wf 2 m →
  insertComponentProfile (text_of 2 m) p digest catalogue defaultGrant
  = text_of 2 (inserted m p (new_body digest catalogue defaultGrant)).
Proof.
  intros Hwf. rewrite (insert_lines 2) by done. unfold text_of, lines_of, inserted. cbn. f_equal.
  repeat (rewrite <-app_assoc; cbn). done.
Qed.

Definition one_key (k v : string) : list string := if decide (v = "") then [] else [key_line 4 k v].
Definition grant_value (b : bool) : string := if b then "true" else "".

Lemma new_body_keys digest catalogue defaultGrant : new_body digest catalogue defaultGrant
  = one_key "digest" digest ++ one_key "catalogue" catalogue ++ one_key appDefaultGrantKey (grant_value defaultGrant).
Proof.
  unfold new_body, one_key, key_line. destruct (decide (digest = "")), (decide (catalogue = "")), defaultGrant;
    repeat ((rewrite bool_decide_eq_true_2 by done) || (rewrite bool_decide_eq_false_2 by done)); done.
Qed.

Lemma one_key_filter k k' v : k ∈ managed → k' ∈ managed → v = "" ∨ clean v = true →
  filter (λ l, has 4 k' l = true) (one_key k v) = if decide (k' = k) then one_key k v else [].
Proof.
  intros Hk Hk' Hv. unfold one_key. destruct (decide (v = "")); [by destruct (decide _)|]. destruct Hv as [?|Hc]; [done|].
  pose proof (has_key_line 4 k v Hk (clean_tidy _ Hc)) as Hh. destruct (decide (k' = k)) as [->|Hne]; [by rewrite filter_cons_True|].
  rewrite filter_cons_False; [done|]. intros Hh'. by apply Hne, (has_one 4 k' k (key_line 4 k v)).
Qed.

Lemma blank_no_key k l : k ∈ managed → blank l = true → has 4 k l ≠ true.
Proof.
  intros (_ & _ & _ & c & s & -> & _)%managed_key Hb. unfold blank in Hb. apply bool_decide_eq_true in Hb. unfold has. rewrite Hb.
  intros [_ Hp]%andb_true_iff. done.
Qed.

Lemma one_key_ok k v : k ∈ managed → v = "" ∨ clean v = true → Forall (λ l, plain_line l ∧ owned_line 4 l = true) (one_key k v).
Proof.
  intros Hk Hv. unfold one_key. destruct (decide (v = "")); [constructor|]. destruct Hv as [?|Hc]; [done|].
  constructor; [|constructor]. by apply key_line_ok.
Qed.

Section NewEntry.
Context (m : manifest) (digest catalogue : string) (defaultGrant : bool) (Hwf : wf 2 m).
Context (Hd : digest = "" ∨ clean digest = true) (Hc : catalogue = "" ∨ clean catalogue = true).
Definition fresh_body : list string := new_body digest catalogue defaultGrant ++ mf_gap m.

Lemma grant_clean : grant_value defaultGrant = "" ∨ clean (grant_value defaultGrant) = true.
Proof. destruct defaultGrant; [by right|by left]. Qed.

Lemma fresh_filter k : k ∈ managed → filter (λ l, has 4 k l = true) fresh_body =
  (if decide (k = "digest") then one_key "digest" digest else [])
  ++ (if decide (k = "catalogue") then one_key "catalogue" catalogue else [])
  ++ (if decide (k = appDefaultGrantKey) then one_key appDefaultGrantKey (grant_value defaultGrant) else []).
Proof.
  intros Hk. unfold fresh_body. rewrite new_body_keys, !filter_app, !one_key_filter by (done || apply grant_clean || (by apply (bool_decide_unpack _))).
  rewrite (filter_none _ (mf_gap m)), app_nil_r, <-?app_assoc; [done|]. eapply Forall_impl; [apply Hwf|]. intros l [Hb _]. by apply blank_no_key.
Qed.

Lemma one_key_length k v : length (one_key k v) ≤ 1.
Proof. unfold one_key. destruct (decide _); cbn; lia. Qed.

Lemma fresh_ok : body_ok 4 fresh_body.
Proof.
  assert (Forall (λ l, plain_line l ∧ owned_line 4 l = true) fresh_body) as Hf.
  { unfold fresh_body. rewrite new_body_keys, !Forall_app. split_and!; [apply one_key_ok; [by apply (bool_decide_unpack _)|done || apply grant_clean]..|].
    eapply Forall_impl; [apply Hwf|]. intros l [Hb Hp]. split; [done|]. unfold owned_line. by rewrite Hb. }
  constructor; [by eapply Forall_impl; [apply Hf|]; intros l []..|]. intros k Hk. rewrite fresh_filter by done.
  pose proof (one_key_length "digest" digest). pose proof (one_key_length "catalogue" catalogue).
  pose proof (one_key_length appDefaultGrantKey (grant_value defaultGrant)).
  destruct (decide (k = "digest")) as [->|]; [cbn; rewrite app_nil_r; done|]. destruct (decide (k = "catalogue")) as [->|]; [cbn; rewrite app_nil_r; done|].
  destruct (decide _); [done|cbn; lia].
Qed.

Lemma one_key_value k v : k ∈ managed → v = "" ∨ clean v = true → match one_key k v with l :: _ => value_of k l | [] => "" end = v.
Proof.
  intros Hk Hv. unfold one_key. destruct (decide (v = "")) as [->|]; [done|]. destruct Hv as [?|Hcl]; [done|]. by apply value_of_key_line.
Qed.

Lemma fresh_value k : k ∈ managed → value_in 4 k fresh_body =
  if decide (k = "digest") then digest else if decide (k = "catalogue") then catalogue
  else if decide (k = appDefaultGrantKey) then grant_value defaultGrant else "".
Proof.
  intros Hk. rewrite value_in_filter, fresh_filter by done.
  destruct (decide (k = "digest")) as [->|]; [cbn; rewrite app_nil_r; by apply one_key_value|].
  destruct (decide (k = "catalogue")) as [->|]; [cbn; rewrite app_nil_r; by apply one_key_value|].
  destruct (decide _) as [->|]; [|done]. apply one_key_value; [done|apply grant_clean].
Qed.

Lemma wf_inserted p : ValidName p = true → body_in m p = None → wf 2 (inserted m p (new_body digest catalogue defaultGrant)).
Proof.
  intros Hp Hn. pose proof fresh_ok as Hf. constructor; cbn.
  - apply Hwf.
  - constructor.
  - constructor; [|apply Hwf]. constructor; [done|apply Hf..].
  - constructor; [by apply body_in_None|apply Hwf].
  - apply Hwf.
  - apply Hwf.
Qed.
End NewEntry.
