(* ===== verification/AppAddons.v ===== *)
(** * The add-ons of an entry

    The three keys that say which add-ons an entry has are written as a block at its end,
    and the lines they were on are dropped.  Dropping them keeps every other line
    ([kept_ok], [kept_has]), and the block reads as part of the entry and as none of its
    other keys ([block_fine]). *)

From S2P Require Import Prelude.
From S2P Require Import GoStrings.
From S2P Require Import AppEntries.
From S2P Require Import AppLayout.

(** ** The first character of a line *)

Lemma trim_space_first c s : graph c = true → ∃ t, trim_space (String c s) = String c t.
Proof.
  intros Hc. unfold trim_space. cbv zeta.
  rewrite trim_spaces_graph; [|by intros; apply space2_graph_l|by intros; apply space3_graph_l|done]. rewrite rev_cons.
  assert (∀ t, ∃ t', trim_spaces_by (λ b a, space2 a b) (λ c b a, space3 a b c) (t +:+ String c "") = t' +:+ String c "") as Hlast.
  { intros t. induction t as [t IH] using (induction_ltof1 _ String.length). unfold ltof in IH.
    destruct t as [|a t]; [exists ""; rewrite app_empty_l, trim_spaces_graph; [done|by intros; apply space2_graph_r|by intros; apply space3_graph_r|done]|].
    rewrite app_cons. cbn [trim_spaces_by]. destruct (space1 a); [apply IH; cbn; lia|].
    destruct t as [|b t]; [rewrite app_empty_l, (space2_graph_l c) by done; by exists (String a "")|].
    rewrite app_cons. destruct (space2 b a); [apply IH; cbn; lia|].
    destruct t as [|e t]; [rewrite app_empty_l, (space3_graph_l c) by done; by exists (String a (String b ""))|].
    rewrite app_cons. destruct (space3 e b a); [apply IH; cbn; lia|]. by exists (String a (String b (String e t))). }
  destruct (Hlast (String.rev s)) as [t' ->]. exists (String.rev t'). by rewrite rev_app.
Qed.

Lemma has_first n n' k' c c' s : graph c = true → has n (String c' k') (spaces n' +:+ String c s) = true → c = c' ∧ n = n'.
Proof.
  intros Hc. unfold has. rewrite andb_true_iff, bool_decide_eq_true, indentOf_spaces by done. intros [<- Hp].
  rewrite trim_space_spaces in Hp. destruct (trim_space_first c s Hc) as [t Ht]. rewrite Ht in Hp.
  apply has_prefix_spec in Hp as [r Hr]. rewrite !app_cons in Hr. by injection Hr as -> _.
Qed.

(** None of the keys begins as those of the add-ons do, nor with a dash. *)
Lemma managed_first k : k ∈ managed → ∃ c s, k = String c s ∧ c ≠ "a"%char ∧ c ≠ "-"%char.
Proof.
  intros Hk. unfold managed in Hk. repeat (apply elem_of_cons in Hk as [->|Hk]; [by eexists _, _|]). by apply not_elem_of_nil in Hk.
Qed.

(** ** The lines of the block *)

(** A line of an entry that is about none of the keys. *)
Record fine (l : string) : Prop := {
  fi_plain : plain_line l;
  fi_owned : owned_line 4 l = true;
  fi_none : ∀ k, k ∈ managed → has 4 k l = false }.

Lemma owned_indent n c s : graph c = true → 4 ≤ n → owned_line 4 (spaces n +:+ String c s) = true.
Proof. intros Hc Hn. unfold owned_line. rewrite indentOf_spaces by done. rewrite (bool_decide_eq_true_2 (4 ≤ n)) by done. apply orb_true_r. Qed.

Lemma fine_text n c s : graph c = true → c ≠ "-"%char → 4 ≤ n → c = "a"%char ∨ 4 < n → contains_byte s NL = false →
  fine (spaces n +:+ String c s).
Proof.
  intros Hc Hd Hn Ha Hs. constructor; [split|by apply owned_indent|].
  - unfold item_of. rewrite trim_left_spaces by done. rewrite trim_left_stop by (by apply graph_not_s). cbn [cut_prefix].
    destruct (Ascii.eqb "-" c) eqn:E; [|done]. by apply Ascii.eqb_eq in E.
  - rewrite contains_byte_app, spaces_clean, contains_byte_cons, Hs, orb_false_r. apply Ascii.eqb_neq. intros <-. by vm_compute in Hc.
  - intros k (c' & k' & -> & Hne & _)%managed_first. apply not_true_is_false. intros [<- <-]%has_first; [|done]. destruct Ha; [done|lia].
Qed.

Lemma fine_dash c s : graph c = true → cut_prefix (String c s) "profile:" = None → contains_byte (String c s) NL = false →
  fine (spaces 4 +:+ "- " +:+ String c s).
Proof.
  intros Hc Hp Hs. change ("- " +:+ String c s) with (String "-" (String " " (String c s))). constructor; [split|by apply owned_indent|].
  - unfold item_of. rewrite trim_left_spaces by done. rewrite trim_left_stop by done. cbv zeta.
    change (cut_prefix (String "-" (String " " (String c s))) "-") with (Some (String " " (String c s))). cbn [mbind option_bind].
    change (trim_left (String " " (String c s)) s_chars) with (trim_left (String c s) s_chars).
    rewrite trim_left_stop by (by apply graph_not_s). rewrite Hp. by destruct (bool_decide _).
  - rewrite contains_byte_app, spaces_clean. exact Hs.
  - intros k (c' & k' & -> & _ & Hne)%managed_first. apply not_true_is_false. by intros [<- _]%has_first.
Qed.

Lemma addon_char c : is_alnum c || char_in c "_.-" = true → c ≠ NL ∧ c ≠ ":"%char.
Proof. intros Hc. split; intros ->; by vm_compute in Hc. Qed.

Lemma alnum_graph c : is_alnum c = true → graph c = true.
Proof.
  destruct c as [[] [] [] [] [] [] [] []]; intros H; vm_compute in H; (discriminate H || vm_compute; reflexivity).
Qed.

Lemma fine_addon a : validAddon a = true → fine (spaces 4 +:+ "- " +:+ a).
Proof.
  unfold validAddon. rewrite !andb_true_iff. intros [[Ha Hc] _]. destruct a as [|c s]; [done|]. apply fine_dash; [by apply alnum_graph| |].
  - destruct (cut_prefix (String c s) "profile:") as [r|] eqn:E; [|done]. apply cut_prefix_Some in E. exfalso.
    assert (contains_byte (String c s) ":" = false) as Hn by (by eapply str_forallb_contains). by rewrite E in Hn.
  - by eapply str_forallb_contains.
Qed.

Lemma addon_no_newline a : validAddon a = true → contains_byte a NL = false.
Proof. unfold validAddon. rewrite !andb_true_iff. intros [[Ha _] _]. by eapply str_forallb_contains. Qed.

Lemma fine_name a : contains_byte a NL = false → fine (spaces 4 +:+ "- name: " +:+ a).
Proof. intros Ha. apply (fine_dash "n" ("ame: " +:+ a)); [done..|]. exact Ha. Qed.

Lemma fine_deeper c s v : graph c = true → c ≠ "-"%char → contains_byte s NL = false → contains_byte v NL = false →
  fine (spaces 4 +:+ String " " (String " " (String c s)) +:+ v).
Proof.
  intros Hc Hd Hs Hv. apply (fine_text 6 c (s +:+ v)); [done|done|lia|right; lia|]. by rewrite contains_byte_app, Hs, Hv.
Qed.

(** A pin whose build and catalog are one line each. *)
Definition pin_fits (pin : AddonPin) : Prop :=
  contains_byte (ap_name pin) NL = false ∧ contains_byte (ap_digest pin) NL = false ∧ contains_byte (ap_catalogue pin) NL = false.

Lemma fine_pin pin : pin_fits pin → Forall fine ((spaces 4 +:+ "- name: " +:+ ap_name pin) :: (spaces 4 +:+ "  digest: " +:+ ap_digest pin)
  :: if bool_decide (ap_catalogue pin = "") then [] else [spaces 4 +:+ "  catalogue: " +:+ ap_catalogue pin]).
Proof.
  intros (Hn & Hd & Hc). repeat (constructor; [by first [apply fine_name|apply (fine_deeper "d" "igest: ")]|]).
  destruct (bool_decide _); [constructor|]. constructor; [by apply (fine_deeper "c" "atalogue: ")|constructor].
Qed.

Lemma Forall_bind {A B} (P : B → Prop) (f : A → list B) (l : list A) : Forall (λ a, Forall P (f a)) l → Forall P (l ≫= f).
Proof. intros Hl. induction Hl; [constructor|]. cbn. by apply Forall_app. Qed.

Lemma block_fine addons pins grants : Forall (λ a, validAddon a = true) addons → Forall pin_fits pins →
  Forall (λ g, contains_byte (ag_name g) NL = false) grants → Forall fine (addons_block 4 addons pins grants).
Proof.
  intros Ha Hp Hg. unfold addons_block. cbv zeta. rewrite !Forall_app. split_and!.
  - destruct addons as [|a l]; [constructor|]. constructor; [by apply (fine_text 4 "a" "ddons:"); [..|left|]|].
    apply Forall_fmap. eapply Forall_impl; [exact Ha|]. intros x. apply fine_addon.
  - destruct pins as [|x l]; [constructor|]. constructor; [by apply (fine_text 4 "a" "ddonPins:"); [..|left|]|].
    apply Forall_bind. eapply Forall_impl; [exact Hp|]. intros pin. apply fine_pin.
  - destruct grants as [|x l]; [constructor|]. constructor; [by apply (fine_text 4 "a" "ddonGrants:"); [..|left|]|].
    apply Forall_bind. eapply Forall_impl; [exact Hg|]. intros g Hn. cbn in Hn.
    constructor; [by apply fine_name|]. constructor; [by apply (fine_deeper "d" "efaultGrant: true" "")|constructor].
Qed.

(** ** The lines that are kept *)

Lemma Forall_sublist {A} (P : A → Prop) (k l : list A) : k `sublist_of` l → Forall P l → Forall P k.
Proof. intros Hs. induction Hs; [done| |]; intros Hf; apply Forall_cons in Hf as [? ?]; [constructor|]; auto. Qed.

Lemma kept_sublist n skipping lines : kept_lines n skipping lines `sublist_of` lines.
Proof.
  revert skipping. induction lines as [|l lines IH]; intros skipping; [done|]. cbn [kept_lines].
  destruct (skipping && _); [by apply sublist_cons|]. destruct (own_key n l); [by apply sublist_cons|]. by apply sublist_skip.
Qed.

Lemma indent_split l : l = spaces (indentOf l) +:+ trim_left l " ".
Proof.
  unfold indentOf. induction l as [|c l IH]; [done|]. cbn [trim_left]. destruct (char_in c " ") eqn:E.
  - unfold char_in in E. cbn in E. rewrite orb_false_r in E. apply Ascii.eqb_eq in E as ->.
    assert (String.length (trim_left l " ") ≤ String.length l) as Hle.
    { clear. induction l as [|c l IH]; [done|]. cbn [trim_left]. destruct (char_in c " "); cbn; lia. }
    change (String.length (String " " l)) with (S (String.length l)). rewrite Nat.sub_succ_l by done. cbn [spaces]. rewrite app_cons. by f_equal.
  - by rewrite Nat.sub_diag.
Qed.

(** A line with one of the keys is no line of the add-ons. *)
Lemma has_not_skipped k l : k ∈ managed → has 4 k l = true →
  (blank l || negb (bool_decide (indentOf l ≤ 4)) || has_prefix (trim_left l " ") "-") = false.
Proof.
  intros Hk Hh. destruct (managed_first k Hk) as (c & k' & -> & _ & Hd).
  pose proof Hh as Hh'. unfold has in Hh. rewrite andb_true_iff, bool_decide_eq_true in Hh. destruct Hh as [Hi Hp].
  apply orb_false_iff. split; [apply orb_false_iff; split|].
  - unfold blank. apply bool_decide_eq_false. intros E. by rewrite E in Hp.
  - by rewrite Hi.
  - apply not_true_is_false. intros [r Hr]%has_prefix_spec. rewrite (indent_split l), Hr in Hh'. rewrite app_cons in Hh'.
    by apply has_first in Hh' as [<- _].
Qed.

Lemma has_not_own k l : k ∈ managed → has 4 k l = true → own_key 4 l = None.
Proof.
  intros Hk Hh. destruct (managed_first k Hk) as (c & k' & -> & Hd & _). unfold own_key.
  destruct (cut_prefix l (spaces 4)) as [rest|] eqn:E; [|done]. apply cut_prefix_Some in E as ->. cbn [mbind option_bind].
  destruct rest as [|e rest]; [done|]. destruct (decide (e = "a"%char)) as [->|Hne]; [by apply has_first in Hh as [<- _]|].
  cbn [omap list_omap cut_prefix]. rewrite !app_cons. cbn [cut_prefix]. assert (Ascii.eqb "a" e = false) as -> by (by apply Ascii.eqb_neq). done.
Qed.

Lemma kept_has k skipping lines : k ∈ managed →
  filter (λ l, has 4 k l = true) (kept_lines 4 skipping lines) = filter (λ l, has 4 k l = true) lines.
Proof.
  intros Hk. revert skipping. induction lines as [|l lines IH]; intros skipping; [done|]. cbn [kept_lines].
  destruct (has 4 k l) eqn:Eh.
  - rewrite (has_not_skipped k l), andb_false_r, (has_not_own k l) by done. by rewrite !filter_cons_True, IH.
  - rewrite (filter_cons_False _ l lines) by congruence. destruct (skipping && _); [apply IH|]. destruct (own_key 4 l); [apply IH|].
    rewrite filter_cons_False by congruence. apply IH.
Qed.

Section Rewritten.
Context (body block : list string) (Hok : body_ok 4 body) (Hblock : Forall fine block).

Lemma block_has k : k ∈ managed → filter (λ l, has 4 k l = true) (kept_lines 4 false body ++ block) = filter (λ l, has 4 k l = true) body.
Proof.
  intros Hk. rewrite filter_app, kept_has by done. rewrite (filter_none _ block); [apply app_nil_r|].
  eapply Forall_impl; [exact Hblock|]. intros l Hl. rewrite (fi_none l Hl k Hk). done.
Qed.

Lemma block_value k : k ∈ managed → value_in 4 k (kept_lines 4 false body ++ block) = value_in 4 k body.
Proof. intros Hk. by rewrite !value_in_filter, block_has. Qed.

Lemma block_ok : body_ok 4 (kept_lines 4 false body ++ block).
Proof.
  constructor.
  - apply Forall_app. split; [eapply Forall_sublist; [apply kept_sublist|apply Hok]|]. eapply Forall_impl; [exact Hblock|]. by intros l [].
  - apply Forall_app. split; [eapply Forall_sublist; [apply kept_sublist|apply Hok]|]. eapply Forall_impl; [exact Hblock|]. by intros l [].
  - intros k Hk. rewrite block_has by done. by apply Hok.
Qed.
End Rewritten.

(** ** The pins and the grants of the list *)

Lemma addons_checked addons : fold_result (λ _ ad, valid_addon ad) tt addons = Ok tt → Forall (λ a, validAddon a = true) addons.
Proof.
  induction addons as [|a addons IH]; [constructor|]. cbn [fold_result]. rewrite bind_Ok. intros ([] & Ha & Hrest).
  constructor; [|by apply IH]. unfold valid_addon in Ha. by destruct (validAddon a).
Qed.

Lemma digest_no_newline s : digestPattern s = true → contains_byte s NL = false.
Proof.
  unfold digestPattern. destruct (cut_prefix s "sha256:") as [hex|] eqn:E; [|done]. apply cut_prefix_Some in E as ->.
  rewrite andb_true_iff. intros [Hh _]. rewrite contains_byte_app. by rewrite (str_forallb_contains _ _ NL Hh).
Qed.

Lemma name_no_newline s : ValidName s = true → contains_byte s NL = false.
Proof. intros Hs. by apply (dns_label_contains s). Qed.

Lemma state_pin_Ok addons stated pin stated' : state_pin addons stated pin = Ok stated' →
  stated' = <[ap_name pin := pin]> stated ∧ stated !! ap_name pin = None ∧ ap_name pin ∈ addons ∧ pin_fits pin.
Proof.
  unfold state_pin. destruct (ValidName (ap_name pin)) eqn:Hn; [|done]. case_bool_decide as Ha; [|done]. cbn [negb orb].
  rewrite bind_Ok. intros ([] & Hd & Hrest). revert Hrest. rewrite bind_Ok. intros ([] & Hc & Hs).
  destruct (stated !! ap_name pin) eqn:E; [done|]. injection Hs as <-. split_and!; [done..|]. split_and!.
  - by apply name_no_newline.
  - apply digest_no_newline. unfold valid_digest in Hd. by destruct (digestPattern _).
  - apply name_no_newline. unfold valid_name in Hc. by destruct (ValidName (ap_catalogue pin)).
Qed.

(** The pins a call states are the ones it is given, each in the form of a pin. *)
Lemma stated_spec addons pins stated : fold_result (state_pin addons) ∅ pins = Ok stated →
  (∀ pin, pin ∈ pins → stated !! ap_name pin = Some pin)
  ∧ (∀ n pin, stated !! n = Some pin → ap_name pin = n ∧ n ∈ addons ∧ pin_fits pin).
Proof.
  intros Hf. apply (fold_result_invariant (state_pin addons) (λ seen st,
    (∀ pin, pin ∈ seen → st !! ap_name pin = Some pin)
    ∧ (∀ n pin, st !! n = Some pin → ap_name pin = n ∧ n ∈ addons ∧ pin_fits pin)) _ _ _ Hf).
  - split; [by intros pin ?%not_elem_of_nil|]. intros n pin. by rewrite lookup_empty.
  - intros seen pin st st' _ [Hin Hall] (-> & Hnone & Ha & Hfit)%state_pin_Ok. split.
    + intros q [Hq| ->%list_elem_of_singleton]%elem_of_app; [|by rewrite lookup_insert_eq].
      rewrite lookup_insert_ne; [by apply Hin|]. intros E. apply Hin in Hq. congruence.
    + intros n q [[<- <-]|[_ Hq]]%lookup_insert_Some; [done|by apply Hall].
Qed.

(** What the entry had, read from a manifest whose pins are one line each. *)
Lemma had_fits `{Yaml} text p had everyone : addonsOf text p = Ok (had, everyone) →
  (∀ apps, yaml_apps text = Ok apps → Forall (λ app, Forall pin_fits (app_pins app)) apps) →
  ∀ n pin, had !! n = Some pin → ap_digest pin ≠ "" → ap_name pin = n ∧ pin_fits pin.
Proof.
  unfold addonsOf. rewrite bind_Ok. intros (apps & Hy%wrap_Ok & Hr) Hfit. specialize (Hfit _ Hy). clear Hy.
  set (good := λ o : gmap string AddonPin, ∀ n pin, o !! n = Some pin → ap_digest pin ≠ "" → ap_name pin = n ∧ pin_fits pin).
  assert (∀ acc, good acc.1 → good (foldl (addons_step p) acc apps).1) as Hgo.
  { clear Hr. induction Hfit as [|app apps Happ _ IH]; intros acc Hacc; [done|]. cbn [foldl]. apply IH. unfold addons_step.
    destruct (negb _); [done|]. cbv zeta. cbn [fst].
    assert (good (foldl (λ out ad, <[ad := mkPin ad "" ""]> out) acc.1 (app_addons app))) as Hg.
    { revert Hacc. generalize acc.1 as o. induction (app_addons app) as [|ad l IHl]; intros o Ho; [done|]. cbn [foldl]. apply IHl.
      intros n pin [[<- <-]|[_ Hq]]%lookup_insert_Some; [done|by apply Ho]. }
    revert Hg. generalize (foldl (λ out ad, <[ad := mkPin ad "" ""]> out) acc.1 (app_addons app)) as o.
    induction Happ as [|pin l Hpin _ IHl]; intros o Ho; [done|]. cbn [foldl]. apply IHl. destruct (o !! ap_name pin); [|done].
    intros n q [[<- <-]|[_ Hq]]%lookup_insert_Some; [done|by apply Ho]. }
  injection Hr as Hr. specialize (Hgo (∅, ∅)). rewrite Hr in Hgo. apply Hgo. intros n pin Hn. cbn [fst] in Hn. by rewrite lookup_empty in Hn.
Qed.

Section Final.
Context (addons : list string) (stated had : gmap string AddonPin) (pins : list AddonPin).
Context (Hstated : ∀ n pin, stated !! n = Some pin → ap_name pin = n ∧ n ∈ addons ∧ pin_fits pin).
Context (Hhad : ∀ n pin, had !! n = Some pin → ap_digest pin ≠ "" → ap_name pin = n ∧ pin_fits pin).

Lemma final_pins_spec pin : pin ∈ final_pins stated had addons → ap_name pin ∈ addons ∧ pin_fits pin.
Proof.
  unfold final_pins. intros (ad & Had & Hp)%list_elem_of_omap. destruct (stated !! ad) as [q|] eqn:E.
  - injection Hp as ->. apply Hstated in E as (-> & ? & ?). done.
  - destruct (had !! ad) as [q|] eqn:E'; [|done]. case_bool_decide as Hd; [done|]. injection Hp as ->. by apply Hhad in E' as [-> ?].
Qed.

Lemma final_pins_stated pin : stated !! ap_name pin = Some pin → pin ∈ final_pins stated had addons.
Proof. intros Hp. apply list_elem_of_omap. exists (ap_name pin). rewrite Hp. split; [|done]. by apply (Hstated _ _ Hp). Qed.
End Final.

Lemma final_grants_spec grants everyone addons g : g ∈ final_grants grants everyone addons →
  ag_name g ∈ addons ∧ ag_default g = true ∧ grants !! ag_name g ≠ Some false.
Proof.
  unfold final_grants. intros (ad & Had & Hg)%list_elem_of_omap. destruct (default _ _) eqn:E; [|done]. injection Hg as <-. cbn.
  split_and!; [done..|]. intros Hf. by rewrite Hf in E.
Qed.

Lemma final_grants_stated grants everyone addons n : n ∈ addons → grants !! n = Some true → mkGrant n true ∈ final_grants grants everyone addons.
Proof. intros Hn Hg. apply list_elem_of_omap. exists n. by rewrite Hg. Qed.

Lemma grants_checked addons (names : list string) : fold_result (λ _ n, valid_grant addons n) tt names = Ok tt → Forall (λ n, n ∈ addons) names.
Proof.
  induction names as [|a names IH]; [constructor|]. cbn [fold_result]. rewrite bind_Ok. intros ([] & Ha & Hrest).
  constructor; [|by apply IH]. unfold valid_grant in Ha. by case_bool_decide.
Qed.
