(* ===== verification/AppEdits.v ===== *)
(** * The writes of a tenant's apps, as edits of its entries

    Every write of [AppEntries] on the text of a manifest: what it does to the entry it is
    about, and that it leaves the rest alone ([edits_refine]); that a write by hand leaves
    an entry of the platform as it is ([placed_by_the_platform_only]); and two texts the
    code does not read as YAML does: a list indented as the documentation shows it
    ([deeper_list_is_swallowed]) and a value with a comment behind it
    ([commented_pin_is_not_read]). *)

From S2P Require Import Prelude.
From S2P Require Import GoStrings.
From S2P Require Import AppEntries.
From S2P Require Import AppLayout.
From S2P Require Import AppAddons.

(** ** What a write means *)

Definition reads (body : list string) (k : string) : string := value_in 4 k body.
Definition placed (body : list string) : Prop := reads body appPlacedKey = "true".
Definition placed_in (m : manifest) (p : string) : Prop := ∃ body, body_in m p = Some body ∧ placed body.

(** The keys but those are as they were, and so is every line that is about none. *)
Definition keeps_but (ks : list string) (b b' : list string) : Prop :=
  (∀ k, k ∈ managed → k ∉ ks → reads b' k = reads b k) ∧ others 4 b' = others 4 b.

(** A move of the pin: the build, the catalog it is from and who moved it. *)
Definition pinned_to (digest catalogue : string) (meta : Meta) (b b' : list string) : Prop :=
  reads b' "digest" = digest
  ∧ (reads b "digest" ≠ digest →
       reads b' "catalogue" = catalogue ∧ reads b' appMovedAtKey = me_moved_at meta ∧ reads b' appMovedByKey = me_mover meta).

Definition build_keys : list string := ["digest"; "catalogue"; appMovedAtKey; appMovedByKey].

(** [meant w meta o o']: what [w] makes of the entry's lines, [None] where there is no
    entry. *)
Definition meant (w : write) (meta : Meta) (o o' : option (list string)) : Prop :=
  match w with
  | ByInstall digest catalogue defaultGrant => ∃ b', o' = Some b' ∧
      match o with
      | None => reads b' "digest" = digest ∧ reads b' "catalogue" = catalogue
          ∧ reads b' appDefaultGrantKey = grant_value (default false defaultGrant) ∧ reads b' appPlacedKey = ""
      | Some b => ¬ placed b ∧ keeps_but (appDefaultGrantKey :: build_keys) b b'
          ∧ (digest = "" → ∀ k, k ∈ build_keys → reads b' k = reads b k)
          ∧ (digest ≠ "" → pinned_to digest catalogue meta b b')
          ∧ reads b' appDefaultGrantKey = match defaultGrant with None => reads b appDefaultGrantKey | Some g => grant_value g end
      end
  | ByUninstall => (∀ b, o = Some b → ¬ placed b) ∧ o' = None
  | ByUnplace => match o with Some b => (placed b → o' = None) ∧ (¬ placed b → o' = o) | None => o' = None end
  | ByRetry digest => ∃ b b', o = Some b ∧ o' = Some b' ∧ ¬ placed b ∧ reads b "digest" = digest
      ∧ keeps_but [appMovedAtKey; appMovedByKey] b b' ∧ reads b' appMovedAtKey = me_moved_at meta
  | ByUpdateMode mode => ∃ b b', o = Some b ∧ o' = Some b' ∧ ¬ placed b
      ∧ keeps_but [appUpdateModeKey] b b' ∧ reads b' appUpdateModeKey = mode
  | ByAddons addons pins grants => match o with
      | None => o' = None
      | Some b => ¬ placed b ∧ ∃ pins' grants', o' = Some (kept_lines 4 false b ++ addons_block 4 addons pins' grants')
          ∧ (∀ k, k ∈ managed → reads (kept_lines 4 false b ++ addons_block 4 addons pins' grants') k = reads b k)
          ∧ pins ⊆ pins' ∧ Forall (λ pin, ap_name pin ∈ addons) pins'
          ∧ (∀ n, grants !! n = Some true → mkGrant n true ∈ grants')
          ∧ Forall (λ g, ag_name g ∈ addons ∧ grants !! ag_name g ≠ Some false) grants'
      end
  | ByPlace digest catalogue defaultGrant => ∃ b', o' = Some b' ∧ placed b' ∧
      match o with
      | None => reads b' "digest" = digest ∧ reads b' "catalogue" = catalogue ∧ reads b' appDefaultGrantKey = grant_value defaultGrant
      | Some b => keeps_but (appPlacedKey :: appDefaultGrantKey :: build_keys) b b'
          ∧ (digest = "" ∨ reads b "digest" = digest → ∀ k, k ∈ build_keys → reads b' k = reads b k)
          ∧ (digest ≠ "" → pinned_to digest catalogue meta b b')
          ∧ reads b' appDefaultGrantKey = if defaultGrant then "true" else reads b appDefaultGrantKey
      end
  end.

(** The manifest after a write about [p]: the other entries are as they were, line by
    line and in their order, and so is everything before and after the list. *)
Record rewritten (m m' : manifest) (p : string) : Prop := {
  rw_wf : wf 2 m';
  rw_head : mf_head m' = mf_head m;
  rw_tail : mf_tail m' = mf_tail m;
  rw_others : filter (λ e, en_profile e ≠ p) (mf_apps m') = filter (λ e, en_profile e ≠ p) (mf_apps m) }.

Lemma rewritten_refl m p : wf 2 m → rewritten m m p.
Proof. by constructor. Qed.

Lemma rewritten_body m p b : wf 2 m → body_ok 4 b → rewritten m (with_body m p b) p.
Proof.
  intros Hwf Hb. constructor; [by apply wf_with_body|done|done|]. unfold with_body, with_apps. cbn [mf_apps].
  induction (mf_apps m) as [|e l IH]; [done|]. rewrite fmap_cons. destruct (decide (en_profile e = p)) as [He|He].
  - rewrite !filter_cons_False by (intros Hn; by apply Hn). done.
  - rewrite !filter_cons_True by done. by rewrite IH.
Qed.

Lemma rewritten_without m p : wf 2 m → rewritten m (without m p) p.
Proof.
  intros Hwf. constructor; [by apply wf_without|done|done|]. unfold without, with_apps. cbn [mf_apps].
  induction (mf_apps m) as [|e l IH]; [done|]. destruct (decide (en_profile e ≠ p)) as [He|He].
  - rewrite filter_cons_True by done. rewrite filter_cons_True by done. by rewrite IH.
  - by rewrite !filter_cons_False by done.
Qed.

Lemma rewritten_inserted m p digest catalogue defaultGrant : wf 2 m → ValidName p = true → body_in m p = None →
  digest = "" ∨ clean digest = true → catalogue = "" ∨ clean catalogue = true →
  rewritten m (inserted m p (new_body digest catalogue defaultGrant)) p.
Proof.
  intros Hwf Hp Hn Hd Hc. constructor; [by apply wf_inserted|done|done|]. unfold inserted. cbn [mf_apps].
  by rewrite filter_cons_False by (intros He; by apply He).
Qed.

Lemma rewritten_trans m m' m'' p : rewritten m m' p → rewritten m' m'' p → rewritten m m'' p.
Proof. intros [? ? ? ?] [? ? ? ?]. constructor; [done|congruence..]. Qed.

(** ** Clean values *)

Definition word_char (c : ascii) : bool := graph c && negb (char_in c quotes).

Lemma word_clean s : s ≠ "" → str_forallb word_char s = true → clean s = true.
Proof.
  intros Hne Hs. unfold clean. rewrite !andb_true_iff, !negb_true_iff. split_and!.
  - unfold tidy. destruct s as [|c s]; [done|]. apply andb_true_iff. split.
    + rewrite str_forallb_cons, andb_true_iff in Hs. destruct Hs as [Hc _]. by apply andb_true_iff in Hc as [? _].
    + rewrite <-(rev_involutive (String c s)) in Hs. destruct (String.rev (String c s)) as [|e r] eqn:E.
      { apply (f_equal String.rev) in E. by rewrite rev_involutive in E. }
      rewrite rev_cons, str_forallb_app, andb_true_iff in Hs. destruct Hs as [_ Hs]. unfold str_forallb in Hs. cbn in Hs.
      rewrite orb_false_r, negb_involutive in Hs. by apply andb_true_iff in Hs as [? _].
  - eapply str_forallb_contains; [exact Hs|done].
  - eapply str_forallb_contains_any; [exact Hs|done].
Qed.

Lemma clean_app a b : clean a = true → clean b = true → clean (a +:+ " # " +:+ b) = true.
Proof.
  unfold clean. rewrite !andb_true_iff, !negb_true_iff. intros [[Ha Ha1] Ha2] [[Hb Hb1] Hb2]. split_and!.
  - by apply tidy_app.
  - by rewrite !contains_byte_app, Ha1, Hb1.
  - unfold contains_any in *. by rewrite !str_existsb_app, Ha2, Hb2.
Qed.

Lemma digest_clean s : digestPattern s = true → clean s = true.
Proof.
  unfold digestPattern. destruct (cut_prefix s "sha256:") as [hex|] eqn:E; [|done]. apply cut_prefix_Some in E as ->.
  rewrite andb_true_iff. intros [Hh _]. apply word_clean; [done|]. rewrite str_forallb_app. apply andb_true_iff. split; [done|].
  eapply str_forallb_weaken; [|exact Hh]. intros c. unfold is_hex_lower, word_char. rewrite orb_true_iff, !bool_decide_eq_true. intros Hc.
  apply andb_true_iff. split; [unfold graph; apply bool_decide_eq_true; lia|]. apply negb_true_iff. unfold char_in, quotes. cbn.
  rewrite orb_false_r. apply orb_false_iff. split; apply Ascii.eqb_neq; intros ->; vm_compute in Hc; lia.
Qed.

Lemma name_clean s : ValidName s = true → clean s = true.
Proof.
  intros Hs. apply word_clean; [by apply dns_label_nonempty|]. unfold ValidName, dns_label in Hs. rewrite !andb_true_iff in Hs.
  destruct Hs as [[[Hs _] _] _]. eapply str_forallb_weaken; [|exact Hs]. intros c Hc. unfold word_char.
  apply orb_true_iff in Hc as [Hc|Hc%Ascii.eqb_eq]; [|by subst]. rewrite (lower_alnum_graph _ Hc). cbn. apply negb_true_iff.
  unfold is_lower_alnum in Hc. rewrite orb_true_iff, !bool_decide_eq_true in Hc. unfold char_in, quotes. cbn. rewrite orb_false_r.
  apply orb_false_iff. split; apply Ascii.eqb_neq; intros ->; vm_compute in Hc; lia.
Qed.

Lemma build_clean digest catalogue : valid_build digest catalogue = Ok tt →
  (digest = "" ∨ clean digest = true) ∧ (catalogue = "" ∨ clean catalogue = true).
Proof.
  unfold valid_build. rewrite bind_Ok. intros ([] & Hd & Hc). split.
  - destruct (decide (digest = "")) as [->|Hne]; [by left|]. right. rewrite bool_decide_eq_false_2 in Hd by done. unfold valid_digest in Hd.
    destruct (digestPattern digest) eqn:E; [|done]. by apply digest_clean.
  - destruct (decide (catalogue = "")) as [->|Hne]; [by left|]. right. rewrite (bool_decide_eq_false_2 (catalogue = "")) in Hc by done.
    cbn in Hc. destruct (ValidName catalogue) eqn:E; [by apply name_clean|]. by rewrite orb_true_r in Hc.
Qed.

(** ** Every write, one by one *)

Lemma fold_result_Err {A B} (f : B → A → result B) b l e : fold_result f b l = Err e → ∃ x a, f x a = Err e.
Proof.
  revert b. induction l as [|a l IH]; intros b; [done|]. cbn [fold_result]. destruct (f b a) as [b'|e'] eqn:E; cbn [mbind result_bind]; [apply IH|].
  intros [= ->]. by exists b, a.
Qed.

Lemma state_pin_Err addons stated pin e : state_pin addons stated pin = Err e → errors_Is e "invalid name" = true.
Proof.
  unfold state_pin, valid_digest, valid_name. destruct (negb _ || negb _); [by intros [= <-]|].
  destruct (digestPattern _); [|by intros [= <-]]. cbn [mbind result_bind]. destruct (ValidName _); [|by intros [= <-]]. cbn [mbind result_bind].
  destruct (stated !! _); [by intros [= <-]|done].
Qed.

Section Writes.
Context `{Yaml} (tenant p : string) (meta : Meta) (m : manifest) (Hwf : wf 2 m).
Context (Hat : clean (me_moved_at meta) = true) (Hby : clean (me_mover meta) = true).

(** Why a write is refused. *)
Definition refusal (w : write) (e : error) : Prop :=
  errors_Is e "invalid name" = true
  ∨ (e = ErrPlatformTenant ∧ adoptsAnotherRealm (text_of 2 m) tenant = true)
  ∨ (e = placedAppError p ∧ placed_in m p ∧ by_hand w = true)
  ∨ (e = ErrNotInstalled ∧ body_in m p = None)
  ∨ (∃ digest b, w = ByRetry digest ∧ body_in m p = Some b ∧ reads b "digest" ≠ digest)
  ∨ (∃ e', yaml_apps (text_of 2 m) = Err e').

Definition refined (w : write) : Prop :=
  match edit tenant p meta w (text_of 2 m) with
  | Err e => refusal w e
  | Ok (text', status, changed) => ∃ m', text' = text_of 2 m' ∧ rewritten m m' p ∧ (changed = false → m' = m)
      ∧ meant w meta (body_in m p) (body_in m' p)
  end.

Lemma refuse_in w : by_hand w = true → match refusePlaced (lines_of 2 m) p with
  | Err e => refusal w e
  | Ok _ => ∀ b, body_in m p = Some b → ¬ placed b
  end.
Proof.
  intros Hw. unfold refusePlaced. rewrite (value_of_key 2 m p Hwf). case_bool_decide as Hp.
  - right. right. left. split_and!; [done| |done]. destruct (body_in m p) as [b|] eqn:E; [|done]. by exists b.
  - intros b Hb. rewrite Hb in Hp. exact Hp.
Qed.

Lemma text_of_inj m1 m2 : wf 2 m1 → wf 2 m2 → text_of 2 m1 = text_of 2 m2 → lines_of 2 m1 = lines_of 2 m2.
Proof. intros H1 H2 Ht. by rewrite <-(split_text 2 m1 H1), Ht, (split_text 2 m2 H2). Qed.

Lemma without_differs b : body_in m p = Some b → text_of 2 (without m p) ≠ text_of 2 m.
Proof.
  intros Hb Ht. apply text_of_inj in Ht; [|by apply wf_without|done]. destruct (extent_in 2 m p Hwf b Hb) as (a & c & Hl & _ & Hw & _).
  apply (f_equal length) in Ht. rewrite Hl, Hw, !length_app in Ht. cbn in Ht. rewrite length_app in Ht. lia.
Qed.

Lemma valid_name_case what s : valid_name what s = Ok tt ∧ ValidName s = true ∨ ∃ e, valid_name what s = Err e ∧ errors_Is e "invalid name" = true.
Proof. unfold valid_name. destruct (ValidName s); [by left|right; by eexists]. Qed.

Lemma uninstall_refined : refined ByUninstall.
Proof.
  unfold refined. cbn [edit]. unfold Uninstall. destruct (valid_name_case "profile" p) as [[-> Hp]|(e & -> & He)]; [|by left]. cbn [mbind result_bind].
  rewrite (split_text 2 m Hwf). pose proof (refuse_in ByUninstall eq_refl) as Hr. destruct (refusePlaced _ p) as [[]|e]; [|done]. cbn [mbind result_bind].
  rewrite (remove_in 2 m p Hwf). destruct (body_in m p) as [b|] eqn:Eb.
  - rewrite bool_decide_eq_false_2 by (by eapply without_differs). exists (without m p). do 3 (split; [first [done|by apply rewritten_without]|]).
    split; [done|]. by rewrite body_in_without, decide_True.
  - exists m. do 3 (split; [first [done|by apply rewritten_refl]|]). by rewrite Eb.
Qed.

Lemma unplace_refined : refined ByUnplace.
Proof.
  unfold refined. cbn [edit]. unfold Unplace. destruct (valid_name_case "profile" p) as [[-> Hp]|(e & -> & He)]; [|by left]. cbn [mbind result_bind].
  rewrite (split_text 2 m Hwf), (value_of_key 2 m p Hwf). destruct (body_in m p) as [b|] eqn:Eb.
  - case_bool_decide as Hpl; cbn.
    + rewrite (remove_in 2 m p Hwf), Eb. rewrite bool_decide_eq_false_2 by (by eapply without_differs). exists (without m p).
      do 3 (split; [first [done|by apply rewritten_without]|]). rewrite body_in_without, decide_True by done. by split; [|intros Hn; destruct Hn].
    + exists m. do 3 (split; [first [done|by apply rewritten_refl]|]). rewrite Eb. by split.
  - cbn. exists m. do 3 (split; [first [done|by apply rewritten_refl]|]). by rewrite Eb.
Qed.

(** *** Keys set one after another *)

Lemma reads_set k v a b k' : body_ok 4 b → k ∈ managed → v = "" ∨ clean v = true → k' ∈ managed →
  reads (set_in 4 k v a b).1 k' = if decide (k' = k) then v else reads b k'.
Proof. intros. by apply set_in_value. Qed.

Lemma keeps_refl ks b : keeps_but ks b b.
Proof. by split. Qed.

Lemma keeps_set ks k v a b0 b : body_ok 4 b → k ∈ managed → v = "" ∨ clean v = true → k ∈ ks → keeps_but ks b0 b →
  keeps_but ks b0 (set_in 4 k v a b).1.
Proof.
  intros Hb Hk Hv Hks [Hkeep Ho]. split; [|by rewrite set_in_others].
  intros k' Hk' Hn. rewrite reads_set by done. rewrite decide_False by (intros ->; done). by apply Hkeep.
Qed.

Lemma chain_next k v a b lines : chain 2 m p b lines → k ∈ managed → v = "" ∨ clean v = true → ∃ lines' changed,
  setAppEntryKey lines p k v a = (lines', changed) ∧ chain 2 m p (set_in 4 k v a b).1 lines' ∧ changed = (set_in 4 k v a b).2.
Proof.
  intros Hc Hk Hv. destruct (chain_set 2 m p Hwf k v a b lines Hc Hk Hv) as [Hc' Hch].
  destruct (setAppEntryKey lines p k v a) as [lines' ch]. by exists lines', ch.
Qed.

Lemma chain_done b lines : chain 2 m p b lines → ∃ m', join lines NL = text_of 2 m' ∧ rewritten m m' p ∧ body_in m' p = Some b.
Proof.
  intros Hc. destruct (chain_body 2 m p Hwf b lines Hc) as [_ Hb]. destruct Hc as (-> & Hok & _). exists (with_body m p b).
  split_and!; [done|by apply rewritten_body|done].
Qed.

Lemma chain_ok b lines : chain 2 m p b lines → body_ok 4 b.
Proof. by intros (_ & ? & _). Qed.

Lemma below_build_key lines : below_build lines p ∈ managed.
Proof. unfold below_build. destruct (appEntryHasKey _ _ _); by apply (bool_decide_unpack _). Qed.

Lemma update_mode_refined mode : refined (ByUpdateMode mode).
Proof.
  unfold refined. cbn [edit]. unfold SetAppUpdateMode. destruct (valid_name_case "profile" p) as [[-> Hp]|(e & -> & He)]; [|by left]. cbn [mbind result_bind].
  destruct (negb (bool_decide (mode = "")) && negb (ValidUpdateMode mode)) eqn:Em; [by left|].
  assert (mode = "" ∨ clean mode = true) as Hm.
  { apply andb_false_iff in Em as [Em%negb_false_iff%bool_decide_eq_true|Em%negb_false_iff]; [by left|right].
    unfold ValidUpdateMode in Em. apply bool_decide_eq_true in Em. repeat (apply elem_of_cons in Em as [->|Em]; [done|]). by apply not_elem_of_nil in Em. }
  rewrite (split_text 2 m Hwf). cbv zeta. rewrite (installed_in 2 m p Hwf). destruct (body_in m p) as [b|] eqn:Eb; cbn [negb];
    [|right; right; right; left; done].
  pose proof (refuse_in (ByUpdateMode mode) eq_refl) as Hr. destruct (refusePlaced _ p) as [[]|e]; [|done]. cbn [mbind result_bind].
  destruct (chain_next appUpdateModeKey mode (below_build (lines_of 2 m) p) b _ (chain_start 2 m p Hwf b Eb)) as (lines' & ch & -> & Hc & ->);
    [by apply (bool_decide_unpack _)|done|].
  pose proof (chain_ok _ _ (chain_start 2 m p Hwf b Eb)) as Hok. set (b' := (set_in _ _ _ _ b).1) in *.
  assert (meant (ByUpdateMode mode) meta (Some b) (Some b')) as Hmeant.
  { exists b, b'. split_and!; [done|done|by apply Hr| |].
    - apply keeps_set; [done|by apply (bool_decide_unpack _)|done|left|apply keeps_refl].
    - unfold b'. by rewrite reads_set, decide_True by (done || by apply (bool_decide_unpack _)). }
  destruct (set_in _ _ _ _ b).2 eqn:Ech; cbn [negb].
  - destruct (chain_done _ _ Hc) as (m' & Ht & Hrw & Hb'). exists m'. rewrite Hb'. by split_and!.
  - exists m. do 3 (split; [first [done|by apply rewritten_refl]|]). rewrite Eb. unfold b' in Hmeant. by rewrite (set_in_same _ _ _ _ _ Ech) in Hmeant.
Qed.

Lemma valid_digest_case digest : valid_digest digest = Ok tt ∧ clean digest = true ∨ ∃ e, valid_digest digest = Err e ∧ errors_Is e "invalid name" = true.
Proof. unfold valid_digest. destruct (digestPattern digest) eqn:E; [left; by split; [|apply digest_clean]|right; by eexists]. Qed.

Lemma retry_refined digest : refined (ByRetry digest).
Proof.
  unfold refined. cbn [edit]. unfold RetryMove. destruct (valid_name_case "profile" p) as [[-> Hp]|(e & -> & He)]; [|by left]. cbn [mbind result_bind].
  destruct (valid_digest_case digest) as [[-> Hd]|(e & -> & He)]; [|by left]. cbn [mbind result_bind].
  rewrite (split_text 2 m Hwf). cbv zeta. rewrite (installed_in 2 m p Hwf). destruct (body_in m p) as [b|] eqn:Eb; cbn [negb];
    [|right; right; right; left; done].
  pose proof (refuse_in (ByRetry digest) eq_refl) as Hr. destruct (refusePlaced _ p) as [[]|e]; [|done]. cbn [mbind result_bind].
  rewrite (value_of_key 2 m p Hwf), Eb. case_bool_decide as Hpin; cbn [negb]; [|right; right; right; right; left; by exists digest, b].
  pose proof (chain_start 2 m p Hwf b Eb) as Hc0. pose proof (chain_ok _ _ Hc0) as Hok.
  assert (appMovedAtKey ∈ managed) as Ha by by apply (bool_decide_unpack _).
  assert (appMovedByKey ∈ managed) as Hb by by apply (bool_decide_unpack _).
  destruct (chain_next appMovedAtKey (me_moved_at meta) (below_build (lines_of 2 m) p) b _ Hc0) as (lines1 & ch & -> & Hc1 & ->); [done|by right|].
  destruct (chain_next appMovedByKey (me_mover meta) appMovedAtKey _ lines1 Hc1) as (lines2 & ch2 & -> & Hc2 & _); [done|by right|]. cbn [fst].
  set (a := below_build (lines_of 2 m) p) in *. clearbody a.
  pose proof (chain_ok _ _ Hc1) as Hok1. destruct (set_in 4 appMovedAtKey (me_moved_at meta) a b).2 eqn:Ech; cbn [negb].
  - destruct (chain_done _ _ Hc2) as (m' & Ht & Hrw & Hb'). exists m'. rewrite Hb'. do 3 (split; [done|]).
    exists b. eexists. split_and!; [done|done|by apply Hr|done| |].
    + apply keeps_set; [done|done|by right|right; left|]. apply keeps_set; [done|done|by right|left|apply keeps_refl].
    + rewrite reads_set by (done || by right). rewrite decide_False by done. by rewrite reads_set, decide_True by (done || by right).
  - exists m. do 3 (split; [first [done|by apply rewritten_refl]|]). rewrite Eb. exists b, b. split_and!; [done|done|by apply Hr|done|apply keeps_refl|].
    rewrite <-(set_in_same _ _ _ _ _ Ech) at 1. by rewrite reads_set, decide_True by (done || by right).
Qed.

Lemma key_in k : bool_decide (k ∈ managed) = true → k ∈ managed.
Proof. apply bool_decide_eq_true. Qed.

(** Who moved the pin, and when, below what says which build it is. *)
Lemma stamp_chain b0 b lines a : chain 2 m p b lines → keeps_but build_keys b0 b → ∃ b',
  chain 2 m p b' (setAppEntryKey (setAppEntryKey lines p appMovedAtKey (me_moved_at meta) a).1 p appMovedByKey (me_mover meta) appMovedAtKey).1
  ∧ keeps_but build_keys b0 b' ∧ reads b' "digest" = reads b "digest" ∧ reads b' "catalogue" = reads b "catalogue"
  ∧ reads b' appMovedAtKey = me_moved_at meta ∧ reads b' appMovedByKey = me_mover meta.
Proof.
  intros Hc Hk. destruct (chain_next appMovedAtKey (me_moved_at meta) a b lines Hc) as (l1 & c1 & -> & Hc1 & _); [by apply key_in|by right|]. cbn [fst].
  destruct (chain_next appMovedByKey (me_mover meta) appMovedAtKey _ l1 Hc1) as (l2 & c2 & -> & Hc2 & _); [by apply key_in|by right|]. cbn [fst].
  pose proof (chain_ok _ _ Hc) as Hok. pose proof (chain_ok _ _ Hc1) as Hok1. eexists. split; [exact Hc2|].
  rewrite !(reads_set appMovedByKey), !(reads_set appMovedAtKey) by (done || (by right) || (by apply key_in)).
  split; [|split_and!; repeat ((rewrite decide_False by discriminate) || (rewrite decide_True by reflexivity)); reflexivity].
  apply keeps_set; [done|by apply key_in|by right|by apply (bool_decide_unpack _)|].
  apply keeps_set; [done|by apply key_in|by right|by apply (bool_decide_unpack _)|done].
Qed.

Lemma move_pin_chain digest catalogue b lines : chain 2 m p b lines → clean digest = true → catalogue = "" ∨ clean catalogue = true →
  ∃ lines' moved b', move_pin lines p digest catalogue meta = (lines', moved) ∧ chain 2 m p b' lines' ∧ keeps_but build_keys b b'
    ∧ pinned_to digest catalogue meta b b' ∧ (moved = false → b' = b).
Proof.
  intros Hc Hd Hcat. unfold move_pin. pose proof (chain_ok _ _ Hc) as Hok.
  destruct (chain_next "digest" digest "" b lines Hc) as (l1 & c1 & -> & Hc1 & Ec1); [by apply key_in|by right|].
  set (b1 := (set_in 4 "digest" digest "" b).1) in *. pose proof (chain_ok _ _ Hc1) as Hok1.
  assert (reads b "digest" ≠ digest → c1 = true) as Hmv. { intros Hne. rewrite Ec1. apply set_in_changed; [by apply key_in|by right|done]. }
  assert (keeps_but build_keys b b1) as Hk1.
  { apply keeps_set; [done|by apply key_in|by right|by apply (bool_decide_unpack _)|apply keeps_refl]. }
  assert (reads b1 "digest" = digest) as Hd1. { unfold b1. by rewrite reads_set, decide_True by (done || (by right) || (by apply key_in)). }
  assert (c1 = false → b1 = b) as Hs1. { intros ->. unfold b1. by apply set_in_same. }
  assert (∃ l2 c2 b2, (if negb (bool_decide (catalogue = "")) || c1 then setAppEntryKey l1 p "catalogue" catalogue "digest" else (l1, false)) = (l2, c2)
    ∧ chain 2 m p b2 l2 ∧ keeps_but build_keys b b2 ∧ reads b2 "digest" = digest ∧ (c1 = true → reads b2 "catalogue" = catalogue) ∧ (c2 = false → b2 = b1))
    as (l2 & c2 & b2 & -> & Hc2 & Hk2 & Hd2 & Hcat2 & Hs2).
  { destruct (negb (bool_decide (catalogue = "")) || c1) eqn:Eor.
    - destruct (chain_next "catalogue" catalogue "digest" b1 l1 Hc1) as (l2 & c2 & -> & Hc2 & Ec2); [by apply key_in|done|].
      exists l2, c2. eexists. split; [done|]. split; [exact Hc2|]. split_and!.
      + apply keeps_set; [done|by apply key_in|done|by apply (bool_decide_unpack _)|done].
      + rewrite reads_set by (done || by apply key_in). by rewrite decide_False.
      + intros _. by rewrite reads_set, decide_True by (done || by apply key_in).
      + intros ->. by apply set_in_same.
    - exists l1, false, b1. apply orb_false_iff in Eor as [_ ->]. by split_and!. }
  destruct (c1 || c2) eqn:E.
  - destruct (stamp_chain b b2 l2 (below_build l2 p) Hc2 Hk2) as (b' & Hc' & Hk' & Hd' & Hcat' & Hat' & Hby'). eexists _, true, b'.
    split; [done|]. split_and!; [done|done| |done].
    split; [by rewrite Hd'|]. intros Hne. specialize (Hmv Hne). split_and!; [by rewrite Hcat', Hcat2|done|done].
  - apply orb_false_iff in E as [-> ->]. specialize (Hs1 eq_refl). specialize (Hs2 eq_refl). subst b2. exists l2, false, b1.
    split; [done|]. split_and!; [done|done| |done]. split; [done|]. intros Hne. by specialize (Hmv Hne).
Qed.

Lemma valid_build_case digest catalogue : valid_build digest catalogue = Ok tt ∨ ∃ e, valid_build digest catalogue = Err e ∧ errors_Is e "invalid name" = true.
Proof.
  unfold valid_build. destruct (if bool_decide (digest = "") then Ok tt else valid_digest digest) as [[]|e] eqn:E; cbn.
  - destruct (_ && _); [right; by eexists|by left].
  - right. exists e. split; [done|]. case_bool_decide; [done|]. unfold valid_digest in E. destruct (digestPattern digest); [done|]. by injection E as <-.
Qed.

(** Who has the app by default, stated or left. *)
Lemma grant_chain (defaultGrant : option bool) a b lines : chain 2 m p b lines → ∃ lines' stated b',
  match defaultGrant with
  | None => (lines, false)
  | Some _ => setAppEntryKey lines p appDefaultGrantKey (if default false defaultGrant then "true" else "") a
  end = (lines', stated)
  ∧ chain 2 m p b' lines' ∧ keeps_but [appDefaultGrantKey] b b'
  ∧ reads b' appDefaultGrantKey = match defaultGrant with None => reads b appDefaultGrantKey | Some g => grant_value g end
  ∧ (stated = false → b' = b).
Proof.
  intros Hc. pose proof (chain_ok _ _ Hc) as Hok. destruct defaultGrant as [g|]; [|exists lines, false, b; by split_and!].
  assert ((if g then "true" else "") = "" ∨ clean (if g then "true" else "") = true) as Hg by (destruct g; [by right|by left]).
  destruct (chain_next appDefaultGrantKey (if g then "true" else "") a b lines Hc) as (l & c & E & Hc' & Ech); [by apply key_in|done|].
  exists l, c. eexists. split; [exact E|]. split; [exact Hc'|]. split_and!.
  - apply keeps_set; [done|by apply key_in|done|left|apply keeps_refl].
  - by rewrite reads_set, decide_True by (done || by apply key_in).
  - intros ->. by apply set_in_same.
Qed.

Lemma keeps_both ks ks' b b1 b2 : keeps_but ks b b1 → keeps_but ks' b1 b2 → keeps_but (ks' ++ ks) b b2.
Proof.
  intros [H1 Ho1] [H2 Ho2]. split; [|congruence]. intros k Hk Hn. apply not_elem_of_app in Hn as [Hn' Hn]. rewrite H2, H1 by done. done.
Qed.

Lemma pinned_to_grant digest catalogue b b1 b2 : keeps_but [appDefaultGrantKey] b1 b2 → pinned_to digest catalogue meta b b1 →
  pinned_to digest catalogue meta b b2.
Proof.
  intros [Hk _] [Hd Hm]. split; [rewrite Hk; [done|by apply key_in|by apply (bool_decide_unpack _)]|]. intros Hne. destruct (Hm Hne) as (H1 & H2 & H3).
  rewrite !Hk by ((by apply key_in) || by apply (bool_decide_unpack _)). done.
Qed.

Lemma grant_not_build : appDefaultGrantKey ∉ build_keys.
Proof. by apply (bool_decide_unpack _). Qed.

Lemma install_refined digest catalogue defaultGrant : refined (ByInstall digest catalogue defaultGrant).
Proof.
  unfold refined. cbn [edit]. unfold InstallFrom. destruct (valid_name_case "profile" p) as [[-> Hp]|(e & -> & He)]; [|by left]. cbn [mbind result_bind].
  destruct (valid_build_case digest catalogue) as [Hbuild|(e & -> & He)]; [|by left]. rewrite Hbuild. cbn [mbind result_bind].
  destruct (build_clean _ _ Hbuild) as [Hd Hcat]. destruct (adoptsAnotherRealm (text_of 2 m) tenant) eqn:Ead; [by right; left|].
  rewrite (split_text 2 m Hwf). cbv zeta. pose proof (refuse_in (ByInstall digest catalogue defaultGrant) eq_refl) as Hr.
  destruct (refusePlaced _ p) as [[]|e]; [|done]. cbn [mbind result_bind]. rewrite (installed_in 2 m p Hwf).
  destruct (body_in m p) as [b|] eqn:Eb; cbn [negb].
  - pose proof (chain_start 2 m p Hwf b Eb) as Hc.
    assert (∃ l1 c1 b1, (if bool_decide (digest = "") then (lines_of 2 m, false) else move_pin (lines_of 2 m) p digest catalogue meta) = (l1, c1)
      ∧ chain 2 m p b1 l1 ∧ keeps_but build_keys b b1 ∧ (digest = "" → b1 = b) ∧ (digest ≠ "" → pinned_to digest catalogue meta b b1) ∧ (c1 = false → b1 = b))
      as (l1 & c1 & b1 & -> & Hc1 & Hk1 & Hs1 & Hp1 & He1).
    { case_bool_decide as Hdig; [exists (lines_of 2 m), false, b; by split_and!|]. destruct Hd as [?|Hd]; [done|].
      destruct (move_pin_chain digest catalogue b _ Hc Hd Hcat) as (l1 & c1 & b1 & -> & Hc1 & Hk & Hpin & Hs). exists l1, c1, b1. by split_and!. }
    destruct (grant_chain defaultGrant (below_build l1 p) b1 l1 Hc1) as (l2 & c2 & b2 & -> & Hc2 & Hk2 & Hg2 & He2).
    assert (meant (ByInstall digest catalogue defaultGrant) meta (Some b) (Some b2)) as Hmeant.
    { exists b2. split; [done|]. split_and!.
      - by apply Hr.
      - by apply (keeps_both build_keys [appDefaultGrantKey] b b1 b2).
      - intros Hdig k Hkk. specialize (Hs1 Hdig). subst b1. apply Hk2; [|intros ->%list_elem_of_singleton; by apply grant_not_build in Hkk].
        unfold build_keys in Hkk. repeat (apply elem_of_cons in Hkk as [->|Hkk]; [by apply key_in|]). by apply not_elem_of_nil in Hkk.
      - intros Hdig. eapply pinned_to_grant; [done|by apply Hp1].
      - rewrite Hg2. destruct defaultGrant; [done|]. apply Hk1; [by apply key_in|by apply (bool_decide_unpack _)]. }
    destruct (c1 || c2) eqn:Ech.
    + destruct (chain_done _ _ Hc2) as (m' & Ht & Hrw & Hb'). exists m'. rewrite Hb'. by split_and!.
    + apply orb_false_iff in Ech as [-> ->]. rewrite (He2 eq_refl), (He1 eq_refl) in Hmeant. exists m. rewrite Eb.
      do 3 (split; [first [done|by apply rewritten_refl]|]). done.
  - rewrite (insert_text m) by done. eexists. split; [done|]. split; [by apply rewritten_inserted|]. split; [done|].
    unfold body_in. cbn. rewrite decide_True by done. eexists. split; [done|].
    pose proof (fresh_value m digest catalogue (default false defaultGrant) Hwf Hd Hcat) as Hf. unfold reads, fresh_body in *.
    rewrite !Hf by by apply key_in. split_and!; done.
Qed.

Lemma place_absent digest catalogue defaultGrant : ValidName p = true → body_in m p = None →
  digest = "" ∨ clean digest = true → catalogue = "" ∨ clean catalogue = true → ∃ m',
  join (setAppEntryKey (split (insertComponentProfile (text_of 2 m) p digest catalogue defaultGrant) NL) p appPlacedKey "true" "").1 NL = text_of 2 m'
  ∧ rewritten m m' p ∧ meant (ByPlace digest catalogue defaultGrant) meta None (body_in m' p)
  ∧ body_in m' p = Some (set_in 4 appPlacedKey "true" "" (fresh_body m digest catalogue defaultGrant)).1.
Proof.
  intros Hp Hn Hd Hcat. rewrite (insert_text m) by done. pose proof (wf_inserted m digest catalogue defaultGrant Hwf Hd Hcat p Hp Hn) as Hwf1.
  pose proof (rewritten_inserted m p digest catalogue defaultGrant Hwf Hp Hn Hd Hcat) as Hrw1.
  pose proof (fresh_ok m digest catalogue defaultGrant Hwf Hd Hcat) as Hok. pose proof (fresh_value m digest catalogue defaultGrant Hwf Hd Hcat) as Hval.
  set (m1 := inserted m p (new_body digest catalogue defaultGrant)) in *. set (b := fresh_body m digest catalogue defaultGrant) in *.
  assert (body_in m1 p = Some b) as Hb. { unfold body_in. cbn. by rewrite decide_True. }
  rewrite (split_text 2 m1 Hwf1), (set_key_in 2 m1 p Hwf1 _ _ _ b Hb). cbn [fst]. exists (with_body m1 p (set_in 4 appPlacedKey "true" "" b).1).
  assert (body_ok 4 (set_in 4 appPlacedKey "true" "" b).1) as Hok'. { apply set_in_ok; [done|by apply key_in|by right]. }
  split; [done|]. split; [eapply rewritten_trans; [done|by apply rewritten_body]|].
  rewrite body_in_with_body, decide_True, Hb by done. split; [|done]. eexists. split; [done|]. unfold placed.
  rewrite !(reads_set appPlacedKey) by (done || (by right) || (by apply key_in)). unfold reads. rewrite !Hval by (by apply key_in).
  split_and!; repeat ((rewrite decide_False by discriminate) || (rewrite decide_True by reflexivity)); reflexivity.
Qed.

(** The pin of a placed entry. *)
Lemma repin_chain digest catalogue b lines : chain 2 m p b lines → digest = "" ∨ clean digest = true → catalogue = "" ∨ clean catalogue = true →
  ∃ lines' moved b',
  (if negb (bool_decide (digest = "")) && negb (bool_decide (appEntryValue lines p "digest" = digest)) then
     let lines := (setAppEntryKey lines p "digest" digest appPlacedKey).1 in
     let lines := (setAppEntryKey lines p "catalogue" catalogue "digest").1 in
     let lines := (setAppEntryKey lines p appMovedAtKey (me_moved_at meta) "catalogue").1 in
     ((setAppEntryKey lines p appMovedByKey (me_mover meta) appMovedAtKey).1, true)
   else (lines, false)) = (lines', moved)
  ∧ chain 2 m p b' lines' ∧ keeps_but build_keys b b' ∧ (digest = "" ∨ reads b "digest" = digest → b' = b)
  ∧ (digest ≠ "" → pinned_to digest catalogue meta b b') ∧ (moved = false → b' = b).
Proof.
  intros Hc Hd Hcat. rewrite (chain_value 2 m p Hwf "digest" b lines Hc). change (value_in (2 + 2) "digest" b) with (reads b "digest").
  pose proof (chain_ok _ _ Hc) as Hok. destruct (decide (digest = "" ∨ reads b "digest" = digest)) as [Hsame|Hdiff].
  - exists lines, false, b. split.
    { destruct Hsame as [->|Heq]; [done|]. rewrite (bool_decide_eq_true_2 (reads b "digest" = digest)) by done. by rewrite andb_false_r. }
    split_and!; [done|apply keeps_refl|done| |done]. intros Hne. destruct Hsame as [?|Heq]; [done|]. split; [done|]. intros Hn. by destruct Hn.
  - assert (digest ≠ "" ∧ reads b "digest" ≠ digest) as [Hne Hdiff'] by tauto. rewrite !bool_decide_eq_false_2 by done. cbn [negb andb]. destruct Hd as [?|Hd]; [done|].
    destruct (chain_next "digest" digest appPlacedKey b lines Hc) as (l1 & c1 & -> & Hc1 & _); [by apply key_in|by right|]. cbv zeta. cbn [fst].
    destruct (chain_next "catalogue" catalogue "digest" _ l1 Hc1) as (l2 & c2 & -> & Hc2 & _); [by apply key_in|done|]. cbn [fst].
    pose proof (chain_ok _ _ Hc1) as Hok1. destruct (stamp_chain b _ l2 "catalogue" Hc2) as (b' & Hc' & Hk' & Hd' & Hcat' & Hat' & Hby').
    { apply keeps_set; [done|by apply key_in|done|by apply (bool_decide_unpack _)|].
      apply keeps_set; [done|by apply key_in|by right|by apply (bool_decide_unpack _)|apply keeps_refl]. }
    eexists _, true, b'. split; [done|]. split_and!; [done|done|by intros [?|?]| |done]. intros _. split.
    + rewrite Hd'. rewrite (reads_set "catalogue") by (done || by apply key_in). rewrite decide_False by discriminate.
      by rewrite reads_set, decide_True by (done || (by right) || (by apply key_in)).
    + intros _. split_and!; [|done|done]. rewrite Hcat'. by rewrite (reads_set "catalogue"), decide_True by (done || by apply key_in).
Qed.

Lemma regrant_chain defaultGrant b lines : chain 2 m p b lines → ∃ lines' granted b',
  (if defaultGrant && negb (bool_decide (appEntryValue lines p appDefaultGrantKey = "true"))
   then ((setAppEntryKey lines p appDefaultGrantKey "true" appPlacedKey).1, true) else (lines, false)) = (lines', granted)
  ∧ chain 2 m p b' lines' ∧ keeps_but [appDefaultGrantKey] b b'
  ∧ reads b' appDefaultGrantKey = (if defaultGrant then "true" else reads b appDefaultGrantKey) ∧ (granted = false → b' = b).
Proof.
  intros Hc. rewrite (chain_value 2 m p Hwf appDefaultGrantKey b lines Hc). change (value_in (2 + 2) appDefaultGrantKey b) with (reads b appDefaultGrantKey).
  destruct (defaultGrant && negb _) eqn:Eg.
  - destruct (chain_next appDefaultGrantKey "true" appPlacedKey b lines Hc) as (l3 & c3 & -> & Hc3 & _); [by apply key_in|by right|]. cbn [fst].
    pose proof (chain_ok _ _ Hc) as Hok. eexists _, true, _. split; [done|]. split; [exact Hc3|]. split_and!; [| |done].
    + apply keeps_set; [done|by apply key_in|by right|left|apply keeps_refl].
    + apply andb_true_iff in Eg as [-> _]. by rewrite reads_set, decide_True by (done || (by right) || (by apply key_in)).
  - exists lines, false, b. split; [done|]. split_and!; [done|apply keeps_refl| |done]. destruct defaultGrant; [|done]. cbn in Eg.
    by apply negb_false_iff, bool_decide_eq_true in Eg.
Qed.

Lemma keeps_build ks b b' : keeps_but ks b b' → Forall (λ k, k ∉ ks) build_keys → ∀ k, k ∈ build_keys → reads b' k = reads b k.
Proof.
  intros Hk Hf k Hin. pose proof (proj1 (Forall_forall _ _) Hf k Hin) as Hn. apply Hk; [|done]. unfold build_keys in Hin.
  repeat (apply elem_of_cons in Hin as [->|Hin]; [by apply key_in|]). by apply not_elem_of_nil in Hin.
Qed.

Lemma place_refined digest catalogue defaultGrant : refined (ByPlace digest catalogue defaultGrant).
Proof.
  unfold refined. cbn [edit]. unfold Place. destruct (valid_name_case "profile" p) as [[-> Hp]|(e & -> & He)]; [|by left]. cbn [mbind result_bind].
  destruct (valid_build_case digest catalogue) as [Hbuild|(e & -> & He)]; [|by left]. rewrite Hbuild. cbn [mbind result_bind].
  destruct (build_clean _ _ Hbuild) as [Hd Hcat]. unfold placeEntry. rewrite (split_text 2 m Hwf). cbv zeta. rewrite (installed_in 2 m p Hwf).
  destruct (body_in m p) as [b|] eqn:Eb; cbn [negb].
  2:{ destruct (place_absent digest catalogue defaultGrant Hp Eb Hd Hcat) as (m' & Ht & Hrw & Hm & _). exists m'. by split_and!. }
  pose proof (chain_start 2 m p Hwf b Eb) as Hc. pose proof (chain_ok _ _ Hc) as Hok.
  destruct (chain_next appPlacedKey "true" "" b _ Hc) as (l1 & c1 & -> & Hc1 & Ec1); [by apply key_in|by right|].
  assert (keeps_but [appPlacedKey] b (set_in 4 appPlacedKey "true" "" b).1) as Hk1.
  { apply keeps_set; [done|by apply key_in|by right|left|apply keeps_refl]. }
  assert (placed (set_in 4 appPlacedKey "true" "" b).1) as Hpl1.
  { unfold placed. by rewrite reads_set, decide_True by (done || (by right) || (by apply key_in)). }
  assert (c1 = false → (set_in 4 appPlacedKey "true" "" b).1 = b) as Hs1. { intros ->. by apply set_in_same. }
  set (b1 := (set_in 4 appPlacedKey "true" "" b).1) in *. clearbody b1.
  destruct (repin_chain digest catalogue b1 l1 Hc1 Hd Hcat) as (l2 & c2 & b2 & Hrep & Hc2 & Hk2 & Hsame & Hpin & Hs2).
  cbv zeta in Hrep. rewrite Hrep.
  destruct (regrant_chain defaultGrant b2 l2 Hc2) as (l3 & c3 & b3 & -> & Hc3 & Hk3 & Hg3 & Hs3).
  assert (keeps_but (appDefaultGrantKey :: build_keys ++ [appPlacedKey]) b b3) as Hk.
  { apply (keeps_both (build_keys ++ [appPlacedKey]) [appDefaultGrantKey] b b2 b3); [|done]. by apply (keeps_both [appPlacedKey] build_keys b b1 b2). }
  assert (∀ k, k ∈ build_keys → reads b1 k = reads b k) as Hb1 
    by (apply (keeps_build [appPlacedKey]); [done|by apply (bool_decide_unpack _)]).
  assert (∀ k, k ∈ build_keys → reads b3 k = reads b2 k) as Hb3 
    by (apply (keeps_build [appDefaultGrantKey]); [done|by apply (bool_decide_unpack _)]).
  assert ("digest" ∈ build_keys) as Hdk by left.
  assert (meant (ByPlace digest catalogue defaultGrant) meta (Some b) (Some b3)) as Hmeant.
  { exists b3. split; [done|]. split; [|split_and!].
    - unfold placed. rewrite (proj1 Hk3), (proj1 Hk2) by ((by apply key_in) || by apply (bool_decide_unpack _)). done.
    - split; [|apply Hk]. intros k Hkm Hn. apply Hk; [done|]. intros Hin. apply Hn. revert Hin. clear. unfold build_keys. cbn. set_solver.
    - intros Hs k Hkk. rewrite Hb3 by done. rewrite Hsame; [by apply Hb1|]. by rewrite Hb1.
    - intros Hne. destruct (Hpin Hne) as [Hp1 Hp2]. eapply pinned_to_grant; [exact Hk3|]. split; [done|]. by rewrite <-(Hb1 "digest").
    - rewrite Hg3. destruct defaultGrant; [done|]. rewrite (proj1 Hk2), (proj1 Hk1) by ((by apply key_in) || by apply (bool_decide_unpack _)). done. }
  destruct (c1 || c2 || c3) eqn:Ech.
  - destruct (chain_done _ _ Hc3) as (m' & Ht & Hrw & Hb'). exists m'. rewrite Hb'. by split_and!.
  - rewrite !orb_false_iff in Ech. destruct Ech as [[-> ->] ->]. rewrite (Hs3 eq_refl), (Hs2 eq_refl), (Hs1 eq_refl) in Hmeant. exists m. rewrite Eb.
    do 3 (split; [first [done|by apply rewritten_refl]|]). done.
Qed.

Lemma addons_valid_case addons pins (grants : gmap string bool) :
  (fold_result (λ _ ad, valid_addon ad) tt addons = Ok tt
   ∧ (∃ stated, fold_result (state_pin addons) ∅ pins = Ok stated)
   ∧ fold_result (λ _ name, valid_grant addons name) tt (map_to_list grants).*1 = Ok tt)
  ∨ ∃ e, (_ ← fold_result (λ _ ad, valid_addon ad) tt addons; _ ← fold_result (state_pin addons) ∅ pins;
          fold_result (λ _ name, valid_grant addons name) tt (map_to_list grants).*1) = Err e ∧ errors_Is e "invalid name" = true.
Proof.
  destruct (fold_result (λ _ ad, valid_addon ad) tt addons) as [[]|e] eqn:Ea; cbn [mbind result_bind].
  2:{ right. exists e. split; [done|]. apply fold_result_Err in Ea as ([] & a & Ha). unfold valid_addon in Ha. destruct (validAddon a); by simplify_eq/=. }
  destruct (fold_result (state_pin addons) ∅ pins) as [st|e] eqn:Ep; cbn [mbind result_bind].
  2:{ right. exists e. split; [done|]. apply fold_result_Err in Ep as (st & a & Ha). by eapply state_pin_Err. }
  destruct (fold_result (λ _ name, valid_grant addons name) tt (map_to_list grants).*1) as [[]|e] eqn:Eg; [left; eauto|].
  right. exists e. split; [done|]. apply fold_result_Err in Eg as ([] & a & Ha). unfold valid_grant in Ha. destruct (bool_decide _); by simplify_eq/=.
Qed.

Lemma rewriteAddons_in addons pins grants : rewriteAddons (text_of 2 m) p addons pins grants =
  match body_in m p with
  | Some b => Some (text_of 2 (with_body m p (kept_lines 4 false b ++ addons_block 4 addons pins grants)))
  | None => None
  end.
Proof.
  unfold rewriteAddons. rewrite (split_text 2 m Hwf). cbv zeta. destruct (body_in m p) as [b|] eqn:Eb.
  - destruct (extent_in 2 m p Hwf b Eb) as (a & c & Hl & Hb & _ & -> & Hbody & Hrest & _). cbn [mbind option_bind].
    rewrite Hbody, Hrest. unfold text_of. rewrite Hb, Hl, take_middle, <-app_assoc. cbn [app]. by rewrite <-!app_assoc.
  - by rewrite extent_absent by (done || by apply body_in_None).
Qed.

Lemma same_text_same_body b b' : body_in m p = Some b → body_ok 4 b' → text_of 2 (with_body m p b') = text_of 2 m → b' = b.
Proof.
  intros Hb Hok Ht. apply text_of_inj in Ht; [|by apply wf_with_body|done]. destruct (extent_in 2 m p Hwf b Hb) as (a & c & Hl & Hb' & _).
  rewrite Hb', Hl in Ht. apply app_inv_head in Ht. injection Ht as Ht. by apply app_inv_tail in Ht.
Qed.

Lemma addons_refined addons pins grants :
  (∀ apps, yaml_apps (text_of 2 m) = Ok apps → Forall (λ app, Forall pin_fits (app_pins app)) apps) → refined (ByAddons addons pins grants).
Proof.
  intros Hfit. unfold refined. cbn [edit]. unfold SetAddonsPinned. destruct (valid_name_case "profile" p) as [[-> Hp]|(e & -> & He)]; [|by left].
  cbn [mbind result_bind]. destruct (addons_valid_case addons pins grants) as [(Ha & [stated Hs] & Hg)|(e & Hbad & He)].
  2:{ destruct (fold_result (λ _ ad, valid_addon ad) tt addons) as [[]|]; cbn [mbind result_bind] in Hbad |- *; [|left; congruence].
      destruct (fold_result (state_pin addons) ∅ pins); cbn [mbind result_bind] in Hbad |- *; [|left; congruence].
      rewrite Hbad. by left. }
  rewrite Ha, Hs. cbn [mbind result_bind]. rewrite Hg. cbn [mbind result_bind].
  destruct (adoptsAnotherRealm (text_of 2 m) tenant) eqn:Ead; [by right; left|].
  rewrite (split_text 2 m Hwf). pose proof (refuse_in (ByAddons addons pins grants) eq_refl) as Hr.
  destruct (refusePlaced _ p) as [[]|e]; [|done]. cbn [mbind result_bind].
  destruct (addonsOf (text_of 2 m) p) as [[had everyone]|e] eqn:Eh; cbn [mbind result_bind].
  2:{ do 5 right. unfold addonsOf in Eh. destruct (yaml_apps (text_of 2 m)) as [|e']; [done|by exists e']. }
  pose proof (had_fits _ _ _ _ Eh Hfit) as Hhad. destruct (stated_spec _ _ _ Hs) as [Hst1 Hst2]. rewrite rewriteAddons_in.
  destruct (body_in m p) as [b|] eqn:Eb; [|exists m; rewrite Eb; split_and!; [done|by apply rewritten_refl|done..]].
  pose proof (chain_ok _ _ (chain_start 2 m p Hwf b Eb)) as Hok.
  set (pins' := final_pins stated had addons). set (grants' := final_grants grants everyone addons).
  assert (Forall fine (addons_block 4 addons pins' grants')) as Hfine.
  { apply addons_checked in Ha. apply block_fine; [done| |].
    - apply Forall_forall. intros pin Hpin. by eapply final_pins_spec.
    - apply Forall_forall. intros g (Hn & _)%final_grants_spec. apply addon_no_newline. by eapply (proj1 (Forall_forall _ _) Ha). }
  pose proof (block_ok b _ Hok Hfine) as Hok'.
  assert (meant (ByAddons addons pins grants) meta (Some b) (Some (kept_lines 4 false b ++ addons_block 4 addons pins' grants'))) as Hmeant.
  { split; [by apply Hr|]. exists pins', grants'. split; [done|]. split_and!.
    - intros k Hk. by apply block_value.
    - intros pin Hpin. eapply final_pins_stated; [done|]. by apply Hst1.
    - apply Forall_forall. intros pin Hpin. by eapply final_pins_spec.
    - intros n Hn. apply final_grants_stated; [|done]. apply grants_checked in Hg. eapply Forall_forall in Hg; [exact Hg|].
      apply list_elem_of_fmap. exists (n, true). split; [done|]. by apply elem_of_map_to_list.
    - apply Forall_forall. intros g (? & _ & ?)%final_grants_spec. done. }
  case_bool_decide as Hsame.
  - apply (same_text_same_body b) in Hsame; [|done..]. rewrite Hsame in Hmeant. exists m. rewrite Eb. do 3 (split; [first [done|by apply rewritten_refl]|]). exact Hmeant.
  - eexists. split; [done|]. split; [by apply rewritten_body|]. split; [done|]. rewrite body_in_with_body, decide_True, Eb by done. exact Hmeant.
Qed.
End Writes.

(** ** Every write is the edit it is meant to be *)

(** The pins the YAML of a text says are one line each, as the director writes them. *)
Definition pins_fit `{Yaml} (text : string) : Prop :=
  ∀ apps, yaml_apps text = Ok apps → Forall (λ app, Forall pin_fits (app_pins app)) apps.

Lemma write_refined `{Yaml} tenant p meta w m : wf 2 m → clean (me_moved_at meta) = true → clean (me_mover meta) = true →
  pins_fit (text_of 2 m) → refined tenant p meta m w.
Proof.
  intros Hwf Hat Hby Hfit. destruct w; eauto using install_refined, uninstall_refined, retry_refined, update_mode_refined, addons_refined,
    place_refined, unplace_refined.
Qed.

(** C17: A write of the app list of a well-formed manifest, whichever it is, is refused for a
    reason the manifest shows, or leaves the text of a well-formed manifest in which the
    named entry is what the write means it to be, with its other keys and its other lines
    as they were, every other entry is line for line and in order what it was, and so is
    all that stands before and after the list; a write that says it changed nothing
    changed nothing. *)
Theorem edits_refine `{Yaml} tenant p meta w m : wf 2 m → clean (me_moved_at meta) = true → clean (me_mover meta) = true →
  pins_fit (text_of 2 m) →
  match edit tenant p meta w (text_of 2 m) with
  | Err e => refusal tenant p m w e
  | Ok (text', status, changed) => ∃ m', text' = text_of 2 m' ∧ rewritten m m' p ∧ (changed = false → m' = m)
      ∧ meant w meta (body_in m p) (body_in m' p)
  end.
Proof. apply write_refined. Qed.

(** A write by hand that went through. *)
Definition written_by_hand `{Yaml} (text text' : string) : Prop :=
  ∃ tenant p meta w status changed, by_hand w = true ∧ clean (me_moved_at meta) = true ∧ clean (me_mover meta) = true
    ∧ pins_fit text ∧ edit tenant p meta w text = Ok (text', status, changed).

Lemma rewritten_body_in m m' p q : rewritten m m' p → q ≠ p → body_in m' q = body_in m q.
Proof.
  intros [_ _ _ Ho] Hq. unfold body_in. enough (∀ l, body_among q l = body_among q (filter (λ e, en_profile e ≠ p) l)) as Hf by (by rewrite Hf, (Hf (mf_apps m)), Ho).
  intros l. induction l as [|e l IH]; [done|]. cbn [body_among]. destruct (decide (en_profile e = p)) as [He|He].
  - rewrite filter_cons_False by (intros Hn; by apply Hn). rewrite decide_False by congruence. done.
  - rewrite filter_cons_True by done. cbn [body_among]. by destruct (decide _).
Qed.

Lemma meant_by_hand w meta o o' : by_hand w = true → meant w meta o o' → ∀ b, o = Some b → placed b → o' = o.
Proof. intros Hw Hm b -> Hp. destruct w; try discriminate Hw; cbn in Hm; naive_solver. Qed.

(** The line the platform marks an entry of its own with. *)
Definition placed_line : string := "    placed: true".

Lemma marked_is_placed m q b : wf 2 m → body_in m q = Some b → placed_line ∈ b → placed b.
Proof.
  intros Hwf Hb Hin. destruct (body_in_Some m q b (wf_once _ _ Hwf) Hb) as (pre & post & Happs & _).
  pose proof (wf_apps _ _ Hwf) as He. rewrite Happs in He. apply Forall_app in He as [_ He]. apply Forall_cons in He as [He _].
  assert (appPlacedKey ∈ managed) as Hk by (by apply (bool_decide_unpack _)).
  pose proof (ew_once _ _ He appPlacedKey Hk) as Hone. cbn [en_body] in Hone. change (2 + 2) with 4 in Hone.
  assert (placed_line ∈ filter (λ l, has 4 appPlacedKey l = true) b) as Hf by (by apply list_elem_of_filter).
  unfold placed, reads. rewrite value_in_filter. destruct (filter _ b) as [|l [|l' ls]]; [by apply not_elem_of_nil in Hf| |cbn in Hone; lia].
  apply list_elem_of_singleton in Hf. by subst l.
Qed.

(** C18: Whatever is done by hand, in whatever order and by whomever, to the app list of a
    manifest whose list is two columns in and has each app once, an entry marked as the
    platform's, with the line [    placed: true] and nothing behind it, stays, line for line,
    what it was: installing over it, uninstalling it, moving its pin, setting how it is
    updated and giving it add-ons are all refused, and no change of another entry reaches it
    (the stamps of the writes being values of one line, and the pins of add-ons that the YAML
    of the text says being one line each, as the director writes them).  So does an entry
    whose mark the code reads as [true] however it is written.  (It is not so where the list
    is four columns in, [deeper_list_is_swallowed], nor where a comment stands behind the
    mark, [commented_mark_is_not_heeded].) *)
Theorem placed_by_the_platform_only `{Yaml} m text' : wf 2 m → rtc written_by_hand (text_of 2 m) text' →
  ∃ m', wf 2 m' ∧ text' = text_of 2 m' ∧ ∀ q b, body_in m q = Some b → placed_line ∈ b ∨ placed b → body_in m' q = Some b.
Proof.
  intros Hwf0 Hrun. assert (∃ m', wf 2 m' ∧ text' = text_of 2 m' ∧ ∀ q b, body_in m q = Some b → placed b → body_in m' q = Some b) as (m' & Hwf' & -> & Hkeep0).
  2: { exists m'. split_and!; [done..|]. intros q b Hb Hp. apply Hkeep0; [done|]. destruct Hp; [by apply (marked_is_placed m q)|done]. }
  remember (text_of 2 m) as text eqn:Ht. revert m Hwf0 Ht.
  induction Hrun as [text|text mid text' (tenant & p & meta & w & status & changed & Hw & Hat & Hby & Hfit & He) _ IH]; intros m Hwf ->; [by exists m|].
  pose proof (write_refined tenant p meta w m Hwf Hat Hby Hfit) as Hr. unfold refined in Hr. rewrite He in Hr. destruct Hr as (m1 & -> & Hrw & _ & Hm).
  destruct (IH m1 (rw_wf _ _ _ Hrw) eq_refl) as (m' & Hwf' & -> & Hkeep). exists m'. split_and!; [done..|]. intros q b Hb Hp.
  apply Hkeep; [|done]. destruct (decide (q = p)) as [->|Hq]; [|by rewrite (rewritten_body_in _ _ _ _ Hrw Hq)].
  by rewrite (meant_by_hand w meta _ _ Hw Hm b Hb Hp).
Qed.

(** An entry marked as the platform's with a comment behind the mark is uninstalled by hand:
    the comment is read with the mark. *)
Theorem commented_mark_is_not_heeded p comment m pre post :
  wf 2 m → clean comment = true → body_in m p = Some (pre ++ (placed_line +:+ " # " +:+ comment) :: post) →
  Forall (λ l, has 4 appPlacedKey l = false) pre →
  Uninstall p (text_of 2 m) = Ok (text_of 2 (without m p), "uninstalled", true).
Proof.
  intros Hwf Hcl Hb Hpre. assert (ValidName p = true) as Hp by (by destruct (extent_in 2 m p Hwf _ Hb) as (? & ? & _ & _ & _ & _ & _ & _ & _ & ?)).
  assert (¬ placed (pre ++ (placed_line +:+ " # " +:+ comment) :: post)) as Hnp.
  { unfold placed, reads, value_in. change (placed_line +:+ " # " +:+ comment) with (key_line 4 appPlacedKey ("true" +:+ " # " +:+ comment)).
    assert (clean ("true" +:+ " # " +:+ comment) = true) as Hclean by (apply clean_app; done).
    rewrite find_first; [rewrite value_of_key_line; [|by apply (bool_decide_unpack _)|done]| |].
    - intros E. apply (f_equal String.length) in E. rewrite !app_length_str in E. cbn in E. lia.
    - eapply Forall_impl; [exact Hpre|]. cbn. by intros l ->.
    - apply has_key_line; [by apply (bool_decide_unpack _)|by apply clean_tidy]. }
  unfold Uninstall, valid_name. rewrite Hp. cbn [mbind result_bind]. rewrite (split_text 2 m Hwf). unfold refusePlaced.
  rewrite (value_of_key 2 m p Hwf), Hb. change (2 + 2) with 4. rewrite (bool_decide_eq_false_2 (_ = "true")) by exact Hnp. cbn [mbind result_bind].
  rewrite (remove_in 2 m p Hwf), Hb. by rewrite bool_decide_eq_false_2 by (by eapply without_differs).
Qed.

(** ** A list that is indented further *)

Section Deeper.
Context (m : manifest) (p digest catalogue : string) (defaultGrant : bool).
Context (Hwf : wf 4 m) (Hend : match mf_tail m with [] => True | l :: _ => owned_line 4 l = false end).
Context (Hp : ValidName p = true) (Hd : digest = "" ∨ clean digest = true) (Hc : catalogue = "" ∨ clean catalogue = true).

(** What the new entry then takes for its own: its keys, and every entry of the list. *)
Definition swallowed : list string := fresh_body m digest catalogue defaultGrant ++ (mf_apps m ≫= entry_lines 4).
Definition around : list string := mf_head m ++ ["  apps:"].

Lemma emptied_wf : wf 2 (with_apps m []).
Proof. constructor; [apply Hwf|apply Hwf|constructor|constructor|apply Hwf|exact Hend]. Qed.

Lemma deeper_line l : owned_line 6 l = true → owned_line 4 l = true ∧ has 4 appPlacedKey l = false.
Proof.
  unfold owned_line. rewrite !orb_true_iff, !bool_decide_eq_true. intros Hl. split; [intuition lia|]. apply not_true_is_false. destruct Hl as [Hb|Hi].
  - apply blank_no_key; [by apply (bool_decide_unpack _)|done].
  - unfold has. rewrite andb_true_iff, bool_decide_eq_true. lia.
Qed.

Lemma entries_swallowed : Forall (λ l, owned_line 4 l = true ∧ has 4 appPlacedKey l = false) (mf_apps m ≫= entry_lines 4).
Proof.
  apply Forall_bind. eapply Forall_impl; [apply Hwf|]. intros e He. constructor.
  - split; [by apply owned_indent|]. apply not_true_is_false. by intros [? _]%has_first.
  - eapply Forall_impl; [apply (ew_owned _ _ He)|]. intros l. apply deeper_line.
Qed.

Lemma swallowed_owned : Forall (λ l, owned_line 4 l = true) swallowed.
Proof.
  apply Forall_app. split.
  - apply (bo_owned 4 (fresh_body m digest catalogue defaultGrant)), (fresh_ok (with_apps m []) digest catalogue defaultGrant emptied_wf Hd Hc).
  - eapply Forall_impl; [apply entries_swallowed|]. by intros l [].
Qed.

Lemma swallowed_not_placed : value_in 4 appPlacedKey swallowed = "".
Proof.
  rewrite value_in_filter. unfold swallowed. rewrite filter_app.
  change (fresh_body m digest catalogue defaultGrant) with (fresh_body (with_apps m []) digest catalogue defaultGrant).
  rewrite (fresh_filter _ _ _ _ emptied_wf Hd Hc) by (by apply (bool_decide_unpack _)). rewrite filter_none; [done|].
  eapply Forall_impl; [apply entries_swallowed|]. intros l [_ ->]. done.
Qed.

Lemma deeper_insert : insertComponentProfile (text_of 4 m) p digest catalogue defaultGrant = join (around ++ item_line 2 p :: swallowed ++ mf_tail m) NL.
Proof.
  rewrite (insert_lines 4) by done. f_equal. unfold around, swallowed, fresh_body. by repeat (rewrite <-app_assoc; cbn [app]).
Qed.

Lemma deeper_no_newline : Forall (λ l, contains_byte l NL = false) (around ++ item_line 2 p :: swallowed ++ mf_tail m).
Proof.
  assert (∀ l : list string, Forall plain_line l → Forall (λ l, contains_byte l NL = false) l) as Hplain.
  { intros l Hl. eapply Forall_impl; [exact Hl|]. by intros s []. }
  apply Forall_app. split; [apply Forall_app; split; [|by repeat constructor]|constructor].
  - eapply Forall_impl; [apply Hwf|]. by intros l [[] _].
  - unfold item_line. rewrite !contains_byte_app, (name_no_newline p Hp). done.
  - unfold swallowed. rewrite !Forall_app. split_and!; [| |apply Hplain, Hwf].
    + apply Hplain, (bo_plain 4), (fresh_ok (with_apps m []) digest catalogue defaultGrant emptied_wf Hd Hc).
    + apply (NL_free_apps 4), Hwf.
Qed.

Lemma around_not_item : Forall (λ l, is_item p l = false) around.
Proof.
  apply Forall_app. split; [|by repeat constructor]. eapply Forall_impl; [apply Hwf|]. intros l [Hl _]. by apply plain_not_item.
Qed.

Lemma uninstall_swallowed : Uninstall p (join (around ++ item_line 2 p :: swallowed ++ mf_tail m) NL)
  = Ok (text_of 4 (mkManifest (mf_head m) [] [] (mf_tail m)), "uninstalled", true).
Proof.
  pose proof (extent_at 2 p around swallowed (mf_tail m) Hp around_not_item swallowed_owned Hend) as Hext.
  assert (split (join (around ++ item_line 2 p :: swallowed ++ mf_tail m) NL) NL = around ++ item_line 2 p :: swallowed ++ mf_tail m) as Hsplit.
  { apply split_join; [|apply deeper_no_newline]. by destruct around. }
  unfold Uninstall, valid_name. rewrite Hp. cbn [mbind result_bind]. rewrite Hsplit. unfold refusePlaced, appEntryValue. rewrite Hext.
  assert (body_of (around ++ item_line 2 p :: swallowed ++ mf_tail m) (length around) (S (length around) + length swallowed) = swallowed) as ->.
  { unfold body_of. rewrite drop_middle. replace (_ - _) with (length swallowed) by lia. by rewrite take_app_length. }
  change (2 + 2) with 4. rewrite swallowed_not_placed. cbn [mbind result_bind bool_decide]. unfold removeAppEntry. rewrite Hsplit. cbv zeta. rewrite Hext.
  cbn [mbind option_bind]. rewrite take_app_length, <-drop_drop, drop_middle, drop_app_length.
  assert (text_of 4 (mkManifest (mf_head m) [] [] (mf_tail m)) = join (around ++ mf_tail m) NL) as ->.
  { unfold text_of, lines_of, around. cbn. by rewrite <-app_assoc. }
  rewrite bool_decide_eq_false_2; [done|]. intros E. apply (f_equal (λ t, length (split t NL))) in E. rewrite Hsplit, split_join in E.
  - rewrite !length_app in E. cbn in E. rewrite length_app in E. lia.
  - unfold around. by destruct (mf_head m).
  - pose proof deeper_no_newline as Hn. rewrite !Forall_app in Hn. apply Forall_app. split; [apply Hn|]. destruct Hn as [_ Hn].
    apply Forall_cons in Hn as [_ Hn]. by apply Forall_app in Hn as [_ Hn].
Qed.
End Deeper.

(** In a list indented as the documentation shows it, with its dashes four in, a new
    entry is written with its dash two in and takes every entry below it for its own
    lines: uninstalling the app again removes the whole list, the entries the platform
    placed among them. *)
Theorem deeper_list_is_swallowed `{Yaml} tenant p digest catalogue defaultGrant meta m text' :
  wf 4 m → match mf_tail m with [] => True | l :: _ => owned_line 4 l = false end → body_in m p = None →
  edit tenant p meta (ByInstall digest catalogue defaultGrant) (text_of 4 m) = Ok (text', "installed", true) →
  edit tenant p meta ByUninstall text' = Ok (text_of 4 (mkManifest (mf_head m) [] [] (mf_tail m)), "uninstalled", true).
Proof.
  intros Hwf Hend Hn. cbn [edit]. unfold InstallFrom. destruct (valid_name_case "profile" p) as [[-> Hp]|(e & -> & _)]; [|done]. cbn [mbind result_bind].
  destruct (valid_build digest catalogue) as [[]|] eqn:Hbuild; [|done]. cbn [mbind result_bind]. destruct (build_clean _ _ Hbuild) as [Hd Hc].
  destruct (adoptsAnotherRealm _ _); [done|]. destruct (refusePlaced _ p) as [[]|]; [|done]. cbn [mbind result_bind].
  rewrite (split_text 4 m Hwf), (installed_in 4 m p Hwf), Hn. cbn [negb]. intros [= <-]. rewrite deeper_insert by done. by apply uninstall_swallowed.
Qed.

(** A pin with a comment behind it, as the documentation writes one, is read with the
    comment, so trying again the move to the very build the entry is pinned to is refused:
    the entry is said to be pinned to something else. *)
Theorem commented_pin_is_not_read p digest comment meta m pre post :
  wf 2 m → digestPattern digest = true → clean comment = true →
  body_in m p = Some (pre ++ (key_line 4 "digest" digest +:+ " # " +:+ comment) :: post) → Forall (λ l, has 4 "digest" l = false) pre →
  ¬ placed (pre ++ (key_line 4 "digest" digest +:+ " # " +:+ comment) :: post) →
  RetryMove p digest meta (text_of 2 m)
  = Err (Wrapf "%w: %s is pinned to %q, not %s" [p; digest +:+ " # " +:+ comment; shortDigest digest] ErrNotPinnedThere).
Proof.
  intros Hwf Hdig Hcl Hb Hpre Hnp. assert (ValidName p = true) as Hp by (by destruct (extent_in 2 m p Hwf _ Hb) as (? & ? & _ & _ & _ & _ & _ & _ & _ & ?)).
  unfold RetryMove, valid_name, valid_digest. rewrite Hp, Hdig. cbn [mbind result_bind]. rewrite (split_text 2 m Hwf). cbv zeta.
  rewrite (installed_in 2 m p Hwf), Hb. cbn [negb]. unfold refusePlaced. rewrite !(value_of_key 2 m p Hwf), Hb.
  rewrite (bool_decide_eq_false_2 (_ = "true")) by exact Hnp. cbn [mbind result_bind]. change (2 + 2) with 4.
  assert (key_line 4 "digest" digest +:+ " # " +:+ comment = key_line 4 "digest" (digest +:+ " # " +:+ comment)) as Hline.
  { unfold key_line. by rewrite !app_assoc_str. }
  assert (clean (digest +:+ " # " +:+ comment) = true) as Hclean by (apply clean_app; [by apply digest_clean|done]).
  assert (value_in 4 "digest" (pre ++ (key_line 4 "digest" digest +:+ " # " +:+ comment) :: post) = digest +:+ " # " +:+ comment) as ->.
  { unfold value_in. rewrite Hline. rewrite find_first; [apply value_of_key_line; [by apply (bool_decide_unpack _)|done]| |].
    - eapply Forall_impl; [exact Hpre|]. cbn. by intros l ->.
    - apply has_key_line; [by apply (bool_decide_unpack _)|by apply clean_tidy]. }
  rewrite bool_decide_eq_false_2; [done|]. intros E. apply (f_equal String.length) in E. rewrite !app_length_str in E. cbn in E. lia.
Qed.

(** ** An example *)

Module EditsExample.

(** A decoder that finds no realm and no apps in any text. *)
Definition ex_yaml : Yaml := {| yaml_realm := λ _, Ok ""; yaml_apps := λ _, Ok [] |}.
Definition ex_digest : string := "sha256:0123456789abcdef0123456789abcdef0123456789abcdef0123456789abcdef".
Definition ex_meta : Meta := mkMeta (mkPerson "Ada" "ada@example.org") "f3a1" "req-7" "app_admin tenant:acme" "" "" ""
  "2026-11-16T09:00:00Z".
Definition ex_head : list string := ["kind: Tenant"; "spec:"; "  displayName: Acme"].
Definition ex_apps : list entry :=
  [mkEntry "desktop" ["    digest: " +:+ ex_digest; "    placed: true"; ""]; mkEntry "wiki" ["    updateMode: manual"; "    config:"; "      theme: dark"]].
Definition ex_manifest : manifest := mkManifest ex_head [] ex_apps ["  quotas:"; "    maxApps: 20"; ""].
Definition ex_deep : manifest :=
  mkManifest ex_head [] [mkEntry "desktop" ["      placed: true"]; mkEntry "wiki" ["      config:"; "        theme: dark"]] ["  quotas:"; "    maxApps: 20"; ""].
Definition ex_commented : manifest :=
  mkManifest ex_head [] [mkEntry "wiki" ["    catalogue: gentian"; key_line 4 "digest" ex_digest +:+ " # " +:+ "the build this install pinned"; ""]] [].

Definition ex_marked : manifest :=
  mkManifest ex_head [] [mkEntry "desktop" [placed_line +:+ " # " +:+ "by the platform"]] [].

Ltac evaluate := unfold plain_line; apply (bool_decide_unpack _); vm_compute; exact I.
Ltac each_key := let k := fresh "k" in let Hk := fresh "Hk" in intros k Hk; unfold managed in Hk;
  repeat (apply elem_of_cons in Hk as [->|Hk]; [vm_compute; lia|]); by apply not_elem_of_nil in Hk.
Ltac well_formed := constructor;
  [evaluate | evaluate | repeat (apply Forall_cons; split); [constructor; [reflexivity | evaluate | evaluate | each_key].. | apply Forall_nil; exact I]
  | evaluate | evaluate | first [exact I | vm_compute; reflexivity]].

Lemma ex_wf : wf 2 ex_manifest.
Proof. well_formed. Qed.
Lemma ex_deep_wf : wf 4 ex_deep.
Proof. well_formed. Qed.
Lemma ex_commented_wf : wf 2 ex_commented.
Proof. well_formed. Qed.
Lemma ex_marked_wf : wf 2 ex_marked.
Proof. well_formed. Qed.
Lemma ex_fit text : @pins_fit ex_yaml text.
Proof. intros apps [= <-]. constructor. Qed.

End EditsExample.
Import EditsExample.

Lemma edits_refine_witness :
  match @edit ex_yaml "acme" "wiki" ex_meta (ByPlace ex_digest "gentian" true) (text_of 2 ex_manifest) with
  | Err e => @refusal ex_yaml "acme" "wiki" ex_manifest (ByPlace ex_digest "gentian" true) e
  | Ok (text', status, changed) => ∃ m', text' = text_of 2 m' ∧ rewritten ex_manifest m' "wiki" ∧ (changed = false → m' = ex_manifest)
      ∧ meant (ByPlace ex_digest "gentian" true) ex_meta (body_in ex_manifest "wiki") (body_in m' "wiki")
  end.
Proof. exact (@edits_refine ex_yaml "acme" "wiki" ex_meta (ByPlace ex_digest "gentian" true) ex_manifest ex_wf eq_refl eq_refl (ex_fit _)). Defined.

Lemma commented_mark_is_not_heeded_witness :
  Uninstall "desktop" (text_of 2 ex_marked) = Ok (text_of 2 (without ex_marked "desktop"), "uninstalled", true).
Proof. apply (commented_mark_is_not_heeded "desktop" "by the platform" ex_marked [] []); [exact ex_marked_wf|reflexivity|reflexivity|constructor]. Defined.

Lemma placed_by_the_platform_only_witness : ∃ m', wf 2 m'
  ∧ default "" ((λ r, r.1.1) <$> match @edit ex_yaml "acme" "wiki" ex_meta ByUninstall (text_of 2 ex_manifest) with Ok r => Some r | Err _ => None end) = text_of 2 m'
  ∧ ∀ q b, body_in ex_manifest q = Some b → placed_line ∈ b ∨ placed b → body_in m' q = Some b.
Proof.
  apply (@placed_by_the_platform_only ex_yaml ex_manifest); [exact ex_wf|]. apply rtc_once.
  exists "acme", "wiki", ex_meta, ByUninstall, "uninstalled", true. split; [reflexivity|]. split; [reflexivity|]. split; [reflexivity|].
  split; [apply ex_fit|]. vm_compute. reflexivity.
Defined.

Lemma deeper_list_is_swallowed_witness : ∃ text',
  @edit ex_yaml "acme" "mail" ex_meta (ByInstall "" "" None) (text_of 4 ex_deep) = Ok (text', "installed", true)
  ∧ @edit ex_yaml "acme" "mail" ex_meta ByUninstall text' = Ok (text_of 4 (mkManifest ex_head [] [] (mf_tail ex_deep)), "uninstalled", true).
Proof.
  eexists. split; [vm_compute; reflexivity|].
  apply (@deeper_list_is_swallowed ex_yaml "acme" "mail" "" "" None ex_meta ex_deep); [exact ex_deep_wf|reflexivity|reflexivity|vm_compute; reflexivity].
Defined.

Lemma commented_pin_is_not_read_witness : RetryMove "wiki" ex_digest ex_meta (text_of 2 ex_commented)
  = Err (Wrapf "%w: %s is pinned to %q, not %s" ["wiki"; ex_digest +:+ " # " +:+ "the build this install pinned"; shortDigest ex_digest] ErrNotPinnedThere).
Proof.
  apply (commented_pin_is_not_read "wiki" ex_digest "the build this install pinned" ex_meta ex_commented ["    catalogue: gentian"] [""]);
    [exact ex_commented_wf|reflexivity|reflexivity|reflexivity|repeat constructor|]. vm_compute. discriminate.
Defined.
