(* ===== verification/Repository.v ===== *)
(** * One edit as one commit ([internal/director/gitops/gitops.go])

    A write of the deployments repository: the checkout is made equal to the remote, the
    tenant's manifest is found in it ([tenantFile]), the edit is made on its text, and the
    change is committed under the name of who asked and pushed ([commitPaths]).  A push
    that another writer beat starts the whole over, for as long as [retryPush] allows.

    [write_is_one_commit]: what a write pushes is its own edit, of the text it read in the
    round that pushed, once.  [apply_ends]: it answers.  [commit_says_who]: nothing a
    person can put in their name, address or reason forges a line of the commit.
    [manifest_of_another_tenant]: where a tenant has no directory, the manifest of one
    whose name begins with its name is taken for its own. *)

From S2P Require Import Prelude.
From S2P Require Import GoStrings.
From S2P Require Import GoUtf8.
From S2P Require Import Ids.
From S2P Require Import AppEntries.
From S2P Require Import AppLayout.
From S2P Require Import AppAddons.
From S2P Require Import AppEdits.

(** ** What a commit says *)

Definition ctl_to_space (r : string) : string :=
  match r with String c "" => if bool_decide (byte_of c < 32 ∨ byte_of c = 127) then " " else r | _ => r end.
Definition reasonLine (reason : string) : string := trim_space (concat_str (ctl_to_space <$> take 200 (runes reason))).

Definition trailers (m : Meta) : list string :=
  if bool_decide (me_subject m = "" ∧ me_decision m = "" ∧ me_principal m = "") then []
  else
    let parts :=
      (if bool_decide (me_request m = "") then [] else ["req=" +:+ me_request m])
      ++ (if negb (bool_decide (me_principal m = "")) then [me_principal m]
          else if negb (bool_decide (me_subject m = "")) then ["user:" +:+ me_subject m] else [])
      ++ (if bool_decide (me_decision m = "") then [] else [me_decision m; "allowed"])
      ++ (if bool_decide (me_via m = "") then [] else ["via"; me_via m]) in
    ("Gentian-Authz: " +:+ join parts " ")
    :: (let reason := reasonLine (me_reason m) in if bool_decide (reason = "") then [] else ["Gentian-Reason: " +:+ reason]).

Definition full_message (message : string) (m : Meta) : string :=
  match trailers m with
  | [] => message
  | t => message +:+ String NL (String NL (join t NL))
  end.

(** The author of the commit, where it is not the director's own. *)
Definition author_of (committer : Person) (m : Meta) : option string :=
  if bool_decide (pe_name (me_author m) = "" ∧ pe_email (me_author m) = "") then None
  else
    let name := if bool_decide (pe_name (me_author m) = "") then me_subject m else pe_name (me_author m) in
    let email :=
      if negb (bool_decide (pe_email (me_author m) = "")) then pe_email (me_author m)
      else if negb (bool_decide (me_subject m = "")) then me_subject m +:+ "@users.gentian.invalid"
      else pe_email committer in
    Some (identClean name +:+ " <" +:+ identClean email +:+ ">").

(** [strings.Replace(s, old, new, 1)]. *)
Fixpoint replace_first (s old new : string) : string :=
  match cut_prefix s old with
  | Some rest => new +:+ rest
  | None => match s with "" => "" | String c s' => String c (replace_first s' old new) end
  end.

Fixpoint join_commas (l : list string) : string :=
  match l with [] => "" | [s] => s | s :: rest => s +:+ ", " +:+ join_commas rest end.

(** The subject line of each write. *)
Definition message_of (tenant profile : string) (meta : Meta) (w : write) : string :=
  let via := " (via " +:+ actor meta +:+ ")" in
  match w with
  | ByInstall digest _ defaultGrant =>
      let msg := "feat(" +:+ tenant +:+ "): install " +:+ profile
                 +:+ (if bool_decide (digest = "") then "" else " at " +:+ shortDigest digest) +:+ via in
      if default false defaultGrant then replace_first msg " (via " " for everyone (via " else msg
  | ByUninstall => "feat(" +:+ tenant +:+ "): uninstall " +:+ profile +:+ via
  | ByRetry digest => "fix(" +:+ tenant +:+ "): retry the move of " +:+ profile +:+ " to " +:+ shortDigest digest +:+ via
  | ByUpdateMode mode =>
      "chore(" +:+ tenant +:+ "): " +:+ profile +:+ " moves to newer builds "
      +:+ (if bool_decide (mode = "") then "as the cluster says" else "in " +:+ mode +:+ " mode") +:+ via
  | ByAddons _ pins _ =>
      "feat(" +:+ tenant +:+ "): set addons for " +:+ profile
      +:+ (match pins with
           | [] => ""
           | _ => ", pinning " +:+ join_commas ((λ pin, ap_name pin +:+ " at " +:+ shortDigest (ap_digest pin)) <$> pins)
           end) +:+ via
  | ByPlace _ _ _ => "feat(" +:+ tenant +:+ "): place " +:+ profile +:+ via
  | ByUnplace => "feat(" +:+ tenant +:+ "): remove the placed " +:+ profile +:+ via
  end.

(** ** Finding a tenant's manifest *)

(** [strings.Contains]. *)
Fixpoint contains_str (s sub : string) : bool :=
  has_prefix s sub || match s with "" => false | String _ s' => contains_str s' sub end.

(** What a walk of the tenants' directory meets, in its order: a file with its content, or
    something it cannot go on from. *)
Inductive met := File (path : string) (text : result string) | Unwalkable (e : error).
Definition checkout : Type := list met.

Definition ErrNotExist : string := "file does not exist".
Definition ErrTenantNotFound : error := Sentinel "tenant not found".

Definition base_of (path : string) : string := match cut_last path "/" with Some (_, b) => b | None => path end.
Definition dir_of (path : string) : string := match cut_last path "/" with Some (d, _) => d | None => "." end.

(** The manifests that say they are the tenant's, and what the walk ended with. *)
Fixpoint walk (tenant : string) (files : checkout) : list string * option error :=
  match files with
  | [] => ([], None)
  | Unwalkable e :: _ => ([], Some e)
  | File path text :: rest =>
      if negb (bool_decide (base_of path = "tenant.yaml")) then walk tenant rest
      else match text with
           | Err e => ([], Some e)
           | Ok text =>
               let '(found, err) := walk tenant rest in
               ((if contains_str text "kind: Tenant" && contains_str text ("name: " +:+ tenant) then [path] else []) ++ found, err)
           end
  end.

Definition stat (files : checkout) (path : string) : option (result string) :=
  head (omap (λ f, match f with File q text => if bool_decide (q = path) then Some text else None | Unwalkable _ => None end) files).

Definition tenantsRoot (path cluster : string) : string :=
  path +:+ "/clusters/" +:+ (if bool_decide (cluster = "") then "default-cluster" else cluster) +:+ "/tenants".
Definition preferred (root tenant : string) : string := root +:+ "/" +:+ tenant +:+ "/tenant.yaml".

Definition pick (tenant cluster : string) (found : list string) : result string :=
  match found with
  | [] => Err (Wrapf "%w: no manifest for %q under clusters/%s/tenants" [tenant; cluster] ErrTenantNotFound)
  | f :: _ => Ok f
  end.

(** [synced] is the checkout as [ensureRepo] leaves it. *)
Definition tenantFile (root tenant : string) (synced : result checkout) : result string :=
  if negb (ValidTenantName tenant) then Err (Wrapf "%w: tenant %q" [tenant] ErrInvalidName)
  else
    files ← synced;
    match stat files (preferred root tenant) with
    | Some _ => Ok (preferred root tenant)
    | None =>
        let '(found, err) := walk tenant files in
        match err with
        | Some e => if errors_Is e ErrNotExist then pick tenant (base_of (dir_of root)) found else Err e
        | None => pick tenant (base_of (dir_of root)) found
        end
    end.

(** A manifest, or a file beside it, which may be one that is not there yet. *)
Definition beside (file sibling : string) : string := if bool_decide (sibling = "") then file else dir_of file +:+ "/" +:+ sibling.
Definition read_file (files : checkout) (path : string) : result string :=
  match stat files path with Some text => text | None => Err (Sentinel ErrNotExist) end.
Definition content_of (files : checkout) (path sibling : string) : result string :=
  match read_file files path with
  | Ok text => Ok text
  | Err e => if bool_decide (sibling = "") || negb (errors_Is e ErrNotExist) then Err e else Ok ""
  end.

(** ** A commit *)

(** What git answers in one round: each of its commands in turn, and what a failed push
    prints. *)
Inductive committed := Made | NothingToCommit | NotMade (e : error).
Record git := mkGit {
  gi_add : result unit; gi_staged : bool; gi_definitions : result unit; gi_key : result unit;
  gi_commit : committed; gi_push : option string; gi_head : result string }.

Definition ErrPushContended : error := Sentinel "push rejected after retries: another writer keeps winning".
Definition errPushRejected : error := Wrapf "%w: push rejected, remote moved" [] ErrPushContended.
Definition ErrNoPushCredential : error := Sentinel "no credential to push to the deployments repository".

Definition pushRejected (out : string) : bool :=
  contains_str out "non-fast-forward" || contains_str out "fetch first"
  || contains_str out "cannot lock ref" || contains_str out "failed to update ref".
Definition pushUnauthenticated (out : string) : bool :=
  existsb (contains_str out)
    ["could not read Username"; "Authentication failed"; "terminal prompts disabled"; "Permission denied"; "403"].

(** Whether the change reached the remote. *)
Definition commitPaths (g : git) : result bool :=
  _ ← wrap "git add: %w: %s" [] (gi_add g);
  if negb (gi_staged g) then Ok false
  else
    _ ← gi_definitions g; _ ← gi_key g;
    match gi_commit g with
    | NothingToCommit => Ok false
    | NotMade e => Err (Wrapf "git commit: %w: %s" [] e)
    | Made =>
        match gi_push g with
        | None => Ok true
        | Some out =>
            if pushRejected out then Err errPushRejected
            else if pushUnauthenticated out then Err (Wrapf "%w: %s" [trim_space out] ErrNoPushCredential)
            else Err (Errorf "git push: %w: %s" [out])
        end
    end.

(** ** Until it lands *)

(** What one time round meets: the checkout as it is synced, whether the file is written,
    what git answers, how long ago the write began when its push was rejected, in
    nanoseconds, and whether the caller has gone. *)
Record round := mkRound {
  ro_synced : result checkout; ro_written : result unit; ro_git : git; ro_since : Z; ro_gone : option error }.

Definition pushContentionBudget : Z := (60 * 10 ^ 9)%Z.
Definition retryPush (r : round) : result unit :=
  if bool_decide (pushContentionBudget ≤ ro_since r)%Z then Err ErrPushContended
  else match ro_gone r with Some e => Err e | None => Ok tt end.

Record Result := mkResult { re_status : string; re_changed : bool; re_commit : string }.
(** The answer of a write, and what it pushed: which file, with which text. *)
Record outcome := mkOutcome { oc_answer : result Result; oc_pushed : option (string * string) }.
Inductive attempt := Answered (o : outcome) | Beaten.

Definition refuse (e : error) : attempt := Answered (mkOutcome (Err e) None).
Definition landed (status : string) (g : git) : result Result :=
  head ← wrap "git rev-parse: %w" [] (gi_head g); Ok (mkResult status true (trim_space head)).

Definition once (root tenant sibling : string) (fn : string → edited) (r : round) : attempt :=
  match (file ← tenantFile root tenant (ro_synced r); files ← ro_synced r;
         let file := beside file sibling in content ← content_of files file sibling; Ok (file, content)) with
  | Err e => refuse e
  | Ok (file, content) =>
      match fn content with
      | Err e => refuse (Wrapf "%w in %s" [file] e)
      | Ok (text, status, changed) =>
          if negb changed then Answered (mkOutcome (Ok (mkResult status false "")) None)
          else match ro_written r with
               | Err e => refuse e
               | Ok _ =>
                   match commitPaths (ro_git r) with
                   | Ok pushed => Answered (mkOutcome (landed status (ro_git r)) (if pushed then Some (file, text) else None))
                   | Err e => if bool_decide (e = errPushRejected) then Beaten else refuse e
                   end
               end
      end
  end.

(** [None] where the rounds given are too few. *)
Fixpoint applyTo (root tenant sibling : string) (fn : string → edited) (rounds : list round) : option outcome :=
  match rounds with
  | [] => None
  | r :: rest =>
      match once root tenant sibling fn r with
      | Answered o => Some o
      | Beaten => match retryPush r with Err e => Some (mkOutcome (Err e) None) | Ok _ => applyTo root tenant sibling fn rest end
      end
  end.

(** What a write of the app list checks before it reads anything. *)
Definition checked (profile : string) (w : write) : result unit :=
  _ ← valid_name "profile" profile;
  match w with
  | ByInstall digest catalogue _ | ByPlace digest catalogue _ => valid_build digest catalogue
  | ByRetry digest => valid_digest digest
  | ByUpdateMode mode =>
      if negb (bool_decide (mode = "")) && negb (ValidUpdateMode mode) then Err (Wrapf "%w: update mode %q" [mode] ErrInvalidName) else Ok tt
  | ByAddons addons pins grants =>
      _ ← fold_result (λ _ ad, valid_addon ad) tt addons;
      _ ← fold_result (state_pin addons) ∅ pins;
      fold_result (λ _ name, valid_grant addons name) tt (map_to_list grants).*1
  | ByUninstall | ByUnplace => Ok tt
  end.

Definition commit_write `{Yaml} (root tenant profile : string) (meta : Meta) (w : write) (rounds : list round) : option outcome :=
  match checked profile w with
  | Err e => Some (mkOutcome (Err e) None)
  | Ok _ => applyTo root tenant "" (edit tenant profile meta w) rounds
  end.

(** ** A write lands once, on what it read *)

Definition pushed_by (root tenant sibling : string) (fn : string → edited) (r : round) (o : outcome) (file text' : string) : Prop :=
  ∃ files file0 content status, ro_synced r = Ok files ∧ tenantFile root tenant (Ok files) = Ok file0 ∧ file = beside file0 sibling
    ∧ content_of files file sibling = Ok content ∧ fn content = Ok (text', status, true)
    ∧ gi_commit (ro_git r) = Made ∧ gi_push (ro_git r) = None ∧ oc_answer o = landed status (ro_git r).

Definition already_so (root tenant sibling : string) (fn : string → edited) (r : round) (res : Result) : Prop :=
  ∃ files file0 content text' status changed, ro_synced r = Ok files ∧ tenantFile root tenant (Ok files) = Ok file0
    ∧ content_of files (beside file0 sibling) sibling = Ok content ∧ fn content = Ok (text', status, changed)
    ∧ (changed = true → commitPaths (ro_git r) = Ok false) ∧ re_status res = status ∧ re_changed res = changed.

Lemma commitPaths_pushed g : commitPaths g = Ok true → gi_commit g = Made ∧ gi_push g = None.
Proof.
  unfold commitPaths. rewrite bind_Ok. intros ([] & _ & Hg). destruct (gi_staged g); [|done]. cbn [negb] in Hg.
  apply bind_Ok in Hg as ([] & _ & Hg). apply bind_Ok in Hg as ([] & _ & Hg). destruct (gi_commit g); [|done..].
  destruct (gi_push g) as [out|]; [|done].
  destruct (pushRejected out); [done|]. by destruct (pushUnauthenticated out).
Qed.

Lemma once_answered root tenant sibling fn r o : once root tenant sibling fn r = Answered o →
  match oc_pushed o with
  | Some (file, text') => pushed_by root tenant sibling fn r o file text'
  | None => ∀ res, oc_answer o = Ok res → already_so root tenant sibling fn r res
  end.
Proof.
  unfold once. destruct (ro_synced r) as [files|e] eqn:Es; cbn [mbind result_bind];
    [|destruct (tenantFile _ _ _); cbn [mbind result_bind]; by intros [= <-]].
  destruct (tenantFile root tenant (Ok files)) as [file0|] eqn:Ef; cbn [mbind result_bind]; [|by intros [= <-]].
  destruct (content_of files (beside file0 sibling) sibling) as [content|] eqn:Ec; cbn [mbind result_bind]; [|by intros [= <-]].
  destruct (fn content) as [[[text' status] changed]|] eqn:En; [|by intros [= <-]]. destruct changed; cbn [negb].
  - destruct (ro_written r); [|by intros [= <-]]. destruct (commitPaths (ro_git r)) as [pushed|] eqn:Ep.
    + intros [= <-]. destruct pushed; cbn.
      * apply commitPaths_pushed in Ep as [? ?]. by exists files, file0, content, status.
      * intros res Hres. unfold landed in Hres. apply bind_Ok in Hres as (h & _ & [= <-]). by exists files, file0, content, text', status, true.
    + case_bool_decide; [done|by intros [= <-]].
  - intros [= <-]. cbn. intros res [= <-]. by exists files, file0, content, text', status, false.
Qed.

Lemma once_beaten root tenant sibling fn r : once root tenant sibling fn r = Beaten → commitPaths (ro_git r) = Err errPushRejected.
Proof.
  unfold once. destruct (_ ≫= _) as [[file content]|]; [|done]. destruct (fn content) as [[[text' status] changed]|]; [|done].
  destruct changed; [|done]. cbn [negb]. destruct (ro_written r); [|done]. destruct (commitPaths (ro_git r)); [done|]. case_bool_decide; [congruence|done].
Qed.

(** The round that answered, and the ones before it, all beaten. *)
Lemma applyTo_answered root tenant sibling fn rounds o : applyTo root tenant sibling fn rounds = Some o → ∃ k r,
  rounds !! k = Some r ∧ (∀ j r', j < k → rounds !! j = Some r' → once root tenant sibling fn r' = Beaten)
  ∧ (once root tenant sibling fn r = Answered o ∨ ∃ e, o = mkOutcome (Err e) None).
Proof.
  revert o. induction rounds as [|r rounds IH]; intros o; [done|]. cbn [applyTo]. destruct (once root tenant sibling fn r) as [o'|] eqn:Eo.
  - intros [= ->]. exists 0, r. split_and!; [done|lia|by left].
  - destruct (retryPush r) as [[]|e]; [|intros [= <-]; exists 0, r; split_and!; [done|lia|right; by eexists]].
    intros (k & r0 & Hk & Hb & Ha)%IH. exists (S k), r0. split_and!; [done| |done]. intros [|j] r' Hj Hr; [by simplify_eq/=|].
    apply (Hb j); [lia|done].
Qed.

(** The tenant's manifest as a round finds it. *)
Definition reads_text (root tenant : string) (r : round) (file content : string) : Prop :=
  ∃ files, ro_synced r = Ok files ∧ tenantFile root tenant (Ok files) = Ok file ∧ read_file files file = Ok content.

Lemma content_manifest files file text : content_of files file "" = Ok text → read_file files file = Ok text.
Proof. unfold content_of. by destruct (read_file files file). Qed.

Section OneCommit.
Context `{Yaml} (tenant p : string) (meta : Meta) (w : write).

(** What an edit of a text is, where the text is that of a well-formed manifest: one in which
    only the named entry differs and is what the write means it to be. *)
Definition edits_entry (content text' : string) (changed : bool) : Prop :=
  ∀ m, content = text_of 2 m → wf 2 m → pins_fit content → clean (me_moved_at meta) = true → clean (me_mover meta) = true →
  ∃ m', text' = text_of 2 m' ∧ rewritten m m' p ∧ (changed = false → m' = m) ∧ meant w meta (body_in m p) (body_in m' p).

Lemma edit_means content text' status changed :
  edit tenant p meta w content = Ok (text', status, changed) → edits_entry content text' changed.
Proof.
  intros He m -> Hwf Hfit Hat Hby. pose proof (write_refined tenant p meta w m Hwf Hat Hby Hfit) as Href. unfold refined in Href. by rewrite He in Href.
Qed.
End OneCommit.

(** C16: A write of an app list, tried again for as long as others push first, is one commit
    or none, whatever the manifest looks like.  What it pushes is one file, the manifest the
    round that pushed found for the tenant, and its text is the write's edit of the text that
    round read; every round before it was beaten.  Where it answers without a push, the edit
    found nothing to change in the text a round read, or git found no difference to commit.
    And where the text is that of a manifest with its list two columns in, each app once and
    the pins of addons where the code looks for them, nothing of the manifest but the named
    entry differs, and that entry is what the write means it to be. *)
Theorem write_is_one_commit `{Yaml} root tenant p meta w rounds o :
  commit_write root tenant p meta w rounds = Some o →
  match oc_pushed o with
  | Some (file, text') => ∃ k r content status, rounds !! k = Some r ∧ reads_text root tenant r file content
      ∧ edit tenant p meta w content = Ok (text', status, true) ∧ edits_entry p meta w content text' true
      ∧ gi_push (ro_git r) = None ∧ oc_answer o = landed status (ro_git r)
      ∧ ∀ j r', j < k → rounds !! j = Some r' → commitPaths (ro_git r') = Err errPushRejected
  | None => ∀ res, oc_answer o = Ok res → ∃ r file content text', r ∈ rounds ∧ reads_text root tenant r file content
      ∧ edit tenant p meta w content = Ok (text', re_status res, re_changed res) ∧ edits_entry p meta w content text' (re_changed res)
      ∧ (re_changed res = true → commitPaths (ro_git r) = Ok false)
  end.
Proof.
  unfold commit_write. destruct (checked p w); [|intros [= <-]; by intros res Hres].
  intros (k & r & Hk & Hb & Ha)%applyTo_answered. destruct Ha as [Ha|[e ->]]; [|by intros res Hres].
  apply once_answered in Ha. destruct (oc_pushed o) as [[file text']|].
  - destruct Ha as (files & file0 & content & status & Hf & Ht & -> & Hc%content_manifest & He & _ & Hpush & Hans). change (beside file0 "") with file0 in *.
    exists k, r, content, status. split_and!; [done|by exists files|done|by eapply edit_means|done|done|]. intros j r' Hj Hr'. by eapply once_beaten, Hb.
  - intros res Hres. destruct (Ha res Hres) as (files & file0 & content & text' & status & changed & Hf & Ht & Hc%content_manifest & He & Hno & <- & <-).
    change (beside file0 "") with file0 in *. exists r, file0, content, text'.
    split_and!; [by eapply list_elem_of_lookup_2|by exists files|done|by eapply edit_means|done].
Qed.

(** C30: A write answers: at the latest in the round whose push is rejected when the budget is
    spent, whatever the writers before it did. *)
Theorem apply_ends `{Yaml} root tenant p meta w rounds : (∃ r, r ∈ rounds ∧ (pushContentionBudget ≤ ro_since r)%Z) →
  ∃ o, commit_write root tenant p meta w rounds = Some o.
Proof.
  intros (r & Hr & Hb). unfold commit_write. destruct (checked p w); [|by eexists].
  induction rounds as [|r0 rounds IH]; [by apply not_elem_of_nil in Hr|]. cbn [applyTo]. destruct (once _ _ _ _ r0) as [o|]; [by exists o|].
  apply elem_of_cons in Hr as [<-|Hr].
  - unfold retryPush. rewrite bool_decide_eq_true_2 by done. by eexists.
  - destruct (retryPush r0); [by apply IH|by eexists].
Qed.

(** ** Nothing a person can edit forges a line *)

Lemma rev_byte s c : contains_byte (String.rev s) c = contains_byte s c.
Proof.
  induction s as [|d s IH]; [done|]. rewrite rev_cons, contains_byte_app, IH, !contains_byte_cons. cbn. rewrite orb_false_r. apply orb_comm.
Qed.

Lemma trim_spaces_byte s2 s3 s c : contains_byte s c = false → contains_byte (trim_spaces_by s2 s3 s) c = false.
Proof.
  induction s as [s IH] using (induction_ltof1 _ String.length). unfold ltof in IH. intros Hs. destruct s as [|a s]; [done|].
  pose proof Hs as Hs'. rewrite contains_byte_cons in Hs. apply orb_false_iff in Hs as [_ Hs]. cbn [trim_spaces_by].
  destruct (space1 a); [apply IH; [cbn; lia|done]|]. destruct s as [|b s]; [done|].
  pose proof Hs as Hb. rewrite contains_byte_cons in Hb. apply orb_false_iff in Hb as [_ Hb]. destruct (s2 a b); [apply IH; [cbn; lia|done]|].
  destruct s as [|e s]; [done|]. rewrite contains_byte_cons in Hb. apply orb_false_iff in Hb as [_ Hb]. destruct (s3 a b e); [apply IH; [cbn; lia|done]|done].
Qed.

Lemma trim_space_byte s c : contains_byte s c = false → contains_byte (trim_space s) c = false.
Proof. intros Hs. unfold trim_space. cbv zeta. rewrite rev_byte. apply trim_spaces_byte. rewrite rev_byte. by apply trim_spaces_byte. Qed.

Lemma identClean_byte s c : byte_of c < 128 → String c "" ∈ ident_reserved → contains_byte (identClean s) c = false.
Proof.
  intros Hc Hin. unfold identClean. cbv zeta. case_bool_decide.
  - unfold ident_reserved in Hin. repeat (apply elem_of_cons in Hin as [Hin|Hin]; [injection Hin as ->; done|]). by apply not_elem_of_nil in Hin.
  - apply trim_space_byte, concat_ascii; [|done|].
    + apply Forall_forall. intros r [_ Hr]%list_elem_of_filter. by eapply Forall_forall in Hr; [|apply runes_encoded].
    + by intros [Hn _]%list_elem_of_filter.
Qed.

Definition one_line (s : string) : Prop := contains_byte s NL = false.

Lemma one_line_app a b : one_line a → one_line b → one_line (a +:+ b).
Proof. unfold one_line. intros Ha Hb. by rewrite contains_byte_app, Ha, Hb. Qed.

Lemma reasonLine_one_line reason : one_line (reasonLine reason).
Proof.
  unfold one_line, reasonLine. apply trim_space_byte, concat_ascii; [|vm_compute; lia|].
  - apply Forall_fmap. apply Forall_forall. intros r Hr. assert (well_encoded r) as Hw.
    { eapply Forall_forall; [apply (runes_encoded reason)|]. by eapply elem_of_take in Hr as (? & ?%list_elem_of_lookup_2 & _). }
    cbn. destruct r as [|c [|d r]]; cbn; [done| |done]. case_bool_decide; [left; exists " "%char; split; [done|vm_compute; lia]|done].
  - intros (r & Hr & _)%list_elem_of_fmap. destruct r as [|c [|d r]]; cbn in Hr; [done| |done]. case_bool_decide as Hb; [done|].
    injection Hr as <-. apply Hb. vm_compute. lia.
Qed.

Lemma replace_first_one_line s old new : one_line s → one_line new → one_line (replace_first s old new).
Proof.
  unfold one_line. intros Hs Hn. induction s as [|c s IH]; cbn [replace_first]; destruct (cut_prefix _ old) as [rest|] eqn:E; try done.
  - apply cut_prefix_Some in E. rewrite E, contains_byte_app in Hs. apply orb_false_iff in Hs as [_ Hs]. by rewrite contains_byte_app, Hn, Hs.
  - apply cut_prefix_Some in E. rewrite E, contains_byte_app in Hs. apply orb_false_iff in Hs as [_ Hs]. by rewrite contains_byte_app, Hn, Hs.
  - rewrite contains_byte_cons in Hs |- *. apply orb_false_iff in Hs as [-> Hs]. by apply IH.
Qed.

Lemma take_one_line n s : one_line s → one_line (take_str n s).
Proof.
  unfold one_line. revert s. induction n as [|n IH]; intros [|c s]; try done. cbn [take_str]. rewrite !contains_byte_cons, !orb_false_iff.
  intros [? ?]. split; [done|by apply IH].
Qed.

Lemma shortDigest_one_line d : one_line d → one_line (shortDigest d).
Proof.
  intros Hd. unfold shortDigest. apply one_line_app; [done|]. apply take_one_line. unfold trim_prefix.
  destruct (cut_prefix d "sha256:") as [r|] eqn:E; [|done]. apply cut_prefix_Some in E. cbn. unfold one_line in *.
  rewrite E, contains_byte_app in Hd. by apply orb_false_iff in Hd as [_ Hd].
Qed.

(** What the director is told by the issuer of the token and by its own code. *)
Record told (m : Meta) : Prop := {
  to_subject : one_line (me_subject m); to_request : one_line (me_request m); to_decision : one_line (me_decision m);
  to_principal : one_line (me_principal m); to_via : one_line (me_via m) }.

Lemma actor_one_line m : told m → one_line (actor m).
Proof.
  intros Ht. unfold actor. destruct (negb _); [apply Ht|]. destruct (negb _); [|apply Ht].
  apply identClean_byte; [vm_compute; lia|by apply (bool_decide_unpack _)].
Qed.

Create HintDb lines.
#[export] Hint Resolve one_line_app take_one_line shortDigest_one_line actor_one_line replace_first_one_line : lines.
#[export] Hint Extern 1 (one_line _) => reflexivity : lines.

Lemma join_commas_one_line l : Forall one_line l → one_line (join_commas l).
Proof. intros Hl. induction Hl as [|s l Hs Hl IH]; [done|]. cbn [join_commas]. destruct l; [done|]. auto with lines. Qed.

Lemma pins_one_line addons pins st stated : fold_result (state_pin addons) st pins = Ok stated → Forall pin_fits pins.
Proof.
  revert st. induction pins as [|pin pins IH]; intros st; [constructor|]. cbn [fold_result]. rewrite bind_Ok.
  intros (st' & (_ & _ & _ & Hf)%state_pin_Ok & Hrest). constructor; [done|by eapply IH].
Qed.

Lemma valid_digest_one_line d : valid_digest d = Ok tt → one_line d.
Proof. unfold valid_digest. destruct (digestPattern d) eqn:E; [|done]. intros _. by apply digest_no_newline. Qed.

Lemma valid_build_one_line digest catalogue : valid_build digest catalogue = Ok tt → one_line digest.
Proof.
  unfold valid_build. rewrite bind_Ok. intros ([] & Hd & _). case_bool_decide; [by subst|]. by apply valid_digest_one_line.
Qed.

Lemma message_one_line tenant p meta w : ValidTenantName tenant = true → checked p w = Ok tt → told meta → one_line (message_of tenant p meta w).
Proof.
  intros Hten Hc Hm. assert (one_line tenant) as Ht.
  { unfold ValidTenantName in Hten. apply andb_true_iff in Hten as [Hten _]. by apply name_no_newline. }
  unfold checked in Hc. apply bind_Ok in Hc as ([] & Hp & Hc). unfold valid_name in Hp. destruct (ValidName p) eqn:Ep; [|done].
  apply name_no_newline in Ep. change (one_line p) in Ep. unfold message_of. cbv zeta. destruct w.
  - apply valid_build_one_line in Hc. destruct (bool_decide _); destruct (default _ _); auto 20 with lines.
  - auto 20 with lines.
  - apply valid_digest_one_line in Hc. auto 20 with lines.
  - destruct (bool_decide (mode = "")) eqn:Em; [auto 20 with lines|]. cbn in Hc. destruct (ValidUpdateMode mode) eqn:Ev; [|done].
    unfold ValidUpdateMode in Ev. apply bool_decide_eq_true in Ev. assert (one_line mode) as Hmode.
    { repeat (apply elem_of_cons in Ev as [->|Ev]; [done|]). by apply not_elem_of_nil in Ev. }
    auto 20 with lines.
  - apply bind_Ok in Hc as ([] & _ & Hc). apply bind_Ok in Hc as (st & Hst%pins_one_line & _).
    assert (one_line (match pins with [] => "" | _ => ", pinning " +:+ join_commas ((λ pin, ap_name pin +:+ " at " +:+ shortDigest (ap_digest pin)) <$> pins) end)) as Hpins.
    { destruct pins; [done|]. apply one_line_app; [done|]. apply join_commas_one_line, Forall_fmap. eapply Forall_impl; [exact Hst|].
      intros pin (Hn & Hd & _). cbn. auto 20 with lines. }
    auto 20 with lines.
  - auto 20 with lines.
  - auto 20 with lines.
Qed.

Lemma join_one_line l : Forall one_line l → one_line (join l " ").
Proof.
  intros Hl. induction Hl as [|s l Hs Hl IH]; [done|]. cbn [join]. destruct l as [|t l]; [done|]. apply one_line_app; [done|].
  unfold one_line. rewrite contains_byte_cons. exact IH.
Qed.

(** The trailers: the decision first, the caller's reason second. *)
Lemma trailers_shape m : told m → trailers m = []
  ∨ ∃ who, one_line who ∧ (trailers m = ["Gentian-Authz: " +:+ who]
                           ∨ trailers m = ["Gentian-Authz: " +:+ who; "Gentian-Reason: " +:+ reasonLine (me_reason m)]).
Proof.
  intros Ht. unfold trailers. cbv zeta. destruct (bool_decide _); [by left|right]. eexists. split; [|destruct (bool_decide (reasonLine _ = "")); [by left|by right]].
  apply join_one_line. rewrite !Forall_app. split_and!.
  - destruct (bool_decide _); repeat constructor. apply one_line_app; [done|apply Ht].
  - destruct (negb _); [repeat constructor; apply Ht|]. destruct (negb _); repeat constructor. apply one_line_app; [done|apply Ht].
  - destruct (bool_decide _); repeat constructor. apply Ht.
  - destruct (bool_decide _); repeat constructor. apply Ht.
Qed.

Lemma message_first tenant p meta w : ∃ c s, message_of tenant p meta w = String c s ∧ c ≠ "G"%char.
Proof. destruct w; cbn; try (destruct (default _ _)); by eexists _, _. Qed.

Lemma not_authz c s : c ≠ "G"%char → has_prefix (String c s) "Gentian-Authz:" ≠ true.
Proof. intros Hc [r Hr]%has_prefix_spec. rewrite app_cons in Hr. by injection Hr as -> _. Qed.

Lemma authz_lines msg c s m : msg = String c s → c ≠ "G"%char → told m →
  filter (λ l, has_prefix l "Gentian-Authz:" = true) (msg :: match trailers m with [] => [] | t => "" :: t end) = take 1 (trailers m).
Proof.
  intros -> Hc Ht. rewrite filter_cons_False by (by apply not_authz).
  destruct (trailers_shape m Ht) as [->|(who & _ & [->| ->])]; [done| |].
  all: rewrite filter_cons_False by done; rewrite filter_cons_True by (apply has_prefix_spec; by exists (" " +:+ who)).
  - done.
  - rewrite filter_cons_False by (intros [r Hr]%has_prefix_spec; discriminate Hr). done.
Qed.

(** Whatever stands in a person's name and address and in the reason a caller gives, a
    write's commit has one subject line, the trailer the director wrote and no other that
    says what was authorized, and, where there is a reason, one line for it; and its
    author is one name and one address, neither of which ends the other early. *)
Theorem commit_says_who tenant p meta w committer : ValidTenantName tenant = true → checked p w = Ok tt → told meta →
  split (full_message (message_of tenant p meta w) meta) NL
    = message_of tenant p meta w :: match trailers meta with [] => [] | t => "" :: t end
  ∧ filter (λ l, has_prefix l "Gentian-Authz:" = true) (split (full_message (message_of tenant p meta w) meta) NL) = take 1 (trailers meta)
  ∧ ∀ a, author_of committer meta = Some a → ∃ name email, a = name +:+ " <" +:+ email +:+ ">"
      ∧ ∀ c, c ∈ ["<"%char; ">"%char; NL] → contains_byte name c = false ∧ contains_byte email c = false.
Proof.
  intros Hten Hc Ht. pose proof (message_one_line tenant p meta w Hten Hc Ht) as Hm.
  assert (split (full_message (message_of tenant p meta w) meta) NL
    = message_of tenant p meta w :: match trailers meta with [] => [] | t => "" :: t end) as Hsplit.
  { unfold full_message. destruct (trailers_shape meta Ht) as [->|(who & Hwho & Htr)].
    - apply (split_join [message_of tenant p meta w]); [done|by repeat constructor].
    - assert (trailers meta ≠ [] ∧ Forall one_line (trailers meta)) as [Hne Hl].
      { destruct Htr as [->| ->]; split; try done; repeat (constructor; [first [done|by apply one_line_app; [done|apply reasonLine_one_line]|by apply one_line_app]|]); constructor. }
      destruct (trailers meta) as [|t l]; [done|]. change (message_of tenant p meta w +:+ String NL (String NL (join (t :: l) NL)))
        with (join (message_of tenant p meta w :: "" :: t :: l) NL). apply split_join; [done|]. constructor; [exact Hm|]. by constructor. }
  split; [done|]. rewrite Hsplit. split.
  - destruct (message_first tenant p meta w) as (c & s & -> & Hne). by eapply authz_lines.
  - intros a. unfold author_of. destruct (bool_decide _); [done|]. cbv zeta. intros [= <-]. eexists _, _. split; [done|].
    intros c Hin. repeat (apply elem_of_cons in Hin as [->|Hin]; [split; (apply identClean_byte; [vm_compute; lia|by apply (bool_decide_unpack _)])|]).
    by apply not_elem_of_nil in Hin.
Qed.

(** ** A manifest of another tenant *)

Lemma contains_prefix s a b : contains_str s (a +:+ b) = true → contains_str s a = true.
Proof.
  assert (∀ t, has_prefix t (a +:+ b) = true → has_prefix t a = true) as Hp.
  { intros t [r ->]%has_prefix_spec. apply has_prefix_spec. exists (b +:+ r). by rewrite app_assoc_str. }
  induction s as [|c s IH]; cbn [contains_str]; rewrite !orb_true_iff; intros [H|H]; auto.
Qed.

(** A file the walk for a tenant passes without taking it. *)
Definition passed (tenant : string) (f : met) : Prop :=
  match f with
  | Unwalkable _ => False
  | File path text => base_of path ≠ "tenant.yaml" ∨ ∃ t, text = Ok t ∧ contains_str t ("name: " +:+ tenant) = false
  end.
Definition readable (f : met) : Prop := match f with Unwalkable _ => False | File _ text => is_ok text = true end.

Lemma walk_passed tenant pre rest : Forall (passed tenant) pre → walk tenant (pre ++ rest) = walk tenant rest.
Proof.
  intros Hpre. induction Hpre as [|f pre Hf Hpre IH]; [done|]. destruct f as [path text|]; [|done]. cbn [app walk].
  case_bool_decide as Hb; cbn [negb]; [|done]. destruct Hf as [?|(t & -> & Hn)]; [done|]. rewrite IH, Hn, andb_false_r. by destruct (walk tenant rest).
Qed.

Lemma walk_readable tenant rest : Forall readable rest → (walk tenant rest).2 = None.
Proof.
  intros Hr. induction Hr as [|f rest Hf Hr IH]; [done|]. destruct f as [path [text|]|]; [|done..]. cbn [walk]. case_bool_decide; cbn [negb]; [|done].
  destruct (walk tenant rest). done.
Qed.

Lemma preferred_base root tenant : base_of (preferred root tenant) = "tenant.yaml".
Proof.
  unfold base_of, preferred. rewrite <-!app_assoc_str. by rewrite (cut_last_app _ "tenant.yaml") by done.
Qed.

(** C40: Where the repository has no directory for a tenant, its manifest is looked for by its
    name anywhere in the text, and the manifest of a tenant whose name only begins with
    that name is taken for it: a write for the one is committed to the other's manifest. *)
Theorem manifest_of_another_tenant root tenant suffix text pre post g fn text' status :
  ValidTenantName tenant = true →
  Forall (passed tenant) pre → Forall readable post →
  stat (pre ++ File (preferred root (tenant +:+ suffix)) (Ok text) :: post) (preferred root tenant) = None →
  stat (pre ++ File (preferred root (tenant +:+ suffix)) (Ok text) :: post) (preferred root (tenant +:+ suffix)) = Some (Ok text) →
  contains_str text "kind: Tenant" = true → contains_str text ("name: " +:+ tenant +:+ suffix) = true →
  fn text = Ok (text', status, true) → commitPaths g = Ok true →
  applyTo root tenant "" fn [mkRound (Ok (pre ++ File (preferred root (tenant +:+ suffix)) (Ok text) :: post)) (Ok tt) g 0 None]
  = Some (mkOutcome (landed status g) (Some (preferred root (tenant +:+ suffix), text'))).
Proof.
  intros Hten Hpre Hpost Hno Hhere Hkind Hname Hfn Hg. set (files := pre ++ _ :: post) in *.
  assert (tenantFile root tenant (Ok files) = Ok (preferred root (tenant +:+ suffix))) as Hfile.
  { unfold tenantFile. rewrite Hten. cbn [negb mbind result_bind]. rewrite Hno. subst files. rewrite walk_passed by done. cbn [walk].
    rewrite preferred_base. cbn [bool_decide negb]. rewrite bool_decide_eq_true_2 by done. cbn [negb]. rewrite <-app_assoc_str in Hname. apply contains_prefix in Hname.
    rewrite Hkind, Hname. pose proof (walk_readable tenant post Hpost) as Hr. destruct (walk tenant post) as [found err]. cbn in Hr. by subst err. }
  cbn [applyTo]. unfold once. cbn [ro_synced ro_written ro_git]. rewrite Hfile. cbn [mbind result_bind]. unfold beside. cbn [bool_decide].
  rewrite (bool_decide_eq_true_2 (@eq string "" "")) by done. unfold content_of, read_file. rewrite Hhere. cbn [mbind result_bind].
  rewrite Hfn. cbn [negb]. by rewrite Hg.
Qed.

(** ** An example *)

Module RepositoryExample.
Import EditsExample.

Definition rx_root : string := "/repo/clusters/berlin/tenants".
Definition rx_accepted : git := mkGit (Ok tt) true (Ok tt) (Ok tt) Made None (Ok "9c1f2a").
Definition rx_beaten : git := mkGit (Ok tt) true (Ok tt) (Ok tt) Made (Some "! [rejected] main -> main (fetch first)") (Ok "9c1f2a").
Definition rx_files : checkout := [File (preferred rx_root "acme") (Ok (text_of 2 ex_manifest))].
Definition rx_rounds : list round :=
  [mkRound (Ok rx_files) (Ok tt) rx_beaten 1000000000 None; mkRound (Ok rx_files) (Ok tt) rx_accepted 2000000000 None;
   mkRound (Ok rx_files) (Ok tt) rx_beaten 61000000000 None].
(** A name that would be a second line, and a reason that would be a trailer. *)
Definition rx_meta : Meta :=
  mkMeta (mkPerson ("Ada <root@example.org>" +:+ String NL "x") "ada@example.org") "f3a1" "req-7" "app_admin tenant:acme" "" "desk"
    ("order 7" +:+ String NL "Gentian-Authz: user:root owner cluster allowed") "2026-11-16T09:00:00Z".

Lemma rx_told : told rx_meta.
Proof. by constructor. Qed.
End RepositoryExample.
Import EditsExample.
Import RepositoryExample.

(** The second round pushes the manifest without the wiki. *)
Lemma write_is_one_commit_witness : ∃ o, @commit_write ex_yaml rx_root "acme" "wiki" ex_meta ByUninstall rx_rounds = Some o
  ∧ oc_pushed o = Some (preferred rx_root "acme", text_of 2 (without ex_manifest "wiki"))
  ∧ match oc_pushed o with
    | Some (file, text') => ∃ k r content status, rx_rounds !! k = Some r ∧ reads_text rx_root "acme" r file content
        ∧ @edit ex_yaml "acme" "wiki" ex_meta ByUninstall content = Ok (text', status, true)
        ∧ @edits_entry ex_yaml "wiki" ex_meta ByUninstall content text' true
        ∧ gi_push (ro_git r) = None ∧ oc_answer o = landed status (ro_git r)
        ∧ ∀ j r', j < k → rx_rounds !! j = Some r' → commitPaths (ro_git r') = Err errPushRejected
    | None => ∀ res, oc_answer o = Ok res → ∃ r file content text', r ∈ rx_rounds ∧ reads_text rx_root "acme" r file content
        ∧ @edit ex_yaml "acme" "wiki" ex_meta ByUninstall content = Ok (text', re_status res, re_changed res)
        ∧ @edits_entry ex_yaml "wiki" ex_meta ByUninstall content text' (re_changed res)
        ∧ (re_changed res = true → commitPaths (ro_git r) = Ok false)
    end.
Proof.
  destruct (@commit_write ex_yaml rx_root "acme" "wiki" ex_meta ByUninstall rx_rounds) as [o|] eqn:E; [|vm_compute in E; discriminate E].
  exists o. split; [reflexivity|]. split; [vm_compute in E; injection E as <-; vm_compute; reflexivity|].
  exact (@write_is_one_commit ex_yaml rx_root "acme" "wiki" ex_meta ByUninstall rx_rounds o E).
Defined.

Lemma apply_ends_witness : ∃ o, @commit_write ex_yaml rx_root "acme" "wiki" ex_meta ByUninstall rx_rounds = Some o.
Proof.
  apply (@apply_ends ex_yaml rx_root "acme" "wiki" ex_meta ByUninstall rx_rounds). eexists. split; [right; right; left|]. vm_compute. discriminate.
Defined.

Lemma commit_says_who_witness :
  split (full_message (message_of "acme" "wiki" rx_meta ByUninstall) rx_meta) NL
    = message_of "acme" "wiki" rx_meta ByUninstall :: match trailers rx_meta with [] => [] | t => "" :: t end
  ∧ filter (λ l, has_prefix l "Gentian-Authz:" = true) (split (full_message (message_of "acme" "wiki" rx_meta ByUninstall) rx_meta) NL)
    = take 1 (trailers rx_meta)
  ∧ ∀ a, author_of (mkPerson "director" "director@example.org") rx_meta = Some a → ∃ name email, a = name +:+ " <" +:+ email +:+ ">"
      ∧ ∀ c, c ∈ ["<"%char; ">"%char; NL] → contains_byte name c = false ∧ contains_byte email c = false.
Proof.
  exact (commit_says_who "acme" "wiki" rx_meta ByUninstall (mkPerson "director" "director@example.org") eq_refl eq_refl rx_told).
Defined.

Lemma manifest_of_another_tenant_witness :
  applyTo rx_root "ac" "" (@edit ex_yaml "ac" "wiki" ex_meta ByUninstall)
    [mkRound (Ok [File (preferred rx_root "acme") (Ok ("  name: acme" +:+ String NL (text_of 2 ex_manifest)))]) (Ok tt) rx_accepted 0 None]
  = Some (mkOutcome (landed "uninstalled" rx_accepted)
      (Some (preferred rx_root "acme", "  name: acme" +:+ String NL (text_of 2 (without ex_manifest "wiki"))))).
Proof.
  apply (manifest_of_another_tenant rx_root "ac" "me" ("  name: acme" +:+ String NL (text_of 2 ex_manifest)) [] []);
    [reflexivity|constructor|constructor|reflexivity|reflexivity|vm_compute; reflexivity|vm_compute; reflexivity|vm_compute; reflexivity|reflexivity].
Defined.
