(* ===== verification/AppGrants.v ===== *)
(** * What an app may consume ([internal/director/gitops/grants.go])

    A tenant's grants are a list, one for each app: the contracts it may consume with how
    much of each, who may consume from it, and who granted it.  An administrator sets or
    clears an app's grant; the platform adds the contracts between components it places
    itself ([PreApproveConsume]).

    [grants_edit_one_app]: each of them changes the grant of the app it names and no
    other.  [pre_approval_adds_only]: the platform's adds a contract the grant does not
    name and leaves what it says of others, and who granted it.
    [cleared_grant_comes_back]: a grant that is cleared is given again by the next
    placement. *)

From S2P Require Import Prelude.
From S2P Require Import GoStrings.
From S2P Require Import Ids.
From S2P Require Import AppEntries.

Record ConsumeGrantSpec := mkConsume { cs_contract : string; cs_granted : list string }.
Record AllowConsumerSpec := mkAllow { al_app : string; al_contract : string; al_scope : list string }.
Record TenantAppGrant := mkAppGrant {
  tg_app : string; tg_consume : list ConsumeGrantSpec; tg_allow : list AllowConsumerSpec;
  tg_by : string; tg_at : option string; tg_reason : string }.
(** What a caller states. *)
Record AppGrant := mkStated { sg_consume : list ConsumeGrantSpec; sg_allow : list AllowConsumerSpec; sg_reason : string }.

#[global] Instance ConsumeGrantSpec_eq_dec : EqDecision ConsumeGrantSpec.
Proof. solve_decision. Defined.
#[global] Instance AllowConsumerSpec_eq_dec : EqDecision AllowConsumerSpec.
Proof. solve_decision. Defined.
#[global] Instance TenantAppGrant_eq_dec : EqDecision TenantAppGrant.
Proof. solve_decision. Defined.

Definition by_app (doc : list TenantAppGrant) : gmap string TenantAppGrant := foldl (λ m e, <[tg_app e := e]> m) ∅ doc.

(** The grants after an edit, and whether it changed anything. *)
Definition editGrants (edit : gmap string TenantAppGrant → gmap string TenantAppGrant * bool) (doc : list TenantAppGrant)
    : list TenantAppGrant * bool :=
  let '(m, changed) := edit (by_app doc) in
  if changed then (omap (λ a, m !! a) (sort_strings (map_to_list m).*1), true) else (doc, false).

Definition writeGrants (app : string) (entry : option TenantAppGrant) : list TenantAppGrant → list TenantAppGrant * bool :=
  editGrants (λ m, match entry with
                   | Some e => (<[app := e]> m, true)
                   | None => match m !! app with Some _ => (delete app m, true) | None => (m, false) end
                   end).

Definition SetAppGrant (tenant app : string) (grant : AppGrant) (meta : Meta) (doc : list TenantAppGrant)
    : result (list TenantAppGrant * bool) :=
  if negb (ValidTenantName tenant) then Err (Wrapf "%w: tenant %q" [tenant] ErrInvalidName)
  else if negb (ValidName app) then Err (Wrapf "%w: app %q" [app] ErrInvalidName)
  else if bool_decide (2000 < String.length (sg_reason grant)) then Err (Errorf "a grant's reason is at most 2000 characters" [])
  else Ok (writeGrants app (Some (mkAppGrant app (sg_consume grant) (sg_allow grant) (me_subject meta) (Some (me_moved_at meta))
                                    (trim_space (sg_reason grant)))) doc).

Definition ClearAppGrant (tenant app : string) (doc : list TenantAppGrant) : result (list TenantAppGrant * bool) :=
  if negb (ValidTenantName tenant) || negb (ValidName app) then Err (Wrapf "%w: tenant %q app %q" [tenant; app] ErrInvalidName)
  else Ok (writeGrants app None doc).

Definition PreApprovedReason : string := "pre-approved by the platform: both components are placed by it".

Definition no_grant : TenantAppGrant := mkAppGrant "" [] [] "" None "".
Definition pre_approve (app contract : string) (granted : list string) (meta : Meta) (m : gmap string TenantAppGrant)
    : gmap string TenantAppGrant * bool :=
  let entry := default no_grant (m !! app) in
  if existsb (λ c, bool_decide (cs_contract c = contract)) (tg_consume entry) then (m, false)
  else
    let consume := tg_consume entry ++ [mkConsume contract granted] in
    let '(by_, at_, reason) :=
      match m !! app with
      | Some e => (tg_by e, tg_at e, tg_reason e)
      | None => (actor meta, Some (me_moved_at meta), PreApprovedReason)
      end in
    (<[app := mkAppGrant app consume (tg_allow entry) by_ at_ reason]> m, true).

Definition PreApproveConsume (tenant app contract : string) (granted : list string) (meta : Meta) (doc : list TenantAppGrant)
    : result (list TenantAppGrant * bool) :=
  if negb (ValidTenantName tenant) || negb (ValidName app) || negb (ValidName contract) || bool_decide (granted = [])
  then Err (Wrapf "%w: tenant %q app %q contract %q" [tenant; app; contract] ErrInvalidName)
  else Ok (editGrants (pre_approve app contract granted meta) doc).

(** ** The grants by app *)

Lemma by_app_snoc doc e : by_app (doc ++ [e]) = <[tg_app e := e]> (by_app doc).
Proof. unfold by_app. by rewrite foldl_app. Qed.

Lemma by_app_app doc a e : by_app doc !! a = Some e → tg_app e = a.
Proof.
  induction doc as [|x doc IH] using rev_ind; [unfold by_app; cbn; by rewrite lookup_empty|]. rewrite by_app_snoc.
  intros [[<- <-]|[_ ?]]%lookup_insert_Some; auto.
Qed.

(** A map of grants under their apps' names is what its list says. *)
Lemma by_app_list (m : gmap string TenantAppGrant) (names : list string) : (∀ a e, m !! a = Some e → tg_app e = a) → (∀ a, a ∈ names → is_Some (m !! a)) →
  NoDup names → ∀ a, by_app (omap (λ a, m !! a) names) !! a = if decide (a ∈ names) then m !! a else None.
Proof.
  intros Hm. induction names as [|n names IH] using rev_ind; intros Hn Hnd a.
  - unfold by_app. cbn. by rewrite lookup_empty, decide_False by apply not_elem_of_nil.
  - apply NoDup_app in Hnd as (Hnd & Hd & _). destruct (Hn n) as [e He]; [apply elem_of_app; right; left|].
    rewrite omap_app. cbn. rewrite He. cbn. rewrite by_app_snoc, (Hm _ _ He).
    assert (∀ a, a ∈ names → is_Some (m !! a)) as Hn' by (intros b Hb; apply Hn, elem_of_app; by left).
    destruct (decide (a = n)) as [->|Hne].
    + by rewrite lookup_insert_eq, decide_True by (apply elem_of_app; right; left).
    + rewrite lookup_insert_ne, IH by done. destruct (decide (a ∈ names)) as [Ha|Ha].
      * by rewrite decide_True by (apply elem_of_app; by left).
      * rewrite decide_False; [done|]. rewrite elem_of_app, list_elem_of_singleton. tauto.
Qed.

Lemma editGrants_spec edit doc : (∀ m a e, (∀ b x, m !! b = Some x → tg_app x = b) → (edit m).1 !! a = Some e → tg_app e = a) →
  (∀ m, (edit m).2 = false → (edit m).1 = m) →
  by_app (editGrants edit doc).1 = (edit (by_app doc)).1 ∧ (editGrants edit doc).2 = (edit (by_app doc)).2.
Proof.
  intros Hkey Hsame. unfold editGrants. destruct (edit (by_app doc)) as [m changed] eqn:E. destruct changed.
  - split; [|done]. apply map_eq. intros a. cbn [fst].
    assert (∀ b x, m !! b = Some x → tg_app x = b) as Hm. { intros b x Hx. apply (Hkey (by_app doc)); [apply by_app_app|]. by rewrite E. }
    rewrite by_app_list; [|done| |].
    + destruct (decide _) as [Ha|Ha]; [done|]. symmetry. apply eq_None_not_Some. intros [x Hx]. apply Ha.
      rewrite elem_of_sort_strings. apply list_elem_of_fmap. exists (a, x). split; [done|]. by apply elem_of_map_to_list.
    + intros b. rewrite elem_of_sort_strings. intros ([k x] & -> & Hx)%list_elem_of_fmap. apply elem_of_map_to_list in Hx. by exists x.
    + rewrite sort_strings_perm. apply NoDup_fst_map_to_list.
  - cbn. specialize (Hsame (by_app doc)). rewrite E in Hsame. cbn in Hsame. by rewrite Hsame.
Qed.

(** ** What the edits do *)

(** The three edits of an app's grant. *)
Inductive grant_edit := Setting (grant : AppGrant) | Clearing | PreApproving (contract : string) (granted : list string).
Definition edit_grants (tenant app : string) (meta : Meta) (x : grant_edit) (doc : list TenantAppGrant) : result (list TenantAppGrant * bool) :=
  match x with
  | Setting grant => SetAppGrant tenant app grant meta doc
  | Clearing => ClearAppGrant tenant app doc
  | PreApproving contract granted => PreApproveConsume tenant app contract granted meta doc
  end.

(** What the edit makes of the app's grant. *)
Definition granted_to (app : string) (meta : Meta) (x : grant_edit) (had : option TenantAppGrant) : option TenantAppGrant :=
  match x with
  | Setting g => Some (mkAppGrant app (sg_consume g) (sg_allow g) (me_subject meta) (Some (me_moved_at meta)) (trim_space (sg_reason g)))
  | Clearing => None
  | PreApproving contract granted =>
      match had with
      | None => Some (mkAppGrant app [mkConsume contract granted] [] (actor meta) (Some (me_moved_at meta)) PreApprovedReason)
      | Some e =>
          if decide (contract ∈ cs_contract <$> tg_consume e) then Some e
          else Some (mkAppGrant app (tg_consume e ++ [mkConsume contract granted]) (tg_allow e) (tg_by e) (tg_at e) (tg_reason e))
      end
  end.

Lemma names_contract (l : list ConsumeGrantSpec) contract :
  existsb (λ c, bool_decide (cs_contract c = contract)) l = bool_decide (contract ∈ cs_contract <$> l).
Proof.
  apply eq_true_iff_eq. rewrite existsb_exists, bool_decide_eq_true, list_elem_of_fmap. setoid_rewrite bool_decide_eq_true.
  setoid_rewrite <-list_elem_of_In. naive_solver.
Qed.

Lemma pre_approve_spec app contract granted meta m :
  pre_approve app contract granted meta m =
    (partial_alter (λ had, granted_to app meta (PreApproving contract granted) had) app m,
     negb (bool_decide (contract ∈ cs_contract <$> tg_consume (default no_grant (m !! app))))).
Proof.
  unfold pre_approve. cbv zeta. rewrite names_contract. destruct (m !! app) as [e|] eqn:Em; cbn [default].
  - destruct (decide (contract ∈ cs_contract <$> tg_consume e)) as [Hin|Hin].
    + rewrite bool_decide_eq_true_2 by done. f_equal. symmetry. apply map_eq. intros a. destruct (decide (a = app)) as [->|Hne].
      * rewrite lookup_partial_alter_eq, Em. cbn. by rewrite decide_True.
      * by rewrite lookup_partial_alter_ne.
    + rewrite bool_decide_eq_false_2 by done. f_equal. apply map_eq. intros a. destruct (decide (a = app)) as [->|Hne].
      * rewrite lookup_insert_eq, lookup_partial_alter_eq, Em. cbn. by rewrite decide_False.
      * by rewrite lookup_insert_ne, lookup_partial_alter_ne.
  - cbn. f_equal. apply map_eq. intros a. destruct (decide (a = app)) as [->|Hne].
    + by rewrite lookup_insert_eq, lookup_partial_alter_eq, Em.
    + by rewrite lookup_insert_ne, lookup_partial_alter_ne.
Qed.

Lemma write_grants_spec app entry doc : (∀ e, entry = Some e → tg_app e = app) →
  by_app (writeGrants app entry doc).1 = partial_alter (λ _, entry) app (by_app doc).
Proof.
  intros He. unfold writeGrants. destruct (editGrants_spec (λ m, match entry with
      | Some e => (<[app := e]> m, true)
      | None => match m !! app with Some _ => (delete app m, true) | None => (m, false) end
      end) doc) as [-> _].
  - intros m a e Hm. destruct entry as [e0|]; cbn.
    + intros [[<- <-]|[_ ?]]%lookup_insert_Some; [by apply He|by apply Hm].
    + destruct (m !! app); cbn; [intros [_ ?]%lookup_delete_Some; by apply Hm|by apply Hm].
  - intros m. destruct entry; [done|]. by destruct (m !! app).
  - destruct entry; [done|]. destruct (by_app doc !! app) eqn:Ea; [done|]. cbn. apply map_eq. intros a. destruct (decide (a = app)) as [->|Hne].
    + by rewrite lookup_partial_alter_eq.
    + by rewrite lookup_partial_alter_ne.
Qed.

Lemma Ok_fst {A B} (p : A * B) a b : Ok p = Ok (a, b) → a = p.1.
Proof. by intros [= ->]. Qed.

Lemma edit_grants_spec tenant app meta x doc doc' changed : edit_grants tenant app meta x doc = Ok (doc', changed) →
  by_app doc' = partial_alter (granted_to app meta x) app (by_app doc).
Proof.
  destruct x as [g| |contract granted]; cbn [edit_grants].
  - unfold SetAppGrant. repeat (destruct (_ : bool); [done|]). intros ->%Ok_fst.
    rewrite write_grants_spec; [done|]. by intros e [= <-].
  - unfold ClearAppGrant. destruct (_ : bool); [done|]. intros ->%Ok_fst.
    rewrite write_grants_spec; [done|]. by intros e.
  - unfold PreApproveConsume. destruct (_ : bool); [done|]. intros ->%Ok_fst.
    destruct (editGrants_spec (pre_approve app contract granted meta) doc) as [-> _]; [| |by rewrite pre_approve_spec].
    + intros m a e Hm. rewrite pre_approve_spec. cbn. destruct (decide (a = app)) as [->|Hne].
      * rewrite lookup_partial_alter_eq. cbn. destruct (m !! app) as [e0|] eqn:E; [|by intros [= <-]].
        destruct (decide _); intros [= <-]; [by apply Hm|done].
      * rewrite lookup_partial_alter_ne by done. by apply Hm.
    + intros m. rewrite pre_approve_spec. cbn. rewrite negb_false_iff, bool_decide_eq_true. intros Hin. apply map_eq. intros a.
      destruct (decide (a = app)) as [->|Hne]; [|by rewrite lookup_partial_alter_ne].
      rewrite lookup_partial_alter_eq. cbn. destruct (m !! app) as [e|]; [by rewrite decide_True|by apply not_elem_of_nil in Hin].
Qed.

(** Setting, clearing or pre-approving what an app may consume changes that app's grant,
    to what is meant, and no other app's, in the list as it is read back. *)
Theorem grants_edit_one_app tenant app meta x doc doc' changed : edit_grants tenant app meta x doc = Ok (doc', changed) →
  by_app doc' !! app = granted_to app meta x (by_app doc !! app) ∧ ∀ other, other ≠ app → by_app doc' !! other = by_app doc !! other.
Proof.
  intros ->%edit_grants_spec. split; [by rewrite lookup_partial_alter_eq|]. intros other Hne. by rewrite lookup_partial_alter_ne.
Qed.

(** However often the platform pre-approves contracts, whatever an app's grant said of a
    contract stays as it was, with who granted it and who may consume from the app: an
    administrator's narrower grant is not widened. *)
Theorem pre_approval_adds_only tenant meta (asks : list (string * string * list string)) doc doc' app e c :
  foldl (λ d a, match edit_grants tenant a.1.1 meta (PreApproving a.1.2 a.2) d with Ok (d', _) => d' | Err _ => d end) doc asks = doc' →
  by_app doc !! app = Some e → c ∈ tg_consume e →
  ∃ e', by_app doc' !! app = Some e' ∧ c ∈ tg_consume e' ∧ (∀ c', c' ∈ tg_consume e' → cs_contract c' = cs_contract c → c' ∈ tg_consume e)
    ∧ tg_by e' = tg_by e ∧ tg_at e' = tg_at e ∧ tg_reason e' = tg_reason e ∧ tg_allow e' = tg_allow e.
Proof.
  intros <- He Hc. assert (∃ e', by_app (foldl (λ d a, match edit_grants tenant a.1.1 meta (PreApproving a.1.2 a.2) d with Ok (d', _) => d' | Err _ => d end) doc asks) !! app = Some e'
    ∧ (∃ more, tg_consume e' = tg_consume e ++ more ∧ Forall (λ c', cs_contract c' ≠ cs_contract c) more)
    ∧ tg_by e' = tg_by e ∧ tg_at e' = tg_at e ∧ tg_reason e' = tg_reason e ∧ tg_allow e' = tg_allow e) as (e' & He' & (more & Hm & Hne) & Hrest).
  { induction asks as [|[[a contract] granted] asks IH] using rev_ind; [exists e; split_and!; [done|exists []; by rewrite app_nil_r|done..]|].
    rewrite foldl_app. cbn [foldl fst snd]. destruct IH as (e1 & He1 & (more & Hm & Hne) & Hb & Ha & Hr & Hal).
    destruct (edit_grants tenant a meta _ _) as [[d' ch]|] eqn:E; [|by exists e1; split_and!; [|exists more|..]].
    apply edit_grants_spec in E. rewrite E. destruct (decide (app = a)) as [->|Hna]; [|rewrite lookup_partial_alter_ne by done; by exists e1; split_and!; [|exists more|..]].
    rewrite lookup_partial_alter_eq, He1. cbn. destruct (decide (contract ∈ cs_contract <$> tg_consume e1)) as [Hin|Hin]; [by exists e1; split_and!; [|exists more|..]|].
    eexists. split; [done|]. cbn. split_and!; [|done..]. exists (more ++ [mkConsume contract granted]). rewrite Hm, app_assoc. split; [done|].
    apply Forall_app. split; [done|]. repeat constructor. cbn. intros ->. apply Hin. rewrite Hm, fmap_app. apply elem_of_app. left. by apply list_elem_of_fmap_2. }
  exists e'. split; [done|]. rewrite Hm. split; [apply elem_of_app; by left|]. split; [|done].
  intros c' [?|Hmore]%elem_of_app Heq; [done|]. by destruct (proj1 (Forall_forall _ _) Hne c' Hmore).
Qed.

(** A grant that is cleared is given again, whole, when the platform next pre-approves the
    contract: only a grant that still names the contract keeps it from being given. *)
Theorem cleared_grant_comes_back tenant app contract granted meta doc doc1 ch1 doc2 ch2 :
  edit_grants tenant app meta Clearing doc = Ok (doc1, ch1) →
  edit_grants tenant app meta (PreApproving contract granted) doc1 = Ok (doc2, ch2) →
  by_app doc2 !! app = Some (mkAppGrant app [mkConsume contract granted] [] (actor meta) (Some (me_moved_at meta)) PreApprovedReason).
Proof.
  intros H1%edit_grants_spec ->%edit_grants_spec. rewrite lookup_partial_alter_eq, H1, lookup_partial_alter_eq. done.
Qed.

(** ** An example *)

Module GrantsExample.
Definition gx_meta : Meta := mkMeta (mkPerson "" "") "" "" "the platform's placement" "platform:placement" "" "" "2026-11-16T09:00:00Z".
Definition gx_narrow : TenantAppGrant :=
  mkAppGrant "store" [mkConsume "desktop-api" ["tiles"]] [] "f3a1" (Some "2026-11-01T08:00:00Z") "tiles only".
Definition gx_doc : list TenantAppGrant := [gx_narrow; mkAppGrant "wiki" [] [] "f3a1" None ""].
Definition gx_asks : list (string * string * list string) := [("store", "desktop-api", ["tiles"; "read"]); ("store", "calendar", ["read"])].
Definition gx_after : list TenantAppGrant :=
  foldl (λ d a, match edit_grants "demo" a.1.1 gx_meta (PreApproving a.1.2 a.2) d with Ok (d', _) => d' | Err _ => d end) gx_doc gx_asks.
Definition gx_cleared : list TenantAppGrant := [mkAppGrant "wiki" [] [] "f3a1" None ""].
End GrantsExample.
Import GrantsExample.

Lemma grants_edit_one_app_witness :
  by_app gx_cleared !! "store" = granted_to "store" gx_meta Clearing (by_app gx_doc !! "store")
  ∧ ∀ other, other ≠ "store" → by_app gx_cleared !! other = by_app gx_doc !! other.
Proof. apply (grants_edit_one_app "demo" "store" gx_meta Clearing gx_doc gx_cleared true). vm_compute. reflexivity. Defined.

Lemma pre_approval_adds_only_witness : ∃ e', by_app gx_after !! "store" = Some e' ∧ mkConsume "desktop-api" ["tiles"] ∈ tg_consume e'
  ∧ (∀ c', c' ∈ tg_consume e' → cs_contract c' = "desktop-api" → c' ∈ tg_consume gx_narrow)
  ∧ tg_by e' = "f3a1" ∧ tg_at e' = Some "2026-11-01T08:00:00Z" ∧ tg_reason e' = "tiles only" ∧ tg_allow e' = [].
Proof.
  apply (pre_approval_adds_only "demo" gx_meta gx_asks gx_doc gx_after "store" gx_narrow (mkConsume "desktop-api" ["tiles"]));
    [reflexivity|vm_compute; reflexivity|left].
Defined.

Lemma cleared_grant_comes_back_witness : ∃ doc2 ch2,
  edit_grants "demo" "store" gx_meta (PreApproving "desktop-api" ["tiles"; "read"]) gx_cleared = Ok (doc2, ch2)
  ∧ by_app doc2 !! "store"
    = Some (mkAppGrant "store" [mkConsume "desktop-api" ["tiles"; "read"]] [] "platform:placement" (Some "2026-11-16T09:00:00Z") PreApprovedReason).
Proof.
  eexists _, _. split; [vm_compute; reflexivity|].
  eapply (cleared_grant_comes_back "demo" "store" "desktop-api" ["tiles"; "read"] gx_meta gx_doc gx_cleared true); vm_compute; reflexivity.
Defined.
