(* ===== verification/Placement.v ===== *)
(** * What the platform places where ([internal/placement])

    A placeable profile names the tenants it goes to and, if it wants, a condition it lasts
    for.  [Decide] says, from what the cluster says, which profiles a user tenant and the
    platform tenant have, which could not be decided, and which contracts between placed
    components need nobody's approval ([preApproved]).

    [Decide_exact]: each of the four lists, profile by profile.  [preApproved_exact]: a
    contract is pre-approved exactly when both sides are the platform's own. *)

From S2P Require Import Prelude.
From S2P Require Import GoStrings.

(** ** Profiles *)

Definition PlacementEvery : string := "every".
Definition PlacementPlatform : string := "platform".
Definition PlacementUsers : string := "users".
Definition PlacementWhileStoreOffered : string := "storeOffered".
Definition PlacementWhileLLM : string := "llm".
Definition PlacementWhileCredentialSet : string := "credentialSet".
Definition ComponentClassApp : string := "app".
Definition TrustTierPlatform : string := "platform".
Definition RequiresUsageStatisticsAnnotation : string := "gentianos.io/requires-usage-statistics".
Definition RequiresCapabilityAnnotation : string := "gentianos.io/requires-capability".

Record ComponentPlacement := mkPlacement { pl_tenants : string; pl_while : string }.
Record IntegrationRef := mkIntegration { ig_contract : string; ig_provider : string; ig_capabilities : list string }.
Record ComponentProfile := mkProfile {
  cp_name : string; cp_annotations : gmap string string; cp_classes : list string; cp_trust : string;
  cp_placement : option ComponentPlacement; cp_for_tenants : bool; cp_for_platform : bool; cp_where_store : bool;
  cp_integrations : list IntegrationRef; cp_provides : list string }.

Definition annotation (p : ComponentProfile) (k : string) : string := default "" (cp_annotations p !! k).

(** [spec.placement], or what a catalog said before it. *)
Definition PlacementOf (p : ComponentProfile) : option ComponentPlacement :=
  match cp_placement p with
  | Some pl => Some pl
  | None =>
      if cp_for_tenants p then Some (mkPlacement PlacementEvery "")
      else if cp_for_platform p then Some (mkPlacement PlacementPlatform "")
      else if cp_where_store p then Some (mkPlacement PlacementUsers PlacementWhileStoreOffered)
      else if bool_decide (annotation p RequiresCapabilityAnnotation = PlacementWhileLLM)
      then Some (mkPlacement PlacementUsers PlacementWhileLLM)
      else None
  end.

Definition isApp (p : ComponentProfile) : bool := existsb (λ c, bool_decide (c = ComponentClassApp)) (cp_classes p).

Definition ByOperator (p : ComponentProfile) : bool :=
  match PlacementOf p with Some pl => negb (bool_decide (pl_while pl = PlacementWhileLLM)) | None => false end.

(** ** The decision *)

Record PSet := mkSet { st_wanted : list string; st_undecided : list string }.
Definition Has (s : PSet) (name : string) : bool := existsb (λ have, bool_decide (have = name)) (st_wanted s).
Definition Decided (s : PSet) (name : string) : bool := negb (existsb (λ have, bool_decide (have = name)) (st_undecided s)).

Record Grant := mkPlatformGrant { gr_app : string; gr_contract : string; gr_provider : string; gr_capabilities : list string }.
Record Answer := mkAnswer { an_users : PSet; an_platform : PSet; an_grants : list Grant }.
Definition For (a : Answer) (platform : bool) : PSet := if platform then an_platform a else an_users a.

Record Facts := mkFacts {
  fa_profiles : list ComponentProfile; fa_usage_statistics : bool; fa_store_offered : option bool;
  fa_credentialed : gset string; fa_gone : gset string }.

Definition want (s : PSet) (name : string) : PSet := mkSet (st_wanted s ++ [name]) (st_undecided s).
Definition undecide (s : PSet) (name : string) : PSet := mkSet (st_wanted s) (st_undecided s ++ [name]).

(** Whether a profile is looked at further. *)
Definition considered (f : Facts) (p : ComponentProfile) (pl : ComponentPlacement) : bool :=
  negb (bool_decide (pl_while pl = PlacementWhileLLM)) && isApp p
  && negb (bool_decide (annotation p RequiresUsageStatisticsAnnotation = "true") && negb (fa_usage_statistics f))
  && negb (bool_decide (cp_name p ∈ fa_gone f)).

Definition decide_one (f : Facts) (out : PSet * PSet) (p : ComponentProfile) : PSet * PSet :=
  let '(users, platform) := out in
  let name := cp_name p in
  match PlacementOf p with
  | None => out
  | Some pl =>
      if negb (considered f p pl) then out
      else if bool_decide (pl_while pl = PlacementWhileStoreOffered) && bool_decide (fa_store_offered f = None)
      then (undecide users name, undecide platform name)
      else if bool_decide (pl_while pl = PlacementWhileStoreOffered) && bool_decide (fa_store_offered f = Some false) then out
      else if bool_decide (pl_while pl = PlacementWhileCredentialSet) && negb (bool_decide (name ∈ fa_credentialed f))
      then (users, undecide platform name)
      else if bool_decide (pl_tenants pl = PlacementEvery) then (want users name, want platform name)
      else if bool_decide (pl_tenants pl = PlacementPlatform) then (users, want platform name)
      else if bool_decide (pl_tenants pl = PlacementUsers) then (want users name, platform)
      else out
  end.

Definition sorted_set (s : PSet) : PSet := mkSet (sort_strings (st_wanted s)) (sort_strings (st_undecided s)).

(** ** What needs nobody's approval *)

Definition own (gone : gset string) (p : ComponentProfile) : bool :=
  ByOperator p && isApp p && negb (bool_decide (cp_name p ∈ gone)) && bool_decide (cp_trust p = TrustTierPlatform).

Definition ours (gone : gset string) (profiles : list ComponentProfile) : gmap string ComponentProfile :=
  foldl (λ m p, if own gone p then <[cp_name p := p]> m else m) ∅ profiles.

Definition grant_of (by_name : gmap string ComponentProfile) (consumer : ComponentProfile) (i : IntegrationRef) : list Grant :=
  match by_name !! ig_provider i with
  | None => []
  | Some provider =>
      if bool_decide (ig_capabilities i = []) || bool_decide (cp_name provider = cp_name consumer) then []
      else if bool_decide (ig_contract i ∈ cp_provides provider)
      then [mkPlatformGrant (cp_name consumer) (ig_contract i) (cp_name provider) (ig_capabilities i)]
      else []
  end.

Definition grant_le : relation Grant := λ a b,
  if bool_decide (gr_app a = gr_app b) then String.le (gr_contract a) (gr_contract b) else String.le (gr_app a) (gr_app b).
#[global] Instance grant_le_dec a b : Decision (grant_le a b).
Proof. unfold grant_le. destruct (bool_decide _); apply _. Defined.

(** The map is gone through in an order of its own; the list is sorted. *)
Definition preApproved (profiles : list ComponentProfile) (gone : gset string) : list Grant :=
  let by_name := ours gone profiles in
  merge_sort grant_le ((map_to_list by_name).*2 ≫= λ consumer, cp_integrations consumer ≫= grant_of by_name consumer).

Definition Decide (f : Facts) : Answer :=
  let '(users, platform) := foldl (decide_one f) (mkSet [] [], mkSet [] []) (fa_profiles f) in
  mkAnswer (sorted_set users) (sorted_set platform) (preApproved (fa_profiles f) (fa_gone f)).

(** ** The entries a tenant's administrator installed *)

(** A reading of a profile: the object, none of the name, or a failure. *)
Record TenantApp := mkTenantApp { ta_profile : string; ta_profile_ref : option string; ta_placed : bool }.
Definition installed_name (app : TenantApp) : string :=
  if bool_decide (ta_profile app = "") then default (ta_profile app) (ta_profile_ref app) else ta_profile app.

Definition Installed (get : string → result (option ComponentProfile)) (apps : list TenantApp) : result (list TenantApp) :=
  fold_result (λ out app,
    if negb (ta_placed app) then Ok (out ++ [app])
    else p ← get (installed_name app);
         Ok (match p with
             | None => out ++ [app]
             | Some profile => if negb (ByOperator profile) then out ++ [app] else out
             end)) [] apps.

(** ** What the decision is *)

(** A placement the operator decides, of an app that is to be placed at all. *)
Record eligible (f : Facts) (p : ComponentProfile) (pl : ComponentPlacement) : Prop := {
  el_placement : PlacementOf p = Some pl;
  el_while : pl_while pl ≠ PlacementWhileLLM;
  el_class : ComponentClassApp ∈ cp_classes p;
  el_statistics : annotation p RequiresUsageStatisticsAnnotation = "true" → fa_usage_statistics f = true;
  el_here : cp_name p ∉ fa_gone f }.

Definition goes (pl : ComponentPlacement) (platform : bool) : Prop :=
  pl_tenants pl = PlacementEvery ∨ pl_tenants pl = (if platform then PlacementPlatform else PlacementUsers).

Definition wanted_in (f : Facts) (platform : bool) (p : ComponentProfile) : Prop :=
  ∃ pl, eligible f p pl ∧ goes pl platform
    ∧ (pl_while pl = PlacementWhileStoreOffered → fa_store_offered f = Some true)
    ∧ (pl_while pl = PlacementWhileCredentialSet → cp_name p ∈ fa_credentialed f).

Definition undecided_in (f : Facts) (platform : bool) (p : ComponentProfile) : Prop :=
  ∃ pl, eligible f p pl
    ∧ (pl_while pl = PlacementWhileStoreOffered ∧ fa_store_offered f = None
       ∨ platform = true ∧ pl_while pl = PlacementWhileCredentialSet ∧ cp_name p ∉ fa_credentialed f).

Lemma existsb_string (l : list string) x : existsb (λ y, bool_decide (y = x)) l = true ↔ x ∈ l.
Proof. rewrite existsb_exists, list_elem_of_In. setoid_rewrite bool_decide_eq_true. split; [by intros (y & Hy & ->)|by eauto]. Qed.

Lemma considered_eligible f p pl : PlacementOf p = Some pl → (considered f p pl = true ↔ eligible f p pl).
Proof.
  intros Hp. unfold considered. rewrite !andb_true_iff, !negb_true_iff, !bool_decide_eq_false, andb_false_iff, bool_decide_eq_false, negb_false_iff.
  unfold isApp. rewrite existsb_string. split.
  - intros [[[? ?] Hs] ?]. constructor; [done..| |done]. intros Ha. by destruct Hs.
  - intros [_ ? ? Hs ?]. split_and!; [done..| |done]. destruct (decide (annotation p RequiresUsageStatisticsAnnotation = "true")); auto.
Qed.

(** One profile adds its name to a list exactly where it is to be there. *)
Definition side (out : PSet * PSet) (platform : bool) : PSet := if platform then out.2 else out.1.

Lemma add_yes (W : Prop) (l : list string) x n : W → (x ∈ l ++ [n] ↔ x ∈ l ∨ x = n ∧ W).
Proof. intros HW. rewrite elem_of_app, list_elem_of_singleton. tauto. Qed.
Lemma add_no (W : Prop) (l : list string) x n : ¬ W → (x ∈ l ↔ x ∈ l ∨ x = n ∧ W).
Proof. tauto. Qed.

Definition condition (f : Facts) (p : ComponentProfile) (pl : ComponentPlacement) : Prop :=
  (pl_while pl = PlacementWhileStoreOffered → fa_store_offered f = Some true)
  ∧ (pl_while pl = PlacementWhileCredentialSet → cp_name p ∈ fa_credentialed f).
Definition unknown (f : Facts) (platform : bool) (p : ComponentProfile) (pl : ComponentPlacement) : Prop :=
  pl_while pl = PlacementWhileStoreOffered ∧ fa_store_offered f = None
  ∨ platform = true ∧ pl_while pl = PlacementWhileCredentialSet ∧ cp_name p ∉ fa_credentialed f.

Lemma decide_eligible f out p pl platform name : eligible f p pl →
  (name ∈ st_wanted (side (decide_one f out p) platform)
     ↔ name ∈ st_wanted (side out platform) ∨ name = cp_name p ∧ goes pl platform ∧ condition f p pl)
  ∧ (name ∈ st_undecided (side (decide_one f out p) platform) ↔ name ∈ st_undecided (side out platform) ∨ name = cp_name p ∧ unknown f platform p pl).
Proof.
  intros He. destruct out as [users plat]. unfold decide_one. rewrite (el_placement _ _ _ He).
  rewrite (proj2 (considered_eligible f p pl (el_placement _ _ _ He)) He). cbn [negb].
  assert (PlacementWhileStoreOffered ≠ PlacementWhileCredentialSet) as Hne by done.
  destruct (bool_decide (pl_while pl = PlacementWhileStoreOffered) && bool_decide (fa_store_offered f = None)) eqn:E1.
  { apply andb_true_iff in E1 as [Hs%bool_decide_eq_true Hn%bool_decide_eq_true].
    destruct platform; cbn; (split; [apply add_no; intros [_ [Hc _]]; specialize (Hc Hs); congruence|apply add_yes; by left]). }
  destruct (bool_decide (pl_while pl = PlacementWhileStoreOffered) && bool_decide (fa_store_offered f = Some false)) eqn:E2.
  { apply andb_true_iff in E2 as [Hs%bool_decide_eq_true Hn%bool_decide_eq_true].
    destruct platform; cbn; (split; [apply add_no; intros [_ [Hc _]]; specialize (Hc Hs); congruence|apply add_no; intros [[_ ?]|(_ & ? & _)]; congruence]). }
  assert (pl_while pl = PlacementWhileStoreOffered → fa_store_offered f = Some true) as Hstore.
  { intros Hs. rewrite (bool_decide_eq_true_2 (pl_while pl = _)) in E1, E2 by done. cbn [andb] in E1, E2. apply bool_decide_eq_false in E1, E2.
    destruct (fa_store_offered f) as [[]|]; congruence. }
  destruct (bool_decide (pl_while pl = PlacementWhileCredentialSet) && negb (bool_decide (cp_name p ∈ fa_credentialed f))) eqn:E3.
  { apply andb_true_iff in E3 as [Hc%bool_decide_eq_true Hn%negb_true_iff%bool_decide_eq_false].
    assert (¬ condition f p pl) as Hno by (intros [_ H]; by apply Hn, H).
    destruct platform; cbn; (split; [apply add_no; tauto|]); [apply add_yes; by right|apply add_no; intros [[? _]|[? _]]; congruence]. }
  assert (condition f p pl) as Hcond.
  { split; [done|]. intros Hc. rewrite (bool_decide_eq_true_2 (pl_while pl = _)) in E3 by done. by apply negb_false_iff, bool_decide_eq_true in E3. }
  assert (¬ unknown f platform p pl) as Hknown. { intros [[Hs Hn]|(_ & Hc & Hn)]; [specialize (Hstore Hs); congruence|by apply Hn, Hcond]. }
  assert (PlacementPlatform ≠ PlacementUsers) as Hpu by done. unfold goes. repeat case_bool_decide; destruct platform; cbn; (split; [|by apply add_no]).
  all: first [apply add_yes; split; [tauto|done]|apply add_no; intros [[?|?] _]; congruence].
Qed.

Lemma decide_one_spec f out p platform name :
  (name ∈ st_wanted (side (decide_one f out p) platform) ↔ name ∈ st_wanted (side out platform) ∨ name = cp_name p ∧ wanted_in f platform p)
  ∧ (name ∈ st_undecided (side (decide_one f out p) platform) ↔ name ∈ st_undecided (side out platform) ∨ name = cp_name p ∧ undecided_in f platform p).
Proof.
  assert ((∃ pl, eligible f p pl) ∨ decide_one f out p = out ∧ ∀ pl, ¬ eligible f p pl) as [[pl He]|[-> Hno]].
  { destruct out as [users plat]. unfold decide_one. destruct (PlacementOf p) as [pl|] eqn:Epl; [|right; split; [done|]; intros pl' []; congruence].
    destruct (considered f p pl) eqn:Ec; [left; exists pl; by apply considered_eligible|right]. split; [done|]. intros pl' He.
    assert (pl' = pl) as -> by (destruct He; congruence). apply considered_eligible in He; [congruence|done]. }
  - assert (∀ pl', eligible f p pl' → pl' = pl) as Huniq by (intros pl' []; destruct He; congruence).
    destruct (decide_eligible f out p pl platform name He) as [-> ->]. unfold wanted_in, undecided_in. split.
    + apply or_iff_compat_l, and_iff_compat_l. split; [intros (Hg & Hs & Hc); by exists pl|]. intros (pl' & He' & H). by rewrite (Huniq _ He') in H.
    + apply or_iff_compat_l, and_iff_compat_l. split; [intros Hu; by exists pl|]. intros (pl' & He' & H). by rewrite (Huniq _ He') in H.
  - split; apply add_no; by intros (pl & He & _); apply (Hno pl).
Qed.

Lemma decide_all_spec f ps out platform name :
  (name ∈ st_wanted (side (foldl (decide_one f) out ps) platform)
     ↔ name ∈ st_wanted (side out platform) ∨ ∃ p, p ∈ ps ∧ name = cp_name p ∧ wanted_in f platform p)
  ∧ (name ∈ st_undecided (side (foldl (decide_one f) out ps) platform)
     ↔ name ∈ st_undecided (side out platform) ∨ ∃ p, p ∈ ps ∧ name = cp_name p ∧ undecided_in f platform p).
Proof.
  revert out. induction ps as [|p ps IH]; intros out; cbn [foldl].
  - split; (split; [by left|]); intros [?|(p & Hp & _)]; [done|by apply not_elem_of_nil in Hp|done|by apply not_elem_of_nil in Hp].
  - destruct (IH (decide_one f out p)) as [-> ->]. destruct (decide_one_spec f out p platform name) as [-> ->]. setoid_rewrite elem_of_cons. split; naive_solver.
Qed.

Lemma NoDup_fmap_elem {A B} (g : A → B) (l : list A) x y : NoDup (g <$> l) → x ∈ l → y ∈ l → g x = g y → x = y.
Proof.
  intros Hn [i Hi]%list_elem_of_lookup [j Hj]%list_elem_of_lookup Hg. assert (i = j) as ->; [|congruence].
  eapply NoDup_lookup; [exact Hn|by rewrite list_lookup_fmap, Hi|rewrite list_lookup_fmap, Hj; cbn; by rewrite Hg].
Qed.

(** C21: The decision, profile by profile: a profile is placed in the tenants of a kind exactly
    when it is placeable, certified as an app, not gone from the catalog and, if it asks
    for that, on a cluster that reports its usage, its placement names those tenants, and
    the condition it lasts for holds; it is undecided exactly when the condition could not
    be read, or lapsed where a lapse may not take anything away; the lists are sorted, and
    where no two profiles share a name none is in both. *)
Theorem Decide_exact f platform name :
  (Has (For (Decide f) platform) name = true ↔ ∃ p, p ∈ fa_profiles f ∧ cp_name p = name ∧ wanted_in f platform p)
  ∧ (Decided (For (Decide f) platform) name = false ↔ ∃ p, p ∈ fa_profiles f ∧ cp_name p = name ∧ undecided_in f platform p)
  ∧ StronglySorted String.le (st_wanted (For (Decide f) platform)) ∧ StronglySorted String.le (st_undecided (For (Decide f) platform))
  ∧ (NoDup (cp_name <$> fa_profiles f) → Has (For (Decide f) platform) name = true → Decided (For (Decide f) platform) name = true).
Proof.
  unfold Decide. destruct (foldl (decide_one f) (mkSet [] [], mkSet [] []) (fa_profiles f)) as [users plat] eqn:E.
  pose proof (decide_all_spec f (fa_profiles f) (mkSet [] [], mkSet [] []) platform name) as [Hw Hu]. rewrite E in Hw, Hu.
  assert (For (mkAnswer (sorted_set users) (sorted_set plat) (preApproved (fa_profiles f) (fa_gone f))) platform = sorted_set (side (users, plat) platform)) as ->
    by (by destruct platform).
  assert (Has (sorted_set (side (users, plat) platform)) name = true ↔ ∃ p, p ∈ fa_profiles f ∧ cp_name p = name ∧ wanted_in f platform p) as HasE.
  { unfold Has. rewrite existsb_string. cbn. rewrite elem_of_sort_strings, Hw. destruct platform; cbn; setoid_rewrite elem_of_nil; naive_solver. }
  assert (Decided (sorted_set (side (users, plat) platform)) name = false ↔ ∃ p, p ∈ fa_profiles f ∧ cp_name p = name ∧ undecided_in f platform p) as DecE.
  { unfold Decided. rewrite negb_false_iff, existsb_string. cbn. rewrite elem_of_sort_strings, Hu. destruct platform; cbn; setoid_rewrite elem_of_nil; naive_solver. }
  do 2 (split; [done|]). do 2 (split; [apply sort_strings_sorted|]). intros Hnd Hhas. apply not_false_iff_true. intros Hdec.
  apply HasE in Hhas as (p & Hp & <- & pl & He & _ & Hs & Hc). apply DecE in Hdec as (q & Hq & Heq & pl' & He' & Hcase).
  assert (q = p) as -> by (by eapply NoDup_fmap_elem). assert (pl' = pl) as -> by (destruct He, He'; congruence).
  destruct Hcase as [[Hw' Hn]|(_ & Hw' & Hn)]; [specialize (Hs Hw'); congruence|by apply Hn, Hc].
Qed.

(** ** What is pre-approved *)

Lemma ours_lookup gone profiles n p : NoDup (cp_name <$> profiles) →
  (ours gone profiles !! n = Some p ↔ p ∈ profiles ∧ cp_name p = n ∧ own gone p = true).
Proof.
  unfold ours. assert (∀ ps (m : gmap string ComponentProfile), NoDup (cp_name <$> ps) → (∀ q, q ∈ ps → m !! cp_name q = None) →
    (foldl (λ m p, if own gone p then <[cp_name p := p]> m else m) m ps !! n = Some p ↔ m !! n = Some p ∨ p ∈ ps ∧ cp_name p = n ∧ own gone p = true)) as Hgo.
  { intros ps. induction ps as [|q ps IH]; intros m Hnd Hm; cbn [foldl].
    - split; [by left|]. intros [?|[Hp _]]; [done|by apply not_elem_of_nil in Hp].
    - apply NoDup_cons in Hnd as [Hq Hnd]. rewrite IH; [|done|].
      + pose proof (Hm q ltac:(left)) as Hnone. rewrite elem_of_cons. destruct (own gone q) eqn:Eo.
        * rewrite lookup_insert_Some. split; [|].
          -- intros [[[<- <-]|[_ ?]]|(? & ? & ?)]; [right; by split_and!; [left|..]|by left|right; by split_and!; [right|..]].
          -- intros [Hp|([->|Hp] & <- & Ho)]; [|by left; left|by right].
             left. right. split; [intros <-; congruence|done].
        * split; [intros [?|(? & ? & ?)]; [by left|right; by split_and!; [right|..]]|]. intros [?|([->|Hp] & <- & Ho)]; [by left|congruence|by right].
      + intros r Hr. destruct (own gone q); [|by apply Hm; right]. rewrite lookup_insert_ne; [by apply Hm; right|].
        intros Heq. apply Hq. rewrite Heq. by apply list_elem_of_fmap_2. }
  intros Hnd. rewrite Hgo; [|done|by intros; apply lookup_empty]. rewrite lookup_empty. naive_solver.
Qed.

#[global] Instance grant_le_total : Total grant_le.
Proof.
  intros a b. unfold grant_le. destruct (decide (gr_app a = gr_app b)) as [Heq|Hne].
  - rewrite !bool_decide_eq_true_2 by done. apply (total String.le).
  - rewrite !bool_decide_eq_false_2 by done. apply (total String.le).
Qed.
#[global] Instance grant_le_trans : Transitive grant_le.
Proof.
  intros a b c. unfold grant_le. destruct (decide (gr_app a = gr_app b)) as [Hab|Hab], (decide (gr_app b = gr_app c)) as [Hbc|Hbc].
  - rewrite Hab, Hbc, !bool_decide_eq_true_2 by done. apply transitivity.
  - rewrite Hab, !bool_decide_eq_true_2, bool_decide_eq_false_2 by done. done.
  - rewrite <-Hbc, bool_decide_eq_false_2, bool_decide_eq_true_2 by done. done.
  - rewrite (bool_decide_eq_false_2 (gr_app a = gr_app b)), (bool_decide_eq_false_2 (gr_app b = gr_app c)) by done. intros H1 H2.
    destruct (decide (gr_app a = gr_app c)) as [Hac|Hac].
    + exfalso. apply Hab. rewrite Hac in *. by apply (anti_symm String.le).
    + rewrite bool_decide_eq_false_2 by done. by etrans.
Qed.

(** What the operator answers, it answers from the profiles: each at most once. *)
Lemma Decide_names f platform : ∃ names, st_wanted (For (Decide f) platform) ≡ₚ names ∧ names `sublist_of` (cp_name <$> fa_profiles f).
Proof.
  assert (∀ l, st_wanted (foldl (decide_one f) (mkSet [] [], mkSet [] []) l).1 `sublist_of` (cp_name <$> l)
    ∧ st_wanted (foldl (decide_one f) (mkSet [] [], mkSet [] []) l).2 `sublist_of` (cp_name <$> l)) as Hl.
  { induction l as [|p l [IHu IHp]] using rev_ind; [by split|]. rewrite foldl_app, fmap_app. cbn [foldl].
    destruct (foldl _ _ l) as [users plat]. cbn [fst snd] in *. unfold decide_one.
    assert (∀ s, st_wanted s `sublist_of` (cp_name <$> l) → st_wanted s `sublist_of` (cp_name <$> l) ++ (cp_name <$> [p])) as Hskip
      by (intros s Hs; by apply sublist_inserts_r).
    assert (∀ s, st_wanted s `sublist_of` (cp_name <$> l) → st_wanted (want s (cp_name p)) `sublist_of` (cp_name <$> l) ++ (cp_name <$> [p])) as Hkeep
      by (intros s Hs; by apply sublist_app).
    repeat case_match; cbn [fst snd]; split; first [by apply Hkeep|by apply Hskip]. }
  specialize (Hl (fa_profiles f)). unfold Decide. destruct (foldl _ _ _) as [users plat]. cbn [fst snd] in Hl. destruct platform; cbn.
  - exists (st_wanted plat). split; [apply merge_sort_Permutation|apply Hl].
  - exists (st_wanted users). split; [apply merge_sort_Permutation|apply Hl].
Qed.

(** A contract is pre-approved exactly when both sides are placed by the operator, apps,
    not gone and of platform trust, the consumer names the other side as its provider,
    with capabilities it asks for, and the provider provides the contract; the list is in
    the order of consumers and contracts. *)
Theorem preApproved_exact profiles gone g : NoDup (cp_name <$> profiles) →
  (g ∈ preApproved profiles gone ↔ ∃ consumer provider i, consumer ∈ profiles ∧ own gone consumer = true ∧ provider ∈ profiles
     ∧ own gone provider = true ∧ consumer ≠ provider ∧ i ∈ cp_integrations consumer ∧ ig_provider i = cp_name provider
     ∧ ig_capabilities i ≠ [] ∧ ig_contract i ∈ cp_provides provider
     ∧ g = mkPlatformGrant (cp_name consumer) (ig_contract i) (cp_name provider) (ig_capabilities i))
  ∧ StronglySorted grant_le (preApproved profiles gone).
Proof.
  intros Hnd. split; [|unfold preApproved; apply StronglySorted_merge_sort; apply _]. unfold preApproved. rewrite merge_sort_Permutation.
  rewrite list_elem_of_bind. setoid_rewrite list_elem_of_bind. setoid_rewrite list_elem_of_fmap. split.
  - intros (consumer & (i & Hg & Hi) & [n c] & -> & Hc). cbn in *. apply elem_of_map_to_list, ours_lookup in Hc as (Hc & <- & Hown); [|done].
    unfold grant_of in Hg. destruct (ours gone profiles !! ig_provider i) as [provider|] eqn:Ep; [|by apply not_elem_of_nil in Hg].
    apply ours_lookup in Ep as (Hp & Hpn & Hpo); [|done]. repeat case_bool_decide; try by apply not_elem_of_nil in Hg. cbn in Hg.
    apply list_elem_of_singleton in Hg as ->. exists c, provider, i. split_and!; try done; congruence.
  - intros (consumer & provider & i & Hc & Hco & Hp & Hpo & Hne & Hi & Hpn & Hcap & Hprov & ->). exists consumer. split.
    + exists i. split; [|done]. unfold grant_of. rewrite (proj2 (ours_lookup gone profiles (ig_provider i) provider Hnd)) by done.
      rewrite (bool_decide_eq_false_2 (ig_capabilities i = [])), (bool_decide_eq_false_2 (cp_name provider = cp_name consumer)), (bool_decide_eq_true_2 (ig_contract i ∈ _)) by
        (done || intros Heq; by apply Hne, (NoDup_fmap_elem cp_name profiles)). left.
    + exists (cp_name consumer, consumer). split; [done|]. apply elem_of_map_to_list, ours_lookup; [done|]. done.
Qed.

(** ** Instances *)

Module PlacementExample.
Definition px_desktop : ComponentProfile :=
  mkProfile "desktop" ∅ ["app"] "platform" (Some (mkPlacement "every" "")) false false false [] ["desktop-api"].
Definition px_store : ComponentProfile :=
  mkProfile "store" ∅ ["app"] "platform" None false false true
    [mkIntegration "desktop-api" "desktop" ["tiles"]; mkIntegration "calendar" "wiki" ["read"]] [].
Definition px_wiki : ComponentProfile := mkProfile "wiki" ∅ ["app"] "verified" (Some (mkPlacement "users" "")) false false false [] ["calendar"].
Definition px_profiles : list ComponentProfile := [px_store; px_wiki; px_desktop].
End PlacementExample.
Import PlacementExample.

Lemma preApproved_exact_witness :
  (mkPlatformGrant "store" "desktop-api" "desktop" ["tiles"] ∈ preApproved px_profiles ∅ ↔ ∃ consumer provider i, consumer ∈ px_profiles ∧ own ∅ consumer = true ∧ provider ∈ px_profiles
     ∧ own ∅ provider = true ∧ consumer ≠ provider ∧ i ∈ cp_integrations consumer ∧ ig_provider i = cp_name provider
     ∧ ig_capabilities i ≠ [] ∧ ig_contract i ∈ cp_provides provider
     ∧ mkPlatformGrant "store" "desktop-api" "desktop" ["tiles"] = mkPlatformGrant (cp_name consumer) (ig_contract i) (cp_name provider) (ig_capabilities i))
  ∧ StronglySorted grant_le (preApproved px_profiles ∅).
Proof. apply (preApproved_exact px_profiles ∅). apply (bool_decide_unpack _). vm_compute. exact I. Defined.
