(* ===== verification/TenantStores.v ===== *)
(** * The names a tenant's stores have, and who may be a tenant

    What everything a tenant owns on the shared services is named from
    ([internal/backup/inventory.go], [InventoryOf] of [teardown.go], [internal/kernel/secrets/paths.go],
    [internal/modelgateway]), the check that no two tenants have one of three names in common
    ([NamesTaken]), and the admission of a tenant that asks for it
    ([internal/webhook/tenant_validator.go], [internal/tenancy/single.go],
    [internal/handover]).

    [admission_keeps_names_apart]: whatever is admitted, the three names stay apart.
    [stores_meet_iff]: which does not keep the stores apart.  [admitted_into_anothers_place]:
    nor the namespaces, nor the names once a tenant exists. *)

From S2P Require Import Prelude.
From S2P Require Import GoStrings.
From S2P Require Import GoUtf8.
From S2P Require Import Ids.
From S2P Require Import Authn.
From S2P Require Import GoJson.
From S2P Require Import GoTime.
From S2P Require Import Custodian.
From S2P Require Import Placement.

(** ** Tenants and profiles *)

Record TenantIsolation := mkIsolation { iso_namespace : string; iso_keycloakRealm : string; iso_databasePrefix : string; iso_s3Prefix : string }.
Record entry := mkEntry { en_app : TenantApp; en_addons : list string }.
Record tenant := mkTenant {
  tn_name : string; tn_annotations : gmap string string; tn_isolation : option TenantIsolation; tn_maxApps : option Z; tn_apps : list entry }.

Inductive DatabaseEngine := NoDatabase | PostgreSQL | MariaDB | OtherEngine (name : string).
Record Services := mkServices { se_database : option DatabaseEngine; se_s3 : bool; se_cacheRedis : bool; se_llm : bool }.
(** What of a profile says what an app is given and installed as. *)
Record StoreProfile := mkStoreProfile { sp_services : option Services; sp_extensions : list string; sp_chart : option string }.

#[global] Instance DatabaseEngine_eq_dec : EqDecision DatabaseEngine.
Proof. solve_decision. Defined.

Definition NamespaceName (t : tenant) : string :=
  match tn_isolation t with
  | Some iso => if bool_decide (iso_namespace iso = "") then "tenant-" +:+ tn_name t else iso_namespace iso
  | None => "tenant-" +:+ tn_name t
  end.

(** ** Names *)

Definition s3_rune (r : string) : string :=
  match r with
  | String c "" =>
      if is_lower_alnum c || Ascii.eqb c "-" then r
      else if bool_decide (65 ≤ byte_of c ≤ 90) then String (ascii_of_nat (byte_of c + 32)) "" else "-"
  | _ => "-"
  end.
Definition s3Safe (value : string) : string := concat_str (s3_rune <$> runes value).

Record TenantNames := mkNames { nm_realm : string; nm_databasePrefix : string; nm_bucketPrefix : string }.
Definition or_else (stated rule : string) : string := if bool_decide (stated = "") then rule else stated.
Definition NamesOf (t : tenant) : TenantNames :=
  let iso := default (mkIsolation "" "" "" "") (tn_isolation t) in
  mkNames (or_else (iso_keycloakRealm iso) (tn_name t))
    (replace_byte (or_else (iso_databasePrefix iso) (tn_name t +:+ "_")) "-" "_")
    (s3Safe (or_else (iso_s3Prefix iso) (tn_name t +:+ "-"))).

Definition ErrNamesTaken : error := Sentinel "a name this tenant would use is another tenant's".
Definition clashes (mine : TenantNames) (other : tenant) : list string :=
  let theirs := NamesOf other in
  (if bool_decide (nm_realm mine = nm_realm theirs) then ["the realm %q is tenant %s's"] else [])
  ++ (if bool_decide (nm_databasePrefix mine = nm_databasePrefix theirs) then ["the database prefix %q is tenant %s's"] else [])
  ++ (if bool_decide (nm_bucketPrefix mine = nm_bucketPrefix theirs) then ["the bucket prefix %q is tenant %s's"] else []).
Definition NamesTaken (candidate : tenant) (others : list tenant) : result unit :=
  match others ≫= (λ other, if bool_decide (tn_name other = tn_name candidate) then [] else clashes (NamesOf candidate) other) with
  | [] => Ok tt
  | cs => Err (Wrapf "%w: tenant %q is refused, because %s" (tn_name candidate :: sort_strings cs) ErrNamesTaken)
  end.

Definition DatabaseName (t : tenant) (app : string) : string := nm_databasePrefix (NamesOf t) +:+ replace_byte app "-" "_".
Definition PostgresRole (tenantName app : string) : string := tenantName +:+ "_" +:+ app.
Definition MariaDBUser (tenantName app : string) : string := replace_byte tenantName "-" "_" +:+ "_" +:+ replace_byte app "-" "_".
Definition S3Bucket (t : tenant) (app : string) : string := nm_bucketPrefix (NamesOf t) +:+ s3Safe app.
Definition backupStore : string := "gentian-backup".
Definition BackupBucket (t : tenant) : string := nm_bucketPrefix (NamesOf t) +:+ backupStore.
Definition RedisACLUser (tenantName app : string) : string := tenantName +:+ "-" +:+ app.
Definition CNPGDatabaseCR (tenantName app : string) : string := "db-" +:+ tenantName +:+ "-" +:+ app.
Definition KeyAlias (tenantName app : string) : string := tenantName +:+ "-" +:+ app.
Definition SuppliedRequirementName (tenantName app name : string) : string := "app-" +:+ tenantName +:+ "-" +:+ app +:+ "-" +:+ name.

Definition AppRelease (app : string) : string := app +:+ "-release".
Definition ExtensionRelease (app extension : string) : string := app +:+ "-" +:+ extension +:+ "-release".
Definition DirectRelease (namespace app : string) : string := namespace +:+ "-" +:+ app.

(** ** What an app owns *)

Record Stores := mkStores { so_database : DatabaseEngine; so_s3 : bool; so_redis : bool }.
Definition ProfileStores (p : option StoreProfile) : Stores :=
  match p ≫= sp_services with
  | None => mkStores NoDatabase false false
  | Some kr => mkStores (default NoDatabase (se_database kr)) (se_s3 kr) (se_cacheRedis kr)
  end.
Definition SidecarNames (p : option StoreProfile) : list string :=
  match p with None => [] | Some p => filter (λ x, x ≠ "") (sp_extensions p) end.
Definition DeclaresModelAccess (p : option StoreProfile) : bool := match p ≫= sp_services with Some kr => se_llm kr | None => false end.

Record AppInventory := mkInventory {
  iv_tenant : string; iv_app : string; iv_stores : Stores; iv_database : string; iv_databaseUser : string; iv_databaseRecord : string;
  iv_bucket : string; iv_cacheUser : string; iv_modelKey : string; iv_keys : list string; iv_releases : list string; iv_chart : string }.
Definition InventoryOf (t : tenant) (app : string) (p : option StoreProfile) : AppInventory :=
  let stores := ProfileStores p in
  let '(database, user, record) :=
    match so_database stores with
    | PostgreSQL => (DatabaseName t app, PostgresRole (tn_name t) app, CNPGDatabaseCR (tn_name t) app)
    | MariaDB => (DatabaseName t app, MariaDBUser (tn_name t) app, "")
    | _ => ("", "", "")
    end in
  mkInventory (tn_name t) app stores database user record
    (if so_s3 stores then S3Bucket t app else "") (if so_redis stores then RedisACLUser (tn_name t) app else "")
    (if DeclaresModelAccess p then KeyAlias (tn_name t) app else "")
    (app :: ((λ ext, app +:+ "-" +:+ ext) <$> SidecarNames p))
    ([AppRelease app; DirectRelease (NamespaceName t) app] ++ (ExtensionRelease app <$> SidecarNames p))
    (default "" (p ≫= sp_chart)).

(** ** Admission *)

Definition TenancyModeSingle : string := "single".
Definition SingleUserTenantName : string := "user".
Definition ErrSingleTenancy : error := Sentinel "this cluster's tenancy mode is single".
Definition HandoverOverrideAnnotation : string := "gentianos.io/handover-override".

(** The state of the handover, from its record. *)
Record handover := mkHandover {
  ho_writePathProven : bool; ho_provenAt : string; ho_provenBy : string; ho_bootstrapRevoked : bool; ho_revokedAt : string;
  ho_recoveryKitExported : bool; ho_recoveryKitExportedAt : string }.
Definition Read (r : record_read) : result handover :=
  let at_ data k := default "" (data !! k) in
  match r with
  | RecordMissing => Ok (mkHandover false "" "" false "" false "")
  | RecordFailed => Err (Errorf "read handover record: %w" [])
  | RecordFound data =>
      Ok (mkHandover (bool_decide (at_ data KeyWritePathProven = "true")) (at_ data "provenAt") (at_ data "provenBy")
            (bool_decide (at_ data "bootstrapCredentialRevoked" = "true")) (at_ data "revokedAt")
            (bool_decide (at_ data "recoveryKitExported" = "true")) (at_ data "recoveryKitExportedAt"))
  end.

Inductive operation := Create | Update | Delete.
(** The object that is to be, and the one that was, each as it decodes. *)
Record admission_request := mkAdmission { ar_operation : operation; ar_object : result tenant; ar_old : option (result tenant) }.
Inductive admission_response := Allowed | Denied (why : error) | Errored (why : error).

Record TenantValidator := mkTenantValidator { tv_tenancyMode : string; tv_kernelRealm : string; tv_gateOnHandover : bool; tv_handoverNamespace : string }.

Section Admission.
Context `{UnicodeFold} (v : TenantValidator).
(** What the cluster answers: its tenants, a profile, the handover's record. *)
Context (list_tenants : result (list tenant)) (get_profile : string → result (option ComponentProfile)) (get_record : string → record_read).

Definition NormalizeTenancyMode (mode : string) : string := if equal_fold (trim_space mode) TenancyModeSingle then TenancyModeSingle else "multi".
Definition IsPlatformTenant (t : tenant) (kernelRealm : string) : bool :=
  match tn_isolation t with Some iso => bool_decide (iso_keycloakRealm iso = or_else kernelRealm "kernel") | None => false end.
Definition SingleRefusal (name : string) : result unit :=
  if bool_decide (name = SingleUserTenantName) then Ok tt else Err (Wrapf "%w: tenant %q is refused" [name] ErrSingleTenancy).
Definition EnforceSingle (t : tenant) : result unit :=
  if negb (bool_decide (NormalizeTenancyMode (tv_tenancyMode v) = TenancyModeSingle)) then Ok tt
  else if IsPlatformTenant t (tv_kernelRealm v) then Ok tt else SingleRefusal (tn_name t).

Definition adoptsKernelRealm (t : tenant) : bool :=
  bool_decide (tv_kernelRealm v ≠ "") && match tn_isolation t with Some iso => bool_decide (iso_keycloakRealm iso = tv_kernelRealm v) | None => false end.

Definition validateHandover (t : tenant) : result unit :=
  if negb (tv_gateOnHandover v) || bool_decide (tv_handoverNamespace v = "") then Ok tt
  else if negb (bool_decide (default "" (tn_annotations t !! HandoverOverrideAnnotation) = "")) then Ok tt
  else match Read (get_record (tv_handoverNamespace v)) with
       | Err _ => Ok tt
       | Ok state => if ho_writePathProven state then Ok tt else Err (Errorf "tenant %q: this cluster has not proven its administrator can write credentials" [tn_name t])
       end.

Definition validateNames (t : tenant) : result unit :=
  match list_tenants with
  | Err e => Err (Wrapf "tenant %q: the cluster's tenants could not be listed: %w" [tn_name t] e)
  | Ok tenants => NamesTaken t tenants
  end.

(** Each profile is there, and named once. *)
Fixpoint profiles_exist (name : string) (seen : list string) (apps : list entry) : result unit :=
  match apps with
  | [] => Ok tt
  | a :: apps =>
      let profile := ta_profile (en_app a) in
      if bool_decide (profile ∈ seen) then Err (Errorf "tenant %q: duplicate app profile %q in spec.apps" [name; profile])
      else match get_profile profile with
           | Err e => Err (Wrapf "tenant %q: looking up ComponentProfile %q: %w" [name; profile] e)
           | Ok None => Err (Errorf "tenant %q: ComponentProfile %q not found; install the app catalog first" [name; profile])
           | Ok (Some _) => profiles_exist name (profile :: seen) apps
           end
  end.
Definition quota (t : tenant) : result unit :=
  match tn_maxApps t with
  | None => Ok tt
  | Some maxApps =>
      if bool_decide (maxApps ≤ 0)%Z then Ok tt
      else installed ← wrap "tenant %q: reading which apps are installed: %w" [tn_name t] (Installed get_profile (en_app <$> tn_apps t));
           if bool_decide (maxApps < Z.of_nat (length installed))%Z then Err (Errorf "tenant %q: app count %d exceeds maxApps quota %d" [tn_name t]) else Ok tt
  end.
Definition Validate (t : tenant) : result unit :=
  _ ← quota t; _ ← profiles_exist (tn_name t) [] (tn_apps t); wrap "tenant %q: %w" [tn_name t] (EnforceSingle t).

Definition handleDelete (r : admission_request) : admission_response :=
  match ar_old r with
  | None => Allowed
  | Some (Err e) => Errored e
  | Some (Ok t) => if adoptsKernelRealm t then Denied (Errorf "tenant %q adopts the kernel realm %q and cannot be deleted" [tn_name t; tv_kernelRealm v]) else Allowed
  end.
Definition denied_or (r : result unit) (k : admission_response) : admission_response := match r with Err e => Denied e | Ok _ => k end.
Definition Handle (r : admission_request) : admission_response :=
  match ar_operation r with
  | Delete => handleDelete r
  | op =>
      match ar_object r with
      | Err e => Errored e
      | Ok t =>
          let create := match op with Create => true | _ => false end in
          if create && negb (ValidTenantName (tn_name t)) then Denied (Errorf "tenant %q: a tenant's name is a DNS label of at most %d characters" [tn_name t])
          else denied_or (if create && negb (adoptsKernelRealm t) then validateHandover t else Ok tt)
                 (denied_or (if create then validateNames t else Ok tt) (denied_or (Validate t) Allowed))
      end
  end.
End Admission.

(** ** Names that begin alike *)

Lemma joined_eq (s t x y : string) (c : ascii) : s +:+ String c x = t +:+ String c y → s = t ∨ (∃ r, t = s +:+ String c r) ∨ (∃ r, s = t +:+ String c r).
Proof.
  revert t. induction s as [|d s IH]; intros [|e t] Heq; cbn in Heq.
  - by left.
  - injection Heq as -> _. right. left. by exists t.
  - injection Heq as <- _. right. right. by exists s.
  - injection Heq as -> Heq. apply IH in Heq as [->|[[r ->]|[r ->]]]; [by left|right; left; by exists r|right; right; by exists r].
Qed.

Definition label_byte (c : ascii) : bool := is_lower_alnum c || Ascii.eqb c "-".
Lemma label_ascii c : label_byte c = true → (byte_of c < 128)%nat.
Proof.
  unfold label_byte, is_lower_alnum. cbv zeta. rewrite !orb_true_iff, !bool_decide_eq_true. intros [[?|?]|Hc]; [lia..|]. apply Ascii.eqb_eq in Hc as ->. by vm_compute; lia.
Qed.
Lemma s3Safe_label s : str_forallb label_byte s = true → s3Safe s = s.
Proof.
  induction s as [|c s IH]; [done|]. rewrite str_forallb_cons, andb_true_iff. intros [Hc Hs]. unfold s3Safe. cbn [runes]. rewrite bool_decide_true by (by apply label_ascii).
  cbn [fmap list_fmap s3_rune concat_str]. unfold label_byte in Hc. rewrite Hc. cbn. f_equal. by apply IH.
Qed.
Lemma label_no_underscore s : str_forallb label_byte s = true → contains_byte s "_" = false.
Proof.
  intros Hs. unfold contains_byte. induction s as [|c s IH]; [done|]. rewrite str_forallb_cons, andb_true_iff in Hs. destruct Hs as [Hc Hs]. cbn. rewrite IH by done.
  rewrite orb_false_r. destruct (Ascii.eqb "_" c) eqn:E; [|done]. apply Ascii.eqb_eq in E as <-. done.
Qed.
Lemma valid_label name : ValidTenantName name = true → str_forallb label_byte name = true.
Proof. unfold ValidTenantName, dns_label. rewrite !andb_true_iff. intros [[[[Hf _] _] _] _]. exact Hf. Qed.

(** One name is the other continued after a hyphen. *)
Definition below (s t : string) : Prop := ∃ r, t = s +:+ "-" +:+ r.

Lemma joined_iff (f : string → string → string) (s t : string) : s ≠ t →
  (∀ a b, f s a = f t b → ∃ x y, s +:+ "-" +:+ x = t +:+ "-" +:+ y) →
  (∀ u r, u ∈ [s; t] → u +:+ "-" +:+ r ∈ [s; t] → f u (r +:+ "-x") = f (u +:+ "-" +:+ r) "x") →
  (∃ a b, f s a = f t b) ↔ below s t ∨ below t s.
Proof.
  intros Hne Hto Hfrom. split.
  - intros (a & b & Heq). apply Hto in Heq as (x & y & Heq). apply joined_eq in Heq as [->|[Hr|Hr]]; [done|by left|by right].
  - intros [[r ->]|[r ->]].
    + exists (r +:+ "-x"), "x". apply Hfrom; set_solver.
    + exists "x", (r +:+ "-x"). symmetry. apply Hfrom; set_solver.
Qed.

(** A tenant named by the platform's one rule: one that states no names, or one with the names
    the director writes into the manifest of a tenant it creates. *)
Definition by_rule (t : tenant) : Prop := ValidTenantName (tn_name t) = true
  ∧ (tn_isolation t = None
     ∨ ∃ ns, tn_isolation t = Some (mkIsolation ns (tn_name t) (replace_byte (tn_name t) "-" "_" +:+ "_") (tn_name t +:+ "-"))).
Lemma replace_byte_twice (s : string) : replace_byte (replace_byte s "-" "_") "-" "_" = replace_byte s "-" "_".
Proof. induction s as [|c s IH]; [done|]. cbn. rewrite IH. by destruct (Ascii.eqb c "-") eqn:E; [|rewrite E]. Qed.
Lemma by_rule_names t : by_rule t → NamesOf t = mkNames (tn_name t) (replace_byte (tn_name t +:+ "_") "-" "_") (tn_name t +:+ "-").
Proof.
  intros [Hv Hi]. assert (s3Safe (tn_name t +:+ "-") = tn_name t +:+ "-") as Hs.
  { apply s3Safe_label. by rewrite str_forallb_app, (valid_label _ Hv). }
  assert (tn_name t ≠ "") as Hn by (intros E; by rewrite E in Hv).
  unfold NamesOf. destruct Hi as [->|[ns ->]]; cbn [from_option iso_keycloakRealm iso_databasePrefix iso_s3Prefix id]; unfold or_else.
  - rewrite !bool_decide_true by done. by rewrite Hs.
  - rewrite !bool_decide_false by (try done; intros E; apply (f_equal String.length) in E; rewrite app_length_str in E; cbn in E; lia).
    by rewrite Hs, !replace_byte_app, replace_byte_twice.
Qed.
Lemma bucket_by_rule t app : by_rule t → S3Bucket t app = tn_name t +:+ "-" +:+ s3Safe app.
Proof. intros Ht. unfold S3Bucket. rewrite by_rule_names by done. cbn. by rewrite app_assoc_str. Qed.
Lemma database_by_rule t app : by_rule t → DatabaseName t app = replace_byte (tn_name t +:+ "-" +:+ app) "-" "_".
Proof. intros Ht. unfold DatabaseName. rewrite by_rule_names by done. cbn. rewrite !replace_byte_app. cbn. by rewrite app_assoc_str. Qed.

(** ** What is admitted *)

Lemma NamesTaken_Ok t others : NamesTaken t others = Ok tt → ∀ other, other ∈ others → tn_name other ≠ tn_name t →
  nm_realm (NamesOf t) ≠ nm_realm (NamesOf other) ∧ nm_databasePrefix (NamesOf t) ≠ nm_databasePrefix (NamesOf other) ∧ nm_bucketPrefix (NamesOf t) ≠ nm_bucketPrefix (NamesOf other).
Proof.
  unfold NamesTaken. intros Hn other Hin Hne. destruct (_ ≫= _) as [|c cs] eqn:E; [|done].
  assert (clashes (NamesOf t) other = []) as Hc.
  { destruct (clashes (NamesOf t) other) as [|c cs] eqn:Ec; [done|]. assert (c ∈ ([] : list string)) as Hx; [|by apply not_elem_of_nil in Hx].
    rewrite <- E. apply list_elem_of_bind. exists other. split; [|done]. rewrite bool_decide_false by done. rewrite Ec. by left. }
  unfold clashes in Hc. cbv zeta in Hc. apply app_nil in Hc as [Hr Hc]. apply app_nil in Hc as [Hd Hb].
  repeat split; intros Heq; [rewrite (bool_decide_true _ Heq) in Hr|rewrite (bool_decide_true _ Heq) in Hd|rewrite (bool_decide_true _ Heq) in Hb]; done.
Qed.
Lemma Handle_created `{UnicodeFold} v tenants gp gr t old : Handle v (Ok tenants) gp gr (mkAdmission Create (Ok t) old) = Allowed → ValidTenantName (tn_name t) = true ∧ NamesTaken t tenants = Ok tt.
Proof.
  unfold Handle. cbn. destruct (ValidTenantName (tn_name t)); cbn; [|done]. unfold denied_or.
  destruct (if negb (adoptsKernelRealm v t) then _ else _) as [[]|e]; [|done]. by destruct (NamesTaken t tenants) as [[]|e].
Qed.

(** A cluster's tenants, as tenants are created, changed without their names, and deleted;
    what the cluster answers otherwise may be anything each time. *)
Inductive cluster_step `{UnicodeFold} (v : TenantValidator) : list tenant → list tenant → Prop :=
  | tenant_created ts t gp gr old : tn_name t ∉ tn_name <$> ts → Handle v (Ok ts) gp gr (mkAdmission Create (Ok t) old) = Allowed → cluster_step v ts (t :: ts)
  | tenant_updated l t t' r listed gp gr : tn_name t' = tn_name t → tn_isolation t' = tn_isolation t →
      Handle v listed gp gr (mkAdmission Update (Ok t') (Some (Ok t))) = Allowed → cluster_step v (l ++ t :: r) (l ++ t' :: r)
  | tenant_deleted l t r listed gp gr object : Handle v listed gp gr (mkAdmission Delete object (Some (Ok t))) = Allowed → cluster_step v (l ++ t :: r) (l ++ r).

Definition each_its_own (ts : list tenant) : Prop :=
  NoDup (tn_name <$> ts) ∧ NoDup ((λ t, nm_realm (NamesOf t)) <$> ts) ∧ NoDup ((λ t, nm_databasePrefix (NamesOf t)) <$> ts) ∧ NoDup ((λ t, nm_bucketPrefix (NamesOf t)) <$> ts).

Lemma NoDup_new {A B} (f : A → B) a l : NoDup (f <$> l) → (∀ b, b ∈ l → f a ≠ f b) → NoDup (f <$> a :: l).
Proof. intros Hl Ha. cbn. constructor; [|done]. intros Hin. apply list_elem_of_fmap in Hin as (b & Heq & Hb). by apply (Ha b). Qed.
Lemma NoDup_less {A B} (f : A → B) l a r : NoDup (f <$> l ++ a :: r) → NoDup (f <$> l ++ r).
Proof. rewrite !fmap_app. cbn. rewrite !NoDup_app, NoDup_cons. intros (Hl & Hd & _ & Hr). split; [done|]. split; [|done]. intros x Hx Hin. apply (Hd x Hx). by right. Qed.

Lemma step_its_own `{UnicodeFold} v ts ts' : cluster_step v ts ts' → each_its_own ts → each_its_own ts'.
Proof.
  intros Hstep (Hn & Hr & Hd & Hb). destruct Hstep as [ts t gp gr old Hnew Hh|l t t' r listed gp gr Hname Hiso _|l t r listed gp gr object _].
  - apply Handle_created in Hh as [_ Hh]. assert (∀ b, b ∈ ts → tn_name t ≠ tn_name b) as Hne by (intros b Hin Heq; apply Hnew; rewrite Heq; by apply list_elem_of_fmap_2).
    pose proof (NamesTaken_Ok _ _ Hh) as Hapart. repeat split; apply NoDup_new; try done; intros b Hin; apply Hapart; try done; intros Heq; by apply (Hne b).
  - assert (NamesOf t' = NamesOf t) as Hnames by (unfold NamesOf; by rewrite Hiso, Hname). unfold each_its_own in *. rewrite !fmap_app, !fmap_cons in *. by rewrite Hname, Hnames.
  - repeat split; by eapply NoDup_less.
Qed.
Lemma step_adopter `{UnicodeFold} v ts ts' t : cluster_step v ts ts' → t ∈ ts → adoptsKernelRealm v t = true → ∃ t', t' ∈ ts' ∧ tn_name t' = tn_name t ∧ adoptsKernelRealm v t' = true.
Proof.
  intros Hstep Hin Ha. destruct Hstep as [ts u gp gr old _ _|l u u' r listed gp gr Hname Hiso _|l u r listed gp gr object Hh].
  - exists t. split; [by right|done].
  - apply elem_of_app in Hin as [Hin|Hin]; [exists t; set_solver|]. apply elem_of_cons in Hin as [->|Hin]; [|exists t; set_solver].
    exists u'. split; [set_solver|]. split; [done|]. unfold adoptsKernelRealm in *. by rewrite Hiso.
  - exists t. split; [|done]. apply elem_of_app in Hin as [Hin|Hin]; [set_solver|]. apply elem_of_cons in Hin as [->|Hin]; [|set_solver].
    unfold Handle, handleDelete in Hh. cbn in Hh. by rewrite Ha in Hh.
Qed.

Lemma below_label s r : str_forallb label_byte (s +:+ "-" +:+ r) = true → str_forallb label_byte r = true.
Proof. change ("-" +:+ r) with (String "-" r). rewrite str_forallb_app, str_forallb_cons, !andb_true_iff. tauto. Qed.

Lemma buckets_meet s t : str_forallb label_byte s = true → str_forallb label_byte t = true → s ≠ t →
  (∃ a b, s +:+ "-" +:+ s3Safe a = t +:+ "-" +:+ s3Safe b) ↔ below s t ∨ below t s.
Proof.
  intros Hs Ht Hne. apply (joined_iff (λ u a, u +:+ "-" +:+ s3Safe a)); [done|by eauto|]. intros u r _ Hin.
  assert (str_forallb label_byte (u +:+ "-" +:+ r) = true) as Hl by (apply elem_of_cons in Hin as [->|Hin]; [done|]; by apply list_elem_of_singleton in Hin as ->).
  apply below_label in Hl. rewrite (s3Safe_label (r +:+ "-x")) by (by rewrite str_forallb_app, Hl). change (s3Safe "x") with "x". by rewrite !app_assoc_str.
Qed.
Lemma databases_meet s t : str_forallb label_byte s = true → str_forallb label_byte t = true → s ≠ t →
  (∃ a b, replace_byte (s +:+ "-" +:+ a) "-" "_" = replace_byte (t +:+ "-" +:+ b) "-" "_") ↔ below s t ∨ below t s.
Proof.
  intros Hs Ht Hne. apply (joined_iff (λ u a, replace_byte (u +:+ "-" +:+ a) "-" "_")); [done| |].
  - intros a b Heq. apply (f_equal (λ x, replace_byte x "_" "-")) in Heq. rewrite !replace_byte_app in Heq. rewrite (replace_byte_back s), (replace_byte_back t) in Heq by (by apply label_no_underscore).
    eexists _, _. exact Heq.
  - intros u r _ _. by rewrite !app_assoc_str.
Qed.
Lemma joined_meet s t : s ≠ t → (∃ a b, s +:+ "-" +:+ a = t +:+ "-" +:+ b) ↔ below s t ∨ below t s.
Proof. intros Hne. apply (joined_iff (λ u a, u +:+ "-" +:+ a)); [done|by eauto|]. intros u r _ _. by rewrite !app_assoc_str. Qed.

Lemma replace_byte_length s a b : String.length (replace_byte s a b) = String.length s.
Proof. induction s as [|c s IH]; [done|]. cbn. by rewrite IH. Qed.
Lemma longer_name (s r : string) (c : ascii) : s ≠ s +:+ String c r.
Proof. intros Heq. apply (f_equal String.length) in Heq. rewrite app_length_str in Heq. cbn in Heq. lia. Qed.

(** Two names of the rule, one below the other, clash nowhere. *)
Lemma NamesTaken_none t other : nm_realm (NamesOf t) ≠ nm_realm (NamesOf other) → nm_databasePrefix (NamesOf t) ≠ nm_databasePrefix (NamesOf other) →
  nm_bucketPrefix (NamesOf t) ≠ nm_bucketPrefix (NamesOf other) → NamesTaken t [other] = Ok tt.
Proof.
  intros Hr Hd Hb. unfold NamesTaken. cbn. rewrite app_nil_r. destruct (bool_decide _); [done|]. unfold clashes. cbv zeta. by rewrite !bool_decide_false by done.
Qed.
Lemma below_apart t b t1 t2 : by_rule t1 → by_rule t2 → tn_name t1 = t → tn_name t2 = t +:+ "-" +:+ b →
  nm_realm (NamesOf t1) ≠ nm_realm (NamesOf t2) ∧ nm_databasePrefix (NamesOf t1) ≠ nm_databasePrefix (NamesOf t2) ∧ nm_bucketPrefix (NamesOf t1) ≠ nm_bucketPrefix (NamesOf t2).
Proof.
  intros Ht1 Ht2 H1 H2. rewrite !by_rule_names by done. cbn. rewrite H1, H2. split; [apply longer_name|]. split.
  - intros Heq. apply (f_equal String.length) in Heq. rewrite !replace_byte_length, !app_length_str in Heq. cbn in Heq. lia.
  - intros Heq. apply (f_equal String.length) in Heq. rewrite !app_length_str in Heq. cbn in Heq. lia.
Qed.

(** A tenant placed in a namespace. *)
Definition in_namespace (ns : string) (t : tenant) : tenant :=
  let iso := default (mkIsolation "" "" "" "") (tn_isolation t) in
  mkTenant (tn_name t) (tn_annotations t) (Some (mkIsolation ns (iso_keycloakRealm iso) (iso_databasePrefix iso) (iso_s3Prefix iso))) (tn_maxApps t) (tn_apps t).

Lemma NamespaceName_some t : NamespaceName t ≠ "".
Proof. unfold NamespaceName. destruct (tn_isolation t) as [iso|]; [|done]. by case_bool_decide. Qed.
Lemma in_namespace_names ns t : NamesOf (in_namespace ns t) = NamesOf t.
Proof. unfold NamesOf, in_namespace. by destruct (tn_isolation t). Qed.
Lemma in_namespace_adopts v ns t : adoptsKernelRealm v (in_namespace ns t) = adoptsKernelRealm v t.
Proof. unfold adoptsKernelRealm, in_namespace. cbn. destruct (tn_isolation t) as [iso|]; [done|]. cbn. by destruct (tv_kernelRealm v). Qed.
Lemma in_namespace_single `{UnicodeFold} v ns t : EnforceSingle v (in_namespace ns t) = EnforceSingle v t.
Proof.
  unfold EnforceSingle, IsPlatformTenant, in_namespace. cbn. destruct (tn_isolation t) as [iso|]; [done|]. cbn. assert (or_else (tv_kernelRealm v) "kernel" ≠ "") as Hk by (unfold or_else; by case_bool_decide). by rewrite (bool_decide_false ("" = _)) by (by apply not_eq_sym).
Qed.
Lemma in_namespace_taken ns t others : NamesTaken (in_namespace ns t) others = NamesTaken t others.
Proof. unfold NamesTaken. by rewrite in_namespace_names. Qed.
Lemma in_namespace_handled `{UnicodeFold} v listed gp gr old ns t :
  Handle v listed gp gr (mkAdmission Create (Ok (in_namespace ns t)) old) = Handle v listed gp gr (mkAdmission Create (Ok t) old).
Proof.
  unfold Handle, validateHandover, validateNames, Validate. cbn [ar_operation ar_object]. rewrite in_namespace_adopts, in_namespace_single. destruct listed; [by rewrite in_namespace_taken|done].
Qed.

(** ** Properties *)

(** C10: Whatever tenants are created, changed without their names, and deleted, no two have a
    realm, a database prefix or a bucket prefix in common, and a tenant that adopts the
    platform's realm stays. *)
Theorem admission_keeps_names_apart `{UnicodeFold} (v : TenantValidator) (ts ts' : list tenant) :
  rtc (cluster_step v) ts ts' → each_its_own ts →
  each_its_own ts' ∧ ∀ t, t ∈ ts → adoptsKernelRealm v t = true → ∃ t', t' ∈ ts' ∧ tn_name t' = tn_name t ∧ adoptsKernelRealm v t' = true.
Proof.
  induction 1 as [ts|ts ts1 ts' Hstep _ IH]; intros Hown; [split; [done|]; by eauto|].
  destruct (IH (step_its_own _ _ _ Hstep Hown)) as [Hown' Had]. split; [done|]. intros t Hin Ha.
  destruct (step_adopter _ _ _ _ Hstep Hin Ha) as (t1 & Hin1 & Hn1 & Ha1). destruct (Had t1 Hin1 Ha1) as (t' & Hin' & Hn' & Ha'). exists t'. split; [done|]. by rewrite Hn'.
Qed.

(** C27: Exactly when two tenants named by the platform's rule can have a store in common.  Some
    app of the one and some app of the other have the same database, or the same bucket, or
    the same user in the cache, if and only if one tenant's name is the other's continued
    after a hyphen. *)
Theorem stores_meet_iff (t1 t2 : tenant) : by_rule t1 → by_rule t2 → tn_name t1 ≠ tn_name t2 →
  let meet := below (tn_name t1) (tn_name t2) ∨ below (tn_name t2) (tn_name t1) in
  ((∃ a1 a2, DatabaseName t1 a1 = DatabaseName t2 a2) ↔ meet) ∧ ((∃ a1 a2, S3Bucket t1 a1 = S3Bucket t2 a2) ↔ meet)
  ∧ ((∃ a1 a2, RedisACLUser (tn_name t1) a1 = RedisACLUser (tn_name t2) a2) ↔ meet).
Proof.
  intros H1 H2 Hne meet. pose proof (valid_label _ (proj1 H1)) as Hl1. pose proof (valid_label _ (proj1 H2)) as Hl2. split; [|split].
  - unfold meet. rewrite <- databases_meet by done. by setoid_rewrite (database_by_rule t1 _ H1); setoid_rewrite (database_by_rule t2 _ H2).
  - unfold meet. rewrite <- buckets_meet by done. by setoid_rewrite (bucket_by_rule t1 _ H1); setoid_rewrite (bucket_by_rule t2 _ H2).
  - by apply joined_meet.
Qed.

(** C35: Two tenants of such names are admitted beside each other, and apps of theirs with one
    profile have one database, with MariaDB one user of it, one bucket, one user of the
    cache, one key at the model gateway, and one requirement for each credential a person
    supplies. *)
Theorem admitted_tenants_share_stores (t b c : string) (t1 t2 : tenant) (p : option StoreProfile) :
  by_rule t1 → by_rule t2 → tn_name t1 = t → tn_name t2 = t +:+ "-" +:+ b → dns_label c = true →
  NamesTaken t1 [t2] = Ok tt ∧ NamesTaken t2 [t1] = Ok tt
  ∧ let i1 := InventoryOf t1 (b +:+ "-" +:+ c) p in let i2 := InventoryOf t2 c p in
    iv_database i1 = iv_database i2 ∧ iv_databaseRecord i1 = iv_databaseRecord i2 ∧ iv_bucket i1 = iv_bucket i2 ∧ iv_cacheUser i1 = iv_cacheUser i2 ∧ iv_modelKey i1 = iv_modelKey i2
    ∧ (so_database (ProfileStores p) = MariaDB → iv_databaseUser i1 = iv_databaseUser i2)
    ∧ ∀ name, SuppliedRequirementName t (b +:+ "-" +:+ c) name = SuppliedRequirementName (t +:+ "-" +:+ b) c name.
Proof.
  intros Ht1 Ht2 H1 H2 Hc. destruct (below_apart t b t1 t2 Ht1 Ht2 H1 H2) as (Hr & Hd & Hb). split; [by apply NamesTaken_none|]. split; [by apply NamesTaken_none; apply not_eq_sym|].
  assert (DatabaseName t1 (b +:+ "-" +:+ c) = DatabaseName t2 c) as Hdb by (rewrite !database_by_rule by done; by rewrite H1, H2, !app_assoc_str).
  assert (S3Bucket t1 (b +:+ "-" +:+ c) = S3Bucket t2 c) as Hbucket.
  { assert (str_forallb label_byte c = true) as Hlc by (unfold dns_label in Hc; rewrite !andb_true_iff in Hc; by destruct Hc as [[[Hf _] _] _]).
    pose proof (valid_label _ (proj1 Ht2)) as Hl2. rewrite H2 in Hl2. apply below_label in Hl2. rewrite !bucket_by_rule by done. rewrite H1, H2, (s3Safe_label c) by done.
    rewrite s3Safe_label by (rewrite !str_forallb_app, Hl2, Hlc; done). by rewrite !app_assoc_str. }
  intros i1 i2. unfold i1, i2, InventoryOf. rewrite Hdb, Hbucket. unfold CNPGDatabaseCR, RedisACLUser, KeyAlias, PostgresRole, MariaDBUser, SuppliedRequirementName. rewrite H1, H2.
  destruct (so_database (ProfileStores p)); cbn; rewrite ?replace_byte_app, ?app_assoc_str; repeat split; try done; intros; by rewrite ?app_assoc_str.
Qed.

(** C36: Which namespace a tenant asks for makes no difference to its creation, so that it is
    admitted into another tenant's; and which tenants there are makes none to a change, so
    that an existing tenant takes another's names. *)
Theorem admitted_into_anothers_place `{UnicodeFold} (v : TenantValidator) (listed : result (list tenant)) (gp : string → result (option ComponentProfile))
    (gr : string → record_read) (t other : tenant) (old : option (result tenant)) :
  let placed := in_namespace (NamespaceName other) t in
  NamespaceName placed = NamespaceName other
  ∧ Handle v listed gp gr (mkAdmission Create (Ok placed) old) = Handle v listed gp gr (mkAdmission Create (Ok t) old)
  ∧ ∀ listed', Handle v listed gp gr (mkAdmission Update (Ok t) old) = Handle v listed' gp gr (mkAdmission Update (Ok t) old).
Proof.
  intros placed. split; [|split; [apply in_namespace_handled|done]]. unfold placed, in_namespace, NamespaceName at 1. cbn. by rewrite bool_decide_false by apply NamespaceName_some.
Qed.

(** ** Tenants at work *)

Module TenantsExample.
#[local] Instance plain_folds : UnicodeFold := λ s t, bool_decide (s = t).
Definition operator : TenantValidator := mkTenantValidator "multi" "kernel" true "gentian".
Definition named (name : string) : tenant := mkTenant name ∅ None (Some 1%Z) [mkEntry (mkTenantApp "wiki" None false) []].
Definition platform : tenant := mkTenant "platform" ∅ (Some (mkIsolation "" "kernel" "" "")) None [].
Definition catalog (name : string) : result (option ComponentProfile) := if bool_decide (name = "wiki") then Ok (Some (mkProfile "wiki" ∅ ["app"] "" None false false false [] [])) else Ok None.
Definition proven (ns : string) : record_read := RecordFound {[KeyWritePathProven := "true"]}.
Definition chat : StoreProfile := mkStoreProfile (Some (mkServices (Some MariaDB) true true true)) [] None.

Lemma admission_keeps_names_apart_witness :
  each_its_own [named "acme"; platform] ∧ each_its_own [named "acme-docs"; named "acme"; platform].
Proof.
  assert (each_its_own [platform]) as Hstart by (repeat split; apply NoDup_singleton).
  assert (rtc (cluster_step operator) [platform] [named "acme"; platform]) as Hone.
  { apply rtc_once. eapply (tenant_created _ _ _ catalog proven None); [apply (bool_decide_unpack _); vm_compute; exact I|vm_compute; reflexivity]. }
  split; [exact (proj1 (admission_keeps_names_apart operator [platform] [named "acme"; platform] Hone Hstart))|].
  apply (admission_keeps_names_apart operator [platform] [named "acme-docs"; named "acme"; platform]); [|exact Hstart]. eapply rtc_r; [exact Hone|].
  eapply (tenant_created _ _ _ catalog proven None); [apply (bool_decide_unpack _); vm_compute; exact I|vm_compute; reflexivity].
Defined.

Lemma stores_meet_iff_witness : (∃ a1 a2, S3Bucket (named "acme") a1 = S3Bucket (named "acme-docs") a2) ∧ ¬ ∃ a1 a2, S3Bucket (named "acme") a1 = S3Bucket (named "acme2") a2.
Proof.
  split.
  - apply (stores_meet_iff (named "acme") (named "acme-docs")); [split; [vm_compute; reflexivity|by left]..|discriminate|]. left. exists "docs". reflexivity.
  - intros Hmeet. apply (stores_meet_iff (named "acme") (named "acme2")) in Hmeet; [|split; [vm_compute; reflexivity|by left]..|discriminate]. destruct Hmeet as [[r Hr]|[r Hr]]; discriminate.
Defined.

Lemma admitted_tenants_share_stores_witness :
  NamesTaken (named "acme-docs") [named "acme"] = Ok tt ∧ iv_bucket (InventoryOf (named "acme") "docs-chat" (Some chat)) = "acme-docs-chat"
  ∧ iv_database (InventoryOf (named "acme") "docs-chat" (Some chat)) = iv_database (InventoryOf (named "acme-docs") "chat" (Some chat)).
Proof.
  destruct (admitted_tenants_share_stores "acme" "docs" "chat" (named "acme") (named "acme-docs") (Some chat)) as (_ & Htaken & Hdb & _ & _).
  - split; [vm_compute; reflexivity|by left].
  - split; [vm_compute; reflexivity|by left].
  - reflexivity.
  - reflexivity.
  - vm_compute. reflexivity.
  - split; [exact Htaken|]. split; [vm_compute; reflexivity|exact Hdb].
Defined.
End TenantsExample.
