(* ===== verification/StoreRecord.v ===== *)
(** * The record of what was provisioned for the apps of a tenant

    The kinds of thing an app owns and what a purge does with each
    ([internal/backup/teardown.go]), the record of the stores that were made
    ([internal/backup/record.go]), and whose a Helm release is
    ([internal/backup/inventory.go]).

    [record_refines_holdings]: the record, entries of JSON in a ConfigMap, is a set of apps
    and kinds to which recording adds and from which forgetting takes one.
    [recording_replaces_names]: the names the stores were made under are not such a set. *)

From S2P Require Import Prelude.
From S2P Require Import GoStrings.
From S2P Require Import TenantStores.

(** ** Kinds *)

Inductive Kind :=
  | KindRecords | KindCredentials | KindAccessGroup | KindSignInScope | KindDatabase | KindObjectStorage
  | KindCache | KindModelAccess | KindAuthorization | KindSignInClient | KindWorkloads | KindFiles.
Inductive Disposition := Creates | Keeps | Removes | Destroys | Carries | Omits | Gone.
#[global] Instance Kind_eq_dec : EqDecision Kind.
Proof. solve_decision. Defined.
#[global] Instance Disposition_eq_dec : EqDecision Disposition.
Proof. solve_decision. Defined.
#[global] Instance Kind_countable : Countable Kind.
Proof.
  refine (inj_countable' (λ k, match k with
    | KindRecords => 0 | KindCredentials => 1 | KindAccessGroup => 2 | KindSignInScope => 3 | KindDatabase => 4 | KindObjectStorage => 5
    | KindCache => 6 | KindModelAccess => 7 | KindAuthorization => 8 | KindSignInClient => 9 | KindWorkloads => 10 | KindFiles => 11 end)
    (λ n, match n with
    | 0 => KindRecords | 1 => KindCredentials | 2 => KindAccessGroup | 3 => KindSignInScope | 4 => KindDatabase | 5 => KindObjectStorage
    | 6 => KindCache | 7 => KindModelAccess | 8 => KindAuthorization | 9 => KindSignInClient | 10 => KindWorkloads | _ => KindFiles end)%nat _).
  by intros [].
Defined.

Record KindRule := mkRule { kr_kind : Kind; kr_export : Disposition; kr_uninstall : Disposition; kr_appPurge : Disposition; kr_tenantDelete : Disposition }.
Definition AppKinds : list KindRule := [
  mkRule KindRecords Omits Keeps Destroys Destroys; mkRule KindCredentials Carries Keeps Destroys Destroys;
  mkRule KindAccessGroup Carries Keeps Destroys Destroys; mkRule KindSignInScope Omits Keeps Destroys Destroys;
  mkRule KindDatabase Carries Keeps Destroys Destroys; mkRule KindObjectStorage Carries Keeps Destroys Destroys;
  mkRule KindCache Omits Keeps Destroys Destroys; mkRule KindModelAccess Omits Keeps Destroys Destroys;
  mkRule KindAuthorization Carries Keeps Destroys Destroys; mkRule KindSignInClient Carries Removes Gone Destroys;
  mkRule KindWorkloads Omits Removes Gone Removes; mkRule KindFiles Carries Keeps Destroys Destroys].
Definition ProvisionOrder : list Kind := kr_kind <$> AppKinds.
Definition TeardownOrder : list Kind := reverse ProvisionOrder.
(** The code panics on a kind without a rule; every kind has one. *)
Definition RuleFor (kind : Kind) : option KindRule := head (filter (λ r, kr_kind r = kind) AppKinds).
Definition AppPurgeOrder : list Kind := filter (λ k, kr_appPurge <$> RuleFor k = Some Destroys) TeardownOrder.

(** ** An entry *)

Record Provisioned := mkProvisioned {
  pv_engine : DatabaseEngine; pv_database : string; pv_databaseUser : string; pv_bucket : string; pv_cacheUser : string; pv_modelKey : string }.
#[global] Instance Provisioned_eq_dec : EqDecision Provisioned.
Proof. solve_decision. Defined.
Definition nothing : Provisioned := mkProvisioned NoDatabase "" "" "" "" "".

Definition ProvisionedOf (inv : AppInventory) : Provisioned :=
  mkProvisioned (so_database (iv_stores inv)) (iv_database inv) (iv_databaseUser inv) (iv_bucket inv) (iv_cacheUser inv) (iv_modelKey inv).
Definition Empty (p : Provisioned) : bool := bool_decide (p = nothing).
Definition Has (p : Provisioned) (kind : Kind) : bool :=
  match kind with
  | KindDatabase => negb (bool_decide (pv_engine p = NoDatabase))
  | KindObjectStorage => negb (bool_decide (pv_bucket p = ""))
  | KindCache => negb (bool_decide (pv_cacheUser p = ""))
  | KindModelAccess => negb (bool_decide (pv_modelKey p = ""))
  | _ => false
  end.
Definition Without (p : Provisioned) (kind : Kind) : Provisioned :=
  let '(mkProvisioned e d u b c m) := p in
  match kind with
  | KindDatabase => mkProvisioned NoDatabase "" "" b c m
  | KindObjectStorage => mkProvisioned e d u "" c m
  | KindCache => mkProvisioned e d u b "" m
  | KindModelAccess => mkProvisioned e d u b c ""
  | _ => p
  end.
Definition merged (p with_ : Provisioned) : Provisioned :=
  let db := bool_decide (pv_engine with_ = NoDatabase) in
  mkProvisioned (if db then pv_engine p else pv_engine with_) (if db then pv_database p else pv_database with_)
    (if db then pv_databaseUser p else pv_databaseUser with_) (or_else (pv_bucket with_) (pv_bucket p))
    (or_else (pv_cacheUser with_) (pv_cacheUser p)) (or_else (pv_modelKey with_) (pv_modelKey p)).
Definition MergeStores (declared : Stores) (recorded : Provisioned) : Stores :=
  mkStores (if bool_decide (pv_engine recorded = NoDatabase) then so_database declared else pv_engine recorded)
    (so_s3 declared || negb (bool_decide (pv_bucket recorded = ""))) (so_redis declared || negb (bool_decide (pv_cacheUser recorded = ""))).

(** ** The record *)

(** The JSON of an entry.  [encoding/json] puts U+FFFD for bytes that are not UTF-8, so an
    entry comes back as it was when its strings are ASCII; which of them are empty is the
    same in any case. *)
Class EntryJSON := { marshal : Provisioned → string; unmarshal : string → result Provisioned }.
Definition ascii_only (s : string) : bool := str_forallb (λ c, bool_decide (byte_of c < 128)) s.
Definition engine_name (e : DatabaseEngine) : string :=
  match e with NoDatabase => "" | PostgreSQL => "postgresql" | MariaDB => "mariadb" | OtherEngine n => n end.
Definition engine_of (name : string) : DatabaseEngine :=
  if bool_decide (name = "") then NoDatabase else if bool_decide (name = "postgresql") then PostgreSQL
  else if bool_decide (name = "mariadb") then MariaDB else OtherEngine name.
(** An engine is a string in the code; [OtherEngine] is for the strings that have no other constructor. *)
Definition proper (p : Provisioned) : Prop := engine_of (engine_name (pv_engine p)) = pv_engine p.
Definition plain (p : Provisioned) : bool :=
  forallb ascii_only [engine_name (pv_engine p); pv_database p; pv_databaseUser p; pv_bucket p; pv_cacheUser p; pv_modelKey p].
Class EntryJSONLaws `{EntryJSON} := {
  marshal_some p : marshal p ≠ "";
  unmarshal_proper raw p : unmarshal raw = Ok p → proper p;
  marshal_kinds p : proper p → ∃ q, unmarshal (marshal p) = Ok q ∧ ∀ k, Has q k = Has p k;
  marshal_plain p : proper p → plain p = true → unmarshal (marshal p) = Ok p }.

Abbreviation data := (gmap string string).

Section Record_.
Context `{EntryJSON}.

Definition entryOf (d : data) (app : string) : result Provisioned :=
  match d !! app with
  | None => Ok nothing
  | Some raw => match unmarshal raw with Ok p => Ok p | Err e => Err (Wrapf "the record %s/%s has an entry for %q that does not parse: %w" [app] e) end
  end.
Definition setEntry (d : data) (app : string) (p : Provisioned) : data * bool :=
  if Empty p then match d !! app with None => (d, false) | Some _ => (delete app d, true) end
  else if bool_decide (default "" (d !! app) = marshal p) then (d, false) else (<[app := marshal p]> d, true).
Definition RecordProvisioned (d : data) (app : string) (made : Provisioned) : result (data * bool) :=
  if Empty made then Ok (d, false) else have ← entryOf d app; Ok (setEntry d app (merged have made)).
Definition ForgetProvisioned (d : data) (app : string) (kind : Kind) : result (data * bool) :=
  match d !! app with
  | None => Ok (d, false)
  | Some _ => have ← entryOf d app; Ok (setEntry d app (Without have kind))
  end.

(** ** What the record says *)

Context {laws : EntryJSONLaws}.

(** Every entry parses. *)
Definition readable (d : data) : Prop := ∀ app raw, d !! app = Some raw → is_ok (unmarshal raw) = true.
Definition holds (d : data) (app : string) (k : Kind) : bool := match entryOf d app with Ok p => Has p k | Err _ => false end.

Lemma Has_nothing k : Has nothing k = false.
Proof. by destruct k. Qed.
Lemma Has_merged p q k : Has (merged p q) k = Has p k || Has q k.
Proof.
  destruct k; cbn; unfold or_else; try done; repeat case_bool_decide; cbn; rewrite ?orb_true_r, ?orb_false_r; try done; congruence.
Qed.
Lemma Has_Without p k k' : Has (Without p k) k' = Has p k' && negb (bool_decide (k' = k)).
Proof. destruct p, k, k'; cbn; rewrite ?andb_true_r, ?andb_false_r; done. Qed.
Lemma proper_nothing : proper nothing.
Proof. done. Qed.
Lemma proper_merged p q : proper p → proper q → proper (merged p q).
Proof. unfold proper, merged. cbn. by case_bool_decide. Qed.
Lemma proper_Without p k : proper p → proper (Without p k).
Proof. by destruct p, k. Qed.

Lemma readable_entry d app : readable d → ∃ p, entryOf d app = Ok p ∧ proper p.
Proof.
  intros Hd. unfold entryOf. destruct (d !! app) as [raw|] eqn:E; [|by exists nothing].
  pose proof (Hd _ _ E) as Hr. destruct (unmarshal raw) as [p|e] eqn:Eu; [|done]. exists p. eauto using unmarshal_proper.
Qed.
Lemma entryOf_other d d' app : d' !! app = d !! app → entryOf d' app = entryOf d app.
Proof. intros Hd. unfold entryOf. by rewrite Hd. Qed.

Lemma setEntry_spec d app p : readable d → proper p →
  let d' := (setEntry d app p).1 in
  readable d' ∧ (∀ k, holds d' app k = Has p k) ∧ (∀ app', app' ≠ app → d' !! app' = d !! app').
Proof.
  intros Hd Hp. unfold setEntry, Empty. destruct (marshal_kinds p Hp) as (q & Hq & Hk).
  assert (∀ d', d' !! app = Some (marshal p) → ∀ k, holds d' app k = Has p k) as Hset.
  { intros d' E k. unfold holds, entryOf. by rewrite E, Hq. }
  case_bool_decide as He.
  - subst p. assert (∀ d', d' !! app = None → ∀ k, holds d' app k = Has nothing k) as Hnone by (intros d' E k; unfold holds, entryOf; by rewrite E).
    destruct (d !! app) as [raw|] eqn:E; cbn; [|eauto]. split; [intros a r (_ & Ha)%lookup_delete_Some; eauto|].
    split; [apply Hnone, lookup_delete_eq|]. intros a Ha. by rewrite lookup_delete_ne.
  - case_bool_decide as Hs; cbn.
    + split; [done|]. split; [|done]. apply Hset. destruct (d !! app) as [raw|]; cbn in Hs; [by f_equal|]. by destruct (marshal_some p).
    + split; [|split; [apply Hset, lookup_insert_eq|intros a Ha; by rewrite lookup_insert_ne]].
      intros a raw [[<- <-]|[_ Ha]]%lookup_insert_Some; [by rewrite Hq|eauto].
Qed.

Lemma RecordProvisioned_spec d app made : readable d → proper made →
  ∃ d' ch, RecordProvisioned d app made = Ok (d', ch) ∧ readable d'
    ∧ ∀ app' k, holds d' app' k = holds d app' k || (bool_decide (app' = app) && Has made k).
Proof.
  intros Hd Hm. unfold RecordProvisioned, Empty. case_bool_decide as He.
  - subst made. exists d, false. split; [done|]. split; [done|]. intros a k. by rewrite Has_nothing, andb_false_r, orb_false_r.
  - destruct (readable_entry d app Hd) as (p & Ep & Hp). rewrite Ep. cbn.
    destruct (setEntry_spec d app (merged p made) Hd (proper_merged _ _ Hp Hm)) as (Hr & Hh & Ho).
    destruct (setEntry _ _ _) as [d' ch]. exists d', ch. split; [done|]. split; [done|]. intros a k. case_bool_decide as Ha; cbn.
    + subst a. cbn in Hh. rewrite Hh, Has_merged. unfold holds. by rewrite Ep.
    + unfold holds. by rewrite (entryOf_other d d'), orb_false_r by auto.
Qed.
Lemma ForgetProvisioned_spec d app kind : readable d →
  ∃ d' ch, ForgetProvisioned d app kind = Ok (d', ch) ∧ readable d'
    ∧ ∀ app' k, holds d' app' k = holds d app' k && negb (bool_decide (app' = app) && bool_decide (k = kind)).
Proof.
  intros Hd. unfold ForgetProvisioned. destruct (d !! app) as [raw|] eqn:E.
  - destruct (readable_entry d app Hd) as (p & Ep & Hp). rewrite Ep. cbn.
    destruct (setEntry_spec d app (Without p kind) Hd (proper_Without _ _ Hp)) as (Hr & Hh & Ho).
    destruct (setEntry _ _ _) as [d' ch]. exists d', ch. split; [done|]. split; [done|]. intros a k. case_bool_decide as Ha; cbn [andb negb].
    + subst a. cbn in Hh. rewrite Hh, Has_Without. unfold holds. by rewrite Ep.
    + unfold holds. by rewrite (entryOf_other d d'), andb_true_r by auto.
  - exists d, false. split; [done|]. split; [done|]. intros a k. case_bool_decide as Ha; cbn; [|by rewrite andb_true_r].
    subst a. unfold holds, entryOf. by rewrite E, Has_nothing.
Qed.

(** An app's own entry, whatever the others are. *)
Lemma forget_own d app kind d' ch : ForgetProvisioned d app kind = Ok (d', ch) →
  (∀ k, holds d' app k = holds d app k && negb (bool_decide (k = kind))) ∧ (ch = false → d' = d).
Proof.
  unfold ForgetProvisioned. destruct (d !! app) as [raw|] eqn:E.
  - unfold entryOf. rewrite E. destruct (unmarshal raw) as [p|e] eqn:Eu; [|done]. cbn [mbind result_bind]. intros [= Hs].
    destruct (marshal_kinds (Without p kind)) as (q & Hq & Hk); [by eapply proper_Without, unmarshal_proper|].
    assert (∀ k, holds d app k = Has p k) as Hh by (intros k; unfold holds, entryOf; by rewrite E, Eu).
    unfold setEntry, Empty in Hs. rewrite E in Hs. case_bool_decide as He; [|case_bool_decide as Hm; cbn in Hm]; injection Hs as <- <-; (split; [|done]); intros k.
    + rewrite Hh, <- Has_Without, He, Has_nothing. unfold holds, entryOf. by rewrite lookup_delete_eq, Has_nothing.
    + rewrite Hh, <- Has_Without, <- (Hk k). congruence.
    + rewrite Hh, <- Has_Without. unfold holds, entryOf. by rewrite lookup_insert_eq, Hq.
  - intros [= <- <-]. split; [|done]. intros k. unfold holds, entryOf. by rewrite E, Has_nothing.
Qed.

(** ** Changes of the record, one after the other *)

Inductive change := Recorded (app : string) (made : Provisioned) | Forgot (app : string) (kind : Kind).
Definition change_record (d : data) (c : change) : result data :=
  r ← match c with Recorded app made => RecordProvisioned d app made | Forgot app kind => ForgetProvisioned d app kind end; Ok r.1.
Fixpoint change_all (d : data) (cs : list change) : result data :=
  match cs with [] => Ok d | c :: cs => d' ← change_record d c; change_all d' cs end.

(** What a change means for the set of stores on record. *)
Abbreviation holdings := (gset (string * Kind)).
Definition meant (h : holdings) (c : change) : holdings :=
  match c with
  | Recorded app made => h ∪ list_to_set (pair app <$> filter (λ k, Has made k = true) ProvisionOrder)
  | Forgot app kind => h ∖ {[(app, kind)]}
  end.
Definition says (d : data) (h : holdings) : Prop := ∀ app k, holds d app k = true ↔ (app, k) ∈ h.
Definition change_proper (c : change) : Prop := match c with Recorded _ made => proper made | Forgot _ _ => True end.

Lemma every_kind k : k ∈ ProvisionOrder.
Proof. destruct k; apply (bool_decide_unpack _); vm_compute; exact I. Qed.
Lemma change_says d h c : readable d → says d h → change_proper c → ∃ d', change_record d c = Ok d' ∧ readable d' ∧ says d' (meant h c).
Proof.
  intros Hd Hs Hc. destruct c as [app made|app kind]; unfold change_record; cbn in Hc.
  - destruct (RecordProvisioned_spec d app made Hd Hc) as (d' & ch & -> & Hr & Hh). exists d'. split; [done|]. split; [done|].
    intros a k. rewrite Hh, orb_true_iff, andb_true_iff, bool_decide_eq_true, (Hs a k). cbn [meant].
    rewrite elem_of_union, elem_of_list_to_set, list_elem_of_fmap. setoid_rewrite list_elem_of_filter. pose proof (every_kind k). naive_solver.
  - destruct (ForgetProvisioned_spec d app kind Hd) as (d' & ch & -> & Hr & Hh). exists d'. split; [done|]. split; [done|].
    intros a k. rewrite Hh, andb_true_iff, negb_true_iff, (Hs a k). cbn [meant]. rewrite elem_of_difference, elem_of_singleton.
    rewrite andb_false_iff, !bool_decide_eq_false. destruct (decide (a = app)), (decide (k = kind)); naive_solver.
Qed.

Lemma change_all_cons d d' c cs : change_record d c = Ok d' → change_all d (c :: cs) = change_all d' cs.
Proof. intros E. cbn [change_all]. by rewrite E. Qed.

(** C15: The record of a tenant's stores is a set of apps and kinds: from a record that parses and
    says [h], any sequence of recordings and forgettings succeeds, leaves a record that parses,
    and the record then says what the sequence makes of the set [h]. *)
Theorem record_refines_holdings (cs : list change) : ∀ (d : data) (h : holdings), readable d → says d h → Forall change_proper cs →
  ∃ d', change_all d cs = Ok d' ∧ readable d' ∧ says d' (foldl meant h cs).
Proof.
  induction cs as [|c cs IH]; intros d h Hd Hs Hcs; [by exists d|]. apply Forall_cons in Hcs as [Hc Hcs].
  destruct (change_says d h c Hd Hs Hc) as (d1 & E1 & Hd1 & Hs1). destruct (IH d1 _ Hd1 Hs1 Hcs) as (d' & E' & Hd' & Hs').
  exists d'. split; [|done]. by rewrite (change_all_cons _ _ _ _ E1).
Qed.

(** An entry without a database names none. *)
Definition whole (p : Provisioned) : Prop := pv_engine p = NoDatabase → pv_database p = "" ∧ pv_databaseUser p = "".
Lemma merged_nothing p : whole p → merged nothing p = p.
Proof.
  intros Hw. unfold whole in Hw. destruct p as [e d u b c m]. cbn in Hw. unfold merged, or_else. cbn.
  repeat case_bool_decide; subst; destruct_and?; try (destruct Hw as [-> ->]; [done|]); congruence.
Qed.
Lemma merged_same p q : (∀ k, Has p k = Has q k) → whole p → whole q → merged p q = q.
Proof.
  intros Hk Hp Hq. pose proof (Hk KindDatabase). pose proof (Hk KindObjectStorage). pose proof (Hk KindCache). pose proof (Hk KindModelAccess).
  unfold whole in *. destruct p as [e d u b c m], q as [e' d' u' b' c' m']. cbn in *. unfold merged, or_else. cbn.
  f_equal; repeat case_bool_decide; subst; cbn in *; try done; intuition congruence.
Qed.
Lemma inventory_whole t app p : whole (ProvisionedOf (InventoryOf t app p)).
Proof. unfold whole, InventoryOf. by destruct (so_database (ProfileStores p)) eqn:E; cbn; rewrite E. Qed.

Lemma recorded_entry d app p made : d !! app = Some (marshal p) → proper p → plain p = true → proper made → plain made = true →
  Empty made = false → merged p made = made →
  ∃ d', change_record d (Recorded app made) = Ok d' ∧ entryOf d' app = Ok made ∧ ∀ a, a ≠ app → d' !! a = d !! a.
Proof.
  intros Hd Hpp Hpl Hp Hpl' He Hm. unfold change_record, RecordProvisioned, entryOf. rewrite He, Hd, (marshal_plain p) by done. cbn. rewrite Hm.
  unfold setEntry. rewrite He, Hd. cbn. case_bool_decide as Hs; cbn.
  - exists d. split; [done|]. split; [by rewrite Hd, Hs, marshal_plain|done].
  - eexists. split; [done|]. rewrite lookup_insert_eq, marshal_plain by done. split; [done|]. intros a Ha. by rewrite lookup_insert_ne.
Qed.
Lemma recorded_first d app made : d !! app = None → whole made → Empty made = false →
  ∃ d', change_record d (Recorded app made) = Ok d' ∧ d' !! app = Some (marshal made) ∧ ∀ a, a ≠ app → d' !! a = d !! a.
Proof.
  intros Hd Hw He. unfold change_record, RecordProvisioned, entryOf. rewrite He, Hd. cbn. rewrite merged_nothing by done. unfold setEntry. rewrite He, Hd. cbn.
  rewrite bool_decide_false by (intros E; symmetry in E; by apply marshal_some in E). cbn. eexists. split; [done|].
  rewrite lookup_insert_eq. split; [done|]. intros a Ha. by rewrite lookup_insert_ne.
Qed.

(** C38: Recording does not only add: of an app recorded under a tenant's names and recorded again
    after they were changed, the record has the second names alone, so the bucket and the
    database made under the first are named by no entry the app's recordings wrote. *)
Theorem recording_replaces_names (d : data) (t t' : tenant) (app : string) (p : option StoreProfile) :
  let made := ProvisionedOf (InventoryOf t app p) in let made' := ProvisionedOf (InventoryOf t' app p) in
  d !! app = None → (∀ k, Has made k = Has made' k) → Empty made = false → Empty made' = false →
  proper made → plain made = true → proper made' → plain made' = true →
  ∃ d', change_all d [Recorded app made; Recorded app made'] = Ok d' ∧ entryOf d' app = Ok made' ∧ ∀ a, a ≠ app → d' !! a = d !! a.
Proof.
  intros made made' Hd Hk He He' Hp Hpl Hp' Hpl'. destruct (recorded_first d app made) as (d1 & E1 & Hd1 & Ho1); [done|apply inventory_whole|done|].
  destruct (recorded_entry d1 app made made') as (d2 & E2 & Hd2 & Ho2); try done; [by apply merged_same; [|apply inventory_whole..]|].
  exists d2. rewrite (change_all_cons _ _ _ _ E1), (change_all_cons _ _ _ _ E2). split; [done|]. split; [done|]. intros a Ha. rewrite Ho2, Ho1; done.
Qed.
End Record_.

(** ** Not vacuous *)

Module RecordExample.
(** An entry as the digits of a number, in place of JSON. *)
Fixpoint digits (p : positive) : string := match p with xH => "e" | xO p => String "0" (digits p) | xI p => String "1" (digits p) end.
Fixpoint number (s : string) : positive :=
  match s with "" => xH | String c s => if Ascii.eqb c "0" then xO (number s) else if Ascii.eqb c "1" then xI (number s) else xH end.
Lemma number_digits p : number (digits p) = p.
Proof. induction p as [p IH|p IH|]; cbn; congruence. Qed.

Abbreviation fields := (string * string * string * string * string * string)%type.
#[local] Instance entries : EntryJSON := {|
  marshal p := digits (encode ((engine_name (pv_engine p), pv_database p, pv_databaseUser p, pv_bucket p, pv_cacheUser p, pv_modelKey p) : fields));
  unmarshal raw := match (decode (number raw) : option fields) with
    | Some (e, d, u, b, c, m) => Ok (mkProvisioned (engine_of e) d u b c m)
    | None => Err (Errorf "invalid character" []) end |}.
Lemma entries_roundtrip p : proper p → unmarshal (marshal p) = Ok p.
Proof. intros Hp. cbn. rewrite number_digits, decode_encode. rewrite Hp. by destruct p. Qed.
Lemma engine_of_proper n : engine_of (engine_name (engine_of n)) = engine_of n.
Proof. unfold engine_of at 2 3. repeat case_bool_decide; subst; try done. cbn. unfold engine_of. by rewrite !bool_decide_false. Qed.
#[local] Instance entries_laws : EntryJSONLaws.
Proof.
  split.
  - intros p. cbn. by destruct (encode _).
  - intros raw p. cbn. destruct (decode _) as [[[[[[e d] u] b] c] m]|]; [|done]. intros [= <-]. apply engine_of_proper.
  - intros p Hp. exists p. by rewrite entries_roundtrip.
  - intros p Hp _. by apply entries_roundtrip.
Qed.

Definition wiki : option StoreProfile := Some (mkStoreProfile (Some (mkServices (Some PostgreSQL) true false false)) [] None).
Definition acme (prefix : string) : tenant := mkTenant "acme" ∅ (Some (mkIsolation "" "" "" prefix)) None [].
Abbreviation made prefix := (ProvisionedOf (InventoryOf (acme prefix) "wiki" wiki)).

Lemma record_refines_holdings_witness : ∃ d', change_all ∅ [Recorded "wiki" (made ""); Forgot "wiki" KindDatabase] = Ok d'
  ∧ holds d' "wiki" KindObjectStorage = true ∧ holds d' "wiki" KindDatabase = false.
Proof.
  destruct (record_refines_holdings [Recorded "wiki" (made ""); Forgot "wiki" KindDatabase] ∅ ∅) as (d' & E & _ & Hs).
  - intros app raw Hraw. by rewrite lookup_empty in Hraw.
  - intros app k. unfold holds, entryOf. rewrite lookup_empty, Has_nothing. split; [done|set_solver].
  - repeat constructor.
  - exists d'. split; [exact E|]. split; [|apply not_true_iff_false; intros Hh]; [apply (Hs "wiki" KindObjectStorage)|apply (Hs "wiki" KindDatabase) in Hh]; cbn [foldl meant].
    + apply elem_of_difference. split; [|intros E'%elem_of_singleton; discriminate E']. apply elem_of_union_r, elem_of_list_to_set. apply (bool_decide_unpack _). vm_compute. exact I.
    + cbn [foldl meant] in Hh. apply elem_of_difference in Hh as [_ Hh]. by apply Hh, elem_of_singleton.
Defined.

Lemma recording_replaces_names_witness : S3Bucket (acme "a-") "wiki" ≠ S3Bucket (acme "b-") "wiki"
  ∧ ∃ d', change_all ∅ [Recorded "wiki" (made "a-"); Recorded "wiki" (made "b-")] = Ok d' ∧ pv_bucket <$> (match entryOf d' "wiki" with Ok p => Some p | Err _ => None end) = Some "b-wiki".
Proof.
  split; [intros E; vm_compute in E; discriminate|].
  destruct (recording_replaces_names ∅ (acme "a-") (acme "b-") "wiki" wiki) as (d' & E & Hd & _).
  - apply lookup_empty.
  - intros []; vm_compute; reflexivity.
  - vm_compute; reflexivity.
  - vm_compute; reflexivity.
  - vm_compute; reflexivity.
  - vm_compute; reflexivity.
  - vm_compute; reflexivity.
  - vm_compute; reflexivity.
  - exists d'. split; [exact E|]. rewrite Hd. vm_compute. reflexivity.
Defined.
End RecordExample.
