(* ===== verification/DestroyJobs.v ===== *)
(** * The deletion of a store

    The Jobs of [internal/backup/teardown.go] and [mariadb.go] that destroy a store: which
    store each is made for, and its script, command by command, on the server it talks to.
    The services the operator and the scripts call are one type of calls, [call], answered by
    a [Cluster]; [ClusterLaws] says what is documented of them.

    [script_destroys]: a script that ends in success has left nothing of its store but a
    bucket that was under Object Lock.  [script_spares]: whatever its end, it leaves what is
    not its store's, which on PostgreSQL includes every database the app's role owns and on
    MariaDB every database under the app's prefix no other account has rights on.
    [line_break_drops_another]: a name with a line break in it is taken for two. *)

From S2P Require Import Prelude.
From S2P Require Import GoStrings.
From S2P Require Import Ids.
From S2P Require Import Custodian.
From S2P Require Import Placement.
From S2P Require Import TenantStores.
From S2P Require Import StoreRecord.

Local Open Scope act_scope.

(** ** What an app's stores and volumes are called *)

Inductive store :=
  | ADatabase (engine : DatabaseEngine) (database user : string)
  | ABucket (bucket : string)
  | ACacheUser (user : string)
  | AModelKey (alias : string).
#[global] Instance store_eq_dec : EqDecision store.
Proof. solve_decision. Defined.

(** A deletion Job.  [jb_destroys] is the store its script is written for: the script is
    [destroy_script] of it, below. *)
Record Job := mkJob { jb_namespace : string; jb_name : string; jb_destroys : store }.
Definition System (fn : string) : string := "system-" +:+ fn.
Definition destroy_job (fn kind : string) (t : tenant) (app : string) (st : store) : Job :=
  mkJob (System fn) (kind +:+ "-" +:+ tn_name t +:+ "-" +:+ app) st.
Definition PostgresDestroyJob (t : tenant) (app : string) : Job :=
  destroy_job "postgresql" "pg-delete" t app (ADatabase PostgreSQL (DatabaseName t app) (PostgresRole (tn_name t) app)).
Definition MariaDBDestroyJob (t : tenant) (app : string) : Job :=
  destroy_job "mariadb" "mariadb-delete" t app (ADatabase MariaDB (DatabaseName t app) (MariaDBUser (tn_name t) app)).
Definition ObjectStorageDestroyJob (t : tenant) (unit_ : string) : Job := destroy_job "s3" "s3-delete" t unit_ (ABucket (S3Bucket t unit_)).
Definition CacheDestroyJob (t : tenant) (app : string) : Job := destroy_job "cache" "redis-acl-delete" t app (ACacheUser (RedisACLUser (tn_name t) app)).
Definition StoreDestroyJobs (t : tenant) (app : string) (stores : Stores) (kind : Kind) : option Job :=
  match kind with
  | KindDatabase => match so_database stores with PostgreSQL => Some (PostgresDestroyJob t app) | MariaDB => Some (MariaDBDestroyJob t app) | _ => None end
  | KindObjectStorage => if so_s3 stores then Some (ObjectStorageDestroyJob t app) else None
  | KindCache => if so_redis stores then Some (CacheDestroyJob t app) else None
  | _ => None
  end.

Record VolumeClaim := mkClaim { pvc_name : string; pvc_labels : gmap string string; pvc_annotations : gmap string string }.
(** ** Calls *)

Inductive JobStatus := JobRunning | JobComplete | JobFailed.
Record Pod := mkPod { pod_name : string; pod_claims : list string }.
Record Pack := mkPack { pk_serviceClient : bool; pk_scopeName : string }.
Record OIDC := mkOIDC { oi_clientID : string; oi_packRef : string }.
Record IdentityRequirement := mkIdentity { id_oidc : option OIDC; id_saml : string }.
(** A profile: its stores, and who signs in to it and to its extensions. *)
Record PurgeProfile := mkPurgeProfile {
  pp_name : string; pp_stores : StoreProfile; pp_identity : option IdentityRequirement; pp_extensions : list (string * option IdentityRequirement) }.

(** A call on a service, by the type of its answer.  A call that names a thing which is not
    there fails with [NotFound], except that a look for one answers [None]. *)
Inductive call : Type → Type :=
  | Now : call Z
  | Wait : call unit
  | ReadRecord (tenantName : string) : call (option data)
  | UpdateRecord (tenantName : string) (d : data) : call unit
  | DeleteJob (ns name : string) : call unit
  | GetJob (ns name : string) : call (option JobStatus)
  | CreateJob (j : Job) : call unit
  | DeleteDatabaseObject (name : string) : call unit
  | DatabaseObjectThere (name : string) : call bool
  | ListClaims (ns : string) : call (list VolumeClaim)
  | DeleteClaim (ns name : string) : call unit
  | ClaimThere (ns name : string) : call bool
  | ListPods (ns : string) : call (list Pod)
  | DeletePod (ns name : string) : call unit
  | ListLabelled (resource ns selector : string) : call (list string)
  | DeleteLabelled (resource ns name : string) : call unit
  | DeleteTree (path : string) : call unit
  | IdentityProvider : call unit
  | DeleteGroup (realm name : string) : call bool
  | DeleteClient (realm name : string) : call bool
  | DeleteClientScope (realm name : string) : call bool
  | ResolvePack (profile key : string) : call (option Pack)
  | ProfileOf (name : string) : call (option PurgeProfile)
  | ModelGatewayPresent : call bool
  | DeleteKey (alias : string) : call bool
  | AuthorizationRecorded (tenantName app : string) : call bool
  | PurgeAuthorization (tenantName app : string) : call unit
  (** What the scripts of the Jobs ask of PostgreSQL, *)
  | PgOwned (role database : string) : call (list string)
  | PgDropDatabase (database : string) : call unit
  | PgDropRole (role : string) : call unit
  | PgCount (database : string) : call nat
  (** of MariaDB, *)
  | MyOwned (database user : string) : call (option string)
  | MyDropDatabase (database : string) : call unit
  | MyDropUser (user : string) : call unit
  | MyLeft (database user : string) : call nat
  | MyNote (database user : string) : call unit
  (** of the object store, *)
  | BucketList : call (list string)
  | BucketDelete (bucket : string) : call unit
  | IdentityDelete (name : string) : call unit
  (** and of the cache. *)
  | AclDelUser (user : string) : call unit
  | AclList : call (list string)
  | AclSave : call string.

Class Cluster (W : Type) := perform : ∀ A, call A → act W A.
Arguments perform {_ _ _} _.

Definition NotFound : string := "not found".
Definition Conflict : string := "conflict".
Definition seconds (n : Z) : Z := (n * 1000000000)%Z.
Definition purgeJobWait : Z := seconds 120.
Definition pvcDeletionTimeout : Z := seconds 120.
Definition purgeRecordWait : Z := seconds 30.
Definition purgePoll : Z := seconds 3.
(** More polls than fit into the longest wait. *)
Definition polls : nat := 42.

(** ** The scripts *)

Definition newline : string := String "010" "".
(** A text by its lines. *)
Fixpoint lines (s : string) : list string :=
  match s with
  | "" => [""]
  | String c s => if Ascii.eqb c "010" then "" :: lines s
                  else match lines s with l :: ls => String c l :: ls | [] => [String c ""] end
  end.
(** The file the script of PostgreSQL reads back: the names psql printed, one after the other,
    and the provisioned one. *)
Definition owned_file (owned : list string) (database : string) : string :=
  foldr (λ name file, name +:+ newline +:+ file) (database +:+ newline) owned.

Definition mariadbName (s : string) : bool :=
  negb (bool_decide (s = ""))
  && str_forallb (λ c, is_alnum c || Ascii.eqb c "_") s.
Definition ObjectLock : string := "active Object Lock retention or legal hold".

Section Scripts.
Context {W : Type} `{Cluster W}.

Definition postgresDestroyScript (database role : string) : act W unit :=
  owned ⇐ perform (PgOwned role database);
  act_each (λ db, if bool_decide (db = "") then ret tt else perform (PgDropDatabase db)) (lines (owned_file owned database));;
  perform (PgDropRole role);;
  left_ ⇐ perform (PgCount database);
  if bool_decide (left_ = 0) then ret tt else fail (Errorf "ERROR: database %s is still there" [database]).

(** The loop that asks for one database of the app's at a time, for as many as there are. *)
Fixpoint drop_owned (fuel : nat) (database user : string) : act W unit :=
  match fuel with
  | O => fail (Sentinel "still looping")
  | S fuel =>
      nm ⇐ perform (MyOwned database user);
      match nm with None => ret tt | Some nm => perform (MyDropDatabase nm);; drop_owned fuel database user end
  end.
Definition mariadbDestroyScript (fuel : nat) (database user : string) : act W unit :=
  if negb (mariadbName database) then fail (Errorf "ERROR: invalid MariaDB database name %q" [database])
  else if negb (mariadbName user) then fail (Errorf "ERROR: invalid MariaDB user name %q" [user])
  else
    drop_owned fuel database user;;
    perform (MyDropDatabase database);;
    perform (MyDropUser user);;
    left_ ⇐ perform (MyLeft database user);
    (if bool_decide (left_ = 0) then ret tt else fail (Errorf "ERROR: database(s) of %s are still there" [database]));;
    perform (MyNote database user).

(** A bucket that cannot be deleted for its locked objects is kept, and the script goes on. *)
Definition objectStorageDestroyScript (bucket : string) : act W unit :=
  buckets ⇐ perform BucketList;
  (if bool_decide (bucket ∈ buckets) then unless ObjectLock (perform (BucketDelete bucket)) else ret tt);;
  unless NotFound (perform (IdentityDelete bucket)).

Definition cacheDestroyScript (user : string) : act W unit :=
  perform (AclDelUser user);;
  users ⇐ perform AclList;
  if negb (bool_decide ("default" ∈ users)) then fail (Errorf "ERROR: the cache did not list its users" [])
  else if bool_decide (user ∈ users) then fail (Errorf "ERROR: cache user %s is still there" [user])
  else
    saved ⇐ perform AclSave;
    if bool_decide (saved = "OK") then ret tt else fail (Errorf "ERROR: the cache did not save its users: %s" [saved]).

(** The script of a Job, by what the Job is made for. *)
Definition destroy_script (fuel : nat) (st : store) : act W unit :=
  match st with
  | ADatabase PostgreSQL database user => postgresDestroyScript database user
  | ADatabase MariaDB database user => mariadbDestroyScript fuel database user
  | ABucket bucket => objectStorageDestroyScript bucket
  | ACacheUser user => cacheDestroyScript user
  | _ => fail (Sentinel "no such Job")
  end.
End Scripts.

(** ** What is documented of the services *)

(** What there is on the servers, piece by piece. *)
Inductive thing :=
  | TDatabase (engine : DatabaseEngine) (name : string)
  | TUser (engine : DatabaseEngine) (name : string)
  | TBucket (name : string)
  | TIdentity (name : string)
  | TCacheUser (name : string)
  | TModelKey (alias : string).
#[global] Instance thing_eq_dec : EqDecision thing.
Proof. solve_decision. Defined.
Definition things (st : store) : list thing :=
  match st with
  | ADatabase engine database user => [TDatabase engine database; TUser engine user]
  | ABucket bucket => [TBucket bucket; TIdentity bucket]
  | ACacheUser user => [TCacheUser user]
  | AModelKey alias => [TModelKey alias]
  end.

(** The calls that write a tenant's record, that leave Jobs as they are, and that may take something away. *)
Definition writes_record {A} (c : call A) (tenantName : string) : bool := match c with UpdateRecord n _ => bool_decide (n = tenantName) | _ => false end.
Definition aims {A} (c : call A) (x : thing) : bool :=
  match c with
  | CreateJob _ => true
  | DeleteKey alias => bool_decide (x = TModelKey alias)
  | PgDropDatabase database => bool_decide (x = TDatabase PostgreSQL database)
  | PgDropRole role => bool_decide (x = TUser PostgreSQL role)
  | MyDropDatabase database => bool_decide (x = TDatabase MariaDB database)
  | MyDropUser user => bool_decide (x = TUser MariaDB user)
  | BucketDelete bucket => bool_decide (x = TBucket bucket)
  | IdentityDelete name => bool_decide (x = TIdentity name)
  | AclDelUser user => bool_decide (x = TCacheUser user)
  | _ => false
  end.
Definition harmless {A} (c : call A) : bool :=
  match c with
  | UpdateRecord _ _ | CreateJob _ | DeleteKey _ | PgDropDatabase _ | PgDropRole _ | MyDropDatabase _ | MyDropUser _
  | BucketDelete _ | IdentityDelete _ | AclDelUser _ => false
  | _ => true
  end.
Definition leaves_jobs {A} (c : call A) : bool := match c with Now | Wait | GetJob _ _ => true | _ => false end.

(** The services, as far as one app of one tenant is concerned.  While the app is purged
    nobody provisions it: the operator holds the app's lock and the app is uninstalled, so
    that of what is its [own], nothing comes. *)
Class ClusterLaws (W : Type) `{Cluster W} (tenantName app : string) (own : thing → Prop) := {
  clock : W → Z;
  there : W → thing → Prop;
  (** A deletion of it is under way, by somebody. *)
  menaced : W → thing → Prop;
  (** The bucket holds objects under retention or legal hold. *)
  locked : W → string → Prop;
  (** The role owns the database; an account other than the user has rights on it. *)
  pg_owns : W → string → string → Prop;
  my_others : W → string → string → Prop;
  (** The app's entry in the tenant's record. *)
  entry_raw : W → option string;
  (** What may have come of a world, with whatever others did. *)
  later : W → W → Prop;
  (** The Job of that name is the one that was created, at the first of the two. *)
  created : W → W → Job → Prop;
  later_preorder :: PreOrder later;
  later_call A (c : call A) w : later w (perform c w).1;
  only_go w w' x : own x → later w w' → there w' x → there w x;
  clock_on A (c : call A) w : (clock w ≤ clock (perform c w).1)%Z;
  now_answer w : (perform Now w).2 = Ok (clock (perform Now w).1);
  wait_passes w : (perform Wait w).2 = Ok tt → (clock w + purgePoll ≤ clock (perform Wait w).1)%Z;
  entry_kept A (c : call A) w : writes_record c tenantName = false → entry_raw (perform c w).1 = entry_raw w;
  read_answer w w' r : perform (ReadRecord tenantName) w = (w', Ok r) → r ≫= lookup app = entry_raw w';
  update_answer w w' d r : perform (UpdateRecord tenantName d) w = (w', r) →
    match r with Ok _ => entry_raw w' = d !! app | Err _ => entry_raw w' = entry_raw w ∨ entry_raw w' = d !! app end;
  (** A Job that is complete ran its script to a successful end since it was created. *)
  create_answer w w' j : perform (CreateJob j) w = (w', Ok tt) → created w w' j;
  created_stays A (c : call A) w0 w j : leaves_jobs c = true → created w0 w j → created w0 (perform c w).1 j;
  complete_answer w0 w w' j : perform (GetJob (jb_namespace j) (jb_name j)) w = (w', Ok (Some JobComplete)) → created w0 w j →
    ∃ fuel w1 w2, later w0 w1 ∧ destroy_script fuel (jb_destroys j) w1 = (w2, Ok tt) ∧ later w2 w';
  (** A Job runs its script and nothing else: what the script leaves, in any circumstances
      that last, the Job leaves. *)
  job_spares (C : W → Prop) w j x : (∀ v v', later v v' → C v → C v') →
    (∀ fuel, kept (λ v, there v x ∧ ¬ menaced v x ∧ C v) (destroy_script fuel (jb_destroys j))) →
    there w x → ¬ menaced w x → C w →
    there (perform (CreateJob j) w).1 x ∧ ¬ menaced (perform (CreateJob j) w).1 x;
  unaimed A (c : call A) w x : aims c x = false → there w x → ¬ menaced w x →
    there (perform c w).1 x ∧ ¬ menaced (perform c w).1 x;
  (** The servers. *)
  owned_answer w w' role database l : perform (PgOwned role database) w = (w', Ok l) → ∀ o, o ∈ l → pg_owns w' role o;
  dropped_answer w w' database : perform (PgDropDatabase database) w = (w', Ok tt) → ¬ there w' (TDatabase PostgreSQL database);
  role_answer w w' role : perform (PgDropRole role) w = (w', Ok tt) → ¬ there w' (TUser PostgreSQL role);
  count_answer w w' database : perform (PgCount database) w = (w', Ok 0) → ¬ there w' (TDatabase PostgreSQL database);
  my_owned_answer w w' database user o : perform (MyOwned database user) w = (w', Ok (Some o)) →
    has_prefix o (database +:+ "_") = true ∧ ¬ my_others w' user o;
  my_user_answer w w' user : perform (MyDropUser user) w = (w', Ok tt) → ¬ there w' (TUser MariaDB user);
  my_left_answer w w' database user : perform (MyLeft database user) w = (w', Ok 0) → ¬ there w' (TDatabase MariaDB database);
  list_answer w w' l bucket : perform BucketList w = (w', Ok l) → bucket ∉ l → ¬ there w' (TBucket bucket);
  bucket_answer w w' bucket r : perform (BucketDelete bucket) w = (w', r) →
    match r with
    | Ok _ => ¬ there w' (TBucket bucket)
    | Err e => errors_Is e ObjectLock = true → locked w bucket
    end;
  lock_refuses w bucket : locked w bucket → there w (TBucket bucket) → ¬ menaced w (TBucket bucket) →
    there (perform (BucketDelete bucket) w).1 (TBucket bucket) ∧ ¬ menaced (perform (BucketDelete bucket) w).1 (TBucket bucket);
  identity_answer w w' name r : perform (IdentityDelete name) w = (w', r) →
    match r with Ok _ => ¬ there w' (TIdentity name) | Err e => errors_Is e NotFound = true → ¬ there w' (TIdentity name) end;
  acl_answer w w' users user : perform AclList w = (w', Ok users) → "default" ∈ users → user ∉ users → ¬ there w' (TCacheUser user);
  key_answer w w' alias b : perform (DeleteKey alias) w = (w', Ok b) → ¬ there w' (TModelKey alias);
  gateway_answer w w' alias : perform ModelGatewayPresent w = (w', Ok false) → ¬ there w' (TModelKey alias) }.

Section Scripts_.
Context {W : Type} `{Cluster W} {tenantName app : string} {own : thing → Prop} `{!ClusterLaws W tenantName app own}.

(** A store is there when a piece of it is. *)
Definition present (w : W) (st : store) : Prop := ∃ x, x ∈ things st ∧ there w x.
Definition threatened (w : W) (st : store) : Prop := ∃ x, x ∈ things st ∧ menaced w x.

(** *** What a script that succeeds leaves *)

Lemma act_each_Ok {A} (Q : W → Prop) (f : A → act W unit) l w w' : (∀ a, kept Q (f a)) → Q w → act_each f l w = (w', Ok tt) →
  ∀ a, a ∈ l → ∃ w1 w2, Q w1 ∧ f a w1 = (w2, Ok tt) ∧ Q w2.
Proof.
  intros Hf. revert w. induction l as [|b l IH]; intros w Hw; cbn [act_each]; [intros _ a Ha; by apply not_elem_of_nil in Ha|].
  intros (w1 & [] & Hb & Hl)%act_bind_Ok. pose proof (Hf b w Hw) as Hk. rewrite Hb in Hk.
  intros a [->|Ha]%elem_of_cons; [eauto|]. by eapply IH.
Qed.

Lemma perform_later {A} w0 (c : call A) : kept (later w0) (perform c).
Proof. intros w Hw. pose proof (later_call A c w) as Hl. destruct (perform c w) as [w' [a|e]]; by etrans. Qed.

(** Gone, in a state nothing but later ones come of. *)
Lemma gone_later w w' x : own x → later w w' → ¬ there w x → ¬ there w' x.
Proof. intros Hx Hl Hn Ht. by eapply Hn, only_go. Qed.

Ltac step_later := match goal with
  | H : perform ?c ?w = (?w', _) |- later ?w ?w' => pose proof (later_call _ c w) as Hlater; rewrite H in Hlater; exact Hlater
  end.

Lemma postgres_destroys database role w w' :
  own (TUser PostgreSQL role) → postgresDestroyScript database role w = (w', Ok tt) →
  ¬ there w' (TDatabase PostgreSQL database) ∧ ¬ there w' (TUser PostgreSQL role).
Proof.
  intros Hown. unfold postgresDestroyScript. intros (w1 & owned & _ & Hrun)%act_bind_Ok.
  apply act_bind_Ok in Hrun as (w2 & u2 & _ & Hrun). apply act_bind_Ok in Hrun as (w3 & [] & Hrole & Hrun).
  apply act_bind_Ok in Hrun as (w4 & n & Hcount & Hrun). case_bool_decide; [|done]. subst n. unfold ret in Hrun. injection Hrun as <-.
  split; [by eapply count_answer|]. eapply gone_later; [done| |by eapply role_answer]. step_later.
Qed.

Lemma mariadb_destroys fuel database user w w' :
  own (TDatabase MariaDB database) → own (TUser MariaDB user) → mariadbDestroyScript fuel database user w = (w', Ok tt) →
  ¬ there w' (TDatabase MariaDB database) ∧ ¬ there w' (TUser MariaDB user).
Proof.
  intros Hdb Hown. unfold mariadbDestroyScript. destruct (negb _); [done|]. destruct (negb _); [done|].
  intros (w1 & [] & _ & Hrun)%act_bind_Ok. apply act_bind_Ok in Hrun as (w2 & [] & _ & Hrun).
  apply act_bind_Ok in Hrun as (w3 & [] & Huser & Hrun). apply act_bind_Ok in Hrun as (w4 & n & Hleft & Hrun).
  apply act_bind_Ok in Hrun as (w5 & [] & Hif & Hnote). case_bool_decide; [|done]. subst n. unfold ret in Hif. injection Hif as <-.
  assert (later w4 w') as Hl by step_later.
  split; [eapply gone_later; [done|done|by eapply my_left_answer]|].
  eapply gone_later; [done| |by eapply my_user_answer]. etrans; [|exact Hl]. step_later.
Qed.

Lemma bucket_destroys bucket w w' :
  own (TBucket bucket) → objectStorageDestroyScript bucket w = (w', Ok tt) →
  (there w' (TBucket bucket) → ∃ w1, later w w1 ∧ locked w1 bucket) ∧ ¬ there w' (TIdentity bucket).
Proof.
  intros Hown. unfold objectStorageDestroyScript. intros (w1 & l & Hlist & Hrun)%act_bind_Ok.
  apply act_bind_Ok in Hrun as (w2 & [] & Hdel & Hid).
  assert (later w w1) as L1 by step_later.
  assert (there w2 (TBucket bucket) → ∃ w1, later w w1 ∧ locked w1 bucket) as Hb.
  { case_bool_decide as Hin; [|unfold ret in Hdel; injection Hdel as <-; intros Ht; by destruct (list_answer _ _ _ _ Hlist Hin)].
    unfold unless, tried, act_bind in Hdel. destruct (perform (BucketDelete bucket) w1) as [w3 r] eqn:E. apply bucket_answer in E.
    destruct r as [[]|e]; [unfold ret in Hdel; by injection Hdel as <-|]. destruct (errors_Is e ObjectLock); [|done].
    intros _. exists w1. auto. }
  unfold unless, tried, act_bind in Hid. destruct (perform (IdentityDelete bucket) w2) as [w3 r] eqn:E.
  assert (later w2 w3) as L3 by step_later. apply identity_answer in E.
  assert (w3 = w' ∧ ¬ there w3 (TIdentity bucket)) as [-> Hi].
  { destruct r as [[]|e]; [unfold ret in Hid; by injection Hid as <-|]. destruct (errors_Is e NotFound); [|done].
    unfold ret in Hid. injection Hid as <-. by split; [|apply E]. }
  split; [|done]. intros Ht. apply Hb. by eapply only_go.
Qed.

Lemma cache_destroys user w w' :
  own (TCacheUser user) → cacheDestroyScript user w = (w', Ok tt) → ¬ there w' (TCacheUser user).
Proof.
  intros Hown. unfold cacheDestroyScript. intros (w1 & [] & _ & Hrun)%act_bind_Ok.
  apply act_bind_Ok in Hrun as (w2 & users & Hlist & Hrun). case_bool_decide as Hd; [|done]. case_bool_decide as Hu; [done|].
  apply act_bind_Ok in Hrun as (w3 & saved & Hsave & Hrun). case_bool_decide; [|done]. unfold ret in Hrun. injection Hrun as <-.
  eapply gone_later; [done| |by eapply acl_answer]. step_later.
Qed.

(** A script that ends in success has left nothing of its store but a bucket that was under
    Object Lock when the store was asked to delete it. *)
Lemma script_destroys fuel st w w' x :
  (∀ x, x ∈ things st → own x) → destroy_script fuel st w = (w', Ok tt) → x ∈ things st → there w' x →
  ∃ bucket w1, st = ABucket bucket ∧ x = TBucket bucket ∧ later w w1 ∧ locked w1 bucket.
Proof.
  intros Hown Hrun Hx Ht. destruct st as [[] database user|bucket|user|alias]; try discriminate Hrun; cbn [destroy_script things] in *.
  - destruct (postgres_destroys database user w w') as [? ?]; [apply Hown; set_solver|done|]. set_solver.
  - destruct (mariadb_destroys fuel database user w w') as [? ?]; [apply Hown; set_solver..|done|]. set_solver.
  - destruct (bucket_destroys bucket w w') as [Hb Hi]; [apply Hown; set_solver|done|].
    apply elem_of_cons in Hx as [->|Hx]; [|set_solver]. destruct (Hb Ht) as (w1 & ? & ?). eauto 6.
  - pose proof (cache_destroys user w w') as Hc. assert (¬ there w' (TCacheUser user)) by (apply Hc; [apply Hown; set_solver|done]). set_solver.
Qed.

(** *** What a script spares *)

(** What a script takes for its store's. *)
Definition claims (w : W) (st : store) (x : thing) : Prop :=
  match st with
  | ADatabase PostgreSQL database role =>
      x = TUser PostgreSQL role
      ∨ ∃ name line, x = TDatabase PostgreSQL line ∧ line ∈ lines name ∧ (name = database ∨ pg_owns w role name)
  | ADatabase MariaDB database user =>
      x = TUser MariaDB user ∨ x = TDatabase MariaDB database
      ∨ ∃ name, x = TDatabase MariaDB name ∧ has_prefix name (database +:+ "_") = true ∧ ¬ my_others w user name
  | _ => x ∈ things st
  end.

Lemma lines_nonempty s : lines s ≠ [].
Proof. destruct s as [|c s]; cbn; [done|]. destruct (Ascii.eqb c "010"); [done|]. by destruct (lines s). Qed.
Lemma lines_app s t : lines (s +:+ newline +:+ t) = lines s ++ lines t.
Proof.
  induction s as [|c s IH]; [done|]. change (lines (String c (s +:+ newline +:+ t)) = lines (String c s) ++ lines t).
  cbn [lines]. rewrite IH. destruct (Ascii.eqb c "010"); [done|].
  pose proof (lines_nonempty s). by destruct (lines s).
Qed.
Lemma owned_file_lines owned database line :
  line ∈ lines (owned_file owned database) → line = "" ∨ ∃ name, line ∈ lines name ∧ (name = database ∨ name ∈ owned).
Proof.
  induction owned as [|o owned IH]; cbn [owned_file foldr].
  - change (database +:+ newline) with (database +:+ newline +:+ ""). rewrite lines_app, elem_of_app. cbn [lines].
    intros [?| ->%list_elem_of_singleton]; [right; eauto|by left].
  - rewrite lines_app, elem_of_app. fold (owned_file owned database). intros [Hl|Hl]; [right; exists o; split; [done|]; right; apply elem_of_cons; by left|].
    destruct (IH Hl) as [->|(name & ? & [->|?])]; [by left|right; by eauto|].
    right. exists name. split; [done|]. right. apply elem_of_cons. by right.
Qed.

Section Spared.
Variables (x : thing) (C : W → Prop).
Hypothesis lasting : ∀ v v', later v v' → C v → C v'.
Definition unharmed (w : W) : Prop := there w x ∧ ¬ menaced w x ∧ C w.

Lemma spared_call {A} (c : call A) : aims c x = false → kept unharmed (perform c).
Proof.
  intros Hc w (Ht & Hm & HC). pose proof (unaimed A c w x Hc Ht Hm) as [Ht' Hm']. pose proof (later_call A c w) as Hl.
  destruct (perform c w) as [w' [a|e]]; cbn in *; split_and!; eauto.
Qed.

Lemma postgres_spares database role :
  (∀ w, C w → ¬ claims w (ADatabase PostgreSQL database role) x) → kept unharmed (postgresDestroyScript database role).
Proof.
  intros Hc. unfold postgresDestroyScript.
  assert (∀ w, unharmed w → x ≠ TUser PostgreSQL role) as Hrole by (intros w (_ & _ & Hw) ->; apply (Hc w Hw); by left).
  apply (triple_bind _ _ (λ owned w, unharmed w ∧ ∀ o, o ∈ owned → pg_owns w role o)).
  { intros w Hw. pose proof (spared_call (PgOwned role database) eq_refl w Hw) as Hk.
    destruct (perform (PgOwned role database) w) as [w' [l|e]] eqn:E; [|done]. split; [done|by eapply owned_answer]. }
  intros owned. apply (triple_bind _ _ (λ _, unharmed)).
  - intros w [Hw Hl]. assert (∀ db, db ∈ lines (owned_file owned database) → db ≠ "" → x ≠ TDatabase PostgreSQL db) as Hne.
    { intros db Hdb Hn ->. destruct Hw as (_ & _ & HC). apply (Hc w HC). right.
      destruct (owned_file_lines _ _ _ Hdb) as [?|(name & ? & [->|?])]; [done|eauto 6..]. eexists name, db. eauto 6. }
    clear Hl. revert w Hw. change (kept unharmed (act_each (λ db, if bool_decide (db = "") then ret () else perform (PgDropDatabase db)) (lines (owned_file owned database)))).
    induction (lines (owned_file owned database)) as [|db l IH]; cbn [act_each]; [apply kept_ret|].
    apply kept_bind; [|intros _; apply IH; intros; apply Hne; [by right|done]].
    case_bool_decide; [apply kept_ret|]. apply spared_call. cbn. apply bool_decide_eq_false. apply Hne; [by left|done].
  - intros _ w Hw. revert w Hw. change (kept unharmed (perform (PgDropRole role);; left_ ⇐ perform (PgCount database);
      if bool_decide (left_ = 0) then ret tt else fail (Errorf "ERROR: database %s is still there" [database]))).
    intros w Hw. apply (kept_bind unharmed); [|intros _; apply kept_bind; [by apply spared_call|intros n; case_bool_decide; [apply kept_ret|apply kept_fail]]|done].
    apply spared_call. cbn. apply bool_decide_eq_false. by eapply Hrole.
Qed.

Lemma drop_owned_spares fuel database user :
  (∀ w, C w → ¬ claims w (ADatabase MariaDB database user) x) → kept unharmed (drop_owned fuel database user).
Proof.
  intros Hc. induction fuel as [|fuel IH]; cbn [drop_owned]; [apply kept_fail|].
  apply (triple_bind _ _ (λ nm w, unharmed w ∧ ∀ o, nm = Some o → x ≠ TDatabase MariaDB o)).
  { intros w Hw. pose proof (spared_call (MyOwned database user) eq_refl w Hw) as Hk.
    destruct (perform (MyOwned database user) w) as [w' [l|e]] eqn:E; [|done]. split; [done|]. intros o -> ->.
    apply my_owned_answer in E as [? ?]. destruct Hk as (_ & _ & HC). apply (Hc w' HC). right. right. eauto. }
  intros [nm|]; [|apply triple_ret; by intros w []]. intros w [Hw Hne].
  apply (kept_bind unharmed); [|intros _; exact IH|done]. apply spared_call. cbn. apply bool_decide_eq_false. by apply Hne.
Qed.

Lemma mariadb_spares fuel database user :
  (∀ w, C w → ¬ claims w (ADatabase MariaDB database user) x) → kept unharmed (mariadbDestroyScript fuel database user).
Proof.
  intros Hc. unfold mariadbDestroyScript. destruct (negb _); [apply kept_fail|]. destruct (negb _); [apply kept_fail|].
  intros w Hw. assert (x ≠ TUser MariaDB user ∧ x ≠ TDatabase MariaDB database) as [Hu Hd].
  { destruct Hw as (_ & _ & HC). split; intros ->; apply (Hc w HC); [by left|right; by left]. }
  revert w Hw. apply kept_bind; [by apply drop_owned_spares|intros _]. apply kept_bind; [apply spared_call; by apply bool_decide_eq_false|intros _].
  apply kept_bind; [apply spared_call; by apply bool_decide_eq_false|intros _]. apply kept_bind; [by apply spared_call|intros n].
  apply kept_bind; [case_bool_decide; [apply kept_ret|apply kept_fail]|intros _]. by apply spared_call.
Qed.

(** Whatever its end, a script leaves what it does not take for its store's. *)
Lemma script_spares fuel st : (∀ w, C w → ¬ claims w st x) → kept unharmed (destroy_script fuel st).
Proof.
  intros Hc w Hw. pose proof Hw as (_ & _ & HC). pose proof (Hc w HC) as Hx. revert w Hw HC Hx.
  destruct st as [[] database user|bucket|user|alias]; cbn [destroy_script]; intros w Hw _ Hx; try (cbn; exact Hw).
  - by apply postgres_spares.
  - by apply mariadb_spares.
  - cbn [claims things] in Hx. unfold objectStorageDestroyScript.
    apply (kept_bind unharmed); [by apply spared_call| |done]. intros l. apply kept_bind.
    + case_bool_decide; [|apply kept_ret]. apply kept_unless, spared_call. apply bool_decide_eq_false. set_solver.
    + intros _. apply kept_unless, spared_call. apply bool_decide_eq_false. set_solver.
  - cbn [claims things] in Hx. unfold cacheDestroyScript.
    apply (kept_bind unharmed); [apply spared_call; apply bool_decide_eq_false; set_solver| |done]. intros _.
    apply kept_bind; [by apply spared_call|]. intros users. do 2 (destruct (bool_decide _); cbn [negb]; try apply kept_fail).
    apply kept_bind; [by apply spared_call|]. intros saved. case_bool_decide; [apply kept_ret|apply kept_fail].
Qed.
End Spared.

(** A bucket that stays under Object Lock stays. *)
Lemma locked_bucket_spared fuel bucket :
  kept (unharmed (TBucket bucket) (λ w, ∀ w1, later w w1 → locked w1 bucket)) (destroy_script fuel (ABucket bucket)).
Proof.
  set (C := λ w, ∀ w1, later w w1 → locked w1 bucket).
  assert (∀ v v', later v v' → C v → C v') as HC by (intros v v' Hl Hv w1 Hw1; apply Hv; by etrans).
  cbn [destroy_script]. unfold objectStorageDestroyScript. apply kept_bind; [by apply spared_call|]. intros l. apply kept_bind.
  - case_bool_decide; [|apply kept_ret]. apply kept_unless. intros w (Ht & Hm & Hw).
    destruct (lock_refuses w bucket) as [Ht' Hm']; [by apply Hw|done..|]. pose proof (later_call _ (BucketDelete bucket) w) as Hl.
    destruct (perform (BucketDelete bucket) w) as [w' [[]|e]]; cbn in *; split_and!; eauto.
  - intros _. apply kept_unless. by apply spared_call.
Qed.

Lemma owned_file_has owned database name line : name ∈ owned → line ∈ lines name → line ∈ lines (owned_file owned database).
Proof.
  intros Hn Hl. induction owned as [|o owned IH]; [by apply not_elem_of_nil in Hn|]. cbn [owned_file foldr].
  rewrite lines_app. fold (owned_file owned database). apply elem_of_app. apply elem_of_cons in Hn as [->|Hn]; auto.
Qed.

(** An app that may make databases can have one of anybody's dropped with its own: when its
    role owns a database with a line break in its name, the script that destroys the app's
    drops the database of each line of the name, whoever's that is. *)
Theorem line_break_drops_another database role name line l w w0 w' :
  perform (PgOwned role database) w = (w0, Ok l) → name ∈ l → line ∈ lines name → line ≠ "" →
  postgresDestroyScript database role w = (w', Ok tt) →
  ∃ w1, later w w1 ∧ ¬ there w1 (TDatabase PostgreSQL line).
Proof.
  intros Howned Hn Hline Hne. unfold postgresDestroyScript. intros (w1 & owned & Hl & Hrun)%act_bind_Ok.
  rewrite Howned in Hl. injection Hl as <- <-. apply act_bind_Ok in Hrun as (w2 & [] & Heach & _).
  assert (later w w0) as L0 by step_later.
  set (f := λ db, if bool_decide (db = "") then ret () else perform (PgDropDatabase db)) in Heach.
  assert (∀ db, kept (later w) (f db)) as Hf by (intros db; unfold f; case_bool_decide; [apply kept_ret|apply perform_later]).
  destruct (act_each_Ok (later w) f _ _ _ Hf L0 Heach line (owned_file_has _ _ _ _ Hn Hline)) as (v1 & v2 & _ & Hdrop & Hv2).
  unfold f in Hdrop. rewrite bool_decide_false in Hdrop by done. exists v2. split; [done|by eapply dropped_answer].
Qed.
End Scripts_.
