(* ===== verification/AppPurge.v ===== *)
(** * Purging an uninstalled app

    The purge of [internal/applifecycle/purge.go]: the steps it consists of, each step down
    to the calls it makes on the cluster, the vault, the identity provider, the model gateway
    and the arbiter, and the volumes that are the app's ([internal/backup/inventory.go]).  The
    calls, the Jobs that destroy stores and their scripts are in [DestroyJobs].

    [purge_accounts_for_stores]: whatever a purge answers, what is still there of a store is
    still on record, and what it reports destroyed is gone, except for a bucket that was under
    Object Lock.  [purge_spares_others]: what is not the app's survives.
    [renamed_store_is_lost]: so does a store the app was given under names the tenant has
    since changed, and nothing records it; [locked_bucket_is_lost]: nor a bucket that was
    kept for its lock. *)

From S2P Require Import Prelude.
From S2P Require Import GoStrings.
From S2P Require Import Ids.
From S2P Require Import Custodian.
From S2P Require Import Placement.
From S2P Require Import TenantStores.
From S2P Require Import StoreRecord.
From S2P Require Import DestroyJobs.

Local Open Scope act_scope.

(** ** Whose a volume is *)

Fixpoint contains (s sub : string) : bool := has_prefix s sub || match s with "" => false | String _ s' => contains s' sub end.
Fixpoint cut_suffix (s suffix : string) : option string :=
  if bool_decide (s = suffix) then Some "" else match s with "" => None | String c s' => String c <$> cut_suffix s' suffix end.

Definition PVCBelongsToApp (pvc : VolumeClaim) (appName family : string) : bool :=
  bool_decide (default "" (pvc_labels pvc !! "gentianos.io/app") = appName)
  || match pvc_labels pvc !! "app.kubernetes.io/instance" with Some i => has_prefix i appName | None => false end
  || match pvc_labels pvc !! "app.kubernetes.io/name" with
     | Some n => bool_decide (n = appName) || (negb (bool_decide (family = "")) && bool_decide (n = family)) | None => false end
  || contains (pvc_name pvc) appName || (negb (bool_decide (family = "")) && contains (pvc_name pvc) family).
Definition TenantApps (t : tenant) : list string := tn_apps t ≫= λ e, ta_profile (en_app e) :: en_addons e.
Definition OwnedKeys (t : tenant) (app : string) (extensions : list string) : list string :=
  app :: filter (λ key, key ∉ TenantApps t) ((λ ext, app +:+ "-" +:+ ext) <$> extensions).
Definition ClaimRelease (pvc : VolumeClaim) : string :=
  or_else (default "" (pvc_annotations pvc !! "meta.helm.sh/release-name")) (default "" (pvc_labels pvc !! "app.kubernetes.io/instance")).
Definition IsAppRelease (release namespace app : string) (extensions : list string) (known : bool) : bool :=
  bool_decide (release = AppRelease app) || bool_decide (release = DirectRelease namespace app)
  || (if known then existsb (λ ext, bool_decide (release = ExtensionRelease app ext)) extensions
      else has_prefix release (app +:+ "-") && bool_decide (is_Some (cut_suffix release "-release"))).
Definition OwnsRelease (t : tenant) (app : string) (p : option StoreProfile) (release : string) : bool :=
  if match cut_suffix release "-release" with Some key => negb (bool_decide (key = app)) && bool_decide (key ∈ TenantApps t) | None => false end
  then false
  else IsAppRelease release (NamespaceName t) app
         ((λ key, trim_prefix key (app +:+ "-")) <$> tail (OwnedKeys t app (SidecarNames p))) (bool_decide (is_Some p)).
Definition AppVolumes (claims : list VolumeClaim) (t : tenant) (app : string) (p : option StoreProfile) : list string :=
  pvc_name <$> filter (λ pvc, PVCBelongsToApp pvc app (default "" (p ≫= sp_chart)) = true
    ∧ (ClaimRelease pvc = "" ∨ OwnsRelease t app p (ClaimRelease pvc) = true)) claims.

Definition signs (i : option IdentityRequirement) : bool :=
  match i with Some i => bool_decide (is_Some (id_oidc i)) || negb (bool_decide (id_saml i = "")) | None => false end.
Definition signsIn (p : PurgeProfile) : bool := signs (pp_identity p) || existsb (λ e, signs e.2) (pp_extensions p).
Definition builtInClientScopes : list string :=
  ["profile"; "email"; "address"; "phone"; "roles"; "web-origins"; "offline_access"; "microprofile-jwt"; "acr"; "basic"; "service_account";
   "organization"; "role_list"; "saml_organization"].
Definition IsBuiltInClientScope (name : string) : bool := bool_decide (name ∈ builtInClientScopes).
Definition AppPath (tenantName app : string) : string := "gentian-os/tenants/" +:+ tenantName +:+ "/apps/" +:+ app.
Definition credentialPaths (t : tenant) (app : string) (extensions : list string) : list string := AppPath (tn_name t) <$> OwnedKeys t app extensions.
Definition RealmName (t : tenant) : string := match tn_isolation t with Some iso => or_else (iso_keycloakRealm iso) (tn_name t) | None => tn_name t end.

Section Purge.
Context {W : Type} `{Cluster W} `{EntryJSON}.
(** Whether the operator has a vault and an arbiter to talk to, and the namespaces provisioning leaves objects in. *)
Variables (vault arbiter : bool) (platformNamespaces : list string).

(** Look, and look again after a pause, until there is an answer or the deadline is past. *)
Fixpoint poll_until {A} (fuel : nat) (deadline : Z) (look : act W (option A)) (late : error) : act W A :=
  match fuel with
  | O => fail late
  | S fuel =>
      r ⇐ look;
      match r with
      | Some a => ret a
      | None => now ⇐ perform Now; if bool_decide (deadline < now)%Z then fail late else (perform Wait;; poll_until fuel deadline look late)
      end
  end.
Definition within {A} (bound : Z) (look : act W (option A)) (late : error) : act W A :=
  now ⇐ perform Now; poll_until polls (now + bound)%Z look late.

Definition deleteDatabaseRecord (tenantName app : string) : act W unit :=
  let name := CNPGDatabaseCR tenantName app in
  act_wrap "delete the database record %s: %w" [name] (unless NotFound (perform (DeleteDatabaseObject name)));;
  within purgeRecordWait
    (there ⇐ act_wrap "look for the database record %s: %w" [name] (perform (DatabaseObjectThere name)); ret (if there : bool then None else Some tt))
    (Errorf "the database record %s is still there %s after it was deleted" [name]).

(** The record is read and written again, up to five times, while others write it too. *)
Fixpoint forget_attempts (more : nat) (tenantName app : string) (kind : Kind) : act W unit :=
  record ⇐ act_wrap "read the record of what was provisioned (%s/%s): %w" [tenantName] (perform (ReadRecord tenantName));
  match record with
  | None => ret tt
  | Some d =>
      r ⇐ of_result (ForgetProvisioned d app kind);
      if negb r.2 then ret tt
      else u ⇐ tried (perform (UpdateRecord tenantName r.1));
        match u with
        | Ok _ => ret tt
        | Err e =>
            match errors_Is e Conflict, more with
            | true, S more => forget_attempts more tenantName app kind
            | _, _ => fail (Wrapf "update the record of what was provisioned (%s/%s): %w" [tenantName] e)
            end
        end
  end.
Definition forgetProvisioned : string → string → Kind → act W unit := forget_attempts 4.

Definition runKernelJob (job : Job) : act W unit :=
  let name := [jb_namespace job; jb_name job] in
  act_wrap "remove the previous Job %s/%s: %w" name (unless NotFound (perform (DeleteJob (jb_namespace job) (jb_name job))));;
  within purgeJobWait
    (j ⇐ act_wrap "look for the previous Job %s/%s: %w" name (perform (GetJob (jb_namespace job) (jb_name job)));
     ret (match j with None => Some tt | Some _ => None end))
    (Errorf "the previous Job %s/%s was still there after %s" name);;
  act_wrap "create Job %s/%s: %w" name (perform (CreateJob job));;
  within purgeJobWait
    (j ⇐ act_wrap "get Job %s/%s: %w" name (perform (GetJob (jb_namespace job) (jb_name job)));
     match j with
     | None => fail (Wrapf "get Job %s/%s: %w" name (Sentinel NotFound))
     | Some JobComplete => ret (Some tt)
     | Some JobFailed => fail (Errorf "the Job %s/%s failed (%s %s)%s" name)
     | Some JobRunning => ret None
     end)
    (Errorf "the Job %s/%s had not finished after %s%s" name).

Definition purgeCredentials (t : tenant) (app : string) (extensions : list string) : act W unit :=
  if negb vault then fail (Errorf "the operator has no connection to the vault (BAO_ADDR is not set); no credential was deleted" [])
  else act_each (λ path, act_wrap "delete the vault path %s: %w" [path] (perform (DeleteTree path))) (credentialPaths t app extensions).

Definition purgeAccessGroup (t : tenant) (app : string) (extensions : list string) : act W unit :=
  perform IdentityProvider;;
  act_each (λ key, let name := TenantAppGroup (tn_name t) key in
    act_wrap "delete the group %s in realm %s: %w" [name] (perform (DeleteGroup (RealmName t) name));; ret tt) (OwnedKeys t app extensions).

Definition purgeModelKey (tenantName app alias : string) : act W unit :=
  present ⇐ perform ModelGatewayPresent;
  (if present : bool then act_wrap "delete the model key %s: %w" [alias] (perform (DeleteKey alias));; ret tt else ret tt);;
  forgetProvisioned tenantName app KindModelAccess.

(** The clients and the scopes an app and its extensions sign in with. *)
Definition sign_in_add (tenantName profile : string) (i : option IdentityRequirement) (name : string) (out : list string * list string) : act W (list string * list string) :=
  match i with
  | None => ret out
  | Some i =>
      let clients := out.1 ++ (if bool_decide (id_saml i = "") then [] else [id_saml i]) in
      match id_oidc i with
      | None => ret (clients, out.2)
      | Some spec =>
          let clientID := or_else (oi_clientID spec) (tenantName +:+ "-" +:+ name) in
          let packKey := or_else (oi_packRef spec) clientID in
          pack ⇐ act_wrap "read the sign-in pack %s: %w" [packKey] (perform (ResolvePack profile packKey));
          ret (clients ++ [clientID],
               out.2 ++ match pack with
                        | Some pk => if negb (pk_serviceClient pk) && negb (bool_decide (pk_scopeName pk = "")) then [pk_scopeName pk] else []
                        | None => [] end)
      end
  end.
Fixpoint sign_in_extensions (tenantName app profile : string) (exts : list (string * option IdentityRequirement)) (out : list string * list string) : act W (list string * list string) :=
  match exts with
  | [] => ret out
  | (ext, i) :: exts => out ⇐ sign_in_add tenantName profile i (app +:+ "-" +:+ ext) out; sign_in_extensions tenantName app profile exts out
  end.
Definition signInOf (tenantName app : string) (p : option PurgeProfile) : act W (list string * list string) :=
  match p with
  | None => ret ([], [])
  | Some p => out ⇐ sign_in_add tenantName (pp_name p) (pp_identity p) app ([], []); sign_in_extensions tenantName app (pp_name p) (pp_extensions p) out
  end.
Fixpoint names_in_use (tenantName : string) (apps : list entry) : act W (list string) :=
  match apps with
  | [] => ret []
  | a :: apps =>
      other ⇐ perform (ProfileOf (ta_profile (en_app a)));
      used ⇐ signInOf tenantName (ta_profile (en_app a)) other;
      rest ⇐ names_in_use tenantName apps;
      ret (used.1 ++ used.2 ++ rest)
  end.
Definition purgeSignIn (t : tenant) (app : string) (p : PurgeProfile) : act W unit :=
  mine ⇐ signInOf (tn_name t) app (Some p);
  if bool_decide (mine = ([], [])) then ret tt
  else
    inUse ⇐ names_in_use (tn_name t) (tn_apps t);
    perform IdentityProvider;;
    act_each (λ name, if bool_decide (name ∈ inUse) then ret tt
      else act_wrap "delete the client %s in realm %s: %w" [name] (perform (DeleteClient (RealmName t) name));; ret tt) mine.1;;
    act_each (λ name, if bool_decide (name ∈ inUse) || IsBuiltInClientScope name then ret tt
      else act_wrap "delete the client scope %s in realm %s: %w" [name] (perform (DeleteClientScope (RealmName t) name));; ret tt) mine.2.

Definition sweep (resource ns selector : string) : act W unit :=
  names ⇐ act_wrap "list the app's %s in %s: %w" [resource; ns] (perform (ListLabelled resource ns selector));
  act_each (λ name, act_wrap "delete %s %s: %w" [resource; name] (unless NotFound (perform (DeleteLabelled resource ns name)))) names.
Definition purgeClusterArtifacts (t : tenant) (app : string) : act W unit :=
  let selector := "gentianos.io/tenant=" +:+ tn_name t +:+ ",gentianos.io/app=" +:+ app +:+ ",app.kubernetes.io/managed-by=gentian-os" in
  let everywhere := platformNamespaces ++ [NamespaceName t] in
  act_each (λ ns, sweep "Jobs" ns selector) everywhere;;
  sweep "pods" (NamespaceName t) selector;;
  act_each (λ ns, sweep "Secrets" ns selector) everywhere.

Definition podReferencesAny (pod : Pod) (claims : list string) : bool := existsb (λ c, bool_decide (c ∈ claims)) (pod_claims pod).
Definition releasePVCHolders (ns : string) (claims : list string) : act W unit :=
  pods ⇐ act_wrap "list the pods holding volume claims in %s: %w" [ns] (perform (ListPods ns));
  act_each (λ pod, if podReferencesAny pod claims
    then act_wrap "delete pod %s/%s, which holds a volume claim being purged: %w" [ns; pod_name pod] (unless NotFound (perform (DeletePod ns (pod_name pod))))
    else ret tt) pods.
Fixpoint remaining_of (ns : string) (claims : list string) : act W (list string) :=
  match claims with
  | [] => ret []
  | name :: claims =>
      there ⇐ act_wrap "look for volume claim %s/%s: %w" [ns; name] (perform (ClaimThere ns name));
      rest ⇐ remaining_of ns claims; ret (if there : bool then name :: rest else rest)
  end.
(** The holders are released again between looking at the clock and the pause. *)
Fixpoint pvcs_gone (fuel : nat) (deadline : Z) (ns : string) (claims : list string) : act W unit :=
  let late := Errorf "volume claims still present %s after they were deleted: %s" claims in
  match fuel with
  | O => fail late
  | S fuel =>
      remaining ⇐ remaining_of ns claims;
      if bool_decide (remaining = []) then ret tt
      else now ⇐ perform Now;
        if bool_decide (deadline < now)%Z then fail late
        else (releasePVCHolders ns remaining;;
              act_wrap "waiting for volume claims %s to be gone: %w" remaining (perform Wait);; pvcs_gone fuel deadline ns claims)
  end.
Definition waitForPVCsGone (ns : string) (claims : list string) : act W unit :=
  now ⇐ perform Now; pvcs_gone polls (now + pvcDeletionTimeout)%Z ns claims.
Definition purgePVCs (t : tenant) (app : string) (p : PurgeProfile) : act W unit :=
  let ns := NamespaceName t in
  pvcs ⇐ act_wrap "list the volume claims in %s: %w" [ns] (perform (ListClaims ns));
  let doomed := AppVolumes pvcs t app (Some (pp_stores p)) in
  if bool_decide (doomed = []) then ret tt
  else
    releasePVCHolders ns doomed;;
    act_each (λ name, act_wrap "delete volume claim %s/%s: %w" [ns; name] (unless NotFound (perform (DeleteClaim ns name)))) doomed;;
    waitForPVCsGone ns doomed.

Definition purge_store (t : tenant) (app : string) (owned : Stores) (kind : Kind) (job : Job) : act W unit :=
  runKernelJob job;;
  (if bool_decide (kind = KindDatabase) && bool_decide (so_database owned = PostgreSQL) then deleteDatabaseRecord (tn_name t) app else ret tt);;
  forgetProvisioned (tn_name t) app kind.

(** How a kind is destroyed, when the app has it. *)
Definition how (t : tenant) (p : PurgeProfile) (app : string) (recorded : Provisioned) (authorized : bool) (kind : Kind) : option (act W unit) :=
  let extensions := SidecarNames (Some (pp_stores p)) in
  let owned := MergeStores (iv_stores (InventoryOf t app (Some (pp_stores p)))) recorded in
  match StoreDestroyJobs t app owned kind with
  | Some job => Some (purge_store t app owned kind job)
  | None =>
      match kind with
      | KindFiles => Some (purgePVCs t app p)
      | KindCredentials => Some (purgeCredentials t app extensions)
      | KindAccessGroup => Some (purgeAccessGroup t app extensions)
      | KindRecords => Some (purgeClusterArtifacts t app)
      | KindModelAccess => if bool_decide (pv_modelKey recorded = "") then None else Some (purgeModelKey (tn_name t) app (pv_modelKey recorded))
      | KindAuthorization =>
          if authorized then Some (if arbiter then perform (PurgeAuthorization (tn_name t) app)
            else fail (Errorf "the app's authorization store is held and this operator has no arbiter to delete it with" []))
          else None
      | KindSignInScope => if signsIn p then Some (purgeSignIn t app p) else None
      | _ => None
      end
  end.
Definition purgeSteps (t : tenant) (p : PurgeProfile) (app : string) (recorded : Provisioned) (authorized : bool) : list (Kind * act W unit) :=
  omap (λ kind, pair kind <$> how t p app recorded authorized kind) AppPurgeOrder.

(** A purge that stopped: the kind that failed, what went before it, and what was not attempted. *)
Record PurgeError := mkPurgeError { pe_step : Kind; pe_destroyed : list Kind; pe_pending : list Kind; pe_err : error }.
Inductive purged := Purged (destroyed : list Kind) | Stopped (e : PurgeError) | NotBegun (e : error).
Fixpoint run_steps (steps : list (Kind * act W unit)) (destroyed : list Kind) (w : W) : W * purged :=
  match steps with
  | [] => (w, Purged destroyed)
  | (kind, run) :: later =>
      match run w with
      | (w', Ok _) => run_steps later (destroyed ++ [kind]) w'
      | (w', Err e) => (w', Stopped (mkPurgeError kind destroyed later.*1 e))
      end
  end.
Definition purge (t : tenant) (p : PurgeProfile) (app : string) (recorded : Provisioned) (w : W) : W * purged :=
  match perform (AuthorizationRecorded (tn_name t) app) w with
  | (w', Err e) => (w', NotBegun e)
  | (w', Ok authorized) => run_steps (purgeSteps t p app recorded authorized) [] w'
  end.
End Purge.

(** ** What a purge is about *)

(** The store an entry names. *)
Definition entry_store (p : Provisioned) (k : Kind) : option store :=
  match k with
  | KindDatabase => match pv_engine p with PostgreSQL | MariaDB => Some (ADatabase (pv_engine p) (pv_database p) (pv_databaseUser p)) | _ => None end
  | KindObjectStorage => if bool_decide (pv_bucket p = "") then None else Some (ABucket (pv_bucket p))
  | KindCache => if bool_decide (pv_cacheUser p = "") then None else Some (ACacheUser (pv_cacheUser p))
  | KindModelAccess => if bool_decide (pv_modelKey p = "") then None else Some (AModelKey (pv_modelKey p))
  | _ => None
  end.
(** The store a purge destroys for a kind. *)
Definition target (t : tenant) (app : string) (p : PurgeProfile) (recorded : Provisioned) (k : Kind) : option store :=
  match StoreDestroyJobs t app (MergeStores (iv_stores (InventoryOf t app (Some (pp_stores p)))) recorded) k with
  | Some job => Some (jb_destroys job)
  | None => if bool_decide (k = KindModelAccess) then entry_store recorded k else None
  end.

(** What is the app's own. *)
Definition own_things (t : tenant) (app : string) (p : PurgeProfile) (recorded : Provisioned) (x : thing) : Prop :=
  ∃ k st, (target t app p recorded k = Some st ∨ entry_store recorded k = Some st) ∧ x ∈ things st.

Section Accounting.
Context {W : Type} `{Cluster W} `{!EntryJSON} `{!EntryJSONLaws} (t : tenant) (app : string) (own : thing → Prop) `{!ClusterLaws W (tn_name t) app own}.
Context (vault arbiter : bool) (platformNamespaces : list string).

(** Still true later, when the entry is as it was. *)
Definition stable (Q : W → Prop) : Prop := ∀ w w', later w w' → entry_raw w' = entry_raw w → Q w → Q w'.
Definition entry_has (w : W) (k : Kind) : bool := match entry_raw w with Some raw => match unmarshal raw with Ok p => Has p k | Err _ => false end | None => false end.

Lemma call_kept {A} Q (c : call A) : stable Q → writes_record c (tn_name t) = false → kept Q (perform c).
Proof.
  intros HQ Hc w Hw. pose proof (later_call A c w). pose proof (entry_kept A c w Hc). destruct (perform c w) as [w' r]. cbn in *.
  assert (Q w') by (by eapply HQ). by destruct r.
Qed.
Lemma stable_harmless Q : stable Q → ∀ A (c : call A), harmless c = true → kept Q (perform c).
Proof. intros HQ A c Hc. apply call_kept; [done|by destruct c]. Qed.
Lemma each_kept {A} Q (f : A → act W unit) l : (∀ a, kept Q (f a)) → kept Q (act_each f l).
Proof. apply triple_each. Qed.
End Accounting.

(** Takes a computation apart into harmless calls. *)
Ltac calm := repeat match goal with
  | |- kept _ (ret _) => apply kept_ret
  | |- kept _ (fail _) => apply kept_fail
  | |- kept _ (of_result _) => apply kept_of_result
  | |- kept _ (act_wrap _ _ _) => apply kept_wrap
  | |- kept _ (unless _ _) => apply kept_unless
  | |- kept _ (tried _) => apply kept_tried
  | |- kept _ (act_each _ _) => apply each_kept; intros ?
  | |- kept _ (act_bind _ _) => apply kept_bind; [|intros ?]
  | HQ : ∀ A (c : call A), harmless c = true → kept ?Q (perform c) |- kept ?Q (perform _) => apply HQ; reflexivity
  | |- kept _ (match ?x with _ => _ end) => destruct x
  | |- kept _ (let _ := _ in _) => progress cbv zeta
  end.

Section Steps.
Context {W : Type} `{Cluster W} (t : tenant) (vault arbiter : bool) (platformNamespaces : list string).
Context (Q : W → Prop) (HQ : ∀ A (c : call A), harmless c = true → kept Q (perform c)).

Lemma poll_kept {A} fuel deadline (look : act W (option A)) late : kept Q look → kept Q (poll_until fuel deadline look late).
Proof. intros Hl. induction fuel as [|fuel IH]; cbn [poll_until]; calm; done. Qed.
Lemma within_kept {A} bound (look : act W (option A)) late : kept Q look → kept Q (within bound look late).
Proof. intros Hl. unfold within. calm. by apply poll_kept. Qed.
Lemma deleteDatabaseRecord_kept n a : kept Q (deleteDatabaseRecord n a).
Proof. unfold deleteDatabaseRecord. calm. apply within_kept. calm. Qed.
Lemma purgeCredentials_kept a exts : kept Q (purgeCredentials vault t a exts).
Proof. unfold purgeCredentials. calm. Qed.
Lemma purgeAccessGroup_kept a exts : kept Q (purgeAccessGroup t a exts).
Proof. unfold purgeAccessGroup. calm. Qed.
Lemma sign_in_add_kept n pr i name out : kept Q (sign_in_add n pr i name out).
Proof. unfold sign_in_add. calm. Qed.
Lemma signInOf_kept n a p : kept Q (signInOf n a p).
Proof.
  assert (∀ pr exts out, kept Q (sign_in_extensions n a pr exts out)) as He.
  { intros pr exts. induction exts as [|[e i] exts IH]; intros out; cbn [sign_in_extensions]; calm; [apply sign_in_add_kept|apply IH]. }
  unfold signInOf. calm; [apply sign_in_add_kept|apply He].
Qed.
Lemma names_in_use_kept n apps : kept Q (names_in_use n apps).
Proof. induction apps as [|a apps IH]; cbn [names_in_use]; calm; [apply signInOf_kept|done]. Qed.
Lemma purgeSignIn_kept a p : kept Q (purgeSignIn t a p).
Proof. unfold purgeSignIn. calm; [apply signInOf_kept|apply names_in_use_kept]. Qed.
Lemma sweep_kept resource ns selector : kept Q (sweep resource ns selector).
Proof. unfold sweep. calm. Qed.
Lemma purgeClusterArtifacts_kept a : kept Q (purgeClusterArtifacts platformNamespaces t a).
Proof. unfold purgeClusterArtifacts. calm; apply sweep_kept. Qed.
Lemma releasePVCHolders_kept ns claims : kept Q (releasePVCHolders ns claims).
Proof. unfold releasePVCHolders. calm. Qed.
Lemma remaining_kept ns claims : kept Q (remaining_of ns claims).
Proof. induction claims as [|c claims IH]; cbn [remaining_of]; calm; done. Qed.
Lemma waitForPVCsGone_kept ns claims : kept Q (waitForPVCsGone ns claims).
Proof.
  assert (∀ fuel deadline, kept Q (pvcs_gone fuel deadline ns claims)) as Hg.
  { intros fuel deadline. induction fuel as [|fuel IH]; cbn [pvcs_gone]; calm; [apply remaining_kept|apply releasePVCHolders_kept|done]. }
  unfold waitForPVCsGone. calm. apply Hg.
Qed.
Lemma purgePVCs_kept a p : kept Q (purgePVCs t a p).
Proof. unfold purgePVCs. calm; [apply releasePVCHolders_kept|apply waitForPVCsGone_kept]. Qed.
End Steps.

Section Stores_.
Context {W : Type} `{Cluster W} `{!EntryJSON} `{!EntryJSONLaws} (t : tenant) (app : string) (own : thing → Prop) `{!ClusterLaws W (tn_name t) app own}.

(** It is a bucket that was under Object Lock at some time from [w0] on. *)
Definition kept_locked (w0 : W) (x : thing) : Prop := ∃ bucket w1, x = TBucket bucket ∧ later w0 w1 ∧ locked w1 bucket.

Lemma poll_triple {A} (Q E : W → Prop) (R : A → W → Prop) fuel deadline look late :
  kept Q (perform Now) → kept Q (perform Wait) → (∀ w, Q w → E w) →
  triple Q look (λ o w, match o with Some a => R a w | None => Q w end) E → triple Q (poll_until fuel deadline look late) R E.
Proof.
  intros Hn Hw HE Hl. induction fuel as [|fuel IH]; cbn [poll_until]; [by apply triple_fail|]. eapply triple_bind; [exact Hl|].
  intros [a|]; [by apply triple_ret|]. eapply (triple_bind _ _ (λ _, Q)); [by eapply triple_weaken|]. intros now. case_bool_decide; [by apply triple_fail|].
  eapply (triple_bind _ _ (λ _, Q)); [by eapply triple_weaken|]. intros _. exact IH.
Qed.
Lemma within_triple {A} (Q E : W → Prop) (R : A → W → Prop) bound look late :
  kept Q (perform Now) → kept Q (perform Wait) → (∀ w, Q w → E w) →
  triple Q look (λ o w, match o with Some a => R a w | None => Q w end) E → triple Q (within bound look late) R E.
Proof.
  intros Hn Hw HE Hl. eapply (triple_bind _ _ (λ _, Q)); [by eapply triple_weaken|]. intros now. by apply poll_triple.
Qed.

(** A deletion Job that ran to its end has destroyed its store, but for a locked bucket. *)
Lemma runKernelJob_triple (Q : W → Prop) w0 job : stable t app own Q → (∀ w, Q w → later w0 w) → (∀ x, x ∈ things (jb_destroys job) → own x) →
  triple Q (runKernelJob job) (λ _ w, Q w ∧ ∀ x, x ∈ things (jb_destroys job) → there w x → kept_locked w0 x) Q.
Proof.
  intros HQ Hfrom Hown. unfold runKernelJob. cbv zeta.
  eapply (triple_bind _ _ (λ _, Q)); [apply (kept_wrap Q), kept_unless; by apply (call_kept t app own)|]. intros _.
  eapply (triple_bind _ _ (λ _, Q)); [apply within_kept; [by apply (stable_harmless t app own)|]; pose proof (stable_harmless t app own Q HQ); calm|]. intros _.
  set (J := λ w, Q w ∧ ∃ wc, later w0 wc ∧ created wc w job).
  assert (∀ A (c : call A), leaves_jobs c = true → kept J (perform c)) as HJ.
  { intros A c Hc w [Hw (wc & Hwc & Hj)]. assert (writes_record c (tn_name t) = false) as Hr by (by destruct c).
    pose proof (call_kept t app own Q c HQ Hr w Hw) as Hk. pose proof (created_stays A c wc w job Hc Hj) as Hs.
    destruct (perform c w) as [w' [a|e]]; (split; [done|by exists wc]). }
  eapply (triple_bind _ _ (λ _, J)).
  - apply triple_wrap. intros w Hw. pose proof (call_kept t app own Q (CreateJob job) HQ eq_refl w Hw) as Hk.
    destruct (perform (CreateJob job) w) as [w' [[]|e]] eqn:E; [|done]. split; [done|]. exists w. split; [by apply Hfrom|by eapply create_answer].
  - intros _. apply within_triple; [by apply HJ|by apply HJ|by intros w []|].
    eapply (triple_bind _ _ (λ j w, J w ∧ (j = Some JobComplete → ∀ x, x ∈ things (jb_destroys job) → there w x → kept_locked w0 x))).
    + apply triple_wrap. intros w Hw. pose proof (HJ _ (GetJob (jb_namespace job) (jb_name job)) eq_refl w Hw) as Hk.
      destruct (perform _ w) as [w' [j|e]] eqn:E; [|by destruct Hk]. split; [done|]. intros -> x Hx Ht. destruct Hw as [_ (wc & Hwc & Hj)].
      destruct (complete_answer wc w w' job E Hj) as (fuel & w1 & w2 & L1 & Hrun & L2).
      destruct (script_destroys fuel (jb_destroys job) w1 w2 x Hown Hrun Hx) as (b & v & _ & -> & Lv & Hlock); [eapply only_go; eauto|].
      exists b, v. split; [done|]. split; [|done]. by repeat (etrans; [eassumption|]).
    + intros [[]|]; [apply triple_ret|apply triple_ret|apply triple_fail|apply triple_fail]; unfold J; naive_solver.
Qed.

Definition spec_forget (Q : W → Prop) (kind : Kind) : Prop :=
  ∀ w w', Q w → later w w' → (∀ k, entry_has t app own w' k = entry_has t app own w k && negb (bool_decide (k = kind))) → Q w'.

Lemma entry_has_of w d : d !! app = entry_raw w → ∀ k, entry_has t app own w k = holds d app k.
Proof.
  intros E k. unfold entry_has, holds, entryOf. rewrite <- E. destruct (d !! app) as [raw|]; [by destruct (unmarshal raw)|by rewrite Has_nothing].
Qed.

(** Forgetting a kind takes it off the entry, and leaves the entry or takes it off when it fails. *)
Lemma forget_triple (Q : W → Prop) kind : stable t app own Q → spec_forget Q kind →
  triple Q (forgetProvisioned (tn_name t) app kind) (λ _ w, Q w ∧ entry_has t app own w kind = false) Q.
Proof.
  intros HQ Hf. unfold forgetProvisioned. generalize 4 as more. intros more. induction more as [|more IH]; cbn [forget_attempts].
  all: eapply (triple_bind _ _ (λ r w, Q w ∧ r ≫= lookup app = entry_raw w)); [apply triple_wrap; intros w Hw;
    pose proof (call_kept t app own Q (ReadRecord (tn_name t)) HQ eq_refl w Hw) as Hk; destruct (perform _ w) as [w' [r|e]] eqn:E; [|done]; split; [done|by eapply read_answer]|].
  all: intros [d|]; [|apply triple_ret; intros w [Hw He]; split; [done|]; unfold entry_has; by rewrite <- He].
  all: cbn [mbind option_bind].
  all: eapply (triple_bind _ _ (λ r w, (Q w ∧ d !! app = entry_raw w) ∧ ForgetProvisioned d app kind = Ok r)); [apply triple_of_result; intros w Hw; destruct (ForgetProvisioned _ _ _); [done|by destruct Hw]|].
  all: intros [d' ch]; cbn [fst snd]; destruct ch; cbn [negb]; [|apply triple_ret; intros w [[Hw He] Ef]; split; [done|];
    apply forget_own in Ef as [Hh Hd]; rewrite (entry_has_of w d He), <- (Hd eq_refl), Hh, bool_decide_true by done; apply andb_false_r].
  all: eapply (triple_bind _ _ (λ u w, Q w ∧ (is_ok u = true → entry_has t app own w kind = false))).
  1, 3: intros w [[Hw He] Ef]; pose proof (later_call _ (UpdateRecord (tn_name t) d') w) as Hs; unfold tried;
    destruct (perform (UpdateRecord (tn_name t) d') w) as [w' r] eqn:E; cbn in Hs; apply update_answer in E; apply forget_own in Ef as [Hh _].
  1, 2: assert (entry_raw w' = d' !! app → Q w' ∧ entry_has t app own w' kind = false) as Hnew by
      (intros E'; assert (∀ k, entry_has t app own w' k = entry_has t app own w k && negb (bool_decide (k = kind))) as Hk by
        (intros k; rewrite (entry_has_of w' d'), (entry_has_of w d), Hh by done; done);
       split; [by eapply Hf|rewrite Hk, bool_decide_true by done; apply andb_false_r]).
  1, 2: destruct r as [[]|e]; [destruct (Hnew E); by split|destruct E as [E|E]; [split; [by eapply HQ|done]|split; [by apply Hnew|done]]].
  all: intros [[]|e]; [apply triple_ret; intros w [Hw Hk]; split; [done|by apply Hk]|].
  - destruct (errors_Is e Conflict); by apply triple_fail; intros w [].
  - destruct (errors_Is e Conflict); [|by apply triple_fail; intros w []]. eapply triple_weaken; [exact IH|by intros w []|done|done].
Qed.
End Stores_.

(** ** What a purge leaves *)

Section Outcome.
Context {W : Type} `{Cluster W} `{!EntryJSON} `{!EntryJSONLaws} (t : tenant) (app : string) (own : thing → Prop) `{!ClusterLaws W (tn_name t) app own}.
Context (vault arbiter : bool) (platformNamespaces : list string) (p : PurgeProfile) (recorded named : Provisioned).
(** The world the purge begins in. *)
Context (w0 : W).
Hypothesis target_own : ∀ k st x, target t app p recorded k = Some st → x ∈ things st → own x.
Hypothesis named_own : ∀ k st x, entry_store named k = Some st → x ∈ things st → own x.

(** Whatever there is of the stores that [named] names is still on the entry, but for a bucket
    that was under Object Lock. *)
Definition tracked (w : W) : Prop :=
  ∀ k st x, entry_store named k = Some st → x ∈ things st → there w x → entry_has t app own w k = true ∨ kept_locked t app own w0 x.
(** The store of a kind is gone, but for such a bucket, and off the entry. *)
Definition gone (k : Kind) (w : W) : Prop := ∀ st x, target t app p recorded k = Some st → x ∈ things st → there w x → kept_locked t app own w0 x.
Definition done_with (k : Kind) (w : W) : Prop := gone k w ∧ (is_Some (target t app p recorded k) → entry_has t app own w k = false).
(** The stores named are those the names of the tenant give now. *)
Definition names_current : Prop := ∀ k st, entry_store named k = Some st → target t app p recorded k = Some st.
Definition going (ks : list Kind) (w : W) : Prop := later w0 w ∧ tracked w ∧ ∀ k, k ∈ ks → done_with k w.

Lemma entry_has_eq w w' k : entry_raw w' = entry_raw w → entry_has t app own w' k = entry_has t app own w k.
Proof. intros E. unfold entry_has. by rewrite E. Qed.
Lemma gone_stays k w w' : later w w' → gone k w → gone k w'.
Proof. intros Hl Hg st x Hst Hx Ht. eapply Hg; [done..|]. eapply only_go; eauto. Qed.
Lemma going_stable ks : stable t app own (going ks).
Proof.
  intros w w' Hs He (Hl & Ht & Hd). split_and!; [by etrans| |].
  - intros k st x Hk Hx Hp. rewrite (entry_has_eq w w' k He). eapply Ht; [done..|]. eapply only_go; eauto.
  - intros k Hk. destruct (Hd k Hk) as [Hg Hn]. split; [by eapply gone_stays|]. rewrite (entry_has_eq w w' k He). done.
Qed.
Lemma going_gone_stable ks k : stable t app own (λ w, going ks w ∧ gone k w).
Proof. intros w w' Hs He [Hg Hk]. split; [by eapply going_stable|by eapply gone_stays]. Qed.
Lemma going_forget ks k : names_current → spec_forget t app own (λ w, going ks w ∧ gone k w) k.
Proof.
  intros Hn w w' [(Hl & Ht & Hd) Hg] Hs He. split; [split_and!|by eapply gone_stays].
  - by etrans.
  - intros k' st x Hk' Hx Hp. assert (there w x) as Hp' by (eapply only_go; eauto). rewrite He.
    case_bool_decide as E; [subst k'; right; eapply Hg; eauto|]. rewrite andb_true_r. eapply Ht; eauto.
  - intros k' Hk'. destruct (Hd k' Hk') as [Hp Hh]. split; [by eapply gone_stays|]. intros Hsome. by rewrite He, (Hh Hsome).
Qed.

Lemma forget_step ks k : names_current →
  triple (λ w, going ks w ∧ gone k w) (forgetProvisioned (tn_name t) app k) (λ _, going (ks ++ [k])) (going ks).
Proof.
  intros Hn. eapply triple_weaken; [apply (forget_triple t app own _ k (going_gone_stable ks k) (going_forget ks k Hn))|done| |by intros w []].
  intros _ w [[(Hl & Ht & Hd) Hg] Hh]. split_and!; [done..|]. intros k' [Hk'| ->%list_elem_of_singleton]%elem_of_app; [by apply Hd|]. by split.
Qed.
Lemma model_target : pv_modelKey recorded ≠ "" → target t app p recorded KindModelAccess = Some (AModelKey (pv_modelKey recorded)).
Proof. intros Hm. unfold target, entry_store. cbn [StoreDestroyJobs]. by rewrite bool_decide_true, bool_decide_false by done. Qed.
Lemma untargeted ks k m : target t app p recorded k = None → kept (going ks) m → triple (going ks) m (λ _ : unit, going (ks ++ [k])) (going ks).
Proof.
  intros Hk Hm. eapply triple_weaken; [exact Hm|done| |done]. intros _ w (Hl & Ht & Hd). split_and!; [done..|].
  intros k' [Hk'| ->%list_elem_of_singleton]%elem_of_app; [by apply Hd|]. split; [intros st x; by rewrite Hk|rewrite Hk; by intros [? ?]].
Qed.

Lemma purge_store_step ks k job : names_current → target t app p recorded k = Some (jb_destroys job) →
  triple (going ks) (purge_store t app (MergeStores (iv_stores (InventoryOf t app (Some (pp_stores p)))) recorded) k job) (λ _, going (ks ++ [k])) (going ks).
Proof.
  intros Hn Ht. unfold purge_store. eapply (triple_bind _ _ (λ _ w, going ks w ∧ gone k w)).
  - eapply triple_weaken; [apply (runKernelJob_triple t app own _ w0 job (going_stable ks))|done| |done]; [by intros w [? _]|by intros x; apply (target_own k)|].
    intros _ w [Hg Hp]. split; [done|]. intros st x Hst. rewrite Ht in Hst. injection Hst as <-. apply Hp.
  - intros _. eapply (triple_bind _ _ (λ _ w, going ks w ∧ gone k w)); [|intros _; by apply forget_step].
    pose proof (stable_harmless t app own _ (going_gone_stable ks k)) as HQ. set (P := λ w, going ks w ∧ gone k w) in *.
    apply (triple_weaken _ P _ P _ (λ _, P)); [|done|done|by intros w []].
    destruct (_ && _); [apply (deleteDatabaseRecord_kept _ HQ)|apply kept_ret].
Qed.
Lemma model_step ks : names_current → pv_modelKey recorded ≠ "" →
  triple (going ks) (purgeModelKey (tn_name t) app (pv_modelKey recorded)) (λ _, going (ks ++ [KindModelAccess])) (going ks).
Proof.
  intros Hn Hm. pose proof (model_target Hm) as Ht. unfold purgeModelKey.
  assert (∀ w, ¬ there w (TModelKey (pv_modelKey recorded)) → gone KindModelAccess w) as Hg.
  { intros w Hp st x Hst. rewrite Ht in Hst. injection Hst as <-. cbn [things]. intros ->%list_elem_of_singleton Hx. by destruct Hp. }
  eapply (triple_bind _ _ (λ b w, going ks w ∧ (b = false → gone KindModelAccess w))).
  - intros w Hw. pose proof (call_kept t app own _ ModelGatewayPresent (going_stable ks) eq_refl w Hw) as Hk.
    destruct (perform _ w) as [w' [b|e]] eqn:E; [|done]. split; [done|]. intros ->. eapply Hg, gateway_answer, E.
  - intros b. eapply (triple_bind _ _ (λ _ w, going ks w ∧ gone KindModelAccess w)); [|intros _; by apply forget_step].
    destruct b; [|apply triple_ret; naive_solver]. eapply (triple_bind _ _ (λ _ w, going ks w ∧ gone KindModelAccess w)); [|intros _; by apply triple_ret].
    apply triple_wrap. intros w [Hw _]. pose proof (call_kept t app own _ (DeleteKey (pv_modelKey recorded)) (going_stable ks) eq_refl w Hw) as Hk.
    destruct (perform _ w) as [w' [b|e]] eqn:E; [|done]. split; [done|]. eapply Hg, key_answer, E.
Qed.

Lemma how_step ks k authorized m : names_current → how vault arbiter platformNamespaces t p app recorded authorized k = Some m →
  triple (going ks) m (λ _, going (ks ++ [k])) (going ks).
Proof.
  intros Hn. unfold how. pose proof (stable_harmless t app own _ (going_stable ks)) as HQ. destruct (StoreDestroyJobs _ _ _ k) as [job|] eqn:Ej.
  { intros [= <-]. apply purge_store_step; [done|]. unfold target. by rewrite Ej. }
  assert (k ≠ KindModelAccess → target t app p recorded k = None) as Ht by (intros Hk; unfold target; by rewrite Ej, bool_decide_false).
  destruct k; intros Hh; try discriminate Hh.
  - injection Hh as <-. apply untargeted; [by apply Ht|]. by apply purgeClusterArtifacts_kept.
  - injection Hh as <-. apply untargeted; [by apply Ht|]. by apply purgeCredentials_kept.
  - injection Hh as <-. apply untargeted; [by apply Ht|]. by apply purgeAccessGroup_kept.
  - destruct (signsIn p); [|done]. injection Hh as <-. apply untargeted; [by apply Ht|]. by apply purgeSignIn_kept.
  - case_bool_decide; [done|]. injection Hh as <-. by apply model_step.
  - destruct authorized; [|done]. injection Hh as <-. apply untargeted; [by apply Ht|]. destruct arbiter; [by apply HQ|apply kept_fail].
  - injection Hh as <-. apply untargeted; [by apply Ht|]. by apply purgePVCs_kept.
Qed.

Lemma run_steps_going authorized : names_current → ∀ ks gone_ w,
  let steps := omap (λ kind, pair kind <$> how vault arbiter platformNamespaces t p app recorded authorized kind) ks in
  going gone_ w →
  let '(w', out) := run_steps steps gone_ w in
  tracked w' ∧ match out with
  | Purged ds => ds = gone_ ++ steps.*1 ∧ ∀ k, k ∈ ds → done_with k w'
  | Stopped e => gone_ ++ steps.*1 = pe_destroyed e ++ pe_step e :: pe_pending e ∧ ∀ k, k ∈ pe_destroyed e → done_with k w'
  | NotBegun _ => False
  end.
Proof.
  intros Hn. induction ks as [|k ks IH]; intros gone_ w; cbn [omap list_omap].
  - intros (_ & Ht & Hd). cbn. by rewrite app_nil_r.
  - destruct (how _ _ _ _ _ _ _ _ k) as [m|] eqn:Eh; cbn [fmap option_fmap option_map]; [|apply IH]. intros Hw. cbn [run_steps].
    pose proof (how_step gone_ k authorized m Hn Eh w Hw) as Hm. destruct (m w) as [w1 [u|e]].
    + specialize (IH (gone_ ++ [k]) w1 Hm). cbv zeta in IH. destruct (run_steps _ _ w1) as [w' out]. cbn [fmap list_fmap fst].
      rewrite <- app_assoc in IH. destruct IH as [Ht IH]. split; [done|]. by destruct out.
    + destruct Hm as (_ & Ht & Hd). split; [done|]. by split.
Qed.
Lemma targets_in_order k : is_Some (target t app p recorded k) → k ∈ AppPurgeOrder ∧ ∀ authorized, is_Some (how vault arbiter platformNamespaces t p app recorded authorized k).
Proof.
  intros [st Hst]. unfold target in Hst. unfold how. destruct (StoreDestroyJobs _ _ _ k) as [job|] eqn:Ej.
  - split; [|eauto]. destruct k; try discriminate Ej; apply (bool_decide_unpack _); vm_compute; exact I.
  - case_bool_decide as Hk; [|done]. subst k. cbn in Hst. case_bool_decide as Hm; [done|]. split; [apply (bool_decide_unpack _); vm_compute; exact I|].
    intros authorized. eauto.
Qed.

(** What is left of a store a purge reports as destroyed. *)
Definition accounted (k : Kind) (st : store) (w : W) : Prop :=
  (∀ x, x ∈ things st → there w x → kept_locked t app own w0 x) ∧ entry_has t app own w k = false.

Lemma done_accounted k st w : done_with k w → target t app p recorded k = Some st → accounted k st w.
Proof. intros [Hg He] Hst. split; [intros x; by apply Hg|by apply He]. Qed.

Lemma purge_outcome : names_current → tracked w0 →
  let '(w', out) := purge vault arbiter platformNamespaces t p app recorded w0 in
  tracked w' ∧ match out with
  | Purged ds => ∀ k st, target t app p recorded k = Some st → k ∈ ds ∧ accounted k st w'
  | Stopped e => (∃ authorized, (purgeSteps vault arbiter platformNamespaces t p app recorded authorized).*1 = pe_destroyed e ++ pe_step e :: pe_pending e)
      ∧ ∀ k st, k ∈ pe_destroyed e → target t app p recorded k = Some st → accounted k st w'
  | NotBegun _ => True
  end.
Proof.
  intros Hn Hw. assert (going [] w0) as Hg by (split_and!; [done|done|intros k Hk; by apply not_elem_of_nil in Hk]). unfold purge.
  pose proof (call_kept t app own _ (AuthorizationRecorded (tn_name t) app) (going_stable []) eq_refl w0 Hg) as Hk.
  destruct (perform _ w0) as [w1 [authorized|e]]; [|by destruct Hk as (_ & ? & _)].
  pose proof (run_steps_going authorized Hn AppPurgeOrder [] w1 Hk) as Hr. unfold purgeSteps in *. cbv zeta in Hr.
  destruct (run_steps _ _ w1) as [w' out]. destruct Hr as [Ht Hr]. split; [done|]. destruct out as [ds|e|e];
    [|destruct Hr as [He Hd]; split; [by exists authorized|intros k st Hk' Hst; by apply done_accounted; [apply Hd|]]|done].
  destruct Hr as [-> Hd]. intros k st Hst. destruct (targets_in_order k) as [Hin Hhow]; [by exists st|]. destruct (Hhow authorized) as [m Hm].
  assert (k ∈ ([] ++ (omap (λ kind, pair kind <$> how vault arbiter platformNamespaces t p app recorded authorized kind) AppPurgeOrder).*1)) as Hk'.
  { rewrite app_nil_l. apply list_elem_of_fmap. exists (k, m). split; [done|]. apply list_elem_of_omap. exists k. by rewrite Hm. }
  split; [done|]. apply done_accounted; [|done]. by apply (Hd k Hk').
Qed.
End Outcome.

Section Theorems.
Context {W : Type} `{Cluster W} `{!EntryJSON} `{!EntryJSONLaws} (t : tenant) (app : string).
Context (vault arbiter : bool) (platformNamespaces : list string) (p : PurgeProfile) (recorded : Provisioned).
Abbreviation own := (own_things t app p recorded).
Context `{!ClusterLaws W (tn_name t) app own}.

Lemma targets_are_own k st x : target t app p recorded k = Some st → x ∈ things st → own x.
Proof. intros Hst Hx. exists k, st. auto. Qed.
Lemma recorded_is_own k st x : entry_store recorded k = Some st → x ∈ things st → own x.
Proof. intros Hst Hx. exists k, st. auto. Qed.

(** C11: A purge accounts for the app's stores, whatever fails on the way and wherever it stops,
    when the entry of the record names the stores the tenant's names give now and nobody
    provisions the app meanwhile: whatever there is afterwards of the stores on the entry,
    database and user, bucket and identity, cache user, model key, is still on the entry, but
    for a bucket that was under Object Lock at some time during the purge.  A purge that is
    reported complete has destroyed every store of the app, but for such a bucket, and taken
    it off the entry; one that stopped names what it destroyed, the step that failed and what
    it did not attempt, which are together its steps in order, and what it names as destroyed
    is gone, but for such a bucket, and off the entry. *)
Theorem purge_accounts_for_stores (w : W) : names_current t app p recorded recorded →
  (∀ k st x, entry_store recorded k = Some st → x ∈ things st → there w x → entry_has t app own w k = true) →
  let '(w', out) := purge vault arbiter platformNamespaces t p app recorded w in
  tracked t app own recorded w w' ∧ match out with
  | Purged ds => ∀ k st, target t app p recorded k = Some st → k ∈ ds ∧ accounted t app own w k st w'
  | Stopped e => (∃ authorized, (purgeSteps vault arbiter platformNamespaces t p app recorded authorized).*1 = pe_destroyed e ++ pe_step e :: pe_pending e)
      ∧ ∀ k st, k ∈ pe_destroyed e → target t app p recorded k = Some st → accounted t app own w k st w'
  | NotBegun _ => True
  end.
Proof.
  intros Hn Ht. apply purge_outcome; [apply targets_are_own|apply recorded_is_own|done|].
  intros k st x Hk Hx Hp. left. by eapply Ht.
Qed.

(** ** What a purge spares *)

Section Unharmed.
Variables (x : thing) (C : W → Prop).
Hypothesis lasting : ∀ v v', later v v' → C v → C v'.
(** No script of the purge's Jobs harms it, and it is not the model key the purge deletes. *)
Hypothesis scripts : ∀ k job, StoreDestroyJobs t app (MergeStores (iv_stores (InventoryOf t app (Some (pp_stores p)))) recorded) k = Some job →
  ∀ fuel, kept (unharmed x C) (destroy_script fuel (jb_destroys job)).
Hypothesis not_key : pv_modelKey recorded ≠ "" → x ≠ TModelKey (pv_modelKey recorded).
Abbreviation safe := (unharmed x C).

Lemma harmless_safe A (c : call A) : harmless c = true → kept safe (perform c).
Proof. intros Hc. apply spared_call; [done|]. by destruct c. Qed.

Lemma runKernelJob_safe job : (∀ fuel, kept safe (destroy_script fuel (jb_destroys job))) → kept safe (runKernelJob job).
Proof.
  intros Hj. pose proof harmless_safe as HQ. unfold runKernelJob. cbv zeta. apply kept_bind; [calm|intros _]. apply kept_bind; [apply within_kept; [done|calm]|intros _].
  apply kept_bind; [apply kept_wrap|intros _; apply within_kept; [done|calm]].
  intros w (Ht & Hm & HC). destruct (job_spares C w job x lasting Hj Ht Hm HC) as [Ht' Hm']. pose proof (later_call _ (CreateJob job) w) as Hl.
  destruct (perform (CreateJob job) w) as [w' [[]|e]]; cbn in *; split_and!; eauto.
Qed.
Lemma forget_safe k : kept safe (forgetProvisioned (tn_name t) app k).
Proof.
  pose proof harmless_safe as HQ. unfold forgetProvisioned. generalize 4 as more. intros more.
  induction more as [|more IH]; cbn [forget_attempts]; calm; first [by apply spared_call|exact IH].
Qed.
Lemma how_safe authorized k m : how vault arbiter platformNamespaces t p app recorded authorized k = Some m → kept safe m.
Proof.
  pose proof harmless_safe as HQ. unfold how. destruct (StoreDestroyJobs _ _ _ k) as [job|] eqn:Ej.
  { intros [= <-]. unfold purge_store. apply kept_bind; [by eapply runKernelJob_safe, scripts|intros _]. apply kept_bind; [|intros _; apply forget_safe].
    destruct (_ && _); [by apply deleteDatabaseRecord_kept|apply kept_ret]. }
  destruct k; intros Hh; try discriminate Hh.
  - injection Hh as <-. by apply purgeClusterArtifacts_kept.
  - injection Hh as <-. by apply purgeCredentials_kept.
  - injection Hh as <-. by apply purgeAccessGroup_kept.
  - destruct (signsIn p); [|done]. injection Hh as <-. by apply purgeSignIn_kept.
  - case_bool_decide as Hm; [done|]. injection Hh as <-. unfold purgeModelKey. apply kept_bind; [calm|intros b]. apply kept_bind; [|intros _; apply forget_safe].
    destruct b; [|apply kept_ret]. apply kept_bind; [|intros _; apply kept_ret]. apply kept_wrap, spared_call; [done|]. cbn. by apply bool_decide_eq_false, not_key.
  - destruct authorized; [|done]. injection Hh as <-. destruct arbiter; [by apply HQ|apply kept_fail].
  - injection Hh as <-. by apply purgePVCs_kept.
Qed.
Lemma purge_safe w : safe w → safe (purge vault arbiter platformNamespaces t p app recorded w).1.
Proof.
  intros Hw. unfold purge. pose proof (harmless_safe _ (AuthorizationRecorded (tn_name t) app) eq_refl w Hw) as Ha.
  destruct (perform _ w) as [w1 [authorized|e]]; [|done]. cbn in Ha. unfold purgeSteps. generalize (@nil Kind) as ds. revert w1 Ha.
  induction AppPurgeOrder as [|k ks IH]; intros w1 Ha ds; [done|]. cbn [omap list_omap].
  destruct (how _ _ _ _ _ _ _ _ k) as [m|] eqn:Eh; cbn [fmap option_fmap option_map]; [|by apply IH]. cbn [run_steps].
  pose proof (how_safe authorized k m Eh w1 Ha) as Hm. destruct (m w1) as [w2 [u|e]]; [by apply IH|done].
Qed.
End Unharmed.

(** Nothing the purge destroys claims it, from here on. *)
Definition unclaimed (x : thing) (w : W) : Prop := ∀ w1 k st, later w w1 → target t app p recorded k = Some st → ¬ claims w1 st x.
Lemma unclaimed_lasting x v v' : later v v' → unclaimed x v → unclaimed x v'.
Proof. intros Hl Hu w1 k st Hl1. apply Hu. by etrans. Qed.
Lemma unclaimed_safe x w : there w x → ¬ menaced w x → unclaimed x w → there (purge vault arbiter platformNamespaces t p app recorded w).1 x.
Proof.
  intros Ht Hm Hu. apply (purge_safe x (unclaimed x)); [apply unclaimed_lasting| | |done].
  - intros k job Hj fuel. apply script_spares; [apply unclaimed_lasting|]. intros v Hv. apply (Hv v k); [done|]. unfold target. by rewrite Hj.
  - intros Hk ->. apply (Hu w KindModelAccess (AModelKey (pv_modelKey recorded))); [done|by apply model_target|]. cbn. apply list_elem_of_singleton. done.
Qed.

(** C28: A purge destroys nothing but what is the app's, whatever fails on the way: anything else
    on the servers, whoever's it is, is there afterwards when nobody else was about to delete
    it.  The app's are what the names of the tenant and the app give (database and user, bucket
    and identity, cache user) and the model key on record; on PostgreSQL also every database
    its role owns, and whatever database a line of the name of one is the name of; on MariaDB
    also every database named with the provisioned one and an underscore that no other account
    has rights on. *)
Theorem purge_spares_others (x : thing) (w : W) : there w x → ¬ menaced w x →
  (∀ w1 k st, later w w1 → target t app p recorded k = Some st → ¬ claims w1 st x) →
  there (purge vault arbiter platformNamespaces t p app recorded w).1 x.
Proof. apply unclaimed_safe. Qed.

Lemma other_bucket_unclaimed b w x : b ≠ S3Bucket t app → x ∈ things (ABucket b) → unclaimed x w.
Proof.
  intros Hb Hx w1 k st _ Hst Hc. assert (x = TBucket b ∨ x = TIdentity b) as Hx' by (cbn in Hx; set_solver).
  unfold target, StoreDestroyJobs, entry_store in Hst.
  destruct k; repeat case_match; simplify_eq; cbn in Hc; destruct Hx'; subst x; set_solver.
Qed.
Lemma bucket_target : pv_bucket recorded ≠ "" → target t app p recorded KindObjectStorage = Some (ABucket (S3Bucket t app)).
Proof. intros Hb. unfold target. cbn [StoreDestroyJobs MergeStores so_s3]. by rewrite (bool_decide_false (pv_bucket recorded = "")), orb_true_r by done. Qed.
Lemma purge_forgets (w w' : W) ds k st : purge vault arbiter platformNamespaces t p app recorded w = (w', Purged ds) →
  target t app p recorded k = Some st → k ∈ ds ∧ entry_has t app own w' k = false.
Proof.
  intros Hrun Hst. pose proof (purge_outcome t app own vault arbiter platformNamespaces p recorded nothing w targets_are_own) as Ho. rewrite Hrun in Ho.
  destruct Ho as [_ Ho]; [by intros []|by intros []|by intros []|]. by destruct (Ho k st Hst) as (? & _ & ?).
Qed.

(** C37: The names a store was made under are on record and a purge does not use them: of an app
    whose bucket has the name the tenant's prefix gave then and not the one it gives now, a
    purge that is reported complete leaves the bucket in place and takes it off the record. *)
Theorem renamed_store_is_lost (w w' : W) (ds : list Kind) : pv_bucket recorded ≠ "" → pv_bucket recorded ≠ S3Bucket t app →
  present w (ABucket (pv_bucket recorded)) → ¬ threatened w (ABucket (pv_bucket recorded)) →
  purge vault arbiter platformNamespaces t p app recorded w = (w', Purged ds) →
  KindObjectStorage ∈ ds ∧ present w' (ABucket (pv_bucket recorded)) ∧ entry_has t app own w' KindObjectStorage = false.
Proof.
  intros Hb Hne (x & Hx & Ht) Hm Hrun. destruct (purge_forgets w w' ds _ _ Hrun (bucket_target Hb)) as [? ?]. split_and!; [done| |done].
  exists x. split; [done|]. change w' with (w', Purged ds).1. rewrite <- Hrun.
  apply unclaimed_safe; [done|intros Hmx; apply Hm; by exists x|by eapply other_bucket_unclaimed].
Qed.

(** A bucket that is kept for its locked objects is reported as destroyed and taken off the
    record: the script ends in success, and nothing tells a purge that it kept the bucket. *)
Theorem locked_bucket_is_lost (w w' : W) (ds : list Kind) : pv_bucket recorded ≠ "" →
  there w (TBucket (S3Bucket t app)) → ¬ menaced w (TBucket (S3Bucket t app)) → (∀ w1, later w w1 → locked w1 (S3Bucket t app)) →
  purge vault arbiter platformNamespaces t p app recorded w = (w', Purged ds) →
  KindObjectStorage ∈ ds ∧ there w' (TBucket (S3Bucket t app)) ∧ entry_has t app own w' KindObjectStorage = false.
Proof.
  intros Hb Ht Hm Hlock Hrun. destruct (purge_forgets w w' ds _ _ Hrun (bucket_target Hb)) as [? ?]. split_and!; [done| |done].
  set (C := λ v, ∀ w1, later v w1 → locked w1 (S3Bucket t app)).
  assert (∀ v v', later v v' → C v → C v') as HC by (intros v v' Hl Hv w1 Hw1; apply Hv; by etrans).
  change w' with (w', Purged ds).1. rewrite <- Hrun. apply (purge_safe (TBucket (S3Bucket t app)) C HC); [|done|done].
  intros k job Hj fuel. destruct (decide (jb_destroys job = ABucket (S3Bucket t app))) as [->|Hne]; [apply locked_bucket_spared|].
  apply script_spares; [done|]. intros v _ Hc. apply Hne. unfold StoreDestroyJobs in Hj.
  destruct k; repeat case_match; simplify_eq; cbn in Hc; set_solver.
Qed.
End Theorems.

(** ** The polls are enough *)

Section Polls.
Context {W : Type} `{Cluster W} {n a : string} {own : thing → Prop} `{!ClusterLaws W n a own}.

(** A look takes time or none. *)
Definition forward {A} (m : act W A) : Prop := ∀ w, (clock w ≤ clock (m w).1)%Z.

(** Polling with as many units as pauses fit before the deadline, and one, is polling with any more. *)
Lemma poll_enough {A} (look : act W (option A)) late deadline : forward look → ∀ fuel more w,
  (deadline - clock w < Z.of_nat fuel * purgePoll)%Z → poll_until (S fuel) deadline look late w = poll_until (S fuel + more) deadline look late w.
Proof.
  intros Hl. assert (∀ w, (clock w ≤ clock (look w).1)%Z) as Hlook by done. induction fuel as [|fuel IH]; intros more w Hf.
  all: cbn [poll_until Nat.add]; unfold act_bind; pose proof (Hlook w) as Hc; destruct (look w) as [w1 [[r|]|e]]; try done; cbn in Hc.
  all: pose proof (clock_on Z Now w1) as Hn; pose proof (now_answer w1) as Ha; destruct (perform Now w1) as [w2 now]; cbn in Hn, Ha; subst now.
  - rewrite bool_decide_true by (unfold purgePoll, seconds in *; lia). done.
  - case_bool_decide; [done|]. pose proof (wait_passes w2) as Hp. destruct (perform Wait w2) as [w3 [[]|e]]; [|done]. cbn in Hp.
    apply (IH more w3). specialize (Hp eq_refl). unfold purgePoll, seconds in *. lia.
Qed.

(** What a wait of at most two minutes answers does not depend on the number of polls it is given. *)
Lemma within_enough {A} bound (look : act W (option A)) late more w : forward look → (bound ≤ purgeJobWait)%Z →
  within bound look late w = (now ⇐ perform Now; poll_until (polls + more) (now + bound)%Z look late) w.
Proof.
  intros Hl Hb. unfold within, act_bind. pose proof (now_answer w) as Ha. destruct (perform Now w) as [w1 now]. cbn in Ha. subst now.
  apply (poll_enough look late _ Hl 41). unfold purgeJobWait, purgePoll, seconds in *. lia.
Qed.

Lemma harmless_forward (from : Z) A (c : call A) : harmless c = true → kept (λ w, (from ≤ clock w)%Z) (perform c).
Proof. intros _ w Hw. pose proof (clock_on A c w) as Hc. destruct (perform c w) as [w' [b|e]]; cbn in Hc; lia. Qed.
Lemma forward_kept {A} (m : act W A) : (∀ from, kept (λ w, (from ≤ clock w)%Z) m) → forward m.
Proof. intros Hm w. by apply (triple_left _ _ _ (Hm (clock w))). Qed.
Lemma pvcs_enough ns claims deadline : ∀ fuel more w,
  (deadline - clock w < Z.of_nat fuel * purgePoll)%Z → pvcs_gone (S fuel) deadline ns claims w = pvcs_gone (S fuel + more) deadline ns claims w.
Proof.
  assert (forward (remaining_of ns claims)) as Hlook by (apply forward_kept; intros from; apply remaining_kept, harmless_forward).
  assert (∀ l, forward (releasePVCHolders ns l)) as Hrel by (intros l; apply forward_kept; intros from; apply releasePVCHolders_kept, harmless_forward).
  induction fuel as [|fuel IH]; intros more w Hf.
  all: cbn [pvcs_gone Nat.add]; unfold act_bind; pose proof (Hlook w) as Hc; destruct (remaining_of ns claims w) as [w1 [l|e]]; [|done]; cbn in Hc; case_bool_decide; [done|].
  all: pose proof (clock_on Z Now w1) as Hn; pose proof (now_answer w1) as Ha; destruct (perform Now w1) as [w2 now]; cbn in Hn, Ha; subst now.
  - rewrite bool_decide_true by (unfold purgePoll, seconds in *; lia). done.
  - case_bool_decide; [done|]. pose proof (Hrel l w2) as Hr. destruct (releasePVCHolders ns l w2) as [w3 [u|e]]; [|done]. cbn in Hr.
    unfold act_wrap. pose proof (wait_passes w3) as Hp. destruct (perform Wait w3) as [w4 [[]|e]]; [|done]. cbn in Hp.
    apply (IH more w4). specialize (Hp eq_refl). unfold purgePoll, seconds in *. lia.
Qed.
End Polls.

(** ** Not vacuous *)

Module PurgeExample.
#[local] Existing Instance RecordExample.entries.
#[local] Existing Instance RecordExample.entries_laws.

(** A cluster where a Job runs its script at once and everything answers: what there is, which
    role owns which database, who else has rights on one, and the buckets under lock. *)
Record toy := mkToy {
  ty_clock : Z; ty_things : list thing; ty_data : data; ty_jobs : gmap (string * string) (Job * bool);
  ty_owned : list (string * string); ty_others : list (string * string); ty_locked : list string }.
Definition having (things : list thing) (w : toy) : toy := mkToy (ty_clock w) things (ty_data w) (ty_jobs w) (ty_owned w) (ty_others w) (ty_locked w).
Definition without (x : thing) (w : toy) : toy := having (filter (λ y, y ≠ x) (ty_things w)) w.
Definition at_time (now : Z) (w : toy) : toy := mkToy now (ty_things w) (ty_data w) (ty_jobs w) (ty_owned w) (ty_others w) (ty_locked w).
Definition with_data (d : data) (w : toy) : toy := mkToy (ty_clock w) (ty_things w) d (ty_jobs w) (ty_owned w) (ty_others w) (ty_locked w).
Definition with_jobs (jobs : gmap (string * string) (Job * bool)) (w : toy) : toy :=
  mkToy (ty_clock w) (ty_things w) (ty_data w) jobs (ty_owned w) (ty_others w) (ty_locked w).
Definition count (x : thing) (w : toy) : nat := if bool_decide (x ∈ ty_things w) then 1 else 0.
Definition owned_by (role database : string) (w : toy) : list string :=
  (filter (λ ro, ro.1 = role ∧ ro.2 ≠ database) (ty_owned w)).*2.
Definition own_of (database user : string) (w : toy) : list string :=
  omap (λ x, match x with
             | TDatabase MariaDB o => if has_prefix o (database +:+ "_") && negb (bool_decide ((user, o) ∈ ty_others w)) then Some o else None
             | _ => None end) (ty_things w).

Definition toy_perform (run : Job → toy → toy * result unit) (A : Type) (c : call A) (w : toy) : toy * result A :=
  match c in call A return toy * result A with
  | Now => (w, Ok (ty_clock w))
  | Wait => (at_time (ty_clock w + purgePoll)%Z w, Ok tt)
  | ReadRecord n => (w, Ok (if bool_decide (n = "acme") then Some (ty_data w) else None))
  | UpdateRecord n d => (if bool_decide (n = "acme") then with_data d w else w, Ok tt)
  | DeleteJob ns name => (with_jobs (delete (ns, name) (ty_jobs w)) w, Ok tt)
  | GetJob ns name => (w, Ok ((λ jb : Job * bool, if jb.2 then JobComplete else JobFailed) <$> ty_jobs w !! (ns, name)))
  | CreateJob j => run j w
  | DeleteKey alias => (without (TModelKey alias) w, Ok true)
  | ModelGatewayPresent => (w, Ok true)
  | AuthorizationRecorded _ _ | DatabaseObjectThere _ | ClaimThere _ _ => (w, Ok false)
  | DeleteGroup _ _ | DeleteClient _ _ | DeleteClientScope _ _ => (w, Ok true)
  | DeleteDatabaseObject _ | DeleteClaim _ _ | DeletePod _ _ | DeleteLabelled _ _ _ | DeleteTree _ | IdentityProvider | PurgeAuthorization _ _ => (w, Ok tt)
  | ListClaims _ => (w, Ok []) | ListPods _ => (w, Ok []) | ListLabelled _ _ _ => (w, Ok [])
  | ResolvePack _ _ => (w, Ok None) | ProfileOf _ => (w, Ok None)
  | PgOwned role database => (w, Ok (owned_by role database w))
  | PgDropDatabase database => (without (TDatabase PostgreSQL database) w, Ok tt)
  | PgDropRole role => (without (TUser PostgreSQL role) w, Ok tt)
  | PgCount database => (w, Ok (count (TDatabase PostgreSQL database) w))
  | MyOwned database user => (w, Ok (head (own_of database user w)))
  | MyDropDatabase database => (without (TDatabase MariaDB database) w, Ok tt)
  | MyDropUser user => (without (TUser MariaDB user) w, Ok tt)
  | MyLeft database user => (w, Ok (count (TDatabase MariaDB database) w + length (own_of database user w)))
  | MyNote _ _ => (w, Ok tt)
  | BucketList => (w, Ok (omap (λ x, match x with TBucket b => Some b | _ => None end) (ty_things w)))
  | BucketDelete bucket => if bool_decide (bucket ∈ ty_locked w) then (w, Err (Sentinel ObjectLock)) else (without (TBucket bucket) w, Ok tt)
  | IdentityDelete name => (without (TIdentity name) w, Ok tt)
  | AclDelUser user => (without (TCacheUser user) w, Ok tt)
  | AclList => (w, Ok ("default" :: omap (λ x, match x with TCacheUser u => Some u | _ => None end) (ty_things w)))
  | AclSave => (w, Ok "OK")
  end.
Definition toy_servers : Cluster toy := toy_perform (λ _ w, (w, Ok tt)).
Definition toy_run (j : Job) (w : toy) : toy * result unit :=
  let '(w', r) := @destroy_script toy toy_servers 9 (jb_destroys j) w in
  (with_jobs (<[(jb_namespace j, jb_name j) := (j, is_ok r)]> (ty_jobs w')) w', Ok tt).
#[local] Instance toy_cluster : Cluster toy := toy_perform toy_run.

(** The scripts call the servers only. *)
Lemma same_script fuel st w : destroy_script fuel st w = @destroy_script toy toy_servers fuel st w.
Proof. reflexivity. Qed.

Definition toy_later (w w' : toy) : Prop :=
  (ty_clock w ≤ ty_clock w')%Z ∧ (∀ x, x ∈ ty_things w' → x ∈ ty_things w)
  ∧ ty_owned w' = ty_owned w ∧ ty_others w' = ty_others w ∧ ty_locked w' = ty_locked w.
#[local] Instance toy_later_preorder : PreOrder toy_later.
Proof.
  split; [by intros w; split_and!|]. intros w1 w2 w3 (? & ? & ? & ? & ?) (? & ? & ? & ? & ?). split_and!; [lia|eauto|congruence..].
Qed.
Lemma without_later x w : toy_later w (without x w).
Proof. split_and!; try done. cbn. by intros y [_ ?]%list_elem_of_filter. Qed.
Lemma server_later w0 A (c : call A) : kept (toy_later w0) (@perform toy toy_servers A c).
Proof.
  assert (∀ w w', toy_later w w' → toy_later w0 w → toy_later w0 w') as Ht by (intros; by etrans).
  intros w Hw. destruct c; cbn; try exact Hw; try (eapply Ht; [apply without_later|exact Hw]).
  - eapply Ht; [|exact Hw]. split_and!; try done. cbn. unfold purgePoll, seconds. lia.
  - case_bool_decide; exact Hw.
  - case_bool_decide; [exact Hw|]. eapply Ht; [apply without_later|exact Hw].
Qed.
Lemma server_later_one w A (c : call A) : toy_later w (@perform toy toy_servers A c w).1.
Proof. by apply (triple_left (toy_later w) _ w (server_later w A c)). Qed.
Definition of_script {A} (c : call A) : bool :=
  match c with
  | PgOwned _ _ | PgDropDatabase _ | PgDropRole _ | PgCount _ | MyOwned _ _ | MyDropDatabase _ | MyDropUser _ | MyLeft _ _ | MyNote _ _
  | BucketList | BucketDelete _ | IdentityDelete _ | AclDelUser _ | AclList | AclSave => true
  | _ => false
  end.
(** Takes a script apart into calls. *)
Lemma script_kept (Q : toy → Prop) fuel st : (∀ A (c : call A), of_script c = true → kept Q (@perform toy toy_servers A c)) → kept Q (@destroy_script toy toy_servers fuel st).
Proof.
  intros HQ. assert (∀ database user, kept Q (@drop_owned toy toy_servers fuel database user)) as Hd.
  { intros database user. induction fuel as [|n IH]; cbn [drop_owned]; [apply kept_fail|]. apply kept_bind; [(apply HQ; reflexivity)|].
    intros [nm|]; [|apply kept_ret]. apply kept_bind; [(apply HQ; reflexivity)|done]. }
  destruct st as [[] database user|bucket|user|alias]; cbn [destroy_script]; try apply kept_fail.
  - unfold postgresDestroyScript. repeat (apply kept_bind; [(apply HQ; reflexivity) || (apply each_kept; intros db; case_bool_decide; [apply kept_ret|(apply HQ; reflexivity)])|intros ?]).
    case_bool_decide; [apply kept_ret|apply kept_fail].
  - unfold mariadbDestroyScript. destruct (negb _); [apply kept_fail|]. destruct (negb _); [apply kept_fail|].
    repeat (apply kept_bind; [(apply HQ; reflexivity) || apply Hd || (case_bool_decide; [apply kept_ret|apply kept_fail])|intros ?]). (apply HQ; reflexivity).
  - unfold objectStorageDestroyScript. apply kept_bind; [(apply HQ; reflexivity)|intros l]. apply kept_bind; [case_bool_decide; [(apply kept_unless, HQ; reflexivity)|apply kept_ret]|intros _].
    (apply kept_unless, HQ; reflexivity).
  - unfold cacheDestroyScript. apply kept_bind; [(apply HQ; reflexivity)|intros _]. apply kept_bind; [(apply HQ; reflexivity)|intros users]. destruct (negb _); [apply kept_fail|].
    destruct (bool_decide _); [apply kept_fail|]. apply kept_bind; [(apply HQ; reflexivity)|intros saved]. case_bool_decide; [apply kept_ret|apply kept_fail].
Qed.
Lemma run_later j w : toy_later w (toy_run j w).1.
Proof.
  pose proof (script_kept (toy_later w) 9 (jb_destroys j) (λ A c _, server_later w A c) w (reflexivity w)) as Hl.
  unfold toy_run. destruct (destroy_script _ _ w) as [w' [u|e]]; exact Hl.
Qed.
Lemma run_data j w : ty_data (toy_run j w).1 = ty_data w.
Proof.
  assert (∀ A (c : call A), of_script c = true → kept (λ v, ty_data v = ty_data w) (@perform toy toy_servers A c)) as Hs.
  { intros A c Hc v Hv. destruct c; try discriminate Hc; cbn; try exact Hv. by case_bool_decide. }
  pose proof (script_kept _ 9 (jb_destroys j) Hs w eq_refl) as Hl. unfold toy_run. destruct (destroy_script _ _ w) as [w' [u|e]]; exact Hl.
Qed.

Lemma toy_call_later A (c : call A) w : toy_later w (perform c w).1.
Proof. destruct c; try match goal with |- toy_later _ (perform ?c _).1 => exact (server_later_one w _ c) end. apply run_later. Qed.

Definition toy_created (w0 w : toy) (j : Job) : Prop := ∃ ok, ty_jobs w !! (jb_namespace j, jb_name j) = Some (j, ok)
  ∧ (ok = true → ∃ fuel w1 w2, toy_later w0 w1 ∧ destroy_script fuel (jb_destroys j) w1 = (w2, Ok tt) ∧ toy_later w2 w).
Lemma run_created j w : toy_created w (toy_run j w).1 j.
Proof.
  unfold toy_run, toy_created. destruct (@destroy_script toy toy_servers 9 (jb_destroys j) w) as [w' r] eqn:E. exists (is_ok r).
  split; [apply lookup_insert_eq|]. destruct r as [[]|e]; [|done]. intros _. exists 9, w, w'. split_and!; try done.
Qed.

#[local] Instance toy_laws own : ClusterLaws toy "acme" "wiki" own.
Proof.
  unshelve refine {|
    clock := ty_clock; there w x := x ∈ ty_things w; menaced _ _ := False; locked w b := b ∈ ty_locked w;
    pg_owns w role o := (role, o) ∈ ty_owned w; my_others w user o := (user, o) ∈ ty_others w;
    entry_raw w := ty_data w !! "wiki"; later := toy_later; created := toy_created |}.
  - exact toy_call_later.
  - by intros w w' x _ (_ & Hs & _) Hx; apply Hs.
  - intros A c w. by destruct (toy_call_later A c w).
  - done.
  - intros w _. cbn. lia.
  - intros A c w Hn. destruct c; cbn in *; try done; [by rewrite Hn|by rewrite run_data|by case_bool_decide].
  - by intros w w' r [= <- <-].
  - by intros w w' d r [= <- <-].
  - intros w w' j E. pose proof (run_created j w) as Hc. cbn in E. by rewrite E in Hc.
  - intros A c w0 w j Hc (ok & Hj & Hok). exists ok. destruct c; try discriminate Hc; (split; [exact Hj|]);
      intros Ht; destruct (Hok Ht) as (fuel & w1 & w2 & ? & ? & L); exists fuel, w1, w2; (split_and!; [done..|]); (etrans; [exact L|]); [exact (server_later_one w _ Now)|exact (server_later_one w _ Wait)|exact (server_later_one w _ (GetJob ns name))].
  - intros w0 w w' j E (ok & Hj & Hok). cbn in E. rewrite Hj in E. destruct ok; [|discriminate E]. injection E as <-. by apply Hok.
  - intros C w j x HC Hs Ht Hm Hw. pose proof (Hs 9 w (conj Ht (conj Hm Hw))) as Hk. rewrite same_script in Hk.
    cbn. unfold toy_run. destruct (@destroy_script toy toy_servers 9 (jb_destroys j) w) as [w' [[]|e]]; by destruct Hk as (? & ? & _).
  - intros A c w x Hc Ht _. split; [|by intros []]. destruct c; try discriminate Hc; cbn in *; try done; try (by case_bool_decide).
    all: apply bool_decide_eq_false in Hc; try case_bool_decide; cbn; first [done|by apply list_elem_of_filter].
  - intros w w' role database l [= <- <-] o ([r o'] & -> & [[<- _] Ho]%list_elem_of_filter)%list_elem_of_fmap. exact Ho.
  - intros w w' database [= <-] Ht. cbn in Ht. apply list_elem_of_filter in Ht. naive_solver.
  - intros w w' role [= <-] Ht. cbn in Ht. apply list_elem_of_filter in Ht. naive_solver.
  - intros w w' database [= <- Hn]. unfold count in Hn. by case_bool_decide.
  - intros w w' database user o [= <- Ho]. assert (o ∈ own_of database user w) as Hin by (destruct (own_of database user w); [done|]; injection Ho as ->; by left).
    apply list_elem_of_omap in Hin as (x & _ & Hx). destruct x as [[] o'| | | | |]; try done. destruct (_ && _) eqn:Hb; [|done]. injection Hx as ->.
    apply andb_true_iff in Hb as [? Hb]. split; [done|]. by apply negb_true_iff, bool_decide_eq_false in Hb.
  - intros w w' user [= <-] Ht. cbn in Ht. apply list_elem_of_filter in Ht. naive_solver.
  - intros w w' database user [= <- Hn] Ht. unfold count in Hn. rewrite bool_decide_true in Hn by done. done.
  - intros w w' l bucket [= <- <-] Hn Ht. apply Hn, list_elem_of_omap. by exists (TBucket bucket).
  - intros w w' bucket r. cbn. case_bool_decide; intros [= <- <-]; [done|]. cbn. intros Ht. apply list_elem_of_filter in Ht. naive_solver.
  - intros w bucket Hl Ht _. cbn. rewrite bool_decide_true by done. split; [done|by intros []].
  - intros w w' name r [= <- <-] Ht. cbn in Ht. apply list_elem_of_filter in Ht. naive_solver.
  - intros w w' users user [= <- <-] _ Hn Ht. apply Hn. apply elem_of_cons. right. apply list_elem_of_omap. by exists (TCacheUser user).
  - intros w w' alias b [= <- <-] Ht. cbn in Ht. apply list_elem_of_filter in Ht. naive_solver.
  - done.
Defined.

Definition wiki : PurgeProfile := mkPurgeProfile "wiki" (mkStoreProfile (Some (mkServices (Some PostgreSQL) true false true)) [] None) None [].
Abbreviation acme := RecordExample.acme.
Definition recorded : Provisioned := ProvisionedOf (InventoryOf (acme "a-") "wiki" (Some (pp_stores wiki))).
(** The wiki's stores, a database its role made, and what is another's. *)
Definition begin_things : list thing :=
  [TDatabase PostgreSQL "acme_wiki"; TDatabase PostgreSQL "notes"; TUser PostgreSQL "acme_wiki"; TBucket "a-wiki"; TIdentity "a-wiki";
   TModelKey "acme-wiki"; TBucket "other"; TDatabase PostgreSQL "victim"].
Definition start (owned : list (string * string)) (locked : list string) : toy :=
  mkToy 0 begin_things {["wiki" := marshal recorded]} ∅ owned [] locked.
Definition plain : toy := start [("acme_wiki", "acme_wiki"); ("acme_wiki", "notes")] [].
Abbreviation run t w := (purge true true [] t wiki "wiki" recorded w).
Abbreviation mine t := (own_things t "wiki" wiki recorded).

Lemma purge_accounts_for_stores_witness :
  ty_things (run (acme "a-") plain).1 = [TBucket "other"; TDatabase PostgreSQL "victim"]
  ∧ tracked (acme "a-") "wiki" (mine (acme "a-")) recorded plain (run (acme "a-") plain).1.
Proof.
  split; [vm_compute; reflexivity|].
  pose proof (purge_accounts_for_stores (acme "a-") "wiki" true true [] wiki recorded plain) as Ht.
  destruct (run (acme "a-") plain) as [w' out].
  apply Ht.
  - intros [] st Hst; try discriminate Hst; rewrite <- Hst; vm_compute; reflexivity.
  - intros [] st x Hst Hx Hp; try discriminate Hst; vm_compute; reflexivity.
Defined.

(** The database another app has, beside those the wiki's role owns. *)
Lemma purge_spares_others_witness : TDatabase PostgreSQL "victim" ∈ ty_things (run (acme "a-") plain).1.
Proof.
  pose proof (purge_spares_others (acme "a-") "wiki" true true [] wiki recorded (TDatabase PostgreSQL "victim") plain) as Hs. apply Hs.
  - change (TDatabase PostgreSQL "victim" ∈ begin_things). apply (bool_decide_unpack _). vm_compute. exact I.
  - intros [].
  - intros w1 k st (_ & _ & Ho & _) Hst Hc. destruct k; vm_compute in Hst; try discriminate Hst; injection Hst as <-; cbn [claims things] in Hc.
    + destruct Hc as [Hc|(name & line & [= <-] & Hl & Hn)]; [discriminate Hc|].
      assert (name = "acme_wiki" ∨ name = "notes") as [-> | ->].
      { destruct Hn as [->|Hn]; [by left|]. cbn in Hn. rewrite Ho in Hn. apply elem_of_cons in Hn as [[= ->]|[= ->]%list_elem_of_singleton]; auto. }
      * by apply list_elem_of_singleton in Hl.
      * by apply list_elem_of_singleton in Hl.
    + by apply elem_of_cons in Hc as [Hc|Hc%list_elem_of_singleton].
    + by apply list_elem_of_singleton in Hc.
Defined.

Lemma renamed_store_is_lost_witness : ∃ w' ds, run (acme "b-") plain = (w', Purged ds)
  ∧ TBucket "a-wiki" ∈ ty_things w'
  ∧ KindObjectStorage ∈ ds ∧ present (own := mine (acme "b-")) w' (ABucket "a-wiki") ∧ entry_has (acme "b-") "wiki" (mine (acme "b-")) w' KindObjectStorage = false.
Proof.
  destruct (run (acme "b-") plain) as [w' [ds|e|e]] eqn:E; [|exfalso; vm_compute in E; discriminate E..].
  exists w', ds. split; [reflexivity|]. split.
  { replace w' with (run (acme "b-") plain).1 by (by rewrite E). apply (bool_decide_unpack _). vm_compute. exact I. }
  pose proof (renamed_store_is_lost (acme "b-") "wiki" true true [] wiki recorded plain w' ds) as Hl. apply Hl.
  - intros Hb. vm_compute in Hb. discriminate Hb.
  - intros Hb. vm_compute in Hb. discriminate Hb.
  - exists (TBucket "a-wiki"). split; [by left|]. change (TBucket "a-wiki" ∈ begin_things). apply (bool_decide_unpack _). vm_compute. exact I.
  - by intros (x & _ & []).
  - exact E.
Defined.

Lemma locked_bucket_is_lost_witness : ∃ w' ds, run (acme "a-") (start [] ["a-wiki"]) = (w', Purged ds)
  ∧ KindObjectStorage ∈ ds ∧ TBucket "a-wiki" ∈ ty_things w' ∧ entry_has (acme "a-") "wiki" (mine (acme "a-")) w' KindObjectStorage = false.
Proof.
  destruct (run (acme "a-") (start [] ["a-wiki"])) as [w' [ds|e|e]] eqn:E; [|exfalso; vm_compute in E; discriminate E..].
  exists w', ds. split; [reflexivity|].
  pose proof (locked_bucket_is_lost (acme "a-") "wiki" true true [] wiki recorded (start [] ["a-wiki"]) w' ds) as Hl. apply Hl.
  - intros Hb. vm_compute in Hb. discriminate Hb.
  - change (TBucket "a-wiki" ∈ begin_things). apply (bool_decide_unpack _). vm_compute. exact I.
  - intros [].
  - intros w1 (_ & _ & _ & _ & Hlock). cbn. rewrite Hlock. vm_compute. by left.
  - exact E.
Defined.

(** The wiki's role has made a database named with a line break and another's name. *)
Definition trap : string := "x" +:+ newline +:+ "victim".
Lemma line_break_drops_another_witness :
  let w := start [("acme_wiki", trap)] [] in
  let w' := (postgresDestroyScript "acme_wiki" "acme_wiki" w).1 in
  (TDatabase PostgreSQL "victim" ∈ ty_things w ∧ TDatabase PostgreSQL "victim" ∉ ty_things w')
  ∧ ∃ w1, toy_later w w1 ∧ TDatabase PostgreSQL "victim" ∉ ty_things w1.
Proof.
  intros w w'. split; [split; apply (bool_decide_unpack _); vm_compute; exact I|].
  pose proof (line_break_drops_another (tenantName := "acme") (app := "wiki") (own := λ _, True)
    "acme_wiki" "acme_wiki" trap "victim" [trap] w w w') as Hl. apply Hl.
  - vm_compute. reflexivity.
  - by left.
  - apply (bool_decide_unpack _). vm_compute. exact I.
  - discriminate.
  - vm_compute. reflexivity.
Defined.
End PurgeExample.
