(* ===== verification/PlacementWorker.v ===== *)
(** * The worker that places apps ([internal/director/api/platform_apps.go])

    Every five minutes, and when something it depends on changed, the director asks the
    operator what goes where ([Placement]) and writes it into the tenants' manifests: it
    places what is missing, takes away what two passes in a row found withdrawn, grants
    the contracts that need nobody's approval, and installs and uninstalls the apps that
    come with a capability of the cluster.

    [taken_away_after_two_passes]: nothing is taken away on one answer alone.
    [placement_settles]: with the answer and the capabilities standing, two passes bring
    every tenant to them and a third changes nothing.  [manifests_stay_well_formed]: whatever passes and people write,
    a manifest stays one.  [own_install_is_taken_over]: an app its tenant installs
    between the worker's reading and its writing becomes the platform's. *)

From S2P Require Import Prelude.
From S2P Require Import GoStrings.
From S2P Require Import Ids.
From S2P Require Import AppEntries.
From S2P Require Import AppLayout.
From S2P Require Import AppAddons.
From S2P Require Import AppEdits.
From S2P Require Import AppGrants.
From S2P Require Import Placement.

(** ** What comes with a capability *)

Definition capabilityLLM : string := "llm".
Record capabilityApp := mkCapability { ca_catalogue : string; ca_name : string; ca_digest : string; ca_wanted : bool }.
(** An entry of a catalog's index that is placed with a capability. *)
Record PlacedEntry := mkPlacedEntry { pe_entry : string; pe_digest : string; pe_with : string }.

(** [models]: whether the cluster serves models; [sources]: its catalogs by name, each
    with its index; an error where there are none to read. *)
Definition capabilityApps (models : result bool) (sources : result (list (string * result (list PlacedEntry)))) : list capabilityApp :=
  match models, sources with
  | Ok enabled, Ok sources =>
      sources ≫= λ src,
        match src.2 with
        | Err _ => []
        | Ok listing =>
            omap (λ e, if bool_decide (pe_with e = capabilityLLM) && negb (bool_decide (pe_digest e = ""))
                       then Some (mkCapability src.1 (pe_entry e) (pe_digest e) enabled) else None) listing
        end
  | _, _ => []
  end.

(** ** One pass *)

Record Tenant := mkTenant { tn_name : string; tn_purging : bool }.

(** What a pass meets: whether another one runs, the operator's answer, what comes with a
    capability, the tenants, which readings and which writes fail, and what making a build
    available answers. *)
Record pass := mkPass {
  ps_busy : bool; ps_answer : result Answer; ps_capability : list capabilityApp; ps_tenants : result (list Tenant);
  ps_realm : string → option error; ps_apps : string → option error; ps_write : string → string → option error;
  ps_grant : string → Grant → option error; ps_materialise : string → capabilityApp → result string; ps_meta : Meta }.

(** The manifests, the grants, and what the pass before found withdrawn. *)
Record world := mkWorld {
  wo_text : gmap string string; wo_grants : gmap string (list TenantAppGrant); wo_absent : gset string }.

Definition platformAppsPrincipal : string := "platform:placement".
Definition absent_key (tenant app : string) : string := tenant +:+ "/" +:+ app.

Section Pass.
Context `{Yaml} (ps : pass).

(** A write that lands, or the error it ends with; and whether it changed anything. *)
Definition write_app (t p : string) (w : write) (text : string) : result (string * bool) :=
  match ps_write ps t p with
  | Some e => Err e
  | None => match edit t p (ps_meta ps) w text with
            | Ok (text', _, changed) => Ok (if changed then text' else text, changed)
            | Err e => Err e
            end
  end.

(** What a pass has done to one tenant so far: its manifest, what the platform has placed
    in it, and how much was placed and removed. *)
Record progress := mkProgress { pg_text : string; pg_ours : gset string; pg_placed : nat; pg_removed : nat }.
Definition one (changed : bool) : nat := if changed then 1 else 0.

Definition place_wanted (t : string) (have : list string) (g : progress) (name : string) : progress :=
  if bool_decide (name ∈ have) then g
  else match write_app t name (ByPlace "" "" false) (pg_text g) with
       | Err _ => g
       | Ok (text, changed) => mkProgress text ({[name]} ∪ pg_ours g) (pg_placed g + one changed) (pg_removed g)
       end.

(** An app the platform placed that the set decided and does not have. *)
Definition withdrawn (s : PSet) (a : App) : bool := app_placed a && negb (Has s (app_profile a)) && Decided s (app_profile a).

Definition take_away (t : string) (s : PSet) (before : gset string) (g : progress) (a : App) : progress :=
  if negb (withdrawn s a) then g
  else if negb (bool_decide (absent_key t (app_profile a) ∈ before)) then g
  else match write_app t (app_profile a) ByUnplace (pg_text g) with
       | Err _ => g
       | Ok (text, changed) => mkProgress text (pg_ours g ∖ {[app_profile a]}) (pg_placed g) (pg_removed g + one changed)
       end.

Definition pre_approve_one (t : string) (ours : gset string) (doc : list TenantAppGrant) (g : Grant) : list TenantAppGrant :=
  if negb (bool_decide (gr_app g ∈ ours)) || negb (bool_decide (gr_provider g ∈ ours)) then doc
  else match ps_grant ps t g with
       | Some _ => doc
       | None => match PreApproveConsume t (gr_app g) (gr_contract g) (gr_capabilities g) (ps_meta ps) doc with
                 | Ok (doc', _) => doc'
                 | Err _ => doc
                 end
       end.

(** [moveTo]: the build made available, and the app installed at it for everyone. *)
Definition capability_one (t : string) (have : list string) (g : progress) (c : capabilityApp) : progress :=
  let present := bool_decide (ca_name c ∈ have) in
  if ca_wanted c && negb present then
    match (source ← ps_materialise ps t c;
           write_app t (ca_name c) (ByInstall (ca_digest c) source (Some true)) (pg_text g)) with
    | Err _ => g
    | Ok (text, changed) => mkProgress text (pg_ours g) (pg_placed g + one changed) (pg_removed g)
    end
  else if negb (ca_wanted c) && present then
    match write_app t (ca_name c) ByUninstall (pg_text g) with
    | Err _ => g
    | Ok (text, changed) => mkProgress text (pg_ours g) (pg_placed g) (pg_removed g + one changed)
    end
  else g.

(** The part of a pass that follows the operator's answer. *)
Definition follow_answer (t : string) (answer : Answer) (platform : bool) (before : gset string) (apps : list App) (text : string)
    : progress :=
  let s := For answer platform in
  let ours := list_to_set (omap (λ a, if app_placed a then Some (app_profile a) else None) apps) : gset string in
  let g := foldl (place_wanted t (app_profile <$> apps)) (mkProgress text ours 0 0) (st_wanted s) in
  foldl (take_away t s before) g apps.

Definition absent_of (t : string) (s : PSet) (apps : list App) : gset string :=
  list_to_set (omap (λ a, if withdrawn s a then Some (absent_key t (app_profile a)) else None) apps).

(** One tenant: its manifest and grants after the pass, what was found withdrawn in it,
    and how much was placed and removed; [None] where it could not be read. *)
Definition pass_tenant (before : gset string) (t : string) (text : string) (doc : list TenantAppGrant)
    : option (string * list TenantAppGrant * gset string * nat * nat) :=
  match ps_realm ps t, ps_apps ps t, yaml_apps text with
  | None, None, Ok apps =>
      let platform := adoptsAnotherRealm text t in
      let '(g, doc, absent) :=
        match ps_answer ps with
        | Ok answer =>
            let g := follow_answer t answer platform before apps text in
            (g, foldl (pre_approve_one t (pg_ours g)) doc (an_grants answer), absent_of t (For answer platform) apps)
        | Err _ => (mkProgress text ∅ 0 0, doc, ∅)
        end in
      let g := if platform then g else foldl (capability_one t (app_profile <$> apps)) g (ps_capability ps) in
      Some (pg_text g, doc, absent, pg_placed g, pg_removed g)
  | _, _, _ => None
  end.

Record sweep := mkSweep {
  sw_text : gmap string string; sw_grants : gmap string (list TenantAppGrant); sw_absent : gset string; sw_placed : nat; sw_removed : nat }.

Definition sweep_tenant (before : gset string) (s : sweep) (t : Tenant) : sweep :=
  if tn_purging t then s
  else match sw_text s !! tn_name t with
       | None => s
       | Some text =>
           match pass_tenant before (tn_name t) text (default [] (sw_grants s !! tn_name t)) with
           | None => s
           | Some (text', doc', absent, placed, removed) =>
               mkSweep (<[tn_name t := text']> (sw_text s)) (<[tn_name t := doc']> (sw_grants s)) (absent ∪ sw_absent s)
                 (sw_placed s + placed) (sw_removed s + removed)
           end
       end.

Definition placePlatformApps (w : world) : world * (nat * nat) :=
  if ps_busy ps then (w, (0, 0))
  else if negb (is_ok (ps_answer ps)) && bool_decide (length (ps_capability ps) = 0) then (w, (0, 0))
  else match ps_tenants ps with
       | Err _ => (w, (0, 0))
       | Ok tenants =>
           let s := foldl (sweep_tenant (wo_absent w)) (mkSweep (wo_text w) (wo_grants w) ∅ 0 0) tenants in
           (mkWorld (sw_text s) (sw_grants s) (if is_ok (ps_answer ps) then sw_absent s else wo_absent w), (sw_placed s, sw_removed s))
       end.
End Pass.

(** What a new user tenant is created with. *)
Definition placedForNewTenant (answer : result Answer) : list string :=
  match answer with Ok a => st_wanted (an_users a) | Err _ => [] end.

(** ** Tenant by tenant *)

Section Sweep.
Context `{Yaml} (ps : pass) (before : gset string).

Definition active (ts : list Tenant) (t : string) : Prop := ∃ x, x ∈ ts ∧ tn_name x = t ∧ tn_purging x = false.
Definition visited (s : sweep) (t : string) : option (string * list TenantAppGrant * gset string * nat * nat) :=
  text ← sw_text s !! t; pass_tenant ps before t text (default [] (sw_grants s !! t)).
Definition text_after (s : sweep) (t : string) : option string :=
  match visited s t with Some r => Some r.1.1.1.1 | None => sw_text s !! t end.

Lemma active_cons x ts t : active (x :: ts) t ↔ (tn_name x = t ∧ tn_purging x = false) ∨ active ts t.
Proof. unfold active. setoid_rewrite elem_of_cons. naive_solver. Qed.

(** A tenant's turn is its own. *)
Lemma sweep_tenant_other s x t : tn_name x ≠ t → sw_text (sweep_tenant ps before s x) !! t = sw_text s !! t
  ∧ sw_grants (sweep_tenant ps before s x) !! t = sw_grants s !! t.
Proof.
  intros Hne. unfold sweep_tenant. destruct (tn_purging x); [done|]. destruct (sw_text s !! tn_name x); [|done].
  destruct (pass_tenant _ _ _ _ _) as [[[[[text' doc'] absent] placed] removed]|]; [|done]. cbn. by rewrite !lookup_insert_ne.
Qed.

Lemma sweep_tenant_here s x : tn_purging x = false → sw_text (sweep_tenant ps before s x) !! tn_name x = text_after s (tn_name x).
Proof.
  intros Hp. unfold sweep_tenant, text_after, visited. rewrite Hp. destruct (sw_text s !! tn_name x) as [text|] eqn:E; [|done]. cbn [mbind option_bind].
  destruct (pass_tenant _ _ _ _ _) as [[[[[text' doc'] absent] placed] removed]|]; [|done]. cbn. by rewrite lookup_insert_eq.
Qed.

Lemma sweep_tenant_absent s x k : k ∈ sw_absent (sweep_tenant ps before s x) →
  k ∈ sw_absent s ∨ tn_purging x = false ∧ ∃ r, visited s (tn_name x) = Some r ∧ k ∈ r.1.1.2.
Proof.
  unfold sweep_tenant, visited. destruct (tn_purging x); [by left|]. destruct (sw_text s !! tn_name x) as [text|]; [|by left]. cbn [mbind option_bind].
  destruct (pass_tenant _ _ _ _ _) as [[[[[text' doc'] absent] placed] removed]|] eqn:E; [|by left]. cbn. intros [Hk|Hk]%elem_of_union; [|by left].
  right. split; [done|]. by eexists.
Qed.

Lemma visited_other s x t : tn_name x ≠ t → visited (sweep_tenant ps before s x) t = visited s t.
Proof. intros Hne. unfold visited. destruct (sweep_tenant_other s x t Hne) as [-> ->]. done. Qed.

Lemma sweep_skips ts s t : ¬ active ts t → sw_text (foldl (sweep_tenant ps before) s ts) !! t = sw_text s !! t.
Proof.
  revert s. induction ts as [|x ts IH]; intros s Hn; [done|]. cbn [foldl]. rewrite active_cons in Hn. rewrite IH by tauto.
  destruct (decide (tn_name x = t)) as [<-|Hne]; [|by apply sweep_tenant_other]. unfold sweep_tenant. destruct (tn_purging x) eqn:Ep; [done|]. tauto.
Qed.

Lemma sweep_visits ts s t : NoDup (tn_name <$> ts) → active ts t → sw_text (foldl (sweep_tenant ps before) s ts) !! t = text_after s t.
Proof.
  revert s. induction ts as [|x ts IH]; intros s Hnd Ha; [by destruct Ha as (y & Hy%not_elem_of_nil & _)|]. cbn [foldl].
  rewrite fmap_cons in Hnd. apply NoDup_cons in Hnd as [Hx Hnd]. apply active_cons in Ha as [[<- Hp]|Ha].
  - rewrite sweep_skips; [by apply sweep_tenant_here|]. intros (y & Hy & Heq & _). apply Hx. rewrite <-Heq. by apply list_elem_of_fmap_2.
  - rewrite IH by done. assert (tn_name x ≠ t) as Hne. { intros <-. destruct Ha as (y & Hy & Heq & _). apply Hx. rewrite <-Heq. by apply list_elem_of_fmap_2. }
    unfold text_after. rewrite visited_other by done. destruct (sweep_tenant_other s x t Hne) as [-> _]. done.
Qed.

Lemma sweep_absent ts s k : NoDup (tn_name <$> ts) → k ∈ sw_absent (foldl (sweep_tenant ps before) s ts) →
  k ∈ sw_absent s ∨ ∃ t r, active ts t ∧ visited s t = Some r ∧ k ∈ r.1.1.2.
Proof.
  revert s. induction ts as [|x ts IH]; intros s Hnd Hk; [by left|]. cbn [foldl] in Hk. rewrite fmap_cons in Hnd. apply NoDup_cons in Hnd as [Hx Hnd].
  apply IH in Hk as [Hk|(t & r & Ha & Hv & Hk)]; [| |done].
  - apply sweep_tenant_absent in Hk as [?|(Hp & r & Hv & Hk)]; [by left|]. right. exists (tn_name x), r. split_and!; [|done..]. apply active_cons. by left.
  - right. exists t, r. split_and!; [apply active_cons; by right| |done]. rewrite visited_other in Hv; [done|].
    intros <-. destruct Ha as (y & Hy & Heq & _). apply Hx. rewrite <-Heq. by apply list_elem_of_fmap_2.
Qed.

Lemma sweep_absent_grows ts s k : k ∈ sw_absent s → k ∈ sw_absent (foldl (sweep_tenant ps before) s ts).
Proof.
  revert s. induction ts as [|x ts IH]; intros s Hk; [done|]. cbn [foldl]. apply IH. unfold sweep_tenant. destruct (tn_purging x); [done|].
  destruct (sw_text s !! tn_name x); [|done]. destruct (pass_tenant _ _ _ _ _) as [[[[[text' doc'] absent] placed] removed]|]; [|done]. cbn. by apply elem_of_union_r.
Qed.

Lemma sweep_absent_back ts s t r k : NoDup (tn_name <$> ts) → active ts t → visited s t = Some r → k ∈ r.1.1.2 →
  k ∈ sw_absent (foldl (sweep_tenant ps before) s ts).
Proof.
  revert s. induction ts as [|x ts IH]; intros s Hnd Ha Hv Hk; [by destruct Ha as (y & Hy%not_elem_of_nil & _)|]. cbn [foldl].
  rewrite fmap_cons in Hnd. apply NoDup_cons in Hnd as [Hx Hnd]. apply active_cons in Ha as [[<- Hp]|Ha].
  - apply sweep_absent_grows. unfold sweep_tenant. rewrite Hp. unfold visited in Hv. destruct (sw_text s !! tn_name x); [|done]. cbn [mbind option_bind] in Hv. rewrite Hv.
    destruct r as [[[[text' doc'] absent] placed] removed]. cbn in *. by apply elem_of_union_l.
  - apply IH; [done..| |done]. rewrite visited_other; [done|]. intros <-. destruct Ha as (y & Hy & Heq & _). apply Hx. rewrite <-Heq. by apply list_elem_of_fmap_2.
Qed.
End Sweep.

(** ** What a pass does to a manifest *)

Section OneTenant.
Context `{Yaml} (ps : pass) (Hat : clean (me_moved_at (ps_meta ps)) = true) (Hby : clean (me_mover (ps_meta ps)) = true).

Definition no_addons (w : write) : Prop := match w with ByAddons _ _ _ => False | _ => True end.

Lemma write_app_spec t p w m text' changed : wf 2 m → no_addons w → write_app ps t p w (text_of 2 m) = Ok (text', changed) →
  ∃ m', text' = text_of 2 m' ∧ rewritten m m' p ∧ meant w (ps_meta ps) (body_in m p) (body_in m' p) ∧ (changed = false → m' = m).
Proof.
  intros Hwf Hno. unfold write_app. destruct (ps_write ps t p); [done|].
  assert (refined t p (ps_meta ps) m w) as Hr.
  { destruct w; [by apply install_refined|by apply uninstall_refined|by apply retry_refined|by apply update_mode_refined|done|by apply place_refined|by apply unplace_refined]. }
  unfold refined in Hr. destruct (edit t p (ps_meta ps) w (text_of 2 m)) as [[[text1 status] ch]|]; [|done]. destruct Hr as (m' & -> & Hrw & Hsame & Hm).
  intros [= <- <-]. destruct ch; [by exists m'|]. rewrite (Hsame eq_refl) in *. by exists m.
Qed.

Lemma placed_in_other m m' p q : rewritten m m' q → p ≠ q → placed_in m p → placed_in m' p.
Proof. intros Hrw Hne (b & Hb & Hp). exists b. by rewrite (rewritten_body_in _ _ _ _ Hrw Hne). Qed.

(** The entry of [p] is there, and the platform's. *)
Definition stands (p text : string) : Prop := ∃ m, wf 2 m ∧ text = text_of 2 m ∧ placed_in m p.

Lemma place_wanted_stands t have g name p : stands p (pg_text g) → stands p (pg_text (place_wanted ps t have g name)).
Proof.
  intros (m & Hwf & Ht & Hp). unfold place_wanted. case_bool_decide; [by exists m|]. rewrite Ht.
  destruct (write_app ps t name _ _) as [[text' ch]|] eqn:E; [|by exists m]. apply write_app_spec in E as (m' & -> & Hrw & Hm & _); [|done..].
  exists m'. split_and!; [apply Hrw|done|]. destruct (decide (p = name)) as [->|Hne]; [|by eapply placed_in_other].
  destruct Hm as (b' & Hb' & Hp' & _). by exists b'.
Qed.

Lemma take_away_stands t s before g a p : (app_profile a = p → withdrawn s a = true → absent_key t p ∉ before) →
  stands p (pg_text g) → stands p (pg_text (take_away ps t s before g a)).
Proof.
  intros Hno (m & Hwf & Ht & Hp). unfold take_away. destruct (withdrawn s a) eqn:Ew; [|by exists m]. cbn [negb]. case_bool_decide as Hb; [|by exists m]. cbn [negb].
  rewrite Ht. destruct (write_app ps t _ _ _) as [[text' ch]|] eqn:E; [|by exists m]. apply write_app_spec in E as (m' & -> & Hrw & _); [|done..].
  exists m'. split_and!; [apply Hrw|done|]. eapply placed_in_other; [exact Hrw| |done]. intros Heq. apply Hno; [done|done|]. by rewrite Heq.
Qed.

Lemma hand_stands t q w m text' ch p : wf 2 m → no_addons w → by_hand w = true → write_app ps t q w (text_of 2 m) = Ok (text', ch) →
  placed_in m p → stands p text'.
Proof.
  intros Hwf Hno Hw (m' & -> & Hrw & Hm & _)%write_app_spec Hp; [|done..]. exists m'. split_and!; [apply Hrw|done|].
  destruct (decide (p = q)) as [->|Hne]; [|by eapply placed_in_other]. destruct Hp as (b & Hb & Hpl). exists b.
  split; [|done]. rewrite <-Hb. by eapply meant_by_hand.
Qed.

Lemma capability_one_stands t have g c p : stands p (pg_text g) → stands p (pg_text (capability_one ps t have g c)).
Proof.
  intros (m & Hwf & Ht & Hp). unfold capability_one. cbv zeta. rewrite Ht. destruct (ca_wanted c && _).
  - destruct (ps_materialise ps t c) as [source|]; cbn [mbind result_bind]; [|by exists m].
    destruct (write_app ps t _ _ _) as [[text' ch]|] eqn:E; [|by exists m]. cbn. by eapply hand_stands in E.
  - destruct (negb _ && _); [|by exists m]. destruct (write_app ps t _ _ _) as [[text' ch]|] eqn:E; [|by exists m]. cbn. by eapply hand_stands in E.
Qed.

Lemma foldl_keeps {A B} (P : A → Prop) (f : A → B → A) l a : (∀ x b, b ∈ l → P x → P (f x b)) → P a → P (foldl f a l).
Proof.
  revert a. induction l as [|b l IH]; intros a Hf Ha; [done|]. cbn [foldl]. apply IH; [|apply Hf; [left|done]]. intros x c Hc. apply Hf. by right.
Qed.

(** Why an app may be taken away: the answer withdrew it, and so did the one before. *)
Definition withdraws (t text p : string) : Prop := ∃ answer apps a, ps_answer ps = Ok answer ∧ yaml_apps text = Ok apps ∧ a ∈ apps
  ∧ app_profile a = p ∧ withdrawn (For answer (adoptsAnotherRealm text t)) a = true.

Lemma pass_tenant_stands before t text doc r p : pass_tenant ps before t text doc = Some r → stands p text →
  stands p r.1.1.1.1 ∨ withdraws t text p ∧ absent_key t p ∈ before.
Proof.
  unfold pass_tenant. destruct (ps_realm ps t); [done|]. destruct (ps_apps ps t); [done|]. destruct (yaml_apps text) as [apps|] eqn:Ey; [|done]. cbv zeta.
  intros Hr Hs. assert (∀ g, stands p (pg_text g) →
    stands p (pg_text (if adoptsAnotherRealm text t then g else foldl (capability_one ps t (app_profile <$> apps)) g (ps_capability ps)))) as Hcap.
  { intros g Hg. destruct (adoptsAnotherRealm text t); [done|]. apply (foldl_keeps (λ g, stands p (pg_text g))); [|done]. intros x c _. apply capability_one_stands. }
  destruct (ps_answer ps) as [answer|] eqn:Ea; [|injection Hr as <-; left; by apply Hcap]. injection Hr as <-. cbn [fst snd].
  destruct (decide (absent_key t p ∈ before)) as [Hin|Hin].
  - destruct (decide (Exists (λ a, app_profile a = p ∧ withdrawn (For answer (adoptsAnotherRealm text t)) a = true) apps)) as [Hex|Hex].
    + right. split; [|done]. apply Exists_exists in Hex as (a & Ha & Hp & Hw). by exists answer, apps, a.
    + left. apply Hcap. unfold follow_answer. cbv zeta. apply (foldl_keeps (λ g, stands p (pg_text g))).
      * intros x a Ha. apply take_away_stands. intros Hp Hw _. apply Hex, Exists_exists. by exists a.
      * apply (foldl_keeps (λ g, stands p (pg_text g))); [|done]. intros x n _. apply place_wanted_stands.
  - left. apply Hcap. unfold follow_answer. cbv zeta. apply (foldl_keeps (λ g, stands p (pg_text g))).
    + intros x a Ha. by apply take_away_stands.
    + apply (foldl_keeps (λ g, stands p (pg_text g))); [|done]. intros x n _. apply place_wanted_stands.
Qed.
End OneTenant.

Lemma pass_tenant_absent `{Yaml} ps before t text doc r k : pass_tenant ps before t text doc = Some r → k ∈ r.1.1.2 →
  ∃ p, k = absent_key t p ∧ withdraws ps t text p.
Proof.
  unfold pass_tenant. destruct (ps_realm ps t); [done|]. destruct (ps_apps ps t); [done|]. destruct (yaml_apps text) as [apps|] eqn:Ey; [|done]. cbv zeta.
  destruct (ps_answer ps) as [answer|] eqn:Ea; intros [= <-]; cbn [fst snd]; [|by intros ?%not_elem_of_empty]. unfold absent_of.
  intros (a & Ha & Hk)%elem_of_list_to_set%list_elem_of_omap. destruct (withdrawn _ a) eqn:Ew; [|done]. injection Hk as <-.
  exists (app_profile a). split; [done|]. by exists answer, apps, a.
Qed.

(** ** Pass after pass *)

(** A pass that got an answer and the tenants. *)
Definition completed (ps : pass) : bool := negb (ps_busy ps) && is_ok (ps_answer ps) && is_ok (ps_tenants ps).

(** The tenants are listed once each, under names with no slash, and what the commits say
    of who and when is on one line. *)
Record sane (ps : pass) : Prop := {
  sa_at : clean (me_moved_at (ps_meta ps)) = true;
  sa_by : clean (me_mover (ps_meta ps)) = true;
  sa_once : ∀ ts, ps_tenants ps = Ok ts → NoDup (tn_name <$> ts);
  sa_names : ∀ ts x, ps_tenants ps = Ok ts → x ∈ ts → contains_byte (tn_name x) "/" = false }.

Definition found_withdrawn `{Yaml} (ps : pass) (w : world) (t p : string) : Prop :=
  completed ps = true ∧ (∃ ts, ps_tenants ps = Ok ts ∧ active ts t) ∧ ∃ text, wo_text w !! t = Some text ∧ withdraws ps t text p.

(** The passes of a director since it started, each with the world it met; others write
    between them. *)
Inductive history `{Yaml} : list (pass * world) → world → Prop :=
  | started w : wo_absent w = ∅ → history [] w
  | passed_over tr w ps : history tr w → sane ps → history (tr ++ [(ps, w)]) (placePlatformApps ps w).1
  | others_wrote tr w text grants : history tr w → history tr (mkWorld text grants (wo_absent w)).

Lemma absent_key_inj t p t' p' : contains_byte t "/" = false → contains_byte t' "/" = false → absent_key t p = absent_key t' p' → t = t' ∧ p = p'.
Proof. intros Ht Ht'. unfold absent_key. intros Heq. by apply app_sep_inj in Heq. Qed.

Lemma incomplete_keeps `{Yaml} ps w : completed ps = false → wo_absent (placePlatformApps ps w).1 = wo_absent w.
Proof.
  unfold completed, placePlatformApps. destruct (ps_busy ps); [done|]. cbn [negb andb]. destruct (ps_answer ps); cbn [is_ok negb andb].
  - by destruct (ps_tenants ps).
  - intros _. destruct (bool_decide _); [done|]. by destruct (ps_tenants ps).
Qed.

Lemma pass_found `{Yaml} ps w t p : sane ps → completed ps = true → contains_byte t "/" = false →
  absent_key t p ∈ wo_absent (placePlatformApps ps w).1 → found_withdrawn ps w t p.
Proof.
  intros Hs Hc Ht. pose proof Hc as Hc'. unfold completed in Hc. apply andb_true_iff in Hc as [Hc Hts]. apply andb_true_iff in Hc as [Hb Ha].
  unfold placePlatformApps. apply negb_true_iff in Hb. rewrite Hb, Ha. cbn [negb andb]. destruct (ps_tenants ps) as [ts|] eqn:Ets; [|done]. cbn [fst wo_absent].
  intros [Hk|(t' & r & Hact & Hv & Hk)]%sweep_absent; [by apply not_elem_of_empty in Hk| |by apply Hs].
  unfold visited in Hv. destruct (wo_text w !! t') as [text|] eqn:Et; cbn [sw_text] in Hv; rewrite Et in Hv; [|done]. cbn [mbind option_bind] in Hv.
  destruct (pass_tenant_absent _ _ _ _ _ _ _ Hv Hk) as (p' & Hkey & Hw).
  assert (contains_byte t' "/" = false) as Ht'. { destruct Hact as (x & Hx & <- & _). by apply (sa_names ps Hs ts). }
  destruct (absent_key_inj _ _ _ _ Ht Ht' Hkey) as [<- <-]. split; [done|]. split; [by exists ts|by exists text].
Qed.

(** What the worker remembers of an app is that the last pass that completed found it
    withdrawn. *)
Lemma remembered `{Yaml} tr w t p : history tr w → contains_byte t "/" = false → absent_key t p ∈ wo_absent w →
  ∃ pre ps0 w0 post, tr = pre ++ (ps0, w0) :: post ∧ found_withdrawn ps0 w0 t p ∧ Forall (λ x, completed x.1 = false) post.
Proof.
  intros Hh Ht. induction Hh as [w Hw|tr w ps Hh IH Hs|tr w text grants Hh IH]; intros Hk.
  - rewrite Hw in Hk. by apply not_elem_of_empty in Hk.
  - destruct (completed ps) eqn:Ec.
    + exists tr, ps, w, []. split_and!; [done|by apply pass_found|constructor].
    + rewrite incomplete_keeps in Hk by done. destruct (IH Hk) as (pre & ps0 & w0 & post & -> & Hf & Hpost).
      exists pre, ps0, w0, (post ++ [(ps, w)]). rewrite <-app_assoc. split_and!; [done|done|]. apply Forall_app. split; [done|]. by repeat constructor.
  - by apply IH.
Qed.

(** In whatever history of passes, with others writing between them, an app the platform
    placed stands after a pass as it stood before, unless the answer of that pass
    withdrew it, and the last pass before that got an answer and the tenants withdrew it
    as well. *)
Theorem taken_away_after_two_passes `{Yaml} tr w ps t text p : history tr w → sane ps → contains_byte t "/" = false →
  wo_text w !! t = Some text → stands p text →
  (∃ text', wo_text (placePlatformApps ps w).1 !! t = Some text' ∧ stands p text')
  ∨ found_withdrawn ps w t p
    ∧ ∃ pre ps0 w0 post, tr = pre ++ (ps0, w0) :: post ∧ found_withdrawn ps0 w0 t p ∧ Forall (λ x, completed x.1 = false) post.
Proof.
  intros Hh Hs Ht Htext Hstands. unfold placePlatformApps. destruct (ps_busy ps) eqn:Eb; [left; by exists text|].
  destruct (negb _ && _) eqn:En; [left; by exists text|]. destruct (ps_tenants ps) as [ts|] eqn:Ets; [|left; by exists text]. cbn [fst wo_text].
  destruct (decide (Exists (λ x, tn_name x = t ∧ tn_purging x = false) ts)) as [Hact|Hact].
  2:{ left. exists text. rewrite sweep_skips; [done|]. intros (x & Hx & ? & ?). apply Hact, Exists_exists. by exists x. }
  assert (active ts t) as Ha by (apply Exists_exists in Hact as (x & ? & ? & ?); by exists x).
  rewrite sweep_visits by (done || by apply Hs). unfold text_after, visited. cbn [sw_text sw_grants]. rewrite Htext. cbn [mbind option_bind].
  destruct (pass_tenant _ _ _ _ _) as [r|] eqn:Er; [|left; by exists text].
  destruct (pass_tenant_stands ps (sa_at ps Hs) (sa_by ps Hs) _ _ _ _ _ p Er Hstands) as [Hstill|[Hw Hk]]; [left; by eexists|right].
  split; [|by eapply remembered]. destruct Hw as (answer & Hw'). split; [|split; [by exists ts|]].
  - unfold completed. rewrite Eb, Ets. destruct Hw' as (apps & a & -> & _). done.
  - exists text. split; [done|]. by exists answer.
Qed.

(** ** Manifests stay manifests *)

(** The text of a well-formed manifest with the lines of [m] before and after its list. *)
Definition keeps_around (m : manifest) (text : string) : Prop := ∃ m', wf 2 m' ∧ text = text_of 2 m' ∧ mf_head m' = mf_head m ∧ mf_tail m' = mf_tail m.

Section Around.
Context `{Yaml} (ps : pass) (Hsane : sane ps) (m : manifest).

Lemma write_app_around t p w text text' ch : no_addons w → keeps_around m text → write_app ps t p w text = Ok (text', ch) → keeps_around m text'.
Proof.
  intros Hno (m1 & Hwf & -> & Hh & Htl) (m' & -> & [Hwf' Hh' Htl' _] & _)%(write_app_spec ps (sa_at _ Hsane) (sa_by _ Hsane)); [|done..].
  exists m'. split_and!; congruence.
Qed.

Lemma follow_around t answer platform before apps text : keeps_around m text → keeps_around m (pg_text (follow_answer ps t answer platform before apps text)).
Proof.
  intros Ha. unfold follow_answer. cbv zeta. apply (foldl_keeps (λ g, keeps_around m (pg_text g))).
  - intros g a _ Hg. unfold take_away. do 2 (destruct (negb _); [done|]). destruct (write_app _ _ _ _ _) as [[text' ch]|] eqn:E; [|done]. eapply write_app_around; [|first [exact Hg|exact Ha]|exact E]; exact I.
  - apply (foldl_keeps (λ g, keeps_around m (pg_text g))); [|done].
    intros g a _ Hg. unfold place_wanted. case_bool_decide; [done|]. destruct (write_app _ _ _ _ _) as [[text' ch]|] eqn:E; [|done]. eapply write_app_around; [|first [exact Hg|exact Ha]|exact E]; exact I.
Qed.

Lemma capability_around t have g c : keeps_around m (pg_text g) → keeps_around m (pg_text (capability_one ps t have g c)).
Proof.
  intros Ha. unfold capability_one. cbv zeta. destruct (ca_wanted c && _).
  - destruct (ps_materialise ps t c) as [source|]; [|done]. cbn [mbind result_bind].
    destruct (write_app ps t _ _ _) as [[text' ch]|] eqn:E; [|done]. eapply write_app_around; [|first [exact Hg|exact Ha]|exact E]; exact I.
  - destruct (negb _ && _); [|done]. destruct (write_app ps t _ _ _) as [[text' ch]|] eqn:E; [|done]. eapply write_app_around; [|first [exact Hg|exact Ha]|exact E]; exact I.
Qed.

Lemma pass_tenant_around before t text doc r : keeps_around m text → pass_tenant ps before t text doc = Some r → keeps_around m r.1.1.1.1.
Proof.
  intros Ha. unfold pass_tenant. destruct (ps_realm ps t), (ps_apps ps t), (yaml_apps text) as [apps|]; try discriminate. cbv zeta.
  assert (∀ g, keeps_around m (pg_text g) → keeps_around m (pg_text (if adoptsAnotherRealm text t then g else foldl (capability_one ps t (app_profile <$> apps)) g (ps_capability ps)))) as Hcap.
  { intros g Hg. destruct (adoptsAnotherRealm text t); [done|]. apply (foldl_keeps (λ g, keeps_around m (pg_text g))); [|done]. intros. by apply capability_around. }
  destruct (ps_answer ps) as [answer|]; intros [= <-]; cbn [fst]; apply Hcap; [by apply follow_around|done].
Qed.
End Around.

(** A pass of the worker, or a write by anyone of one tenant's app list. *)
Inductive moves `{Yaml} : world → world → Prop :=
  | worker_passes ps w : sane ps → moves w (placePlatformApps ps w).1
  | someone_writes t p meta x w text text' status changed : clean (me_moved_at meta) = true → clean (me_mover meta) = true → pins_fit text →
      wo_text w !! t = Some text → edit t p meta x text = Ok (text', status, changed) →
      moves w (mkWorld (<[t := text']> (wo_text w)) (wo_grants w) (wo_absent w)).

Lemma moves_around `{Yaml} w w' t m text : moves w w' → wo_text w !! t = Some text → keeps_around m text → ∃ text', wo_text w' !! t = Some text' ∧ keeps_around m text'.
Proof.
  intros Hmv Htext Ha. destruct Hmv as [ps w Hs|t' p meta x w text1 text' status changed Hat Hby Hfit Ht' He]; cbn [wo_text].
  - unfold placePlatformApps. destruct (ps_busy ps); [by exists text|]. destruct (negb _ && _); [by exists text|].
    destruct (ps_tenants ps) as [ts|] eqn:Ets; [|by exists text]. cbn [fst wo_text].
    destruct (decide (Exists (λ x, tn_name x = t ∧ tn_purging x = false) ts)) as [(x & ? & ? & ?)%Exists_exists|Hact].
    2:{ exists text. rewrite sweep_skips; [done|]. intros (x & Hx & ? & ?). apply Hact, Exists_exists. by exists x. }
    rewrite sweep_visits by (by (apply Hs) || by exists x). unfold text_after, visited. cbn [sw_text sw_grants]. rewrite Htext. cbn [mbind option_bind].
    destruct (pass_tenant _ _ _ _ _) as [r|] eqn:Er; [|by exists text]. eexists. split; [done|]. by eapply pass_tenant_around.
  - destruct (decide (t' = t)) as [->|Hne]; [|rewrite lookup_insert_ne by done; by exists text]. rewrite lookup_insert_eq. exists text'. split; [done|].
    rewrite Htext in Ht'. injection Ht' as <-. destruct Ha as (m1 & Hwf & -> & Hh & Htl). pose proof (write_refined t p meta x m1 Hwf Hat Hby Hfit) as Hr.
    unfold refined in Hr. rewrite He in Hr. destruct Hr as (m' & -> & [Hwf' Hh' Htl' _] & _). exists m'. split_and!; congruence.
Qed.

(** C20: Whatever the worker's passes and people's writes make of a tenant's manifest, in
    whatever order: it stays a well-formed one, with each app once, and every line before
    and after its list as it was. *)
Theorem manifests_stay_well_formed `{Yaml} w w' t m : rtc moves w w' → wf 2 m → wo_text w !! t = Some (text_of 2 m) →
  ∃ m', wf 2 m' ∧ wo_text w' !! t = Some (text_of 2 m') ∧ mf_head m' = mf_head m ∧ mf_tail m' = mf_tail m.
Proof.
  intros Hrun Hwf Htext. assert (keeps_around m (text_of 2 m)) as Ha by by exists m. revert Htext Ha. generalize (text_of 2 m) as text.
  induction Hrun as [w|w w1 w' Hmv _ IH]; intros text Htext Ha.
  - destruct Ha as (m' & ? & -> & ? & ?). by exists m'.
  - destruct (moves_around w w1 t m text Hmv Htext Ha) as (text' & Htext' & Ha'). by eapply IH.
Qed.

(** ** Where the passes lead *)

Definition marked (body : list string) : bool := bool_decide (reads body appPlacedKey = "true").
(** The entry a placed app has at first: its mark, and the blank lines it came to stand before. *)
Definition marked_only (body : list string) : Prop := ∃ gap, body = key_line 4 appPlacedKey "true" :: gap ∧ Forall (λ l, blank l = true) gap.
(** The entry of an app installed for everyone: the build it is at, and those lines. *)
Definition installed_only (body : list string) : Prop := ∃ digest catalogue gap, valid_build digest catalogue = Ok tt
  ∧ body = new_body digest catalogue true ++ gap ∧ Forall (λ l, blank l = true) gap.

(** What a YAML decoder makes of the manifests it reads ([readable]): their entries, in
    their order, with their mark, and a realm that stands outside the list of apps.  A
    manifest stays readable when entries are dropped and entries with the mark alone come
    in, or entries with the build they are installed at. *)
Class YamlLaws `{Yaml} (readable : manifest → Prop) : Prop := {
  yaml_lists : ∀ m, wf 2 m → readable m → ∃ apps, yaml_apps (text_of 2 m) = Ok apps
    ∧ ((λ a, (app_profile a, app_placed a)) <$> apps) = ((λ e, (en_profile e, marked (en_body e))) <$> mf_apps m);
  yaml_realm_outside : ∀ m m', wf 2 m → wf 2 m' → readable m → readable m' → mf_head m' = mf_head m → mf_tail m' = mf_tail m →
    yaml_realm (text_of 2 m') = yaml_realm (text_of 2 m);
  yaml_stays_readable : ∀ m m', wf 2 m → wf 2 m' → readable m → mf_head m' = mf_head m → mf_tail m' = mf_tail m →
    (∀ e, e ∈ mf_apps m' → e ∈ mf_apps m ∨ marked_only (en_body e) ∨ installed_only (en_body e)) → readable m' }.

(** Whether an app is in the list, and whether the platform placed it. *)
Definition mark (m : manifest) (p : string) : option bool := marked <$> body_in m p.

(** Where an app of a tenant ends up under an answer that stands. *)
Definition settled (s : PSet) (p : string) (o : option bool) : option bool :=
  match o with
  | Some false => Some false
  | Some true => if negb (Has s p) && Decided s p then None else Some true
  | None => if Has s p then Some true else None
  end.
(** After one pass: an app is taken away only if it was remembered. *)
Definition after_pass (s : PSet) (before : bool) (p : string) (o : option bool) : option bool :=
  match o with
  | Some false => Some false
  | Some true => if negb (Has s p) && Decided s p && before then None else Some true
  | None => if Has s p then Some true else None
  end.

Lemma two_passes_settle s p o b :
  after_pass s (match o with Some true => negb (Has s p) && Decided s p | _ => false end) p (after_pass s b p o) = settled s p o.
Proof. unfold after_pass, settled. destruct (Has s p), (Decided s p), b, o as [[]|]; done. Qed.

Lemma settled_twice s p o : settled s p (settled s p o) = settled s p o.
Proof. unfold settled. destruct (Has s p), (Decided s p), o as [[]|]; done. Qed.

(** The manifest around the apps, and the tenant's own entries line by line, [lost] apart. *)
Record kept (lost : string → Prop) (m m' : manifest) : Prop := {
  kp_wf : wf 2 m';
  kp_head : mf_head m' = mf_head m;
  kp_tail : mf_tail m' = mf_tail m;
  kp_own : ∀ p b, body_in m p = Some b → ¬ placed b → ¬ lost p → body_in m' p = Some b;
  kp_entries : ∀ e, e ∈ mf_apps m' → e ∈ mf_apps m ∨ marked_only (en_body e) ∨ installed_only (en_body e) }.

Lemma kept_refl lost m : wf 2 m → kept lost m m.
Proof. constructor; try done. by left. Qed.
Lemma kept_trans lost m1 m2 m3 : kept lost m1 m2 → kept lost m2 m3 → kept lost m1 m3.
Proof. intros [? ? ? ? ?] [? ? ? ? ?]. constructor; [done|congruence..|naive_solver|naive_solver]. Qed.

Lemma in_body m e : NoDup (en_profile <$> mf_apps m) → e ∈ mf_apps m → body_in m (en_profile e) = Some (en_body e).
Proof.
  intros Hnd He. unfold body_in. induction (mf_apps m) as [|x l IH]; [by apply not_elem_of_nil in He|].
  rewrite fmap_cons in Hnd. apply NoDup_cons in Hnd as [Hx Hnd]. cbn [body_among].
  apply elem_of_cons in He as [<-|He]; [by rewrite decide_True|]. rewrite decide_False; [by apply IH|]. intros Heq. apply Hx. rewrite Heq. by apply list_elem_of_fmap_2.
Qed.

Lemma rewritten_entries m m' p e : rewritten m m' p → e ∈ mf_apps m' → e ∈ mf_apps m ∨ en_profile e = p ∧ body_in m' p = Some (en_body e).
Proof.
  intros Hrw He. destruct (decide (en_profile e = p)) as [<-|Hne].
  { right. split; [done|]. apply in_body; [|done]. apply (wf_once 2), (rw_wf _ _ _ Hrw). }
  left.
  assert (e ∈ filter (λ e, en_profile e ≠ p) (mf_apps m)) as Hf by (rewrite <-(rw_others _ _ _ Hrw); by apply list_elem_of_filter).
  apply list_elem_of_filter in Hf. apply Hf.
Qed.

Lemma mark_own m p : mark m p = Some false ↔ ∃ b, body_in m p = Some b ∧ ¬ placed b.
Proof.
  unfold mark, marked, placed. destruct (body_in m p) as [b|]; cbn; [|naive_solver]. split.
  - intros [= ?%bool_decide_eq_false]. by exists b.
  - intros (b' & [= <-] & ?). by rewrite bool_decide_eq_false_2.
Qed.
Lemma mark_placed m p : mark m p = Some true ↔ placed_in m p.
Proof.
  unfold mark, marked, placed_in, placed. destruct (body_in m p) as [b|]; cbn; [|naive_solver]. split.
  - intros [= ?%bool_decide_eq_true]. by exists b.
  - intros (b' & [= <-] & ?). by rewrite bool_decide_eq_true_2.
Qed.
Lemma mark_other m m' q p : rewritten m m' q → p ≠ q → mark m' p = mark m p.
Proof. intros Hrw Hne. unfold mark. by rewrite (rewritten_body_in _ _ _ _ Hrw Hne). Qed.
Lemma mark_None m p : mark m p = None ↔ p ∉ en_profile <$> mf_apps m.
Proof. unfold mark. rewrite fmap_None. apply body_in_None. Qed.

Lemma Place_Ok p meta text : ValidName p = true → ∃ r, Place p "" "" false meta text = Ok r.
Proof.
  intros Hp. unfold Place, valid_name. rewrite Hp. cbn [mbind result_bind]. unfold valid_build. cbn. unfold placeEntry. cbv zeta.
  destruct (negb _); [by eexists|]. destruct (setAppEntryKey _ _ _ _ _) as [lines marked]. cbn. destruct marked; by eexists.
Qed.
Lemma Unplace_Ok p text : ValidName p = true → ∃ r, Unplace p text = Ok r.
Proof.
  intros Hp. unfold Unplace, valid_name. rewrite Hp. cbn [mbind result_bind]. destruct (negb _); [by eexists|].
  destruct (removeAppEntry text p); [|by eexists]. case_bool_decide; by eexists.
Qed.

(** What the decoder says of an app is its mark. *)
Section Listed.
Context (m : manifest) (apps : list App) (Hwf : wf 2 m).
Context (Hlist : ((λ a, (app_profile a, app_placed a)) <$> apps) = ((λ e, (en_profile e, marked (en_body e))) <$> mf_apps m)).

Lemma mark_entry p b : mark m p = Some b ↔ ∃ e, e ∈ mf_apps m ∧ en_profile e = p ∧ marked (en_body e) = b.
Proof.
  unfold mark. split.
  - destruct (body_in m p) as [body|] eqn:E; [|done]. intros [= <-]. apply body_in_Some in E as (pre & post & Hl & _); [|apply Hwf].
    exists (mkEntry p body). split_and!; [|done..]. rewrite Hl. apply elem_of_app. right. left.
  - intros (e & He & <- & <-). by rewrite (in_body m e (wf_once 2 m Hwf) He).
Qed.

Lemma listed p b : (∃ a, a ∈ apps ∧ app_profile a = p ∧ app_placed a = b) ↔ mark m p = Some b.
Proof.
  rewrite mark_entry. assert ((p, b) ∈ ((λ a, (app_profile a, app_placed a)) <$> apps) ↔ (p, b) ∈ ((λ e, (en_profile e, marked (en_body e))) <$> mf_apps m)) as Hin by (by rewrite Hlist).
  rewrite !list_elem_of_fmap in Hin. split.
  - intros (a & Ha & <- & <-). destruct (proj1 Hin) as (e & [= ? ?] & He); [by exists a|exists e; split_and!; congruence].
  - intros (e & He & <- & <-). destruct (proj2 Hin) as (a & [= ? ?] & Ha); [by exists e|exists a; split_and!; congruence].
Qed.

Lemma listed_names p : p ∈ app_profile <$> apps ↔ mark m p ≠ None.
Proof.
  rewrite list_elem_of_fmap. split.
  - intros (a & -> & Ha). rewrite (proj1 (listed (app_profile a) (app_placed a))) by (by exists a). done.
  - intros Hne. destruct (mark m p) as [b|] eqn:E; [|done]. apply listed in E as (a & Ha & <- & _). by exists a.
Qed.

Lemma listed_valid : Forall (λ a, ValidName (app_profile a) = true) apps.
Proof.
  apply Forall_forall. intros a Ha. assert (mark m (app_profile a) = Some (app_placed a)) as (e & He & <- & _)%mark_entry by (apply listed; by exists a).
  apply (ew_profile 2). eapply Forall_forall; [apply Hwf|done].
Qed.

Lemma listed_withdrawn s q : existsb (λ a, bool_decide (app_profile a = q) && withdrawn s a) apps
  = match mark m q with Some true => negb (Has s q) && Decided s q | _ => false end.
Proof.
  apply eq_true_iff_eq. rewrite existsb_exists. setoid_rewrite <-list_elem_of_In. setoid_rewrite andb_true_iff. setoid_rewrite bool_decide_eq_true. split.
  - intros (a & Ha & <- & Hw). unfold withdrawn in Hw. apply andb_true_iff in Hw as [Hw Hd]. apply andb_true_iff in Hw as [Hp Hh].
    rewrite (proj1 (listed (app_profile a) true)) by (by exists a). by rewrite Hh, Hd.
  - destruct (mark m q) as [[]|] eqn:E; [|done..]. apply listed in E as (a & Ha & <- & Hp). intros [Hh Hd]%andb_true_iff.
    exists a. split_and!; [done..|]. unfold withdrawn. by rewrite Hp, Hh, Hd.
Qed.
End Listed.

(** The names a set has are names of components, each once. *)
Definition orderly (s : PSet) : Prop := Forall (λ n, ValidName n = true) (st_wanted s) ∧ NoDup (st_wanted s).

(** What the operator decides is orderly when the profiles' names are. *)
Lemma Decide_orderly f platform : NoDup (cp_name <$> fa_profiles f) → Forall (λ n, ValidName n = true) (cp_name <$> fa_profiles f) →
  orderly (For (Decide f) platform).
Proof.
  intros Hnd Hv. destruct (Decide_names f platform) as (names & Hperm & Hsub). unfold orderly. rewrite Hperm. split.
  - apply Forall_forall. intros n Hn. apply (proj1 (Forall_forall _ _) Hv). by eapply elem_of_sublist.
  - by eapply sublist_NoDup.
Qed.

(** What a capability brings ([true]) or takes, by the app's name, and what becomes of the
    app: it is installed where it is missing, or uninstalled where it is the tenant's. *)
Fixpoint brought (cs : list capabilityApp) (q : string) : option bool :=
  match cs with [] => None | c :: cs => if decide (ca_name c = q) then Some (ca_wanted c) else brought cs q end.
Definition with_capability (cs : list capabilityApp) (q : string) (o : option bool) : option bool :=
  match brought cs q, o with
  | Some true, None => Some false
  | Some false, Some false => None
  | _, _ => o
  end.
(** The builds a capability brings can be made available. *)
Definition available (ps : pass) (t : string) (c : capabilityApp) : Prop := ca_wanted c = true →
  ValidName (ca_name c) = true ∧ ∃ source, ps_materialise ps t c = Ok source ∧ valid_build (ca_digest c) source = Ok tt.
(** The apps of a capability are not the answer's to place. *)
Definition apart (s : PSet) (cs : list capabilityApp) (m : manifest) : Prop :=
  ∀ c, c ∈ cs → Has s (ca_name c) = false ∧ mark m (ca_name c) ≠ Some true.

Lemma brought_None cs q : q ∉ ca_name <$> cs → brought cs q = None.
Proof. induction cs as [|c cs IH]; [done|]. rewrite fmap_cons, not_elem_of_cons. intros [Hne Hq]. cbn [brought]. rewrite decide_False by congruence. by apply IH. Qed.
Lemma brought_in cs c : NoDup (ca_name <$> cs) → c ∈ cs → brought cs (ca_name c) = Some (ca_wanted c).
Proof.
  induction cs as [|x cs IH]; [by intros _ []%not_elem_of_nil|]. rewrite fmap_cons. intros [Hx Hnd]%NoDup_cons [->|Hc]%elem_of_cons; cbn [brought].
  - by rewrite decide_True.
  - rewrite decide_False; [by apply IH|]. intros Heq. apply Hx. rewrite Heq. by apply list_elem_of_fmap_2.
Qed.
Lemma brought_Some cs q b : brought cs q = Some b → ∃ c, c ∈ cs ∧ ca_name c = q ∧ ca_wanted c = b.
Proof.
  induction cs as [|c cs IH]; [done|]. cbn [brought]. case_decide as Hd; [intros [= <-]; exists c; split_and!; [left|done..]|].
  intros (x & Hx & ? & ?)%IH. exists x. split_and!; [by right|done..].
Qed.

Lemma with_one c q o : with_capability [c] q o = if decide (q = ca_name c)
  then match ca_wanted c, o with true, None => Some false | false, Some false => None | _, _ => o end else o.
Proof.
  unfold with_capability. cbn [brought]. destruct (decide (ca_name c = q)) as [<-|Hne]; [rewrite decide_True by done|by rewrite decide_False by congruence].
  by destruct (ca_wanted c).
Qed.

(** The apps of a capability are as the cluster has them after one pass, and stay. *)
Lemma passes_settle s cs m b q : apart s cs m →
  with_capability cs q (after_pass s (match mark m q with Some true => negb (Has s q) && Decided s q | _ => false end) q
    (with_capability cs q (after_pass s b q (mark m q)))) = with_capability cs q (settled s q (mark m q)).
Proof.
  intros Hap. rewrite <-(two_passes_settle s q (mark m q) b). unfold with_capability. destruct (brought cs q) as [w|] eqn:Eb; [|done].
  apply brought_Some in Eb as (c & Hc & <- & _). destruct (Hap c Hc) as [Hh Hm]. unfold after_pass. rewrite Hh. destruct w, (mark m (ca_name c)) as [[]|]; done.
Qed.

Lemma settles_twice s cs m q : apart s cs m →
  settled s q (with_capability cs q (settled s q (mark m q))) = with_capability cs q (settled s q (mark m q)).
Proof.
  intros Hap. unfold with_capability. destruct (brought cs q) as [w|] eqn:Eb; [|apply settled_twice].
  apply brought_Some in Eb as (c & Hc & <- & _). destruct (Hap c Hc) as [Hh Hm]. unfold settled. rewrite Hh. destruct w, (mark m (ca_name c)) as [[]|]; done.
Qed.

Section Settling.
Context `{Yaml} (ps : pass) (Hsane : sane ps) (t : string) (Hwrite : ∀ p, ps_write ps t p = None) (lost : string → Prop).

Lemma mark_line gap : Forall (λ l, blank l = true) gap → (set_in 4 appPlacedKey "true" "" gap).1 = key_line 4 appPlacedKey "true" :: gap.
Proof.
  intros Hgap. unfold set_in. cbv zeta. destruct (list_find _ gap) as [[i l]|] eqn:E.
  - apply list_find_Some in E as (Hl & Hh & _). pose proof (Forall_lookup_1 _ _ _ _ Hgap Hl) as Hb. cbn in Hb.
    exfalso. apply (blank_no_key appPlacedKey l); [by apply key_in|done..].
  - rewrite bool_decide_eq_false_2 by done. cbn [fst]. rewrite (bool_decide_eq_true_2 (@eq string "" "")) by done. cbn [negb andb].
    assert (place_after (λ _, false) gap = 0) as Hat by (clear; induction gap as [|x l IH]; [done|]; cbn; by rewrite IH). by rewrite Hat.
Qed.

Lemma place_step m p : wf 2 m → ValidName p = true → mark m p = None → ∃ m',
  write_app ps t p (ByPlace "" "" false) (text_of 2 m) = Ok (text_of 2 m', true) ∧ kept lost m m'
  ∧ ∀ q, mark m' q = if decide (q = p) then Some true else mark m q.
Proof.
  intros Hwf Hp Hnone. assert (body_in m p = None) as Hb by (unfold mark in Hnone; by destruct (body_in m p)).
  unfold write_app. rewrite Hwrite. cbn [edit]. unfold Place, valid_name. rewrite Hp. cbn [mbind result_bind]. unfold valid_build. cbn [mbind result_bind].
  unfold placeEntry. rewrite (split_text 2 m Hwf). cbv zeta. rewrite (installed_in 2 m p Hwf), Hb. cbn.
  destruct (place_absent p (ps_meta ps) m Hwf "" "" false Hp Hb) as (m' & Ht & Hrw & (b' & Hb' & Hpl & _) & Hbody); [by left..|]. exists m'. rewrite Ht. split; [done|].
  unfold fresh_body in Hbody. cbn [new_body app] in Hbody. split; [constructor; [apply Hrw..| |]|].
  - intros q b Hq _ _. rewrite (rewritten_body_in _ _ _ _ Hrw); [done|congruence].
  - intros e [He|[_ He]]%(rewritten_entries _ _ _ _ Hrw); [by left|right; left]. rewrite Hbody in He. injection He as <-.
    exists (mf_gap m). assert (Forall (λ l, blank l = true) (mf_gap m)) as Hgap by (eapply Forall_impl; [apply Hwf|]; by intros l []).
    split; [by apply mark_line|done].
  - intros q. destruct (decide (q = p)) as [->|Hne]; [|by eapply mark_other]. apply mark_placed. by exists b'.
Qed.

Lemma unplace_step m p : wf 2 m → ValidName p = true → ∃ m' ch,
  write_app ps t p ByUnplace (text_of 2 m) = Ok (text_of 2 m', ch) ∧ kept lost m m'
  ∧ ∀ q, mark m' q = if decide (q = p ∧ mark m p = Some true) then None else mark m q.
Proof.
  intros Hwf Hp. destruct (write_app ps t p ByUnplace (text_of 2 m)) as [[text' ch]|e] eqn:E.
  - pose proof E as E'. apply (write_app_spec ps (sa_at _ Hsane) (sa_by _ Hsane)) in E' as (m' & -> & Hrw & Hm & _); [|done..]. exists m', ch. split; [done|]. cbn in Hm.
    split; [constructor; [apply Hrw..| |]|].
    + intros q b Hb Hnp _. destruct (decide (q = p)) as [->|Hne]; [|by rewrite (rewritten_body_in _ _ _ _ Hrw Hne)]. rewrite Hb in Hm. by apply Hm.
    + intros e [He|[<- He]]%(rewritten_entries _ _ _ _ Hrw); [by left|left]. destruct (body_in m (en_profile e)) as [b|] eqn:Eb; [|by rewrite Hm in He].
      destruct (decide (placed b)) as [Hpl|Hpl]; [by rewrite (proj1 Hm Hpl) in He|]. rewrite (proj2 Hm Hpl) in He. injection He as ->.
      apply body_in_Some in Eb as (pre & post & -> & _); [|apply Hwf]. apply elem_of_app. right. destruct e. left.
    + intros q. destruct (decide (q = p)) as [->|Hne]; [|rewrite decide_False by tauto; by eapply mark_other].
      destruct (decide (p = p ∧ mark m p = Some true)) as [[_ Hpl]|Hpl].
      * apply mark_placed in Hpl as (b & Hb & Hpl). rewrite Hb in Hm. unfold mark. by rewrite (proj1 Hm Hpl).
      * unfold mark. destruct (body_in m p) as [b|] eqn:Eb; [|by rewrite Hm]. rewrite (proj2 Hm); [done|]. intros Hpb. apply Hpl. split; [done|].
        apply mark_placed. by exists b.
  - unfold write_app in E. rewrite Hwrite in E. cbn [edit] in E. destruct (Unplace_Ok p (text_of 2 m) Hp) as [[[text1 status] ch] Hok]. by rewrite Hok in E.
Qed.

Lemma place_all names have m g : wf 2 m → Forall (λ n, ValidName n = true) names → NoDup names → (∀ p, p ∈ have ↔ mark m p ≠ None) → pg_text g = text_of 2 m →
  ∃ m', pg_text (foldl (place_wanted ps t have) g names) = text_of 2 m' ∧ kept lost m m'
    ∧ ∀ q, mark m' q = match mark m q with None => if decide (q ∈ names) then Some true else None | o => o end.
Proof.
  intros Hwf Hn Hnd Hhave Hg. induction names as [|n names IH] using rev_ind.
  - exists m. split_and!; [done|by apply kept_refl|]. intros q. rewrite decide_False by apply not_elem_of_nil. by destruct (mark m q).
  - apply Forall_app in Hn as [Hn Hv]. apply Forall_cons in Hv as [Hv _]. apply NoDup_app in Hnd as (Hnd & Hnew & _). destruct (IH Hn Hnd) as (m1 & Ht & Hk & Hm). rewrite foldl_app. cbn [foldl].
    set (g1 := foldl (place_wanted ps t have) g names) in *. unfold place_wanted. case_bool_decide as Hin.
    + exists m1. split_and!; [done..|]. intros q. rewrite Hm. destruct (mark m q) eqn:Eq; [done|]. apply Hhave in Hin.
      assert (q ≠ n) by congruence. destruct (decide (q ∈ names)) as [Hq|Hq].
      * by rewrite decide_True by (apply elem_of_app; by left).
      * rewrite decide_False; [done|]. rewrite elem_of_app, list_elem_of_singleton. tauto.
    + assert (mark m n = None) as Hnone. { destruct (mark m n) eqn:E; [|done]. exfalso. apply Hin, Hhave. congruence. }
      rewrite Ht. destruct (place_step m1 n) as (m2 & -> & Hk2 & Hm2);
        [apply Hk|done|rewrite Hm, Hnone, decide_False; [done|]; intros Hnn; by apply (Hnew n Hnn), list_elem_of_singleton|]. exists m2. split; [done|].
      split; [by eapply kept_trans|]. intros q. rewrite Hm2, Hm. destruct (decide (q = n)) as [->|Hne].
      * rewrite Hnone. by rewrite decide_True by (apply elem_of_app; right; left).
      * destruct (mark m q); [done|]. destruct (decide (q ∈ names)) as [Hq|Hq].
        -- by rewrite decide_True by (apply elem_of_app; by left).
        -- rewrite decide_False; [done|]. rewrite elem_of_app, list_elem_of_singleton. tauto.
Qed.

Definition gone_by (s : PSet) (before : gset string) (apps : list App) (q : string) : bool :=
  existsb (λ a, bool_decide (app_profile a = q) && withdrawn s a) apps && bool_decide (absent_key t q ∈ before).
Definition drop_mark (o : option bool) : option bool := match o with Some true => None | _ => o end.

Lemma take_all s before apps m g : wf 2 m → Forall (λ a, ValidName (app_profile a) = true) apps → pg_text g = text_of 2 m →
  ∃ m', pg_text (foldl (take_away ps t s before) g apps) = text_of 2 m' ∧ kept lost m m'
    ∧ ∀ q, mark m' q = if gone_by s before apps q then drop_mark (mark m q) else mark m q.
Proof.
  intros Hwf Hv Hg. induction apps as [|a apps IH] using rev_ind; [exists m; split_and!; [done|by apply kept_refl|done]|].
  apply Forall_app in Hv as [Hv Hva]. apply Forall_cons in Hva as [Hva _]. destruct (IH Hv) as (m1 & Ht & Hk & Hm). rewrite foldl_app. cbn [foldl].
  set (g1 := foldl (take_away ps t s before) g apps) in *.
  assert (∀ q, gone_by s before (apps ++ [a]) q
    = gone_by s before apps q || (bool_decide (app_profile a = q) && withdrawn s a && bool_decide (absent_key t q ∈ before))) as Hsnoc.
  { intros q. unfold gone_by. rewrite existsb_app. cbn [existsb]. rewrite orb_false_r. by rewrite andb_orb_distrib_l. }
  unfold take_away. destruct (withdrawn s a && bool_decide (absent_key t (app_profile a) ∈ before)) eqn:Ew.
  - apply andb_true_iff in Ew as [Ew Hb]. rewrite Ew, Hb. cbn [negb]. rewrite Ht.
    destruct (unplace_step m1 (app_profile a)) as (m2 & ch & -> & Hk2 & Hm2); [apply Hk|done|]. exists m2. split; [done|]. split; [by eapply kept_trans|].
    intros q. rewrite Hm2, Hsnoc, Ew, andb_true_r. destruct (decide (q = app_profile a)) as [->|Hne].
    + rewrite Hb, (bool_decide_eq_true_2 (app_profile a = app_profile a)) by done. rewrite orb_true_r, !Hm.
      destruct (gone_by s before apps (app_profile a)), (mark m (app_profile a)) as [[]|]; cbn; first [by rewrite decide_True|by rewrite decide_False by naive_solver].
    + rewrite decide_False by tauto. rewrite (bool_decide_eq_false_2 (app_profile a = q)) by congruence. by rewrite orb_false_r, Hm.
  - exists m1. assert (∀ q, gone_by s before (apps ++ [a]) q = gone_by s before apps q) as Hsame.
    { intros q. rewrite Hsnoc. destruct (decide (app_profile a = q)) as [<-|Hq].
      - rewrite <-andb_assoc, Ew, andb_false_r. apply orb_false_r.
      - rewrite (bool_decide_eq_false_2 (app_profile a = q)) by done. apply orb_false_r. }
    split; [destruct (withdrawn s a); cbn [negb andb] in *; [by rewrite Ew|done]|]. split; [done|]. intros q. by rewrite Hsame.
Qed.

Section Follow.
Context (m : manifest) (apps : list App) (answer : Answer) (platform : bool) (before : gset string) (Hwf : wf 2 m).
Context (Hlist : ((λ a, (app_profile a, app_placed a)) <$> apps) = ((λ e, (en_profile e, marked (en_body e))) <$> mf_apps m)).

Lemma follow_spec : orderly (For answer platform) →
  ∃ m', pg_text (follow_answer ps t answer platform before apps (text_of 2 m)) = text_of 2 m' ∧ kept lost m m'
    ∧ ∀ q, mark m' q = after_pass (For answer platform) (bool_decide (absent_key t q ∈ before)) q (mark m q).
Proof.
  intros [Hv Hnd]. unfold follow_answer. cbv zeta. set (s := For answer platform) in *. set (g0 := mkProgress _ _ _ _).
  destruct (place_all (st_wanted s) (app_profile <$> apps) m g0 Hwf Hv Hnd) as (m1 & Ht1 & Hk1 & Hm1); [intros p; by apply listed_names|done|].
  destruct (take_all s before apps m1 (foldl (place_wanted ps t (app_profile <$> apps)) g0 (st_wanted s))) as (m2 & Ht2 & Hk2 & Hm2);
    [apply Hk1|by eapply listed_valid|done|]. exists m2. split; [done|]. split; [by eapply kept_trans|]. intros q.
  rewrite Hm2, Hm1. unfold gone_by. rewrite (listed_withdrawn m apps Hwf Hlist). unfold after_pass.
  assert (Has s q = bool_decide (q ∈ st_wanted s)) as Hhas. { apply eq_true_iff_eq. unfold Has. rewrite existsb_string. by rewrite bool_decide_eq_true. }
  rewrite Hhas. destruct (mark m q) as [[]|]; cbn [andb drop_mark]; [|done|].
  - by destruct (_ && _ && _).
  - destruct (decide (q ∈ st_wanted s)); [by rewrite bool_decide_eq_true_2|by rewrite bool_decide_eq_false_2].
Qed.

(** Nothing to do where every app is where the answer has it. *)
Lemma follow_nothing : (∀ q, settled (For answer platform) q (mark m q) = mark m q) →
  pg_text (follow_answer ps t answer platform before apps (text_of 2 m)) = text_of 2 m.
Proof.
  intros Hset. unfold follow_answer. cbv zeta. set (s := For answer platform) in *. set (g0 := mkProgress _ _ _ _).
  assert (∀ l g, Forall (λ n, n ∈ app_profile <$> apps) l → foldl (place_wanted ps t (app_profile <$> apps)) g l = g) as Hplace.
  { intros l g Hl. induction Hl as [|n l Hn _ IH]; [done|]. cbn [foldl]. unfold place_wanted at 2. by rewrite bool_decide_eq_true_2. }
  assert (∀ l g, Forall (λ a, withdrawn s a = false) l → foldl (take_away ps t s before) g l = g) as Htake.
  { intros l g Hl. induction Hl as [|n l Hn _ IH]; [done|]. cbn [foldl]. unfold take_away at 2. by rewrite Hn. }
  rewrite Hplace, Htake; [done| |].
  - apply Forall_forall. intros a Ha. destruct (withdrawn s a) eqn:Ew; [|done]. unfold withdrawn in Ew. apply andb_true_iff in Ew as [Ew Hd]. apply andb_true_iff in Ew as [Hp Hh].
    specialize (Hset (app_profile a)). rewrite (proj1 (listed m apps Hwf Hlist (app_profile a) true)) in Hset by (by exists a). cbn in Hset. by rewrite Hh, Hd in Hset.
  - apply Forall_forall. intros n Hn. apply (listed_names m apps Hwf Hlist). intros Hnone. specialize (Hset n). rewrite Hnone in Hset. cbn in Hset.
    assert (Has s n = true) as Hh by (by apply existsb_string). by rewrite Hh in Hset.
Qed.
End Follow.

(** ** What comes with a capability *)

Lemma install_step m p digest source : wf 2 m → adoptsAnotherRealm (text_of 2 m) t = false → ValidName p = true → valid_build digest source = Ok tt →
  mark m p = None → ∃ m', write_app ps t p (ByInstall digest source (Some true)) (text_of 2 m) = Ok (text_of 2 m', true) ∧ kept lost m m'
    ∧ ∀ q, mark m' q = if decide (q = p) then Some false else mark m q.
Proof.
  intros Hwf Hrealm Hp Hbuild Hnone. assert (body_in m p = None) as Hb by (unfold mark in Hnone; by destruct (body_in m p)).
  destruct (build_clean _ _ Hbuild) as [Hd Hc]. pose proof (rewritten_inserted m p digest source true Hwf Hp Hb Hd Hc) as Hrw.
  exists (inserted m p (new_body digest source true)). assert (body_in (inserted m p (new_body digest source true)) p = Some (fresh_body m digest source true)) as Hnew.
  { unfold body_in. cbn. by rewrite decide_True. }
  split; [|split; [constructor; [apply Hrw..| |]|]].
  - unfold write_app. rewrite Hwrite. cbn [edit]. unfold InstallFrom, valid_name. rewrite Hp, Hbuild, Hrealm. cbn [mbind result_bind].
    rewrite (split_text 2 m Hwf). cbv zeta. unfold refusePlaced. rewrite (value_of_key 2 m p Hwf), (installed_in 2 m p Hwf), Hb.
    cbn [mbind result_bind negb default]. rewrite (bool_decide_eq_false_2 (@eq string "" "true")) by done. cbn [mbind result_bind id]. by rewrite (insert_text m) by done.
  - intros q b Hq _ _. rewrite (rewritten_body_in _ _ _ _ Hrw); [done|congruence].
  - intros e [He|[_ He]]%(rewritten_entries _ _ _ _ Hrw); [by left|right; right]. rewrite Hnew in He. injection He as <-.
    exists digest, source, (mf_gap m). split; [done|]. split; [done|]. eapply Forall_impl; [apply Hwf|]. by intros l [].
  - intros q. destruct (decide (q = p)) as [->|Hne]; [|by eapply mark_other]. unfold mark. rewrite Hnew. cbn. unfold marked, reads.
    by rewrite (fresh_value m digest source true Hwf Hd Hc appPlacedKey) by (by apply key_in).
Qed.

Lemma uninstall_step m p : wf 2 m → lost p → mark m p = Some false →
  ∃ m' ch, write_app ps t p ByUninstall (text_of 2 m) = Ok (text_of 2 m', ch) ∧ kept lost m m'
    ∧ ∀ q, mark m' q = if decide (q = p) then None else mark m q.
Proof.
  intros Hwf Hl Hown. pose proof Hown as (e & He & Hpe & _)%mark_entry; [|done]. assert (ValidName p = true) as Hp.
  { rewrite <-Hpe. apply (ew_profile 2). by apply (proj1 (Forall_forall _ _) (wf_apps 2 m Hwf)). }
  apply mark_own in Hown as (b & Hb & Hnp). destruct (write_app ps t p ByUninstall (text_of 2 m)) as [[text' ch]|err] eqn:E.
  - apply (write_app_spec ps (sa_at _ Hsane) (sa_by _ Hsane)) in E as (m' & -> & Hrw & [_ Hm] & _); [|done..]. exists m', ch.
    split; [done|]. split; [constructor; [apply Hrw..| |]|].
    + intros q b' Hq _ Hnl. rewrite (rewritten_body_in _ _ _ _ Hrw); [done|congruence].
    + intros e' [He'|[_ He']]%(rewritten_entries _ _ _ _ Hrw); [by left|]. by rewrite Hm in He'.
    + intros q. destruct (decide (q = p)) as [->|Hne]; [|by eapply mark_other]. unfold mark. by rewrite Hm.
  - exfalso. unfold write_app in E. rewrite Hwrite in E. cbn [edit] in E. unfold Uninstall, valid_name in E. rewrite Hp in E. cbn [mbind result_bind] in E.
    rewrite (split_text 2 m Hwf) in E. unfold refusePlaced in E. rewrite (value_of_key 2 m p Hwf), Hb, bool_decide_eq_false_2 in E by done. cbn [mbind result_bind] in E.
    destruct (removeAppEntry _ p); [|done]. by case_bool_decide.
Qed.

Lemma capability_step have m g c : wf 2 m → adoptsAnotherRealm (text_of 2 m) t = false → pg_text g = text_of 2 m → available ps t c →
  (ca_wanted c = false → lost (ca_name c)) → (ca_name c ∈ have ↔ mark m (ca_name c) ≠ None) → mark m (ca_name c) ≠ Some true →
  ∃ m', pg_text (capability_one ps t have g c) = text_of 2 m' ∧ kept lost m m' ∧ ∀ q, mark m' q = with_capability [c] q (mark m q).
Proof.
  intros Hwf Hrealm Hg Hav Hl Hhave Hm. unfold capability_one. cbv zeta. destruct (mark m (ca_name c)) as [[]|] eqn:Em; [done|..].
  - rewrite bool_decide_eq_true_2 by (by apply Hhave). destruct (ca_wanted c) eqn:Ew; cbn [andb negb].
    + exists m. split_and!; [done|by apply kept_refl|]. intros q. rewrite with_one, Ew. case_decide; [by subst; rewrite Em|done].
    + rewrite Hg. destruct (uninstall_step m (ca_name c)) as (m' & ch & -> & Hk & Hmk); [by auto..|]. exists m'. split_and!; [done..|].
      intros q. rewrite with_one, Ew, Hmk. case_decide; [by subst; rewrite Em|done].
  - rewrite bool_decide_eq_false_2 by (rewrite Hhave; intros Hne; by apply Hne). destruct (ca_wanted c) eqn:Ew; cbn [andb negb].
    + destruct (Hav Ew) as (Hp & source & -> & Hbuild). cbn [mbind result_bind]. rewrite Hg.
      destruct (install_step m (ca_name c) (ca_digest c) source) as (m' & -> & Hk & Hmk); [done..|]. exists m'. split_and!; [done..|].
      intros q. rewrite with_one, Ew, Hmk. case_decide; [by subst; rewrite Em|done].
    + exists m. split_and!; [done|by apply kept_refl|]. intros q. rewrite with_one, Ew. case_decide; [by subst; rewrite Em|done].
Qed.

Lemma capability_all cs have m m1 g : cs = [] ∨ (∀ m', kept lost m m' → adoptsAnotherRealm (text_of 2 m') t = false) → kept lost m m1 →
  NoDup (ca_name <$> cs) → Forall (available ps t) cs → (∀ c, c ∈ cs → ca_wanted c = false → lost (ca_name c)) →
  (∀ c, c ∈ cs → (ca_name c ∈ have ↔ mark m1 (ca_name c) ≠ None) ∧ mark m1 (ca_name c) ≠ Some true) → pg_text g = text_of 2 m1 →
  ∃ m', pg_text (foldl (capability_one ps t have) g cs) = text_of 2 m' ∧ kept lost m m' ∧ ∀ q, mark m' q = with_capability cs q (mark m1 q).
Proof.
  intros [->|Hrealm]; [by exists m1|]. revert m1 g. induction cs as [|c cs IH]; intros m1 g Hk Hnd Hav Hl Hc Hg; [by exists m1|]. cbn [foldl].
  rewrite fmap_cons in Hnd. apply NoDup_cons in Hnd as [Hx Hnd]. apply Forall_cons in Hav as [Hav Havs].
  destruct (Hc c) as [Hh Hm]; [left|]. destruct (capability_step have m1 g c (kp_wf _ _ _ Hk)) as (m2 & Ht2 & Hk2 & Hm2);
    [by apply Hrealm|done|done|apply Hl; left|done|done|].
  assert (∀ q, q ≠ ca_name c → mark m2 q = mark m1 q) as Hother.
  { intros q Hne. by rewrite Hm2, with_one, decide_False. }
  destruct (IH m2 (capability_one ps t have g c)) as (m' & Ht' & Hk' & Hm'); [by eapply kept_trans|done|done|..|done|].
  - intros d Hd. apply Hl. by right.
  - intros d Hd. rewrite Hother; [apply Hc; by right|]. intros Heq. apply Hx. rewrite <-Heq. by apply list_elem_of_fmap_2.
  - exists m'. split; [done|]. split; [done|]. intros q. rewrite Hm'. destruct (decide (q = ca_name c)) as [->|Hne].
    + rewrite Hm2, with_one, decide_True by done. unfold with_capability. rewrite (brought_None cs) by done. cbn [brought]. rewrite decide_True by done.
      by destruct (ca_wanted c).
    + rewrite Hother by done. unfold with_capability. cbn [brought]. by rewrite decide_False by congruence.
Qed.

(** Nothing to do where every app is as the cluster has it. *)
Lemma capability_nothing cs have m g : (∀ p, p ∈ have ↔ mark m p ≠ None) →
  (∀ c, c ∈ cs → mark m (ca_name c) = if ca_wanted c then Some false else None) → foldl (capability_one ps t have) g cs = g.
Proof.
  intros Hhave Hc. induction cs as [|c cs IH]; [done|]. cbn [foldl]. unfold capability_one at 2. cbv zeta.
  pose proof (Hc c ltac:(left)) as Hm. destruct (ca_wanted c); cbn [negb andb].
  - rewrite bool_decide_eq_true_2 by (apply Hhave; by rewrite Hm). apply IH. intros d Hd. apply Hc. by right.
  - rewrite bool_decide_eq_false_2 by (rewrite Hhave, Hm; tauto). apply IH. intros d Hd. apply Hc. by right.
Qed.
End Settling.

(** The apps a capability brings to a tenant, none to one that adopts a realm. *)
Definition comes (cs : list capabilityApp) (platform : bool) : list capabilityApp := if platform then [] else cs.

(** A pass that nothing hinders, under an answer and the apps of the cluster's capabilities. *)
Record quiet (answer : Answer) (cs : list capabilityApp) (ts : list Tenant) (ps : pass) : Prop := {
  qu_sane : sane ps;
  qu_busy : ps_busy ps = false;
  qu_answer : ps_answer ps = Ok answer;
  qu_capability : ps_capability ps = cs;
  qu_tenants : ps_tenants ps = Ok ts;
  qu_realm : ∀ t, ps_realm ps t = None;
  qu_apps : ∀ t, ps_apps ps t = None;
  qu_write : ∀ t p, ps_write ps t p = None;
  qu_available : ∀ t, Forall (available ps t) cs }.

Section Quiet.
Context `{Yaml} (readable : manifest → Prop) `{!YamlLaws readable} (answer : Answer) (cs : list capabilityApp) (ts : list Tenant) (t : string).
Context (Hact : active ts t) (platform : bool).

(** What a capability takes from the tenant. *)
Definition lost (q : string) : Prop := brought (comes cs platform) q = Some false.
Definition visit_text (ps : pass) (before : gset string) (apps : list App) (text : string) : string :=
  pg_text (foldl (capability_one ps t (app_profile <$> apps)) (follow_answer ps t answer platform before apps text) (comes cs platform)).

Section Visit.
Context (ps : pass) (w : world) (m : manifest) (apps : list App) (Hq : quiet answer cs ts ps) (Htext : wo_text w !! t = Some (text_of 2 m)).
Context (Hy : yaml_apps (text_of 2 m) = Ok apps) (Hpl : adoptsAnotherRealm (text_of 2 m) t = platform).

Lemma quiet_visit : ∃ doc placed removed, visited ps (wo_absent w) (mkSweep (wo_text w) (wo_grants w) ∅ 0 0) t
  = Some (visit_text ps (wo_absent w) apps (text_of 2 m), doc, absent_of t (For answer platform) apps, placed, removed).
Proof.
  unfold visited. cbn [sw_text sw_grants]. rewrite Htext. cbn [mbind option_bind]. unfold pass_tenant, visit_text, comes.
  rewrite (qu_realm _ _ _ _ Hq), (qu_apps _ _ _ _ Hq), Hy, (qu_answer _ _ _ _ Hq), (qu_capability _ _ _ _ Hq), Hpl. cbv zeta.
  destruct platform; by eexists _, _, _.
Qed.

Lemma quiet_text : wo_text (placePlatformApps ps w).1 !! t = Some (visit_text ps (wo_absent w) apps (text_of 2 m)).
Proof.
  unfold placePlatformApps. rewrite (qu_busy _ _ _ _ Hq), (qu_answer _ _ _ _ Hq), (qu_tenants _ _ _ _ Hq). cbn [is_ok negb andb fst wo_text].
  rewrite sweep_visits by (done || by apply (sa_once ps (qu_sane _ _ _ _ Hq)), (qu_tenants _ _ _ _ Hq)). unfold text_after.
  destruct quiet_visit as (doc & placed & removed & ->). done.
Qed.

Lemma quiet_absent q : wf 2 m →
  ((λ a, (app_profile a, app_placed a)) <$> apps) = ((λ e, (en_profile e, marked (en_body e))) <$> mf_apps m) →
  bool_decide (absent_key t q ∈ wo_absent (placePlatformApps ps w).1)
  = match mark m q with Some true => negb (Has (For answer platform) q) && Decided (For answer platform) q | _ => false end.
Proof.
  intros Hwf Hlist. rewrite <-(listed_withdrawn m apps Hwf Hlist). apply eq_true_iff_eq. rewrite bool_decide_eq_true, existsb_exists.
  setoid_rewrite <-list_elem_of_In. setoid_rewrite andb_true_iff. setoid_rewrite bool_decide_eq_true. split.
  - intros Hk. apply pass_found in Hk as (_ & _ & text & Htext' & answer' & apps' & a & Ha & Hy' & Hin & Hp & Hw).
    + rewrite Htext in Htext'. injection Htext' as <-. rewrite Hy in Hy'. injection Hy' as <-. rewrite (qu_answer _ _ _ _ Hq) in Ha. injection Ha as <-.
      rewrite Hpl in Hw. by exists a.
    + apply Hq.
    + unfold completed. by rewrite (qu_busy _ _ _ _ Hq), (qu_answer _ _ _ _ Hq), (qu_tenants _ _ _ _ Hq).
    + destruct Hact as (x & Hx & <- & _). by apply (sa_names ps (qu_sane _ _ _ _ Hq) ts); [apply Hq|].
  - intros (a & Ha & <- & Hw). unfold placePlatformApps. rewrite (qu_busy _ _ _ _ Hq), (qu_answer _ _ _ _ Hq), (qu_tenants _ _ _ _ Hq). cbn [is_ok negb andb fst wo_absent].
    destruct quiet_visit as (doc & placed & removed & Hv).
    eapply sweep_absent_back; [by apply (sa_once ps (qu_sane _ _ _ _ Hq)), (qu_tenants _ _ _ _ Hq)|done|exact Hv|]. cbn. unfold absent_of.
    apply elem_of_list_to_set, list_elem_of_omap. exists a. by rewrite Hw.
Qed.
End Visit.

Lemma kept_readable m m' : wf 2 m → readable m → kept lost m m' → readable m'.
Proof. intros Hwf Hrd [Hwf' Hh Htl _ He]. by apply (yaml_stays_readable m). Qed.

Lemma kept_platform m m' : wf 2 m → readable m → kept lost m m' → adoptsAnotherRealm (text_of 2 m') t = adoptsAnotherRealm (text_of 2 m) t.
Proof.
  intros Hwf Hrd Hk. pose proof (kept_readable m m' Hwf Hrd Hk). destruct Hk as [Hwf' Hh Htl _ _]. unfold adoptsAnotherRealm.
  by rewrite (yaml_realm_outside m m').
Qed.

(** The apps of a capability are where they were when the answer has been followed. *)
Lemma apart_after m m' b : apart (For answer platform) (comes cs platform) m → (∀ q, mark m' q = after_pass (For answer platform) (b q) q (mark m q)) →
  ∀ c, c ∈ comes cs platform → mark m' (ca_name c) = mark m (ca_name c) ∧ mark m (ca_name c) ≠ Some true.
Proof.
  intros Hap Hm c Hc. destruct (Hap c Hc) as [Hh Hne]. split; [|done]. rewrite Hm. unfold after_pass. rewrite Hh. by destruct (mark m (ca_name c)) as [[]|].
Qed.

Lemma comes_once : NoDup (ca_name <$> cs) → NoDup (ca_name <$> comes cs platform).
Proof. unfold comes. destruct platform; [constructor|done]. Qed.

Lemma quiet_pass ps w m : quiet answer cs ts ps → NoDup (ca_name <$> cs) → wf 2 m → readable m → wo_text w !! t = Some (text_of 2 m) →
  adoptsAnotherRealm (text_of 2 m) t = platform → orderly (For answer platform) → apart (For answer platform) (comes cs platform) m → ∃ m',
  wo_text (placePlatformApps ps w).1 !! t = Some (text_of 2 m') ∧ kept lost m m'
  ∧ (∀ q, mark m' q = with_capability (comes cs platform) q (after_pass (For answer platform) (bool_decide (absent_key t q ∈ wo_absent w)) q (mark m q)))
  ∧ (∀ q, bool_decide (absent_key t q ∈ wo_absent (placePlatformApps ps w).1)
      = match mark m q with Some true => negb (Has (For answer platform) q) && Decided (For answer platform) q | _ => false end).
Proof.
  intros Hq Hnd Hwf Hrd Htext Hpl Hv Hap. destruct (yaml_lists m Hwf Hrd) as (apps & Hy & Hlist).
  destruct (follow_spec ps (qu_sane _ _ _ _ Hq) t (λ p, qu_write _ _ _ _ Hq t p) lost m apps answer platform (wo_absent w) Hwf Hlist Hv) as (m1 & Ht & Hk & Hm).
  pose proof (apart_after m m1 _ Hap Hm) as Hcs.
  destruct (capability_all ps (qu_sane _ _ _ _ Hq) t (λ p, qu_write _ _ _ _ Hq t p) lost (comes cs platform) (app_profile <$> apps) m m1
    (follow_answer ps t answer platform (wo_absent w) apps (text_of 2 m))) as (m' & Ht' & Hk' & Hm').
  - destruct platform eqn:Ep; [by left|right]. intros m'' Hk''. by rewrite (kept_platform m) by (by rewrite ?Ep).
  - done.
  - by apply comes_once.
  - unfold comes. destruct platform; [constructor|apply Hq].
  - intros c Hc Hw. unfold lost. rewrite (brought_in _ c); [by rewrite Hw|by apply comes_once|done].
  - intros c Hc. destruct (Hcs c Hc) as [-> Hne]. split; [by apply listed_names|done].
  - done.
  - exists m'. split; [by rewrite (quiet_text ps w m apps) by done; unfold visit_text; rewrite Ht'|]. split; [done|]. split; [intros q; by rewrite Hm', Hm|].
    intros q. by eapply quiet_absent.
Qed.

Lemma apart_again m m' b : apart (For answer platform) (comes cs platform) m →
  (∀ q, mark m' q = with_capability (comes cs platform) q (after_pass (For answer platform) (b q) q (mark m q))) →
  apart (For answer platform) (comes cs platform) m'.
Proof.
  intros Hap Hm c Hc. destruct (Hap c Hc) as [Hh Hne]. split; [done|]. rewrite Hm. unfold with_capability, after_pass. rewrite Hh.
  by destruct (brought _ _) as [[]|], (mark m (ca_name c)) as [[]|].
Qed.

(** A pass over a tenant that is settled does nothing. *)
Lemma quiet_rest ps w m m2 : quiet answer cs ts ps → NoDup (ca_name <$> cs) → wf 2 m2 → readable m2 → wo_text w !! t = Some (text_of 2 m2) →
  adoptsAnotherRealm (text_of 2 m2) t = platform → apart (For answer platform) (comes cs platform) m →
  (∀ q, mark m2 q = with_capability (comes cs platform) q (settled (For answer platform) q (mark m q))) →
  wo_text (placePlatformApps ps w).1 !! t = Some (text_of 2 m2).
Proof.
  intros Hq Hnd Hwf Hrd Htext Hpl Hap Hset. destruct (yaml_lists m2 Hwf Hrd) as (apps & Hy & Hlist).
  rewrite (quiet_text ps w m2 apps) by done. unfold visit_text. rewrite (capability_nothing ps t lost (comes cs platform) (app_profile <$> apps) m2).
  - rewrite follow_nothing; [done..|]. intros q. rewrite Hset. by apply settles_twice.
  - intros p. by apply listed_names.
  - intros c Hc. destruct (Hap c Hc) as [Hh Hne]. rewrite Hset. unfold with_capability, settled. rewrite (brought_in _ c (comes_once Hnd) Hc), Hh.
    by destruct (ca_wanted c), (mark m (ca_name c)) as [[]|].
Qed.
End Quiet.

(** C19: While the operator's answer and the cluster's capabilities stand, nothing hinders the
    worker and nobody else writes, two passes bring each tenant to them, whatever was
    remembered before: every app the answer names is there and the platform's unless the
    tenant had installed it; what the platform had placed is gone exactly if the answer
    decided it and does not name it; an app that comes with a capability is there if the
    cluster has it and gone if it has not, also where the tenant had installed it; every
    other entry of the tenant's own is, line for line, what it was; and a third pass changes
    nothing.  The manifest is one the director lays out ([wf], entries two spaces deep) and
    a decoder reads as it is laid out ([readable]); the answer's names are components'
    names, each once; and the apps of a capability have each one name, builds that can be
    had, and are not also the answer's to place ([apart]). *)
Theorem placement_settles `{Yaml} readable `{!YamlLaws readable} answer cs ts ps1 ps2 ps3 w t m :
  let platform := adoptsAnotherRealm (text_of 2 m) t in
  quiet answer cs ts ps1 → quiet answer cs ts ps2 → quiet answer cs ts ps3 → active ts t → NoDup (ca_name <$> cs) →
  wf 2 m → readable m → wo_text w !! t = Some (text_of 2 m) → orderly (For answer platform) → apart (For answer platform) (comes cs platform) m →
  ∃ m2, wo_text (placePlatformApps ps2 (placePlatformApps ps1 w).1).1 !! t = Some (text_of 2 m2) ∧ kept (lost cs platform) m m2
    ∧ (∀ q, mark m2 q = with_capability (comes cs platform) q (settled (For answer platform) q (mark m q)))
    ∧ wo_text (placePlatformApps ps3 (placePlatformApps ps2 (placePlatformApps ps1 w).1).1).1 !! t = Some (text_of 2 m2).
Proof.
  intros platform Hq1 Hq2 Hq3 Hact Hnd Hwf Hrd Htext Hv Hap.
  destruct (quiet_pass readable answer cs ts t Hact platform ps1 w m Hq1 Hnd Hwf Hrd Htext eq_refl Hv Hap) as (m1 & Ht1 & Hk1 & Hm1 & Ha1).
  pose proof (kept_platform readable cs t platform m m1 Hwf Hrd Hk1) as Hpl1.
  destruct (quiet_pass readable answer cs ts t Hact platform ps2 _ m1 Hq2 Hnd (kp_wf _ _ _ Hk1) (kept_readable _ _ _ _ _ Hwf Hrd Hk1) Ht1 Hpl1 Hv)
    as (m2 & Ht2 & Hk2 & Hm2 & _); [by apply (apart_again answer cs platform m m1 (λ q, bool_decide (absent_key t q ∈ wo_absent w)))|].
  pose proof (kept_trans _ _ _ _ Hk1 Hk2) as Hk. exists m2. split; [done|]. split; [done|].
  assert (∀ q, mark m2 q = with_capability (comes cs platform) q (settled (For answer platform) q (mark m q))) as Hset.
  { intros q. rewrite Hm2, Ha1, Hm1. by apply passes_settle. }
  split; [done|]. apply (quiet_rest readable answer cs ts t Hact platform ps3 _ m m2); try done; [apply Hk|by eapply kept_readable|].
  by apply (kept_platform readable cs t platform m).
Qed.

(** The worker reads the apps of a tenant and then writes, one app at a time.  An app the
    tenant installs in between, and the answer names, becomes the platform's: its own
    hand can no longer take it out. *)
Theorem own_install_is_taken_over `{Yaml} ps t have g m p : sane ps → wf 2 m → pg_text g = text_of 2 m →
  p ∉ have → mark m p = Some false → ps_write ps t p = None →
  ∃ m', pg_text (place_wanted ps t have g p) = text_of 2 m' ∧ mark m' p = Some true
    ∧ ∀ meta, edit t p meta ByUninstall (text_of 2 m') = Err (placedAppError p).
Proof.
  intros Hs Hwf Hg Hin Hown Hwrite. assert (ValidName p = true) as Hp.
  { apply mark_entry in Hown as (e & He & <- & _); [|done]. apply (ew_profile 2). by apply (proj1 (Forall_forall _ _) (wf_apps 2 m Hwf)). }
  unfold place_wanted. rewrite bool_decide_eq_false_2 by done. rewrite Hg. destruct (write_app ps t p _ _) as [[text' ch]|e] eqn:E.
  2:{ unfold write_app in E. rewrite Hwrite in E. cbn [edit] in E. destruct (Place_Ok p (ps_meta ps) (text_of 2 m) Hp) as [[[? ?] ?] Hok]. by rewrite Hok in E. }
  apply (write_app_spec ps (sa_at _ Hs) (sa_by _ Hs)) in E as (m' & -> & Hrw & (b' & Hb' & Hpl & _) & _); [|done..]. exists m'. cbn [pg_text].
  split; [done|]. split; [apply mark_placed; by exists b'|]. intros meta. cbn [edit]. unfold Uninstall, valid_name. rewrite Hp. cbn [mbind result_bind].
  rewrite (split_text 2 m' (rw_wf _ _ _ Hrw)). unfold refusePlaced. rewrite (value_of_key 2 m' p (rw_wf _ _ _ Hrw)), Hb'.
  by rewrite bool_decide_eq_true_2.
Qed.

(** ** Instances *)

Module WorkerExample.
Import AppEdits.EditsExample.

(** A decoder that reads the entries off the lines, and finds no realm. *)
Definition app_at (lines : list string) (p : string) : App :=
  mkApp p "" [] [] [] false "" "" "" "" (bool_decide (appEntryValue lines p appPlacedKey = "true")).
Definition name_at (l : string) : option string := snd <$> item_of l.
Definition line_yaml : Yaml :=
  {| yaml_realm := λ _, Ok ""; yaml_apps := λ text, Ok (app_at (split text NL) <$> (omap name_at (split text NL))) |}.

Lemma list_omap_cons {A B} (f : A → option B) x l : omap f (x :: l) = match f x with Some y => y :: omap f l | None => omap f l end.
Proof. reflexivity. Qed.
Lemma list_omap_app {A B} (f : A → option B) l k : omap f (l ++ k) = omap f l ++ omap f k.
Proof. induction l as [|x l IH]; [done|]. cbn [app]. rewrite !list_omap_cons, IH. by destruct (f x). Qed.

Lemma plain_none l : Forall plain_line l → omap name_at l = [].
Proof. induction 1 as [|x l [Hx _] _ IH]; [done|]. rewrite list_omap_cons. unfold name_at at 1. by rewrite Hx. Qed.

Lemma items_in m : wf 2 m → omap name_at (lines_of 2 m) = en_profile <$> mf_apps m.
Proof.
  intros Hwf. unfold lines_of. rewrite list_omap_app, plain_none by (eapply Forall_impl; [apply Hwf|]; by intros l []). cbn [app].
  rewrite list_omap_cons. change (name_at "  apps:") with (None : option string). cbv iota.
  rewrite !list_omap_app, plain_none by (eapply Forall_impl; [apply Hwf|]; by intros l []).
  rewrite (plain_none (mf_tail m)), app_nil_r by apply Hwf. cbn [app]. pose proof (wf_apps 2 m Hwf) as Happs. clear Hwf.
  induction Happs as [|e l He _ IH]; [done|]. rewrite fmap_cons, <-IH. rewrite bind_cons, list_omap_app. unfold entry_lines at 1.
  rewrite list_omap_cons, plain_none by apply He. unfold name_at at 1. by rewrite item_of_line by apply He.
Qed.

Lemma line_yaml_laws : @YamlLaws line_yaml (λ _, True).
Proof.
  constructor; [|done..]. intros m Hwf _. eexists. split; [reflexivity|]. rewrite (split_text 2 m Hwf), (items_in m Hwf), <-!list_fmap_compose.
  apply list_fmap_ext. intros i e He%list_elem_of_lookup_2. cbn. unfold marked, reads.
  by rewrite (value_of_key 2 m _ Hwf), (in_body m e (wf_once 2 m Hwf) He).
Qed.

Definition wx_answer (wanted : list string) : Answer := mkAnswer (mkSet wanted []) (mkSet [] []) [].
Definition wx_tenants : list Tenant := [mkTenant "acme" false; mkTenant "gone" true].
Definition wx_pass (wanted : list string) : pass :=
  mkPass false (Ok (wx_answer wanted)) [] (Ok wx_tenants) (λ _, None) (λ _, None) (λ _ _, None) (λ _ _, None) (λ _ _, Err (Sentinel "no catalog"))
    GrantsExample.gx_meta.
Definition wx_world : world := mkWorld {["acme" := text_of 2 ex_manifest]} ∅ ∅.

Lemma wx_sane wanted : sane (wx_pass wanted).
Proof.
  constructor; [reflexivity|reflexivity|..].
  - intros ts [= <-]. by apply (bool_decide_unpack _).
  - intros ts x [= <-] Hx. unfold wx_tenants in Hx. apply elem_of_cons in Hx as [->|[->|[]%not_elem_of_nil]%elem_of_cons]; reflexivity.
Qed.

(** A cluster that gained one capability and lost another. *)
Definition wx_caps : list capabilityApp := [mkCapability "gentian" "assistant" ex_digest true; mkCapability "gentian" "wiki" ex_digest false].
Definition wx_capable (wanted : list string) : pass :=
  mkPass false (Ok (wx_answer wanted)) wx_caps (Ok wx_tenants) (λ _, None) (λ _, None) (λ _ _, None) (λ _ _, None) (λ _ c, Ok (ca_catalogue c))
    GrantsExample.gx_meta.
Lemma wx_quiet wanted : quiet (wx_answer wanted) wx_caps wx_tenants (wx_capable wanted).
Proof.
  constructor; [destruct (wx_sane wanted); by constructor|done..|]. intros t. apply Forall_cons. split; [|by apply Forall_singleton].
  intros _. split; [reflexivity|]. exists "gentian". split; reflexivity.
Qed.
Lemma wx_active : active wx_tenants "acme".
Proof. exists (mkTenant "acme" false). split; [left|done]. Qed.

End WorkerExample.
Import AppEdits.EditsExample.
Import WorkerExample.

Lemma taken_away_after_two_passes_witness :
  let w1 := (@placePlatformApps line_yaml (wx_pass []) wx_world).1 in
  (∃ text', wo_text (@placePlatformApps line_yaml (wx_pass []) w1).1 !! "acme" = Some text' ∧ stands "desktop" text')
  ∨ @found_withdrawn line_yaml (wx_pass []) w1 "acme" "desktop"
    ∧ ∃ pre ps0 w0 post, [(wx_pass [], wx_world)] = pre ++ (ps0, w0) :: post ∧ @found_withdrawn line_yaml ps0 w0 "acme" "desktop" ∧ Forall (λ x, completed x.1 = false) post.
Proof.
  apply (@taken_away_after_two_passes line_yaml [(wx_pass [], wx_world)] _ (wx_pass []) "acme" (text_of 2 ex_manifest) "desktop").
  - apply (@passed_over line_yaml [] wx_world (wx_pass [])); [by apply started|apply wx_sane].
  - apply wx_sane.
  - reflexivity.
  - vm_compute. reflexivity.
  - exists ex_manifest. split; [exact ex_wf|]. split; [reflexivity|]. eexists. split; [vm_compute; reflexivity|vm_compute; reflexivity].
Defined.

Lemma placement_settles_witness :
  let ps := wx_capable ["calendar"] in let pass w := (@placePlatformApps line_yaml ps w).1 in
  ∃ m2, wo_text (pass (pass wx_world)) !! "acme" = Some (text_of 2 m2) ∧ kept (lost wx_caps false) ex_manifest m2
    ∧ (∀ q, mark m2 q = with_capability wx_caps q (settled (mkSet ["calendar"] []) q (mark ex_manifest q)))
    ∧ wo_text (pass (pass (pass wx_world))) !! "acme" = Some (text_of 2 m2).
Proof.
  apply (@placement_settles line_yaml (λ _, True) line_yaml_laws (wx_answer ["calendar"]) wx_caps wx_tenants
    (wx_capable ["calendar"]) (wx_capable ["calendar"]) (wx_capable ["calendar"]) wx_world "acme" ex_manifest);
    [apply wx_quiet..|exact wx_active|apply (bool_decide_unpack _); vm_compute; exact I|exact ex_wf|exact I|vm_compute; reflexivity| |].
  - split; [repeat constructor|apply (bool_decide_unpack _); vm_compute; exact I].
  - intros c [->|[->|[]%not_elem_of_nil]%elem_of_cons]%elem_of_cons; split; vm_compute; done.
Defined.

Lemma own_install_is_taken_over_witness :
  ∃ m', pg_text (@place_wanted line_yaml (wx_pass ["wiki"]) "acme" ["desktop"] (mkProgress (text_of 2 ex_manifest) ∅ 0 0) "wiki") = text_of 2 m'
    ∧ mark m' "wiki" = Some true ∧ ∀ meta, @edit line_yaml "acme" "wiki" meta ByUninstall (text_of 2 m') = Err (placedAppError "wiki").
Proof.
  apply (@own_install_is_taken_over line_yaml (wx_pass ["wiki"]) "acme" ["desktop"] (mkProgress (text_of 2 ex_manifest) ∅ 0 0) ex_manifest "wiki");
    [apply wx_sane|exact ex_wf|reflexivity|apply (bool_decide_unpack _); vm_compute; exact I|vm_compute; reflexivity|reflexivity].
Defined.

Lemma manifests_stay_well_formed_witness :
  let w1 := (@placePlatformApps line_yaml (wx_pass ["calendar"]) wx_world).1 in
  ∃ m', wf 2 m' ∧ wo_text w1 !! "acme" = Some (text_of 2 m') ∧ mf_head m' = ex_head ∧ mf_tail m' = mf_tail ex_manifest.
Proof.
  apply (@manifests_stay_well_formed line_yaml wx_world _ "acme" ex_manifest); [|exact ex_wf|vm_compute; reflexivity].
  apply rtc_once. apply (@worker_passes line_yaml). apply wx_sane.
Defined.
