(* ===== verification/RightsCheck.v ===== *)
(** * The question a component may ask

    [internal/bouncer/check.go]: the listener on which a component that acts for
    a person asks whether the person may use an app of its tenant.  The key the
    component holds is good for that one question, and, where the table says so,
    for the audit questions.  The decoded body stands for the request's bytes. *)

From S2P Require Import Prelude.
From S2P Require Import GoStrings.
From S2P Require Import Ids.
From S2P Require Import ComponentKeys.
From S2P Require Import RouteTable.
From S2P Require Import Decider.
From Stdlib Require Import ZArith.

Definition relationCanAudit : string := "can_audit".
Definition relationCanReadEvidence : string := "can_read_evidence".
Definition relationCanConfigure : string := "can_configure".

Definition appNamePattern (s : string) : bool := dns_label s.

(** The checker a key belongs to. *)
Definition checker_of (t : option Table) (key : string) : option Checker :=
  match t with None => None | Some t => Find (tb_checkers t) key end.

Record checkRequest := mkCheckRequest {
  cq_person : string; cq_app : string; cq_relation : string; cq_tenant : string }.

(** [q_holder] is the role holder's account the person is asked as when refused as
    themselves, empty for the app question; [q_tenant] is for the record. *)
Record question := mkQuestion {
  q_user : string; q_holder : string; q_relation : string; q_object : string; q_tenant : string }.

Definition StatusBadRequest : Z := 400.

(** A refusal is a status and what is said with it. *)
Definition questionOf (c : Checker) (req : checkRequest) : question + Z * string :=
  match User (cq_person req) with
  | Err _ => inr (StatusBadRequest, "person must be a subject")
  | Ok user =>
    if bool_decide (cq_relation req = "") then
      if negb (appNamePattern (cq_app req)) || negb (bool_decide (cq_tenant req = ""))
      then inr (StatusBadRequest, "app must be the name of an app of this tenant")
      else let tenant := k_tenant (ck_key c) in
        inl (mkQuestion user "" "can_use" (App tenant (cq_app req)) tenant)
    else match ck_audit c with
    | None => inr (StatusForbidden, "this key asks about the apps of its tenant only")
    | Some a =>
      if negb (bool_decide (cq_app req = ""))
      then inr (StatusBadRequest, "ask about an app or a relation, not both")
      else match HolderUser (ca_realm a) (cq_person req) with
      | Err _ => inr (StatusBadRequest, "person must be a subject")
      | Ok holder =>
        let q := mkQuestion user holder (cq_relation req) in
        if bool_decide (cq_relation req = relationCanAudit) || bool_decide (cq_relation req = relationCanConfigure)
        then if negb (bool_decide (cq_tenant req = ""))
             then inr (StatusBadRequest, cq_relation req +:+ " is asked of the cluster, with no tenant")
             else inl (q (Cluster (ca_cluster a)) "")
        else if bool_decide (cq_relation req = relationCanReadEvidence)
        then if negb (appNamePattern (cq_tenant req))
             then inr (StatusBadRequest, "can_read_evidence needs the tenant's name")
             else inl (q (Tenant (cq_tenant req)) (cq_tenant req))
        else inr (StatusBadRequest, "relation must be can_audit, can_configure or can_read_evidence")
      end
    end
  end.

(** What is answered, and the decision that is put on record with it. *)
Inductive check_reply :=
  | CheckError (message : string) (status : Z)
  | CheckAnswer (allowed : bool).

Record check_record := mkCheckRecord {
  cr_request : string; cr_tenant : string; cr_subject : string; cr_object : string; cr_action : string;
  cr_allowed : bool; cr_checker : string }.

Definition check (c : checker) (t : option Table) (authorization id : string) (decoded : result checkRequest)
    : check_reply * option check_record :=
  match checker_of t (bearer authorization) with
  | None => (CheckError "unknown key" StatusUnauthorized, None)
  | Some ck =>
    match decoded with
    | Err _ => (CheckError "the body must be JSON with person, and app or relation" StatusBadRequest, None)
    | Ok req =>
      match questionOf ck req with
      | inr (status, refusal) => (CheckError refusal status, None)
      | inl q =>
        match CheckAs c (q_user q) (q_holder q) (q_relation q) (q_object q) with
        | Err _ => (CheckError "authorization store unreachable" StatusServiceUnavailable, None)
        | Ok ok => (CheckAnswer ok, Some (mkCheckRecord id (q_tenant q) (cq_person req) (q_object q)
                                           (q_relation q) ok (k_component (ck_key ck))))
        end
      end
    end
  end.

(** ** Lemmas *)

(** The objects a key may ask about: an app of its own tenant, named by a label; and,
    with audit, its cluster or a tenant as such. *)
Inductive in_reach (ck : Checker) : question → Prop :=
  | reach_app user app :
      appNamePattern app = true →
      in_reach ck (mkQuestion user "" "can_use" (App (k_tenant (ck_key ck)) app) (k_tenant (ck_key ck)))
  | reach_cluster a user holder relation :
      ck_audit ck = Some a → relation = relationCanAudit ∨ relation = relationCanConfigure →
      in_reach ck (mkQuestion user holder relation (Cluster (ca_cluster a)) "")
  | reach_evidence a user holder tenant :
      ck_audit ck = Some a → appNamePattern tenant = true →
      in_reach ck (mkQuestion user holder relationCanReadEvidence (Tenant tenant) tenant).

Lemma questionOf_in_reach ck req q :
  questionOf ck req = inl q →
  in_reach ck q ∧ User (cq_person req) = Ok (q_user q)
  ∧ (q_holder q = "" ∨ ∃ a, ck_audit ck = Some a ∧ HolderUser (ca_realm a) (cq_person req) = Ok (q_holder q)).
Proof.
  unfold questionOf. destruct (User _) as [user|]; [|done].
  destruct (bool_decide (cq_relation req = "")).
  { destruct (appNamePattern (cq_app req)) eqn:Happ; [|done]. simpl.
    destruct (bool_decide (cq_tenant req = "")); [|done]. simpl. intros [= <-].
    split_and!; [by apply reach_app|done|by left]. }
  destruct (ck_audit ck) as [a|] eqn:Ha; [|done].
  destruct (bool_decide (cq_app req = "")); [|done]. simpl.
  destruct (HolderUser _ _) as [holder|] eqn:Hh; [|done].
  destruct (bool_decide (cq_relation req = relationCanAudit) || bool_decide (cq_relation req = relationCanConfigure)) eqn:Hr.
  - rewrite orb_true_iff, !bool_decide_eq_true in Hr.
    destruct (bool_decide (cq_tenant req = "")); [|done]. simpl. intros [= <-].
    split_and!; [by apply reach_cluster|done|right; by exists a].
  - destruct (bool_decide (cq_relation req = relationCanReadEvidence)) eqn:He; [|done].
    apply bool_decide_eq_true in He. destruct (appNamePattern (cq_tenant req)) eqn:Ht; [|done]. simpl.
    intros [= <-]. split_and!; [rewrite He; by eapply reach_evidence|done|right; by exists a].
Qed.

(** An app's object names its tenant, the app's own name having no slash. *)
Lemma App_tenant tenant app tenant' app' :
  contains_byte app "/" = false → contains_byte app' "/" = false →
  App tenant app = App tenant' app' → tenant = tenant' ∧ app = app'.
Proof.
  unfold App. intros Ha Ha' Heq. apply (app_inj_str "app:") in Heq.
  apply (f_equal (λ s, cut_last s "/")) in Heq.
  assert (Some (tenant, app) = Some (tenant', app')) as [= -> ->]; [|done].
  rewrite <- (cut_last_app tenant app "/" Ha), <- (cut_last_app tenant' app' "/" Ha'). exact Heq.
Qed.

Lemma in_reach_own_tenant ck q tenant app :
  in_reach ck q → contains_byte app "/" = false → q_object q = App tenant app → tenant = k_tenant (ck_key ck).
Proof.
  destruct 1 as [user app' Ha|a ? ? ? _ _|a ? ? ? _ _]; simpl; intros Happ Heq; [|done|done].
  apply App_tenant in Heq as [Heq _]; [done|by apply dns_label_contains|done].
Qed.

Lemma check_answer c t authorization id decoded ok rec :
  validateCheckers (tb_checkers t) = Ok tt →
  check c (Some t) authorization id decoded = (CheckAnswer ok, rec) →
  ∃ ck req q, decoded = Ok req ∧ questionOf ck req = inl q
    ∧ (∀ ck', bearer authorization ≠ "" ∧ ck' ∈ tb_checkers t ∧ k_hash (ck_key ck') = Hash (bearer authorization)
              ↔ ck' = ck)
    ∧ CheckAs c (q_user q) (q_holder q) (q_relation q) (q_object q) = Ok ok
    ∧ rec = Some (mkCheckRecord id (q_tenant q) (cq_person req) (q_object q) (q_relation q) ok
                    (k_component (ck_key ck))).
Proof.
  intros [_ Hnd]%Check_iff. unfold check. simpl.
  destruct (Find (tb_checkers t) (bearer authorization)) as [ck|] eqn:Hf; [|done].
  destruct decoded as [req|]; [|done]. destruct (questionOf ck req) as [q|[? ?]] eqn:Hq; [|done].
  destruct (CheckAs _ _ _ _ _) as [ok'|] eqn:Hc; [|done]. intros [= <- <-].
  exists ck, req, q. split_and!; try done. intros ck'.
  rewrite <- (Find_iff (tb_checkers t) (bearer authorization) ck' Hnd), Hf. naive_solver.
Qed.

(** ** Properties *)

(** An answer is given only to a key of the table, and it is the store's answer to
    a question in that key's reach about the person named: an app of the key's own
    tenant -- whatever name is sent, no app of another tenant -- or, of a key that
    may audit, the cluster's relations and a tenant's evidence.  What was asked and
    answered is on record. *)
Theorem check_answers_within_the_key c t authorization id decoded ok rec :
  validateCheckers (tb_checkers t) = Ok tt →
  check c (Some t) authorization id decoded = (CheckAnswer ok, rec) →
  ∃ ck req q, decoded = Ok req
    ∧ (∀ ck', bearer authorization ≠ "" ∧ ck' ∈ tb_checkers t ∧ k_hash (ck_key ck') = Hash (bearer authorization)
              ↔ ck' = ck)
    ∧ in_reach ck q ∧ User (cq_person req) = Ok (q_user q)
    ∧ (∀ tenant app, contains_byte app "/" = false → q_object q = App tenant app → tenant = k_tenant (ck_key ck))
    ∧ CheckAs c (q_user q) (q_holder q) (q_relation q) (q_object q) = Ok ok
    ∧ rec = Some (mkCheckRecord id (q_tenant q) (cq_person req) (q_object q) (q_relation q) ok
                    (k_component (ck_key ck))).
Proof.
  intros Hv Hc. destruct (check_answer _ _ _ _ _ _ _ Hv Hc) as (ck & req & q & Hd & Hq & Hkey & Hans & Hrec).
  apply questionOf_in_reach in Hq as (Hreach & Huser & _).
  exists ck, req, q. split_and!; try done. intros tenant app Ha He. by eapply in_reach_own_tenant.
Qed.

(** A component of acme asks about its files app, with the store allowing it. *)
Lemma check_answers_within_the_key_witness :
  let desk := mkChecker (mkKey "acme" "assistant" (Hash "secret")) None in
  let req := mkCheckRequest "ana" "files" "" "" in
  ∃ ck req q, Ok (mkCheckRequest "ana" "files" "" "") = Ok req
    ∧ (∀ ck', bearer "Bearer secret" ≠ "" ∧ ck' ∈ [desk] ∧ k_hash (ck_key ck') = Hash (bearer "Bearer secret")
              ↔ ck' = ck)
    ∧ in_reach ck q ∧ User (cq_person req) = Ok (q_user q)
    ∧ (∀ tenant app, contains_byte app "/" = false → q_object q = App tenant app → tenant = k_tenant (ck_key ck))
    ∧ CheckAs (λ _ _ _, Ok true) (q_user q) (q_holder q) (q_relation q) (q_object q) = Ok true
    ∧ Some (mkCheckRecord "r1" "acme" "ana" "app:acme/files" "can_use" true "assistant")
      = Some (mkCheckRecord "r1" (q_tenant q) (cq_person req) (q_object q) (q_relation q) true
                (k_component (ck_key ck))).
Proof.
  intros desk req. apply (check_answers_within_the_key (λ _ _ _, Ok true) (mkTable [] [desk]));
    vm_compute; reflexivity.
Defined.
