(* ===== verification/TokenReview.v ===== *)
(** * Who a workload's token names

    [internal/tokenreview/tokenreview.go]: the caller behind a ServiceAccount token
    projected for one audience, asked of the API server and kept for a short time.
    The API server's answer to a token is an argument of each call. *)

From S2P Require Import Prelude.
From S2P Require Import Sha256.
From Stdlib Require Import ZArith.

(** Thirty seconds, in the clock's unit. *)
Definition TTL : Z := 30000000000.
Definition Limit : nat := 256.

(** The status of a TokenReview. *)
Record review := mkReview {
  rv_authenticated : bool; rv_error : string; rv_username : string; rv_audiences : list string }.

Definition ErrNotAuthenticated : error :=
  Sentinel "the token is not a valid ServiceAccount token for this audience".

Record entry := mkEntry { en_username : string; en_until : Z }.

(** The check for one audience, where there is an API server to ask; and what is
    kept, under a hash of each token. *)
Record Cache := mkCache { ch_asks : bool; ch_audience : string; ch_entries : gmap string entry }.

Definition New (asks : bool) (audience : string) : Cache := mkCache asks audience ∅.

Definition Ready (c : Cache) : bool := ch_asks c && negb (bool_decide (ch_audience c = "")).

(** What the API server said vouches for the token: genuine, without an error, of
    somebody, and for the audience. *)
Definition vouches (audience : string) (status : review) : bool :=
  rv_authenticated status && bool_decide (rv_error status = "") && negb (bool_decide (rv_username status = ""))
  && bool_decide (audience ∈ rv_audiences status).

Definition Identify (c : Cache) (now : Z) (answer : result (option review)) (token : string) : Cache * result string :=
  if negb (Ready c) then (c, Err (Sentinel "no API server or audience to review a token against"))
  else
    let key := hex_sha256 token in
    let hit := match ch_entries c !! key with
               | Some e => if bool_decide (now < en_until e)%Z then Some (en_username e) else None
               | None => None
               end in
    match hit with
    | Some username => (c, Ok username)
    | None =>
      match answer with
      | Err e => (c, Err (Wrapf "ask the API server about a token: %w" [] e))
      | Ok None => (c, Err (Sentinel "ask the API server about a token: no answer"))
      | Ok (Some status) =>
          if negb (vouches (ch_audience c) status) then (c, Err ErrNotAuthenticated)
          else
            let live := filter (λ '(_, e), (now < en_until e)%Z) (ch_entries c) in
            let kept := if bool_decide (Limit ≤ size live) then ∅ else live in
            (mkCache (ch_asks c) (ch_audience c)
               (<[key := mkEntry (rv_username status) (now + TTL)]> kept), Ok (rv_username status))
      end
    end.

(** ** A sequence of calls *)

Record call := mkCall { cl_now : Z; cl_token : string; cl_answer : result (option review) }.

Definition ask (c : Cache) (x : call) : Cache := (Identify c (cl_now x) (cl_answer x) (cl_token x)).1.
Definition asked (c : Cache) (calls : list call) : Cache := foldl ask c calls.

(** At call [x] the API server vouched, for the audience, for a token with this hash,
    as this user. *)
Definition vouched (audience : string) (x : call) (key username : string) : Prop :=
  hex_sha256 (cl_token x) = key
  ∧ ∃ status, cl_answer x = Ok (Some status) ∧ vouches audience status = true ∧ rv_username status = username.

(** What is kept was vouched for, one [TTL] before it is believed no longer. *)
Definition kept_ok (audience : string) (calls : list call) (c : Cache) : Prop :=
  ch_audience c = audience ∧ size (ch_entries c) ≤ Limit
  ∧ ∀ key e, ch_entries c !! key = Some e →
      ∃ x, x ∈ calls ∧ vouched audience x key (en_username e) ∧ en_until e = (cl_now x + TTL)%Z.

(** How a call ends that names somebody. *)
Lemma Identify_cases c now answer token c' r :
  Identify c now answer token = (c', r) →
  (c' = c ∧ ∀ u, r = Ok u → ∃ e, ch_entries c !! hex_sha256 token = Some e ∧ en_username e = u ∧ (now < en_until e)%Z)
  ∨ ∃ status, answer = Ok (Some status) ∧ vouches (ch_audience c) status = true ∧ r = Ok (rv_username status)
      ∧ ch_audience c' = ch_audience c ∧ ∃ kept, kept ⊆ ch_entries c ∧ size kept < Limit
        ∧ ch_entries c' = <[hex_sha256 token := mkEntry (rv_username status) (now + TTL)]> kept.
Proof.
  unfold Identify. destruct (Ready c); simpl; [|intros [= <- <-]; left; by split].
  destruct (match ch_entries c !! hex_sha256 token with Some e => _ | None => _ end) as [u|] eqn:Hhit.
  - intros [= <- <-]. left. split; [done|]. intros ? [= <-].
    destruct (ch_entries c !! hex_sha256 token) as [e|] eqn:He; [|done]. case_bool_decide; [|done].
    injection Hhit as <-. by exists e.
  - clear Hhit. destruct answer as [[status|]|e]; [|intros [= <- <-]; left; by split..].
    destruct (vouches _ status) eqn:Hv; simpl; intros [= <- <-]; [right|left; by split].
    exists status. split_and!; try done. simpl. eexists. split_and!; [| |reflexivity].
    + case_bool_decide; [apply map_empty_subseteq|apply map_filter_subseteq].
    + case_bool_decide; [rewrite map_size_empty; unfold Limit|]; lia.
Qed.

Lemma ask_kept_ok audience calls c x : kept_ok audience calls c → kept_ok audience (calls ++ [x]) (ask c x).
Proof.
  intros (Ha & Hsize & Hk). unfold ask. destruct (Identify c (cl_now x) (cl_answer x) (cl_token x)) as [c' r] eqn:Hi. simpl.
  assert (∀ key e, ch_entries c !! key = Some e →
    ∃ y, y ∈ calls ++ [x] ∧ vouched audience y key (en_username e) ∧ en_until e = (cl_now y + TTL)%Z) as Hk'.
  { intros key e He. destruct (Hk key e He) as (y & Hy & ?). exists y. split; [|done]. rewrite elem_of_app. by left. }
  apply Identify_cases in Hi as [[-> _]|(status & Hans & Hv & _ & Ha' & kept & Hsub & Hlt & He')]; [done|].
  split_and!; [congruence| |].
  - rewrite He', map_size_insert. destruct (kept !! _); simpl; lia.
  - intros key e. rewrite He'. intros [[<- <-]|[_ He]]%lookup_insert_Some.
    + exists x. split; [rewrite elem_of_app; right; by apply list_elem_of_singleton|]. split; [|done].
      split; [done|]. exists status. by rewrite <- Ha.
    + apply Hk'. by eapply lookup_weaken.
Qed.

Lemma asked_kept_ok asks audience calls : kept_ok audience calls (asked (New asks audience) calls).
Proof.
  induction calls as [|x calls IH] using rev_ind.
  - split_and!; [done|simpl; rewrite map_size_empty; lia|]. intros key e. simpl. by rewrite lookup_empty.
  - unfold asked in *. rewrite foldl_snoc. by apply ask_kept_ok.
Qed.

(** ** Properties *)

(** Whatever was asked before, a token is taken for a user only when the API server
    vouched for it -- for a token with the same hash -- as that user and for this
    audience, now or less than thirty seconds before; a refusal is never kept, and no
    more than 256 answers ever are. *)
Theorem identified_was_vouched_for asks audience calls now answer token username :
  (Identify (asked (New asks audience) calls) now answer token).2 = Ok username →
  size (ch_entries (asked (New asks audience) calls)) ≤ Limit
  ∧ ∃ x, (x ∈ calls ∨ x = mkCall now token answer)
      ∧ vouched audience x (hex_sha256 token) username ∧ (now < cl_now x + TTL)%Z.
Proof.
  pose proof (asked_kept_ok asks audience calls) as (Ha & Hsize & Hk). intros Hr. split; [done|].
  destruct (Identify _ now answer token) as [c' r] eqn:Hi. simpl in Hr. subst r.
  apply Identify_cases in Hi as [[_ Hhit]|(status & -> & Hv & [= ->] & _)].
  - destruct (Hhit username eq_refl) as (e & He & <- & Hlt). destruct (Hk _ _ He) as (x & Hx & Hvx & Hu).
    exists x. split; [by left|]. split; [done|]. by rewrite <- Hu.
  - exists (mkCall now token (Ok (Some status))). split; [by right|]. split; [|simpl; unfold TTL; lia].
    split; [done|]. exists status. by rewrite <- Ha.
Qed.

(** A token asked about twice, the second time with the API server out of reach. *)
Lemma identified_was_vouched_for_witness :
  let operator := "system:serviceaccount:gentian-system:operator" in
  let first := mkCall 0 "token" (Ok (Some (mkReview true "" operator ["gentian-arbiter"]))) in
  size (ch_entries (asked (New true "gentian-arbiter") [first])) ≤ Limit
  ∧ ∃ x, (x ∈ [first] ∨ x = mkCall 29000000000 "token" (Err (Sentinel "timeout")))
      ∧ vouched "gentian-arbiter" x (hex_sha256 "token") operator ∧ (29000000000 < cl_now x + TTL)%Z.
Proof.
  intros operator first.
  apply (identified_was_vouched_for true "gentian-arbiter" [first] 29000000000 (Err (Sentinel "timeout")) "token" operator).
  vm_compute. reflexivity.
Defined.
