(* ===== verification/ArbiterTable.v ===== *)
(** * The arbiter's table

    [internal/arbiter/table.go], [naming.go] and [model.go]: which key opens which
    component's store, how a realm's people and groups are named in it, and what
    may be a store's starting tuples under its model.  Decoded documents stand
    for JSON, and compiling a model's text is OpenFGA's, a parameter. *)

From S2P Require Import Prelude.
From S2P Require Import GoStrings.
From S2P Require Import Ids.
From S2P Require Import Fga.
From S2P Require Import Sha256.

(** ** Names *)

Definition dnsLabel (s : string) : bool := dns_label s.

Definition UserObject (realm subject : string) : result string :=
  if negb (dnsLabel realm) then Err (Wrapf "%w: realm %q" [realm] ErrInvalidID)
  else User (realm +:+ ":" +:+ subject).

Definition GroupObject (realm name : string) : result string :=
  if negb (dnsLabel realm) then Err (Wrapf "%w: realm %q" [realm] ErrInvalidID)
  else
    let name := trim_prefix name "/" in
    if bool_decide (name = "") || contains_byte name "/"
    then Err (Wrapf "%w: group %q is not a top-level group" [name] ErrInvalidID)
    else Group (realm +:+ ":" +:+ name).

Definition groupType : string := "group".

Definition isGroupTyped (t : tuple) : bool :=
  has_prefix (t_user t) (groupType +:+ ":") || has_prefix (t_object t) (groupType +:+ ":").

Definition MaxStartingTuples : nat := 100.

(** ** Fields *)

Definition maxField : nat := 512.

Definition field (name v : string) (required : bool) : result unit :=
  if bool_decide (v = "") then
    if required then Err (Errorf "%s is required" [name]) else Ok tt
  else if bool_decide (maxField < String.length v) || contains_any v blanks
  then Err (Errorf "%s is not one OpenFGA can hold" [name])
  else Ok tt.

Definition valid (what : string) (t : tuple) : result unit :=
  _ ← field (what +:+ ".user") (t_user t) true;
  _ ← field (what +:+ ".relation") (t_relation t) true;
  field (what +:+ ".object") (t_object t) true.

(** [fmt.Sprintf("%s[%d]", name, i)]. *)
Definition nth_name (name : string) (i : nat) : string := name +:+ "[" +:+ pretty i +:+ "]".

(** ** A model's types *)

Record relatedType := mkRelated { rt_type : string; rt_relation : string; rt_wildcard : bool }.

(** A type definition of a decoded model: its relations' names, and what may be
    written directly under each, where the model says so. *)
Record typeDefinition := mkTypeDefinition {
  td_type : string; td_relations : gset string; td_metadata : option (gmap string (list relatedType)) }.

Definition modelTypes := gmap string (gmap string (list relatedType)).

Definition direct_types (td : typeDefinition) (name : string) : list relatedType :=
  match td_metadata td with None => [] | Some rels => default [] (rels !! name) end.

Definition readModel (decoded : result (list typeDefinition)) : result modelTypes :=
  defs ← decoded;
  Ok (foldl (λ out td, <[td_type td := set_to_map (λ name, (name, direct_types td name)) (td_relations td)]> out)
        ∅ defs).

Definition related_admits (userType id userRelation : string) (a : relatedType) : bool :=
  if negb (bool_decide (rt_type a = userType)) then false
  else if rt_wildcard a then bool_decide (id = "*") && bool_decide (userRelation = "")
  else if negb (bool_decide (rt_relation a = "")) then bool_decide (userRelation = rt_relation a) && negb (bool_decide (id = "*"))
  else bool_decide (userRelation = "") && negb (bool_decide (id = "*")).

Definition admits (m : modelTypes) (user relation objType : string) : result unit :=
  match m !! objType with
  | None => Err (Errorf "the model has no type %q" [objType])
  | Some rels =>
    match rels !! relation with
    | None => Err (Errorf "type %q has no relation %q" [objType; relation])
    | Some allowed =>
      match cut user ":" with
      | None => Err (Errorf "user %q is not <type>:<id>" [user])
      | Some (userType, rest) =>
        if bool_decide (userType = "") || bool_decide (rest = "")
        then Err (Errorf "user %q is not <type>:<id>" [user])
        else
          let '(id, userRelation) := default (rest, "") (cut rest "#") in
          if existsb (related_admits userType id userRelation) allowed then Ok tt
          else Err (Errorf "%s#%s cannot be written with the user %q" [objType; relation; user])
      end
    end
  end.

(** One starting tuple, after the ones in [seen]. *)
Definition starting_tuple (m : modelTypes) (mirror : bool) (i : nat) (seen : gset tuple) (t : tuple) : result unit :=
  _ ← valid (nth_name "tuples" i) t;
  match cut (t_object t) ":" with
  | None => Err (Errorf "tuples[%d]: object %q is not <type>:<id>" [pretty i; t_object t])
  | Some (objType, objID) =>
      if bool_decide (objType = "") || bool_decide (objID = "") || contains_byte objID "#"
      then Err (Errorf "tuples[%d]: object %q is not <type>:<id>" [pretty i; t_object t])
      else if mirror && bool_decide (objType = groupType)
      then Err (Errorf "tuples[%d]: who is in a group is the realm's to say, and this store mirrors the realm's groups" [pretty i])
      else
        _ ← wrap "tuples[%d]: %w" [pretty i] (admits m (t_user t) (t_relation t) objType);
        if bool_decide (t ∈ seen) then Err (Errorf "tuples[%d]: named twice" [pretty i]) else Ok tt
  end.

Fixpoint starting_tuples (m : modelTypes) (mirror : bool) (i : nat) (seen : gset tuple) (tuples : list tuple) : result unit :=
  match tuples with
  | [] => Ok tt
  | t :: rest => _ ← starting_tuple m mirror i seen t; starting_tuples m mirror (S i) ({[t]} ∪ seen) rest
  end.

Definition ValidateStartingTuples (decoded : result (list typeDefinition)) (tuples : list tuple) (mirror : bool)
    : result unit :=
  m ← wrap "the compiled model: %w" [] (readModel decoded);
  _ ← (if mirror
       then wrap "groups: mirror needs a type group with a relation member that users are written with: %w" []
              (admits m "user:someone" "member" groupType)
       else Ok tt);
  if bool_decide (MaxStartingTuples < length tuples)
  then Err (Errorf "at most %d starting tuples" [pretty MaxStartingTuples])
  else starting_tuples m mirror 0 ∅ tuples.

(** ** The table *)

Record Entry := mkEntry {
  e_tenant : string; e_component : string; e_key_hash : string; e_model : string;
  e_realm : string; e_mirror : bool; e_tuples : list tuple }.

Definition StoreName (e : Entry) : string := e_tenant e +:+ "/" +:+ e_component e.
Definition recordKey (e : Entry) : string := e_tenant e +:+ "." +:+ e_component e.

Definition parse_entry (seen : gset string) (e : Entry) : result (gset string) :=
  if negb (dnsLabel (e_tenant e)) || negb (dnsLabel (e_component e))
     || negb (bool_decide (String.length (e_key_hash e) = 64)) || bool_decide (e_model e = "")
  then Err (Errorf "the arbiter's table holds an entry that is not one: %q/%q" [e_tenant e; e_component e])
  else if bool_decide (e_key_hash e ∈ seen) || bool_decide (recordKey e ∈ seen)
  then Err (Errorf "the arbiter's table names %s or its key twice" [StoreName e])
  else if e_mirror e && bool_decide (e_realm e = "")
  then Err (Errorf "the arbiter's table mirrors groups into %s and names no realm" [StoreName e])
  else if bool_decide (MaxStartingTuples < length (e_tuples e))
  then Err (Errorf "the arbiter's table gives %s more than %d starting tuples" [StoreName e; pretty MaxStartingTuples])
  else Ok ({[e_key_hash e; recordKey e]} ∪ seen).

Definition ParseTable (decoded : result (list Entry)) : result (list Entry) :=
  entries ← wrap "the arbiter's table: %w" [] decoded;
  _ ← fold_result parse_entry ∅ entries;
  Ok entries.

(** ** A profile's requirement *)

Definition ModelDigest (compiled : string) : string := hex_sha256 compiled.

(** OpenFGA's own reading of a model's text, as the types it defines and as JSON;
    and JSON: decoding and encoding again, and the types in a compiled model. *)
Class ModelTools := {
  TransformDSLToProto : string → result (list typeDefinition);
  TransformDSLToJSON : string → result string;
  reencode : string → result string;
  decode_model : string → result (list typeDefinition) }.

Definition Compile `{ModelTools} (dsl : string) : result string :=
  types ← wrap "the authorization model does not compile: %w" [] (TransformDSLToProto dsl);
  match types with
  | [] => Err (Sentinel "the authorization model defines no type")
  | _ :: _ =>
      out ← wrap "the authorization model does not compile: %w" [] (TransformDSLToJSON dsl);
      wrap "the compiled authorization model: %w" [] (reencode out)
  end.

Record AuthorizationRequirement := mkRequirement {
  ar_model : string; ar_groups : string; ar_tuples : list tuple }.

Definition AuthorizationGroupsMirror : string := "mirror".
Definition MirrorsGroups (a : AuthorizationRequirement) : bool :=
  bool_decide (ar_groups a = AuthorizationGroupsMirror).

Definition Requirement `{ModelTools} (req : option AuthorizationRequirement) : result (string * list tuple) :=
  match req with
  | None => Err (Sentinel "no authorization requirement")
  | Some req =>
      model ← Compile (ar_model req);
      _ ← ValidateStartingTuples (decode_model model) (ar_tuples req) (MirrorsGroups req);
      Ok (model, ar_tuples req)
  end.

(** ** Lemmas *)

(** *** The table *)

Lemma recordKey_inj e e' :
  dnsLabel (e_tenant e) = true → dnsLabel (e_tenant e') = true → recordKey e = recordKey e' →
  e_tenant e = e_tenant e' ∧ e_component e = e_component e'.
Proof.
  unfold recordKey. intros He He' Heq.
  apply (f_equal (λ s, cut s ".")) in Heq.
  assert (Some (e_tenant e, e_component e) = Some (e_tenant e', e_component e')) as [= -> ->]; [|done].
  rewrite <- (cut_app (e_tenant e) (e_component e) "."), <- (cut_app (e_tenant e') (e_component e') ".")
    by (by apply dns_label_contains). exact Heq.
Qed.

Lemma NoDup_fmap_elem_inj {A B} (f : A → B) l x y :
  NoDup (f <$> l) → x ∈ l → y ∈ l → f x = f y → x = y.
Proof.
  intros Hnd [i Hi]%list_elem_of_lookup [j Hj]%list_elem_of_lookup Heq.
  assert (i = j) as ->; [|congruence].
  eapply (NoDup_lookup (f <$> l)); [done|by rewrite list_lookup_fmap, Hi|rewrite list_lookup_fmap, Hj; simpl; congruence].
Qed.

(** An entry the table may hold. *)
Definition entry_ok (e : Entry) : Prop :=
  dnsLabel (e_tenant e) = true ∧ dnsLabel (e_component e) = true ∧ String.length (e_key_hash e) = 64
  ∧ e_model e ≠ "" ∧ (e_mirror e = true → e_realm e ≠ "") ∧ length (e_tuples e) ≤ MaxStartingTuples.

Definition names_of (e : Entry) : gset string := {[e_key_hash e; recordKey e]}.

Lemma parse_entry_Ok seen e seen' :
  parse_entry seen e = Ok seen' ↔
  entry_ok e ∧ (e_key_hash e ∉ seen) ∧ (recordKey e ∉ seen) ∧ seen' = names_of e ∪ seen.
Proof.
  unfold parse_entry, entry_ok, names_of.
  destruct (dnsLabel (e_tenant e)); simpl; [|intuition congruence].
  destruct (dnsLabel (e_component e)); simpl; [|intuition congruence].
  destruct (bool_decide (String.length _ = 64)) eqn:Hlen; simpl; go_bool; [|intuition congruence].
  destruct (bool_decide (e_model e = "")) eqn:Hm; go_bool; [intuition congruence|].
  destruct (bool_decide (e_key_hash e ∈ seen)) eqn:Hk; simpl; go_bool; [intuition congruence|].
  destruct (bool_decide (recordKey e ∈ seen)) eqn:Hr; go_bool; [intuition congruence|].
  destruct (e_mirror e && bool_decide (e_realm e = "")) eqn:Hg; go_bool; [intuition congruence|].
  destruct (bool_decide (MaxStartingTuples < _)) eqn:Ht; go_bool; [split; [congruence|lia]|].
  split; [intros [= <-]|intros (_ & _ & _ & ->); done].
  split_and!; try done; [|lia]. intros Hmirror. destruct Hg; [congruence|done].
Qed.

Lemma parse_entries_Ok seen entries seen' :
  fold_result parse_entry seen entries = Ok seen' →
  Forall entry_ok entries ∧ NoDup (e_key_hash <$> entries) ∧ NoDup (recordKey <$> entries)
  ∧ ∀ e, e ∈ entries → (e_key_hash e ∉ seen) ∧ (recordKey e ∉ seen).
Proof.
  revert seen. induction entries as [|e rest IH]; intros seen; simpl.
  { intros _. split_and!; [constructor..|]. intros e. by rewrite elem_of_nil. }
  intros (seen1 & (Hok & Hk & Hr & ->)%parse_entry_Ok & Hrest)%bind_Ok.
  apply IH in Hrest as (Hall & Hnd1 & Hnd2 & Hnew). unfold names_of in Hnew.
  split_and!; [by constructor|constructor; [|done]|constructor; [|done]|].
  - intros (e' & Heq & Hin)%list_elem_of_fmap. destruct (Hnew e' Hin). set_solver.
  - intros (e' & Heq & Hin)%list_elem_of_fmap. destruct (Hnew e' Hin). set_solver.
  - intros e'. rewrite elem_of_cons. intros [->|Hin]; [done|]. destruct (Hnew e' Hin). set_solver.
Qed.

Lemma arbiter_table_Ok decoded entries :
  ParseTable decoded = Ok entries →
  decoded = Ok entries ∧ Forall entry_ok entries
  ∧ NoDup (e_key_hash <$> entries) ∧ NoDup (recordKey <$> entries).
Proof.
  unfold ParseTable. intros (es & Hd%wrap_Ok & (seen & Hrun & [= <-])%bind_Ok)%bind_Ok.
  apply parse_entries_Ok in Hrun. tauto.
Qed.

(** *** Starting tuples *)

(** How a user reads: a type, an id and a relation, the relation empty when the user
    names none or ends after the [#]. *)
Definition user_reads (user ty id rel : string) : Prop :=
  ty ≠ "" ∧ contains_byte ty ":" = false ∧ contains_byte id "#" = false
  ∧ ((user = ty +:+ ":" +:+ id ∧ id ≠ "" ∧ rel = "") ∨ user = ty +:+ ":" +:+ id +:+ "#" +:+ rel).

(** Everyone of the type where the relation takes everyone; otherwise one object, or
    the holders of a relation on one, as the relation takes them. *)
Definition related_ok (ty id rel : string) (a : relatedType) : Prop :=
  rt_type a = ty
  ∧ ((rt_wildcard a = true ∧ id = "*" ∧ rel = "") ∨ (rt_wildcard a = false ∧ id ≠ "*" ∧ rel = rt_relation a)).

Lemma related_admits_iff ty id rel a : related_admits ty id rel a = true ↔ related_ok ty id rel a.
Proof.
  unfold related_admits, related_ok. destruct a as [t r w]. simpl.
  destruct (bool_decide (t = ty)) eqn:Ht; simpl; go_bool; [|intuition congruence].
  destruct w; [go_bool; intuition congruence|].
  destruct (bool_decide (r = "")) eqn:Hr; simpl; go_bool; intuition congruence.
Qed.

Lemma user_reads_cut user ty id rel :
  user_reads user ty id rel ↔
  ∃ rest, cut user ":" = Some (ty, rest) ∧ ty ≠ "" ∧ rest ≠ "" ∧ default (rest, "") (cut rest "#") = (id, rel).
Proof.
  unfold user_reads. split.
  - intros (Hty & Hc & Hid & [(-> & Hne & ->)| ->]).
    + exists id. split_and!; [by apply cut_app|done|done|]. by rewrite (proj2 (cut_None id "#") Hid).
    + exists (id +:+ "#" +:+ rel). split_and!; [by apply cut_app|done|by destruct id|].
      change ("#" +:+ rel) with (String "#" rel). by rewrite cut_app.
  - intros (rest & (-> & Hc)%cut_Some & Hty & Hne & Hcut). split_and!; try done.
    + destruct (cut rest "#") as [[id' rel']|] eqn:Hr; simpl in Hcut; injection Hcut as <- <-.
      * by apply cut_Some in Hr as [_ Hr].
      * by apply cut_None in Hr.
    + destruct (cut rest "#") as [[id' rel']|] eqn:Hr; simpl in Hcut; injection Hcut as <- <-; [|by left].
      apply cut_Some in Hr as [-> _]. by right.
Qed.

Lemma user_reads_inj user ty id rel ty' id' rel' :
  user_reads user ty id rel → user_reads user ty' id' rel' → ty = ty' ∧ id = id' ∧ rel = rel'.
Proof.
  rewrite !user_reads_cut. intros (rest & Hc & _ & _ & Hr) (rest' & Hc' & _ & _ & Hr').
  rewrite Hc in Hc'. injection Hc' as <- <-. rewrite Hr in Hr'. by injection Hr'.
Qed.

(** What may be written under a relation of a type of objects. *)
Definition admitted (m : modelTypes) (user relation objType : string) : Prop :=
  ∃ rels allowed a ty id rel, m !! objType = Some rels ∧ rels !! relation = Some allowed ∧ a ∈ allowed
    ∧ user_reads user ty id rel ∧ related_ok ty id rel a.

Lemma admits_iff m user relation objType :
  admits m user relation objType = Ok tt ↔ admitted m user relation objType.
Proof.
  unfold admits, admitted. split.
  - destruct (m !! objType) as [rels|]; [|done]. destruct (rels !! relation) as [allowed|] eqn:Ha; [|done].
    destruct (cut user ":") as [[ty rest]|] eqn:Hc; [|done].
    destruct (bool_decide (ty = "") || bool_decide (rest = "")) eqn:Hne; [done|]. go_bool.
    destruct (default (rest, "") (cut rest "#")) as [id rel] eqn:Hd.
    destruct (existsb _ allowed) eqn:He; [|done]. intros _.
    apply existsb_elem_of in He as (a & Hin & Hok%related_admits_iff).
    exists rels, allowed, a, ty, id, rel. split_and!; try done.
    apply user_reads_cut. exists rest. naive_solver.
  - intros (rels & allowed & a & ty & id & rel & -> & -> & Hin & Hread & Hok).
    apply user_reads_cut in Hread as (rest & -> & Hty & Hrest & ->).
    rewrite !bool_decide_false by done. simpl.
    assert (existsb (related_admits ty id rel) allowed = true) as ->; [|done].
    apply existsb_elem_of. exists a. by rewrite related_admits_iff.
Qed.

Definition field_ok (v : string) : Prop :=
  v ≠ "" ∧ String.length v ≤ maxField ∧ contains_any v blanks = false.

Lemma field_iff name v : field name v true = Ok tt ↔ field_ok v.
Proof.
  unfold field, field_ok. destruct (bool_decide (v = "")) eqn:Hv; go_bool; [intuition congruence|].
  destruct (bool_decide (maxField < String.length v)) eqn:Hl; simpl; go_bool.
  { split; [congruence|lia]. }
  destruct (contains_any v blanks); split; try done; [naive_solver|]. intros _. split_and!; [done|lia|done].
Qed.

Lemma valid_iff what t :
  valid what t = Ok tt ↔ field_ok (t_user t) ∧ field_ok (t_relation t) ∧ field_ok (t_object t).
Proof.
  unfold valid. rewrite bind_Ok. setoid_rewrite bind_Ok. split.
  - intros ([] & Hu & [] & Hr & Ho). apply field_iff in Hu, Hr, Ho. done.
  - intros (Hu & Hr & Ho). exists tt. split; [by apply field_iff|]. exists tt. split; by apply field_iff.
Qed.

(** A starting tuple the model and the platform allow. *)
Definition starting_ok (m : modelTypes) (mirror : bool) (t : tuple) : Prop :=
  field_ok (t_user t) ∧ field_ok (t_relation t) ∧ field_ok (t_object t)
  ∧ ∃ ty id, t_object t = ty +:+ ":" +:+ id ∧ ty ≠ "" ∧ id ≠ ""
      ∧ contains_byte ty ":" = false ∧ contains_byte id "#" = false
      ∧ (mirror = true → ty ≠ groupType)
      ∧ admitted m (t_user t) (t_relation t) ty.

Lemma starting_tuple_iff m mirror i seen t :
  starting_tuple m mirror i seen t = Ok tt ↔ starting_ok m mirror t ∧ t ∉ seen.
Proof.
  unfold starting_tuple, starting_ok. rewrite bind_Ok. split.
  - intros ([] & (Hu & Hr & Ho)%valid_iff & Hrest).
    destruct (cut (t_object t) ":") as [[ty id]|] eqn:Hc; [|done]. apply cut_Some in Hc as [Hc Hcol].
    destruct (bool_decide (ty = "") || bool_decide (id = "") || contains_byte id "#") eqn:Hn; [done|]. go_bool.
    destruct (mirror && bool_decide (ty = groupType)) eqn:Hg; [done|]. go_bool.
    apply bind_Ok in Hrest as ([] & Ha%wrap_Ok & Hseen). apply admits_iff in Ha.
    destruct (bool_decide (t ∈ seen)) eqn:Hs; [done|]. go_bool.
    split; [|done]. split_and!; try done. exists ty, id. naive_solver.
  - intros [(Hu & Hr & Ho & ty & id & Hc & Hty & Hid & Hcol & Hhash & Hg & Ha) Hs].
    exists tt. split; [by apply valid_iff|]. rewrite Hc. change (":" +:+ id) with (String ":" id). rewrite cut_app by done.
    rewrite !(bool_decide_eq_false_2 (_ = "")), Hhash by done. simpl.
    assert (mirror && bool_decide (ty = groupType) = false) as ->.
    { destruct mirror; [|done]. simpl. by apply bool_decide_eq_false, Hg. }
    apply bind_Ok. exists tt. split; [by apply wrap_Ok, admits_iff|]. by rewrite bool_decide_false.
Qed.

Lemma starting_tuples_iff m mirror i seen tuples :
  starting_tuples m mirror i seen tuples = Ok tt ↔
  Forall (starting_ok m mirror) tuples ∧ NoDup tuples ∧ (∀ t, t ∈ tuples → t ∉ seen).
Proof.
  revert i seen. induction tuples as [|t rest IH]; intros i seen; simpl.
  { split; [|done]. intros _. split_and!; [constructor..|]. intros t. by rewrite elem_of_nil. }
  rewrite bind_Ok, Forall_cons, NoDup_cons. split.
  - intros ([] & [Hok Hs]%starting_tuple_iff & (Hall & Hnd & Hnew)%IH).
    split_and!; try done; [intros Hin; apply Hnew in Hin; set_solver|].
    intros t'. rewrite elem_of_cons. intros [->|Hin]; [done|]. apply Hnew in Hin. set_solver.
  - intros ([Hok Hall] & [Hfresh Hnd] & Hnew). exists tt.
    split; [apply starting_tuple_iff; split; [done|by apply Hnew; left]|].
    apply IH. split_and!; try done. intros t' Hin. specialize (Hnew t' (list_elem_of_further _ _ _ Hin)). set_solver.
Qed.

(** ** Properties *)

(** A table that is accepted has one entry per component of a tenant and one per
    key: neither a key's digest nor a tenant's component is named twice, so what a
    key opens, and which record a store is found by, is one entry's; and each entry
    is complete, with a realm wherever it mirrors one. *)
Theorem ParseTable_one_store_per_key decoded entries :
  ParseTable decoded = Ok entries →
  decoded = Ok entries ∧ Forall entry_ok entries
  ∧ NoDup (e_key_hash <$> entries)
  ∧ NoDup ((λ e, (e_tenant e, e_component e)) <$> entries)
  ∧ (∀ e e', e ∈ entries → e' ∈ entries → recordKey e = recordKey e' → e = e').
Proof.
  intros (Hd & Hall & Hnd1 & Hnd2)%arbiter_table_Ok. rewrite Forall_forall in Hall. split_and!; try done.
  - by apply Forall_forall.
  - apply (NoDup_fmap_1 (λ p, p.1 +:+ "." +:+ p.2)). by rewrite <-list_fmap_compose.
  - intros e e' He He' Heq. by eapply (NoDup_fmap_elem_inj recordKey).
Qed.

(** The starting tuples of a profile are admitted exactly when there are at most a
    hundred, each is named once, is one OpenFGA can hold, and is one its model takes;
    and, in a store that mirrors the realm's groups, the model has groups with
    members and no tuple says who is in one. *)
Theorem ValidateStartingTuples_iff decoded m tuples mirror :
  readModel decoded = Ok m →
  ValidateStartingTuples decoded tuples mirror = Ok tt ↔
  (mirror = true → admitted m "user:someone" "member" groupType)
  ∧ length tuples ≤ MaxStartingTuples ∧ NoDup tuples ∧ Forall (starting_ok m mirror) tuples.
Proof.
  intros Hm. unfold ValidateStartingTuples. rewrite Hm. simpl. rewrite bind_Ok. split.
  - intros ([] & Hmirror & Hrest). destruct (bool_decide (_ < _)) eqn:Hl; [done|]. go_bool.
    apply starting_tuples_iff in Hrest as (Hall & Hnd & _). split_and!; try done; [|lia].
    intros ->. by apply wrap_Ok, admits_iff in Hmirror.
  - intros (Hmirror & Hl & Hnd & Hall). exists tt. split.
    + destruct mirror; [|done]. apply wrap_Ok, admits_iff. auto.
    + rewrite bool_decide_false by lia. apply starting_tuples_iff. by split_and!.
Qed.

(** ** A table and a model *)

Module TableExample.
Definition digest_a : string := hex_sha256 "key-a".
Definition digest_b : string := hex_sha256 "key-b".
Definition entries : list Entry :=
  [mkEntry "acme" "wiki" digest_a "{}" "acme" true []; mkEntry "acme" "files" digest_b "{}" "" false []].

(** People and groups, and documents a person or a group's members may view. *)
Definition defs : list typeDefinition :=
  [mkTypeDefinition "user" ∅ None;
   mkTypeDefinition "group" {["member"]} (Some {["member" := [mkRelated "user" "" false]]});
   mkTypeDefinition "doc" {["viewer"]}
     (Some {["viewer" := [mkRelated "user" "" true; mkRelated "group" "member" false]]})].
Definition types : modelTypes :=
  {["user" := ∅; "group" := {["member" := [mkRelated "user" "" false]]};
    "doc" := {["viewer" := [mkRelated "user" "" true; mkRelated "group" "member" false]]}]}.
Definition start : list tuple :=
  [Tuple "user:*" "viewer" "doc:welcome"; Tuple "group:acme/staff#member" "viewer" "doc:handbook"].
End TableExample.

Lemma ParseTable_one_store_per_key_witness :
  Ok TableExample.entries = Ok TableExample.entries ∧ Forall entry_ok TableExample.entries
  ∧ NoDup (e_key_hash <$> TableExample.entries)
  ∧ NoDup ((λ e, (e_tenant e, e_component e)) <$> TableExample.entries)
  ∧ (∀ e e', e ∈ TableExample.entries → e' ∈ TableExample.entries → recordKey e = recordKey e' → e = e').
Proof. apply ParseTable_one_store_per_key. vm_compute. reflexivity. Defined.

Lemma ValidateStartingTuples_iff_witness :
  ValidateStartingTuples (Ok TableExample.defs) TableExample.start true = Ok tt ↔
  (true = true → admitted TableExample.types "user:someone" "member" groupType)
  ∧ length TableExample.start ≤ MaxStartingTuples ∧ NoDup TableExample.start
  ∧ Forall (starting_ok TableExample.types true) TableExample.start.
Proof. apply ValidateStartingTuples_iff. vm_compute. reflexivity. Defined.
