(* ===== verification/ArbiterStores.v ===== *)
(** * The arbiter's stores

    [internal/arbiter/stores.go] and [openfga.go]: the store and model an entry of
    the table is decided in, made on first sight and found again by a record.  The
    app instance of OpenFGA and the record (a ConfigMap of the cluster, kept by
    [recorder.go]) are parameters with what the code relies on; both may fail at any
    call, and a call that fails may have been carried out.  One arbiter is modelled:
    the lock of an entry makes the calls for one store a sequence. *)

From S2P Require Import Prelude.
From S2P Require Import GoStrings.
From S2P Require Import Fga.
From S2P Require Import ArbiterTable.

(** ** What is recorded of a store *)

Record StoreIDs := mkIDs {
  si_store : string; si_model : string; si_digest : string;
  si_written : list tuple; si_mirrored : bool }.

Definition with_model (ids : StoreIDs) (model digest : string) : StoreIDs :=
  mkIDs (si_store ids) model digest (si_written ids) (si_mirrored ids).
Definition with_written (ids : StoreIDs) (written : list tuple) (mirrored : bool) : StoreIDs :=
  mkIDs (si_store ids) (si_model ids) (si_digest ids) written mirrored.

(** ** The instance and the record *)

(** What asking for a store to be removed answers: OpenFGA says it was not there with
    a status of its own. *)
Inductive delete_answer := Deleted | Missing | DeleteFailed (e : error).

Class AppInstance (F : Type) := {
  ai_create : F → string → F * result string;
  ai_delete : F → string → F * delete_answer;
  ai_write_model : F → string → string → F * result string;
  ai_read_model : F → string → string → result string;
  ai_server : string → Server F }.

(** OpenFGA's stores, by id, with the tuples of each, and the models written so far.  A
    request names one store and leaves the others; one that fails may have been
    carried out.  A model gets an id of its own in its store and is not changed after. *)
Class AppInstanceLaws (F : Type) `{AppInstance F} := {
  ai_stores : F → gmap string (gset tuple);
  (** The ids handed out so far, which are not handed out again. *)
  ai_used : F → gset string;
  ai_stores_used s : dom (ai_stores s) ⊆ ai_used s;
  ai_create_ok s name s' id : ai_create s name = (s', Ok id) →
    (id ∉ ai_used s) ∧ ai_used s' = {[id]} ∪ ai_used s ∧ ai_stores s' = <[id := ∅]> (ai_stores s);
  ai_create_err s name s' e : ai_create s name = (s', Err e) →
    ai_used s ⊆ ai_used s' ∧ ∀ k, k ∈ ai_used s → ai_stores s' !! k = ai_stores s !! k;
  ai_delete_used s id : ai_used (ai_delete s id).1 = ai_used s;
  ai_delete_ok s id s' : ai_delete s id = (s', Deleted) → ai_stores s' = delete id (ai_stores s);
  ai_delete_missing s id s' : ai_delete s id = (s', Missing) →
    ai_stores s !! id = None ∧ ai_stores s' = ai_stores s;
  ai_delete_err s id s' e : ai_delete s id = (s', DeleteFailed e) →
    ai_stores s' = ai_stores s ∨ ai_stores s' = delete id (ai_stores s);
  ai_model_stores s id model :
    let s' := (ai_write_model s id model).1 in ai_stores s' = ai_stores s ∧ ai_used s' = ai_used s;
  (** The texts written as models, by store and model id. *)
  ai_models : F → gmap (string * string) string;
  ai_model_ok s id model s' mid : ai_write_model s id model = (s', Ok mid) →
    ai_models s !! (id, mid) = None ∧ ai_models s' = <[(id, mid) := model]> (ai_models s);
  ai_model_err s id model s' e : ai_write_model s id model = (s', Err e) → ai_models s ⊆ ai_models s';
  ai_create_models s name : ai_models (ai_create s name).1 = ai_models s;
  ai_delete_models s id : ai_models (ai_delete s id).1 = ai_models s;
  ai_server_models id s r : ai_models (@srv_write F (ai_server id) s r).1 = ai_models s;
  ai_server_laws id : @ServerLaws F (ai_server id);
  ai_server_contents id s : @contents F (ai_server id) (ai_server_laws id) s = default ∅ (ai_stores s !! id);
  ai_server_frame id s r :
    let s' := (@srv_write F (ai_server id) s r).1 in
    ai_used s' = ai_used s ∧ dom (ai_stores s') = dom (ai_stores s)
    ∧ ∀ k, k ≠ id → ai_stores s' !! k = ai_stores s !! k }.

Class Recorder (R : Type) := {
  rec_load : R → R * result (gmap string StoreIDs);
  rec_claim : R → string → StoreIDs → R * result StoreIDs;
  rec_save : R → string → StoreIDs → R * result unit;
  rec_forget : R → string → R * result unit }.

Class RecorderLaws (R : Type) `{Recorder R} := {
  rec_data : R → gmap string StoreIDs;
  rec_load_data s : rec_data (rec_load s).1 = rec_data s;
  rec_load_ok s s' ids : rec_load s = (s', Ok ids) → ids = rec_data s;
  rec_claim_ok s key ids s' got : rec_claim s key ids = (s', Ok got) →
    got = default ids (rec_data s !! key) ∧ rec_data s' = <[key := got]> (rec_data s);
  rec_claim_err s key ids s' e : rec_claim s key ids = (s', Err e) →
    rec_data s' = rec_data s ∨ (rec_data s !! key = None ∧ rec_data s' = <[key := ids]> (rec_data s));
  rec_save_ok s key ids s' u : rec_save s key ids = (s', Ok u) → rec_data s' = <[key := ids]> (rec_data s);
  rec_save_err s key ids s' e : rec_save s key ids = (s', Err e) →
    rec_data s' = rec_data s ∨ rec_data s' = <[key := ids]> (rec_data s);
  rec_forget_ok s key s' u : rec_forget s key = (s', Ok u) → rec_data s' = delete key (rec_data s);
  rec_forget_err s key s' e : rec_forget s key = (s', Err e) →
    rec_data s' = rec_data s ∨ rec_data s' = delete key (rec_data s) }.

(** ** The arbiter *)

Record arbiter (F R : Type) := mkArbiter {
  a_fga : F; a_rec : R; a_loaded : bool; a_ids : gmap string StoreIDs }.
Arguments mkArbiter {_ _} _ _ _ _.
Arguments a_fga {_ _} _.
Arguments a_rec {_ _} _.
Arguments a_loaded {_ _} _.
Arguments a_ids {_ _} _.

Section Stores.
Context {F R : Type} `{AppInstance F} `{Recorder R}.
(** The pages a read may take. *)
Context (fuel : nat).
#[local] Open Scope act_scope.

Definition on_fga {A} (f : F → F * result A) : act (arbiter F R) A := λ a,
  let '(x, r) := f (a_fga a) in (mkArbiter x (a_rec a) (a_loaded a) (a_ids a), r).
Definition on_rec {A} (f : R → R * result A) : act (arbiter F R) A := λ a,
  let '(x, r) := f (a_rec a) in (mkArbiter (a_fga a) x (a_loaded a) (a_ids a), r).

Definition createStore (name : string) : act (arbiter F R) string :=
  id ⇐ on_fga (λ s, ai_create s name);
  if bool_decide (id = "") then fail (Errorf "openfga created store %q without an id" [name]) else ret id.

Definition deleteStore (id : string) : act (arbiter F R) unit :=
  on_fga (λ s, match ai_delete s id with
               | (s', Deleted) => (s', Ok tt)
               | (s', Missing) => (s', Ok tt)
               | (s', DeleteFailed e) => (s', Err e)
               end).

Definition writeModel (store model : string) : act (arbiter F R) string :=
  id ⇐ on_fga (λ s, ai_write_model s store model);
  if bool_decide (id = "") then fail (Sentinel "openfga wrote a model without an id") else ret id.

Definition writeTuples (store model : string) (writes deletes : list tuple) : act (arbiter F R) unit :=
  on_fga (λ s, @Write F (ai_server store) (mkWriteOptions model "ignore" "ignore") s writes deletes).

Definition readAll (store : string) (f : tuple) : act (arbiter F R) (list tuple) :=
  on_fga (λ s, (s, default (Err (Sentinel "out of fuel")) (@Read F (ai_server store) fuel s f))).

(** The record is read once. *)
Definition load : act (arbiter F R) unit := λ a,
  if a_loaded a then (a, Ok tt)
  else match rec_load (a_rec a) with
  | (x, Err e) => (mkArbiter (a_fga a) x (a_loaded a) (a_ids a), Err (Wrapf "read the recorded stores: %w" [] e))
  | (x, Ok ids) => (mkArbiter (a_fga a) x true ids, Ok tt)
  end.

Definition get (key : string) : act (arbiter F R) (option StoreIDs) := λ a, (a, Ok (a_ids a !! key)).
Definition set (key : string) (ids : StoreIDs) : act (arbiter F R) unit := λ a,
  (mkArbiter (a_fga a) (a_rec a) (a_loaded a) (<[key := ids]> (a_ids a)), Ok tt).
Definition unset (key : string) : act (arbiter F R) unit := λ a,
  (mkArbiter (a_fga a) (a_rec a) (a_loaded a) (delete key (a_ids a)), Ok tt).

(** [if err := f(); err != nil { _ = g(); return err }]. *)
Definition or_else {A} (m : act (arbiter F R) A) (g : act (arbiter F R) unit) : act (arbiter F R) A := λ a,
  match m a with (a', Err e) => ((g a').1, Err e) | r => r end.

Definition tupleDiff (had want : list tuple) : list tuple * list tuple :=
  (filter (λ t, t ∉ had) want, filter (λ t, t ∉ want) had).

(** The memberships a store held are taken out of it. *)
Definition take_memberships (e : Entry) (ids : StoreIDs) : act (arbiter F R) unit :=
  members ⇐ act_wrap "read the memberships of %s: %w" [StoreName e]
              (readAll (si_store ids) (Tuple "" "member" (groupType +:+ ":")));
  act_wrap "take the memberships out of %s: %w" [StoreName e]
    (writeTuples (si_store ids) (si_model ids) [] members).

Definition platformTuples (key : string) (e : Entry) (ids : StoreIDs) : act (arbiter F R) StoreIDs :=
  let '(writes, deletes) := tupleDiff (si_written ids) (e_tuples e) in
  let unmirror := si_mirrored ids && negb (e_mirror e) in
  if bool_decide (writes = []) && bool_decide (deletes = []) && negb unmirror
     && bool_decide (si_mirrored ids = e_mirror e)
  then ret ids
  else
    act_wrap "write the starting tuples of %s: %w" [StoreName e] (writeTuples (si_store ids) (si_model ids) writes deletes);;
    (if unmirror then take_memberships e ids else ret tt);;
    let ids := with_written ids (e_tuples e) (e_mirror e) in
    act_wrap "record the starting tuples of %s: %w" [StoreName e] (on_rec (λ s, rec_save s key ids));;
    set key ids;;
    ret ids.

(** A store of one's own, recorded before anything is written to it. *)
Definition establish (key : string) (e : Entry) : act (arbiter F R) StoreIDs :=
  created ⇐ act_wrap "create the store %s: %w" [StoreName e] (createStore (StoreName e));
  ids ⇐ or_else
    (act_wrap "record the store %s: %w" [StoreName e] (on_rec (λ s, rec_claim s key (mkIDs created "" "" [] false))))
    (deleteStore created);
  (if bool_decide (si_store ids = created) then ret tt else ignoring (deleteStore created));;
  set key ids;;
  ret ids.

Definition renew_model (key : string) (e : Entry) (ids : StoreIDs) : act (arbiter F R) StoreIDs :=
  let digest := ModelDigest (e_model e) in
  if bool_decide (si_model ids = "") || negb (bool_decide (si_digest ids = digest)) then
    model ⇐ act_wrap "write the model of %s: %w" [StoreName e] (writeModel (si_store ids) (e_model e));
    let ids := with_model ids model digest in
    act_wrap "record the model of %s: %w" [StoreName e] (on_rec (λ s, rec_save s key ids));;
    set key ids;;
    ret ids
  else ret ids.

Definition Resolve (e : Entry) : act (arbiter F R) StoreIDs :=
  let key := recordKey e in
  load;;
  got ⇐ get key;
  ids ⇐ match got with Some ids => ret ids | None => establish key e end;
  ids ⇐ renew_model key e ids;
  platformTuples key e ids.

(** The entry of a store the platform names by its component. *)
Definition store_of (tenant component model : string) : Entry :=
  mkEntry tenant component "" model "" false [].

Definition remove_store (key name : string) (ids : StoreIDs) : act (arbiter F R) unit :=
  act_wrap "delete the store %s: %w" [name] (deleteStore (si_store ids));;
  act_wrap "forget the store %s: %w" [name] (on_rec (λ s, rec_forget s key));;
  unset key.

(** A new store with a model and tuples, recorded once it holds them. *)
Definition refill (key : string) (e : Entry) (tuples : list tuple) : act (arbiter F R) unit :=
  created ⇐ act_wrap "create the store %s: %w" [StoreName e] (createStore (StoreName e));
  model ⇐ or_else (act_wrap "write the model of %s: %w" [StoreName e] (writeModel created (e_model e))) (deleteStore created);
  or_else (act_wrap "write the tuples of %s: %w" [StoreName e] (writeTuples created model tuples [])) (deleteStore created);;
  let ids := mkIDs created model (ModelDigest (e_model e)) [] false in
  on_rec (λ s, rec_save s key ids);;
  set key ids.

Definition Restore (tenant component model : string) (tuples : list tuple) : act (arbiter F R) unit :=
  let e := store_of tenant component model in
  let key := recordKey e in
  load;;
  got ⇐ get key;
  match got with
  | None => ret tt
  | Some ids =>
      act_wrap "delete the store %s: %w" [StoreName e] (deleteStore (si_store ids));;
      on_rec (λ s, rec_forget s key);;
      unset key
  end;;
  refill key e tuples.

(** A model as an object of JSON, by its fields. *)
Class JsonObjects := {
  json_fields : string → result (gmap string string);
  json_object : gmap string string → result string }.

Definition Export `{JsonObjects} (tenant component : string) : act (arbiter F R) (option (string * list tuple)) :=
  let key := recordKey (store_of tenant component "") in
  load;;
  got ⇐ get key;
  match got with
  | None => ret None
  | Some ids =>
      held ⇐ on_fga (λ s, (s, ai_read_model s (si_store ids) (si_model ids)));
      fields ⇐ of_result (json_fields held);
      model ⇐ of_result (json_object (delete "id" fields));
      all ⇐ readAll (si_store ids) (Tuple "" "" "");
      ret (Some (model, all))
  end.

Definition Purge (tenant component : string) : act (arbiter F R) unit :=
  let key := recordKey (store_of tenant component "") in
  load;;
  got ⇐ get key;
  match got with
  | None => ret tt
  | Some ids => remove_store key (tenant +:+ "/" +:+ component) ids
  end.

(** The components a tenant has a record for. *)
Definition components_of (tenant : string) (ids : gmap string StoreIDs) : list string :=
  omap (λ key, match cut key "." with
               | Some (t, c) => if bool_decide (t = tenant) then Some c else None
               | None => None
               end) (map_to_list ids).*1.

Definition PurgeTenant (tenant : string) : act (arbiter F R) unit :=
  load;;
  components ⇐ (λ a, (a, Ok (components_of tenant (a_ids a))));
  act_each (Purge tenant) components.

Definition Recorded (tenant component : string) : act (arbiter F R) bool :=
  load;;
  got ⇐ get (recordKey (store_of tenant component ""));
  ret (bool_decide (is_Some got)).
End Stores.

(** ** Lemmas *)

(** Only the store's own tuples differ. *)
Definition elsewhere {F} `{AppInstanceLaws F} (store : string) (x y : F) : Prop :=
  ai_used y = ai_used x ∧ dom (ai_stores y) = dom (ai_stores x)
  ∧ ∀ k, k ≠ store → ai_stores y !! k = ai_stores x !! k.

#[global] Instance elsewhere_preorder {F} `{AppInstanceLaws F} store : PreOrder (elsewhere (F:=F) store).
Proof.
  split; [done|]. intros x y z (Hu & Hd & Hs) (Hu' & Hd' & Hs'). split_and!; [congruence..|].
  intros k Hk. by rewrite Hs', Hs.
Qed.

Lemma Write_elsewhere {F} `{AppInstanceLaws F} store o (s : F) writes deletes :
  elsewhere store s (@Write F (ai_server store) o s writes deletes).1.
Proof. apply (@Write_preserves F (ai_server store) (elsewhere store) _). intros x r. apply ai_server_frame. Qed.

(** ** An instance and a record in memory

    The laws can hold: stores and models by id, the number of write requests until
    one is refused, reads refused where OpenFGA refuses them (an object that is only
    a type, with no user); and a record whose next answer may be lost. *)
Module Toy.
Record fga := mkFga {
  tf_stores : gmap string (gset tuple); tf_handed : gset string;
  tf_models : gmap (string * string) string; tf_budget : nat }.

Definition tf_used (s : fga) : gset string := tf_handed s ∪ dom (tf_stores s).

(** A name longer than every one handed out. *)
Fixpoint name_of (n : nat) : string := match n with 0 => "s" | S n => String "s" (name_of n) end.
Definition fresh_name (used : list string) : string := name_of (foldr (λ s n, max (String.length s) n) 0 used).

Lemma name_of_length n : String.length (name_of n) = S n.
Proof. induction n as [|n IH]; simpl; [done|by rewrite IH]. Qed.

Lemma fresh_name_fresh used : fresh_name used ∉ used.
Proof.
  intros Hin. assert (∀ s, s ∈ used → String.length s ≤ foldr (λ s n, max (String.length s) n) 0 used) as Hmax.
  { clear Hin. induction used as [|x used IH]; intros s; [by rewrite elem_of_nil|].
    rewrite elem_of_cons. intros [->|Hs]; simpl; [lia|]. specialize (IH s Hs). lia. }
  apply Hmax in Hin. unfold fresh_name in Hin. rewrite name_of_length in Hin. lia.
Qed.

(** What was left of the budget, and whether the request goes through. *)
Definition server_write (id : string) (s : fga) (r : write_request) : fga * result unit :=
  match tf_budget s, tf_stores s !! id with
  | 0, _ => (mkFga (tf_stores s) (tf_handed s) (tf_models s) 100, Err (Sentinel "unavailable"))
  | S n, None => (s, Err (Sentinel "store not found"))
  | S n, Some c => (mkFga (<[id := apply_request r c]> (tf_stores s)) (tf_handed s) (tf_models s) n, Ok tt)
  end.

Definition server_read (id : string) (s : fga) (f : tuple) (_ : string) : result (list tuple * string) :=
  match tf_stores s !! id with
  | None => Err (Sentinel "store not found")
  | Some c => if is_type_only (t_object f) && bool_decide (t_user f = "")
              then Err (Sentinel "the object id and the user cannot both be empty")
              else Ok (filter (λ t, matches f t = true) (elements c), "")
  end.

#[global] Instance instance : AppInstance fga := {|
  ai_create s name := let id := fresh_name (elements (tf_used s)) in
    (mkFga (<[id := ∅]> (tf_stores s)) ({[id]} ∪ tf_handed s) (tf_models s) (tf_budget s), Ok id);
  ai_delete s id := match tf_stores s !! id with
    | None => (s, Missing)
    | Some _ => (mkFga (delete id (tf_stores s)) ({[id]} ∪ tf_handed s) (tf_models s) (tf_budget s), Deleted)
    end;
  ai_write_model s id model := let mid := fresh_name (map_to_list (tf_models s)).*1.*2 in
    (mkFga (tf_stores s) (tf_handed s) (<[(id, mid) := model]> (tf_models s)) (tf_budget s), Ok mid);
  ai_read_model s id mid := match tf_models s !! (id, mid) with
    | Some model => Ok model | None => Err (Sentinel "model not found") end;
  ai_server id := {| srv_write := server_write id; srv_read := server_read id |} |}.

#[global] Program Instance server_laws (id : string) : @ServerLaws fga (ai_server id) :=
  {| contents s := default ∅ (tf_stores s !! id) |}.
Next Obligation.
  intros id s r s' u. simpl. unfold server_write. destruct (tf_budget s), (tf_stores s !! id); intros [= <- _]; simpl.
  by rewrite lookup_insert_eq.
Qed.
Next Obligation.
  intros id s r s' e. simpl. unfold server_write. destruct (tf_budget s), (tf_stores s !! id) eqn:Hs; intros [= <- _]; simpl;
    left; by rewrite ?Hs.
Qed.
Next Obligation.
  intros id s f. simpl.
  destruct (server_read id s f "") as [[l next]|e] eqn:Hr.
  - assert (next = "" ∧ ∃ c, tf_stores s !! id = Some c ∧ l = filter (λ t, matches f t = true) (elements c))
      as (-> & c & Hc & Hl).
    { unfold server_read in Hr. destruct (tf_stores s !! id) as [c|]; [|done]. destruct (_ && _); [done|].
      injection Hr as <- <-. by split; [|exists c]. }
    exists (Ok l). split; [by apply pages_last|]. intros ? [= <-]. rewrite Hc, Hl. simpl. split.
    + apply NoDup_filter, NoDup_elements.
    + intros t. rewrite list_elem_of_filter, elem_of_elements. tauto.
  - exists (Err e). split; [by apply pages_error|done].
Qed.

#[global] Program Instance laws : AppInstanceLaws fga := {|
  ai_stores := tf_stores; ai_used := tf_used; ai_models := tf_models; ai_server_laws := server_laws |}.
Next Obligation. intros s. unfold tf_used. set_solver. Qed.
Next Obligation.
  intros s name s' id [= <- <-]. split_and!; [rewrite <- elem_of_elements; apply fresh_name_fresh| |done].
  unfold tf_used. simpl. set_solver.
Qed.
Next Obligation. done. Qed.
Next Obligation.
  intros s id. simpl. destruct (tf_stores s !! id) eqn:Hs; [|done]. unfold tf_used. simpl.
  apply elem_of_dom_2 in Hs. rewrite dom_delete_L. apply set_eq. intros x. destruct (decide (x = id)); set_solver.
Qed.
Next Obligation. intros s id s'. simpl. destruct (tf_stores s !! id); by intros [= <-]. Qed.
Next Obligation. intros s id s'. simpl. destruct (tf_stores s !! id) eqn:Hs; by intros [= <-]. Qed.
Next Obligation. intros s id s' e. simpl. by destruct (tf_stores s !! id). Qed.
Next Obligation. done. Qed.
Next Obligation.
  intros s id model s' mid [= <- <-]. split; [|done]. destruct (tf_models s !! _) eqn:Hm; [|done].
  destruct (fresh_name_fresh (map_to_list (tf_models s)).*1.*2). apply list_elem_of_fmap. eexists (id, _). split; [done|].
  apply list_elem_of_fmap. eexists (_, _). split; [done|]. by apply elem_of_map_to_list.
Qed.
Next Obligation. done. Qed.
Next Obligation. done. Qed.
Next Obligation. intros s id. simpl. by destruct (tf_stores s !! id). Qed.
Next Obligation. intros id s r. simpl. unfold server_write. by destruct (tf_budget s), (tf_stores s !! id). Qed.
Next Obligation. done. Qed.
Next Obligation.
  intros id s r. simpl. unfold server_write, tf_used. destruct (tf_budget s), (tf_stores s !! id) eqn:Hs; simpl; try done.
  assert (dom (<[id := apply_request r g]> (tf_stores s)) = dom (tf_stores s)) as Hd.
  { rewrite dom_insert_L. apply elem_of_dom_2 in Hs. set_solver. }
  rewrite Hd. split_and!; [done|done|]. intros k Hk. by rewrite lookup_insert_ne.
Qed.

(** The record, and whether the answer to the next change of it is lost. *)
Record record := mkRecord { tr_data : gmap string StoreIDs; tr_lost : bool }.

Definition change {A} (s : record) (data : gmap string StoreIDs) (a : A) : record * result A :=
  (mkRecord data false, if tr_lost s then Err (Sentinel "timeout") else Ok a).

#[global] Instance recorder : Recorder record := {|
  rec_load s := (s, Ok (tr_data s));
  rec_claim s key ids := let got := default ids (tr_data s !! key) in change s (<[key := got]> (tr_data s)) got;
  rec_save s key ids := change s (<[key := ids]> (tr_data s)) tt;
  rec_forget s key := change s (delete key (tr_data s)) tt |}.

#[global] Program Instance record_laws : RecorderLaws record := {| rec_data := tr_data |}.
Next Obligation. done. Qed.
Next Obligation. by intros s s' ids [= _ <-]. Qed.
Next Obligation. intros s key ids s' got. simpl. unfold change. destruct (tr_lost s); [done|]. by intros [= <- <-]. Qed.
Next Obligation.
  intros s key ids s' e. simpl. unfold change. destruct (tr_lost s); [|done]. intros [= <- _]. simpl.
  destruct (tr_data s !! key) eqn:Hk; simpl; [left; by apply insert_id|by right].
Qed.
Next Obligation. intros s key ids s' u. simpl. unfold change. destruct (tr_lost s); [done|]. by intros [= <- _]. Qed.
Next Obligation. intros s key ids s' e. simpl. unfold change. destruct (tr_lost s); [|done]. intros [= <- _]. by right. Qed.
Next Obligation. intros s key s' u. simpl. unfold change. destruct (tr_lost s); [done|]. by intros [= <- _]. Qed.
Next Obligation. intros s key s' e. simpl. unfold change. destruct (tr_lost s); [|done]. intros [= <- _]. by right. Qed.

Definition start (lost : bool) : arbiter fga record :=
  mkArbiter (mkFga ∅ ∅ ∅ 100) (mkRecord ∅ lost) false ∅.
End Toy.
