(* ===== verification/ArbiterRecorder.v ===== *)
(** * The arbiter's record in a ConfigMap ([internal/arbiter/recorder.go])

    What the arbiter remembers of its stores, kept as one ConfigMap and changed
    against the version that was read.  A change is a sequence of calls on the API
    server, between which other arbiters make theirs: [change_step] is one call.

    [configmap_recorder_laws]: run alone, it is the recorder the arbiter's
    stores are proved against.  [claims_agree]: arbiters that claim a store for one
    component at once, in any interleaving of their calls, agree on one. *)

From S2P Require Import Prelude.
From S2P Require Import GoStrings.
From S2P Require Import Fga.
From S2P Require Import ArbiterTable.
From S2P Require Import ArbiterStores.

(** ** The API server *)

Record object := mkObject { ob_version : string; ob_data : gmap string string }.
Inductive api_error := NotFound | AlreadyExists | Conflict | APIFailed (e : error).

Class ConfigMaps (K : Type) := {
  cm_get : K → K * (object + api_error);
  cm_create : K → K * (object + api_error);
  cm_update : K → object → K * (object + api_error) }.

(** An update is taken only of the version that is stored, and gives a version that
    was not given before unless it changes nothing; a call that fails may have been
    carried out, but not one that is refused as a conflict. *)
Definition updated {K} (now : K → option object) (given : K → gset string) (s s' : K) (o : object) : Prop :=
  ∃ cur v, now s = Some cur ∧ ob_version cur = ob_version o ∧ now s' = Some (mkObject v (ob_data o))
    ∧ (v ∉ given s ∨ v = ob_version cur ∧ ob_data o = ob_data cur).
Definition created {K} (now : K → option object) (given : K → gset string) (s s' : K) : Prop :=
  ∃ v, now s = None ∧ now s' = Some (mkObject v ∅) ∧ v ∉ given s.

Class ConfigMapsLaws (K : Type) `{ConfigMaps K} := {
  cm_now : K → option object;
  cm_given : K → gset string;
  cm_now_given s o : cm_now s = Some o → ob_version o ∈ cm_given s;
  cm_get_kept s : cm_now (cm_get s).1 = cm_now s ∧ cm_given s ⊆ cm_given (cm_get s).1;
  cm_get_ok s s' o : cm_get s = (s', inl o) → cm_now s = Some o;
  cm_create_given s : cm_given s ⊆ cm_given (cm_create s).1;
  cm_create_ok s s' o : cm_create s = (s', inl o) → created cm_now cm_given s s' ∧ cm_now s' = Some o;
  cm_create_err s s' e : cm_create s = (s', inr e) → cm_now s' = cm_now s ∨ created cm_now cm_given s s';
  cm_update_given s o : cm_given s ⊆ cm_given (cm_update s o).1;
  cm_update_ok s o s' o' : cm_update s o = (s', inl o') → updated cm_now cm_given s s' o;
  cm_update_conflict s o s' : cm_update s o = (s', inr Conflict) → cm_now s' = cm_now s;
  cm_update_err s o s' e : cm_update s o = (s', inr e) → cm_now s' = cm_now s ∨ updated cm_now cm_given s s' o }.

(** The JSON of a record. *)
Class RecordJSON := {
  json_marshal : StoreIDs → result string;
  json_unmarshal : string → result StoreIDs }.
Class RecordJSONLaws `{RecordJSON} := {
  json_nonempty ids v : json_marshal ids = Ok v → v ≠ "";
  json_roundtrip ids v : json_marshal ids = Ok v → json_unmarshal v = Ok ids }.

Definition encodeIDs `{RecordJSON} (ids : StoreIDs) : result string := json_marshal ids.

Definition decodeIDs `{RecordJSON} (v : string) : result StoreIDs :=
  ids ← json_unmarshal v;
  if bool_decide (si_store ids = "") then Err (Sentinel "a record without a store") else Ok ids.

(** ** A change *)

(** What an edit of the data comes to: the data to write, if any, and the answer. *)
Definition edit (A : Type) : Type := gmap string string → result (option (gmap string string) * A).

(** Where a change is: at its first look, making the ConfigMap, looking again,
    writing, or done; with the attempts left. *)
Inductive progress (A : Type) :=
  | Looking (n : nat) | Making (n : nat) | Relooking (n : nat)
  | Writing (n : nat) (o : object) (a : A)
  | Finished (r : result A).
Arguments Looking {_} _.
Arguments Making {_} _.
Arguments Relooking {_} _.
Arguments Writing {_} _ _ _.
Arguments Finished {_} _.

(** [retry.DefaultRetry] makes five attempts. *)
Definition attempts : nat := 5.

Definition api_failure (e : api_error) : error :=
  match e with
  | NotFound => Sentinel "not found" | AlreadyExists => Sentinel "already exists"
  | Conflict => Sentinel "conflict" | APIFailed e => e
  end.

Definition again {A} (n : nat) (e : api_error) : progress A :=
  match e, n with
  | Conflict, S (S m) => Looking (S m)
  | _, _ => Finished (Err (api_failure e))
  end.

Section Recorder.
Context {K : Type} `{ConfigMaps K} `{RecordJSON}.

(** The object was read: the edit, and what is left to write. *)
Definition edited {A} (f : edit A) (n : nat) (o : object) : progress A :=
  match f (ob_data o) with
  | Err e => Finished (Err e)
  | Ok (None, a) => Finished (Ok a)
  | Ok (Some data, a) => Writing n (mkObject (ob_version o) data) a
  end.

Definition change_step {A} (f : edit A) (k : K) (p : progress A) : K * progress A :=
  match p with
  | Looking n =>
      match cm_get k with
      | (k', inl o) => (k', edited f n o)
      | (k', inr NotFound) => (k', Making n)
      | (k', inr e) => (k', again n e)
      end
  | Making n =>
      match cm_create k with
      | (k', inl o) => (k', edited f n o)
      | (k', inr AlreadyExists) => (k', Relooking n)
      | (k', inr e) => (k', again n e)
      end
  | Relooking n =>
      match cm_get k with
      | (k', inl o) => (k', edited f n o)
      | (k', inr e) => (k', again n e)
      end
  | Writing n o a =>
      match cm_update k o with
      | (k', inl _) => (k', Finished (Ok a))
      | (k', inr e) => (k', again n e)
      end
  | Finished r => (k, Finished r)
  end.

(** Alone, until it is done.  An attempt makes at most four calls, so that twenty
    are enough. *)
Fixpoint change_run {A} (f : edit A) (fuel : nat) (k : K) (p : progress A) : K * result A :=
  match p, fuel with
  | Finished r, _ => (k, r)
  | _, 0 => (k, Err (Sentinel "out of fuel"))
  | _, S fuel => let '(k', p') := change_step f k p in change_run f fuel k' p'
  end.
Definition change {A} (f : edit A) (k : K) : K * result A := change_run f (4 * attempts) k (Looking attempts).

(** [read] alone: the data as it is, made where there is none. *)
Definition read (k : K) : K * result (gmap string string) :=
  change_run (λ data, Ok (None, data)) 4 k (Looking 1).

Definition decode_all (data : gmap string string) : result (gmap string StoreIDs) :=
  fold_result (λ out kv, ids ← wrap "the record of %s: %w" [kv.1] (decodeIDs kv.2); Ok (<[kv.1 := ids]> out)) ∅ (map_to_list data).

Definition Load (k : K) : K * result (gmap string StoreIDs) :=
  let '(k', r) := read k in (k', data ← r; decode_all data).

Definition claim_edit (key : string) (ids : StoreIDs) : edit StoreIDs := λ data,
  match data !! key with
  | Some v => existing ← decodeIDs v; Ok (None, existing)
  | None => v ← encodeIDs ids; Ok (Some (<[key := v]> data), ids)
  end.
Definition Claim (k : K) (key : string) (ids : StoreIDs) : K * result StoreIDs := change (claim_edit key ids) k.

Definition save_edit (key : string) (ids : StoreIDs) : edit unit := λ data,
  v ← encodeIDs ids;
  if bool_decide (default "" (data !! key) = v) then Ok (None, tt) else Ok (Some (<[key := v]> data), tt).
Definition Save (k : K) (key : string) (ids : StoreIDs) : K * result unit := change (save_edit key ids) k.

Definition forget_edit (key : string) : edit unit := λ data,
  match data !! key with None => Ok (None, tt) | Some _ => Ok (Some (delete key data), tt) end.
Definition Forget (k : K) (key : string) : K * result unit := change (forget_edit key) k.

#[export] Instance configmap_recorder : Recorder K := {|
  rec_load := Load; rec_claim := Claim; rec_save := Save; rec_forget := Forget |}.
End Recorder.

(** ** Alone *)

Section Alone.
Context {K : Type} `{ConfigMapsLaws K} `{RecordJSONLaws}.

Definition data_of (k : K) : gmap string string := default ∅ (ob_data <$> cm_now k).

Lemma created_data k k' : created cm_now cm_given k k' → data_of k' = data_of k.
Proof. intros (v & Hn & Hn' & _). unfold data_of. by rewrite Hn, Hn'. Qed.

Lemma updated_data k k' o : updated cm_now cm_given k k' o → data_of k' = ob_data o.
Proof. intros (cur & v & _ & _ & Hn' & _). unfold data_of. by rewrite Hn'. Qed.

Lemma get_data k : data_of (cm_get k).1 = data_of k.
Proof. unfold data_of. by destruct (cm_get_kept k) as [-> _]. Qed.

Lemma create_data k : data_of (cm_create k).1 = data_of k.
Proof.
  destruct (cm_create k) as [k' [o|e]] eqn:Hc; simpl.
  - apply cm_create_ok in Hc as [Hc _]. by apply created_data.
  - apply cm_create_err in Hc as [Hc|Hc]; [unfold data_of; by rewrite Hc|by apply created_data].
Qed.

(** How far a change of the data [d] is: nothing is written before it is done, and
    then what the edit made of [d], or nothing if there was nothing to write. *)
Definition on_course {A} (f : edit A) (d : gmap string string) (k : K) (p : progress A) : Prop :=
  match p with
  | Looking _ | Making _ | Relooking _ => data_of k = d
  | Writing _ o a => data_of k = d ∧ f d = Ok (Some (ob_data o), a)
  | Finished (Ok a) => ∃ w, f d = Ok (w, a) ∧ data_of k = default d w
  | Finished (Err _) => data_of k = d ∨ ∃ d' a, f d = Ok (Some d', a) ∧ data_of k = d'
  end.

Lemma again_on_course {A} (f : edit A) d k n e : data_of k = d → on_course f d k (again n e).
Proof. intros Hd. destruct e; simpl; auto. destruct n as [|[|n]]; simpl; auto. Qed.

Lemma edited_on_course {A} (f : edit A) d k n o : data_of k = d → ob_data o = d → on_course f d k (edited f n o).
Proof.
  intros Hk Ho. unfold edited. rewrite Ho. destruct (f d) as [[[d'|] a]|e] eqn:Hf; simpl; [by split| |by left].
  exists None. done.
Qed.

Lemma change_step_on_course {A} (f : edit A) d k p :
  on_course f d k p → on_course f d (change_step f k p).1 (change_step f k p).2.
Proof.
  assert (∀ n k' o, data_of k = d → cm_get k = (k', inl o) → on_course f d k' (edited f n o)) as Hget.
  { intros n k' o Hd Hg. pose proof (get_data k) as Hk. rewrite Hg in Hk. apply edited_on_course; [simpl in Hk; congruence|].
    apply cm_get_ok in Hg. unfold data_of in Hd. by rewrite Hg in Hd. }
  destruct p as [n|n|n|n o a|r]; simpl; [intros Hd..|intros [Hd Hf]|done].
  - pose proof (get_data k) as Hk. destruct (cm_get k) as [k' [o|e]] eqn:Hg; [by apply Hget|]. simpl in Hk.
    rewrite Hd in Hk. pose proof (λ e, again_on_course f d k' n e Hk) as Ha.
    destruct e as [| | |e]; [done|exact (Ha AlreadyExists)|exact (Ha Conflict)|exact (Ha (APIFailed e))].
  - pose proof (create_data k) as Hk. destruct (cm_create k) as [k' [o|e]] eqn:Hg; simpl in Hk; rewrite Hd in Hk.
    + apply edited_on_course; [done|]. apply cm_create_ok in Hg as [_ Hn]. unfold data_of in Hk. by rewrite Hn in Hk.
    + pose proof (λ e, again_on_course f d k' n e Hk) as Ha.
      destruct e as [| | |e]; [exact (Ha NotFound)|done|exact (Ha Conflict)|exact (Ha (APIFailed e))].
  - pose proof (get_data k) as Hk. destruct (cm_get k) as [k' [o|e]] eqn:Hg; [by apply Hget|]. simpl in Hk.
    exact (again_on_course f d k' n e (eq_trans Hk Hd)).
  - destruct (cm_update k o) as [k' [o'|e]] eqn:Hu; simpl.
    + apply cm_update_ok in Hu. apply updated_data in Hu. by exists (Some (ob_data o)).
    + destruct e as [| | |e]; simpl; [| |apply cm_update_conflict in Hu|].
      all: try (apply cm_update_err in Hu as [Hu|Hu%updated_data]; [left; unfold data_of in *; congruence|right; by exists (ob_data o), a]).
      apply (again_on_course f d k' n Conflict). unfold data_of in *. congruence.
Qed.

Lemma change_run_on_course {A} (f : edit A) d fuel k p k' r :
  on_course f d k p → change_run f fuel k p = (k', r) → on_course f d k' (Finished r).
Proof.
  revert k p. induction fuel as [|fuel IH]; intros k p Hp Hrun; simpl in Hrun.
  - destruct p; [..|by injection Hrun as <- <-]; injection Hrun as <- <-; left; apply Hp.
  - destruct p as [n|n|n|n o a|r0]; [..|by injection Hrun as <- <-];
      (eapply IH; [apply change_step_on_course; exact Hp|]); by destruct (change_step f k _).
Qed.

Lemma change_data {A} (f : edit A) k k' r : change f k = (k', r) → on_course f (data_of k) k' (Finished r).
Proof. by apply change_run_on_course. Qed.

(** A change makes at most as many calls as it may. *)
Definition calls_left {A} (p : progress A) : nat :=
  match p with
  | Looking n => 4 * n | Making n => 4 * n - 1 | Relooking n => 4 * n - 2 | Writing n _ _ => 4 * n - 3
  | Finished _ => 0
  end.
Definition alive {A} (p : progress A) : Prop :=
  match p with Looking n | Making n | Relooking n | Writing n _ _ => n ≠ 0 | Finished _ => True end.

Lemma change_step_calls {A} (f : edit A) (k : K) p :
  alive p → (∀ r, p ≠ Finished r) →
  alive (change_step f k p).2 ∧ calls_left (change_step f k p).2 < calls_left p.
Proof.
  assert (∀ n o, n ≠ 0 → alive (edited f n o) ∧ calls_left (edited f n o) ≤ 4 * n - 3) as He.
  { intros n o Hn. unfold edited. destruct (f (ob_data o)) as [[[d|] a]|e]; simpl; split; (done || lia). }
  assert (∀ n e, n ≠ 0 → alive (@again A n e) ∧ calls_left (@again A n e) ≤ 4 * n - 4) as Ha.
  { intros n e Hn. destruct e; simpl; try (split; (done || lia)). destruct n as [|[|n]]; simpl; split; (done || lia). }
  intros Hal Hne. destruct p as [n|n|n|n o a|r]; simpl in Hal; [..|by destruct (Hne r)]; simpl.
  - destruct (cm_get k) as [k' [o|e]]; [destruct (He n o Hal); split; [done|simpl; lia]|].
    destruct e; simpl; try (split; [done|lia]); destruct (Ha n Conflict Hal); simpl in *; split; (done || lia).
  - destruct (cm_create k) as [k' [o|e]]; [destruct (He n o Hal); split; [done|simpl; lia]|].
    destruct e; simpl; try (split; [done|lia]); destruct (Ha n Conflict Hal); simpl in *; split; (done || lia).
  - destruct (cm_get k) as [k' [o|e]]; [destruct (He n o Hal); split; [done|simpl; lia]|].
    destruct (Ha n e Hal); simpl in *; split; (done || lia).
  - destruct (cm_update k o) as [k' [o'|e]]; simpl; [split; [done|lia]|].
    destruct (Ha n e Hal). split; [done|lia].
Qed.

Lemma change_run_ends {A} (f : edit A) fuel (k : K) p :
  alive p → calls_left p ≤ fuel →
  ∃ k' r, ∀ extra, change_run f (fuel + extra) k p = (k', r).
Proof.
  revert k p. induction fuel as [|fuel IH]; intros k p Hal Hf.
  - destruct p as [n|n|n|n o a|r]; simpl in *; try lia. exists k, r. by intros [|extra].
  - assert ((∀ r, p ≠ Finished r) ∨ ∃ r, p = Finished r) as [Hne|[r ->]] by (destruct p; eauto).
    + destruct (change_step_calls f k p Hal Hne) as [Hal' Hlt].
      destruct (IH (change_step f k p).1 (change_step f k p).2 Hal') as (k' & r & Hgo); [lia|].
      exists k', r. intros extra. rewrite <-(Hgo extra). simpl.
      destruct (change_step f k p) as [k1 p1] eqn:Hs. by destruct p; try (rewrite Hs); [..|by destruct (Hne r0)].
    + exists k, r. by intros extra.
Qed.

(** ** The recorder *)

Definition ids_of (v : string) : option StoreIDs := match json_unmarshal v with Ok ids => Some ids | Err _ => None end.
Definition recorded (k : K) : gmap string StoreIDs := omap ids_of (data_of k).

Lemma ids_of_encoded ids v : encodeIDs ids = Ok v → ids_of v = Some ids.
Proof. intros Hv. unfold ids_of. by rewrite (json_roundtrip _ _ Hv). Qed.

Lemma decodeIDs_Ok v ids : decodeIDs v = Ok ids → ids_of v = Some ids.
Proof. unfold decodeIDs, ids_of. destruct (json_unmarshal v); simpl; [|done]. destruct (bool_decide _); [done|]. by intros [= ->]. Qed.

Lemma decode_all_Ok data out : decode_all data = Ok out → out = omap ids_of data.
Proof.
  intros Hrun.
  assert (out = omap ids_of (list_to_map (map_to_list data) : gmap string string)) as ->; [|by rewrite list_to_map_to_list].
  pose proof (NoDup_fst_map_to_list data) as Hnd. revert Hnd.
  refine (fold_result_invariant _ (λ l out, NoDup l.*1 → out = omap ids_of (list_to_map l : gmap string string)) _ _ _ Hrun _ _).
  { intros _. simpl. by rewrite omap_empty. }
  intros seen [key v] x x' Hpre IH Hstep Hnd. rewrite fmap_app in Hnd. apply NoDup_app in Hnd as (Hs & Hdis & _).
  apply bind_Ok in Hstep as (ids & Hids%wrap_Ok%decodeIDs_Ok & [= <-]). simpl.
  rewrite IH by done. rewrite list_to_map_snoc by (intros Hin; by apply (Hdis key Hin), list_elem_of_singleton).
  by rewrite (omap_insert_Some _ _ _ _ _ Hids).
Qed.

Lemma recorded_same k k' : data_of k' = data_of k → recorded k' = recorded k.
Proof. unfold recorded. by intros ->. Qed.

#[export] Program Instance configmap_recorder_laws : RecorderLaws K := {| rec_data := recorded |}.
Next Obligation.
  intros s. simpl. unfold Load, read. destruct (change_run _ 4 s (Looking 1)) as [k' r] eqn:Hrun.
  eapply (change_run_on_course _ (data_of s)) in Hrun; [|done]. apply recorded_same. destruct r as [d|e]; simpl in Hrun |- *.
  - destruct Hrun as (w & [= <- <-] & ?). done.
  - destruct Hrun as [?|(d' & a & ? & _)]; done.
Qed.
Next Obligation.
  intros s s' ids. simpl. unfold Load, read. destruct (change_run _ 4 s (Looking 1)) as [k' r] eqn:Hrun.
  eapply (change_run_on_course _ (data_of s)) in Hrun; [|done]. intros [= <- Hr]. apply bind_Ok in Hr as (data & -> & Hd).
  destruct Hrun as (w & [= <- <-] & _). by apply decode_all_Ok.
Qed.
Next Obligation.
  intros s key ids s' got Hrun. apply change_data in Hrun as (w & Hf & Hd). unfold claim_edit in Hf.
  unfold recorded. rewrite Hd, lookup_omap. destruct (data_of s !! key) as [v|] eqn:Hk; simpl.
  - apply bind_Ok in Hf as (ex & Hex%decodeIDs_Ok & [= <- <-]). rewrite Hex. split; [done|]. simpl.
    rewrite insert_id; [done|]. by rewrite lookup_omap, Hk.
  - apply bind_Ok in Hf as (v & Hv%ids_of_encoded & [= <- <-]). split; [done|]. simpl. by apply omap_insert_Some.
Qed.
Next Obligation.
  intros s key ids s' e Hrun. apply change_data in Hrun as [Hd|(d' & a & Hf & Hd)]; [left; by apply recorded_same|].
  unfold claim_edit in Hf. destruct (data_of s !! key) as [v|] eqn:Hk; [by apply bind_Ok in Hf as (? & _ & ?)|].
  apply bind_Ok in Hf as (v & Hv%ids_of_encoded & [= <- _]). right. unfold recorded.
  rewrite lookup_omap, Hk, Hd. split; [done|]. by apply omap_insert_Some.
Qed.
Next Obligation.
  intros s key ids s' u Hrun. apply change_data in Hrun as (w & Hf & Hd). unfold save_edit in Hf.
  apply bind_Ok in Hf as (v & Hv & Hf). unfold recorded. rewrite Hd.
  destruct (bool_decide _) eqn:Hb; injection Hf as <- _; simpl.
  - apply bool_decide_eq_true in Hb. destruct (data_of s !! key) as [v'|] eqn:Hk; simpl in Hb.
    + subst v'. rewrite insert_id; [done|]. rewrite lookup_omap, Hk. simpl. by apply ids_of_encoded.
    + symmetry in Hb. by apply json_nonempty in Hv.
  - by apply omap_insert_Some, ids_of_encoded.
Qed.
Next Obligation.
  intros s key ids s' e Hrun. apply change_data in Hrun as [Hd|(d' & a & Hf & Hd)]; [left; by apply recorded_same|].
  unfold save_edit in Hf. apply bind_Ok in Hf as (v & Hv & Hf). destruct (bool_decide _); [done|]. injection Hf as <- _.
  right. unfold recorded. rewrite Hd. by apply omap_insert_Some, ids_of_encoded.
Qed.
Next Obligation.
  intros s key s' u Hrun. apply change_data in Hrun as (w & Hf & Hd). unfold forget_edit in Hf. unfold recorded. rewrite Hd.
  destruct (data_of s !! key) as [v|] eqn:Hk; injection Hf as <- _; simpl; [apply omap_delete|].
  rewrite delete_id; [done|]. by rewrite lookup_omap, Hk.
Qed.
Next Obligation.
  intros s key s' e Hrun. apply change_data in Hrun as [Hd|(d' & a & Hf & Hd)]; [left; by apply recorded_same|].
  unfold forget_edit in Hf. destruct (data_of s !! key) as [v|]; [|done]. injection Hf as <- _.
  right. unfold recorded. rewrite Hd. apply omap_delete.
Qed.
End Alone.

(** ** Several arbiters at once

    Each of them claims a store of its own for one component; every step is one
    call of one of them, or a change that somebody makes to other records. *)
Section Together.
Context {K : Type} `{ConfigMapsLaws K} `{RecordJSONLaws}.
Context (key : string) (mine : list StoreIDs).

Inductive claims_step : K * list (progress StoreIDs) → K * list (progress StoreIDs) → Prop :=
  | claims_call k ps i ids p k' p' :
      mine !! i = Some ids → ps !! i = Some p → change_step (claim_edit key ids) k p = (k', p') →
      claims_step (k, ps) (k', <[i := p']> ps)
  | claims_other k ps k' o cur :
      cm_now k = Some cur → updated cm_now cm_given k k' o → cm_given k ⊆ cm_given k' →
      ob_data o !! key = ob_data cur !! key → claims_step (k, ps) (k', ps).

(** What a claim that is about to write goes by, and what one that is done has. *)
Definition claim_true (k : K) (ids : StoreIDs) (p : progress StoreIDs) : Prop :=
  match p with
  | Writing _ o a => a = ids ∧ ob_version o ∈ cm_given k
      ∧ ∀ cur, cm_now k = Some cur → ob_version cur = ob_version o →
          ob_data cur !! key = None ∧ ∃ v, encodeIDs ids = Ok v ∧ ob_data o = <[key := v]> (ob_data cur)
  | Finished (Ok a) => ∃ v, data_of k !! key = Some v ∧ ids_of v = Some a
  | _ => True
  end.

(** The data after a step: what the key has stays, and a version that was given
    still names the same data. *)
Definition kept (k k' : K) : Prop :=
  cm_given k ⊆ cm_given k'
  ∧ (∀ v, data_of k !! key = Some v → data_of k' !! key = Some v)
  ∧ ∀ cur', cm_now k' = Some cur' → ob_version cur' ∈ cm_given k →
      ∃ cur, cm_now k = Some cur ∧ ob_version cur = ob_version cur' ∧ ob_data cur = ob_data cur'.

Lemma kept_true k k' ids p : kept k k' → claim_true k ids p → claim_true k' ids p.
Proof.
  intros (Hg & Hk & Hn). destruct p as [n|n|n|n o a|[a|e]]; simpl; try done.
  - intros (-> & Ho & Hcur). split_and!; [done|set_solver|]. intros cur' Hc' Hv.
    destruct (Hn cur' Hc') as (cur & Hc & Hv' & <-); [congruence|]. apply Hcur; [done|congruence].
  - intros (v & Hv & Hids). exists v. auto.
Qed.

Lemma kept_same k k' : cm_now k' = cm_now k → cm_given k ⊆ cm_given k' → kept k k'.
Proof.
  intros Hn Hg. split_and!; [done|unfold data_of; by rewrite Hn|]. rewrite Hn. intros cur' Hc _. by exists cur'.
Qed.

Lemma kept_created k k' : created cm_now cm_given k k' → cm_given k ⊆ cm_given k' → kept k k'.
Proof.
  intros Hc Hg. split_and!; [done|by rewrite (created_data k k' Hc)|]. destruct Hc as (v & Hn & Hn' & Hv).
  intros cur' Hc' Hin. rewrite Hn' in Hc'. injection Hc' as <-. simpl in Hin. done.
Qed.

Lemma kept_updated k k' o cur :
  updated cm_now cm_given k k' o → cm_given k ⊆ cm_given k' → cm_now k = Some cur →
  (∀ v, ob_data cur !! key = Some v → ob_data o !! key = Some v) → kept k k'.
Proof.
  intros Hu Hg Hcur Hkey. split_and!; [done| |].
  - intros v Hv. rewrite (updated_data k k' o Hu). apply Hkey. unfold data_of in Hv. by rewrite Hcur in Hv.
  - destruct Hu as (c & v & Hc & Hver & Hn' & Hfresh). intros cur' Hc' Hin. rewrite Hn' in Hc'. injection Hc' as <-. simpl in *.
    destruct Hfresh as [?|[-> Hsame]]; [done|]. exists c. by split_and!.
Qed.

Lemma edited_true k ids n o : cm_now k = Some o → claim_true k ids (edited (claim_edit key ids) n o).
Proof.
  intros Hn. unfold edited, claim_edit. destruct (ob_data o !! key) as [v|] eqn:Hk.
  - destruct (decodeIDs v) as [ex|e] eqn:Hd; simpl; [|done]. exists v. split; [|by apply decodeIDs_Ok].
    unfold data_of. by rewrite Hn.
  - destruct (encodeIDs ids) as [v|e] eqn:He; simpl; [|done]. split_and!; [done|by apply cm_now_given|].
    intros cur Hc _. assert (cur = o) as -> by congruence. eauto.
Qed.

Lemma again_true k ids n e : claim_true k ids (again n e).
Proof. destruct e; simpl; try done. by destruct n as [|[|n]]. Qed.

(** One call of one of them. *)
Lemma claim_step_true k ids p k' p' :
  claim_true k ids p → change_step (claim_edit key ids) k p = (k', p') → kept k k' ∧ claim_true k' ids p'.
Proof.
  assert (∀ q, cm_get k = (k', q) → kept k k' ∧ ∀ o, q = inl o → cm_now k' = Some o) as Hget.
  { intros q Hg. destruct (cm_get_kept k) as [Hn Hv]. rewrite Hg in Hn, Hv. split; [by apply kept_same|].
    intros o ->. simpl in Hn. rewrite Hn. by eapply cm_get_ok. }
  destruct p as [n|n|n|n o a|r]; simpl; [intros _..|intros (-> & Hin & Hcur)|intros Hr [= <- <-]; split; [|done]; by apply kept_same].
  - destruct (cm_get k) as [k1 [o|e]].
    + intros [= -> <-]. destruct (Hget _ eq_refl) as [Hk Hn]. split; [done|]. by apply edited_true, Hn.
    + destruct e; intros [= -> <-]; destruct (Hget _ eq_refl) as [Hk _]; (split; [done|]);
        first [exact I|exact (again_true k' ids n Conflict)].
  - pose proof (cm_create_given k) as Hg. destruct (cm_create k) as [k1 [o|e]] eqn:Hc; simpl in Hg.
    + intros [= -> <-]. apply cm_create_ok in Hc as [Hc Hn]. split; [by apply kept_created|by apply edited_true].
    + assert (kept k k1) as Hk by (apply cm_create_err in Hc as [Hc|Hc]; [by apply kept_same|by apply kept_created]).
      destruct e; intros [= -> <-]; (split; [done|]); first [exact I|apply (again_true k' ids n Conflict)].
  - destruct (cm_get k) as [k1 [o|e]]; intros [= -> <-]; destruct (Hget _ eq_refl) as [Hk Hn]; (split; [done|]).
    + by apply edited_true, Hn.
    + apply again_true.
  - pose proof (cm_update_given k o) as Hg. destruct (cm_update k o) as [k1 q] eqn:Hu; simpl in Hg.
    assert (∀ k2, updated cm_now cm_given k k2 o → cm_given k ⊆ cm_given k2 →
              kept k k2 ∧ ∃ v, data_of k2 !! key = Some v ∧ ids_of v = Some ids) as Hup.
    { intros k2 Hup Hg2. pose proof Hup as (cur & v & Hc & Hver & _ & _).
      destruct (Hcur cur Hc Hver) as (Hnone & w & Hw & Ho). split.
      - eapply kept_updated; [done|done|done|]. intros x Hx. congruence.
      - exists w. rewrite (updated_data _ _ _ Hup), Ho, lookup_insert_eq. split; [done|by apply ids_of_encoded]. }
    destruct q as [o'|e]; intros [= -> <-].
    + apply cm_update_ok in Hu. by apply Hup.
    + split; [|apply again_true]. apply cm_update_err in Hu as [Hu|Hu]; [by apply kept_same|by apply Hup].
Qed.

Definition claims_true (x : K * list (progress StoreIDs)) : Prop :=
  ∀ i ids p, mine !! i = Some ids → x.2 !! i = Some p → claim_true x.1 ids p.

Lemma claims_step_true x y : claims_true x → claims_step x y → claims_true y.
Proof.
  intros Hx Hstep. destruct Hstep as [k ps i ids p k' p' Hi Hp Hc|k ps k' o cur Hn Hu Hg Hkey].
  - destruct (claim_step_true k ids p k' p' (Hx i ids p Hi Hp) Hc) as [Hk Hp'].
    intros j ids' q Hj Hq. simpl in Hq. destruct (decide (i = j)) as [<-|Hne].
    + rewrite list_lookup_insert_eq in Hq by (by eapply lookup_lt_Some). injection Hq as <-.
      assert (ids' = ids) as -> by congruence. exact Hp'.
    + rewrite list_lookup_insert_ne in Hq by done. eapply kept_true; [exact Hk|]. by apply (Hx j).
  - intros j ids' q Hj Hq. eapply kept_true; [|by apply (Hx j)]. simpl. eapply kept_updated; [done..|]. congruence.
Qed.
End Together.

(** ** Properties *)

(** C23: Arbiters that start a store for one component at once agree on one.  In
    whatever order their calls reach the API server, with whatever conflicts, lost
    answers and changes to other records in between, all claims that succeed are
    answered the same store, and it is the one that is recorded. *)
Theorem claims_agree {K} `{ConfigMapsLaws K} `{RecordJSONLaws} (key : string) (mine : list StoreIDs)
    (k0 k : K) (ps : list (progress StoreIDs)) (i : nat) (a : StoreIDs) :
  rtc (claims_step key mine) (k0, (λ _, Looking attempts) <$> mine) (k, ps) →
  i < length mine → ps !! i = Some (Finished (Ok a)) →
  recorded k !! key = Some a
  ∧ ∀ j b, j < length mine → ps !! j = Some (Finished (Ok b)) → b = a.
Proof.
  intros Hrun Hi Ha.
  assert (claims_true key mine (k, ps)) as Htrue.
  { eapply (rtc_invariant _ (claims_true key mine)); [apply claims_step_true|exact Hrun|].
    intros j ids p _ Hp. simpl in Hp. rewrite list_lookup_fmap in Hp. destruct (mine !! j); [|done]. by injection Hp as <-. }
  assert (∀ j b, j < length mine → ps !! j = Some (Finished (Ok b)) → recorded k !! key = Some b) as Hrec.
  { intros j b [ids Hids]%lookup_lt_is_Some Hb. destruct (Htrue j ids _ Hids Hb) as (v & Hv & Hb'). simpl in Hv.
    unfold recorded. by rewrite lookup_omap, Hv. }
  split; [by apply (Hrec i)|]. intros j b Hj Hb. pose proof (Hrec i a Hi Ha). pose proof (Hrec j b Hj Hb). congruence.
Qed.

(** The ConfigMap's recorder is the recorder the stores rely on.  Whatever edit
    a change makes, it ends within its twenty calls; if it succeeds the data is the
    edit of what it was, and if it fails it is that or what it was; and so loading,
    claiming, saving and forgetting keep the contract of the arbiter's record. *)
Theorem recorder_refines_contract {K} `{ConfigMapsLaws K} `{RecordJSONLaws} {A} (f : edit A) (k : K) (key : string) (ids : StoreIDs) :
  (∃ k' r, (∀ extra, change_run f (4 * attempts + extra) k (Looking attempts) = (k', r)) ∧ change f k = (k', r)
     ∧ match r with
       | Ok a => ∃ w, f (data_of k) = Ok (w, a) ∧ data_of k' = default (data_of k) w
       | Err _ => data_of k' = data_of k ∨ ∃ d a, f (data_of k) = Ok (Some d, a) ∧ data_of k' = d
       end)
  ∧ (∀ k' got, Claim k key ids = (k', Ok got) → got = default ids (recorded k !! key) ∧ recorded k' = <[key := got]> (recorded k))
  ∧ (∀ k', Save k key ids = (k', Ok tt) → recorded k' = <[key := ids]> (recorded k))
  ∧ (∀ k', Forget k key = (k', Ok tt) → recorded k' = delete key (recorded k))
  ∧ (∀ k' all, Load k = (k', Ok all) → all = recorded k ∧ recorded k' = recorded k).
Proof.
  split_and!.
  - destruct (change_run_ends f (4 * attempts) k (Looking attempts)) as (k' & r & Hrun); [done|done|].
    exists k', r. specialize (Hrun 0) as Hrun0. rewrite Nat.add_0_r in Hrun0. split_and!; [done|done|].
    by apply (change_data f k k' r).
  - intros k' got. apply (@rec_claim_ok K _ configmap_recorder_laws k key ids).
  - intros k'. apply (@rec_save_ok K _ configmap_recorder_laws k key ids).
  - intros k'. apply (@rec_forget_ok K _ configmap_recorder_laws k key).
  - intros k' all Hl. split; [by apply (@rec_load_ok K _ configmap_recorder_laws k k' all)|].
    pose proof (@rec_load_data K _ configmap_recorder_laws k) as Hd. simpl in Hd. by rewrite Hl in Hd.
Qed.

(** An API server in memory, which loses the answer to the next update if told to. *)
Module RecorderExample.
Record api := mkApi { ap_now : option object; ap_past : gset string; ap_lose : bool }.
Definition given (s : api) : gset string :=
  match ap_now s with Some o => {[ob_version o]} ∪ ap_past s | None => ap_past s end.
Definition put (s : api) (data : gmap string string) : api :=
  mkApi (Some (mkObject (fresh (given s)) data)) (given s) false.

#[export] Instance configmaps : ConfigMaps api := {|
  cm_get s := (s, match ap_now s with Some o => inl o | None => inr NotFound end);
  cm_create s := match ap_now s with
                 | Some _ => (s, inr AlreadyExists)
                 | None => (put s ∅, inl (mkObject (fresh (given s)) ∅))
                 end;
  cm_update s o := match ap_now s with
                   | Some cur =>
                       if decide (ob_version cur = ob_version o)
                       then (put s (ob_data o),
                             if ap_lose s then inr (APIFailed (Sentinel "timeout")) else inl (mkObject (fresh (given s)) (ob_data o)))
                       else (s, inr Conflict)
                   | None => (s, inr NotFound)
                   end |}.

Lemma given_put s data : given s ⊆ given (put s data).
Proof. unfold put. unfold given at 2. simpl. set_solver. Qed.
Lemma update_cases s o :
  (∃ q, cm_update s o = (s, inr q)) ∨ (updated ap_now given s (cm_update s o).1 o ∧ (cm_update s o).2 ≠ inr Conflict).
Proof.
  simpl. destruct (ap_now s) as [cur|] eqn:Hn; [|eauto]. destruct (decide _) as [Hv|]; [|eauto]. right. simpl. split.
  - exists cur, (fresh (given s)). split_and!; [done..|]. left. apply is_fresh.
  - by destruct (ap_lose s).
Qed.

#[export] Program Instance configmaps_laws : ConfigMapsLaws api := {| cm_now := ap_now; cm_given := given |}.
Next Obligation. intros s o Hn. unfold given. rewrite Hn. set_solver. Qed.
Next Obligation. done. Qed.
Next Obligation. intros s s' o. simpl. destruct (ap_now s); [|done]. by intros [= _ ->]. Qed.
Next Obligation. intros s. simpl. destruct (ap_now s); [done|apply given_put]. Qed.
Next Obligation.
  intros s s' o. simpl. destruct (ap_now s) eqn:Hn; [done|]. intros [= <- <-]. split; [|done].
  exists (fresh (given s)). split_and!; [done|done|apply is_fresh].
Qed.
Next Obligation. intros s s' e. simpl. destruct (ap_now s) eqn:Hn; [|done]. intros [= <- _]. by left. Qed.
Next Obligation. intros s o. simpl. destruct (ap_now s); [|done]. destruct (decide _); [apply given_put|done]. Qed.
Next Obligation. intros s o s' o' Hu. destruct (update_cases s o) as [[q Hq]|[Hup _]]; rewrite Hu in *; [done|exact Hup]. Qed.
Next Obligation. intros s o s' Hu. destruct (update_cases s o) as [[q Hq]|[_ Hno]]; rewrite Hu in *; [by injection Hq as ->|done]. Qed.
Next Obligation. intros s o s' e Hu. destruct (update_cases s o) as [[q Hq]|[Hup _]]; rewrite Hu in *; [injection Hq as -> _; by left|by right]. Qed.

(** Records of a store alone. *)
#[export] Instance StoreIDs_eq_dec : EqDecision StoreIDs.
Proof. solve_decision. Defined.
#[export] Instance json : RecordJSON := {|
  json_marshal ids := if decide (ids = mkIDs (si_store ids) "" "" [] false) then Ok (String "s" (si_store ids)) else Err (Sentinel "not one");
  json_unmarshal v := match v with String "s" store => Ok (mkIDs store "" "" [] false) | _ => Err (Sentinel "not one") end |}.
#[export] Program Instance json_laws : RecordJSONLaws.
Next Obligation. intros ids v. simpl. destruct (decide _); [|done]. by intros [= <-]. Qed.
Next Obligation. intros ids v. simpl. destruct (decide _) as [Hd|]; [|done]. intros [= <-]. by rewrite <-Hd. Qed.

(** Two arbiters with a store each: both look, and the first to make the ConfigMap is
    the second to write: its update is a conflict, and it takes the other's store. *)
Definition one : StoreIDs := mkIDs "store-1" "" "" [] false.
Definition two : StoreIDs := mkIDs "store-2" "" "" [] false.
Definition k0 : api := mkApi None ∅ false.
Definition call (x : api * list (progress StoreIDs)) (i : nat) : api * list (progress StoreIDs) :=
  match [one; two] !! i, x.2 !! i with
  | Some ids, Some p => let '(k', p') := change_step (claim_edit "acme.wiki" ids) x.1 p in (k', <[i := p']> x.2)
  | _, _ => x
  end.
Definition schedule : list nat := [0; 1; 0; 1; 1; 1; 0; 0].
Definition final : api * list (progress StoreIDs) := foldl call (k0, (λ _, Looking attempts) <$> [one; two]) schedule.

Lemma calls_reach l x : rtc (claims_step "acme.wiki" [one; two]) x (foldl call x l).
Proof.
  revert x. induction l as [|i l IH]; intros x; [done|]. simpl. etrans; [|apply IH].
  unfold call. destruct ([one; two] !! i) as [ids|] eqn:Hi; [|done]. destruct (x.2 !! i) as [p|] eqn:Hp; [|done].
  destruct (change_step _ x.1 p) as [k' p'] eqn:Hs. apply rtc_once. destruct x as [k ps]. by eapply claims_call.
Qed.
End RecorderExample.
Import RecorderExample.

Lemma claims_agree_witness :
  let k := final.1 in
  recorded k !! "acme.wiki" = Some two
  ∧ ∀ j b, j < 2 → final.2 !! j = Some (Finished (Ok b)) → b = two.
Proof.
  apply (claims_agree "acme.wiki" [one; two] k0
    final.1 final.2 0 two).
  - rewrite <-surjective_pairing. apply calls_reach.
  - simpl. lia.
  - vm_compute. reflexivity.
Defined.

Lemma recorder_refines_contract_witness :
  let k := k0 in
  (∃ k' r, (∀ extra, change_run (claim_edit "acme.wiki" one) (4 * attempts + extra) k (Looking attempts) = (k', r))
     ∧ change (claim_edit "acme.wiki" one) k = (k', r)
     ∧ match r with
       | Ok a => ∃ w, claim_edit "acme.wiki" one (data_of k) = Ok (w, a) ∧ data_of k' = default (data_of k) w
       | Err _ => data_of k' = data_of k ∨ ∃ d a, claim_edit "acme.wiki" one (data_of k) = Ok (Some d, a) ∧ data_of k' = d
       end)
  ∧ (∀ k', Save k "acme.wiki" two = (k', Ok tt) → recorded k' = <["acme.wiki" := two]> (recorded k)).
Proof.
  intros k.
  destruct (recorder_refines_contract (claim_edit "acme.wiki" one) k "acme.wiki" two)
    as (Hrun & _ & Hsave & _). split; [exact Hrun|exact Hsave].
Defined.
