(* ===== verification/ArbiterIsolation.v ===== *)
(** * Each component has a store of its own

    Whatever the arbiter is asked and whichever calls fail, no two components'
    records name one store, and what is done for one component leaves every other's
    store and record as they were. *)

From S2P Require Import Prelude.
From S2P Require Import GoStrings.
From S2P Require Import Fga.
From S2P Require Import ArbiterTable.
From S2P Require Import ArbiterStores.

Section Isolation.
Context {F R : Type} {HF : AppInstance F} {HFL : AppInstanceLaws F} {HR : Recorder R} {HRL : RecorderLaws R}.
Context (fuel : nat).

(** A store is a key's when the record or what the arbiter holds of it says so. *)
Definition names (a : arbiter F R) (key store : string) : Prop :=
  (∃ ids, a_ids a !! key = Some ids ∧ si_store ids = store)
  ∨ (∃ ids, rec_data (a_rec a) !! key = Some ids ∧ si_store ids = store).

Record apart (a : arbiter F R) : Prop := {
  apart_used k s : names a k s → s ∈ ai_used (a_fga a);
  apart_inj k k' s : names a k s → names a k' s → k = k';
  apart_loaded : a_loaded a = false → a_ids a = ∅ }.

(** What an operation of [key] may touch, from [a0] on: stores that were the key's,
    and stores made since. *)
Definition own (a0 : arbiter F R) (key s : string) : Prop := s ∉ ai_used (a_fga a0) ∨ names a0 key s.

(** What it has left alone so far. *)
Record within (a0 : arbiter F R) (key : string) (a : arbiter F R) : Prop := {
  within_used : ai_used (a_fga a0) ⊆ ai_used (a_fga a);
  within_others k s : k ≠ key → names a k s ↔ names a0 k s;
  within_own s : names a key s → own a0 key s ∧ s ∈ ai_used (a_fga a);
  within_stores s : s ∈ ai_used (a_fga a0) → ¬ names a0 key s →
    ai_stores (a_fga a) !! s = ai_stores (a_fga a0) !! s;
  within_loaded : a_loaded a = false → a_ids a = ∅;
  within_ids : a_loaded a0 = true → a_loaded a = true ∧ ∀ k, k ≠ key → a_ids a !! k = a_ids a0 !! k }.

(** The same once the record is read, with ids that are known to have been handed
    out. *)
Definition busy (a0 : arbiter F R) (key : string) (known : gset string) (a : arbiter F R) : Prop :=
  within a0 key a ∧ a_loaded a = true ∧ known ⊆ ai_used (a_fga a).

Lemma within_start a0 key : apart a0 → within a0 key a0.
Proof.
  intros Ha. split; try done; [|by apply apart_loaded].
  intros s Hs. split; [by right|by eapply apart_used].
Qed.

(** An operation that stayed within its key kept the stores apart. *)
Lemma within_apart a0 key a : apart a0 → within a0 key a → apart a.
Proof.
  intros Ha Hw. split; [|intros k k' s Hk Hk'|by apply (within_loaded _ _ _ Hw)].
  - intros k s Hs. destruct (decide (k = key)) as [->|Hne]; [by apply (within_own _ _ _ Hw)|].
    apply (within_others _ _ _ Hw) in Hs; [|done]. by eapply (within_used _ _ _ Hw), apart_used.
  - assert (∀ k, k ≠ key → names a key s → names a k s → False) as Hclash.
    { intros k1 Hne H1 H2. apply (within_others _ _ _ Hw) in H2; [|done].
      destruct (within_own _ _ _ Hw _ H1) as [[Hnew|Hold] _].
      - by apply Hnew, (apart_used _ Ha k1).
      - apply Hne. by apply (apart_inj _ Ha k1 key s). }
    destruct (decide (k = key)) as [->|Hne], (decide (k' = key)) as [->|Hne']; [done| | |].
    + by destruct (Hclash k').
    + by destruct (Hclash k).
    + apply (within_others _ _ _ Hw) in Hk, Hk'; [|done..]. by apply (apart_inj _ Ha k k' s).
Qed.

Section Steps.
Context (a0 : arbiter F R) (key : string) (U : gset string).

(** *** The instance *)

(** A change of the instance alone, to stores of one's own. *)
Lemma within_fga a x :
  within a0 key a → ai_used (a_fga a) ⊆ ai_used x →
  (∀ s, s ∈ ai_used (a_fga a0) → ¬ names a0 key s → ai_stores x !! s = ai_stores (a_fga a) !! s) →
  within a0 key (mkArbiter x (a_rec a) (a_loaded a) (a_ids a)).
Proof.
  intros Hw Hu Hs. destruct Hw as [H1 H2 H3 H4 H5 H6].
  split; simpl; try done; [set_solver|intros s Hn; destruct (H3 s Hn); split; [done|set_solver]|].
  intros s Hin Hno. by rewrite Hs, H4.
Qed.

Lemma createStore_within name :
  triple (busy a0 key U) (createStore name) (λ id a, busy a0 key U a ∧ own a0 key id ∧ id ∈ ai_used (a_fga a)) (busy a0 key U).
Proof.
  unfold createStore. eapply (triple_bind _ _ (λ id a, busy a0 key U a ∧ own a0 key id ∧ id ∈ ai_used (a_fga a))).
  - intros a (Hw & Hl & HU). unfold on_fga. destruct (ai_create (a_fga a) name) as [x [id|e]] eqn:Hc.
    + destruct (ai_create_ok _ _ _ _ Hc) as (Hnew & Hu & Hst).
      assert (id ∉ ai_used (a_fga a0)) as Hold by (pose proof (within_used _ _ _ Hw); set_solver).
      split_and!; simpl; [split_and!; [|done|set_solver]|by left|set_solver].
      apply within_fga; [done|set_solver|]. intros s Hs _. rewrite Hst, lookup_insert_ne; [done|]. set_solver.
    + destruct (ai_create_err _ _ _ _ Hc) as [Hu Hst]. split_and!; simpl; [|done|set_solver].
      apply within_fga; [done|done|]. intros s Hs _. apply Hst. by apply (within_used _ _ _ Hw).
  - intros id. case_bool_decide; [apply triple_fail; naive_solver|by apply triple_ret].
Qed.

Lemma deleteStore_within id :
  own a0 key id → triple (busy a0 key U) (deleteStore id) (λ _, busy a0 key U) (busy a0 key U).
Proof.
  intros Hown a (Hw & Hl & HU). unfold deleteStore, on_fga.
  pose proof (ai_delete_used (a_fga a) id) as Hu.
  assert (∀ x, ai_used x = ai_used (a_fga a) →
    ai_stores x = ai_stores (a_fga a) ∨ ai_stores x = delete id (ai_stores (a_fga a)) →
    busy a0 key U (mkArbiter x (a_rec a) (a_loaded a) (a_ids a))) as Hgo.
  { intros x Hx Hs. split_and!; simpl; [|done|by rewrite Hx]. apply within_fga; [done|by rewrite Hx|].
    intros s Hin Hno. destruct Hs as [->| ->]; [done|]. rewrite lookup_delete_ne; [done|].
    intros ->. by destruct Hown. }
  destruct (ai_delete (a_fga a) id) as [x [| |e]] eqn:Hd; simpl in Hu; apply Hgo; try done.
  - right. by apply ai_delete_ok.
  - left. by apply ai_delete_missing in Hd as [_ ?].
  - by apply ai_delete_err in Hd.
Qed.

Lemma writeModel_within store model :
  triple (busy a0 key U) (writeModel store model) (λ _, busy a0 key U) (busy a0 key U).
Proof.
  unfold writeModel. eapply (triple_bind _ _ (λ _, busy a0 key U)).
  - intros a (Hw & Hl & HU). unfold on_fga. pose proof (ai_model_stores (a_fga a) store model) as [Hs Hu].
    destruct (ai_write_model _ _ _) as [x r]. simpl in *.
    assert (busy a0 key U (mkArbiter x (a_rec a) (a_loaded a) (a_ids a))).
    { split_and!; simpl; [|done|by rewrite Hu]. apply within_fga; [done|by rewrite Hu|]. intros. by rewrite Hs. }
    by destruct r.
  - intros id. case_bool_decide; [by apply triple_fail|by apply triple_ret].
Qed.

Lemma writeTuples_within store model writes deletes :
  own a0 key store → triple (busy a0 key U) (writeTuples store model writes deletes) (λ _, busy a0 key U) (busy a0 key U).
Proof.
  intros Hown a (Hw & Hl & HU). unfold writeTuples, on_fga.
  destruct (Write_elsewhere store (mkWriteOptions model "ignore" "ignore") (a_fga a) writes deletes) as (Hu & _ & Hs).
  destruct (Write _ _ _ _) as [x r]. simpl in *.
  assert (busy a0 key U (mkArbiter x (a_rec a) (a_loaded a) (a_ids a))); [|by destruct r].
  split_and!; simpl; [|done|by rewrite Hu]. apply within_fga; [done|by rewrite Hu|]. intros s Hin Hno. apply Hs. intros ->. by destruct Hown.
Qed.

Lemma readAll_within store f :
  triple (busy a0 key U) (readAll fuel store f) (λ _, busy a0 key U) (busy a0 key U).
Proof.
  intros a (Hw & Hl & HU). unfold readAll, on_fga.
  assert (busy a0 key U (mkArbiter (a_fga a) (a_rec a) (a_loaded a) (a_ids a))) by (destruct a; by split).
  by destruct (default _ _).
Qed.

(** *** The record *)

(** A change of what is recorded and held of the key, to a store of its own. *)
Lemma within_record a r ids :
  within a0 key a → a_loaded a = true → U ⊆ ai_used (a_fga a) →
  (∀ k, k ≠ key → rec_data r !! k = rec_data (a_rec a) !! k ∧ ids !! k = a_ids a !! k) →
  (∀ x, rec_data r !! key = Some x ∨ ids !! key = Some x →
        names a key (si_store x) ∨ own a0 key (si_store x) ∧ si_store x ∈ ai_used (a_fga a)) →
  busy a0 key U (mkArbiter (a_fga a) r (a_loaded a) ids).
Proof.
  intros [H1 H2 H3 H4 H5 H6] Hl HU Hothers Hkey. split_and!; simpl; [|done|done]. split; simpl; try done.
  - intros k s Hne. rewrite <- H2 by done. unfold names. simpl. destruct (Hothers k Hne) as [-> ->]. done.
  - intros s Hn. assert (∃ x, (rec_data r !! key = Some x ∨ ids !! key = Some x) ∧ si_store x = s) as (x & Hx & <-).
    { destruct Hn as [(x & ? & ?)|(x & ? & ?)]; exists x; auto. }
    destruct (Hkey x Hx) as [Hn'|?]; [by apply H3|done].
  - intros Hl'. by rewrite Hl in Hl'.
  - intros Hl0. split; [done|]. intros k Hne. destruct (Hothers k Hne) as [_ ->]. by apply H6.
Qed.

Lemma rec_save_within ids :
  own a0 key (si_store ids) →
  triple (λ a, busy a0 key U a ∧ si_store ids ∈ ai_used (a_fga a)) (on_rec (λ s, rec_save s key ids))
    (λ _ a, busy a0 key U a ∧ si_store ids ∈ ai_used (a_fga a)) (busy a0 key U).
Proof.
  intros Hown a [(Hw & Hl & HU) Hin]. unfold on_rec.
  assert (∀ r, rec_data r = rec_data (a_rec a) ∨ rec_data r = <[key := ids]> (rec_data (a_rec a)) →
    busy a0 key U (mkArbiter (a_fga a) r (a_loaded a) (a_ids a))) as Hgo.
  { intros r Hr. apply within_record; [done..| |].
    - intros k Hne. split; [|done]. destruct Hr as [->| ->]; [done|by rewrite lookup_insert_ne].
    - intros x [Hx|Hx]; [|left; left; by exists x]. destruct Hr as [Hr|Hr]; rewrite Hr in Hx.
      + left. right. by exists x.
      + rewrite lookup_insert_eq in Hx. injection Hx as <-. by right. }
  destruct (rec_save (a_rec a) key ids) as [r [[]|e]] eqn:Hs.
  - split; [|done]. apply Hgo. right. by eapply rec_save_ok.
  - apply Hgo. by eapply rec_save_err.
Qed.

Lemma set_within ids :
  own a0 key (si_store ids) →
  triple (λ a, busy a0 key U a ∧ si_store ids ∈ ai_used (a_fga a)) (set key ids) (λ _, busy a0 key U) (busy a0 key U).
Proof.
  intros Hown a [(Hw & Hl & HU) Hin]. unfold set. apply within_record; [done..| |].
  - intros k Hne. split; [done|]. by rewrite lookup_insert_ne.
  - intros x [Hx|Hx]; [left; right; by exists x|]. rewrite lookup_insert_eq in Hx. injection Hx as <-. by right.
Qed.

Lemma forget_within :
  triple (busy a0 key U) (on_rec (λ s, rec_forget s key)) (λ _, busy a0 key U) (busy a0 key U).
Proof.
  intros a (Hw & Hl & HU). unfold on_rec.
  assert (∀ r, rec_data r = rec_data (a_rec a) ∨ rec_data r = delete key (rec_data (a_rec a)) →
    busy a0 key U (mkArbiter (a_fga a) r (a_loaded a) (a_ids a))) as Hgo.
  { intros r Hr. apply within_record; [done..| |].
    - intros k Hne. split; [|done]. destruct Hr as [->| ->]; [done|by rewrite lookup_delete_ne].
    - intros x [Hx|Hx]; [|left; left; by exists x]. destruct Hr as [Hr|Hr]; rewrite Hr in Hx.
      + left. right. by exists x.
      + by rewrite lookup_delete_eq in Hx. }
  destruct (rec_forget (a_rec a) key) as [r [[]|e]] eqn:Hs; apply Hgo.
  - right. by eapply rec_forget_ok.
  - by eapply rec_forget_err.
Qed.

Lemma unset_within : triple (busy a0 key U) (unset key) (λ _, busy a0 key U) (busy a0 key U).
Proof.
  intros a (Hw & Hl & HU). unfold unset. apply within_record; [done..| |].
  - intros k Hne. split; [done|]. by rewrite lookup_delete_ne.
  - intros x [Hx|Hx]; [left; right; by exists x|]. by rewrite lookup_delete_eq in Hx.
Qed.

(** What is known of the ids an operation works with. *)
Definition held (ids : StoreIDs) (a : arbiter F R) : Prop :=
  busy a0 key U a ∧ own a0 key (si_store ids) ∧ si_store ids ∈ ai_used (a_fga a).

Lemma names_held a ids : busy a0 key U a → names a key (si_store ids) → held ids a.
Proof. intros Hb Hn. destruct (within_own _ _ _ (proj1 Hb) _ Hn). done. Qed.

Lemma claim_within created :
  triple (λ a, busy a0 key U a ∧ own a0 key created ∧ created ∈ ai_used (a_fga a))
    (on_rec (λ s, rec_claim s key (mkIDs created "" "" [] false)))
    (λ ids a, held ids a ∧ own a0 key created) (λ a, busy a0 key U a ∧ own a0 key created).
Proof.
  intros a ((Hw & Hl & HU) & Hown & Hin). unfold on_rec. set (mine := mkIDs created "" "" [] false).
  assert (∀ r ids, rec_data r = <[key := ids]> (rec_data (a_rec a)) → held ids a →
    held ids (mkArbiter (a_fga a) r (a_loaded a) (a_ids a))) as Hgo.
  { intros r ids Hr (_ & Hown' & Hin'). split; [|done]. apply within_record; [done..| |].
    - intros k Hne. split; [|done]. by rewrite Hr, lookup_insert_ne.
    - intros x [Hx|Hx]; [|left; left; by exists x]. rewrite Hr, lookup_insert_eq in Hx.
      injection Hx as <-. by right. }
  assert (held mine a) as Hmine by done.
  destruct (rec_claim (a_rec a) key mine) as [r [ids|e]] eqn:Hc.
  - destruct (rec_claim_ok _ _ _ _ _ Hc) as [Hids Hr]. split; [|done]. apply Hgo; [done|].
    destruct (rec_data (a_rec a) !! key) as [old|] eqn:Hold; simpl in Hids; subst ids; [|done].
    apply names_held; [done|]. right. by exists old.
  - split; [|done]. destruct (rec_claim_err _ _ _ _ _ Hc) as [Hr|[_ Hr]]; [|by apply (Hgo r mine)].
    apply within_record; [done..| |].
    + intros k Hne. by rewrite Hr.
    + intros x. rewrite Hr. intros [Hx|Hx]; left; [right|left]; by exists x.
Qed.

Lemma or_else_within {A} (Q E : arbiter F R → Prop) (P : A → arbiter F R → Prop) m g :
  triple Q m P E → triple E g (λ _, busy a0 key U) (busy a0 key U) → triple Q (or_else m g) P (busy a0 key U).
Proof.
  intros Hm Hg a Hq. specialize (Hm a Hq). unfold or_else. destruct (m a) as [a' [x|e]]; [done|].
  specialize (Hg a' Hm). by destruct (g a') as [a'' [[]|e']].
Qed.
End Steps.

(** *** The operations *)

Section Operations.
Context (a0 : arbiter F R) (key : string).

Lemma names_record a x k s :
  rec_data x = rec_data (a_rec a) → names (mkArbiter (a_fga a) x (a_loaded a) (a_ids a)) k s ↔ names a k s.
Proof. intros Hx. unfold names. simpl. by rewrite Hx. Qed.

Lemma within_same_record a x :
  within a0 key a → rec_data x = rec_data (a_rec a) → within a0 key (mkArbiter (a_fga a) x (a_loaded a) (a_ids a)).
Proof.
  intros [H1 H2 H3 H4 H5 H6] Hx. split; simpl; try done.
  - intros k s Hne. by rewrite names_record, H2.
  - intros s. rewrite names_record by done. apply H3.
Qed.

Lemma load_within : triple (within a0 key) load (λ _, busy a0 key ∅) (within a0 key).
Proof.
  intros a Hw. unfold load. destruct (a_loaded a) eqn:Hl; [done|].
  pose proof (rec_load_data (a_rec a)) as Hx.
  destruct (rec_load (a_rec a)) as [x [ids|e]] eqn:Hr; simpl in Hx; [|rewrite <-Hl; by apply within_same_record].
  apply rec_load_ok in Hr as ->.
  destruct Hw as [H1 H2 H3 H4 H5 H6]. specialize (H5 Hl).
  assert (∀ k s, names (mkArbiter (a_fga a) x true (rec_data (a_rec a))) k s ↔ names a k s) as Hn.
  { intros k s. unfold names. simpl. rewrite H5, lookup_empty, Hx. naive_solver. }
  split_and!; [|done|done]. split; simpl; try done.
  - intros k s Hne. by rewrite Hn, H2.
  - intros s. rewrite Hn. apply H3.
  - intros Hl0. destruct (H6 Hl0) as [Hl1 _]. congruence.
Qed.

(** The ids at work, whose store is the key's own. *)
Definition hold (ids : StoreIDs) (a : arbiter F R) : Prop :=
  busy a0 key {[si_store ids]} a ∧ own a0 key (si_store ids).

Lemma held_hold U ids a : held a0 key U ids a → hold ids a.
Proof. intros ((Hw & Hl & HU) & Hown & Hin). split; [|done]. split_and!; [done|done|set_solver]. Qed.

Lemma busy_weaken U U' a : U ⊆ U' → busy a0 key U' a → busy a0 key U a.
Proof. intros Hsub (Hw & Hl & HU). split_and!; [done|done|set_solver]. Qed.

Lemma hold_weaken ids a : hold ids a → busy a0 key ∅ a.
Proof. intros [Hb _]. by eapply busy_weaken; [|exact Hb]. Qed.

(** A step that keeps what is known keeps the ids at work. *)
Lemma hold_step {A} ids (m : act (arbiter F R) A) :
  (own a0 key (si_store ids) →
   triple (busy a0 key {[si_store ids]}) m (λ _, busy a0 key {[si_store ids]}) (busy a0 key {[si_store ids]})) →
  triple (hold ids) m (λ _, hold ids) (busy a0 key ∅).
Proof.
  intros Hm a [Hb Hown]. specialize (Hm Hown a Hb). destruct (m a) as [a' [x|e]]; [done|].
  by eapply busy_weaken; [|exact Hm].
Qed.

Lemma hold_known ids a : hold ids a →
  busy a0 key {[si_store ids]} a ∧ si_store ids ∈ ai_used (a_fga a).
Proof. intros [(Hw & Hl & HU) _]. split; [done|set_solver]. Qed.

Lemma set_hold ids : triple (hold ids) (set key ids) (λ _, hold ids) (busy a0 key ∅).
Proof.
  apply hold_step. intros Hown. eapply triple_weaken; [by apply (set_within a0 key {[si_store ids]})| |done|done].
  intros a (Hw & Hl & HU). split; [done|set_solver].
Qed.

Lemma save_hold ids : triple (hold ids) (on_rec (λ s, rec_save s key ids)) (λ _, hold ids) (busy a0 key ∅).
Proof.
  apply hold_step. intros Hown. eapply triple_weaken; [by apply (rec_save_within a0 key {[si_store ids]})| |by intros ? ? [? _]|done].
  intros a (Hw & Hl & HU). split; [done|set_solver].
Qed.

Lemma establish_within e : triple (busy a0 key ∅) (establish key e) hold (busy a0 key ∅).
Proof.
  unfold establish. eapply triple_bind; [apply triple_wrap, createStore_within|]. intros created. simpl.
  eapply triple_bind; [eapply or_else_within; [apply triple_wrap, claim_within|]|].
  { intros a [Hb Hown]. by apply deleteStore_within. }
  intros ids. simpl. eapply (triple_bind _ _ (λ _, hold ids)).
  - intros a [Hheld Hown]. apply held_hold in Hheld. case_bool_decide as Hsame; [done|].
    pose proof (hold_step ids (ignoring (deleteStore created))) as Hstep. apply Hstep; [|done].
    intros _. by apply triple_ignoring, deleteStore_within.
  - intros _. eapply (triple_bind _ _ (λ _, hold ids)); [|by intros []; apply triple_ret].
    apply set_hold.
Qed.

Lemma renew_model_within e ids : triple (hold ids) (renew_model key e ids) hold (busy a0 key ∅).
Proof.
  unfold renew_model. destruct (_ || _); [|by apply triple_ret].
  eapply (triple_bind _ _ (λ _, hold ids)); [apply triple_wrap, hold_step; intros Hown; apply writeModel_within|]. intros model. simpl.
  set (ids' := with_model ids model (ModelDigest (e_model e))). change (hold ids) with (hold ids').
  eapply triple_bind; [apply triple_wrap, save_hold|]. intros [].
  eapply triple_bind; [apply set_hold|]. intros []. by apply triple_ret.
Qed.

Lemma platformTuples_within e ids : triple (hold ids) (platformTuples fuel key e ids) hold (busy a0 key ∅).
Proof.
  unfold platformTuples, tupleDiff. destruct (_ && _ && _ && _); [by apply triple_ret|].
  assert (∀ writes deletes, triple (hold ids) (writeTuples (si_store ids) (si_model ids) writes deletes)
    (λ _, hold ids) (busy a0 key ∅)) as Hwrite.
  { intros writes deletes. apply hold_step. intros Hown. by apply writeTuples_within. }
  eapply triple_bind; [apply triple_wrap, Hwrite|]. intros [].
  eapply (triple_bind _ _ (λ _, hold ids)).
  { destruct (_ && _); [|by apply triple_ret]. unfold take_memberships.
    eapply (triple_bind _ _ (λ _, hold ids)); [apply triple_wrap, hold_step; intros Hown; apply readAll_within|].
    intros members. apply triple_wrap, Hwrite. }
  intros []. set (ids' := with_written ids (e_tuples e) (e_mirror e)). change (hold ids) with (hold ids').
  eapply triple_bind; [apply triple_wrap, save_hold|]. intros [].
  eapply triple_bind; [apply set_hold|]. intros []. by apply triple_ret.
Qed.

(** What the arbiter holds of the key. *)
Lemma get_within U :
  triple (busy a0 key U) (get key)
    (λ got a, busy a0 key U a ∧ ∀ ids, got = Some ids → hold ids a) (busy a0 key U).
Proof.
  intros a Hb. unfold get. split; [done|]. intros ids Hget. apply (held_hold U), names_held; [done|].
  left. by exists ids.
Qed.

Lemma get_hold {A} (k : option StoreIDs → act (arbiter F R) A) P :
  triple (busy a0 key ∅) (k None) P (busy a0 key ∅) →
  (∀ ids, triple (hold ids) (k (Some ids)) P (busy a0 key ∅)) →
  triple (busy a0 key ∅) (act_bind (get key) k) P (busy a0 key ∅).
Proof.
  intros Hnone Hsome. eapply triple_bind; [apply get_within|]. intros [ids|] a [Hb Hh]; [|by apply Hnone].
  by apply Hsome, Hh.
Qed.

Lemma loaded_within {A} (m : act (arbiter F R) A) :
  triple (busy a0 key ∅) m (λ _, busy a0 key ∅) (busy a0 key ∅) →
  triple (within a0 key) (act_bind load (λ _, m)) (λ _, within a0 key) (within a0 key).
Proof.
  intros Hm. eapply triple_bind; [apply load_within|]. intros [].
  eapply triple_weaken; [exact Hm|done|by intros ? ? [? _]|by intros ? [? _]].
Qed.

Lemma Resolve_within e :
  key = recordKey e → triple (within a0 key) (Resolve fuel e) hold (within a0 key).
Proof.
  intros Hkey. unfold Resolve. rewrite <- Hkey. eapply triple_bind; [apply load_within|]. intros [].
  assert (∀ ids, triple (hold ids) (act_bind (renew_model key e ids) (platformTuples fuel key e))
    hold (busy a0 key ∅)) as Hrest.
  { intros ids. eapply triple_bind; [apply renew_model_within|]. intros ids'. apply platformTuples_within. }
  eapply triple_weaken; [apply get_hold|done|by intros ? ?|by intros ? [? _]].
  - eapply triple_bind; [apply establish_within|apply Hrest].
  - intros ids. eapply (triple_bind _ _ hold); [by apply triple_ret|apply Hrest].
Qed.

(** A store of the key is removed, with its record. *)
Lemma removed_within {A} ids (forget : act (arbiter F R) A) format args :
  triple (busy a0 key ∅) forget (λ _, busy a0 key ∅) (busy a0 key ∅) →
  triple (hold ids) (act_bind (act_wrap format args (deleteStore (si_store ids))) (λ _, act_bind forget (λ _, unset key)))
    (λ _, busy a0 key ∅) (busy a0 key ∅).
Proof.
  intros Hf. eapply (triple_bind _ _ (λ _, busy a0 key ∅)).
  - apply triple_wrap. intros a Hh. destruct (hold_weaken _ _ Hh) as (Hw & Hl & HU).
    apply (deleteStore_within a0 key ∅); [apply Hh|done].
  - intros []. eapply triple_bind; [exact Hf|]. intros x. apply unset_within.
Qed.

Lemma Purge_within tenant component :
  key = recordKey (store_of tenant component "") →
  triple (within a0 key) (Purge tenant component) (λ _, within a0 key) (within a0 key).
Proof.
  intros Hkey. unfold Purge. rewrite <- Hkey. apply loaded_within.
  apply get_hold; [by apply triple_ret|]. intros ids. apply removed_within, triple_wrap, forget_within.
Qed.

(** A step on a store just made, which is removed when it fails. *)
Lemma new_store_step {A} created (m : act (arbiter F R) A) :
  (own a0 key created → triple (busy a0 key {[created]}) m (λ _, busy a0 key {[created]}) (busy a0 key {[created]})) →
  triple (hold (mkIDs created "" "" [] false)) (or_else m (deleteStore created))
    (λ _, hold (mkIDs created "" "" [] false)) (busy a0 key ∅).
Proof.
  intros Hm. eapply (or_else_within _ _ _ _ (hold (mkIDs created "" "" [] false))).
  - intros a [Hb Hown]. specialize (Hm Hown a Hb). by destruct (m a) as [a' [x|e]].
  - intros a Hh. apply (deleteStore_within a0 key ∅); [apply Hh|by eapply hold_weaken].
Qed.

Lemma refill_within e tuples : triple (busy a0 key ∅) (refill key e tuples) (λ _, busy a0 key ∅) (busy a0 key ∅).
Proof.
  unfold refill. eapply (triple_bind _ _ (λ created, hold (mkIDs created "" "" [] false))).
  - apply triple_wrap. eapply triple_weaken; [apply (createStore_within a0 key ∅)|done| |done].
    intros id a ((Hw & Hl & _) & Hown & Hin). split; [|done]. split_and!; [done|done|set_solver].
  - intros created. eapply triple_bind; [apply new_store_step; intros Hown; apply triple_wrap, writeModel_within|].
    intros model. simpl.
    eapply triple_bind; [apply new_store_step; intros Hown; by apply triple_wrap, writeTuples_within|].
    intros []. set (ids := mkIDs created model (ModelDigest (e_model e)) [] false).
    change (hold (mkIDs created "" "" [] false)) with (hold ids).
    eapply triple_bind; [apply save_hold|]. intros [].
    eapply triple_weaken; [apply set_hold|done|by intros ? ?; apply hold_weaken|done].
Qed.

Lemma Restore_within tenant component model tuples :
  key = recordKey (store_of tenant component model) →
  triple (within a0 key) (Restore tenant component model tuples) (λ _, within a0 key) (within a0 key).
Proof.
  intros Hkey. unfold Restore. rewrite <- Hkey. apply loaded_within. apply get_hold.
  - eapply (triple_bind _ _ (λ _, busy a0 key ∅)); [by apply triple_ret|intros []; apply refill_within].
  - intros ids. eapply (triple_bind _ _ (λ _, busy a0 key ∅)); [|intros []; apply refill_within].
    apply removed_within, forget_within.
Qed.

Lemma Export_within `{JsonObjects} tenant component :
  key = recordKey (store_of tenant component "") →
  triple (within a0 key) (Export fuel tenant component) (λ _, within a0 key) (within a0 key).
Proof.
  intros Hkey. unfold Export. rewrite <- Hkey. apply loaded_within. apply get_hold; [by apply triple_ret|].
  intros ids. eapply (triple_bind _ _ (λ _, busy a0 key ∅)).
  - intros a Hh%hold_weaken. unfold on_fga. destruct a. simpl. by destruct (ai_read_model _ _ _).
  - intros raw. eapply (triple_bind _ _ (λ _, busy a0 key ∅)); [by apply triple_of_result; intros; destruct (json_fields raw)|].
    intros fs. eapply (triple_bind _ _ (λ _, busy a0 key ∅)); [by apply triple_of_result; intros; destruct (json_object _)|].
    intros model. eapply triple_bind; [apply readAll_within|]. intros all. by apply triple_ret.
Qed.
End Operations.

(** *** What one operation spares another's store *)

(** From [a] to [a'] stores were kept apart, and every key outside [K] kept its store,
    with what is in it. *)
Definition spared (K : string → Prop) (a a' : arbiter F R) : Prop :=
  apart a → apart a' ∧ ∀ k s, ¬ K k →
    (names a' k s ↔ names a k s) ∧ (names a k s → ai_stores (a_fga a') !! s = ai_stores (a_fga a) !! s).

#[global] Instance spared_preorder K : PreOrder (spared K).
Proof.
  split; [by intros a|]. intros a a1 a2 H1 H2 Ha. destruct (H1 Ha) as [Ha1 Hk1]. destruct (H2 Ha1) as [Ha2 Hk2].
  split; [done|]. intros k s Hk. destruct (Hk1 k s Hk) as [Hn1 Hs1], (Hk2 k s Hk) as [Hn2 Hs2].
  split; [by rewrite Hn2|]. intros Hn. by rewrite Hs2, Hs1; [..|apply Hn1].
Qed.

Lemma within_spared (K : string → Prop) key a a' : K key → (apart a → within a key a') → spared K a a'.
Proof.
  intros HK Hw Ha. specialize (Hw Ha). split; [by eapply within_apart|]. intros k s Hk.
  assert (k ≠ key) as Hne by (by intros ->). split; [by apply (within_others _ _ _ Hw)|].
  intros Hn. apply (within_stores _ _ _ Hw); [by apply (apart_used _ Ha k)|].
  intros Hn'. apply Hne. by apply (apart_inj _ Ha k key s).
Qed.

Lemma triple_spared {A} (K : string → Prop) key (m : act (arbiter F R) A) a :
  K key → (∀ a0, triple (within a0 key) m (λ _, within a0 key) (within a0 key)) → spared K a (m a).1.
Proof.
  intros HK Hm. apply (within_spared K key); [done|]. intros Ha.
  apply (triple_left (within a key)); [apply Hm|by apply within_start].
Qed.

Lemma load_spared K a : spared K a (load a).1.
Proof.
  intros Ha. assert (within a "" (load a).1) as Hw.
  { pose proof (load_within a "" a (within_start _ _ Ha)) as Hl. destruct (load a) as [a' [[]|e]]; [apply Hl|done]. }
  assert (∀ k s, names (load a).1 k s ↔ names a k s) as Hn.
  { intros k s. unfold load. destruct (a_loaded a) eqn:Hl; [done|].
    pose proof (rec_load_data (a_rec a)) as Hx.
    destruct (rec_load (a_rec a)) as [x [ids|e]] eqn:Hr; simpl in Hx.
    - apply rec_load_ok in Hr as ->. unfold names. simpl. rewrite (apart_loaded _ Ha Hl), lookup_empty, Hx. naive_solver.
    - unfold names. simpl. by rewrite Hx. }
  split; [by eapply within_apart|]. intros k s Hk. split; [done|]. intros _.
  unfold load. destruct (a_loaded a); [done|]. by destruct (rec_load (a_rec a)) as [? []].
Qed.

Lemma Purge_spared (K : string → Prop) tenant component a :
  K (recordKey (store_of tenant component "")) → spared K a (Purge tenant component a).1.
Proof. intros HK. eapply triple_spared; [exact HK|]. intros a0. by apply Purge_within. Qed.

Lemma PurgeTenant_spared tenant a :
  spared (λ k, ∃ c, k = tenant +:+ "." +:+ c) a (PurgeTenant tenant a).1.
Proof.
  set (K := λ k, ∃ c, k = tenant +:+ "." +:+ c).
  assert (∀ l b, spared K b (act_each (Purge tenant) l b).1) as Heach.
  { induction l as [|c l IH]; intros b; [reflexivity|]. simpl. unfold act_bind.
    pose proof (Purge_spared K tenant c b ltac:(by exists c)) as Hp.
    destruct (Purge tenant c b) as [b' [[]|e]]; [|done]. etrans; [exact Hp|apply IH]. }
  unfold PurgeTenant, act_bind. pose proof (load_spared K a) as Hl.
  destruct (load a) as [b [[]|e]]; [|done]. etrans; [exact Hl|apply Heach].
Qed.

(** *** What the arbiter is asked *)

Inductive request :=
  | AskResolve (e : Entry)
  | AskRestore (tenant component model : string) (tuples : list tuple)
  | AskExport (tenant component : string)
  | AskPurge (tenant component : string)
  | AskPurgeTenant (tenant : string)
  (** The process ends and another takes its place. *)
  | Restart.

Definition serve `{JsonObjects} (q : request) (a : arbiter F R) : arbiter F R :=
  match q with
  | AskResolve e => (Resolve fuel e a).1
  | AskRestore tenant component model tuples => (Restore tenant component model tuples a).1
  | AskExport tenant component => (Export fuel tenant component a).1
  | AskPurge tenant component => (Purge tenant component a).1
  | AskPurgeTenant tenant => (PurgeTenant tenant a).1
  | Restart => mkArbiter (a_fga a) (a_rec a) false ∅
  end.

(** The records a request is about. *)
Definition concerns (q : request) (key : string) : Prop :=
  match q with
  | AskResolve e => key = recordKey e
  | AskRestore tenant component _ _ | AskExport tenant component | AskPurge tenant component =>
      key = tenant +:+ "." +:+ component
  | AskPurgeTenant tenant => ∃ component, key = tenant +:+ "." +:+ component
  | Restart => False
  end.

Lemma restart_apart a : apart a → apart (mkArbiter (a_fga a) (a_rec a) false ∅).
Proof.
  intros Ha. assert (∀ k s, names (mkArbiter (a_fga a) (a_rec a) false ∅) k s → names a k s) as Hn.
  { intros k s [(ids & Hk & _)|Hr]; [simpl in Hk; by rewrite lookup_empty in Hk|by right]. }
  split; [|intros k k' s H1%Hn H2%Hn; by eapply apart_inj|done].
  intros k s Hk%Hn. by apply (apart_used _ Ha k).
Qed.

Lemma serve_spared `{JsonObjects} q a : q ≠ Restart → spared (concerns q) a (serve q a).
Proof.
  intros Hq. destruct q as [e|t c model tuples|t c|t c|t|]; simpl; [..|done].
  - eapply triple_spared; [done|]. intros a0.
    eapply triple_weaken; [by apply (Resolve_within a0)|done|by intros ids b [[? _] _]|done].
  - eapply triple_spared; [done|]. intros a0. by apply Restore_within.
  - eapply triple_spared; [done|]. intros a0. by apply Export_within.
  - by apply Purge_spared.
  - apply PurgeTenant_spared.
Qed.

(** From an arbiter that has recorded nothing. *)
Definition fresh_start (a : arbiter F R) : Prop := a_loaded a = false ∧ a_ids a = ∅ ∧ rec_data (a_rec a) = ∅.

Inductive reached `{JsonObjects} : arbiter F R → Prop :=
  | reached_start a : fresh_start a → reached a
  | reached_serve a q : reached a → reached (serve q a).

Lemma reached_apart `{JsonObjects} a : reached a → apart a.
Proof.
  induction 1 as [a (Hl & Hi & Hr)|a q _ IH].
  - assert (∀ k s, ¬ names a k s) as Hn.
    { intros k s [(ids & Hk & _)|(ids & Hk & _)]; [rewrite Hi in Hk|rewrite Hr in Hk]; by rewrite lookup_empty in Hk. }
    split; [intros k s Hk; by destruct (Hn k s)|intros k k' s Hk; by destruct (Hn k s)|done].
  - assert (q = Restart ∨ q ≠ Restart) as [->|Hq] by (destruct q; auto); [by apply restart_apart|].
    by apply (serve_spared q a Hq).
Qed.
End Isolation.

(** ** Properties *)

(** C3: After any sequence of requests, with any of the calls to OpenFGA and to the
    record failing, whether or not they were carried out, and the arbiter restarted
    at any point: no two components' records name one store; and what is asked for
    one component leaves the record of every other, and every tuple in its store, as
    they were. *)
Theorem components_do_not_share_a_store {F R} `{AppInstanceLaws F} `{RecorderLaws R} `{JsonObjects} fuel
    (a : arbiter F R) q :
  reached fuel a →
  (∀ k k' s, names (serve fuel q a) k s → names (serve fuel q a) k' s → k = k')
  ∧ (q ≠ Restart → ∀ k s, ¬ concerns q k →
      (names (serve fuel q a) k s ↔ names a k s)
      ∧ (names a k s → ai_stores (a_fga (serve fuel q a)) !! s = ai_stores (a_fga a) !! s)).
Proof.
  intros Hr. split.
  - intros k k' s. apply apart_inj. eapply reached_apart. by apply reached_serve.
  - intros Hq. apply (serve_spared fuel q a Hq). by eapply reached_apart.
Qed.

Module IsolationExample.
#[export] Instance plain_json : JsonObjects := {|
  json_fields m := Ok {["model" := m]};
  json_object fs := Ok (default "" (fs !! "model")) |}.
Definition wiki : Entry := mkEntry "acme" "wiki" "" "{}" "" false [Tuple "user:*" "viewer" "doc:welcome"].
Definition files : Entry := mkEntry "acme" "files" "" "{}" "" false [].
Definition both : arbiter Toy.fga Toy.record :=
  serve 3 (AskResolve files) (serve 3 (AskResolve wiki) (Toy.start false)).
End IsolationExample.
#[local] Existing Instance IsolationExample.plain_json.

(** The store of acme's wiki, when acme's files is purged. *)
Lemma components_do_not_share_a_store_witness :
  let a := IsolationExample.both in
  let q := AskPurge "acme" "files" in
  names a "acme.wiki" "s" ∧ names a "acme.files" "ss"
  ∧ (∀ k k' s, names (serve 3 q a) k s → names (serve 3 q a) k' s → k = k')
  ∧ (q ≠ Restart → ∀ k s, ¬ concerns q k →
      (names (serve 3 q a) k s ↔ names a k s)
      ∧ (names a k s → ai_stores (a_fga (serve 3 q a)) !! s = ai_stores (a_fga a) !! s)).
Proof.
  intros a q. split; [left; eexists; split; [vm_compute; reflexivity|reflexivity]|].
  split; [left; eexists; split; [vm_compute; reflexivity|reflexivity]|].
  apply (components_do_not_share_a_store 3 a q).
  do 2 apply reached_serve. apply reached_start. split_and!; reflexivity.
Defined.
