(* ===== verification/ArbiterModels.v ===== *)
(** * The model a store's record names

    Whatever the arbiter is asked and whichever calls fail, a model that a record names was
    written to the record's store, with a text of the digest recorded beside it. *)

From S2P Require Import Prelude.
From S2P Require Import GoStrings.
From S2P Require Import Fga.
From S2P Require Import ArbiterTable.
From S2P Require Import ArbiterStores.
From S2P Require Import ArbiterIsolation.

Section Models.
Context {F R : Type} {HF : AppInstance F} {HFL : AppInstanceLaws F} {HR : Recorder R} {HRL : RecorderLaws R}.
Context (fuel : nat).

(** The text of the model some ids name. *)
Definition model_text (s : F) (ids : StoreIDs) : option string := ai_models s !! (si_store ids, si_model ids).

Definition told_truly (s : F) (ids : StoreIDs) : Prop :=
  si_model ids ≠ "" → ∃ text, model_text s ids = Some text ∧ ModelDigest text = si_digest ids.

(** So it is with everything the arbiter holds and everything on record. *)
Definition faithful (a : arbiter F R) : Prop := ∀ key ids,
  a_ids a !! key = Some ids ∨ rec_data (a_rec a) !! key = Some ids → told_truly (a_fga a) ids.

(** The same, and with the ids at hand. *)
Definition faithful_with (ids : StoreIDs) (a : arbiter F R) : Prop := faithful a ∧ told_truly (a_fga a) ids.

Lemma told_truly_later s s' ids : ai_models s ⊆ ai_models s' → told_truly s ids → told_truly s' ids.
Proof. intros Hsub Ht Hm. destruct (Ht Hm) as (text & Htext & Hd). exists text. split; [by eapply lookup_weaken|done]. Qed.

Lemma faithful_later s s' (a : arbiter F R) : a_fga a = s → ai_models s ⊆ ai_models s' →
  faithful a → faithful (mkArbiter s' (a_rec a) (a_loaded a) (a_ids a)).
Proof. intros <- Hsub Hf key ids Hk. simpl in *. eapply told_truly_later; [done|]. by apply (Hf key). Qed.

(** *** Calls of OpenFGA *)

Lemma on_fga_kept {A} (f : F → F * result A) : (∀ s, ai_models s ⊆ ai_models (f s).1) → kept faithful (on_fga f).
Proof.
  intros Hf a Ha. unfold on_fga. pose proof (Hf (a_fga a)) as Hsub. destruct (f (a_fga a)) as [x [y|e]]; by eapply faithful_later.
Qed.
Lemma on_fga_with {A} (f : F → F * result A) ids : (∀ s, ai_models s ⊆ ai_models (f s).1) → kept (faithful_with ids) (on_fga f).
Proof.
  intros Hf a [Ha Hi]. unfold on_fga. pose proof (Hf (a_fga a)) as Hsub.
  destruct (f (a_fga a)) as [x [y|e]]; (split; [by eapply faithful_later|by eapply told_truly_later]).
Qed.

Lemma create_sub name s : ai_models s ⊆ ai_models (ai_create s name).1.
Proof. by rewrite ai_create_models. Qed.
Lemma delete_sub id s :
  ai_models s ⊆ ai_models (match ai_delete s id with
    | (s', Deleted) => (s', Ok tt) | (s', Missing) => (s', Ok tt) | (s', DeleteFailed e) => (s', Err e) end).1.
Proof. pose proof (ai_delete_models s id) as Hm. destruct (ai_delete s id) as [s' [| |e]]; simpl in *; by rewrite Hm. Qed.
Lemma write_models store o (s : F) writes deletes : ai_models (@Write F (ai_server store) o s writes deletes).1 = ai_models s.
Proof.
  apply (@Write_preserves F (ai_server store) (λ x y, ai_models y = ai_models x));
    [split; [done|intros ??? ??; congruence]|]. intros x r. apply ai_server_models.
Qed.

Lemma createStore_kept name : kept faithful (createStore (F:=F) (R:=R) name).
Proof.
  apply kept_bind; [apply on_fga_kept; intros; apply create_sub|]. intros id. case_bool_decide; [apply kept_fail|apply kept_ret].
Qed.
Lemma deleteStore_kept id : kept faithful (deleteStore (F:=F) (R:=R) id).
Proof. apply on_fga_kept. intros. apply delete_sub. Qed.
Lemma deleteStore_with id ids : kept (faithful_with ids) (deleteStore (F:=F) (R:=R) id).
Proof. apply on_fga_with. intros. apply delete_sub. Qed.
Lemma writeTuples_with store model writes deletes ids :
  kept (faithful_with ids) (writeTuples (F:=F) (R:=R) store model writes deletes).
Proof. apply on_fga_with. intros s. by rewrite write_models. Qed.
Lemma readAll_with store f ids : kept (faithful_with ids) (readAll (F:=F) (R:=R) fuel store f).
Proof. by apply on_fga_with. Qed.

(** A model that was written is the text, under an id the store had not. *)
Lemma writeModel_text store model (a : arbiter F R) :
  let '(a', r) := writeModel store model a in
  a_rec a' = a_rec a ∧ a_loaded a' = a_loaded a ∧ a_ids a' = a_ids a ∧ ai_models (a_fga a) ⊆ ai_models (a_fga a')
  ∧ ∀ id, r = Ok id → id ≠ "" ∧ ai_models (a_fga a) !! (store, id) = None ∧ ai_models (a_fga a') !! (store, id) = Some model.
Proof.
  unfold writeModel, act_bind, on_fga. destruct (ai_write_model (a_fga a) store model) as [x [id|err]] eqn:Hw.
  - apply ai_model_ok in Hw as [Hnew Hm].
    case_bool_decide; simpl; split_and!; try done; try (rewrite Hm; by apply insert_subseteq).
    intros ? [= <-]. split_and!; [done|done|]. by rewrite Hm, lookup_insert_eq.
  - apply ai_model_err in Hw. by split_and!.
Qed.

Lemma writeModel_kept store model (Q : arbiter F R → Prop) :
  (∀ a s', ai_models (a_fga a) ⊆ ai_models s' → Q a → Q (mkArbiter s' (a_rec a) (a_loaded a) (a_ids a))) →
  triple Q (writeModel store model) (λ id a, Q a ∧ id ≠ "" ∧ ai_models (a_fga a) !! (store, id) = Some model) Q.
Proof.
  intros HQ a Ha. pose proof (writeModel_text store model a) as Hw. destruct (writeModel store model a) as [a' r].
  destruct Hw as (H1 & H2 & H3 & Hsub & Hid).
  assert (Q a') as Ha' by (pose proof (HQ a (a_fga a') Hsub Ha) as HQa; rewrite <-H1, <-H2, <-H3 in HQa; by destruct a').
  destruct r as [id|e]; [|done]. by destruct (Hid id eq_refl) as (? & ? & ?).
Qed.

(** *** Calls of the record *)

Lemma load_kept : kept faithful (load (F:=F) (R:=R)).
Proof.
  intros a Ha. unfold load. destruct (a_loaded a); [done|]. pose proof (rec_load_data (a_rec a)) as Hd.
  destruct (rec_load (a_rec a)) as [x [ids|e]] eqn:Hl; simpl in Hd; intros key i; simpl; rewrite Hd.
  - apply rec_load_ok in Hl as ->. intros [Hk|Hk]; apply (Ha key); by right.
  - apply Ha.
Qed.

Lemma recorded_kept key ids (a : arbiter F R) x :
  faithful_with ids a → rec_data x = rec_data (a_rec a) ∨ rec_data x = <[key := ids]> (rec_data (a_rec a)) →
  faithful_with ids (mkArbiter (a_fga a) x (a_loaded a) (a_ids a)).
Proof.
  intros [Ha Hi] Hx. split; [|done]. intros k i. simpl. destruct Hx as [->| ->]; [apply Ha|].
  intros [Hk|[[_ <-]|[_ Hk]]%lookup_insert_Some]; [apply (Ha k); by left|done|apply (Ha k); by right].
Qed.
Lemma save_with key ids : kept (faithful_with ids) (on_rec (F:=F) (R:=R) (λ s, rec_save s key ids)).
Proof.
  intros a Ha. unfold on_rec. destruct (rec_save (a_rec a) key ids) as [x [u|e]] eqn:Hs.
  - apply (recorded_kept key); [done|right; by eapply rec_save_ok].
  - apply (recorded_kept key); [done|by eapply rec_save_err].
Qed.
Lemma set_with key ids : kept (faithful_with ids) (set (F:=F) (R:=R) key ids).
Proof.
  intros a [Ha Hi]. split; [|done]. intros k i. simpl.
  intros [[[_ <-]|[_ Hk]]%lookup_insert_Some|Hk]; [done|apply (Ha k); by left|apply (Ha k); by right].
Qed.
Lemma unset_kept key : kept faithful (unset (F:=F) (R:=R) key).
Proof. intros a Ha k i. simpl. intros [[_ Hk]%lookup_delete_Some|Hk]; apply (Ha k); [by left|by right]. Qed.
Lemma forget_kept key : kept faithful (on_rec (F:=F) (R:=R) (λ s, rec_forget s key)).
Proof.
  intros a Ha. unfold on_rec. assert (∀ x, rec_data x = rec_data (a_rec a) ∨ rec_data x = delete key (rec_data (a_rec a)) →
    faithful (mkArbiter (a_fga a) x (a_loaded a) (a_ids a))) as Hx.
  { intros x Hx k i. simpl. destruct Hx as [->| ->]; [apply Ha|].
    intros [Hk|[_ Hk]%lookup_delete_Some]; apply (Ha k); [by left|by right]. }
  destruct (rec_forget (a_rec a) key) as [x [u|e]] eqn:Hs; apply Hx; [right; by eapply rec_forget_ok|by eapply rec_forget_err].
Qed.
Lemma claim_with key ids : si_model ids = "" →
  triple faithful (on_rec (F:=F) (R:=R) (λ s, rec_claim s key ids)) faithful_with faithful.
Proof.
  intros Hm a Ha. assert (faithful_with ids a) as Hi by (split; [done|by intros []]). unfold on_rec.
  destruct (rec_claim (a_rec a) key ids) as [x [got|e]] eqn:Hs.
  - apply rec_claim_ok in Hs as [Hgot Hx]. assert (faithful_with got a) as Hg.
    { split; [done|]. destruct (rec_data (a_rec a) !! key) as [g|] eqn:Hk; simpl in Hgot; subst got; [apply (Ha key); by right|apply Hi]. }
    apply (recorded_kept key); [done|by right].
  - apply rec_claim_err in Hs as [Hx|[_ Hx]]; apply (recorded_kept key ids); auto.
Qed.

Lemma with_forgets ids (a : arbiter F R) : faithful_with ids a → faithful a.
Proof. by intros [? _]. Qed.

(** *** The operations *)

Lemma establish_with key e : triple faithful (establish (F:=F) (R:=R) key e) faithful_with faithful.
Proof.
  eapply triple_bind; [apply triple_wrap, createStore_kept|]. intros created.
  apply (triple_bind faithful faithful faithful_with).
  { intros a Ha. unfold or_else. pose proof (triple_wrap _ _ _ "record the store %s: %w" [StoreName e] _
      (claim_with key (mkIDs created "" "" [] false) eq_refl) a Ha) as Hc.
    destruct (act_wrap _ _ _ a) as [a' [ids|err]]; [done|]. by apply (triple_left faithful), Hc; apply deleteStore_kept. }
  intros ids. apply (triple_bind _ _ (λ _, faithful_with ids)).
  - case_bool_decide; [by apply triple_ret|]. apply triple_ignoring. eapply triple_weaken; [apply (deleteStore_with created ids)|done..].
  - intros []. apply (triple_bind _ _ (λ _, faithful_with ids)); [|intros _; by apply triple_ret].
    eapply triple_weaken; [apply (set_with key ids)|done|done|by intros; eapply with_forgets].
Qed.

(** A model is written where there was none or one of another digest; else the one that is
    there stays. *)
Lemma renew_model_with key e ids :
  triple (faithful_with ids) (renew_model (F:=F) (R:=R) key e ids) faithful_with faithful.
Proof.
  unfold renew_model. destruct (_ || _); [|apply triple_ret; done].
  eapply triple_bind.
  { apply triple_wrap. eapply triple_weaken; [apply (writeModel_kept _ _ faithful)| | |];
      [intros a s' Hsub Ha; by eapply faithful_later|by intros a [? _]|done|done]. }
  intros id. set (ids' := with_model ids id (ModelDigest (e_model e))).
  apply (triple_bind _ _ (λ _, faithful_with ids')).
  - apply triple_wrap. eapply triple_weaken; [apply (save_with key ids')| |done|by intros; eapply with_forgets].
    intros a (Ha & _ & Hm). split; [done|]. intros _. by exists (e_model e).
  - intros []. apply (triple_bind _ _ (λ _, faithful_with ids')); [|intros _; by apply triple_ret].
    eapply triple_weaken; [apply (set_with key ids')|done|done|by intros; eapply with_forgets].
Qed.

Lemma with_written_told s ids written mirrored : told_truly s ids → told_truly s (with_written ids written mirrored).
Proof. done. Qed.

Lemma take_memberships_with e ids : kept (faithful_with ids) (take_memberships (F:=F) (R:=R) fuel e ids).
Proof.
  apply kept_bind; [apply kept_wrap, readAll_with|]. intros members. apply kept_wrap, writeTuples_with.
Qed.

Lemma platformTuples_with key e ids :
  triple (faithful_with ids) (platformTuples (F:=F) (R:=R) fuel key e ids) faithful_with faithful.
Proof.
  unfold platformTuples. destruct (tupleDiff _ _) as [writes deletes]. destruct (_ && _ && _ && _); [by apply triple_ret|].
  set (ids' := with_written ids (e_tuples e) (e_mirror e)).
  assert (∀ a, faithful_with ids a → faithful a) as Hf by (intros; by eapply with_forgets).
  apply (triple_bind _ _ (λ _, faithful_with ids)).
  { apply triple_wrap. eapply triple_weaken; [apply (writeTuples_with _ _ _ _ ids)|done..]. }
  intros ?. apply (triple_bind _ _ (λ _, faithful_with ids)).
  { destruct (_ && _); [|by apply triple_ret]. eapply triple_weaken; [apply (take_memberships_with e ids)|done..]. }
  intros ?. apply (triple_bind _ _ (λ _, faithful_with ids')).
  { apply triple_wrap. eapply triple_weaken; [apply (save_with key ids')|done|done|by intros; eapply with_forgets]. }
  intros ?. apply (triple_bind _ _ (λ _, faithful_with ids')); [|intros ?; by apply triple_ret].
  eapply triple_weaken; [apply (set_with key ids')|done|done|by intros; eapply with_forgets].
Qed.

Lemma Resolve_with e : triple faithful (Resolve (F:=F) (R:=R) fuel e) faithful_with faithful.
Proof.
  eapply triple_bind; [apply load_kept|]. intros u.
  apply (triple_bind _ _ (λ got a, faithful a ∧ got = a_ids a !! recordKey e)); [by intros a Ha|]. intros got.
  apply (triple_bind _ _ faithful_with).
  - destruct got as [ids|]; [apply triple_ret; intros a [Ha Hk]; split; [done|]; by apply (Ha (recordKey e)); left|].
    eapply triple_weaken; [apply (establish_with (recordKey e) e)|by intros a [? _]|done|done].
  - intros ids. eapply triple_bind; [apply renew_model_with|]. intros ids'. apply platformTuples_with.
Qed.

Lemma remove_store_kept key name ids : kept faithful (remove_store (F:=F) (R:=R) key name ids).
Proof.
  apply kept_bind; [apply kept_wrap, deleteStore_kept|]. intros _.
  apply kept_bind; [apply kept_wrap, forget_kept|]. intros _. apply unset_kept.
Qed.

Lemma Purge_kept tenant component : kept faithful (Purge (F:=F) (R:=R) tenant component).
Proof.
  apply kept_bind; [apply load_kept|]. intros _. apply kept_bind; [by apply kept_unchanged|]. intros [ids|]; [|apply kept_ret].
  apply remove_store_kept.
Qed.

Lemma or_else_kept {A} (m : act (arbiter F R) A) g (Q' : A → arbiter F R → Prop) Q :
  triple Q m Q' faithful → kept faithful g → triple Q (or_else m g) Q' faithful.
Proof.
  intros Hm Hg a Ha. unfold or_else. specialize (Hm a Ha). destruct (m a) as [a' [x|e]]; [done|]. by apply (triple_left faithful).
Qed.

Lemma refill_kept key e ts : kept faithful (refill (F:=F) (R:=R) key e ts).
Proof.
  eapply triple_bind; [apply triple_wrap, createStore_kept|]. intros created.
  set (given := λ id, mkIDs created id (ModelDigest (e_model e)) [] false).
  apply (triple_bind _ _ (λ id, faithful_with (given id))).
  { apply or_else_kept; [|apply deleteStore_kept]. apply triple_wrap.
    eapply triple_weaken; [apply (writeModel_kept _ _ faithful)| | |]; [intros a s' Hsub Ha; by eapply faithful_later|done| |done].
    intros id a (Ha & _ & Hm). split; [done|]. intros _. by exists (e_model e). }
  intros id. fold (given id). apply (triple_bind _ _ (λ _, faithful_with (given id))).
  { apply or_else_kept; [|apply deleteStore_kept]. apply triple_wrap.
    eapply triple_weaken; [apply (writeTuples_with _ _ _ _ (given id))|done|done|by intros; eapply with_forgets]. }
  intros ?. apply (triple_bind _ _ (λ _, faithful_with (given id))).
  { eapply triple_weaken; [apply (save_with key (given id))|done|done|by intros; eapply with_forgets]. }
  intros ?. eapply triple_weaken; [apply (set_with key (given id))|done|by intros ? ? [? _]|by intros ? [? _]].
Qed.

Lemma Restore_kept tenant component model ts : kept faithful (Restore (F:=F) (R:=R) tenant component model ts).
Proof.
  apply kept_bind; [apply load_kept|]. intros _. apply kept_bind; [by apply kept_unchanged|]. intros got.
  apply kept_bind; [|intros _; apply refill_kept]. destruct got as [ids|]; [|apply kept_ret].
  apply kept_bind; [apply kept_wrap, deleteStore_kept|]. intros _.
  apply kept_bind; [apply forget_kept|]. intros _. apply unset_kept.
Qed.

Lemma Export_kept `{JsonObjects} tenant component : kept faithful (Export (F:=F) (R:=R) fuel tenant component).
Proof.
  apply kept_bind; [apply load_kept|]. intros _. apply kept_bind; [by apply kept_unchanged|]. intros [ids|]; [|apply kept_ret].
  apply kept_bind; [by apply on_fga_kept|]. intros held. apply kept_bind; [apply kept_of_result|]. intros fs.
  apply kept_bind; [apply kept_of_result|]. intros m. apply kept_bind; [by apply on_fga_kept|]. intros all. apply kept_ret.
Qed.

Lemma serve_faithful `{JsonObjects} q a : faithful a → faithful (serve fuel q a).
Proof.
  intros Ha. destruct q as [e|t c model ts|t c|t c|t|]; simpl.
  - pose proof (Resolve_with e a Ha) as Hr. destruct (Resolve fuel e a) as [a' [ids|err]]; [by eapply with_forgets|done].
  - by apply (triple_left faithful); [apply Restore_kept|].
  - by apply (triple_left faithful); [apply Export_kept|].
  - by apply (triple_left faithful); [apply Purge_kept|].
  - apply (triple_left faithful); [|done]. apply kept_bind; [apply load_kept|]. intros _.
    apply kept_bind; [by apply kept_unchanged|]. intros cs. apply triple_each. intros c. apply Purge_kept.
  - intros key ids. simpl. rewrite lookup_empty. intros [?|Hk]; [done|]. apply (Ha key). by right.
Qed.

Lemma reached_faithful `{JsonObjects} a : reached fuel a → faithful a.
Proof.
  induction 1 as [a (_ & Hi & Hr)|a q _ IH]; [|by apply serve_faithful].
  intros key ids. rewrite Hi, Hr, !lookup_empty. by intros [?|?].
Qed.
End Models.
