(* ===== verification/ArbiterResolve.v ===== *)
(** * What a store is resolved to

    [Stores.Resolve], [Restore], [Export] and [Purge] of [internal/arbiter/stores.go],
    by what they leave in the store, in the record and in OpenFGA. *)

From S2P Require Import Prelude.
From S2P Require Import GoStrings.
From S2P Require Import Fga.
From S2P Require Import ArbiterTable.
From S2P Require Import ArbiterStores.
From S2P Require Import ArbiterIsolation.
From S2P Require Import ArbiterModels.

Section Resolve.
Context {F R : Type} {HF : AppInstance F} {HFL : AppInstanceLaws F} {HR : Recorder R} {HRL : RecorderLaws R}.
Context (fuel : nat).

(** The tuples of a store. *)
Definition tuples (a : arbiter F R) (store : string) : gset tuple := default ∅ (ai_stores (a_fga a) !! store).

(** What the platform takes out of a store and puts into it: of the starting tuples
    it wrote, those the entry no longer names; and those it names anew. *)
Definition dropped (ids : StoreIDs) (e : Entry) : gset tuple :=
  list_to_set (filter (λ t, t ∉ e_tuples e) (si_written ids)).
Definition added (ids : StoreIDs) (e : Entry) : gset tuple :=
  list_to_set (filter (λ t, t ∉ si_written ids) (e_tuples e)).
(** The memberships a store that stops mirroring gives up. *)
Definition member_of_group (t : tuple) : bool := matches (Tuple "" "member" (groupType +:+ ":")) t.
Definition unmirrors (ids : StoreIDs) (e : Entry) : bool := si_mirrored ids && negb (e_mirror e).
Definition settle (ids : StoreIDs) (e : Entry) (c : gset tuple) : gset tuple :=
  let c := (c ∖ dropped ids e) ∪ added ids e in
  if unmirrors ids e then filter (λ t, member_of_group t = false) c else c.

Lemma elem_of_dropped ids e t : t ∈ dropped ids e ↔ t ∈ si_written ids ∧ t ∉ e_tuples e.
Proof. unfold dropped. rewrite elem_of_list_to_set, list_elem_of_filter. tauto. Qed.
Lemma elem_of_added ids e t : t ∈ added ids e ↔ t ∈ e_tuples e ∧ t ∉ si_written ids.
Proof. unfold added. rewrite elem_of_list_to_set, list_elem_of_filter. tauto. Qed.

(** *** Writing to a store *)

Lemma writeTuples_tuples store model writes deletes a :
  let '(a', r) := writeTuples store model writes deletes a in
  a_rec a' = a_rec a ∧ a_loaded a' = a_loaded a ∧ a_ids a' = a_ids a
  ∧ elsewhere store (a_fga a) (a_fga a')
  ∧ match r with
    | Ok _ => tuples a' store = (tuples a store ∖ list_to_set deletes) ∪ list_to_set writes
    | Err _ =>
        (∃ done, done `prefix_of` deletes ∧ tuples a' store = tuples a store ∖ list_to_set done)
        ∨ (∃ done, done `prefix_of` writes
            ∧ tuples a' store = (tuples a store ∖ list_to_set deletes) ∪ list_to_set done)
    end.
Proof.
  unfold writeTuples, on_fga. set (o := mkWriteOptions model "ignore" "ignore").
  pose proof (Write_elsewhere store o (a_fga a) writes deletes) as He.
  pose proof (@Write_spec F (ai_server store) (ai_server_laws store) o (a_fga a) writes deletes) as Hw.
  unfold deletes_before_writes in Hw. destruct (Write o (a_fga a) writes deletes) as [x r]. simpl in He.
  unfold tuples. simpl. split_and!; try done.
  destruct r; [by rewrite !ai_server_contents in Hw|]. destruct Hw as [_ Hw].
  destruct Hw as [(d & ? & Hw)|(d & ? & Hw)]; rewrite !ai_server_contents in Hw; eauto.
Qed.

Lemma readAll_tuples store f a a' l :
  readAll fuel store f a = (a', Ok l) → a' = a ∧ ∀ t, t ∈ l ↔ t ∈ tuples a store ∧ matches f t = true.
Proof.
  unfold readAll, on_fga. destruct (@Read F (ai_server store) fuel (a_fga a) f) as [r|] eqn:Hr; simpl; [|done].
  intros [= <- ->]. split; [by destruct a|].
  apply (@Read_Ok F (ai_server store) (ai_server_laws store)) in Hr as [_ Hr].
  intros t. rewrite Hr, ai_server_contents. done.
Qed.

(** *** The platform's tuples *)

(** Whatever part of the work was done, doing all of it comes to the same. *)
Lemma settle_part ids e c c' :
  (∀ t, t ∉ dropped ids e → t ∉ added ids e → (unmirrors ids e = true → member_of_group t = false) →
        t ∈ c' ↔ t ∈ c) →
  settle ids e c' = settle ids e c.
Proof.
  intros Hsame. apply set_eq. intros t. unfold settle. specialize (Hsame t).
  destruct (unmirrors ids e); rewrite ?elem_of_filter, !elem_of_union, !elem_of_difference;
    destruct (decide (t ∈ dropped ids e)), (decide (t ∈ added ids e)); try tauto.
  destruct (member_of_group t) eqn:Hm; [naive_solver|]. rewrite Hsame; [done..|]. done.
Qed.

Lemma settle_idle ids e c :
  filter (λ t, t ∉ si_written ids) (e_tuples e) = [] → filter (λ t, t ∉ e_tuples e) (si_written ids) = [] →
  unmirrors ids e = false → settle ids e c = c.
Proof. intros Hw Hd Hu. unfold settle, dropped, added. rewrite Hw, Hd, Hu. simpl. set_solver. Qed.

Lemma prefix_elem_of {A} (l l' : list A) x : l `prefix_of` l' → x ∈ l → x ∈ l'.
Proof. intros [k ->]. rewrite elem_of_app. tauto. Qed.

(** The starting tuples written, and then the memberships taken out: all of it, or a
    part. *)
Lemma write_starting ids e a :
  let '(a', r) := writeTuples (si_store ids) (si_model ids)
    (tupleDiff (si_written ids) (e_tuples e)).1 (tupleDiff (si_written ids) (e_tuples e)).2 a in
  a_rec a' = a_rec a ∧ a_loaded a' = a_loaded a ∧ a_ids a' = a_ids a
  ∧ elsewhere (si_store ids) (a_fga a) (a_fga a')
  ∧ settle ids e (tuples a' (si_store ids)) = settle ids e (tuples a (si_store ids))
  ∧ (is_ok r = true → tuples a' (si_store ids) = (tuples a (si_store ids) ∖ dropped ids e) ∪ added ids e).
Proof.
  pose proof (writeTuples_tuples (si_store ids) (si_model ids)
    (tupleDiff (si_written ids) (e_tuples e)).1 (tupleDiff (si_written ids) (e_tuples e)).2 a) as Hw.
  destruct (writeTuples _ _ _ _ _) as [a' r]. destruct Hw as (H1 & H2 & H3 & H4 & Hw).
  assert (∀ done l, done `prefix_of` l → ∀ t, t ∈ (list_to_set done : gset tuple) → t ∈ (list_to_set l : gset tuple)) as Hpre.
  { intros d l Hd t. rewrite !elem_of_list_to_set. by apply prefix_elem_of. }
  split_and!; try done.
  - apply settle_part. intros t Hd Ha _. destruct r as [u|err].
    + rewrite Hw. fold (dropped ids e) (added ids e). set_solver.
    + destruct Hw as [(d & Hpd & ->)|(d & Hpd & ->)]; pose proof (Hpre _ _ Hpd t) as Hin;
        unfold dropped, added in *; simpl in *; rewrite ?elem_of_union, !elem_of_difference; tauto.
  - destruct r as [u|err]; [done|]. by intros.
Qed.

(** Between two states only the store's tuples differ. *)
Definition only_tuples (store : string) (a a' : arbiter F R) : Prop :=
  a_rec a' = a_rec a ∧ a_loaded a' = a_loaded a ∧ a_ids a' = a_ids a ∧ elsewhere store (a_fga a) (a_fga a').

#[global] Instance only_tuples_preorder store : PreOrder (only_tuples store).
Proof.
  split; [by intros a; split_and!|]. intros a b c (H1 & H2 & H3 & H4) (H5 & H6 & H7 & H8).
  split_and!; [congruence..|by etrans].
Qed.

Lemma take_memberships_spec e ids a :
  let '(a', r) := take_memberships fuel e ids a in
  only_tuples (si_store ids) a a'
  ∧ (∀ t, member_of_group t = false → t ∈ tuples a' (si_store ids) ↔ t ∈ tuples a (si_store ids))
  ∧ (is_ok r = true → tuples a' (si_store ids) = filter (λ t, member_of_group t = false) (tuples a (si_store ids))).
Proof.
  unfold take_memberships, act_bind. unfold act_wrap at 1.
  destruct (readAll fuel (si_store ids) _ a) as [a1 [l|err]] eqn:Hr; simpl.
  2: { assert (a1 = a) as ->; [|by split].
       unfold readAll, on_fga in Hr. injection Hr as <- _. by destruct a. }
  apply readAll_tuples in Hr as [-> Hl]. unfold act_wrap.
  pose proof (writeTuples_tuples (si_store ids) (si_model ids) [] l a) as Hw.
  destruct (writeTuples _ _ _ _ a) as [a' r]. destruct Hw as (H1 & H2 & H3 & H4 & Hw).
  split_and!; try done.
  - intros t Hm. unfold member_of_group in Hm. assert (t ∉ l) by (rewrite Hl; naive_solver congruence).
    destruct r as [u|err].
    + rewrite Hw. set_solver.
    + destruct Hw as [(d & Hd & ->)|(d & Hd%prefix_nil_inv & ->)]; [|subst; set_solver].
      rewrite elem_of_difference, elem_of_list_to_set. split; [tauto|]. intros Ht. split; [done|].
      intros Hin. by eapply prefix_elem_of in Hin.
  - destruct r as [u|err]; [|done]. intros _. apply set_eq. intros t.
    rewrite Hw, elem_of_union, elem_of_difference, elem_of_filter, !elem_of_list_to_set, elem_of_nil, Hl.
    unfold member_of_group. destruct (matches _ t); naive_solver.
Qed.

(** What is recorded of the key, and held of it. *)
Lemma save_spec key ids format args (a : arbiter F R) :
  let '(a', r) := act_wrap format args (on_rec (λ s, rec_save s key ids)) a in
  a_fga a' = a_fga a ∧ a_loaded a' = a_loaded a ∧ a_ids a' = a_ids a
  ∧ (is_ok r = true → rec_data (a_rec a') = <[key := ids]> (rec_data (a_rec a))).
Proof.
  unfold act_wrap, on_rec. destruct (rec_save (a_rec a) key ids) as [x [u|e]] eqn:Hs; simpl; [|done].
  split_and!; try done. intros _. by eapply rec_save_ok.
Qed.

(** The tuples as the entry says, or a part of the way there. *)
Definition tuples_settled (key : string) (e : Entry) (ids : StoreIDs) (a a' : arbiter F R) (r : result StoreIDs) : Prop :=
  a_loaded a' = a_loaded a ∧ elsewhere (si_store ids) (a_fga a) (a_fga a')
  ∧ settle ids e (tuples a' (si_store ids)) = settle ids e (tuples a (si_store ids))
  ∧ match r with
    | Ok ids' =>
        tuples a' (si_store ids) = settle ids e (tuples a (si_store ids))
        ∧ si_store ids' = si_store ids ∧ si_model ids' = si_model ids ∧ si_digest ids' = si_digest ids
        ∧ si_mirrored ids' = e_mirror e ∧ (∀ t, t ∈ si_written ids' ↔ t ∈ e_tuples e)
        ∧ a_ids a' = <[key := ids']> (a_ids a)
    | Err _ => a_ids a' = a_ids a
    end.

Lemma filter_notin_nil (l k : list tuple) : filter (λ t, t ∉ k) l = [] → ∀ t, t ∈ l → t ∈ k.
Proof.
  intros Hf t Ht. destruct (decide (t ∈ k)); [done|].
  assert (t ∈ filter (λ t, t ∉ k) l) as Hin by (by apply list_elem_of_filter). rewrite Hf in Hin. by apply elem_of_nil in Hin.
Qed.

(** Given that the starting tuples are in place, the memberships. *)
Definition settle_members (ids : StoreIDs) (e : Entry) (c : gset tuple) : gset tuple :=
  if unmirrors ids e then filter (λ t, member_of_group t = false) c else c.

Lemma settle_once ids e c : settle ids e c = settle_members ids e ((c ∖ dropped ids e) ∪ added ids e).
Proof. done. Qed.

Lemma memberships_settled e ids a :
  let '(a', r) := (if unmirrors ids e then take_memberships fuel e ids else ret ()) a in
  only_tuples (si_store ids) a a'
  ∧ settle ids e (tuples a' (si_store ids)) = settle ids e (tuples a (si_store ids))
  ∧ (is_ok r = true → tuples a' (si_store ids) = settle_members ids e (tuples a (si_store ids))).
Proof.
  unfold settle_members. destruct (unmirrors ids e) eqn:Hu; [|by simpl].
  pose proof (take_memberships_spec e ids a) as Ht. destruct (take_memberships fuel e ids a) as [a' r].
  destruct Ht as (Ho & Hpart & Hok). split_and!; [done| |done].
  apply settle_part. intros t _ _ Hm. by apply Hpart, Hm.
Qed.

Lemma platformTuples_spec key e ids a :
  a_ids a !! key = Some ids →
  let '(a', r) := platformTuples fuel key e ids a in tuples_settled key e ids a a' r.
Proof.
  intros Hids. unfold platformTuples, tupleDiff. fold (unmirrors ids e).
  destruct (bool_decide (filter (λ t, t ∉ si_written ids) (e_tuples e) = []) && _ && _ && _) eqn:Hidle.
  { go_bool. destruct Hidle as [[[Hw Hd] Hu] Hm]. unfold ret. split_and!; try done.
    - by rewrite settle_idle.
    - split; by apply filter_notin_nil.
    - by rewrite insert_id. }
  clear Hidle. unfold act_bind. unfold act_wrap at 1.
  pose proof (write_starting ids e a) as Hw. simpl in Hw.
  destruct (writeTuples _ _ _ _ a) as [a1 [u|err]]; destruct Hw as (H1 & H2 & H3 & H4 & Hs & Hall); simpl;
    [specialize (Hall eq_refl)|by split_and!].
  pose proof (memberships_settled e ids a1) as Hmid.
  destruct ((if unmirrors ids e then take_memberships fuel e ids else ret ()) a1) as [a2 [u2|err]];
    destruct Hmid as ((H5 & H6 & H7 & H8) & Hs2 & Hset);
    [specialize (Hset eq_refl); rewrite Hall, <- settle_once in Hset
    |split_and!; [congruence|by etrans|congruence|simpl; congruence]].
  pose proof (save_spec key (with_written ids (e_tuples e) (e_mirror e))
    "record the starting tuples of %s: %w" [StoreName e] a2) as Hsave.
  destruct (act_wrap _ _ _ a2) as [a3 [u3|err]]; destruct Hsave as (H9 & H10 & H11 & _).
  - unfold tuples_settled, set, ret, tuples in *. simpl. rewrite H9.
    split_and!; try done; [congruence|by etrans|by rewrite Hs2, Hs|congruence].
  - unfold tuples_settled, tuples in *. rewrite H9. split_and!; [congruence|by etrans|by rewrite Hs2, Hs|congruence].
Qed.

(** *** The model *)

(** The same store and the same tuples of the platform's, whatever the model. *)
Definition same_store (ids ids' : StoreIDs) : Prop :=
  si_store ids' = si_store ids ∧ si_written ids' = si_written ids ∧ si_mirrored ids' = si_mirrored ids.

Lemma settle_same ids ids' e c : same_store ids ids' → settle ids' e c = settle ids e c.
Proof. intros (_ & Hw & Hm). unfold settle, dropped, added, unmirrors. by rewrite Hw, Hm. Qed.

Lemma writeModel_spec store model (a : arbiter F R) :
  let '(a', r) := writeModel store model a in
  a_rec a' = a_rec a ∧ a_loaded a' = a_loaded a ∧ a_ids a' = a_ids a
  ∧ ai_used (a_fga a') = ai_used (a_fga a) ∧ ai_stores (a_fga a') = ai_stores (a_fga a)
  ∧ (∀ id, r = Ok id → id ≠ "").
Proof.
  unfold writeModel, act_bind, on_fga. pose proof (ai_model_stores (a_fga a) store model) as [Hs Hu].
  destruct (ai_write_model (a_fga a) store model) as [x [id|err]]; simpl in *; [|by split_and!].
  case_bool_decide; simpl; split_and!; try done. by intros ? [= <-].
Qed.

Lemma renew_model_spec key e ids a :
  a_ids a !! key = Some ids →
  let '(a', r) := renew_model key e ids a in
  a_loaded a' = a_loaded a
  ∧ ai_used (a_fga a') = ai_used (a_fga a) ∧ ai_stores (a_fga a') = ai_stores (a_fga a)
  ∧ match r with
    | Ok ids' => same_store ids ids' ∧ si_model ids' ≠ "" ∧ si_digest ids' = ModelDigest (e_model e)
        ∧ a_ids a' = <[key := ids']> (a_ids a)
    | Err _ => a_ids a' = a_ids a
    end.
Proof.
  intros Hids. unfold renew_model.
  destruct (bool_decide (si_model ids = "") || _) eqn:Hnew; [|go_bool].
  2: { unfold ret. split_and!; try done; [naive_solver..|by rewrite insert_id]. }
  unfold act_bind. unfold act_wrap at 1. pose proof (writeModel_spec (si_store ids) (e_model e) a) as Hw.
  destruct (writeModel _ _ a) as [a1 [id|err]]; destruct Hw as (H1 & H2 & H3 & H4 & H5 & Hid); simpl; [|by split_and!].
  specialize (Hid id eq_refl).
  pose proof (save_spec key (with_model ids id (ModelDigest (e_model e))) "record the model of %s: %w" [StoreName e] a1) as Hs.
  destruct (act_wrap _ _ _ a1) as [a2 [u|err]]; destruct Hs as (H6 & H7 & H8 & _).
  - unfold set, ret. simpl. rewrite H6. split_and!; [congruence..|done|done|done|congruence].
  - rewrite H6. split_and!; congruence.
Qed.

(** *** A store that is known *)

Definition resolved (e : Entry) (old : StoreIDs) (a a' : arbiter F R) (r : result StoreIDs) : Prop :=
  a_loaded a' = true ∧ elsewhere (si_store old) (a_fga a) (a_fga a')
  ∧ settle old e (tuples a' (si_store old)) = settle old e (tuples a (si_store old))
  ∧ match r with
    | Ok ids =>
        tuples a' (si_store old) = settle old e (tuples a (si_store old))
        ∧ si_store ids = si_store old ∧ si_model ids ≠ "" ∧ si_digest ids = ModelDigest (e_model e)
        ∧ si_mirrored ids = e_mirror e ∧ (∀ t, t ∈ si_written ids ↔ t ∈ e_tuples e)
        ∧ a_ids a' = <[recordKey e := ids]> (a_ids a)
    | Err _ => ∃ ids, same_store old ids ∧ a_ids a' = <[recordKey e := ids]> (a_ids a)
    end.

Lemma Resolve_found e old a :
  a_loaded a = true → a_ids a !! recordKey e = Some old →
  let '(a', r) := Resolve fuel e a in resolved e old a a' r.
Proof.
  intros Hl Hold. unfold Resolve, act_bind, load, get, ret. rewrite Hl, Hold.
  pose proof (renew_model_spec (recordKey e) e old a Hold) as Hr.
  destruct (renew_model (recordKey e) e old a) as [a1 [ids|err]]; destruct Hr as (H1 & H2 & H3 & Hr).
  2: { unfold resolved, tuples. rewrite H3. split_and!; [congruence| |done|].
       - split_and!; [done|congruence|intros; congruence].
       - exists old. split; [done|]. by rewrite Hr, insert_id. }
  destruct Hr as (Hsame & Hm & Hd & Hids).
  assert (elsewhere (si_store old) (a_fga a) (a_fga a1)) as He by (split_and!; [done|congruence|intros; congruence]).
  pose proof (platformTuples_spec (recordKey e) e ids a1) as Hp. rewrite Hids, lookup_insert_eq in Hp.
  specialize (Hp eq_refl). destruct (platformTuples fuel (recordKey e) e ids a1) as [a' r].
  destruct Hp as (H4 & H5 & H6 & Hp). pose proof Hsame as (Hst & _ & _). rewrite Hst in *.
  assert (tuples a1 (si_store old) = tuples a (si_store old)) as Ht by (unfold tuples; by rewrite H3).
  rewrite !(settle_same old ids e), Ht in * by done.
  split_and!; [congruence|by etrans|done|]. rewrite Hids in Hp. destruct r as [ids'|err].
  - destruct Hp as (? & ? & ? & ? & ? & ? & Hi). rewrite insert_insert_eq in Hi. split_and!; [congruence..|done|done|done].
  - exists ids. done.
Qed.

(** *** Attempts that fail *)

Definition attempt (e : Entry) (a a' : arbiter F R) : Prop := ∃ err, Resolve fuel e a = (a', Err err).

(** However often it failed, the store is where finishing comes to the same. *)
Definition underway (e : Entry) (old : StoreIDs) (a a' : arbiter F R) : Prop :=
  a_loaded a' = true ∧ elsewhere (si_store old) (a_fga a) (a_fga a')
  ∧ settle old e (tuples a' (si_store old)) = settle old e (tuples a (si_store old))
  ∧ ∃ ids, same_store old ids ∧ a_ids a' = <[recordKey e := ids]> (a_ids a).

Lemma attempts_underway e old a a' :
  a_loaded a = true → a_ids a !! recordKey e = Some old → rtc (attempt e) a a' → underway e old a a'.
Proof.
  intros Hl Hold. apply (rtc_ind_r (underway e old a)).
  - split_and!; [done..|]. exists old. by rewrite insert_id.
  - intros a1 a2 _ [err Hrun] (Hl1 & He1 & Hs1 & ids & (Hst & Hw & Hm) & Hi).
    pose proof (Resolve_found e ids a1 Hl1) as Hf. rewrite Hi, lookup_insert_eq in Hf. specialize (Hf eq_refl).
    rewrite Hrun in Hf. destruct Hf as (Hl2 & He2 & Hs2 & ids2 & (Hst2 & Hw2 & Hm2) & Hi2).
    rewrite Hst in *. rewrite !(settle_same old ids e) in Hs2 by done.
    split_and!; [done|by etrans|congruence|]. exists ids2. rewrite Hi2, Hi, insert_insert_eq.
    split; [|done]. split_and!; congruence.
Qed.

(** *** A store seen first *)

Definition unknown (key : string) (a : arbiter F R) : Prop :=
  a_loaded a = true ∧ a_ids a !! key = None ∧ rec_data (a_rec a) !! key = None.

Lemma createStore_spec name (a a' : arbiter F R) id :
  createStore name a = (a', Ok id) →
  id ≠ "" ∧ (id ∉ ai_used (a_fga a)) ∧ a_rec a' = a_rec a ∧ a_loaded a' = a_loaded a ∧ a_ids a' = a_ids a
  ∧ ai_stores (a_fga a') = <[id := ∅]> (ai_stores (a_fga a)).
Proof.
  unfold createStore. intros (a1 & id1 & Hc & Hrest)%act_bind_Ok. unfold on_fga in Hc.
  destruct (ai_create (a_fga a) name) as [x r] eqn:Hx. injection Hc as <- ->.
  apply ai_create_ok in Hx as (Hnew & Hu & Hs). case_bool_decide; [done|].
  unfold ret in Hrest. by injection Hrest as <- <-.
Qed.

Lemma establish_held key e a a' ids :
  a_loaded a = true → establish key e a = (a', Ok ids) → a_loaded a' = true ∧ a_ids a' !! key = Some ids.
Proof.
  intros Hl. unfold establish.
  intros (a1 & id & (_ & _ & _ & H2 & _ & _)%act_wrap_Ok%createStore_spec & Hrun)%act_bind_Ok.
  apply act_bind_Ok in Hrun as (a2 & got & Hclaim & Hrun).
  assert (a_loaded a2 = true) as Hl2.
  { revert Hclaim. unfold or_else, act_wrap, on_rec. destruct (rec_claim _ _ _) as [x [g|err]]; simpl; [|done].
    intros [= <- _]. simpl. congruence. }
  apply act_bind_Ok in Hrun as (a3 & [] & Hdel & Hrun).
  assert (a_loaded a3 = true) as Hl3.
  { revert Hdel. case_bool_decide; [unfold ret; by intros [= <-]|]. unfold ignoring, deleteStore, on_fga.
    destruct (ai_delete _ _) as [x [| |err]]; by intros [= <-]. }
  unfold act_bind, set, ret in Hrun. injection Hrun as <- <-. simpl. by rewrite lookup_insert_eq.
Qed.

Lemma establish_spec key e a a' ids :
  unknown key a → establish key e a = (a', Ok ids) →
  (si_store ids ∉ ai_used (a_fga a)) ∧ si_written ids = [] ∧ si_mirrored ids = false
  ∧ a_loaded a' = true ∧ a_ids a' = <[key := ids]> (a_ids a)
  ∧ ai_stores (a_fga a') = <[si_store ids := ∅]> (ai_stores (a_fga a)) ∧ si_model ids = "".
Proof.
  intros (Hl & Hi & Hrec). unfold establish.
  intros (a1 & id & (_ & Hnew & H1 & H2 & H3 & H4)%act_wrap_Ok%createStore_spec & Hrun)%act_bind_Ok.
  apply act_bind_Ok in Hrun as (a2 & got & Hclaim & Hrun).
  assert (act_wrap "record the store %s: %w" [StoreName e]
    (on_rec (λ s, rec_claim s key (mkIDs id "" "" [] false))) a1 = (a2, Ok got)) as Hc.
  { revert Hclaim. unfold or_else. by destruct (act_wrap _ _ _ a1) as [? [?|?]]. }
  apply act_wrap_Ok in Hc. unfold on_rec in Hc.
  destruct (rec_claim _ _ _) as [x r] eqn:Hx. injection Hc as <- ->.
  apply rec_claim_ok in Hx as [Hgot _]. rewrite H1, Hrec in Hgot. simpl in Hgot. subst got. simpl in Hrun.
  rewrite bool_decide_true in Hrun by done. unfold act_bind, ret, set in Hrun. injection Hrun as <- <-. simpl.
  split_and!; try done; congruence.
Qed.

Lemma Resolve_unknown e a a' ids :
  unknown (recordKey e) a → Resolve fuel e a = (a', Ok ids) →
  ∃ a1 new, (si_store new ∉ ai_used (a_fga a)) ∧ si_written new = [] ∧ si_mirrored new = false
    ∧ ai_stores (a_fga a1) = <[si_store new := ∅]> (ai_stores (a_fga a))
    ∧ a_ids a1 = <[recordKey e := new]> (a_ids a) ∧ resolved e new a1 a' (Ok ids).
Proof.
  intros Hu. pose proof Hu as (Hl & Hi & _). unfold Resolve, act_bind at 1 2, load, get. rewrite Hl, Hi.
  intros (a1 & new & (Hnew & Hw & Hm & Hl1 & Hi1 & Hs & _)%establish_spec & Hrun)%act_bind_Ok; [|done].
  exists a1, new. split_and!; try done.
  assert (Resolve fuel e a1 = (a', Ok ids)) as Hr.
  { unfold Resolve, act_bind at 1 2 3, load, get, ret. by rewrite Hl1, Hi1, lookup_insert_eq. }
  pose proof (Resolve_found e new a1 Hl1) as Hf. rewrite Hi1, lookup_insert_eq in Hf. specialize (Hf eq_refl).
  by rewrite Hr in Hf.
Qed.

(** A record another attempt left is taken up, with the store it names. *)
Lemma establish_recorded key e a a' ids got :
  a_loaded a = true → rec_data (a_rec a) !! key = Some ids → si_store ids ∈ ai_used (a_fga a) →
  establish key e a = (a', Ok got) →
  got = ids ∧ a_loaded a' = true ∧ a_ids a' = <[key := ids]> (a_ids a)
  ∧ ai_stores (a_fga a') !! si_store ids = ai_stores (a_fga a) !! si_store ids.
Proof.
  intros Hl Hrec Hused. unfold establish.
  intros (a1 & id & (_ & Hnew & H1 & H2 & H3 & H4)%act_wrap_Ok%createStore_spec & Hrun)%act_bind_Ok.
  assert (si_store ids ≠ id) as Hne by (by intros <-).
  apply act_bind_Ok in Hrun as (a2 & got' & Hclaim & Hrun).
  assert (on_rec (λ s, rec_claim s key (mkIDs id "" "" [] false)) a1 = (a2, Ok got')) as Hc.
  { revert Hclaim. unfold or_else, act_wrap. by destruct (on_rec _ a1) as [? [?|?]]. }
  unfold on_rec in Hc. destruct (rec_claim _ _ _) as [x r] eqn:Hx. injection Hc as <- ->.
  apply rec_claim_ok in Hx as [-> _]. rewrite H1, Hrec in Hrun. simpl in Hrun.
  rewrite bool_decide_false in Hrun by done. unfold act_bind, ignoring, set, ret in Hrun. simpl in Hrun.
  injection Hrun as <- <-. unfold deleteStore, on_fga. simpl.
  destruct (ai_delete (a_fga a1) id) as [y d] eqn:Hd.
  assert (ai_stores y !! si_store ids = ai_stores (a_fga a) !! si_store ids) as Hy.
  { rewrite <- (lookup_insert_ne (ai_stores (a_fga a)) id (si_store ids) ∅), <- H4 by done.
    destruct d as [| |err]; [apply ai_delete_ok in Hd as ->|apply ai_delete_missing in Hd as [_ ->]
      |apply ai_delete_err in Hd as [->| ->]]; rewrite ?lookup_delete_ne by done; done. }
  destruct d; simpl; split_and!; try done; congruence.
Qed.

(** A store that was there before is not touched. *)
Lemma establish_frame key e (a a' : arbiter F R) ids s :
  establish key e a = (a', Ok ids) → s ∈ ai_used (a_fga a) → ai_stores (a_fga a') !! s = ai_stores (a_fga a) !! s.
Proof.
  unfold establish. intros (a1 & id & (_ & Hnew & _ & _ & _ & H4)%act_wrap_Ok%createStore_spec & Hrun)%act_bind_Ok Hs.
  assert (id ≠ s) as Hne by (by intros ->).
  assert (ai_stores (a_fga a1) !! s = ai_stores (a_fga a) !! s) as H1 by (by rewrite H4, lookup_insert_ne).
  apply act_bind_Ok in Hrun as (a2 & got & Hclaim & Hrun).
  assert (a_fga a2 = a_fga a1) as H2.
  { revert Hclaim. unfold or_else, act_wrap, on_rec. destruct (rec_claim _ _ _) as [x [g|err]]; simpl; [|done]. by intros [= <- _]. }
  apply act_bind_Ok in Hrun as (a3 & [] & Hdel & Hrun).
  assert (ai_stores (a_fga a3) !! s = ai_stores (a_fga a2) !! s) as H3.
  { revert Hdel. case_bool_decide; [unfold ret; by intros [= <-]|]. unfold ignoring, deleteStore, on_fga.
    destruct (ai_delete _ _) as [y d] eqn:Hd. destruct d as [| |err]; intros [= <-]; simpl;
      [apply ai_delete_ok in Hd as ->|apply ai_delete_missing in Hd as [_ ->]|apply ai_delete_err in Hd as [->| ->]];
      rewrite ?lookup_delete_ne by done; done. }
  unfold act_bind, set, ret in Hrun. injection Hrun as <- <-. simpl. congruence.
Qed.

(** What was resolved is held. *)
Lemma Resolve_held e a a' ids :
  Resolve fuel e a = (a', Ok ids) → a_loaded a' = true ∧ a_ids a' !! recordKey e = Some ids.
Proof.
  unfold Resolve. intros (a1 & [] & Hload & Hrun)%act_bind_Ok.
  assert (a_loaded a1 = true) as Hl1.
  { revert Hload. unfold load. destruct (a_loaded a) eqn:Hl; [by intros [= <-]|].
    destruct (rec_load (a_rec a)) as [x [r|err]]; [by intros [= <-]|done]. }
  clear Hload. apply act_bind_Ok in Hrun as (a1' & got & Hget & Hrun). unfold get in Hget. injection Hget as <- <-.
  apply act_bind_Ok in Hrun as (a2 & ids2 & Hmid & Hrun).
  assert (a_loaded a2 = true ∧ a_ids a2 !! recordKey e = Some ids2) as [Hl2 Hi2].
  { destruct (a_ids a1 !! recordKey e) as [old|] eqn:Hi; [unfold ret in Hmid; by injection Hmid as <- <-|].
    by apply establish_held in Hmid. }
  apply act_bind_Ok in Hrun as (a3 & ids3 & Hrenew & Hplat).
  pose proof (renew_model_spec (recordKey e) e ids2 a2 Hi2) as H3. rewrite Hrenew in H3.
  destruct H3 as (H3 & _ & _ & _ & _ & _ & Hi3).
  pose proof (platformTuples_spec (recordKey e) e ids3 a3) as H4. rewrite Hi3, lookup_insert_eq in H4.
  specialize (H4 eq_refl). rewrite Hplat in H4. destruct H4 as (H4 & _ & _ & _ & _ & _ & _ & _ & _ & Hi4).
  split; [congruence|]. by rewrite Hi4, lookup_insert_eq.
Qed.

(** *** The text of the model, and the record *)

(** What is known of a component's store: what the arbiter holds, or else the record. *)
Definition known_ids (a : arbiter F R) (key : string) : option StoreIDs :=
  match a_ids a !! key with Some ids => Some ids | None => rec_data (a_rec a) !! key end.

(** The model is the entry's text, or one that was there, of the same digest. *)
Definition model_of (e : Entry) (old : option StoreIDs) (s : F) (ids : StoreIDs) : Prop :=
  ∃ text, model_text s ids = Some text ∧ ModelDigest text = ModelDigest (e_model e)
    ∧ (text = e_model e
       ∨ ∃ o, old = Some o ∧ si_model ids = si_model o ∧ si_digest o = ModelDigest (e_model e)).

Definition recorded (key : string) (old : StoreIDs) (a a' : arbiter F R) (ids : StoreIDs) : Prop :=
  rec_data (a_rec a') !! key = Some ids ∨ ids = old ∧ rec_data (a_rec a') = rec_data (a_rec a).

Lemma renew_model_text key e old (a a' : arbiter F R) ids :
  faithful a → a_ids a !! key = Some old → renew_model key e old a = (a', Ok ids) →
  model_of e (Some old) (a_fga a') ids ∧ recorded key old a a' ids.
Proof.
  intros Hf Hold. unfold renew_model. destruct (bool_decide (si_model old = "") || _) eqn:Hnew.
  - intros (a1 & id & Hw%act_wrap_Ok & Hrun)%act_bind_Ok. pose proof (writeModel_text (si_store old) (e_model e) a) as Ht.
    rewrite Hw in Ht. destruct Ht as (_ & _ & _ & _ & Hid). destruct (Hid id eq_refl) as (_ & _ & Hm).
    apply act_bind_Ok in Hrun as (a2 & u & Hs & Hrun).
    pose proof (save_spec key (with_model old id (ModelDigest (e_model e))) "record the model of %s: %w" [StoreName e] a1) as Hsave.
    rewrite Hs in Hsave. destruct Hsave as (Hg & _ & _ & Hrec). specialize (Hrec eq_refl).
    unfold act_bind, set, ret in Hrun. injection Hrun as <- <-. split.
    + exists (e_model e). unfold model_text. simpl. rewrite Hg. split_and!; [done|done|by left].
    + left. simpl. by rewrite Hrec, lookup_insert_eq.
  - unfold ret. intros [= <- <-]. go_bool. split; [|by right].
    destruct (Hf key old (or_introl Hold)) as (text & Htext & Hd); [naive_solver|].
    exists text. split_and!; [done|naive_solver congruence|]. right. exists old. naive_solver.
Qed.

(** The tuples make no difference to the models. *)
Lemma writeTuples_models store model writes deletes (a : arbiter F R) :
  ai_models (a_fga (writeTuples store model writes deletes a).1) = ai_models (a_fga a).
Proof.
  unfold writeTuples, on_fga. pose proof (write_models store (mkWriteOptions model "ignore" "ignore") (a_fga a) writes deletes) as Hm.
  by destruct (Write _ _ _ _) as [x r].
Qed.
Lemma take_memberships_models e ids (a : arbiter F R) :
  ai_models (a_fga (take_memberships fuel e ids a).1) = ai_models (a_fga a).
Proof.
  unfold take_memberships, act_bind, act_wrap. destruct (readAll fuel _ _ a) as [a1 r1] eqn:Hr.
  assert (a1 = a) as -> by (unfold readAll, on_fga in Hr; injection Hr as <- _; by destruct a).
  destruct r1 as [l|err]; [|done].
  pose proof (writeTuples_models (si_store ids) (si_model ids) [] l a) as Hm.
  simpl. by destruct (writeTuples _ _ _ _ a) as [a2 [u|err]].
Qed.

Lemma platformTuples_recorded key e ids (a a' : arbiter F R) ids' :
  platformTuples fuel key e ids a = (a', Ok ids') →
  ai_models (a_fga a') = ai_models (a_fga a) ∧ recorded key ids a a' ids'.
Proof.
  unfold platformTuples. destruct (tupleDiff _ _) as [writes deletes].
  destruct (_ && _ && _ && _); [unfold ret; intros [= <- <-]; by split; [|right]|].
  intros (a1 & u1 & Hw%act_wrap_Ok & Hrun)%act_bind_Ok.
  pose proof (writeTuples_models (si_store ids) (si_model ids) writes deletes a) as M1. rewrite Hw in M1. simpl in M1.
  apply act_bind_Ok in Hrun as (a2 & u2 & Ht & Hrun).
  assert (ai_models (a_fga a2) = ai_models (a_fga a1)) as M2.
  { destruct (_ && _); [|unfold ret in Ht; by injection Ht as <-].
    pose proof (take_memberships_models e ids a1) as M2. by rewrite Ht in M2. }
  apply act_bind_Ok in Hrun as (a3 & u3 & Hs & Hrun).
  pose proof (save_spec key (with_written ids (e_tuples e) (e_mirror e)) "record the starting tuples of %s: %w" [StoreName e] a2) as Hsave.
  rewrite Hs in Hsave. destruct Hsave as (Hg & _ & _ & Hrec). specialize (Hrec eq_refl).
  unfold act_bind, set, ret in Hrun. injection Hrun as <- <-. unfold recorded. simpl. rewrite Hg, Hrec. split; [congruence|left; apply lookup_insert_eq].
Qed.

Lemma Resolve_found_text e old a a' ids :
  faithful a → a_loaded a = true → a_ids a !! recordKey e = Some old → Resolve fuel e a = (a', Ok ids) →
  model_of e (Some old) (a_fga a') ids ∧ recorded (recordKey e) old a a' ids.
Proof.
  intros Hf Hl Hold. unfold Resolve, act_bind at 1 2 3, load, get, ret. rewrite Hl, Hold.
  intros (a1 & ids1 & Hr & Hp)%act_bind_Ok. pose proof (renew_model_spec (recordKey e) e old a Hold) as Hs. rewrite Hr in Hs.
  destruct Hs as (_ & _ & _ & _ & _ & _ & Hi). destruct (renew_model_text _ _ _ _ _ _ Hf Hold Hr) as [Hm Hrec].
  pose proof (platformTuples_spec (recordKey e) e ids1 a1) as Ht. rewrite Hi, lookup_insert_eq in Ht. specialize (Ht eq_refl).
  rewrite Hp in Ht. destruct Ht as (_ & _ & _ & _ & Hst & Hmod & _). destruct (platformTuples_recorded _ _ _ _ _ _ Hp) as [Hms Hrec'].
  split.
  - destruct Hm as (text & Htext & Hd & Ho). exists text. unfold model_text in *. rewrite Hst, Hmod, Hms. split_and!; [done..|].
    destruct Ho as [?|(o & ? & ? & ?)]; [by left|right]. exists o. split_and!; congruence.
  - destruct Hrec' as [?|[-> Hsame]]; [by left|]. unfold recorded in *. rewrite Hsame. destruct Hrec as [?|[-> ?]]; [by left|by right].
Qed.

(** *** Every case of a resolution *)

(** What a resolution that succeeds leaves, in terms of what was known. *)
Definition resolved_to (e : Entry) (a a' : arbiter F R) (ids : StoreIDs) : Prop :=
  let key := recordKey e in
  model_of e (known_ids a key) (a_fga a') ids
  ∧ (rec_data (a_rec a') !! key = Some ids ∨ known_ids a key = Some ids)
  ∧ a_ids a' !! key = Some ids ∧ si_digest ids = ModelDigest (e_model e)
  ∧ si_mirrored ids = e_mirror e ∧ (∀ t, t ∈ si_written ids ↔ t ∈ e_tuples e)
  ∧ match known_ids a key with
    | Some old => si_store ids = si_store old ∧ tuples a' (si_store old) = settle old e (tuples a (si_store old))
    | None => (si_store ids ∉ ai_used (a_fga a)) ∧ ∀ t, t ∈ tuples a' (si_store ids) ↔ t ∈ e_tuples e
    end
  ∧ ∀ s, s ∈ ai_used (a_fga a) → s ≠ si_store ids → ai_stores (a_fga a') !! s = ai_stores (a_fga a) !! s.

Lemma known_recorded key (a a' : arbiter F R) old ids :
  known_ids a key = Some old → recorded key old a a' ids → rec_data (a_rec a') !! key = Some ids ∨ known_ids a key = Some ids.
Proof. intros Hk [?|[-> _]]; [by left|by right]. Qed.

Lemma Resolve_of_held e old a a' ids :
  faithful a → a_loaded a = true → a_ids a !! recordKey e = Some old → Resolve fuel e a = (a', Ok ids) → resolved_to e a a' ids.
Proof.
  intros Hf Hl Hold Hrun. assert (known_ids a (recordKey e) = Some old) as Hk by (unfold known_ids; by rewrite Hold).
  pose proof (Resolve_found e old a Hl Hold) as Hr. rewrite Hrun in Hr.
  destruct Hr as (_ & (_ & _ & He) & _ & Ht & Hst & _ & Hd & Hm & Hw & Hi).
  destruct (Resolve_found_text e old a a' ids Hf Hl Hold Hrun) as [Hmod Hrec].
  unfold resolved_to. rewrite Hk. split_and!; try done; [by apply (known_recorded _ a _ old) in Hrec; rewrite ?Hk in Hrec|by rewrite Hi, lookup_insert_eq|].
  intros s _ Hs. apply He. congruence.
Qed.

Lemma Resolve_after e (a a1 a' : arbiter F R) new ids :
  a_loaded a = true → a_ids a !! recordKey e = None → establish (recordKey e) e a = (a1, Ok new) →
  a_loaded a1 = true → a_ids a1 !! recordKey e = Some new → Resolve fuel e a = (a', Ok ids) → Resolve fuel e a1 = (a', Ok ids).
Proof.
  intros Hl Hi Hest Hl1 Hi1. unfold Resolve, act_bind at 1 2, load, get. rewrite Hl, Hi. unfold act_bind at 1. rewrite Hest.
  unfold act_bind at 2 3 4. by rewrite Hl1, Hi1.
Qed.

Lemma establish_faithful e (a a1 : arbiter F R) new : faithful a → establish (recordKey e) e a = (a1, Ok new) → faithful a1.
Proof. intros Hf Hest. pose proof (establish_with (recordKey e) e a Hf) as Hw. rewrite Hest in Hw. apply Hw. Qed.

Lemma Resolve_of_recorded e old a a' ids :
  faithful a → a_loaded a = true → a_ids a !! recordKey e = None → rec_data (a_rec a) !! recordKey e = Some old →
  si_store old ∈ ai_used (a_fga a) → Resolve fuel e a = (a', Ok ids) → resolved_to e a a' ids.
Proof.
  intros Hf Hl Hi Hrec Hused Hrun. assert (known_ids a (recordKey e) = Some old) as Hk by (unfold known_ids; by rewrite Hi).
  pose proof Hrun as Hrun'. unfold Resolve, act_bind at 1 2, load, get in Hrun'. rewrite Hl, Hi in Hrun'.
  apply act_bind_Ok in Hrun' as (a1 & new & Hest & _).
  destruct (establish_recorded _ _ _ _ _ _ Hl Hrec Hused Hest) as (-> & Hl1 & Hi1 & Hs1).
  assert (a_ids a1 !! recordKey e = Some old) as Hold1 by (by rewrite Hi1, lookup_insert_eq).
  pose proof (Resolve_after e a a1 a' old ids Hl Hi Hest Hl1 Hold1 Hrun) as Hrun1.
  destruct (Resolve_of_held e old a1 a' ids (establish_faithful e a a1 old Hf Hest) Hl1 Hold1 Hrun1)
    as (Hmod & Hr & H3 & H4 & H5 & H6 & H7 & H8).
  assert (known_ids a1 (recordKey e) = Some old) as Hk1 by (unfold known_ids; by rewrite Hold1). rewrite Hk1 in *.
  unfold resolved_to. rewrite Hk. destruct H7 as [Hst Ht]. split_and!; try done.
  - rewrite Ht. unfold tuples. by rewrite Hs1.
  - intros s Hs Hne. pose proof (Resolve_found e old a1 Hl1 Hold1) as Hfound. rewrite Hrun1 in Hfound.
    destruct Hfound as (_ & (_ & _ & He) & _). rewrite He by congruence. by eapply establish_frame.
Qed.

Lemma Resolve_of_new e a a' ids :
  faithful a → unknown (recordKey e) a → Resolve fuel e a = (a', Ok ids) → resolved_to e a a' ids.
Proof.
  intros Hf Hu Hrun. pose proof Hu as (Hl & Hi & Hrec).
  assert (known_ids a (recordKey e) = None) as Hk by (unfold known_ids; by rewrite Hi).
  pose proof Hrun as Hrun'. unfold Resolve, act_bind at 1 2, load, get in Hrun'. rewrite Hl, Hi in Hrun'.
  apply act_bind_Ok in Hrun' as (a1 & new & Hest & _).
  destruct (establish_spec _ _ _ _ _ Hu Hest) as (Hnew & Hw & Hm & Hl1 & Hi1 & Hs & Hnone).
  assert (a_ids a1 !! recordKey e = Some new) as Hold1 by (by rewrite Hi1, lookup_insert_eq).
  pose proof (Resolve_after e a a1 a' new ids Hl Hi Hest Hl1 Hold1 Hrun) as Hrun1.
  destruct (Resolve_of_held e new a1 a' ids (establish_faithful e a a1 new Hf Hest) Hl1 Hold1 Hrun1)
    as (Hmod & Hr & H3 & H4 & H5 & H6 & H7 & H8).
  pose proof (Resolve_found e new a1 Hl1 Hold1) as Hfound. rewrite Hrun1 in Hfound.
  destruct Hfound as (_ & (_ & _ & He) & _ & _ & _ & Hne & _).
  assert (known_ids a1 (recordKey e) = Some new) as Hk1 by (unfold known_ids; by rewrite Hold1). rewrite Hk1 in *.
  unfold resolved_to. rewrite Hk. destruct H7 as [Hst Ht]. split_and!; try done.
  - destruct Hmod as (text & ? & ? & [->|(o & [= <-] & Ho & _)]); [|congruence]. exists (e_model e). split_and!; [done|done|by left].
  - left. destruct Hr as [?|[= <-]]; [done|]. by destruct Hne.
  - by rewrite Hst.
  - intros t. rewrite Hst, Ht. unfold settle, unmirrors. rewrite Hm. simpl.
    rewrite elem_of_union, elem_of_difference, elem_of_dropped, elem_of_added, Hw.
    unfold tuples. rewrite Hs, lookup_insert_eq. simpl. set_solver.
  - intros s Hs' Hne'. rewrite He by congruence. by eapply establish_frame.
Qed.

(** The record is read first, when it was not yet. *)
Lemma Resolve_reads e (a a' : arbiter F R) ids :
  apart a → Resolve fuel e a = (a', Ok ids) →
  ∃ b, a_loaded b = true ∧ a_fga b = a_fga a ∧ rec_data (a_rec b) = rec_data (a_rec a)
    ∧ known_ids b (recordKey e) = known_ids a (recordKey e)
    ∧ (a_ids b = a_ids a ∨ a_loaded a = false ∧ a_ids b = rec_data (a_rec a)) ∧ Resolve fuel e b = (a', Ok ids).
Proof.
  intros Ha Hrun. pose proof Hrun as Hload. unfold Resolve in Hload. apply act_bind_Ok in Hload as (b & [] & Hload & Hrest).
  exists b. unfold load in Hload. destruct (a_loaded a) eqn:Hl.
  { injection Hload as <-. split_and!; try done. by left. }
  pose proof (rec_load_data (a_rec a)) as Hd. destruct (rec_load (a_rec a)) as [x [l|err]] eqn:Hx; [|done]. injection Hload as <-.
  apply rec_load_ok in Hx as ->. simpl in Hd. unfold known_ids. simpl. rewrite (apart_loaded _ Ha Hl), lookup_empty, Hd.
  split_and!; try done; [by destruct (rec_data (a_rec a) !! _)|by right].
Qed.

Lemma load_faithful (a b : arbiter F R) : faithful a → a_fga b = a_fga a → rec_data (a_rec b) = rec_data (a_rec a) →
  a_ids b = a_ids a ∨ a_loaded a = false ∧ a_ids b = rec_data (a_rec a) → faithful b.
Proof.
  intros Hf Hg Hr Hi key ids. rewrite Hg, Hr. destruct Hi as [->|[_ ->]]; [apply Hf|]. intros [Hk|Hk]; apply (Hf key); by right.
Qed.

Lemma Resolve_resolved e a a' ids : apart a → faithful a → Resolve fuel e a = (a', Ok ids) → resolved_to e a a' ids.
Proof.
  intros Ha Hf Hrun. destruct (Resolve_reads e a a' ids Ha Hrun) as (b & Hl & Hg & Hr & Hk & Hi & Hrunb).
  pose proof (load_faithful a b Hf Hg Hr Hi) as Hfb.
  assert (resolved_to e b a' ids) as Hb.
  { destruct (a_ids b !! recordKey e) as [old|] eqn:Hold; [by eapply Resolve_of_held|].
    destruct (rec_data (a_rec b) !! recordKey e) as [old|] eqn:Hrec; [|by apply Resolve_of_new].
    eapply Resolve_of_recorded; [done..| |done]. rewrite Hg. apply (apart_used _ Ha (recordKey e)). right. exists old. by rewrite <-Hr. }
  unfold resolved_to, tuples in *. by rewrite Hk, Hg in Hb.
Qed.
(** *** A store that stops mirroring *)

(** OpenFGA reads a type's tuples only for a user: a read of an object that is only a
    type, with no user, is refused. *)
Definition reads_need_a_user : Prop :=
  ∀ store s f token, is_type_only (t_object f) = true → t_user f = "" →
  ∃ err, @srv_read F (ai_server store) s f token = Err err.

Lemma take_memberships_refused e ids (a : arbiter F R) :
  reads_need_a_user → ∃ a' err, take_memberships fuel e ids a = (a', Err err).
Proof.
  intros Hread. unfold take_memberships, act_bind, act_wrap, readAll, on_fga.
  assert (∃ err, default (Err (Sentinel "out of fuel"))
    (@Read F (ai_server (si_store ids)) fuel (a_fga a) (Tuple "" "member" (groupType +:+ ":"))) = Err err) as [err ->].
  { destruct fuel as [|n]; [by eexists|]. unfold Read. simpl.
    destruct (Hread (si_store ids) (a_fga a) (Tuple "" "member" (groupType +:+ ":")) "" eq_refl eq_refl) as [err ->].
    by eexists. }
  simpl. eauto.
Qed.

Lemma platformTuples_refused key e ids (a : arbiter F R) :
  reads_need_a_user → unmirrors ids e = true → ∃ a' err, platformTuples fuel key e ids a = (a', Err err).
Proof.
  intros Hread Hu. unfold platformTuples, tupleDiff. fold (unmirrors ids e). rewrite Hu, !andb_false_r. simpl.
  unfold act_bind at 1. destruct (act_wrap _ _ _ a) as [a1 [u|err]]; [|eauto].
  destruct (take_memberships_refused e ids a1 Hread) as (a2 & err & Ht).
  unfold act_bind at 1. rewrite Ht. eauto.
Qed.

Lemma Resolve_refused e old a :
  reads_need_a_user → a_loaded a = true → a_ids a !! recordKey e = Some old → unmirrors old e = true →
  ∃ a', attempt e a a'.
Proof.
  intros Hread Hl Hold Hu. unfold attempt, Resolve, act_bind, load, get, ret. rewrite Hl, Hold.
  pose proof (renew_model_spec (recordKey e) e old a Hold) as Hr.
  destruct (renew_model (recordKey e) e old a) as [a1 [ids|err]]; [|eauto].
  destruct Hr as (_ & _ & _ & (_ & _ & Hm) & _).
  apply (platformTuples_refused (recordKey e) e ids a1 Hread). unfold unmirrors in *. by rewrite Hm.
Qed.
End Resolve.

(** ** Properties *)

(** C5: When a store is resolved, by an arbiter in any state it can have come to, whichever
    calls failed before and whether or not it had read its record: the model named in the
    answer was written to the store named there, its text being the entry's or that of an
    earlier model of the entry's digest, and it is the entry's where no model of that digest
    was known; the answer is held and on record, unless it is what was known before.  Of a
    store that was known, the tuples are those it held, less the starting tuples the entry no
    longer names, plus those it names anew, and without the memberships when it stops
    mirroring; a store that was not is one no one had, with the starting tuples.  No other
    store that was there is touched, and none is made or removed when the store was held. *)
Theorem Resolve_exact {F R} `{AppInstanceLaws F} `{RecorderLaws R} `{JsonObjects} fuel (a a' : arbiter F R) e ids :
  reached fuel a → Resolve fuel e a = (a', Ok ids) →
  resolved_to e a a' ids
  ∧ (∀ old, a_loaded a = true → a_ids a !! recordKey e = Some old →
       elsewhere (si_store old) (a_fga a) (a_fga a') ∧ a_ids a' = <[recordKey e := ids]> (a_ids a)).
Proof.
  intros Hr Hrun. split.
  - apply (Resolve_resolved fuel); [by eapply reached_apart|by eapply reached_faithful|done].
  - intros old Hl Hold. pose proof (Resolve_found fuel e old a Hl Hold) as Hf. rewrite Hrun in Hf.
    by destruct Hf as (_ & He & _ & _ & _ & _ & _ & _ & _ & Hi).
Qed.

(** A resolution that failed, any number of times and wherever each attempt was cut
    off, can be finished: the attempt that succeeds leaves the store as a single one
    would have, from the tuples it held before the first. *)
Theorem Resolve_retry {F R} `{AppInstanceLaws F} `{RecorderLaws R} fuel (a a1 a2 : arbiter F R) e old ids :
  a_loaded a = true → a_ids a !! recordKey e = Some old →
  rtc (attempt fuel e) a a1 → Resolve fuel e a1 = (a2, Ok ids) →
  tuples a2 (si_store old) = settle old e (tuples a (si_store old))
  ∧ elsewhere (si_store old) (a_fga a) (a_fga a2)
  ∧ a_ids a2 = <[recordKey e := ids]> (a_ids a).
Proof.
  intros Hl Hold Htry Hrun.
  destruct (attempts_underway fuel e old a a1 Hl Hold Htry) as (Hl1 & He1 & Hs1 & mid & Hsame & Hi).
  pose proof (Resolve_found fuel e mid a1 Hl1) as Hf. rewrite Hi, lookup_insert_eq in Hf. specialize (Hf eq_refl).
  rewrite Hrun in Hf. destruct Hf as (_ & He2 & _ & Ht & _ & _ & _ & _ & _ & Hi2).
  pose proof Hsame as (Hst & _ & _). rewrite Hst, (settle_same old mid) in * by done.
  split_and!; [congruence|by etrans|]. by rewrite Hi2, Hi, insert_insert_eq.
Qed.

(** A tuple the component wrote itself is taken away when a profile has named it as
    a starting tuple and then no longer does, although the component's tuples are
    said never to be touched: the platform's record does not tell a tuple it wrote
    from one that was there. *)
Theorem component_tuple_taken_away {F R} `{AppInstanceLaws F} `{RecorderLaws R} fuel
    (a a1 a2 : arbiter F R) e1 e2 old ids1 ids2 t :
  a_loaded a = true → a_ids a !! recordKey e1 = Some old → recordKey e2 = recordKey e1 →
  t ∈ tuples a (si_store old) → (t ∉ si_written old) → t ∈ e_tuples e1 → (t ∉ e_tuples e2) →
  Resolve fuel e1 a = (a1, Ok ids1) → Resolve fuel e2 a1 = (a2, Ok ids2) →
  (t ∉ tuples a2 (si_store old)).
Proof.
  intros Hl Hold Hkey _ _ Hin1 Hin2 Hr1 Hr2.
  pose proof (Resolve_found fuel e1 old a Hl Hold) as Hf1. rewrite Hr1 in Hf1.
  destruct Hf1 as (Hl1 & _ & _ & _ & Hst & _ & _ & _ & Hw & Hi1).
  pose proof (Resolve_found fuel e2 ids1 a1 Hl1) as Hf2. rewrite Hi1, Hkey, lookup_insert_eq in Hf2.
  specialize (Hf2 eq_refl). rewrite Hr2 in Hf2. destruct Hf2 as (_ & _ & _ & Ht & _).
  rewrite Hst in Ht. rewrite Ht. unfold settle.
  assert (t ∈ dropped ids1 e2) as Hd by (apply elem_of_dropped; split; [by apply Hw|done]).
  assert (t ∉ added ids1 e2) as Ha by (rewrite elem_of_added; tauto).
  destruct (unmirrors ids1 e2); rewrite ?elem_of_filter; set_solver.
Qed.

(** A store that mirrored the realm's groups and is to mirror them no longer is never
    resolved again: the memberships are read by a type of object and no user, which
    OpenFGA refuses, so every attempt fails, and each leaves the store as far from
    its new entry as the one before. *)
Theorem unmirrored_store_is_never_resolved {F R} `{AppInstanceLaws F} `{RecorderLaws R} fuel
    (a a1 : arbiter F R) e old :
  reads_need_a_user (F:=F) →
  a_loaded a = true → a_ids a !! recordKey e = Some old → si_mirrored old = true → e_mirror e = false →
  rtc (attempt fuel e) a a1 → ∃ a2, attempt fuel e a1 a2.
Proof.
  intros Hread Hl Hold Hm He Htry.
  destruct (attempts_underway fuel e old a a1 Hl Hold Htry) as (Hl1 & _ & _ & mid & (_ & _ & Hmid) & Hi).
  apply (Resolve_refused fuel e mid); [done|done|by rewrite Hi, lookup_insert_eq|].
  unfold unmirrors. by rewrite Hmid, Hm, He.
Qed.

(** A component seen first gets a store no one had before, which holds its starting
    tuples and nothing else; every other store is as it was. *)
Theorem Resolve_first_sight {F R} `{AppInstanceLaws F} `{RecorderLaws R} fuel (a a' : arbiter F R) e ids :
  unknown (recordKey e) a → Resolve fuel e a = (a', Ok ids) →
  (si_store ids ∉ ai_used (a_fga a))
  ∧ (∀ t, t ∈ tuples a' (si_store ids) ↔ t ∈ e_tuples e)
  ∧ (∀ store, store ≠ si_store ids → ai_stores (a_fga a') !! store = ai_stores (a_fga a) !! store)
  ∧ a_ids a' = <[recordKey e := ids]> (a_ids a).
Proof.
  intros Hu Hrun. destruct (Resolve_unknown fuel e a a' ids Hu Hrun) as (a1 & new & Hnew & Hw & Hm & Hs & Hi & Hres).
  destruct Hres as (_ & (_ & _ & He) & _ & Ht & Hst & _ & _ & _ & _ & Hi'). rewrite Hst in *. split_and!; try done.
  - intros t. rewrite Ht. unfold settle, unmirrors. rewrite Hm. simpl.
    rewrite elem_of_union, elem_of_difference, elem_of_dropped, elem_of_added, Hw.
    unfold tuples. rewrite Hs, lookup_insert_eq. simpl. set_solver.
  - intros store Hne. rewrite He, Hs by done. by rewrite lookup_insert_ne.
  - by rewrite Hi', Hi, insert_insert_eq.
Qed.

(** A record that names a store OpenFGA no longer has is kept: when the answer to a
    claim is lost, the arbiter deletes the store it made although the record was
    written, and every later resolution takes up the record and answers with the store
    that is gone. *)
Theorem dead_store_is_not_replaced {F R} `{AppInstanceLaws F} `{RecorderLaws R} fuel (a a' : arbiter F R) e ids ids' :
  a_loaded a = true → a_ids a !! recordKey e = None → rec_data (a_rec a) !! recordKey e = Some ids →
  si_store ids ∈ ai_used (a_fga a) → ai_stores (a_fga a) !! si_store ids = None →
  Resolve fuel e a = (a', Ok ids') →
  si_store ids' = si_store ids ∧ ai_stores (a_fga a') !! si_store ids = None.
Proof.
  intros Hl Hi Hrec Hused Hdead. unfold Resolve, act_bind at 1 2, load, get. rewrite Hl, Hi.
  intros (a1 & new & Hest & Hrun)%act_bind_Ok.
  destruct (establish_recorded _ _ _ _ _ _ Hl Hrec Hused Hest) as (-> & Hl1 & Hi1 & Hs1).
  assert (Resolve fuel e a1 = (a', Ok ids')) as Hr.
  { unfold Resolve, act_bind at 1 2 3, load, get, ret. by rewrite Hl1, Hi1, lookup_insert_eq. }
  pose proof (Resolve_found fuel e ids a1 Hl1) as Hf. rewrite Hi1, lookup_insert_eq in Hf. specialize (Hf eq_refl).
  rewrite Hr in Hf. destruct Hf as (_ & (_ & Hdom & _) & _ & _ & Hst & _). split; [done|].
  apply not_elem_of_dom. rewrite Hdom. apply not_elem_of_dom. congruence.
Qed.

(** ** Executions *)

Module ResolveExample.
Definition welcome : tuple := Tuple "user:*" "viewer" "doc:welcome".
Definition note : tuple := Tuple "user:acme/ana" "owner" "doc:note".
Definition entry (model : string) (mirror : bool) (start : list tuple) : Entry :=
  mkEntry "acme" "wiki" "" model "acme" mirror start.

(** The arbiter with the wiki's store, in which the component wrote a note. *)
Definition known (mirrored : bool) (budget : nat) : arbiter Toy.fga Toy.record :=
  mkArbiter (Toy.mkFga {["s" := {[welcome; note]}]} {["s"]} ∅ budget) (Toy.mkRecord ∅ false) true
    {["acme.wiki" := mkIDs "s" "m0" (ModelDigest "{}") [welcome] mirrored]}.
Definition old (mirrored : bool) : StoreIDs := mkIDs "s" "m0" (ModelDigest "{}") [welcome] mirrored.

(** What a resolution leaves, and what it answers. *)
Definition after (e : Entry) (a : arbiter Toy.fga Toy.record) : arbiter Toy.fga Toy.record := (Resolve 3 e a).1.
Definition answer (e : Entry) (a : arbiter Toy.fga Toy.record) : StoreIDs :=
  match (Resolve 3 e a).2 with Ok ids => ids | Err _ => old false end.
End ResolveExample.
Import ResolveExample.
#[local] Existing Instance IsolationExample.plain_json.

(** A store with a model and a starting tuple gets another model and loses the tuple. *)
Lemma Resolve_exact_witness :
  let e1 := entry "{}" false [welcome] in
  let e := entry "{new}" false [] in
  let a := serve 3 (AskResolve e1) (Toy.start false) in
  model_text (a_fga (after e a)) (answer e a) = Some "{new}" ∧ resolved_to e a (after e a) (answer e a).
Proof.
  intros e1 e a. split; [vm_compute; reflexivity|].
  apply (Resolve_exact 3 a (after e a) e (answer e a)); [|vm_compute; reflexivity].
  apply reached_serve, reached_start. split_and!; reflexivity.
Defined.

(** OpenFGA refuses the first write, the second attempt goes through. *)
Lemma Resolve_retry_witness :
  let e := entry "{}" false [note] in
  let a1 := after e (known false 0) in
  tuples (after e a1) "s" = settle (old false) e (tuples (known false 0) "s")
  ∧ elsewhere "s" (a_fga (known false 0)) (a_fga (after e a1))
  ∧ a_ids (after e a1) = <[recordKey e := answer e a1]> (a_ids (known false 0)).
Proof.
  intros e a1. apply (Resolve_retry 3 (known false 0) a1 (after e a1) e (old false) (answer e a1)).
  - reflexivity.
  - vm_compute. reflexivity.
  - apply rtc_once. eexists. vm_compute. reflexivity.
  - vm_compute. reflexivity.
Defined.

(** The note is named by a profile, and by the next one no longer. *)
Lemma component_tuple_taken_away_witness :
  let e1 := entry "{}" false [welcome; note] in
  let e2 := entry "{}" false [welcome] in
  (note ∉ tuples (after e2 (after e1 (known false 9))) "s").
Proof.
  intros e1 e2.
  apply (component_tuple_taken_away 3 (known false 9) (after e1 (known false 9)) (after e2 (after e1 (known false 9)))
    e1 e2 (old false) (answer e1 (known false 9)) (answer e2 (after e1 (known false 9))) note);
    [reflexivity|vm_compute; reflexivity|reflexivity|apply (bool_decide_unpack _); vm_compute; exact I..
    |vm_compute; reflexivity|vm_compute; reflexivity].
Defined.

Lemma unmirrored_store_is_never_resolved_witness :
  let e := entry "{}" false [] in
  ∃ a2, attempt 3 e (after e (known true 9)) a2.
Proof.
  intros e. apply (unmirrored_store_is_never_resolved 3 (known true 9) (after e (known true 9)) e (old true)).
  - intros store s f token Hty Hu. simpl. unfold Toy.server_read.
    destruct (Toy.tf_stores s !! store); [|eauto]. rewrite Hty, Hu. simpl. eauto.
  - reflexivity.
  - vm_compute. reflexivity.
  - reflexivity.
  - reflexivity.
  - apply rtc_once. eexists. vm_compute. reflexivity.
Defined.

Lemma Resolve_first_sight_witness :
  let e := entry "{}" false [welcome] in
  let a := (load (Toy.start false)).1 in
  (si_store (answer e a) ∉ ai_used (a_fga a))
  ∧ (∀ t, t ∈ tuples (after e a) (si_store (answer e a)) ↔ t ∈ e_tuples e)
  ∧ (∀ store, store ≠ si_store (answer e a) → ai_stores (a_fga (after e a)) !! store = ai_stores (a_fga a) !! store)
  ∧ a_ids (after e a) = <[recordKey e := answer e a]> (a_ids a).
Proof.
  intros e a. apply (Resolve_first_sight 3 a (after e a) e (answer e a)); [|vm_compute; reflexivity].
  split_and!; vm_compute; reflexivity.
Defined.

(** The first claim's answer is lost. *)
Lemma dead_store_is_not_replaced_witness :
  let e := entry "{}" false [] in
  let a := after e (Toy.start true) in
  si_store (answer e a) = "s" ∧ ai_stores (a_fga (after e a)) !! "s" = None.
Proof.
  intros e a.
  apply (dead_store_is_not_replaced 3 a (after e a) e (mkIDs "s" "" "" [] false) (answer e a));
    [vm_compute; reflexivity..|apply (bool_decide_unpack _); vm_compute; exact I|vm_compute; reflexivity|vm_compute; reflexivity].
Defined.
