(* ===== verification/ArbiterServer.v ===== *)
(** * The arbiter's API

    [internal/arbiter/server.go]: what a component may ask of its store.  A call is
    authenticated by its key, held to the key's rate, resolved to the key's store and
    model, and answered by OpenFGA's API, narrowed.  Decoded requests stand for JSON
    bodies; OpenFGA's questions and the token bucket of a rate limit are parameters. *)

From S2P Require Import Prelude.
From S2P Require Import GoStrings.
From S2P Require Import Fga.
From S2P Require Import ComponentKeys.
From S2P Require Import ArbiterTable.
From S2P Require Import ArbiterStores.
From S2P Require Import ArbiterIsolation.
From Stdlib Require Import ZArith.

(** ** Limits *)

Definition MaxBatchChecks : nat := 50.
Definition MaxWriteTuples : nat := 100.
Definition MaxPageSize : Z := 100.
Definition DefaultPageSize : Z := 50.
Definition MaxContextualTuples : nat := 20.
Definition RatePerSecond : nat := 100.
Definition RateBurst : nat := 200.

(** ** Requests and answers *)

Record CheckRequest := mkCheck {
  cq_user : string; cq_relation : string; cq_object : string; cq_contextual : list tuple }.
Record BatchCheckResult := mkBatchResult { br_allowed : bool; br_error : string }.
Record ListObjectsRequest := mkListObjects {
  lo_user : string; lo_relation : string; lo_type : string; lo_contextual : list tuple }.
Record UserFilter := mkUserFilter { uf_type : string; uf_relation : string }.
Record ListUsersRequest := mkListUsers {
  lu_object : string; lu_relation : string; lu_filters : list UserFilter; lu_contextual : list tuple }.
Record ReadRequest := mkRead { rr_tuple : option tuple; rr_page_size : Z; rr_token : string }.
Record WriteRequest := mkWrite { wq_writes : list tuple; wq_deletes : list tuple }.

(** A body as the decoder leaves it. *)
Inductive body (A : Type) := Decoded (a : A) | BodyTooLarge | NotOne (e : error).
Arguments Decoded {_} _.
Arguments BodyTooLarge {_}.
Arguments NotOne {_} _.

Inductive component_request :=
  | Check (b : body CheckRequest)
  | BatchCheck (b : body (list CheckRequest))
  | ListObjects (b : body ListObjectsRequest)
  | ListUsers (b : body ListUsersRequest)
  | ReadTuples (b : body ReadRequest)
  | WriteTuples (b : body WriteRequest)
  | GetModel.

Inductive component_answer :=
  | CheckResponse (allowed : bool)
  | BatchCheckResponse (results : list BatchCheckResult)
  | ListObjectsResponse (objects : list string)
  | ListUsersResponse (users : list string)
  | ReadResponse (tuples : list tuple) (token : string)
  | Written
  | ModelResponse (id dsl model : string).

(** What went wrong: a refusal of the arbiter's own, a body that is too large, what
    OpenFGA answered, or something else. *)
Inductive fault :=
  | Refusal (status : Z) (code : string) (message : error)
  | TooLarge
  | FromOpenFGA (status : Z) (message : string)
  | Failed (e : error).

Definition outcome (A : Type) : Type := A + fault.
Definition StatusBadRequest : Z := 400.
Definition StatusUnauthorized : Z := 401.
Definition StatusForbidden : Z := 403.
Definition StatusTooLarge : Z := 413.
Definition StatusTooMany : Z := 429.
Definition StatusBadGateway : Z := 502.

Definition badRequest (e : error) : fault := Refusal StatusBadRequest "invalid_request" e.
Definition errForbiddenGroupTuple : error := Sentinel "tuples whose user or object is a group are the platform's".

Definition obind {A B} (r : outcome A) (k : A → outcome B) : outcome B :=
  match r with inl a => k a | inr f => inr f end.
(** A check of the arbiter's own, whose error is the caller's. *)
Definition checked {A} (r : result A) : outcome A :=
  match r with Ok a => inl a | Err e => inr (badRequest e) end.
#[local] Notation "'let!' x := r 'in' k" := (obind r (λ x : _, k)) (at level 10, x name, k at level 200).

Definition decode {A} (b : body A) : outcome A :=
  match b with
  | Decoded a => inl a
  | BodyTooLarge => inr TooLarge
  | NotOne e => inr (badRequest (Wrapf "the request is not one: %v" [] e))
  end.

(** ** OpenFGA's questions *)

Inductive listed_user :=
  | UserObject_ (ty id : string) | Userset (ty id relation : string) | UserWildcard (ty : string) | UserOther.

Class Questions (F : Type) := {
  ask_check : F → string → string → tuple → list tuple → outcome bool;
  ask_batch : F → string → string → list (string * (tuple * list tuple)) →
    outcome (gmap string (bool * option string));
  ask_list_objects : F → string → string → string → string → string → list tuple → outcome (option (list string));
  ask_list_users : F → string → string → string * string → string → list (string * option string) → list tuple →
    outcome (list listed_user);
  ask_read : F → string → Z → option string → option tuple → outcome (list tuple * string);
  ask_write : F → string → string → list tuple → list tuple → F * outcome unit;
  render_model : string → result string }.

(** OpenFGA's write is a transaction on one store. *)
Class QuestionsLaws (F : Type) `{AppInstanceLaws F} `{Questions F} := {
  ask_write_ok s store model writes deletes s' :
    ask_write s store model writes deletes = (s', inl tt) →
    elsewhere store s s'
    ∧ default ∅ (ai_stores s' !! store)
      = (default ∅ (ai_stores s !! store) ∖ list_to_set deletes) ∪ list_to_set writes;
  ask_write_err s store model writes deletes s' f :
    ask_write s store model writes deletes = (s', inr f) →
    elsewhere store s s'
    ∧ (default ∅ (ai_stores s' !! store) = default ∅ (ai_stores s !! store)
       ∨ default ∅ (ai_stores s' !! store)
         = (default ∅ (ai_stores s !! store) ∖ list_to_set deletes) ∪ list_to_set writes) }.

(** ** The handlers *)

(** Each tuple is one OpenFGA could take. *)
Fixpoint valid_tuples (name : string) (i : nat) (l : list tuple) : outcome unit :=
  match l with
  | [] => inl tt
  | t :: l => let! _ := checked (valid (nth_name name i) t) in valid_tuples name (S i) l
  end.

Definition contextual (l : list tuple) : outcome (list tuple) :=
  if bool_decide (MaxContextualTuples < length l)
  then inr (badRequest (Errorf "at most %d contextual tuples" [pretty MaxContextualTuples]))
  else let! _ := valid_tuples "contextualTuples" 0 l in inl l.

Definition check_body (c : CheckRequest) : outcome (tuple * list tuple) :=
  let! _ := checked (field "user" (cq_user c) true) in
  let! _ := checked (field "relation" (cq_relation c) true) in
  let! _ := checked (field "object" (cq_object c) true) in
  let! ctx := contextual (cq_contextual c) in
  inl (Tuple (cq_user c) (cq_relation c) (cq_object c), ctx).

Section Handlers.
Context {F : Type} `{Questions F}.

Definition check (s : F) (ids : StoreIDs) (b : body CheckRequest) : outcome component_answer :=
  let! req := decode b in
  let! q := check_body req in
  let! allowed := ask_check s (si_store ids) (si_model ids) q.1 q.2 in
  inl (CheckResponse allowed).

(** The checks of a batch under their numbers, or the first that is not one. *)
Fixpoint batch_bodies (i : nat) (l : list CheckRequest) : outcome (list (string * (tuple * list tuple))) :=
  match l with
  | [] => inl []
  | c :: l =>
      let! q := match check_body c with
                | inr (Refusal _ _ e) => inr (badRequest (Wrapf "checks[%d]: %v" [pretty i] e))
                | r => r
                end in
      let! rest := batch_bodies (S i) l in
      inl ((pretty i, q) :: rest)
  end.

Definition batch_result (out : gmap string (bool * option string)) (i : nat) : BatchCheckResult :=
  match out !! pretty i with
  | None => mkBatchResult false "not answered"
  | Some (_, Some message) => mkBatchResult false message
  | Some (allowed, None) => mkBatchResult allowed ""
  end.

Definition batchCheck (s : F) (ids : StoreIDs) (b : body (list CheckRequest)) : outcome component_answer :=
  let! checks := decode b in
  if bool_decide (length checks = 0) || bool_decide (MaxBatchChecks < length checks)
  then inr (badRequest (Errorf "a batch carries 1 to %d checks" [pretty MaxBatchChecks]))
  else
    let! bodies := batch_bodies 0 checks in
    let! out := ask_batch s (si_store ids) (si_model ids) bodies in
    inl (BatchCheckResponse (batch_result out <$> seq 0 (length checks))).

Definition listObjects (s : F) (ids : StoreIDs) (b : body ListObjectsRequest) : outcome component_answer :=
  let! req := decode b in
  let! _ := checked (field "user" (lo_user req) true) in
  let! _ := checked (field "relation" (lo_relation req) true) in
  let! _ := checked (field "type" (lo_type req) true) in
  let! ctx := contextual (lo_contextual req) in
  let! objects := ask_list_objects s (si_store ids) (si_model ids) (lo_user req) (lo_relation req) (lo_type req) ctx in
  inl (ListObjectsResponse (default [] objects)).

Fixpoint user_filters (i : nat) (l : list UserFilter) : outcome (list (string * option string)) :=
  match l with
  | [] => inl []
  | f :: l =>
      let! _ := checked (field (nth_name "userFilters" i +:+ ".type") (uf_type f) true) in
      let! _ := checked (field (nth_name "userFilters" i +:+ ".relation") (uf_relation f) false) in
      let! rest := user_filters (S i) l in
      inl ((uf_type f, nonempty (uf_relation f)) :: rest)
  end.

(** A user as a tuple would name them; what OpenFGA lists otherwise is left out. *)
Definition user_name (u : listed_user) : option string :=
  match u with
  | UserObject_ ty id => Some (ty +:+ ":" +:+ id)
  | Userset ty id relation => Some (ty +:+ ":" +:+ id +:+ "#" +:+ relation)
  | UserWildcard ty => Some (ty +:+ ":*")
  | UserOther => None
  end.

Definition listUsers (s : F) (ids : StoreIDs) (b : body ListUsersRequest) : outcome component_answer :=
  let! req := decode b in
  let! _ := checked (field "object" (lu_object req) true) in
  let! _ := checked (field "relation" (lu_relation req) true) in
  let! object := match cut (lu_object req) ":" with
                 | None => inr (badRequest (Sentinel "object is <type>:<id>"))
                 | Some (ty, id) => if bool_decide (ty = "") || bool_decide (id = "")
                                    then inr (badRequest (Sentinel "object is <type>:<id>")) else inl (ty, id)
                 end in
  let! _ := if bool_decide (lu_filters req = []) then inr (badRequest (Sentinel "userFilters names at least one type"))
            else inl tt in
  let! filters := user_filters 0 (lu_filters req) in
  let! ctx := contextual (lu_contextual req) in
  let! users := ask_list_users s (si_store ids) (si_model ids) object (lu_relation req) filters ctx in
  inl (ListUsersResponse (omap user_name users)).

Definition read (s : F) (ids : StoreIDs) (b : body ReadRequest) : outcome component_answer :=
  let! req := decode b in
  let! size := if bool_decide (rr_page_size req = 0%Z) then inl DefaultPageSize
               else if bool_decide (rr_page_size req < 0 \/ MaxPageSize < rr_page_size req)%Z
               then inr (badRequest (Errorf "pageSize is 1 to %d" [pretty MaxPageSize]))
               else inl (rr_page_size req) in
  let! filter := match rr_tuple req with
                 | None => inl None
                 | Some t =>
                     let! _ := checked (field "tuple.user" (t_user t) false) in
                     let! _ := checked (field "tuple.relation" (t_relation t) false) in
                     let! _ := checked (field "tuple.object" (t_object t) false) in
                     inl (if bool_decide (t = Tuple "" "" "") then None else Some t)
                 end in
  let! page := ask_read s (si_store ids) size (nonempty (rr_token req)) filter in
  inl (ReadResponse page.1 page.2).

(** One of the two lists of a write: each tuple one OpenFGA could take, none a
    group's. *)
Fixpoint writable (name : string) (i : nat) (l : list tuple) : outcome unit :=
  match l with
  | [] => inl tt
  | t :: l =>
      let! _ := checked (valid (nth_name name i) t) in
      if isGroupTyped t
      then inr (Refusal StatusForbidden "forbidden" (Wrapf "%s[%d]: %v" [name; pretty i] errForbiddenGroupTuple))
      else writable name (S i) l
  end.

(** The two lists are a map's, so either may be looked at first. *)
Definition write (writes_first : bool) (s : F) (ids : StoreIDs) (b : body WriteRequest) : F * outcome component_answer :=
  match
    let! req := decode b in
    let n := length (wq_writes req) + length (wq_deletes req) in
    if bool_decide (n = 0) || bool_decide (MaxWriteTuples < n)
    then inr (badRequest (Errorf "a write carries 1 to %d tuples, writes and deletes together" [pretty MaxWriteTuples]))
    else
      let! _ := (if writes_first then writable "writes" 0 (wq_writes req) else writable "deletes" 0 (wq_deletes req)) in
      let! _ := (if writes_first then writable "deletes" 0 (wq_deletes req) else writable "writes" 0 (wq_writes req)) in
      inl req
  with
  | inr f => (s, inr f)
  | inl req =>
      let '(s', r) := ask_write s (si_store ids) (si_model ids) (wq_writes req) (wq_deletes req) in
      (s', let! _ := r in inl Written)
  end.

Definition model (ids : StoreIDs) (e : Entry) : outcome component_answer :=
  match render_model (e_model e) with
  | Err err => inr (Failed (Wrapf "render the model of %s: %w" [StoreName e] err))
  | Ok dsl => inl (ModelResponse (si_model ids) dsl (e_model e))
  end.

Definition handle (writes_first : bool) (q : component_request) (ids : StoreIDs) (e : Entry) (s : F)
    : F * outcome component_answer :=
  match q with
  | Check b => (s, check s ids b)
  | BatchCheck b => (s, batchCheck s ids b)
  | ListObjects b => (s, listObjects s ids b)
  | ListUsers b => (s, listUsers s ids b)
  | ReadTuples b => (s, read s ids b)
  | WriteTuples b => write writes_first s ids b
  | GetModel => (s, model ids e)
  end.
End Handlers.

(** ** A call *)

(** A token bucket of a rate and a burst ([golang.org/x/time/rate]), asked at a time. *)
Class Limiter (L : Type) := {
  lim_new : nat → nat → L;
  lim_allow : L → Z → L * bool }.

(** The arbiter with the table in force, by the digest of each key, and the limiters. *)
Record server (F R L : Type) := mkServer {
  sv_arbiter : arbiter F R; sv_table : gmap string Entry; sv_limiters : gmap string L }.
Arguments mkServer {_ _ _} _ _ _.
Arguments sv_arbiter {_ _ _} _.
Arguments sv_table {_ _ _} _.
Arguments sv_limiters {_ _ _} _.

Inductive reply :=
  | Answered (a : component_answer)
  | Refused (status : Z) (code : string) (message : error) (retry : bool).

(** The caller's mistake as OpenFGA put it, anything else as the arbiter's own
    failure. *)
Definition answerError (f : fault) : reply :=
  match f with
  | Refusal status code message => Refused status code message false
  | FromOpenFGA status message =>
      if bool_decide (status = StatusBadRequest)
      then Refused StatusBadRequest "invalid_request" (Sentinel message) false
      else Refused StatusBadGateway "unavailable" (Sentinel "the store did not answer") false
  | TooLarge => Refused StatusTooLarge "too_large" (Sentinel "the request is too large") false
  | Failed e => Refused StatusBadGateway "unavailable" (Sentinel "the store did not answer") false
  end.

Section Call.
Context {F R L : Type} `{AppInstance F} `{Recorder R} `{Questions F} `{Limiter L}.
Context (fuel : nat).

Definition SetTable (t : list Entry) (sv : server F R L) : server F R L :=
  mkServer (sv_arbiter sv) (foldl (λ m e, <[e_key_hash e := e]> m) ∅ t) (sv_limiters sv).

(** The rate limit of one key. *)
Definition limiter (sv : server F R L) (hash : string) : L :=
  default (lim_new RatePerSecond RateBurst) (sv_limiters sv !! hash).

Definition unauthenticated (message : string) : reply := Refused StatusUnauthorized "unauthenticated" (Sentinel message) false.

Definition call (writes_first : bool) (now : Z) (authorization : string) (q : component_request) (sv : server F R L)
    : server F R L * reply :=
  match cut_prefix authorization "Bearer " with
  | None => (sv, unauthenticated "a key is required")
  | Some key =>
    if bool_decide (key = "") then (sv, unauthenticated "a key is required")
    else
      let hash := Hash key in
      match sv_table sv !! hash with
      | None => (sv, unauthenticated "the key opens no store")
      | Some e =>
        let '(l, ok) := lim_allow (limiter sv hash) now in
        let limiters := <[hash := l]> (sv_limiters sv) in
        if negb ok
        then (mkServer (sv_arbiter sv) (sv_table sv) limiters,
              Refused StatusTooMany "rate_limited" (Errorf "more than %d calls a second" [pretty RatePerSecond]) true)
        else
          match Resolve fuel e (sv_arbiter sv) with
          | (a, Err _) => (mkServer a (sv_table sv) limiters,
                           Refused StatusBadGateway "unavailable" (Sentinel "the store is not available") false)
          | (a, Ok ids) =>
              let '(s, r) := handle writes_first q ids e (a_fga a) in
              (mkServer (mkArbiter s (a_rec a) (a_loaded a) (a_ids a)) (sv_table sv) limiters,
               match r with inl answer => Answered answer | inr f => answerError f end)
          end
      end
  end.
End Call.

(** ** Lemmas *)

Lemma obind_inl {A B} (r : outcome A) (k : A → outcome B) b : obind r k = inl b ↔ ∃ a, r = inl a ∧ k a = inl b.
Proof. destruct r; simpl; [|split; [done|by intros (? & ? & _)]]. split; [eauto|]. by intros (? & [= <-] & ?). Qed.

Lemma writable_inl name i l :
  writable name i l = inl tt → Forall (λ t, isGroupTyped t = false ∧ field_ok (t_user t) ∧ field_ok (t_relation t) ∧ field_ok (t_object t)) l.
Proof.
  revert i. induction l as [|t l IH]; intros i; simpl; [constructor|].
  intros ([] & Hv & Hrest)%obind_inl. destruct (isGroupTyped t) eqn:Hg; [done|].
  constructor; [|by eapply IH]. split; [done|]. apply (valid_iff (nth_name name i)).
  unfold checked in Hv. destruct (valid _ t) as [[]|]; [done|done].
Qed.

Section Lemmas.
Context {F : Type} {HF : AppInstance F} {HFL : AppInstanceLaws F} {HQ : Questions F} {HQL : QuestionsLaws F}.

(** A component's write: refused and nothing done, or a transaction on its store of at
    most a hundred tuples, none a group's. *)
Lemma write_spec writes_first s ids b s' r :
  write writes_first s ids b = (s', r) →
  (s' = s ∧ ∃ f, r = inr f)
  ∨ ∃ req, b = Decoded req ∧ 1 ≤ length (wq_writes req) + length (wq_deletes req) ≤ MaxWriteTuples
      ∧ Forall (λ t, isGroupTyped t = false) (wq_writes req ++ wq_deletes req)
      ∧ elsewhere (si_store ids) s s'
      ∧ let c := default ∅ (ai_stores s !! si_store ids) in
        let c' := default ∅ (ai_stores s' !! si_store ids) in
        let done := (c ∖ list_to_set (wq_deletes req)) ∪ list_to_set (wq_writes req) in
        match r with inl _ => r = inl Written ∧ c' = done | inr _ => c' = c ∨ c' = done end.
Proof.
  unfold write. destruct (obind _ _) as [req|f] eqn:Hreq; [|intros [= <- <-]; left; eauto].
  apply obind_inl in Hreq as (req0 & Hb & Hreq). destruct (_ || _) eqn:Hn; [done|].
  rewrite orb_false_iff, !bool_decide_eq_false in Hn. apply obind_inl in Hreq as ([] & H1 & Hreq).
  apply obind_inl in Hreq as ([] & H2 & [= <-]).
  destruct (ask_write _ _ _ _ _) as [s1 r1] eqn:Hw. intros [= <- <-]. right. exists req0.
  assert (Forall (λ t, isGroupTyped t = false) (wq_writes req0) ∧ Forall (λ t, isGroupTyped t = false) (wq_deletes req0)) as [Hw1 Hw2].
  { destruct writes_first; apply writable_inl in H1, H2; split; eapply Forall_impl; try done; naive_solver. }
  split; [by destruct b; simplify_eq/=|]. split; [lia|]. split; [by apply Forall_app|].
  destruct r1 as [[]|f]; simpl; [by apply ask_write_ok in Hw as [? ?]|by apply ask_write_err in Hw].
Qed.

Lemma handle_elsewhere writes_first q ids e s : elsewhere (si_store ids) s (handle writes_first q ids e s).1.
Proof.
  destruct q; simpl; try done. destruct (write writes_first s ids b) as [s' r] eqn:Hw.
  apply write_spec in Hw as [[-> _]|(req & _ & _ & _ & He & _)]; done.
Qed.
End Lemmas.

(** A call of a key stays with the record and the store its entry names. *)
Lemma call_within {F R L} `{QuestionsLaws F} `{RecorderLaws R} `{Limiter L} fuel writes_first now authorization key e q
    (sv : server F R L) :
  cut_prefix authorization "Bearer " = Some key → sv_table sv !! Hash key = Some e →
  apart (sv_arbiter sv) →
  within (sv_arbiter sv) (recordKey e) (sv_arbiter (call fuel writes_first now authorization q sv).1).
Proof.
  intros Hkey He Ha. unfold call. rewrite Hkey, He.
  case_bool_decide; [by apply within_start|]. destruct (lim_allow _ now) as [l [|]]; simpl; [|by apply within_start].
  pose proof (Resolve_within fuel (sv_arbiter sv) (recordKey e) e eq_refl (sv_arbiter sv) (within_start _ _ Ha)) as Hr.
  destruct (Resolve fuel e (sv_arbiter sv)) as [a [ids|err]]; [|done]. destruct Hr as [(Hw & Hl & HU) Hown].
  pose proof (handle_elsewhere writes_first q ids e (a_fga a)) as Hh.
  destruct (handle writes_first q ids e (a_fga a)) as [s r]. destruct Hh as (Hu & _ & Hs). simpl in *.
  apply within_fga; [done|by rewrite Hu|]. intros x Hx Hno. apply Hs. intros ->. by destruct Hown.
Qed.

Lemma group_typed t name : t_user t = "group:" +:+ name ∨ t_object t = "group:" +:+ name → isGroupTyped t = true.
Proof. unfold isGroupTyped. intros [->| ->]; rewrite (has_prefix_app (groupType +:+ ":")); [done|apply orb_true_r]. Qed.

(** ** Properties *)

(** No request of a component says who is in a group or what a group may do: whatever
    it asks, and however OpenFGA answers, the tuples of its store whose user or object
    is a group are the same after as before; and a write that is answered is the
    whole transaction that was asked for, of one to a hundred tuples. *)
Theorem components_leave_groups_alone {F} `{QuestionsLaws F} writes_first q ids e (s s' : F) r :
  handle writes_first q ids e s = (s', r) →
  (∀ store t name, t_user t = "group:" +:+ name ∨ t_object t = "group:" +:+ name →
     t ∈ default ∅ (ai_stores s' !! store) ↔ t ∈ default ∅ (ai_stores s !! store))
  ∧ (∀ b, q = WriteTuples b → r = inl Written → ∃ req, b = Decoded req
     ∧ 1 ≤ length (wq_writes req) + length (wq_deletes req) ≤ MaxWriteTuples
     ∧ default ∅ (ai_stores s' !! si_store ids)
       = (default ∅ (ai_stores s !! si_store ids) ∖ list_to_set (wq_deletes req)) ∪ list_to_set (wq_writes req)).
Proof.
  intros Hh. destruct q as [| | | | |b|]; simpl in Hh; try by injection Hh as <- <-.
  apply write_spec in Hh as [[-> [f ->]]|(req & -> & Hn & Hg & He & Hw)]; [by split|].
  rewrite Forall_app, !Forall_forall in Hg. split.
  - intros store t name Ht%group_typed. destruct (decide (store = si_store ids)) as [->|Hne].
    + assert ((t ∉ wq_writes req) ∧ (t ∉ wq_deletes req)) as [? ?].
      { split; (intros Hin; apply Hg in Hin; congruence). }
      destruct r as [a|f]; [destruct Hw as [_ ->]; set_solver|]. destruct Hw as [->| ->]; set_solver.
    + destruct He as (_ & _ & ->); done.
  - intros b [= <-] ->. exists req. split_and!; [done|lia|lia|by apply Hw].
Qed.

(** C22: A call reaches the store of the key it carries and no other: whatever it asks,
    the record and the store of every component but the one the table gives the key
    are as they were, and a call with no key of the table changes nothing. *)
Theorem call_reaches_its_own_store_only {F R L} `{QuestionsLaws F} `{RecorderLaws R} `{Limiter L} fuel writes_first now
    authorization q (sv sv' : server F R L) r :
  apart (sv_arbiter sv) → call fuel writes_first now authorization q sv = (sv', r) →
  sv_table sv' = sv_table sv ∧ apart (sv_arbiter sv')
  ∧ ∀ k s, (∀ key e, authorization = "Bearer " +:+ key → sv_table sv !! Hash key = Some e → k ≠ recordKey e) →
      (names (sv_arbiter sv') k s ↔ names (sv_arbiter sv) k s)
      ∧ (names (sv_arbiter sv) k s →
         ai_stores (a_fga (sv_arbiter sv')) !! s = ai_stores (a_fga (sv_arbiter sv)) !! s).
Proof.
  intros Ha Hcall. assert (sv_table sv' = sv_table sv) as Ht.
  { revert Hcall. unfold call. destruct (cut_prefix _ _) as [key|]; [|by intros [= <- _]].
    destruct (bool_decide _); [by intros [= <- _]|]. destruct (sv_table sv !! _) as [e|]; [|by intros [= <- _]].
    destruct (lim_allow _ now) as [l [|]]; simpl; [|by intros [= <- _]].
    destruct (Resolve _ _ _) as [a [ids|err]]; [|by intros [= <- _]].
    destruct (handle _ _ _ _ _) as [s o]. by intros [= <- _]. }
  split; [done|]. destruct (cut_prefix authorization "Bearer ") as [key|] eqn:Hkey.
  2: { unfold call in Hcall. rewrite Hkey in Hcall. by injection Hcall as <- _. }
  destruct (sv_table sv !! Hash key) as [e|] eqn:He.
  2: { unfold call in Hcall. rewrite Hkey, He in Hcall. destruct (bool_decide _); by injection Hcall as <- _. }
  pose proof (call_within fuel writes_first now authorization key e q sv Hkey He Ha) as Hw. rewrite Hcall in Hw. simpl in Hw.
  split; [by eapply within_apart|]. intros k s Hk.
  apply (within_spared (λ k, k = recordKey e) (recordKey e)); [done|done|done|].
  apply cut_prefix_Some in Hkey. by eapply Hk.
Qed.

(** ** A server in memory *)

Module ServerExample.
(** A user holds what is written for them, here or in the question. *)
Definition has (s : Toy.fga) (store : string) (t : tuple) (ctx : list tuple) : bool :=
  bool_decide (t ∈ default ∅ (Toy.tf_stores s !! store)) || bool_decide (t ∈ ctx).

Definition transaction (s : Toy.fga) (store : string) (writes deletes : list tuple) : Toy.fga * outcome unit :=
  match Toy.tf_stores s !! store with
  | None => (s, inr (FromOpenFGA 404 "store not found"))
  | Some c => (Toy.mkFga (<[store := (c ∖ list_to_set deletes) ∪ list_to_set writes]> (Toy.tf_stores s))
                 (Toy.tf_handed s) (Toy.tf_models s) (Toy.tf_budget s), inl tt)
  end.

#[export] Instance questions : Questions Toy.fga := {|
  ask_check s store _ t ctx := inl (has s store t ctx);
  ask_batch s store _ checks := inl (list_to_map ((λ q, (q.1, (has s store q.2.1 q.2.2, None))) <$> checks));
  ask_list_objects s store _ user relation type _ :=
    inl (Some (t_object <$> filter (λ t, matches (Tuple user relation (type +:+ ":")) t = true)
                              (elements (default ∅ (Toy.tf_stores s !! store)))));
  ask_list_users s store _ object relation _ _ := inl [];
  ask_read s store _ _ f := inl (filter (λ t, matches (default (Tuple "" "" "") f) t = true)
                                   (elements (default ∅ (Toy.tf_stores s !! store))), "");
  ask_write s store _ writes deletes := transaction s store writes deletes;
  render_model m := Ok m |}.

#[export] Program Instance questions_laws : QuestionsLaws Toy.fga.
Next Obligation.
  intros s store mdl writes deletes s'. simpl. unfold transaction.
  destruct (Toy.tf_stores s !! store) as [c|] eqn:Hc; [|done]. intros [= <-]. unfold elsewhere. simpl.
  assert (dom (<[store := (c ∖ list_to_set deletes) ∪ list_to_set writes]> (Toy.tf_stores s)) = dom (Toy.tf_stores s)) as Hd.
  { rewrite dom_insert_L. apply elem_of_dom_2 in Hc. set_solver. }
  unfold Toy.tf_used. simpl. rewrite Hd, lookup_insert_eq. split_and!; [done|done| |done].
  intros k Hk. by rewrite lookup_insert_ne.
Qed.
Next Obligation.
  intros s store mdl writes deletes s' f. simpl. unfold transaction.
  destruct (Toy.tf_stores s !! store) eqn:Hs; [done|]. intros [= <- _]. split; [done|left]. by rewrite Hs.
Qed.

(** Two calls and then none. *)
#[export] Instance toy_limiter : Limiter nat := {|
  lim_new _ _ := 2;
  lim_allow n _ := match n with 0 => (0, false) | S n => (n, true) end |}.

Definition staff : tuple := Tuple "user:acme/ana" "member" "group:acme/staff".
Definition note : tuple := Tuple "user:acme/ana" "owner" "doc:note".
Definition s0 : Toy.fga := Toy.mkFga {["s" := {[staff]}; "ss" := ∅]} {["s"; "ss"]} ∅ 9.
Definition wiki : StoreIDs := mkIDs "s" "m0" (ModelDigest "{}") [] true.
Definition files : StoreIDs := mkIDs "ss" "m0" (ModelDigest "{}") [] false.
Definition wiki_entry : Entry := mkEntry "acme" "wiki" (Hash "secret") "{}" "acme" true [].

Definition sv : server Toy.fga Toy.record nat :=
  mkServer (mkArbiter s0 (Toy.mkRecord {["acme.wiki" := wiki; "acme.files" := files]} false) false ∅)
    {[Hash "secret" := wiki_entry]} ∅.

Definition asked : component_request := WriteTuples (Decoded (mkWrite [note] [])).
Definition to_group : component_request := WriteTuples (Decoded (mkWrite [staff] [])).

Lemma sv_apart : apart (sv_arbiter sv).
Proof.
  assert (∀ k s, names (sv_arbiter sv) k s → (k = "acme.wiki" ∧ s = "s") ∨ (k = "acme.files" ∧ s = "ss")) as Hn.
  { intros k s [(ids & Hk & Hs)|(ids & Hk & Hs)]; simpl in Hk; [by rewrite lookup_empty in Hk|].
    apply lookup_insert_Some in Hk as [[<- <-]|[_ Hk]]; [left; by rewrite <- Hs|].
    apply lookup_singleton_Some in Hk as [<- <-]. right. by rewrite <- Hs. }
  split; [| |done].
  - intros k s [[_ ->]|[_ ->]]%Hn; apply (bool_decide_unpack _); vm_compute; exact I.
  - intros k k' s [[-> ->]|[-> ->]]%Hn [[-> ?]|[-> ?]]%Hn; done.
Qed.
End ServerExample.
#[local] Existing Instance ServerExample.questions.
#[local] Existing Instance ServerExample.questions_laws.
#[local] Existing Instance ServerExample.toy_limiter.
Import ServerExample.

Lemma components_leave_groups_alone_witness :
  let s' := (handle true asked wiki wiki_entry s0).1 in
  let r := (handle true asked wiki wiki_entry s0).2 in
  r = inl Written ∧ (handle true to_group wiki wiki_entry s0).1 = s0
  ∧ (∀ store t name, t_user t = "group:" +:+ name ∨ t_object t = "group:" +:+ name →
     t ∈ default ∅ (ai_stores s' !! store) ↔ t ∈ default ∅ (ai_stores s0 !! store))
  ∧ (∀ b, asked = WriteTuples b → r = inl Written → ∃ req, b = Decoded req
     ∧ 1 ≤ length (wq_writes req) + length (wq_deletes req) ≤ MaxWriteTuples
     ∧ default ∅ (ai_stores s' !! si_store wiki)
       = (default ∅ (ai_stores s0 !! si_store wiki) ∖ list_to_set (wq_deletes req)) ∪ list_to_set (wq_writes req)).
Proof.
  intros s' r. split; [vm_compute; reflexivity|]. split; [vm_compute; reflexivity|].
  exact (components_leave_groups_alone true asked wiki wiki_entry s0 s' r (surjective_pairing _)).
Defined.

(** The wiki's key writes a note: acme's files is as it was. *)
Lemma call_reaches_its_own_store_only_witness :
  let sv' := (call 3 true 0 "Bearer secret" asked sv).1 in
  let r := (call 3 true 0 "Bearer secret" asked sv).2 in
  r = Answered Written
  ∧ sv_table sv' = sv_table sv ∧ apart (sv_arbiter sv')
  ∧ ∀ k s, (∀ key e, "Bearer secret" = "Bearer " +:+ key → sv_table sv !! Hash key = Some e → k ≠ recordKey e) →
      (names (sv_arbiter sv') k s ↔ names (sv_arbiter sv) k s)
      ∧ (names (sv_arbiter sv) k s →
         ai_stores (a_fga (sv_arbiter sv')) !! s = ai_stores (a_fga (sv_arbiter sv)) !! s).
Proof.
  intros sv' r. split; [vm_compute; reflexivity|].
  exact (call_reaches_its_own_store_only 3 true 0 "Bearer secret" asked sv sv' r sv_apart (surjective_pairing _)).
Defined.
