(* ===== verification/ArbiterPlatform.v ===== *)
(** * The platform's path to the arbiter

    [internal/arbiter/platform.go]: what the operator, known by its workload's token,
    writes into stores and reads out of them that no component's key may: the realm's
    group memberships, a store's export and restore, and a purge. *)

From S2P Require Import Prelude.
From S2P Require Import GoStrings.
From S2P Require Import Ids.
From S2P Require Import Fga.
From S2P Require Import Membership.
From S2P Require Import TokenReview.
From S2P Require Import ComponentKeys.
From S2P Require Import ArbiterTable.
From S2P Require Import ArbiterStores.
From S2P Require Import ArbiterIsolation.
From S2P Require Import ArbiterResolve.
From S2P Require Import ArbiterServer.
From Stdlib Require Import ZArith.

(** ** Who is admitted *)

Definition PlatformAudience : string := "gentian-arbiter".
Definition StatusServiceUnavailable : Z := 503.
Definition StatusNotFound : Z := 404.

(** [pa_review] is [None] without an API server to ask. *)
Record PlatformAuth := mkAuth { pa_caller : string; pa_review : option Cache }.

Definition admit_ (auth : option PlatformAuth) (now : Z) (answer : result (option review)) (header : string)
    : option PlatformAuth * option fault :=
  let required := (auth, Some (Refusal StatusUnauthorized "unauthenticated" (Sentinel "the platform's token is required"))) in
  match auth, cut_prefix header "Bearer " with
  | Some (mkAuth caller (Some cache)), Some token =>
      if bool_decide (caller = "") || bool_decide (token = "") then required
      else
        let '(cache', r) := Identify cache now answer token in
        (Some (mkAuth caller (Some cache')),
         match r with
         | Err e =>
             if errors_Is e "the token is not a valid ServiceAccount token for this audience"
             then Some (Refusal StatusUnauthorized "unauthenticated" (Sentinel "not a token for this path"))
             else Some (Refusal StatusServiceUnavailable "unavailable" (Sentinel "the token could not be reviewed"))
         | Ok username =>
             if bool_decide (username = caller) then None
             else Some (Refusal StatusForbidden "forbidden" (Sentinel "only the platform may use this path"))
         end)
  | _, _ => required
  end.

(** ** Requests *)

Record MembershipsRequest := mkMemberships {
  ms_tenant : string; ms_realm : string; ms_subject : string; ms_groups : list string }.
Record GroupDeletedRequest := mkGroupDeleted { gd_tenant : string; gd_realm : string; gd_group : string }.
Record StoreExport := mkExport { se_model : string; se_tuples : list tuple }.

(** The entries a realm's memberships reach. *)
Definition mirrors (table : gmap string Entry) (tenant realm : string) : list Entry :=
  filter (λ e, e_tenant e = tenant ∧ e_realm e = realm ∧ e_mirror e = true) (map_to_list table).*2.

(** The groups of a person that are mirrored. *)
Definition wanted (realm : string) (groups : list string) : gset string :=
  list_to_set (omap (λ g, match GroupObject realm g with Ok obj => Some obj | Err _ => None end) groups).

Section Platform.
Context {F R : Type} `{AppInstance F} `{Recorder R} `{JsonObjects}.
Context (fuel : nat).
#[local] Open Scope act_scope.

(** The person's memberships in one store. *)
Definition mirror_person (realm user : string) (want : gset string) (e : Entry) : act (arbiter F R) unit :=
  ids ⇐ Resolve fuel e;
  stored ⇐ readAll fuel (si_store ids) (Tuple user "" (groupType +:+ ":"));
  let here := filter (λ t, t_relation t = "member"
                ∧ has_prefix (t_object t) (groupType +:+ ":" +:+ realm +:+ "/") = true) stored in
  let have : gset string := list_to_set (t_object <$> here) in
  let deletes := filter (λ t, t_object t ∉ want) here in
  let writes := (λ obj, Tuple user "member" obj) <$> elements (want ∖ have) in
  writeTuples (si_store ids) (si_model ids) writes deletes.

Definition lift {A} (m : act (arbiter F R) A) (a : arbiter F R) : arbiter F R * outcome A :=
  let '(a', r) := m a in (a', match r with Ok x => inl x | Err e => inr (Failed e) end).

Definition platformMemberships (table : gmap string Entry) (b : body MembershipsRequest) (a : arbiter F R)
    : arbiter F R * outcome unit :=
  match decode b with
  | inr f => (a, inr f)
  | inl req =>
      if negb (dnsLabel (ms_tenant req)) || bool_decide (ms_subject req = "")
      then (a, inr (badRequest (Sentinel "tenant and subject are required")))
      else match UserObject (ms_realm req) (ms_subject req) with
      | Err e => (a, inr (badRequest e))
      | Ok user =>
          lift (act_each (mirror_person (ms_realm req) user (wanted (ms_realm req) (ms_groups req)))
                  (mirrors table (ms_tenant req) (ms_realm req))) a
      end
  end.

(** The members of a group in one store are taken out. *)
Definition empty_group (obj : string) (e : Entry) : act (arbiter F R) unit :=
  ids ⇐ Resolve fuel e;
  members ⇐ readAll fuel (si_store ids) (Tuple "" "member" obj);
  writeTuples (si_store ids) (si_model ids) [] members.

Definition platformGroupDeleted (table : gmap string Entry) (b : body GroupDeletedRequest) (a : arbiter F R)
    : arbiter F R * outcome unit :=
  match decode b with
  | inr f => (a, inr f)
  | inl req =>
      match GroupObject (gd_realm req) (gd_group req) with
      | Err _ => (a, inl tt)
      | Ok obj => lift (act_each (empty_group obj) (mirrors table (gd_tenant req) (gd_realm req))) a
      end
  end.

Definition storeRef (tenant component : string) : outcome (string * string) :=
  if negb (dnsLabel tenant) || negb (dnsLabel component)
  then inr (badRequest (Errorf "not a store: %q/%q" [tenant; component]))
  else inl (tenant, component).

Definition platformExport (tenant component : string) (a : arbiter F R) : arbiter F R * outcome StoreExport :=
  match storeRef tenant component with
  | inr f => (a, inr f)
  | inl _ =>
      match lift (Export fuel tenant component) a with
      | (a', inr f) => (a', inr f)
      | (a', inl None) => (a', inr (Refusal StatusNotFound "not_found"
                                (Errorf "no store is recorded for %s" [tenant +:+ "/" +:+ component])))
      | (a', inl (Some (model, tuples))) => (a', inl (mkExport model tuples))
      end
  end.

Definition platformRestore (tenant component : string) (b : body StoreExport) (a : arbiter F R)
    : arbiter F R * outcome unit :=
  match
    obind (storeRef tenant component) (λ _,
    obind (decode b) (λ req,
    if bool_decide (se_model req = "") then inr (badRequest (Sentinel "a restore carries the store's model"))
    else obind (valid_tuples "tuples" 0 (se_tuples req)) (λ _, inl req)))
  with
  | inr f => (a, inr f)
  | inl req => lift (Restore tenant component (se_model req) (se_tuples req)) a
  end.

Definition platformPurge (tenant component : string) (a : arbiter F R) : arbiter F R * outcome unit :=
  match storeRef tenant component with
  | inr f => (a, inr f)
  | inl _ => lift (Purge tenant component) a
  end.

Definition platformPurgeTenant (tenant : string) (a : arbiter F R) : arbiter F R * outcome unit :=
  if negb (dnsLabel tenant) then (a, inr (badRequest (Errorf "not a tenant: %q" [tenant])))
  else lift (PurgeTenant tenant) a.
End Platform.

(** ** Lemmas *)

Section Lemmas.
Context {F R : Type} {HF : AppInstance F} {HFL : AppInstanceLaws F} {HR : Recorder R} {HRL : RecorderLaws R}.
Context (fuel : nat).

(** A membership of the person in a group of the realm. *)
Definition realm_group (realm : string) (obj : string) : bool :=
  has_prefix obj (groupType +:+ ":" +:+ realm +:+ "/").
Definition membership (realm user : string) (t : tuple) : Prop :=
  t_user t = user ∧ t_relation t = "member" ∧ realm_group realm (t_object t) = true.

#[global] Instance membership_dec realm user t : Decision (membership realm user t).
Proof. apply _. Defined.

(** The person's memberships in the realm's groups are those wanted, and every other
    tuple is as it was. *)
Definition mirrored_in (realm user : string) (want : gset string) (c c' : gset tuple) : Prop :=
  ∀ t, t ∈ c' ↔ if decide (membership realm user t) then t_object t ∈ want else t ∈ c.

Lemma person_in_realm realm user t : person_in (realm_group realm) user t ↔ membership realm user t.
Proof.
  unfold person_in, membership. split; [tauto|]. intros (? & ? & Hg). split_and!; [done..|].
  unfold realm_group in Hg. apply has_prefix_spec in Hg as [r Hr].
  apply has_prefix_spec. exists (realm +:+ "/" +:+ r). rewrite Hr. by go_str.
Qed.

Lemma mirror_writes realm user want (c : gset tuple) stored :
  user ≠ "" → (∀ obj, obj ∈ want → realm_group realm obj = true) →
  (∀ t, t ∈ stored ↔ t ∈ c ∧ matches (Tuple user "" (groupType +:+ ":")) t = true) →
  let here := filter (λ t, t_relation t = "member" ∧ realm_group realm (t_object t) = true) stored in
  let have : gset string := list_to_set (t_object <$> here) in
  mirrored_in realm user want c
    ((c ∖ list_to_set (filter (λ t, t_object t ∉ want) here))
     ∪ list_to_set ((λ obj, Tuple user "member" obj) <$> elements (want ∖ have))).
Proof.
  intros Hne Hwant Hstored here have t.
  destruct (membership_diff (realm_group realm) user want c stored) as [Hd Hw]; [done| |done|].
  { intros obj Ho. split; [by apply Hwant|].
    assert (membership realm user (Tuple user "member" obj)) as Hm by (split_and!; [done..|by apply Hwant]).
    apply person_in_realm in Hm as (_ & _ & _ & ?). done. }
  etrans; [exact (membership_kept _ _ _ _ _ _ Hd Hw t)|].
  destruct (decide (membership realm user t)) as [Hm|Hm]; rewrite <-person_in_realm in Hm.
  - by rewrite decide_True.
  - by rewrite decide_False.
Qed.

Lemma mirror_person_spec realm user want e a a' :
  user ≠ "" → (∀ obj, obj ∈ want → realm_group realm obj = true) →
  mirror_person fuel realm user want e a = (a', Ok tt) →
  ∃ a1 ids, Resolve fuel e a = (a1, Ok ids) ∧ only_tuples (si_store ids) a1 a'
    ∧ mirrored_in realm user want (tuples a1 (si_store ids)) (tuples a' (si_store ids)).
Proof.
  intros Hne Hwant. unfold mirror_person.
  intros (a1 & ids & Hres & Hrest)%act_bind_Ok. apply act_bind_Ok in Hrest as (a2 & stored & Hread & Hw).
  apply readAll_tuples in Hread as [-> Hstored]. exists a1, ids. split; [done|].
  match type of Hw with writeTuples _ _ ?ws ?ds _ = _ =>
    pose proof (writeTuples_tuples (si_store ids) (si_model ids) ws ds a1) as Hs end.
  rewrite Hw in Hs. destruct Hs as (? & ? & ? & ? & Ht). split; [by split_and!|].
  rewrite Ht. by apply mirror_writes.
Qed.

Lemma mirror_person_within a0 realm user want e :
  triple (within a0 (recordKey e)) (mirror_person fuel realm user want e)
    (λ _, within a0 (recordKey e)) (within a0 (recordKey e)).
Proof.
  unfold mirror_person. eapply triple_bind; [by apply Resolve_within|]. intros ids.
  assert (∀ A (m : act (arbiter F R) A), triple (hold a0 (recordKey e) ids) m (λ _, hold a0 (recordKey e) ids) (busy a0 (recordKey e) ∅) →
    triple (hold a0 (recordKey e) ids) m (λ _, hold a0 (recordKey e) ids) (within a0 (recordKey e))) as Hweak.
  { intros A m Hm. eapply triple_weaken; [exact Hm|done|done|by intros x [? _]]. }
  eapply triple_bind; [apply Hweak, hold_step; intros Hown; apply readAll_within|]. intros stored. simpl.
  eapply triple_weaken; [apply Hweak, hold_step; intros Hown; by apply writeTuples_within|done|by intros ? ? [[? _] _]|done].
Qed.

(** The person's memberships are as wanted in the store of an entry. *)
Definition person_mirrored (realm user : string) (want : gset string) (a : arbiter F R) (e : Entry) : Prop :=
  ∃ ids, a_loaded a = true ∧ a_ids a !! recordKey e = Some ids
    ∧ ∀ obj, realm_group realm obj = true → Tuple user "member" obj ∈ tuples a (si_store ids) ↔ obj ∈ want.

Lemma mirror_person_done realm user want e a a' :
  user ≠ "" → (∀ obj, obj ∈ want → realm_group realm obj = true) →
  mirror_person fuel realm user want e a = (a', Ok tt) → person_mirrored realm user want a' e.
Proof.
  intros Hne Hwant Hrun. destruct (mirror_person_spec _ _ _ _ _ _ Hne Hwant Hrun) as (a1 & ids & Hres & Ho & Hm).
  destruct (Resolve_held fuel e a a1 ids Hres) as [Hl Hi]. destruct Ho as (_ & Hl' & Hi' & _).
  exists ids. split_and!; [congruence|congruence|]. intros obj Hg. rewrite (Hm (Tuple user "member" obj)).
  by rewrite decide_True by (split_and!; done).
Qed.

(** Another entry's work leaves them. *)
Lemma person_mirrored_kept realm user want e e' a a' :
  apart a → within a (recordKey e') a' → recordKey e ≠ recordKey e' →
  person_mirrored realm user want a e → person_mirrored realm user want a' e.
Proof.
  intros Ha Hw Hne (ids & Hl & Hi & Hm). destruct (within_ids _ _ _ Hw Hl) as [Hl' Hids].
  assert (names a (recordKey e) (si_store ids)) as Hn by (left; by exists ids).
  exists ids. split_and!; [done|by rewrite Hids|]. intros obj Hg. rewrite <- (Hm obj Hg). unfold tuples.
  rewrite (within_stores _ _ _ Hw); [done|by apply (apart_used _ Ha (recordKey e))|].
  intros Hn'. apply Hne. by eapply (apart_inj _ Ha).
Qed.

Lemma mirror_each realm user want entries a a' :
  user ≠ "" → (∀ obj, obj ∈ want → realm_group realm obj = true) →
  NoDup (recordKey <$> entries) → apart a →
  act_each (mirror_person fuel realm user want) entries a = (a', Ok tt) →
  apart a' ∧ Forall (person_mirrored realm user want a') entries
  ∧ ∀ e, (recordKey e ∉ recordKey <$> entries) → person_mirrored realm user want a e → person_mirrored realm user want a' e.
Proof.
  intros Hne Hwant. revert a. induction entries as [|e entries IH]; intros a Hnd Ha.
  { simpl. intros [= <-]. by split_and!. }
  simpl. intros (a1 & [] & Hone & Hrest)%act_bind_Ok. apply NoDup_cons in Hnd as [Hfresh Hnd].
  pose proof (mirror_person_within a realm user want e a (within_start _ _ Ha)) as Hw. rewrite Hone in Hw.
  assert (apart a1) as Ha1 by (by eapply within_apart).
  destruct (IH a1 Hnd Ha1 Hrest) as (Ha' & Hall & Hkeep).
  split_and!; [done| |].
  - constructor; [|done]. apply Hkeep; [done|]. by eapply mirror_person_done.
  - intros e' Hnot Hm. rewrite not_elem_of_cons in Hnot. apply Hkeep; [naive_solver|].
    eapply person_mirrored_kept; [exact Ha|exact Hw|naive_solver|done].
Qed.
End Lemmas.

Lemma GroupObject_realm realm g obj : GroupObject realm g = Ok obj → realm_group realm obj = true.
Proof.
  unfold GroupObject. destruct (dnsLabel realm) eqn:Hd; simpl; [|done]. destruct (_ || _); [done|].
  unfold Group. intros (id & (_ & _ & ->)%encode_Ok & [= <-])%bind_Ok.
  unfold realm_group, groupType. apply has_prefix_spec. exists (replace_byte (trim_prefix g "/") ":" "/").
  rewrite !replace_byte_app, (replace_byte_id realm) by (by apply dns_label_contains). by go_str.
Qed.

Lemma wanted_realm realm groups obj : obj ∈ wanted realm groups → realm_group realm obj = true.
Proof.
  unfold wanted. rewrite elem_of_list_to_set, list_elem_of_omap. intros (g & _ & Hg).
  destruct (GroupObject realm g) as [o|] eqn:Ho; [|done]. injection Hg as <-. by eapply GroupObject_realm.
Qed.

Lemma UserObject_nonempty realm subject user : UserObject realm subject = Ok user → user ≠ "".
Proof.
  unfold UserObject, User. destruct (dnsLabel realm); simpl; [|done]. by intros (id & _ & [= <-])%bind_Ok.
Qed.

Lemma mirror_each_spared {F R} `{AppInstanceLaws F} `{RecorderLaws R} fuel realm user want entries (a : arbiter F R) :
  spared (λ k, k ∈ recordKey <$> entries) a (act_each (mirror_person fuel realm user want) entries a).1.
Proof.
  assert (∀ l (b : arbiter F R), l ⊆ entries →
    spared (λ k, k ∈ recordKey <$> entries) b (act_each (mirror_person fuel realm user want) l b).1) as Hl.
  { induction l as [|e l IH]; intros b Hsub; [reflexivity|]. simpl. unfold act_bind.
    pose proof (triple_spared (λ k, k ∈ recordKey <$> entries) (recordKey e) (mirror_person fuel realm user want e) b) as Hs.
    destruct (mirror_person fuel realm user want e b) as [b' [u|err]]; simpl in *.
    - etrans; [|apply IH; set_solver]. apply Hs; [apply list_elem_of_fmap_2; set_solver|].
      intros a0. apply mirror_person_within.
    - apply Hs; [apply list_elem_of_fmap_2; set_solver|]. intros a0. apply mirror_person_within. }
  by apply Hl.
Qed.

Lemma platformMemberships_spec {F R} `{AppInstanceLaws F} `{RecorderLaws R} fuel table req (a a' : arbiter F R) :
  let reached := mirrors table (ms_tenant req) (ms_realm req) in
  apart a → NoDup (recordKey <$> reached) →
  platformMemberships fuel table (Decoded req) a = (a', inl tt) →
  apart a'
  ∧ (∃ user, UserObject (ms_realm req) (ms_subject req) = Ok user
     ∧ Forall (person_mirrored (ms_realm req) user (wanted (ms_realm req) (ms_groups req)) a') reached)
  ∧ ∀ k s, (k ∉ recordKey <$> reached) →
      (names a' k s ↔ names a k s) ∧ (names a k s → ai_stores (a_fga a') !! s = ai_stores (a_fga a) !! s).
Proof.
  intros entries Ha Hnd. unfold platformMemberships. simpl. destruct (_ || _); [done|].
  destruct (UserObject _ _) as [user|] eqn:Hu; [|done]. unfold lift. fold entries.
  pose proof (mirror_each_spared fuel (ms_realm req) user (wanted (ms_realm req) (ms_groups req)) entries a Ha) as [_ Hsp].
  destruct (act_each _ entries a) as [b [[]|err]] eqn:Hrun; [|done]. intros [= <-].
  apply mirror_each in Hrun as (Ha' & Hall & _); [|by eapply UserObject_nonempty|apply wanted_realm|done|done].
  split_and!; [done|by exists user|done].
Qed.

(** ** Properties *)

(** Once a person's groups in a realm are stated, every store of the tenant that
    mirrors the realm has the person in exactly those of the realm's groups that can be
    mirrored, and the record and the store of every other component are as they were. *)
Theorem platformMemberships_exact {F R} `{AppInstanceLaws F} `{RecorderLaws R} fuel table req (a a' : arbiter F R) :
  let reached := mirrors table (ms_tenant req) (ms_realm req) in
  apart a → NoDup (recordKey <$> reached) →
  platformMemberships fuel table (Decoded req) a = (a', inl tt) →
  apart a'
  ∧ (∃ user, UserObject (ms_realm req) (ms_subject req) = Ok user
     ∧ Forall (person_mirrored (ms_realm req) user (wanted (ms_realm req) (ms_groups req)) a') reached)
  ∧ ∀ k s, (k ∉ recordKey <$> reached) →
      (names a' k s ↔ names a k s) ∧ (names a k s → ai_stores (a_fga a') !! s = ai_stores (a_fga a) !! s).
Proof. apply platformMemberships_spec. Qed.

(** Ana leaves the staff of acme for its editors. *)
Module PlatformExample.
Definition table : gmap string Entry := {[ComponentKeys.Hash "secret" := ServerExample.wiki_entry]}.
Definition moved : MembershipsRequest := mkMemberships "acme" "acme" "ana" ["/editors"; "/a/nested"].
Definition before : arbiter Toy.fga Toy.record := sv_arbiter ServerExample.sv.
Definition after : arbiter Toy.fga Toy.record := (platformMemberships 3 table (Decoded moved) before).1.
End PlatformExample.
Import PlatformExample.

Lemma platformMemberships_exact_witness :
  let reached := mirrors table "acme" "acme" in
  elements (tuples after "s") = [Tuple "user:acme/ana" "member" "group:acme/editors"]
  ∧ apart after
  ∧ (∃ user, UserObject "acme" "ana" = Ok user
     ∧ Forall (person_mirrored "acme" user (wanted "acme" ["/editors"; "/a/nested"]) after) reached)
  ∧ ∀ k s, (k ∉ recordKey <$> reached) →
      (names after k s ↔ names before k s)
      ∧ (names before k s → ai_stores (a_fga after) !! s = ai_stores (a_fga before) !! s).
Proof.
  intros reached. split; [vm_compute; reflexivity|].
  refine (platformMemberships_exact 3 table moved before after ServerExample.sv_apart _ _).
  - apply (bool_decide_unpack _). vm_compute. exact I.
  - vm_compute. reflexivity.
Defined.
