(* ===== verification/ArbiterBackup.v ===== *)
(** * A store's backup

    [Stores.Restore], [Export] and [PurgeTenant] of [internal/arbiter/stores.go]: what a
    bundle carries out of a store is what a restore puts into a new one. *)

From S2P Require Import Prelude.
From S2P Require Import GoStrings.
From S2P Require Import Fga.
From S2P Require Import GoJson.
From S2P Require Import ModelBootstrap.
From S2P Require Import ArbiterTable.
From S2P Require Import ArbiterStores.
From S2P Require Import ArbiterIsolation.
From S2P Require Import ArbiterResolve.

(** What the server makes of a model it is given.  It reads it back with an id of its own
    and with the defaults it fills in, null, empty strings, lists and objects, at any level
    ([internal/director/authz/bootstrap.go], on [sameModel] and [normalise]): every field
    but the id is alike to the one written, a field left out counting as null.  An object
    of JSON reads as the fields it was made of. *)
Class ModelLaws (F : Type) `{AppInstance F} `{JsonObjects} := {
  (** What the text of a field says. *)
  ml_value : string → json;
  ml_written s store model s' id fs :
    ai_write_model s store model = (s', Ok id) → json_fields model = Ok fs →
    ∃ held fs', ai_read_model s' store id = Ok held ∧ json_fields held = Ok fs'
      ∧ ∀ f, f ≠ "id" → alike (default JNull (ml_value <$> fs' !! f)) (default JNull (ml_value <$> fs !! f));
  ml_kept store s r st id :
    ai_read_model (@srv_write F (ai_server store) s r).1 st id = ai_read_model s st id;
  ml_json fs m : json_object fs = Ok m → json_fields m = Ok fs }.

(** The fields of two models say the same, whatever the ids. *)
Definition fields_alike {F} `{ModelLaws F} (fs' fs : gmap string string) : Prop :=
  ∀ f, f ≠ "id" → alike (default JNull (ml_value <$> fs' !! f)) (default JNull (ml_value <$> fs !! f)).

Section Backup.
Context {F R : Type} {HF : AppInstance F} {HFL : AppInstanceLaws F} {HR : Recorder R} {HRL : RecorderLaws R}
  {HJ : JsonObjects} {HM : ModelLaws F}.
Context (fuel : nat).

(** A new store with its model and its tuples. *)
Definition refilled (key : string) (model : string) (ts : list tuple) (a a' : arbiter F R) : Prop :=
  ∃ ids, a_loaded a' = a_loaded a ∧ a_ids a' = <[key := ids]> (a_ids a)
    ∧ rec_data (a_rec a') = <[key := ids]> (rec_data (a_rec a))
    ∧ (si_store ids ∉ ai_used (a_fga a)) ∧ si_digest ids = ModelDigest model ∧ si_written ids = [] ∧ si_mirrored ids = false
    ∧ tuples a' (si_store ids) = list_to_set ts
    ∧ (∀ s, s ≠ si_store ids → ai_stores (a_fga a') !! s = ai_stores (a_fga a) !! s)
    ∧ ∀ fs, json_fields model = Ok fs →
        ∃ held fs', ai_read_model (a_fga a') (si_store ids) (si_model ids) = Ok held
          ∧ json_fields held = Ok fs' ∧ fields_alike fs' fs.

Lemma or_else_Ok {A} (m : act (arbiter F R) A) g a a' x : or_else m g a = (a', Ok x) → m a = (a', Ok x).
Proof. unfold or_else. by destruct (m a) as [a1 [y|e]]. Qed.

Lemma refill_spec key e ts a a' : refill key e ts a = (a', Ok tt) → refilled key (e_model e) ts a a'.
Proof.
  unfold refill. intros (a1 & id & (_ & Hnew & R1 & L1 & I1 & S1)%act_wrap_Ok%createStore_spec & Hrun)%act_bind_Ok.
  apply act_bind_Ok in Hrun as (a2 & mid & Hmodel%or_else_Ok%act_wrap_Ok & Hrun).
  apply act_bind_Ok in Hrun as (a3 & [] & Htuples%or_else_Ok%act_wrap_Ok & Hrun).
  apply act_bind_Ok in Hrun as (a4 & [] & Hsave & Hset). unfold set in Hset. injection Hset as <-.
  pose proof (writeModel_spec id (e_model e) a1) as H2. rewrite Hmodel in H2. destruct H2 as (R2 & L2 & I2 & _ & S2 & _).
  pose proof (writeTuples_tuples id mid ts [] a2) as H3. rewrite Htuples in H3. destruct H3 as (R3 & L3 & I3 & (_ & _ & E3) & T3).
  pose proof (save_spec key (mkIDs id mid (ModelDigest (e_model e)) [] false) "%w" [] a3) as H4.
  unfold act_wrap in H4. rewrite Hsave in H4. destruct H4 as (F4 & L4 & I4 & R4). specialize (R4 eq_refl).
  exists (mkIDs id mid (ModelDigest (e_model e)) [] false). unfold tuples in *. simpl. rewrite F4.
  split_and!; [congruence|congruence|congruence|done|done|done|done| | |].
  - rewrite T3, S2, S1, lookup_insert_eq. simpl. set_solver.
  - intros s Hs. by rewrite E3, S2, S1, lookup_insert_ne.
  - intros fs Hfs. unfold writeModel in Hmodel. apply act_bind_Ok in Hmodel as (a1' & mid' & Hw & Hret).
    unfold on_fga in Hw. destruct (ai_write_model _ _ _) as [x r] eqn:Hx. injection Hw as <- ->.
    case_bool_decide; [done|]. unfold ret in Hret. injection Hret as <- <-. simpl in *.
    destruct (ml_written _ _ _ _ _ _ Hx Hfs) as (held & fs' & Hheld & Hf). exists held, fs'. split; [|done].
    rewrite <- Hheld. unfold writeTuples, on_fga in Htuples. simpl in Htuples.
    pose proof (@Write_preserves F (ai_server id) (λ s s', ∀ st m, ai_read_model s' st m = ai_read_model s st m)) as Hp.
    destruct (@Write F (ai_server id) _ x ts []) as [y r3] eqn:Hy. injection Htuples as <- _. simpl.
    change y with (y, r3).1. rewrite <- Hy. apply Hp; [split; [done|intros ??? ??; congruence]|].
    intros s r st m. apply ml_kept.
Qed.

Lemma load_Ok (a a' : arbiter F R) :
  load a = (a', Ok tt) → a_fga a' = a_fga a ∧ a_loaded a' = true
    ∧ (a_loaded a = true → a' = a).
Proof.
  unfold load. destruct (a_loaded a) eqn:Hl; [by intros [= <-]|].
  destruct (rec_load (a_rec a)) as [x [ids|e]]; [by intros [= <-]|done].
Qed.

(** A store that was there is removed before the new one is made. *)
Lemma Restore_spec tenant component model ts a a' :
  let key := recordKey (store_of tenant component model) in
  Restore tenant component model ts a = (a', Ok tt) →
  ∃ b, a_loaded b = true ∧ ai_used (a_fga b) = ai_used (a_fga a)
    ∧ (∀ s, ai_stores (a_fga b) !! s = ai_stores (a_fga a) !! s
            ∨ (∃ old, si_store old = s ∧ ai_stores (a_fga b) !! s = None
                 ∧ (a_loaded a = true → a_ids a !! key = Some old)))
    ∧ (a_loaded a = true → ∀ old, a_ids a !! key = Some old → ai_stores (a_fga b) !! si_store old = None)
    ∧ refilled key model ts b a'.
Proof.
  intros key. unfold Restore. fold key. intros (a1 & [] & (F1 & L1 & Hsame)%load_Ok & Hrun)%act_bind_Ok.
  apply act_bind_Ok in Hrun as (a1' & got & Hget & Hrun). unfold get in Hget. injection Hget as <- <-.
  apply act_bind_Ok in Hrun as (b & [] & Hrm & Hfill). apply refill_spec in Hfill. exists b.
  destruct (a_ids a1 !! key) as [old|] eqn:Hold.
  - apply act_bind_Ok in Hrm as (a2 & [] & Hdel%act_wrap_Ok & Hrm).
    apply act_bind_Ok in Hrm as (a3 & [] & Hforget & Hunset). unfold unset in Hunset. injection Hunset as <-.
    unfold on_rec in Hforget. destruct (rec_forget _ _) as [x [u|e]]; [|done]. injection Hforget as <-. simpl in *.
    unfold deleteStore, on_fga in Hdel. pose proof (ai_delete_used (a_fga a1) (si_store old)) as Hu.
    assert (ai_stores (a_fga a2) = delete (si_store old) (ai_stores (a_fga a1)) ∧ a_loaded a2 = a_loaded a1
      ∧ ai_used (a_fga a2) = ai_used (a_fga a1)) as (Hst & L2 & U2).
    { destruct (ai_delete (a_fga a1) (si_store old)) as [y [| |e]] eqn:Hd; simpl in Hu; [| |done]; injection Hdel as <-; simpl.
      - by apply ai_delete_ok in Hd.
      - apply ai_delete_missing in Hd as [Hn ->]. by rewrite delete_id. }
    split_and!; [congruence|congruence| | |done].
    + intros s. rewrite Hst, F1. destruct (decide (si_store old = s)) as [<-|Hne]; [right|left; by rewrite lookup_delete_ne].
      exists old. rewrite lookup_delete_eq. split_and!; [done|done|]. intros Hl. by rewrite <- (Hsame Hl).
    + intros Hl old' Hold'. rewrite <- (Hsame Hl), Hold in Hold'. injection Hold' as <-. by rewrite Hst, lookup_delete_eq.
  - unfold ret in Hrm. injection Hrm as <-. split_and!; [done|congruence|left; congruence| |done].
    intros Hl old' Hold'. by rewrite <- (Hsame Hl), Hold in Hold'.
Qed.

Lemma Export_spec tenant component a a' model all :
  Export fuel tenant component a = (a', Ok (Some (model, all))) → a_loaded a = true →
  ∃ ids held fs, a_ids a !! recordKey (store_of tenant component "") = Some ids
    ∧ ai_read_model (a_fga a) (si_store ids) (si_model ids) = Ok held ∧ json_fields held = Ok fs
    ∧ json_object (delete "id" fs) = Ok model
    ∧ ∀ t, t ∈ all ↔ t ∈ tuples a (si_store ids).
Proof.
  unfold Export. intros (a1 & [] & (_ & _ & Hsame)%load_Ok & Hrun)%act_bind_Ok Hl. rewrite (Hsame Hl) in Hrun.
  apply act_bind_Ok in Hrun as (a1' & got & Hget & Hrun). unfold get in Hget. injection Hget as <- <-.
  destruct (a_ids a !! _) as [ids|]; [|done].
  apply act_bind_Ok in Hrun as (a2 & held & Hm & Hrun). unfold on_fga in Hm. injection Hm as <- Hm.
  apply act_bind_Ok in Hrun as (a3 & fs & Hf & Hrun). unfold of_result in Hf. injection Hf as <- Hf.
  apply act_bind_Ok in Hrun as (a4 & m & Hj & Hrun). unfold of_result in Hj. injection Hj as <- Hj.
  apply act_bind_Ok in Hrun as (a5 & l & [_ Hread]%readAll_tuples & Hret). unfold ret in Hret. injection Hret as <- <- <-.
  exists ids, held, fs. split_and!; try done. intros t. rewrite Hread. unfold matches. simpl. tauto.
Qed.
End Backup.

(** ** Properties *)

(** C32: A restore that succeeds, by an arbiter that has read its record and whose components
    do not share a store (those of an arbiter in a state it can come to do not), puts a
    component on a store no one had before, holding the bundle's tuples and no other, under
    the bundle's model; the store it had is gone, every other is as it was; and what is then
    exported says what the bundle says: a model without an id, alike to the bundle's field by
    field but for the empty defaults the server fills in, and the same tuples. *)
Theorem Restore_then_Export {F R} `{AppInstanceLaws F} `{RecorderLaws R} `{JsonObjects} `{!ModelLaws F} fuel
    (a a1 a2 : arbiter F R) tenant component model fs ts model' ts' :
  json_fields model = Ok fs → apart a → a_loaded a = true →
  Restore tenant component model ts a = (a1, Ok tt) →
  Export fuel tenant component a1 = (a2, Ok (Some (model', ts'))) →
  (∃ fs', json_fields model' = Ok fs' ∧ fs' !! "id" = None ∧ fields_alike fs' fs) ∧ (∀ t, t ∈ ts' ↔ t ∈ ts)
  ∧ ∃ ids, a_ids a1 !! (tenant +:+ "." +:+ component) = Some ids
      ∧ (si_store ids ∉ ai_used (a_fga a)) ∧ tuples a1 (si_store ids) = list_to_set ts
      ∧ (∀ old, a_ids a !! (tenant +:+ "." +:+ component) = Some old → ai_stores (a_fga a1) !! si_store old = None)
      ∧ (∀ s, s ≠ si_store ids → (∀ old, a_ids a !! (tenant +:+ "." +:+ component) = Some old → s ≠ si_store old) →
           ai_stores (a_fga a1) !! s = ai_stores (a_fga a) !! s).
Proof.
  intros Hfs Ha Hl Hrestore Hexport.
  destruct (Restore_spec tenant component model ts a a1 Hrestore) as (b & Lb & Ub & Sb & Gone & ids & L1 & I1 & _ & Hnew & _ & _ & _ & T1 & E1 & M1).
  change (recordKey (store_of tenant component model)) with (tenant +:+ "." +:+ component) in *.
  destruct (Export_spec fuel tenant component a1 a2 model' ts' Hexport) as (ids' & held & fs' & Hi & Hheld & Hf & Hj & Hall); [congruence|].
  change (recordKey (store_of tenant component "")) with (tenant +:+ "." +:+ component) in Hi.
  rewrite I1, lookup_insert_eq in Hi. injection Hi as <-.
  destruct (M1 fs Hfs) as (held' & read & Hheld' & Hf' & Hsay). rewrite Hheld in Hheld'. injection Hheld' as <-.
  rewrite Hf in Hf'. injection Hf' as <-. rewrite Ub in Hnew.
  split.
  { exists (delete "id" fs'). split_and!; [by eapply ml_json|apply lookup_delete_eq|].
    intros f Hne. rewrite lookup_delete_ne by done. by apply Hsay. }
  split; [intros t; rewrite Hall, T1; set_solver|].
  exists ids. rewrite I1, lookup_insert_eq. split_and!; try done.
  - intros old Hold. rewrite E1; [by apply Gone|]. intros Heq. rewrite <- Heq in Hnew. apply Hnew.
    apply (apart_used _ Ha (tenant +:+ "." +:+ component)). left. by exists old.
  - intros s Hs Hother. rewrite E1 by done. destruct (Sb s) as [?|(old & <- & _ & Hold)]; [done|].
    by destruct (Hother old (Hold Hl)).
Qed.

(** ** An export and a restore *)

Module BackupExample.
(** An object of JSON as the bits of an encoding of its fields. *)
Fixpoint bits (p : positive) : string :=
  match p with xH => "" | xO p => String "0" (bits p) | xI p => String "1" (bits p) end.
Fixpoint of_bits (s : string) : positive :=
  match s with "" => xH | String c s => if Ascii.eqb c "0" then xO (of_bits s) else xI (of_bits s) end.

Lemma of_bits_bits p : of_bits (bits p) = p.
Proof. induction p as [p IH|p IH|]; simpl; by rewrite ?IH. Qed.

#[export] Instance json : JsonObjects := {|
  json_fields m := match countable.decode (of_bits m) with Some fs => Ok fs | None => Err (Sentinel "not an object") end;
  json_object fs := Ok (bits (countable.encode fs)) |}.

Lemma json_fields_object fs : json_fields (bits (countable.encode fs)) = Ok fs.
Proof. simpl. by rewrite of_bits_bits, decode_encode. Qed.

(** The instance in memory, which reads a model back with its id and with its conditions
    filled in, empty. *)
Definition with_id (m mid : string) : result string :=
  fs ← json_fields m; json_object (<["id" := mid]> (fs ∪ {["conditions" := ""]})).

#[export] Instance reads_ids : AppInstance Toy.fga := {|
  ai_create := @ai_create _ Toy.instance; ai_delete := @ai_delete _ Toy.instance;
  ai_write_model := @ai_write_model _ Toy.instance;
  ai_read_model s id mid := m ← @ai_read_model _ Toy.instance s id mid; with_id m mid;
  ai_server := @ai_server _ Toy.instance |}.

#[export] Instance reads_ids_laws : AppInstanceLaws Toy.fga :=
  @Build_AppInstanceLaws Toy.fga reads_ids Toy.tf_stores Toy.tf_used
    (@ai_stores_used _ _ Toy.laws) (@ai_create_ok _ _ Toy.laws) (@ai_create_err _ _ Toy.laws)
    (@ai_delete_used _ _ Toy.laws) (@ai_delete_ok _ _ Toy.laws) (@ai_delete_missing _ _ Toy.laws)
    (@ai_delete_err _ _ Toy.laws) (@ai_model_stores _ _ Toy.laws)
    Toy.tf_models (@ai_model_ok _ _ Toy.laws) (@ai_model_err _ _ Toy.laws) (@ai_create_models _ _ Toy.laws)
    (@ai_delete_models _ _ Toy.laws) (@ai_server_models _ _ Toy.laws) Toy.server_laws
    (@ai_server_contents _ _ Toy.laws) (@ai_server_frame _ _ Toy.laws).

Lemma filled_alike (fs : gmap string string) mid f : f ≠ "id" →
  alike (default JNull (JStr <$> <["id" := mid]> (fs ∪ {["conditions" := ""]}) !! f)) (default JNull (JStr <$> fs !! f)).
Proof.
  intros Hf. rewrite lookup_insert_ne by done. destruct (fs !! f) as [v|] eqn:Hv.
  - rewrite (lookup_union_Some_l _ _ _ _ Hv). apply alike_str.
  - rewrite lookup_union_r by done. destruct (decide (f = "conditions")) as [->|Hne].
    + rewrite lookup_singleton_eq. apply alike_hollow; constructor.
    + rewrite lookup_singleton_ne by done. apply alike_hollow; constructor.
Qed.

#[export] Instance model_laws : ModelLaws Toy.fga.
Proof.
  refine {| ml_value := JStr |}.
  - intros s store model s' id fs [= <- <-] Hfs. cbn [ai_read_model reads_ids Toy.instance Toy.tf_models].
    rewrite lookup_insert_eq. cbn [mbind result_bind]. unfold with_id. rewrite Hfs. cbn [mbind result_bind].
    eexists _, _. split; [reflexivity|]. split; [apply json_fields_object|]. intros f. apply filled_alike.
  - intros store s r st id. cbn [ai_read_model reads_ids Toy.instance].
    assert (Toy.tf_models (@srv_write _ (ai_server store) s r).1 = Toy.tf_models s) as ->; [|done].
    simpl. unfold Toy.server_write. by destruct (Toy.tf_budget s), (Toy.tf_stores s !! store).
  - intros fs m [= <-]. apply json_fields_object.
Defined.

Definition fields : gmap string string := {["types" := "user, doc"]}.
Definition bundle : string := bits (countable.encode fields).
(** The bundle with what the server fills in. *)
Definition filled : string := bits (countable.encode (<["conditions" := ""]> fields)).
Definition note : tuple := Tuple "user:acme/ana" "owner" "doc:note".
Definition before : arbiter Toy.fga Toy.record := (load (Toy.start false)).1.
Definition restored : arbiter Toy.fga Toy.record := (Restore "acme" "wiki" bundle [note] before).1.
Definition exported : option (string * list tuple) :=
  match (Export 3 "acme" "wiki" restored).2 with Ok x => x | Err _ => None end.

Lemma before_apart : apart before.
Proof.
  assert (∀ k s, ¬ names before k s) as Hn.
  { intros k s [(ids & Hk & _)|(ids & Hk & _)]; simpl in Hk; by rewrite lookup_empty in Hk. }
  split; [intros k s Hk; by destruct (Hn k s)|intros k k' s Hk; by destruct (Hn k s)|done].
Qed.
End BackupExample.
Import BackupExample.

Lemma Restore_then_Export_witness :
  exported = Some (filled, [note])
  ∧ (∃ fs', json_fields filled = Ok fs' ∧ fs' !! "id" = None ∧ fields_alike fs' fields) ∧ (∀ t, t ∈ [note] ↔ t ∈ [note])
  ∧ ∃ ids, a_ids restored !! "acme.wiki" = Some ids
      ∧ (si_store ids ∉ ai_used (a_fga before)) ∧ tuples restored (si_store ids) = list_to_set [note]
      ∧ (∀ old, a_ids before !! "acme.wiki" = Some old → ai_stores (a_fga restored) !! si_store old = None)
      ∧ (∀ s, s ≠ si_store ids → (∀ old, a_ids before !! "acme.wiki" = Some old → s ≠ si_store old) →
           ai_stores (a_fga restored) !! s = ai_stores (a_fga before) !! s).
Proof.
  split; [vm_compute; reflexivity|].
  refine (Restore_then_Export 3 before restored (Export 3 "acme" "wiki" restored).1 "acme" "wiki" bundle fields [note] filled [note]
    (json_fields_object fields) before_apart _ _ _); vm_compute; reflexivity.
Defined.
