(* ===== verification/MembershipMirror.v ===== *)
(** * From a statement to the app stores

    The way a membership statement takes beyond the rights store:
    [internal/controller/app_store_mirror.go] finds the tenant a realm is of, the
    client of [internal/arbiter/client.go] calls the arbiter's platform path, which
    [PlatformHandler] of [internal/arbiter/platform.go] admits and answers.

    [statement_reaches_every_mirror] follows one statement from the receiver to the
    rights store and to every app store that mirrors the realm's groups. *)

From S2P Require Import SystemEngines.
From S2P Require Import Prelude.
From S2P Require Import GoStrings.
From S2P Require Import Ids.
From S2P Require Import Fga.
From S2P Require Import Membership.
From S2P Require Import MembershipEvents.
From S2P Require Import TokenReview.
From S2P Require Import ComponentKeys.
From S2P Require Import ArbiterTable.
From S2P Require Import ArbiterStores.
From S2P Require Import ArbiterIsolation.
From S2P Require Import ArbiterResolve.
From S2P Require Import ArbiterServer.
From S2P Require Import ArbiterPlatform.
From Stdlib Require Import ZArith.

(** ** The platform path *)

(** Who calls, then the work, then the answer's status. *)
Definition platform_route {F R A} (auth : option PlatformAuth) (now : Z) (review : result (option review)) (header : string)
    (h : arbiter F R → arbiter F R * outcome A) (a : arbiter F R) : option PlatformAuth * arbiter F R * (A + reply) :=
  match admit_ auth now review header with
  | (auth', Some f) => (auth', a, inr (answerError f))
  | (auth', None) =>
      match h a with
      | (a', inl out) => (auth', a', inl out)
      | (a', inr f) => (auth', a', inr (answerError f))
      end
  end.

(** What becomes of a request on the way: it is not sent, or it reaches the arbiter
    (at a time, with what the API server then says of its token) and the answer
    comes back or is lost. *)
Inductive fate :=
  | Unsent (e : error)
  | Sent (now : Z) (review : result (option review)) (lost : option error).

(** What a cluster says of its tenants and engines: [None] is a set that does not
    exist. *)
Record tenant := mkTenant { tn_name : string; tn_keycloak_realm : option string }.
Record cluster := mkCluster {
  cl_engines : result (option (gmap string string)); cl_tenants : result (list tenant) }.

Definition tenantRealmName (t : tenant) : string :=
  match tn_keycloak_realm t with
  | Some realm => if bool_decide (realm = "") then tn_name t else realm
  | None => tn_name t
  end.

Definition tenantOfRealm (c : cluster) (realm : string) : result string :=
  set ← cl_engines c;
  match set with
  | None => Ok ""
  | Some data =>
      if negb (bool_decide (default "" (data !! EngineAuthorization) = engineWanted)) then Ok ""
      else
        tenants ← cl_tenants c;
        match filter (λ t, tenantRealmName t = realm) tenants with
        | [t] => Ok (tn_name t)
        | _ => Ok ""
        end
  end.

(** The mirror: the cluster, the token file, the arbiter with its table and what it
    knows of tokens, and the fates of the calls to come. *)
Record app_mirror (F R : Type) := mkMirror {
  am_cluster : cluster; am_token : result string; am_table : gmap string Entry;
  am_auth : option PlatformAuth; am_arbiter : arbiter F R; am_fates : list fate }.
Arguments mkMirror {_ _} _ _ _ _ _ _.
Arguments am_cluster {_ _} _.
Arguments am_token {_ _} _.
Arguments am_table {_ _} _.
Arguments am_auth {_ _} _.
Arguments am_arbiter {_ _} _.
Arguments am_fates {_ _} _.

Section Mirror.
Context {F R : Type} `{AppInstance F} `{Recorder R} (fuel : nat).

(** [PlatformClient.call] for a request without an answer's body. *)
Definition client_call (path : string) (h : gmap string Entry → arbiter F R → arbiter F R * outcome unit)
    (m : app_mirror F R) : app_mirror F R * result unit :=
  match am_token m with
  | Err e => (m, Err (Wrapf "the platform's token for the arbiter: %w" [] e))
  | Ok token =>
      match am_fates m with
      | [] => (m, Err (Errorf "arbiter %s: %w" [path]))
      | Unsent e :: fates =>
          (mkMirror (am_cluster m) (am_token m) (am_table m) (am_auth m) (am_arbiter m) fates,
           Err (Wrapf "arbiter %s: %w" [path] e))
      | Sent now review lost :: fates =>
          let '(auth', a', out) := platform_route (am_auth m) now review ("Bearer " +:+ trim_space token) (h (am_table m)) (am_arbiter m) in
          (mkMirror (am_cluster m) (am_token m) (am_table m) auth' a' fates,
           match lost with
           | Some e => Err (Wrapf "arbiter %s: %w" [path] e)
           | None =>
               match out with
               | inl _ => Ok tt
               | inr (Refused status _ _ _) =>
                   if bool_decide (status / 100 = 2)%Z then Ok tt
                   else Err (Errorf "arbiter %s: status %d: %s" [path])
               | inr (Answered _) => Ok tt
               end
           end)
      end
  end.

Definition SetMemberships (req : MembershipsRequest) : app_mirror F R → app_mirror F R * result unit :=
  client_call "/v1/platform/memberships" (λ table, platformMemberships fuel table (Decoded req)).

Definition GroupDeleted (req : GroupDeletedRequest) : app_mirror F R → app_mirror F R * result unit :=
  client_call "/v1/platform/group-deleted" (λ table, platformGroupDeleted fuel table (Decoded req)).

Definition mirror_SetUserGroups (realm sub : string) (groups : list string) (m : app_mirror F R) : app_mirror F R * result unit :=
  match tenantOfRealm (am_cluster m) realm with
  | Err e => (m, Err e)
  | Ok tenant =>
      if bool_decide (tenant = "") then (m, Ok tt)
      else let '(m', r) := SetMemberships (mkMemberships tenant realm sub groups) m in
           (m', wrap "mirror the memberships into %s's app stores: %w" [tenant] r)
  end.

Definition mirror_RemoveGroup (realm group : string) (m : app_mirror F R) : app_mirror F R * result unit :=
  match tenantOfRealm (am_cluster m) realm with
  | Err e => (m, Err e)
  | Ok tenant =>
      if bool_decide (tenant = "") then (m, Ok tt)
      else let '(m', r) := GroupDeleted (mkGroupDeleted tenant realm group) m in
           (m', wrap "mirror the deletion of a group into %s's app stores: %w" [tenant] r)
  end.

(** It is what the receiver hands its statements on to. *)
#[export] Instance AppStoreMirror : Mirror (app_mirror F R) := λ m st,
  match st with
  | Memberships realm sub groups => mirror_SetUserGroups realm sub groups m
  | GroupGone realm path => mirror_RemoveGroup realm path m
  end.
End Mirror.

(** ** Lemmas *)

Lemma admit_status auth now rv header auth' f :
  admit_ auth now rv header = (auth', Some f) →
  ∃ status code msg, f = Refusal status code msg ∧ (status / 100 ≠ 2)%Z.
Proof.
  unfold admit_. intros Hrun. destruct auth as [[caller [cache|]]|]; [|injection Hrun as _ <-; eauto 10..].
  destruct (cut_prefix header "Bearer ") as [token|]; [|injection Hrun as _ <-; eauto 10].
  destruct (_ || _); [injection Hrun as _ <-; eauto 10|].
  destruct (Identify cache now rv token) as [cache' [username|e]].
  - destruct (bool_decide (username = caller)); [done|]. injection Hrun as _ <-. eauto 10.
  - destruct (errors_Is e _); injection Hrun as _ <-; eauto 10.
Qed.

Lemma lift_fault {F R A} (m : act (arbiter F R) A) a a' f : lift m a = (a', inr f) → ∃ e, f = Failed e.
Proof. unfold lift. destruct (m a) as [a1 [x|e]]; intros [= _ <-]. eauto. Qed.

Lemma platformMemberships_fault {F R} `{AppInstance F} `{Recorder R} fuel table req (a a' : arbiter F R) f :
  platformMemberships fuel table (Decoded req) a = (a', inr f) →
  ∃ status code msg, answerError f = Refused status code msg false ∧ (status / 100 ≠ 2)%Z.
Proof.
  unfold platformMemberships. simpl. destruct (_ || _); [intros [= _ <-]; simpl; eauto 10|].
  destruct (UserObject _ _); [|intros [= _ <-]; simpl; eauto 10].
  intros [e ->]%lift_fault. simpl. eauto 10.
Qed.

(** A call that is answered well was carried out. *)
Lemma SetMemberships_Ok {F R} `{AppInstance F} `{Recorder R} fuel req (m m' : app_mirror F R) :
  SetMemberships fuel req m = (m', Ok tt) →
  platformMemberships fuel (am_table m) (Decoded req) (am_arbiter m) = (am_arbiter m', inl tt).
Proof.
  unfold SetMemberships, client_call. destruct (am_token m) as [token|]; [|done].
  destruct (am_fates m) as [|[e|now rv lost] fates]; [done|done|]. unfold platform_route.
  destruct (admit_ _ _ _ _) as [auth' [f|]] eqn:Had.
  - apply admit_status in Had as (status & code & msg & -> & Hst). simpl. destruct lost; [done|].
    by rewrite bool_decide_eq_false_2.
  - destruct (platformMemberships _ _ _ _) as [a' [[]|f]] eqn:Hrun; destruct lost; try done.
    + by intros [= <-].
    + apply platformMemberships_fault in Hrun as (status & code & msg & -> & Hst).
      by rewrite bool_decide_eq_false_2.
Qed.

Lemma allows_tenant scope realm tenant rest : contains_byte tenant ":" = false →
  realm ≠ sc_platform_realm scope → allows scope realm (tenantPrefix tenant +:+ rest) = true → realm = tenant.
Proof.
  intros Hc Hr. unfold allows, tenantPrefix. change ":" with (String ":" "").
  replace (("gentian:tenant:" +:+ tenant +:+ String ":" "") +:+ rest)
    with ("gentian" +:+ String ":" ("tenant" +:+ String ":" (tenant +:+ String ":" rest))) by (go_str; done).
  rewrite !split_app_sep by done. simpl. rewrite (bool_decide_eq_false_2 _ Hr).
  destruct (_ || _); [done|]. intros E%bool_decide_eq_true. done.
Qed.

(** ** Properties *)

(** A statement reaches every store that is to hold it.  When the receiver
    reports a person's memberships as applied, the rights store has the person in
    exactly the stated groups the realm may assert; and if the realm is one tenant's
    on a cluster that runs app authorization, every app store of the tenant that
    mirrors the realm has the person in exactly the stated groups, and the stores of
    all other components are as they were. *)
Theorem statement_reaches_every_mirror `{Listener} {W F R : Type} `{RightsStoreLaws W} `{AppInstanceLaws F} `{RecorderLaws R}
    (fuel : nat) (scope : Scope) (rc rc1 rc2 : Receiver) (d : delivery) (ev : Event) (s s' : W) (m : app_mirror F R)
    (m' : option (app_mirror F R)) (tenant : string) :
  receive rc d = (rc1, inr ev) → of_a_person ev = true → speaks scope (ev_realm ev) →
  @MembershipEvents.settle _ _ _ (AppStoreMirror fuel) scope rc1 ev (s, Some m) = (rc2, (s', m'), NoContent) →
  tenantOfRealm (am_cluster m) (ev_realm ev) = Ok tenant → tenant ≠ "" →
  let mirroring := mirrors (am_table m) tenant (ev_realm ev) in
  apart (am_arbiter m) → NoDup (recordKey <$> mirroring) →
  in_force scope (ev_realm ev) (ev_user ev) (groups_of ev) s'
  ∧ ∃ m1 user, m' = Some m1 ∧ apart (am_arbiter m1) ∧ UserObject (ev_realm ev) (ev_user ev) = Ok user
    ∧ Forall (person_mirrored (ev_realm ev) user (wanted (ev_realm ev) (groups_of ev)) (am_arbiter m1)) mirroring
    ∧ ∀ k store, (k ∉ recordKey <$> mirroring) → names (am_arbiter m) k store →
        names (am_arbiter m1) k store ∧ ai_stores (a_fga (am_arbiter m1)) !! store = ai_stores (a_fga (am_arbiter m)) !! store.
Proof.
  intros Hrun Hp Hsp Hset Ht Hne mirroring Ha Hnd. unfold MembershipEvents.settle, apply_event in Hset.
  rewrite statement_of_person in Hset by done. simpl in Hset.
  destruct (SetUserGroups scope (ev_realm ev) (ev_user ev) (groups_of ev) s) as [s1 [ch|e]] eqn:Hk; [|done].
  unfold mirror_statement, AppStoreMirror, mirror_SetUserGroups in Hset.
  rewrite Ht, bool_decide_eq_false_2 in Hset by done.
  destruct (SetMemberships fuel _ m) as [m1 [[]|e]] eqn:Hm; simpl in Hset; [|done]. injection Hset as <- <- <-.
  split; [by eapply in_force_after|]. apply SetMemberships_Ok in Hm.
  exists m1. destruct (platformMemberships_spec fuel (am_table m) (mkMemberships tenant (ev_realm ev) (ev_user ev) (groups_of ev)) _ _ Ha Hnd Hm) as (Ha' & (user & Hu & Hall) & Hrest).
  exists user. split_and!; [done..|]. intros k store Hk' Hn. destruct (Hrest k store Hk') as [Hn' Hs]. split; [by apply Hn'|by apply Hs].
Qed.

(** A tenant that keeps its people in a realm of another name has no roles by
    group.  Whatever such a realm states of its people, and however the statement
    ends, no membership of a group of the tenant is written or taken away: the
    projector takes the realm's name for the tenant's. *)
Theorem realm_of_another_name_is_not_heard {W : Type} `{RightsStoreLaws W} (scope : Scope) (t : tenant) (realm rest obj user : string)
    (st : statement) (s s' : W) (r : result Change) :
  tn_keycloak_realm t = Some realm → realm ≠ "" → realm ≠ tn_name t → realm ≠ sc_platform_realm scope →
  contains_byte (tn_name t) ":" = false → Group (tenantPrefix (tn_name t) +:+ rest) = Ok obj →
  realm_of st = tenantRealmName t → project scope st s = (s', r) →
  Tuple user "member" obj ∈ rs_contents s' ↔ Tuple user "member" obj ∈ rs_contents s.
Proof.
  intros Hk Hne Hname Hplat Hc Hg Hst Hrun. eapply project_unowned; [done|]. cbn. rewrite Hst. unfold tenantRealmName.
  rewrite Hk, (bool_decide_eq_false_2 _ Hne), (proj1 (owns_Group _ _ _ _ Hg)).
  apply not_true_is_false. intros Ha. apply Hname. by eapply allows_tenant.
Qed.

(** Ana's statement, carried on to acme's wiki. *)
Module MirrorExample.
Definition editors : Event := mkEvent "event-0003" 30 "acme" TypeUserMemberships "ana" ["/editors"; "gentian:tenant:acme:admins"] "".
#[export] Instance listener : Listener := {|
  ed25519_verify key msg sig := bool_decide (sig = "ok");
  event_of_json body := if decide (body = "editors") then Some editors else None |}.
Definition scope : Scope := mkScope "kernel" "platform".
Definition request : delivery :=
  mkDelivery (1000 * 10 ^ 9) (1000 * 10 ^ 9) (1000 * 10 ^ 9) "keyid=k1,t=1000,sig=b2s=" (Some "editors").
Definition rc0 : Receiver := mkReceiver {["k1" := "key"]} ∅ ∅.
Definition operator : string := "system:serviceaccount:kernel-control:operator".
Definition m0 : app_mirror Toy.fga Toy.record :=
  mkMirror (mkCluster (Ok (Some {[EngineAuthorization := engineWanted]})) (Ok [mkTenant "acme" None; mkTenant "other" (Some "o")]))
    (Ok "token") PlatformExample.table (Some (mkAuth operator (Some (TokenReview.New true PlatformAudience))))
    PlatformExample.before
    [Sent 5 (Ok (Some (mkReview true "" operator [PlatformAudience]))) None].
Definition s0 : mem_server := MemServer ∅ 10.
Definition rc1 : Receiver := (receive rc0 request).1.
Definition out := @MembershipEvents.settle mem_server _ _ (AppStoreMirror 3) scope rc1 editors (s0, Some m0).
End MirrorExample.
Import MirrorExample.

Lemma answered {A B C D} (p : A * (B * C) * D) d : p.2 = d → p = (p.1.1, (p.1.2.1, p.1.2.2), d).
Proof. by destruct p as [[? []] ?]; intros <-. Qed.

Lemma statement_reaches_every_mirror_witness :
  let mirroring := mirrors (am_table m0) "acme" "acme" in
  (Tuple "user:ana" "member" "group:gentian/tenant/acme/admins" ∈ rs_contents out.1.2.1)
  ∧ in_force scope "acme" "ana" (groups_of editors) out.1.2.1
  ∧ ∃ m1 user, out.1.2.2 = Some m1 ∧ apart (am_arbiter m1) ∧ UserObject "acme" "ana" = Ok user
    ∧ Forall (person_mirrored "acme" user (wanted "acme" (groups_of editors)) (am_arbiter m1)) mirroring
    ∧ ∀ k store, (k ∉ recordKey <$> mirroring) → names (am_arbiter m0) k store →
        names (am_arbiter m1) k store ∧ ai_stores (a_fga (am_arbiter m1)) !! store = ai_stores (a_fga (am_arbiter m0)) !! store.
Proof.
  intros mirroring. split; [apply (bool_decide_unpack _); vm_compute; exact I|].
  apply (statement_reaches_every_mirror 3 scope rc0 rc1 out.1.1 request editors s0 out.1.2.1 m0 out.1.2.2 "acme").
  - vm_compute. reflexivity.
  - reflexivity.
  - right. discriminate.
  - apply answered. vm_compute. reflexivity.
  - vm_compute. reflexivity.
  - discriminate.
  - exact ServerExample.sv_apart.
  - apply (bool_decide_unpack _). vm_compute. exact I.
Defined.

(** The administrators of "other", who sign in to the realm "o". *)
Lemma realm_of_another_name_is_not_heard_witness :
  let st := Memberships "o" "ana" ["gentian:tenant:other:admins"] in
  let out := project scope st s0 in
  (∃ ch, out.2 = Ok ch ∧ cg_refused ch = ["gentian:tenant:other:admins"])
  ∧ (Tuple "user:ana" "member" "group:gentian/tenant/other/admins" ∈ rs_contents out.1
     ↔ Tuple "user:ana" "member" "group:gentian/tenant/other/admins" ∈ rs_contents s0).
Proof.
  intros st out. split; [eexists; split; vm_compute; reflexivity|].
  apply (realm_of_another_name_is_not_heard scope (mkTenant "other" (Some "o")) "o" "admins"
           "group:gentian/tenant/other/admins" "user:ana" st s0 out.1 out.2); try (vm_compute; reflexivity); try discriminate.
Defined.
